(* ===== verification/_CoqProject ===== *)
-Q . S2P
Prelude.v
GoNum.v
FloatFacts.v
GoFmt.v
Strconv.v
Messages.v
LineProtocol.v
LineFacts.v
LineScan.v
LineBody.v
Dispatch.v
DispatchFacts.v
DispatchProps.v
Metrics.v
Collect.v
Persist.v
Engine.v
EngineFacts.v
EngineProps.v
Job.v
ExecGrpc.v
Controller.v
SchedDB.v
SchedDBProps.v
Executors.v
SchedServer.v
Flow.v
Transfer.v
TransferProps.v
Ctl.v
Proto.v
ProtoFacts.v
Wire.v
Grpc.v
GrpcFacts.v
Delivery.v
Frames.v
FramesProps.v
Huffman.v
HuffmanFacts.v
Hpack.v
HpackFacts.v
HpackProps.v
Metadata.v
Headers.v
Calls.v
CallsProps.v
Ctx.v
CtxFacts.v
CtxInv.v
CtxProps.v
ClientConn.v
ClientConnProps.v
LuaInstr.v
LuaTable.v
LuaTableProps.v
LuaLength.v
LuaScan.v
LuaScanProps.v
LuaTokens.v
LuaProto.v
LuaCode.v
LuaParser.v
LuaState.v
LuaCall.v
LuaVM.v
LuaLoad.v
LuaVMFacts.v
LuaRun.v
LuaExamples.v
LuaArith.v
LuaGen.v
LuaReads.v
LuaStraight.v
LuaWhole.v
LuaApi.v
LuaAux.v
LuaApiProps.v
LuaEngine.v
LuaEngineProps.v
