(* ===== verification/Prelude.v ===== *)
(** * loadtests: a verification development

    loadtests runs load tests from throw-away cloud machines.  A user sends a request
    with [schedulerctl] (src/cmd/schedulerctl) to the scheduler ([schedulerd],
    src/cmd/schedulerd, src/scheduler).  The scheduler checks the Lua script, computes
    how many executors the rate needs, creates a droplet for each and waits until the
    [executord] on it registers (src/executor/cmd/executord).  It then sends each executor
    a Run command with its share of the rate.  An executor (src/executor/controller)
    checks the command, starts workers, and feeds them jobs at a growing rate; a worker
    runs the script once per job in a fresh Lua program (src/executor/engine) and records
    metrics, which are written to InfluxDB in its line protocol
    (src/executor/persister and the vendored InfluxDB client).

    ** Conventions

    A Go call returns an [outcome]: a value, an error, or a panic.  Integers are [Z] with
    the wrap-around of their width written out, [float64] is IEEE-754 binary64
    ([SpecFloat]), conversions are those of amd64.  Goroutines, channels, locks and
    [select] are labelled transition systems: a label is one scheduling choice or one
    answer of the world, the step function is executable, and the theorems quantify over
    all label sequences ([run] below).  What is not code of the repository (the network,
    JSON, the cloud) is a class or an argument; so is the Lua VM in the parts that use the
    engine, and LuaEngine puts the engine on the machine.

    ** Parts

    - Prelude, GoNum, FloatFacts, GoFmt, Strconv: outcomes, runs, Go's integers and
      floats and how they are printed and parsed.  FloatFacts proves what the truncation
      of a product and the ceiling of a quotient give.
    - Messages: the structs of the two services (executor/pb, scheduler/pb) and
      [verifyCommand] (executor_grpc_listener.go).
    - Dispatch, DispatchFacts, DispatchProps: [runScript] of controller.go and [execute] of
      worker.go.  State [sys]: the dispatcher's program counter and variables, the job
      channel as a count, the tickers, workers, flushes and the wait group.  No schedule
      panics, jobs are conserved, the rate is bounded and grows as computed, nothing runs
      after the return, and once told to stop every schedule ends.
    - LineProtocol, LineFacts, LineScan, LineBody: encoding of points and the
      parser of a write body (models/points.go, pkg/escape).  What the client writes is
      read back, or refused when a field has no value.
    - Metrics, Collect, Persist: the metrics of a worker
      (metrics_gatherer.go), their collection while workers report ([getBatchPoints]), and
      the way of a batch through [sendBatchPoints], the persister and the client
      (client.go).  Points are neither lost nor duplicated; a batch arrives whole or not
      at all.
    - Engine, EngineFacts, EngineProps: lua.go, engine.go and http_binding.go.  A
      Lua function is a tree of its interactions with the host; the stack of [runSteps] is
      kept with its indices, and [Execute_spec] refines it to "each step gets the result
      of the one before".
    - Job: one job of a worker and the checks of [RunInstructions].
    - ExecGrpc, Controller: registration, [ExecuteCommand], [listenForHalt], the start of
      executord; [RunInstructions], and that OK means the last batch was persisted.
    - SchedDB, SchedDBProps: the scheduler's database of waiting droplets, the goroutines
      of [LaunchExecutors] and racing registrations (db.go).  Counts, leaks, and when the
      lock is lost.
    - Executors: [each] and the operations on all executors (db.go).
    - SchedServer: the handlers of server.go, the phases a client sees, the shares of the
      rate, and how they fit the checks of the executors; all executors of a load test
      together stay within the requested maximum.
    - Ctl: the request and the output of schedulerctl, the settings of schedulerd.
    - Proto, ProtoFacts, Wire: the protobuf wire format as far as the messages of the two
      services use it (golang/protobuf/proto), and their fields and oneof (executor/pb,
      scheduler/pb).  [Message] is the interface, [LawfulMessage] its laws; every message
      is read back as it was written, and decoding is safe on all bytes, which is what the
      other parts assume of a received message ([params_typed], [req_typed]).
    - Flow, Transfer, TransferProps: one stream of a gRPC connection from client to server
      (grpc/transport).  Flow has the quota pools, the inbound flows (control.go) and the
      receive buffer (transport.go); Transfer interleaves [http2Client.Write], the frames
      on the wire, [http2Server.handleData], the reads of the handler, and the window
      updates on their way back.  The state [xfer] keeps the program counter of [Write],
      both pools, both flows, the buffers and what is on the wire.  No schedule loses,
      repeats or reorders a byte, breaks a limit, runs forever or gets stuck.
    - Grpc, GrpcFacts, Delivery: messages on a stream and the unary call at the server
      (rpc_util.go, server.go).  Delivery puts Transfer, the framing and the protobuf
      messages together: the handler receives the messages that were sent.
    - Frames, FramesProps: writing and reading of HTTP/2 frames (x/net/http2/frame.go),
      and that the frames of Transfer are such.
    - Huffman, HuffmanFacts, Hpack, HpackFacts, HpackProps: the coding of headers
      (x/net/http2/hpack), with the tables of both sides.  What is encoded is decoded, for
      any sequence of blocks and changes of size; decoding arbitrary bytes is safe but for
      one panic that is stated.
    - Metadata, Headers, Calls, CallsProps: how a gRPC call is opened,
      answered and ended with headers (grpc/metadata, transport/http_util.go, and the
      parts of http2_client.go and http2_server.go that send and take headers): requests
      reach the server with method, timeout and metadata, and the status comes back.
    - ClientConn, ClientConnProps: the connection of a client and its unary calls (grpc:
      clientconn.go, picker.go, call.go, and the state of an http2Client).  The state
      [clientSys] keeps the state of the connection, its channels and transports, the goroutine that
      dials and watches, and the calls of [Invoke].  No channel is closed twice and no
      transport leaked; a call sends its request once on each transport at most, again when
      one breaks; after [Close] all comes to rest.
    - Ctx, CtxFacts, CtxInv, CtxProps: contexts (x/net/context/context.go) in a store with
      sharing; calls of cancel functions, timers and creations are steps that interleave.
      A cancellation reaches all descendants, has a cause, and settles.
    - LuaInstr, LuaTable, LuaTableProps, LuaLength, LuaScan, LuaScanProps, LuaTokens: parts
      of the Lua implementation (Shopify/go-lua): the words of the machine
      (instructions.go), tables with their array and map (tables.go, types.go), and the
      scanner (scanner.go) as a monad over its state.  A table is a map; its length is a
      border; the scanner ends on every text and reads back what is written.
    - LuaProto, LuaCode, LuaParser: the compiler (code.go, parser.go, parts of types.go).  A
      [parser] is the scanner, the functions that are open with the code made so far, and
      the labels and variables in scope; [parsing] is the monad over it.  Every method of a
      function or of the parser is an action of the same name; the nonterminals are tied in
      [grammar].
    - LuaState, LuaCall, LuaVM, LuaLoad: the machine (vm.go, stack.go, debug.go,
      tag_methods.go, parts of types.go and lua.go).  An [lstate] is the stack, the calls in
      progress and the heap of tables, closures, upvalues and prototypes; [lua] is the monad
      over it, which ends with a value, an error that [protect] recovers, a panic that it
      does not, or without fuel.  What the functions of Go that it calls keep outside of it
      is its [World], any type.  Instructions are the [exec_] definitions, [call_] ties
      calls from Go to them, [run_text] compiles and runs a text.
    - LuaVMFacts, LuaRun, LuaExamples: what the machine keeps and computes:
      captured variables, results of calls, concatenation, the loss of a metamethod, and
      whole programs, some of which show where it differs from Lua.
    - LuaArith, LuaGen, LuaReads, LuaStraight, LuaWhole: compiler and machine together, for
      programs of local variables bound to arithmetic and a result.  LuaArith says how a
      program is written and what it means; LuaGen what the methods of code.go leave in
      the code, the registers and the constants; LuaReads follows the descent of parser.go
      on an expression, LuaStraight its statements, up to the prototype of the text;
      LuaWhole runs that prototype.  [straight_line_programs]: the text, compiled and run,
      returns what it means.
    - LuaApi, LuaAux, LuaApiProps: what functions of Go do to the machine: the API (lua.go),
      the checks of arguments with their messages, metatables and tables of functions
      (auxiliary.go), and what [Info] says of a call (debug.go).  For such a function its
      part of the stack is a list ([stack_operations]).
    - LuaEngine, LuaEngineProps: the engine once more (lua.go, http_binding.go), each
      function as the calls of the API that it is written as, with the variables of the
      program as the world of the machine.  [steps_on_machine] refines the assignments and
      readings of steps of Engine to it, through metatables and errors, and whole scripts
      are run.

    ** Bounds and fuel

    The retry loop has fuel for its twelve attempts and [sendBatchPoints_attempts] shows
    that they are enough.  The scanners of the line protocol recurse on the text or take
    its length as fuel; the round trips show that it is enough.  A varint has ten bytes;
    [unmarshalType] and [skip] take the length of the buffer as fuel, which
    [decoding_safe] shows to be enough: running out would be a panic.  The Huffman loops
    have fuel for the bits of a word, the writers of headers for the length of the buffer
    ([decoder_safe], [requests_received]).  The methods of a context climb to smaller
    indices, a cancellation descends at most the length of the store
    ([cancellation_reaches]).  The search for the length of a table doubles and halves an
    integer of 64 bits in 65 rounds ([length_is_border]); the loops of the scanner take the
    bytes left and two more ([scanner_total]).  A jump list is walked for at most the
    instructions that there are; [grammar] has two rounds for each of the 200 levels that
    [enterLevel] allows.  The machine takes one unit for each instruction of an [execute] and
    for each level of calls from Go: a program that needs more has no result ([Diverge]),
    the theorems about single instructions need none, and [straight_line_programs] gives
    the units that its programs need.  Its bounds are those of the compiler: 200 local
    variables, 200 levels of nesting, 255 registers, and 256 constants in the operand of an
    instruction.  Every other loop is structural, or a
    transition system without fuel.

    ** Left out

    Of Lua the libraries, none of which the engine opens, precompiled chunks, coroutines,
    hooks, and of the API what the engine has no use for: user values, upvalues of other
    functions, tracebacks, unsigned numbers and files.  The theorems on a whole execution are
    proved against the class of Engine, those on steps also on the machine.
    The powers of numbers are a class, [GoMath].  Of gRPC and HTTP/2 settings, pings, credentials,
    the closing of connections by the server, and the server and transport of x/net/http2, which gRPC does
    not use; reflection and the rest of protobuf; the DigitalOcean clients, flag parsing, logging
    and terraform; the test programs executor-client and influx-client; real time, which
    appears only as ticks, timeouts and readings of a clock.  A script that never ends
    has no interaction tree. *)
From Stdlib Require Import ZArith Lia.
From stdpp Require Export base option list gmap strings.

#[global] Open Scope Z_scope.

(** * Outcomes of Go calls

    A Go call returns a value, returns a non-nil [error], or panics.  An [error]
    is what its [Error()] method prints; a panic carries its message. *)

Record error := Errorf { Error : string }.

#[export] Instance error_eq_dec : EqDecision error.
Proof. solve_decision. Defined.

Inductive outcome (A : Type) : Type :=
  | Ok (a : A)
  | Err (e : error)
  | Panic (msg : string).
Arguments Ok {A} _.
Arguments Err {A} _.
Arguments Panic {A} _.

#[export] Instance outcome_eq_dec {A} `{EqDecision A} : EqDecision (outcome A).
Proof. solve_decision. Defined.

#[export] Instance outcome_ret : MRet outcome := fun A a => Ok a.

#[export] Instance outcome_bind : MBind outcome := fun A B f m =>
  match m with
  | Ok a => f a
  | Err e => Err e
  | Panic p => Panic p
  end.

Definition panics {A} (m : outcome A) : bool :=
  match m with Panic _ => true | _ => false end.

Definition is_ok {A} (m : outcome A) : bool :=
  match m with Ok _ => true | _ => false end.

(** [err != nil] tests on the pair-returning calls whose value is ignored. *)
Definition err_of {A} (m : outcome A) : option error :=
  match m with Err e => Some e | _ => None end.

Lemma outcome_bind_ok {A B} (m : outcome A) (f : A → outcome B) b :
  (m ≫= f) = Ok b ↔ ∃ a, m = Ok a ∧ f a = Ok b.
Proof. destruct m; naive_solver. Qed.

Lemma outcome_bind_err {A B} (m : outcome A) (f : A → outcome B) e :
  (m ≫= f) = Err e ↔ m = Err e ∨ ∃ a, m = Ok a ∧ f a = Err e.
Proof. destruct m; naive_solver. Qed.

Lemma outcome_bind_panic {A B} (m : outcome A) (f : A → outcome B) p :
  (m ≫= f) = Panic p ↔ m = Panic p ∨ ∃ a, m = Ok a ∧ f a = Panic p.
Proof. destruct m; naive_solver. Qed.

(** * Labelled steps and reachability *)

Section reachability.
Context {St Lbl : Type} (step : St → Lbl → St → Prop).

(** [run s ls t]: the steps labelled [ls] lead from [s] to [t]. *)
Inductive run : St → list Lbl → St → Prop :=
  | run_nil s : run s [] s
  | run_cons s l t ls u : step s l t → run t ls u → run s (l :: ls) u.

Lemma run_one s l t : step s l t → run s [l] t.
Proof. intros H. by eapply run_cons; [|apply run_nil]. Qed.

Lemma run_app s ls t ms u : run s ls t → run t ms u → run s (ls ++ ms) u.
Proof. induction 1; intros; [done|]. simpl. eapply run_cons; eauto. Qed.

Lemma run_app_inv s ls ms u :
  run s (ls ++ ms) u → ∃ t, run s ls t ∧ run t ms u.
Proof.
  revert s. induction ls as [|l ls IH]; simpl; intros s H.
  - exists s. split; [apply run_nil|done].
  - inversion H; subst. edestruct IH as (t' & ? & ?); [done|].
    exists t'. split; [by eapply run_cons|done].
Qed.

Lemma run_snoc_inv s ls l u :
  run s (ls ++ [l]) u → ∃ t, run s ls t ∧ step t l u.
Proof.
  intros (t & Ht & Hl)%run_app_inv. inversion Hl; subst.
  match goal with H : run _ [] _ |- _ => inversion H; subst end. eauto.
Qed.

(** An invariant holds along every run from a state that satisfies it. *)
Lemma run_invariant (I : St → Prop) :
  (∀ s l t, I s → step s l t → I t) → ∀ s ls t, run s ls t → I s → I t.
Proof. intros Hstep s ls t. induction 1; eauto. Qed.

(** The same for a relation that also reads the labels so far. *)
Lemma run_history_invariant (I : list Lbl → St → Prop) s0 :
  I [] s0 →
  (∀ h s l t, I h s → step s l t → I (h ++ [l]) t) →
  ∀ ls t, run s0 ls t → I ls t.
Proof.
  intros H0 Hstep ls. induction ls as [|l ls IH] using rev_ind; intros t Hr.
  - inversion Hr; by subst.
  - apply run_snoc_inv in Hr as (u & Hu & Hl). eauto.
Qed.

(** Every step decreases [measure]: runs are no longer than it. *)
Lemma run_bounded (measure : St → nat) (I : St → Prop) :
  (∀ s l t, I s → step s l t → I t ∧ (measure t < measure s)%nat) →
  ∀ s ls t, run s ls t → I s → (length ls + measure t ≤ measure s)%nat.
Proof.
  intros Hstep s ls t. induction 1 as [|s l t ls u Hs Hr IH]; intros HI; [simpl; lia|].
  destruct (Hstep _ _ _ HI Hs) as [HI' Hm]. specialize (IH HI'). simpl. lia.
Qed.

(** The same with a measure in [Z]. *)
Lemma run_boundedZ (measure : St → Z) (I : St → Prop) (P : Lbl → Prop) :
  (∀ s, I s → 0 ≤ measure s) →
  (∀ s l t, I s → P l → step s l t → I t ∧ measure t < measure s) →
  ∀ s ls t, run s ls t → Forall P ls → I s → Z.of_nat (length ls) ≤ measure s.
Proof.
  intros Hpos Hstep s ls t Hr HP HI.
  assert (Z.of_nat (length ls) + measure t ≤ measure s ∧ I t) as [? ?%Hpos]; [|lia].
  induction Hr as [|s l t ls u Hs Hr IH]; [simpl; auto with lia|].
  inversion HP; subst. destruct (Hstep _ _ _ HI ltac:(done) Hs) as [HI' Hm].
  destruct IH; [done..|]. simpl length. split; [lia|done].
Qed.

(** When every non-final state has a step decreasing the measure, a final state is
    reached. *)
Lemma run_reaches (measure : St → Z) (I final : St → Prop) (P : Lbl → Prop) :
  (∀ s, I s → 0 ≤ measure s) →
  (∀ s, I s → final s ∨ ∃ l t, P l ∧ step s l t ∧ I t ∧ measure t < measure s) →
  ∀ s, I s → ∃ ls t, run s ls t ∧ Forall P ls ∧ I t ∧ final t.
Proof.
  intros Hpos Hprog s HI.
  assert (∀ n s, I s → measure s < Z.of_nat n →
    ∃ ls t, run s ls t ∧ Forall P ls ∧ I t ∧ final t) as Hn.
  { clear s HI. induction n as [|n IH]; intros s HI Hm.
    - specialize (Hpos _ HI). lia.
    - destruct (Hprog _ HI) as [Hf|(l & t & Hl & Hst & HIt & Hlt)].
      + exists [], s. split_and!; [constructor|constructor|done|done].
      + destruct (IH t HIt ltac:(lia)) as (ls & u & Hr & HP & HIu & Hf).
        exists (l :: ls), u. split_and!; [by econstructor|by constructor|done|done]. }
  apply (Hn (Z.to_nat (measure s + 1)) s HI). specialize (Hpos _ HI). lia.
Qed.
End reachability.

#[export] Hint Constructors run : core.

(** * Arithmetic on [Z] shared by the components *)

Lemma pow2_pos n : 0 ≤ n → 0 < 2 ^ n.
Proof. intros. apply Z.pow_pos_nonneg; lia. Qed.

Lemma pow2_add a b : 0 ≤ a → 0 ≤ b → 2 ^ (a + b) = 2 ^ a * 2 ^ b.
Proof. intros. by rewrite Z.pow_add_r. Qed.

Lemma div_mul_le a b : 0 < b → a / b * b ≤ a.
Proof. intros. pose proof (Z.mul_div_le a b). nia. Qed.

Lemma div_mul_gt a b : 0 < b → a < (a / b + 1) * b.
Proof. intros. pose proof (Z.mul_succ_div_gt a b). nia. Qed.

Lemma div_ge a b k : 0 < b → k * b ≤ a → k ≤ a / b.
Proof. intros. apply Z.div_le_lower_bound; lia. Qed.

Lemma div_lt a b k : 0 < b → a < k * b → a / b < k.
Proof. intros. apply Z.div_lt_upper_bound; lia. Qed.

Create HintDb zarith_go.
#[export] Hint Resolve pow2_pos : zarith_go.

(** Case analysis on the outermost test of the goal or a hypothesis. *)
Ltac case_test :=
  match goal with
  | |- context [if ?b then _ else _] => destruct b eqn:?
  | H : context [if ?b then _ else _] |- _ => destruct b eqn:?
  end.

(** Turn boolean comparisons on [Z] in the context into propositions. *)
Ltac zify_bool :=
  repeat match goal with
  | H : (_ && _)%bool = true |- _ => apply andb_prop in H as [? ?]
  | H : (_ <? _) = true |- _ => apply Z.ltb_lt in H
  | H : (_ <? _) = false |- _ => apply Z.ltb_ge in H
  | H : (_ <=? _) = true |- _ => apply Z.leb_le in H
  | H : (_ <=? _) = false |- _ => apply Z.leb_gt in H
  | H : (_ =? _) = true |- _ => apply Z.eqb_eq in H
  | H : (_ =? _) = false |- _ => apply Z.eqb_neq in H
  end.

(** [lia] on goals with [/] and [mod] (or [Z.quot], [Z.rem]) by constants. *)
Ltac div_lia := Z.to_euclidean_division_equations; lia.

(** * Sums and counts over lists *)

Section sums.
Context {A : Type}.

Definition sumZ (f : A → Z) (l : list A) : Z := foldr (fun x acc => f x + acc) 0 l.

Lemma sumZ_app f l1 l2 : sumZ f (l1 ++ l2) = sumZ f l1 + sumZ f l2.
Proof. induction l1; simpl; lia. Qed.

Lemma sumZ_insert f l i x y :
  l !! i = Some x → sumZ f (<[i:=y]> l) = sumZ f l - f x + f y.
Proof.
  revert i. induction l as [|z l IH]; intros [|i] H; simplify_eq/=; [lia|].
  rewrite (IH i) by done. lia.
Qed.

Lemma sumZ_nonneg f l : (∀ x, 0 ≤ f x) → 0 ≤ sumZ f l.
Proof. intros Hf. induction l as [|x l IH]; simpl; [lia|]. specialize (Hf x). lia. Qed.

Lemma sumZ_zero f l : (∀ x, 0 ≤ f x) → sumZ f l = 0 → Forall (fun x => f x = 0) l.
Proof.
  intros Hf. induction l as [|x l IH]; simpl; intros H; [done|].
  pose proof (Hf x). pose proof (sumZ_nonneg f l Hf). constructor; [lia|]. apply IH. lia.
Qed.

Lemma sumZ_replicate f n x : sumZ f (replicate n x) = Z.of_nat n * f x.
Proof. induction n; simpl; lia. Qed.

Lemma sumZ_lookup f l i x : (∀ x, 0 ≤ f x) → l !! i = Some x → f x ≤ sumZ f l.
Proof.
  intros Hf. revert i. induction l as [|y l IH]; intros [|i] H; simplify_eq/=.
  - pose proof (sumZ_nonneg f l Hf). lia.
  - specialize (IH _ H). pose proof (Hf y). lia.
Qed.

(** How many elements satisfy a test. *)
Definition countb (P : A → bool) : list A → Z := sumZ (fun x => if P x then 1 else 0).

Lemma countb_app P l1 l2 : countb P (l1 ++ l2) = countb P l1 + countb P l2.
Proof. apply sumZ_app. Qed.

Lemma countb_snoc P l x : countb P (l ++ [x]) = countb P l + (if P x then 1 else 0).
Proof. rewrite countb_app. unfold countb. simpl. lia. Qed.

Lemma countb_nonneg P l : 0 ≤ countb P l.
Proof. apply sumZ_nonneg. intros. by destruct (P x). Qed.
End sums.
