(* ===== verification/GoNum.v ===== *)
(** * Go's numbers

    Machine integers of Go as [Z] with their wrap-around, integer division with its
    run-time panic, [float64] as the IEEE-754 binary64 of the Standard Library's
    [SpecFloat] (prec 53, emax 1024), and the conversions between them that the
    program uses.  Conversion of an out-of-range, infinite or NaN [float64] to an
    integer follows amd64 ([CVTTSD2SQ]): it gives the least integer of the type. *)
From Stdlib Require Import ZArith Lia.
From stdpp Require Import base option.
From S2P Require Import Prelude.
From Stdlib Require Import SpecFloat.

(** ** Integers *)

Definition wrap (w z : Z) : Z := (z + 2 ^ (w - 1)) mod 2 ^ w - 2 ^ (w - 1).
Definition int32_of (z : Z) : Z := wrap 32 z.
Definition int64_of (z : Z) : Z := wrap 64 z.

Definition min_int64 : Z := - 2 ^ 63.
Definition max_int64 : Z := 2 ^ 63 - 1.

Definition is_int32 (z : Z) : Prop := - 2 ^ 31 ≤ z < 2 ^ 31.
Definition is_int64 (z : Z) : Prop := - 2 ^ 63 ≤ z < 2 ^ 63.

Definition div_panic : string := "runtime error: integer divide by zero".

(** [a / b] on Go's [int32]: truncated, panics on zero. *)
Definition div32 (a b : Z) : outcome Z :=
  if b =? 0 then Panic div_panic else Ok (int32_of (Z.quot a b)).

Lemma wrap_id w z : 0 < w → - 2 ^ (w - 1) ≤ z < 2 ^ (w - 1) → wrap w z = z.
Proof.
  intros Hw Hz. unfold wrap.
  assert (2 ^ w = 2 * 2 ^ (w - 1)) as Hp
    by (rewrite <- Z.pow_succ_r by lia; f_equal; lia).
  rewrite Z.mod_small by lia. lia.
Qed.

Lemma wrap_range w z : 0 < w → - 2 ^ (w - 1) ≤ wrap w z < 2 ^ (w - 1).
Proof.
  intros Hw. unfold wrap.
  assert (2 ^ w = 2 * 2 ^ (w - 1)) as Hp
    by (rewrite <- Z.pow_succ_r by lia; f_equal; lia).
  pose proof (Z.mod_pos_bound (z + 2 ^ (w - 1)) (2 ^ w)). 
  assert (0 < 2 ^ (w - 1)) by (apply pow2_pos; lia). lia.
Qed.

Lemma int32_id z : is_int32 z → int32_of z = z.
Proof. intros. by apply wrap_id. Qed.

Lemma int64_id z : is_int64 z → int64_of z = z.
Proof. intros. by apply wrap_id. Qed.

Lemma int32_range z : is_int32 (int32_of z).
Proof. by apply (wrap_range 32). Qed.

Lemma int64_range z : is_int64 (int64_of z).
Proof. by apply (wrap_range 64). Qed.

(** ** float64 *)

Abbreviation float64 := spec_float.

Definition prec64 : Z := 53.
Definition emax64 : Z := 1024.

Definition fadd : float64 → float64 → float64 := SFadd prec64 emax64.
Definition fsub : float64 → float64 → float64 := SFsub prec64 emax64.
Definition fmul : float64 → float64 → float64 := SFmul prec64 emax64.
Definition fdiv : float64 → float64 → float64 := SFdiv prec64 emax64.
(** The comparisons are false when an operand is NaN. *)
Definition flt : float64 → float64 → bool := SFltb.
Definition fle : float64 → float64 → bool := SFleb.
Definition feq : float64 → float64 → bool := SFeqb.

Definition valid64 (f : float64) : bool := valid_binary prec64 emax64 f.

(** [float64(z)] for an integer [z]. *)
Definition float_of_int (z : Z) : float64 := binary_normalize prec64 emax64 z 0 false.

(** The literal [n / d], correctly rounded. *)
Definition float_lit (n d : Z) : float64 := fdiv (float_of_int n) (float_of_int d).

(** The magnitude of a finite [float64] truncated to an integer: [m * 2^e] with
    the fraction dropped. *)
Definition trunc_mag (m : positive) (e : Z) : Z := Z.shiftl (Z.pos m) e.

(** [int(f)]. *)
Definition int_of_float (f : float64) : Z :=
  match f with
  | S754_zero _ => 0
  | S754_finite s m e =>
      let t := if s then - trunc_mag m e else trunc_mag m e in
      if (min_int64 <=? t) && (t <=? max_int64) then t else min_int64
  | _ => min_int64
  end.

(** [math.Ceil(f)]. *)
Definition ceil_mag (m : positive) (e : Z) : Z := - Z.shiftl (- Z.pos m) e.

Definition fceil (f : float64) : float64 :=
  match f with
  | S754_finite s m e =>
      if 0 <=? e then f
      else if s then
        let t := trunc_mag m e in
        if t =? 0 then S754_zero true else float_of_int (- t)
      else float_of_int (ceil_mag m e)
  | _ => f
  end.

(** ** time.Duration: an int64 count of nanoseconds *)

Definition Millisecond : Z := 1000000.
Definition Second : Z := 1000000000.

(** [d.Seconds()]. *)
Definition Seconds (d : Z) : float64 :=
  let sec := Z.quot d Second in
  let nsec := Z.rem d Second in
  fadd (float_of_int sec) (fmul (float_of_int nsec) (float_lit 1 1000000000)).

Example seconds_100ms : Seconds (100 * Millisecond) = float_lit 1 10.
Proof. vm_compute. reflexivity. Qed.

Example ceil_examples :
  map (fun q => int_of_float (fceil (float_lit (fst q) (snd q))))
    [(7, 2); (-7, 2); (0, 5); (1000, 500); (1, 500); (2147483647, 1)] =
  [4; -3; 0; 2; 1; 2147483647].
Proof. vm_compute. reflexivity. Qed.
