(* ===== verification/FloatFacts.v ===== *)
(** * Facts on binary64 rounding

    [SpecFloat] defines the arithmetic but the Standard Library proves nothing about
    its rounding.  This file bounds the result of [binary_round_aux] (one of the two
    neighbours of the exact value, the exact one when representable) and derives what
    the conversions of the program need: conversion of integers is exact, truncated
    products and the ceiling of a quotient. *)
From Stdlib Require Import ZArith Lia.
From stdpp Require Import base option.
From S2P Require Import Prelude GoNum.
From Stdlib Require Import SpecFloat.

Lemma digits2_pos_bounds p :
  2 ^ (Z.pos (digits2_pos p) - 1) ≤ Z.pos p < 2 ^ Z.pos (digits2_pos p).
Proof.
  induction p as [p IH|p IH|]; simpl digits2_pos; [| |simpl; lia].
  all: rewrite Pos2Z.inj_succ.
  all: replace (Z.succ (Z.pos (digits2_pos p)) - 1)
         with (Z.succ (Z.pos (digits2_pos p) - 1)) by lia.
  all: rewrite !Z.pow_succ_r by lia; lia.
Qed.

Lemma digits2_pos_unique p d :
  2 ^ (d - 1) ≤ Z.pos p < 2 ^ d → Z.pos (digits2_pos p) = d.
Proof.
  intros [Hl Hu]. pose proof (digits2_pos_bounds p) as [Hl' Hu'].
  destruct (Z.lt_trichotomy (Z.pos (digits2_pos p)) d) as [H|[H|H]]; [exfalso|done|exfalso].
  - assert (2 ^ Z.pos (digits2_pos p) ≤ 2 ^ (d - 1)) by (apply Z.pow_le_mono_r; lia). lia.
  - assert (d ≤ Z.pos (digits2_pos p) - 1) by lia.
    destruct (Z.le_gt_cases 0 d).
    + assert (2 ^ d ≤ 2 ^ (Z.pos (digits2_pos p) - 1)) by (apply Z.pow_le_mono_r; lia). lia.
    + rewrite (Z.pow_neg_r 2 d) in Hu by lia. lia.
Qed.

Lemma digits2_pos_le p d : 0 ≤ d → Z.pos p < 2 ^ d → Z.pos (digits2_pos p) ≤ d.
Proof.
  intros Hd Hu. pose proof (digits2_pos_bounds p) as [Hl _].
  destruct (Z.le_gt_cases (Z.pos (digits2_pos p)) d); [done|].
  assert (2 ^ d ≤ 2 ^ (Z.pos (digits2_pos p) - 1)) by (apply Z.pow_le_mono_r; lia). lia.
Qed.

Lemma iter_pos_nat {A} (f : A → A) p x : iter_pos f p x = Nat.iter (Pos.to_nat p) f x.
Proof.
  revert x. induction p as [p IH|p IH|]; intros x; simpl iter_pos.
  - rewrite !IH, Pos2Nat.inj_xI, <- Nat.iter_add.
    rewrite Nat.iter_succ_r. f_equal. lia.
  - rewrite !IH, Pos2Nat.inj_xO, <- Nat.iter_add. f_equal. lia.
  - done.
Qed.

Lemma shr_1_spec m r s :
  0 ≤ m →
  shr_m (shr_1 (Build_shr_record m r s)) = m / 2 ∧
  (r = false → s = false → m mod 2 = 0 →
   shr_1 (Build_shr_record m r s) = Build_shr_record (m / 2) false false).
Proof.
  intros Hm. destruct m as [|[p|p|]|p]; try lia; simpl.
  - split; [done|]. by intros -> ->.
  - split; [|intros _ _ Hp; exfalso; rewrite Pos2Z.inj_xI in Hp; div_lia].
    rewrite Pos2Z.inj_xI. div_lia.
  - split; [|intros -> -> _; f_equal].
    all: rewrite Pos2Z.inj_xO; div_lia.
  - done.
Qed.

Lemma shr_iter n m r s :
  0 ≤ m →
  shr_m (Nat.iter n shr_1 (Build_shr_record m r s)) = m / 2 ^ Z.of_nat n ∧
  (r = false → s = false → m mod 2 ^ Z.of_nat n = 0 →
   Nat.iter n shr_1 (Build_shr_record m r s) =
     Build_shr_record (m / 2 ^ Z.of_nat n) false false).
Proof.
  revert m r s. induction n as [|n IH]; intros m r s Hm.
  - simpl. rewrite Z.div_1_r. split; [done|]. by intros -> ->.
  - rewrite Nat.iter_succ_r. destruct (shr_1_spec m r s Hm) as [H1 H2].
    destruct (shr_1 (Build_shr_record m r s)) as [m' r' s'] eqn:E; simpl in H1; subst m'.
    destruct (IH (m / 2) r' s') as [I1 I2]; [apply Z.div_pos; lia|].
    rewrite Nat2Z.inj_succ, Z.pow_succ_r by lia.
    rewrite <- Z.div_div by (try apply pow2_pos; lia). split; [done|].
    intros -> -> Hmod.
    rewrite Z.rem_mul_r in Hmod by (try apply Z.pow_nonzero; lia).
    pose proof (Z.mod_pos_bound m 2 ltac:(lia)).
    pose proof (Z.mod_pos_bound (m / 2) (2 ^ Z.of_nat n) ltac:(apply pow2_pos; lia)).
    specialize (H2 eq_refl eq_refl ltac:(lia)). injection H2 as -> ->.
    apply I2; [done|done|lia].
Qed.

Lemma round_nearest_even_cases m l :
  round_nearest_even m l = m ∨ (round_nearest_even m l = m + 1 ∧ l ≠ loc_Exact).
Proof.
  destruct l as [|[]]; simpl; try tauto; [|right; done].
  destruct (Z.even m); [tauto|right; done].
Qed.

(** The shift of [binary_round_aux], when [m] has at least 53 digits and the result
    is in the normal range. *)
Lemma shr_fexp_normal m e l d :
  Z.pos (digits2_pos m) = d → 53 ≤ d → -1074 ≤ d + e - 53 →
  ∃ t, shr_fexp prec64 emax64 (Z.pos m) e l = (t, e + (d - 53)) ∧
       shr_m t = Z.pos m / 2 ^ (d - 53) ∧
       (l = loc_Exact → Z.pos m mod 2 ^ (d - 53) = 0 → loc_of_shr_record t = loc_Exact).
Proof.
  intros Hd Hd53 He. unfold shr_fexp. simpl Zdigits2. rewrite Hd.
  assert (fexp prec64 emax64 (d + e) - e = d - 53) as ->
    by (unfold fexp, emin, prec64, emax64; lia).
  unfold shr. destruct (d - 53) as [|p|p] eqn:E; [| |lia].
  - exists (shr_record_of_loc (Z.pos m) l). rewrite Z.pow_0_r, Z.div_1_r.
    split; [by rewrite Z.add_0_r|]. split; [by destruct l as [|[]]|by intros ->].
  - rewrite iter_pos_nat.
    destruct (shr_record_of_loc (Z.pos m) l) as [m' r s] eqn:F.
    assert (m' = Z.pos m) as -> by (destruct l as [|[]]; simpl in F; congruence).
    destruct (shr_iter (Pos.to_nat p) (Z.pos m) r s ltac:(lia)) as [H1 H2].
    rewrite positive_nat_Z in H1, H2.
    eexists; split; [reflexivity|]. split; [exact H1|].
    intros -> Hmod. simpl in F. injection F as <- <-. by rewrite H2.
Qed.

(** The second shift of [binary_round_aux]: of a mantissa of 53 digits, and of the carry. *)
Lemma shr_fexp_id q e :
  Z.pos (digits2_pos q) = 53 → -1074 ≤ e →
  shr_fexp prec64 emax64 (Z.pos q) e loc_Exact = (Build_shr_record (Z.pos q) false false, e).
Proof.
  intros Hq He. unfold shr_fexp. simpl Zdigits2. rewrite Hq.
  replace (fexp prec64 emax64 (53 + e) - e) with 0 by (unfold fexp, emin, prec64, emax64; lia). done.
Qed.

Lemma shr_fexp_carry e :
  -1074 ≤ e → shr_fexp prec64 emax64 (2 ^ 53) e loc_Exact = (Build_shr_record (2 ^ 52) false false, e + 1).
Proof.
  intros He. unfold shr_fexp.
  replace (fexp prec64 emax64 (Zdigits2 (2 ^ 53) + e) - e) with 1
    by (unfold fexp, emin, prec64, emax64; change (Zdigits2 (2 ^ 53)) with 54; lia). done.
Qed.

(** The carried mantissa has the value of the quotient. *)
Lemma carry_mags e :
  trunc_mag (2 ^ 52) (e + 1) = Z.shiftl (2 ^ 53) e ∧ ceil_mag (2 ^ 52) (e + 1) = - Z.shiftl (- 2 ^ 53) e.
Proof.
  unfold trunc_mag, ceil_mag. change (2 ^ 53) with (Z.shiftl (Z.pos (2 ^ 52)) 1) at 1.
  change (- 2 ^ 53) with (Z.shiftl (- Z.pos (2 ^ 52)) 1).
  rewrite !Z.shiftl_shiftl by lia. split; [f_equal; lia|do 2 f_equal; lia].
Qed.

(** [binary_round_aux] on a mantissa of [d >= 53] digits, in the normal range: the
    result is [q * 2^(e + d - 53)] where [q] is the quotient of the mantissa by
    [2^(d - 53)] or its successor, and the quotient itself when the input is exact. *)
Lemma round_aux_all s m e l d :
  Z.pos (digits2_pos m) = d → 53 ≤ d → -1074 ≤ d + e - 53 →
  ∃ q mr er,
    binary_round_aux prec64 emax64 s (Z.pos m) e l =
      (if er <=? 971 then S754_finite s mr er else S754_infinity s) ∧
    trunc_mag mr er = Z.shiftl q (e + d - 53) ∧
    ceil_mag mr er = - Z.shiftl (- q) (e + d - 53) ∧
    er = e + d - 53 + (if q =? 2 ^ 53 then 1 else 0) ∧
    2 ^ 52 ≤ q ≤ 2 ^ 53 ∧ (q ≠ 2 ^ 53 → Z.pos mr = q) ∧
    (q = Z.pos m / 2 ^ (d - 53) ∨
     (q = Z.pos m / 2 ^ (d - 53) + 1 ∧
      ¬ (l = loc_Exact ∧ Z.pos m mod 2 ^ (d - 53) = 0))).
Proof.
  intros Hd Hd53 Hlo.
  destruct (shr_fexp_normal m e l d Hd Hd53 Hlo) as (t & Ht & Htm & Htl).
  unfold binary_round_aux. rewrite Ht.
  set (q0 := Z.pos m / 2 ^ (d - 53)) in *.
  assert (2 ^ 52 ≤ q0 < 2 ^ 53) as Hq0.
  { pose proof (digits2_pos_bounds m) as [Hm1 Hm2]. rewrite Hd in Hm1, Hm2.
    split.
    - apply div_ge; [apply pow2_pos; lia|]. rewrite <- pow2_add by lia.
      by replace (52 + (d - 53)) with (d - 1) by lia.
    - apply div_lt; [apply pow2_pos; lia|]. rewrite <- pow2_add by lia.
      by replace (53 + (d - 53)) with d by lia. }
  set (q := round_nearest_even (shr_m t) (loc_of_shr_record t)) in *.
  assert (q = q0 ∨ (q = q0 + 1 ∧ ¬ (l = loc_Exact ∧ Z.pos m mod 2 ^ (d - 53) = 0))) as Hq.
  { destruct (round_nearest_even_cases (shr_m t) (loc_of_shr_record t)) as [H|[H1 H2]].
    - left. unfold q. congruence.
    - right. split; [unfold q; congruence|]. intros [Hl Hmod]. by apply H2, Htl. }
  clearbody q. exists q.
  assert (2 ^ 52 ≤ q ≤ 2 ^ 53) as Hqb by lia.
  destruct (Z.eq_dec q (2 ^ 53)) as [Hq53|Hq53].
  - exists (Pos.pow 2 52), (e + (d - 53) + 1). subst q. rewrite shr_fexp_carry by lia.
    cbn [shr_m]. change (2 ^ 52) with (Z.pos (Pos.pow 2 52)) at 1. cbv iota.
    change (emax64 - prec64) with 971. change (Z.pos (2 ^ 52)%positive) with (2 ^ 52).
    destruct (carry_mags (e + (d - 53))) as [H1 H2]. replace (e + d - 53) with (e + (d - 53)) by lia.
    rewrite Z.eqb_refl. split_and!; try done; lia.
  - destruct q as [|q|q]; try lia. exists q, (e + (d - 53)).
    rewrite shr_fexp_id by (try (apply digits2_pos_unique; lia); lia). cbn [shr_m].
    change (emax64 - prec64) with 971.
    assert ((Z.pos q =? 2 ^ 53) = false) as -> by lia.
    unfold trunc_mag, ceil_mag. replace (e + (d - 53)) with (e + d - 53) by lia.
    split_and!; try done; lia.
Qed.

(** The same when the result cannot overflow. *)
Lemma round_aux_cases s m e l d :
  Z.pos (digits2_pos m) = d → 53 ≤ d → -1074 ≤ d + e - 53 → d + e < 1024 →
  ∃ q mr er,
    binary_round_aux prec64 emax64 s (Z.pos m) e l = S754_finite s mr er ∧
    trunc_mag mr er = Z.shiftl q (e + d - 53) ∧
    ceil_mag mr er = - Z.shiftl (- q) (e + d - 53) ∧
    er = e + d - 53 + (if q =? 2 ^ 53 then 1 else 0) ∧
    2 ^ 52 ≤ q ≤ 2 ^ 53 ∧ (q ≠ 2 ^ 53 → Z.pos mr = q) ∧
    (q = Z.pos m / 2 ^ (d - 53) ∨
     (q = Z.pos m / 2 ^ (d - 53) + 1 ∧
      ¬ (l = loc_Exact ∧ Z.pos m mod 2 ^ (d - 53) = 0))).
Proof.
  intros Hd Hd53 Hlo Hhi.
  destruct (round_aux_all s m e l d Hd Hd53 Hlo) as (q & mr & er & H & Ht & Hc & Her & Hrest).
  exists q, mr, er. rewrite H.
  assert ((er <=? 971) = true) as -> by (destruct (q =? 2 ^ 53); lia). done.
Qed.

Lemma iter_xO p n : Z.pos (Pos.iter xO p n) = Z.pos p * 2 ^ Z.pos n.
Proof.
  revert p. induction n as [|n IH] using Pos.peano_ind; intros p.
  - simpl. lia.
  - rewrite Pos.iter_succ, Pos2Z.inj_xO, IH, Pos2Z.inj_succ, Z.pow_succ_r by lia. lia.
Qed.

(** An integer below 2^53 converts exactly, to a 53-digit mantissa. *)
Lemma float_of_int_pos p d :
  Z.pos (digits2_pos p) = d → d ≤ 53 →
  ∃ m, float_of_int (Z.pos p) = S754_finite false m (d - 53) ∧
       Z.pos m = Z.pos p * 2 ^ (53 - d) ∧ Z.pos (digits2_pos m) = 53.
Proof.
  intros Hd Hle. pose proof (digits2_pos_bounds p) as [Hl Hu]. rewrite Hd in Hl, Hu.
  unfold float_of_int, binary_normalize, binary_round.
  rewrite Hd, Z.add_0_r.
  assert (fexp prec64 emax64 d = d - 53) as -> by (unfold fexp, emin, prec64, emax64; lia).
  assert (∃ m, shl_align p 0 (d - 53) = (m, d - 53) ∧ Z.pos m = Z.pos p * 2 ^ (53 - d))
    as (m & -> & Hm).
  { unfold shl_align. rewrite Z.sub_0_r. destruct (d - 53) as [|n|n] eqn:E; [|lia|].
    - exists p. replace (53 - d) with 0 by lia. split; [done|lia].
    - exists (Pos.iter xO p n). split; [done|]. rewrite iter_xO. f_equal. f_equal. lia. }
  assert (Z.pos (digits2_pos m) = 53) as Hdm.
  { apply digits2_pos_unique. rewrite Hm. split.
    - replace (2 ^ (53 - 1)) with (2 ^ (d - 1) * 2 ^ (53 - d))
        by (rewrite <- pow2_add by lia; f_equal; lia).
      apply Z.mul_le_mono_nonneg_r; [apply Z.pow_nonneg|]; lia.
    - replace (2 ^ 53) with (2 ^ d * 2 ^ (53 - d))
        by (rewrite <- pow2_add by lia; f_equal; lia).
      apply Z.mul_lt_mono_pos_r; [apply pow2_pos|]; lia. }
  destruct (round_aux_cases false m (d - 53) loc_Exact 53)
    as (q & mr & er & -> & _ & _ & Her & Hq & Hmr & Hc); [lia..|].
  pose proof (digits2_pos_bounds m) as [_ Hm2]. rewrite Hdm in Hm2.
  replace (53 - 53) with 0 in Hc by lia. rewrite Z.pow_0_r, Z.div_1_r, Z.mod_1_r in Hc.
  assert (q = Z.pos m) as -> by tauto.
  assert ((Z.pos m =? 2 ^ 53) = false) as Hne by lia. rewrite Hne in Her.
  exists mr. rewrite Hmr by lia.
  assert (mr = m) as -> by (apply Pos2Z.inj, Hmr; lia).
  replace er with (d - 53) by lia. done.
Qed.

Lemma int_of_float_pos m e :
  0 ≤ trunc_mag m e ≤ max_int64 → int_of_float (S754_finite false m e) = trunc_mag m e.
Proof.
  intros H. unfold int_of_float.
  assert ((min_int64 <=? trunc_mag m e) && (trunc_mag m e <=? max_int64) = true) as ->; [|done].
  unfold min_int64 in *. lia.
Qed.

Lemma shiftl_nonneg_mul q e : 0 ≤ e → Z.shiftl q e = q * 2 ^ e.
Proof. intros. by apply Z.shiftl_mul_pow2. Qed.

Lemma shiftl_neg_div q e : e ≤ 0 → Z.shiftl q e = q / 2 ^ (- e).
Proof. intros. by apply Z.shiftl_div_pow2. Qed.

(** [float64(z)] converted back is [z]. *)
Lemma float_int_roundtrip z : 0 ≤ z < 2 ^ 53 → int_of_float (float_of_int z) = z.
Proof.
  intros Hz. destruct z as [|p|p]; [done| |lia].
  pose proof (digits2_pos_le p 53 ltac:(lia) ltac:(lia)) as Hd.
  destruct (float_of_int_pos p _ eq_refl Hd) as (m & -> & Hm & _).
  assert (trunc_mag m (Z.pos (digits2_pos p) - 53) = Z.pos p) as Ht.
  { unfold trunc_mag. rewrite shiftl_neg_div by lia. rewrite Hm.
    replace (- (Z.pos (digits2_pos p) - 53)) with (53 - Z.pos (digits2_pos p)) by lia.
    apply Z.div_mul. apply Z.pow_nonzero; lia. }
  rewrite int_of_float_pos; rewrite Ht; [done|]. unfold max_int64. lia.
Qed.

(** ** Products *)

Lemma digits2_mul_53 m1 m2 :
  Z.pos (digits2_pos m1) = 53 → Z.pos (digits2_pos m2) = 53 →
  105 ≤ Z.pos (digits2_pos (m1 * m2)) ≤ 106.
Proof.
  intros H1 H2. pose proof (digits2_pos_bounds m1) as B1. pose proof (digits2_pos_bounds m2) as B2.
  rewrite H1 in B1. rewrite H2 in B2.
  assert (2 ^ 104 ≤ Z.pos (m1 * m2) < 2 ^ 106) as [Hl Hu].
  { rewrite Pos2Z.inj_mul. change (2 ^ 104) with (2 ^ 52 * 2 ^ 52).
    change (2 ^ 106) with (2 ^ 53 * 2 ^ 53). nia. }
  split; [|apply digits2_pos_le; lia].
  pose proof (digits2_pos_bounds (m1 * m2)) as [_ B].
  destruct (Z.le_gt_cases 105 (Z.pos (digits2_pos (m1 * m2)))); [done|].
  assert (2 ^ Z.pos (digits2_pos (m1 * m2)) ≤ 2 ^ 104) by (apply Z.pow_le_mono_r; lia). lia.
Qed.

(** [q / 2^j] for a quotient [q] rounded down or up from [P / 2^n]. *)
Lemma trunc_round_le P n j q :
  0 ≤ n → 0 ≤ j → P / 2 ^ n ≤ q → P / 2 ^ (n + j) ≤ q / 2 ^ j.
Proof.
  intros Hn Hj Hq. rewrite pow2_add by lia.
  rewrite <- Z.div_div by (try apply pow2_pos; try apply Z.pow_nonzero; lia).
  apply Z.div_le_mono; [apply pow2_pos|]; lia.
Qed.

Lemma trunc_round_lt P n j q k :
  0 ≤ n → 0 ≤ j → q ≤ P / 2 ^ n + 1 → P + 2 ^ n < k * 2 ^ (n + j) → q / 2 ^ j < k.
Proof.
  intros Hn Hj Hq Hk. rewrite pow2_add in Hk by lia.
  pose proof (pow2_pos n Hn). pose proof (pow2_pos j Hj).
  apply div_lt; [done|]. pose proof (div_mul_le P (2 ^ n) ltac:(lia)). nia.
Qed.

Lemma tenth_value : float_lit 1 10 = S754_finite false 7205759403792794 (-56).
Proof. vm_compute. reflexivity. Qed.

(** [int(float64(r) * 0.1)] is [r / 10]: the rounding errors of the constant and of the
    product never carry the result over an integer. *)
Lemma tenth_trunc r :
  0 ≤ r < 2 ^ 31 → int_of_float (fmul (float_of_int r) (float_lit 1 10)) = r / 10.
Proof.
  intros Hr. rewrite tenth_value. destruct r as [|p|p]; [done| |lia].
  pose proof (digits2_pos_le p 31 ltac:(lia) ltac:(lia)) as Hd31.
  destruct (float_of_int_pos p _ eq_refl ltac:(lia)) as (m & -> & Hm & Hdm).
  set (d := Z.pos (digits2_pos p)) in *. set (M := 7205759403792794%positive).
  unfold fmul, SFmul. change (xorb false false) with false.
  pose proof (digits2_mul_53 m M Hdm eq_refl) as HD.
  set (D := Z.pos (digits2_pos (m * M))) in *.
  destruct (round_aux_cases false (m * M) (d - 53 + -56) loc_Exact D)
    as (q & mr & er & -> & Ht & _ & _ & _ & _ & Hc); [done|lia..|].
  assert (Z.pos (m * M) = Z.pos p * Z.pos M * 2 ^ (53 - d)) as HP
    by (rewrite Pos2Z.inj_mul, Hm; lia).
  set (j := 162 - d - D). set (n := D - 53) in *.
  assert (2 ^ (n + j) = 2 ^ 56 * 2 ^ (53 - d)) as H109
    by (rewrite <- pow2_add by lia; f_equal; lia).
  assert (2 ^ n ≤ 2 ^ 53) as Hn by (apply Z.pow_le_mono_r; lia).
  assert (2 ^ 22 ≤ 2 ^ (53 - d)) as H53 by (apply Z.pow_le_mono_r; lia).
  set (W := 2 ^ (53 - d)) in *.
  assert (Z.pos p / 10 * 10 ≤ Z.pos p < (Z.pos p / 10 + 1) * 10) as H10 by div_lia.
  set (k := Z.pos p / 10) in *.
  assert (Z.pos M * 10 = 2 ^ 56 + 4) as HM by done.
  assert (trunc_mag mr er = k) as Htr.
  { rewrite Ht. replace (d - 53 + -56 + D - 53) with (- j) by lia.
    rewrite shiftl_neg_div by lia. rewrite Z.opp_involutive.
    assert (Z.pos (m * M) / 2 ^ n ≤ q ≤ Z.pos (m * M) / 2 ^ n + 1) as [Hq1 Hq2] by lia.
    assert (k ≤ q / 2 ^ j).
    { etransitivity; [|apply (trunc_round_le (Z.pos (m * M)) n j q); lia].
      apply div_ge; [apply pow2_pos; lia|]. rewrite H109, HP. nia. }
    assert (q / 2 ^ j < k + 1); [|lia].
    apply (trunc_round_lt (Z.pos (m * M)) n); [lia..|]. rewrite H109, HP.
    assert (Z.pos p * Z.pos M + 2 ^ 40 ≤ (k + 1) * 2 ^ 56) by lia.
    assert (2 ^ 53 < 2 ^ 40 * W) by nia. nia. }
  rewrite int_of_float_pos; rewrite Htr; [done|]. unfold max_int64. lia.
Qed.

(** ** Quotients *)

Lemma ceil_div_le P j k : 0 ≤ j → k * 2 ^ j < P → k < - (- P / 2 ^ j).
Proof.
  intros Hj Hk. pose proof (pow2_pos j Hj).
  assert (- P / 2 ^ j < - k); [|lia]. apply div_lt; lia.
Qed.

Lemma ceil_div_ge P j k : 0 ≤ j → P ≤ k * 2 ^ j → - (- P / 2 ^ j) ≤ k.
Proof.
  intros Hj Hk. pose proof (pow2_pos j Hj).
  assert (- k ≤ - P / 2 ^ j); [|lia]. apply div_ge; lia.
Qed.

Lemma new_location_exact m r : r = 0 → new_location m r = loc_Exact.
Proof. intros ->. unfold new_location. by destruct (Z.even m). Qed.

(** The quotient of two 53-digit mantissas, as [SFdiv] computes it. *)
Lemma div_core_53 m1 m2 e1 e2 :
  Z.pos (digits2_pos m1) = 53 → Z.pos (digits2_pos m2) = 53 → -1000 ≤ e1 - e2 →
  ∃ q0 l, SFdiv_core_binary prec64 emax64 (Z.pos m1) e1 (Z.pos m2) e2 =
            (Z.pos q0, e1 - e2 - 53, l) ∧
    Z.pos q0 = Z.pos m1 * 2 ^ 53 / Z.pos m2 ∧
    53 ≤ Z.pos (digits2_pos q0) ≤ 54 ∧
    ((Z.pos m1 * 2 ^ 53) mod Z.pos m2 = 0 → l = loc_Exact).
Proof.
  intros H1 H2 He. pose proof (digits2_pos_bounds m1) as B1. pose proof (digits2_pos_bounds m2) as B2.
  rewrite H1 in B1. rewrite H2 in B2.
  unfold SFdiv_core_binary. simpl Zdigits2. rewrite H1, H2.
  replace (Z.min (fexp prec64 emax64 (53 + e1 - (53 + e2))) (e1 - e2)) with (e1 - e2 - 53)
    by (unfold fexp, emin, prec64, emax64; lia).
  replace (e1 - e2 - (e1 - e2 - 53)) with 53 by lia. cbv iota.
  rewrite shiftl_nonneg_mul by lia.
  assert (2 ^ 52 ≤ Z.pos m1 * 2 ^ 53 / Z.pos m2 < 2 ^ 54) as [Q1 Q2].
  { split; [apply div_ge; [lia|nia]|apply div_lt; [lia|nia]]. }
  unfold Z.div, Z.modulo in *.
  destruct (Z.div_eucl (Z.pos m1 * 2 ^ 53) (Z.pos m2)) as [q0 r] eqn:E.
  destruct q0 as [|q0|q0]; try lia. exists q0, (new_location (Z.pos m2) r).
  split_and!; [done|done| | |].
  - pose proof (digits2_pos_bounds q0) as [_ B].
    destruct (Z.le_gt_cases 53 (Z.pos (digits2_pos q0))); [done|].
    assert (2 ^ Z.pos (digits2_pos q0) ≤ 2 ^ 52) by (apply Z.pow_le_mono_r; lia). lia.
  - apply digits2_pos_le; lia.
  - apply new_location_exact.
Qed.

(** The ceiling of a rounded quotient: [c] is [a / b] scaled by [2 ^ J] and truncated,
    [q] is [c] or, when the scaled quotient is not exact, its successor. *)
Lemma ceil_scaled a b K J X Y c q (exact : Prop) :
  0 < b → (K - 1) * b < a ≤ K * b → 0 ≤ J → 2 ^ J * Y = b * X → 0 < Y ≤ 2 ^ 54 → 2 ^ 75 ≤ X → c = a * X / Y →
  (c = K * 2 ^ J → a = K * b → exact) → (q = c ∨ (q = c + 1 ∧ ¬ exact)) →
  - (- q / 2 ^ J) = K.
Proof.
  intros Hb [HK1 HK2] HJ HX2 HY HXl Hdiv Hex Hc. pose proof (pow2_pos J HJ) as HJp.
  assert (K - 1 < - (- q / 2 ^ J)).
  { apply ceil_div_le; [lia|]. assert ((K - 1) * 2 ^ J + 1 ≤ c); [|lia].
    rewrite Hdiv. apply div_ge; [lia|].
    assert ((K - 1) * b * X ≤ (a - 1) * X) by (apply Z.mul_le_mono_nonneg_r; lia).
    replace (((K - 1) * 2 ^ J + 1) * Y) with ((K - 1) * (2 ^ J * Y) + Y) by lia. rewrite HX2. lia. }
  assert (- (- q / 2 ^ J) ≤ K); [|lia].
  apply ceil_div_ge; [lia|].
  assert (c ≤ K * 2 ^ J) as Hle.
  { rewrite Hdiv. assert (a * X / Y < K * 2 ^ J + 1); [|lia]. apply div_lt; [lia|].
    assert (a * X ≤ K * b * X) by (apply Z.mul_le_mono_nonneg_r; lia).
    replace ((K * 2 ^ J + 1) * Y) with (K * (2 ^ J * Y) + Y) by lia. rewrite HX2. lia. }
  destruct Hc as [->|[-> Hne]]; [done|].
  assert (c ≠ K * 2 ^ J); [|lia]. intros Heq. apply Hne, Hex; [done|].
  pose proof (div_mul_le (a * X) Y ltac:(lia)) as Hm.
  rewrite <- Hdiv, Heq, <- Z.mul_assoc, HX2, Z.mul_assoc in Hm.
  apply Z.mul_le_mono_pos_r in Hm; lia.
Qed.

(** [math.Ceil(float64(a) / float64(b))] is the exact ceiling of [a / b]. *)
Lemma ceil_quotient a b :
  0 ≤ a < 2 ^ 31 → 0 < b < 2 ^ 53 →
  int_of_float (fceil (fdiv (float_of_int a) (float_of_int b))) = - (- a / b).
Proof.
  intros Ha Hb. destruct b as [|pb|pb]; try lia.
  pose proof (digits2_pos_le pb 53 ltac:(lia) ltac:(lia)) as Hdb.
  destruct (float_of_int_pos pb _ eq_refl Hdb) as (m2 & -> & Hm2 & H2).
  destruct a as [|pa|pa]; [done| |lia].
  pose proof (digits2_pos_le pa 31 ltac:(lia) ltac:(lia)) as Hda.
  destruct (float_of_int_pos pa _ eq_refl ltac:(lia)) as (m1 & -> & Hm1 & H1).
  set (da := Z.pos (digits2_pos pa)) in *. set (db := Z.pos (digits2_pos pb)) in *.
  destruct (div_core_53 m1 m2 (da - 53) (db - 53) H1 H2 ltac:(lia))
    as (q0 & l & Hcore & Hq0 & HD & Hl).
  unfold fdiv, SFdiv. rewrite Hcore. change (xorb false false) with false.
  set (D := Z.pos (digits2_pos q0)) in *.
  destruct (round_aux_cases false q0 (da - 53 - (db - 53) - 53) l D)
    as (q & mr & er & -> & _ & Hceil & Her & _ & _ & Hc); [done|lia..|].
  set (n := D - 53) in *. set (J := 53 + db - da - n).
  replace (da - 53 - (db - 53) - 53 + D - 53) with (- J) in * by lia.
  rewrite shiftl_neg_div in Hceil by lia. rewrite Z.opp_involutive in Hceil.
  unfold fceil. assert ((0 <=? er) = false) as -> by (destruct (q =? 2 ^ 53); lia).
  set (K := - (- Z.pos pa / Z.pos pb)).
  assert ((K - 1) * Z.pos pb < Z.pos pa ≤ K * Z.pos pb) as [HK1 HK2].
  { pose proof (div_mul_le (- Z.pos pa) (Z.pos pb)). pose proof (div_mul_gt (- Z.pos pa) (Z.pos pb)). lia. }
  assert (K ≤ 2 ^ 31) as HKb by nia.
  assert (0 < K) as HKpos by nia.
  (* everything below is over the common denominator [2 ^ (106 - da)] *)
  set (X := 2 ^ (106 - da)).
  assert (Z.pos m1 * 2 ^ 53 = Z.pos pa * X) as HX1.
  { rewrite Hm1. unfold X. rewrite <- Z.mul_assoc, <- pow2_add by lia. do 2 f_equal. lia. }
  assert (2 ^ J * (Z.pos m2 * 2 ^ n) = Z.pos pb * X) as HX2.
  { rewrite Hm2. unfold X.
    replace (106 - da) with (J + (53 - db) + n) by lia. rewrite !pow2_add by lia. lia. }
  assert (2 ^ 75 ≤ X) as HXl by (apply Z.pow_le_mono_r; lia).
  assert (1 ≤ 2 ^ n ≤ 2) as Hn.
  { split; [pose proof (pow2_pos n); lia|]. change 2 with (2 ^ 1) at 2.
    apply Z.pow_le_mono_r; lia. }
  pose proof (digits2_pos_bounds m2) as [_ Bm2]. rewrite H2 in Bm2.
  assert (Z.pos q0 / 2 ^ n = Z.pos pa * X / (Z.pos m2 * 2 ^ n)) as Hdiv.
  { rewrite Hq0, HX1, Z.div_div by lia. done. }
  set (Y := Z.pos m2 * 2 ^ n) in *. assert (0 < Y ≤ 2 ^ 54) as HY by nia.
  assert (ceil_mag mr er = K) as Hmag.
  { rewrite Hceil. apply (ceil_scaled (Z.pos pa) (Z.pos pb) K J X Y _ q (l = loc_Exact ∧ Z.pos q0 mod 2 ^ n = 0)
      ltac:(lia) (conj HK1 HK2) ltac:(lia) HX2 HY HXl Hdiv); [|exact Hc].
    intros _ Hexact. assert (Z.pos m1 * 2 ^ 53 = (K * 2 ^ J * 2 ^ n) * Z.pos m2) as Hmul.
    { rewrite HX1, Hexact, <- Z.mul_assoc, <- HX2. unfold Y. lia. }
    split; [apply Hl; rewrite Hmul; apply Z.mod_mul; lia|].
    rewrite Hq0, Hmul, Z.div_mul by lia. apply Z.mod_mul. lia. }
  rewrite Hmag. apply float_int_roundtrip. lia.
Qed.

(** ** Growing products *)

Lemma fle_finite_pos m1 e1 g :
  fle (S754_finite false m1 e1) g = true →
  g = S754_infinity false ∨
  ∃ m e, g = S754_finite false m e ∧ (e1 < e ∨ (e1 = e ∧ Z.pos m1 ≤ Z.pos m)).
Proof.
  unfold fle, SFleb, SFcompare.
  destruct g as [[]|[]| |[] m e]; try done; [by left|]. intros H. right.
  exists m, e. split; [done|]. destruct (Z.compare_spec e1 e); [|lia|done].
  right. split; [done|]. change (Pos.compare_cont Eq m1 m) with (Pos.compare m1 m) in H.
  destruct (Pos.compare_spec m1 m); [subst; lia|lia|done].
Qed.

Lemma fle_finite_pos_r m e m2 e2 :
  fle (S754_finite false m e) (S754_finite false m2 e2) = true →
  e < e2 ∨ (e = e2 ∧ Z.pos m ≤ Z.pos m2).
Proof.
  intros [H|(m' & e' & [= <- <-] & H)]%fle_finite_pos; [done|tauto].
Qed.

Lemma valid64_finite s m e :
  valid64 (S754_finite s m e) = true → -1074 < e → Z.pos (digits2_pos m) = 53.
Proof.
  unfold valid64, valid_binary, bounded, canonical_mantissa, fexp, emin, prec64, emax64.
  intros [H%Z.eqb_eq _]%andb_prop He. lia.
Qed.

Definition fone : float64 := float_of_int 1.
Definition ftwo31 : float64 := float_of_int (2 ^ 31).

Lemma flt_finite_pos m e m2 e2 :
  flt (S754_finite false m e) (S754_finite false m2 e2) =
    (e <? e2) || ((e =? e2) && (Z.pos m <? Z.pos m2)).
Proof.
  unfold flt, SFltb, SFcompare. destruct (Z.compare_spec e e2) as [->|H|H].
  - change (Pos.compare_cont Eq m m2) with (Pos.compare m m2).
    destruct (Pos.compare_spec m m2); subst; lia.
  - lia.
  - lia.
Qed.

Lemma fle_finite m e m2 e2 :
  fle (S754_finite false m e) (S754_finite false m2 e2) =
    (e <? e2) || ((e =? e2) && (Z.pos m <=? Z.pos m2)).
Proof.
  unfold fle, SFleb, SFcompare. destruct (Z.compare_spec e e2) as [->|H|H].
  - change (Pos.compare_cont Eq m m2) with (Pos.compare m m2).
    destruct (Pos.compare_spec m m2); subst; lia.
  - lia.
  - lia.
Qed.

(** Not below 1: at least 1, or NaN. *)
Lemma flt_fone_false g :
  flt g fone = false →
  g = S754_nan ∨ g = S754_infinity false ∨
  ∃ m e, g = S754_finite false m e ∧ (-52 < e ∨ (e = -52 ∧ 2 ^ 52 ≤ Z.pos m)).
Proof.
  change fone with (S754_finite false 4503599627370496 (-52)).
  destruct g as [[]|[]| |[] m e]; try done; try tauto.
  rewrite flt_finite_pos. intros H. right. right. exists m, e. split; [done|]. lia.
Qed.

(** For a number that is not NaN, not being below 1 is being at least 1. *)
Lemma fle_fone g : flt g fone = false → fle g ftwo31 = true → fle fone g = true.
Proof.
  intros [->|[->|(m & e & -> & H)]]%flt_fone_false Hg; [done..|].
  change fone with (S754_finite false 4503599627370496 (-52)). rewrite fle_finite. lia.
Qed.

(** A number in [0.1, 1) truncates to 0. *)
Lemma below_one_trunc g :
  valid64 g = true → flt g (float_lit 1 10) = false → flt g fone = true → int_of_float g = 0.
Proof.
  rewrite tenth_value. change fone with (S754_finite false 4503599627370496 (-52)).
  destruct g as [[]|[]| |[] m e]; try done. rewrite !flt_finite_pos. intros Hv H1 H2.
  assert (Z.pos (digits2_pos m) = 53) as Hd by (apply (valid64_finite false _ e); [done|lia]).
  pose proof (digits2_pos_bounds m) as [Bm Bm']. rewrite Hd in Bm, Bm'.
  assert (trunc_mag m e = 0) as Ht; [|by rewrite int_of_float_pos, Ht by (rewrite Ht; done)].
  unfold trunc_mag. rewrite shiftl_neg_div by lia.
  apply Z.div_small. split; [lia|].
  assert (2 ^ 53 ≤ 2 ^ (- e)) by (apply Z.pow_le_mono_r; lia). lia.
Qed.

(** A number in [1, 2^31] truncates to at least 1, at most 2^31. *)
Lemma above_one_trunc g :
  valid64 g = true → flt g fone = false → fle g ftwo31 = true → 1 ≤ int_of_float g ≤ 2 ^ 31.
Proof.
  intros Hv [->|[->|(m & e & -> & H)]]%flt_fone_false Hg; [done..|].
  change ftwo31 with (S754_finite false 4503599627370496 (-21)) in Hg.
  rewrite fle_finite in Hg.
  assert (Z.pos (digits2_pos m) = 53) as Hd by (apply (valid64_finite false _ e); [done|lia]).
  pose proof (digits2_pos_bounds m) as [Bm Bm']. rewrite Hd in Bm, Bm'.
  assert (1 ≤ trunc_mag m e ≤ 2 ^ 31) as Ht.
  { unfold trunc_mag. rewrite shiftl_neg_div by lia. split.
    - apply div_ge; [apply pow2_pos; lia|].
      assert (2 ^ (- e) ≤ 2 ^ 52) by (apply Z.pow_le_mono_r; lia). lia.
    - assert (Z.pos m / 2 ^ (- e) < 2 ^ 31 + 1); [|lia].
      apply div_lt; [apply pow2_pos; lia|].
      destruct (Z.eq_dec e (-21)) as [->|]; [change (2 ^ (- -21)) with 2097152; lia|].
      assert (2 ^ 22 ≤ 2 ^ (- e)) by (apply Z.pow_le_mono_r; lia). lia. }
  rewrite int_of_float_pos; [done|]. unfold max_int64. lia.
Qed.

(** A positive integer times a factor of at least 1. *)
Lemma growth_core p mg eg :
  Z.pos p < 2 ^ 31 → valid64 (S754_finite false mg eg) = true →
  (-52 < eg ∨ (eg = -52 ∧ 2 ^ 52 ≤ Z.pos mg)) →
  ∃ mr er, fmul (float_of_int (Z.pos p)) (S754_finite false mg eg) =
             (if er <=? 971 then S754_finite false mr er else S754_infinity false) ∧
    Z.pos p ≤ trunc_mag mr er ∧
    (eg < -21 ∨ (eg = -21 ∧ Z.pos mg ≤ 2 ^ 52) → er ≤ 971 ∧ trunc_mag mr er ≤ max_int64).
Proof.
  intros Hr Hv H1.
  assert (Z.pos (digits2_pos mg) = 53) as Hdg by (apply (valid64_finite false _ eg); [done|lia]).
  pose proof (digits2_pos_le p 31 ltac:(lia) ltac:(lia)) as Hd31.
  destruct (float_of_int_pos p _ eq_refl ltac:(lia)) as (m & -> & Hm & Hdm).
  set (d := Z.pos (digits2_pos p)) in *.
  unfold fmul, SFmul. change (xorb false false) with false.
  pose proof (digits2_mul_53 m mg Hdm Hdg) as HD.
  set (D := Z.pos (digits2_pos (m * mg))) in *.
  pose proof (digits2_pos_bounds m) as [_ Bm]. rewrite Hdm in Bm.
  pose proof (digits2_pos_bounds mg) as [Bg _]. rewrite Hdg in Bg.
  destruct (round_aux_all false (m * mg) (d - 53 + eg) loc_Exact D)
    as (q & mr & er & -> & Ht & _ & Her & Hqb & _ & Hc); [done|lia..|].
  set (E := d - 53 + eg + D - 53) in *. exists mr, er. split; [done|]. rewrite Ht. split.
  - destruct (Z.le_gt_cases E 0) as [HE0|HE0].
    + rewrite shiftl_neg_div by lia.
      etransitivity; [|apply (trunc_round_le (Z.pos (m * mg)) (D - 53) (- E) q); lia].
      apply div_ge; [apply pow2_pos; lia|].
      replace (D - 53 + - E) with (53 - d + - eg) by lia. rewrite pow2_add by lia.
      rewrite Pos2Z.inj_mul, Hm.
      assert (2 ^ (- eg) ≤ Z.pos mg).
      { etransitivity; [|exact Bg]. apply Z.pow_le_mono_r; lia. }
      pose proof (pow2_pos (53 - d)). nia.
    + rewrite shiftl_nonneg_mul by lia. pose proof (pow2_pos E). nia.
  - intros H2. assert (E ≤ 9) as HE.
    { destruct H2 as [H2|[H2 H2']]; [lia|].
      assert (D ≤ 105); [|lia]. apply digits2_pos_le; [lia|].
      rewrite Pos2Z.inj_mul. change (2 ^ 105) with (2 ^ 53 * 2 ^ 52). nia. }
    split; [destruct (q =? 2 ^ 53); lia|]. unfold max_int64.
    destruct (Z.le_gt_cases E 0) as [HE0|HE0].
    + rewrite shiftl_neg_div by lia.
      assert (q / 2 ^ (- E) < 2 ^ 63); [|lia].
      pose proof (pow2_pos (- E)). apply div_lt; nia.
    + rewrite shiftl_nonneg_mul by lia.
      assert (1 ≤ 2 ^ E ≤ 2 ^ 9); [|nia].
      split; [pose proof (pow2_pos E); lia|apply Z.pow_le_mono_r; lia].
Qed.

(** Multiplying by a factor that is not below 1 does not decrease, or overflows to the
    least integer. *)
Lemma growth_any r g :
  0 < r < 2 ^ 31 → valid64 g = true → flt g fone = false →
  r ≤ int_of_float (fmul (float_of_int r) g) ≤ max_int64 ∨
  int_of_float (fmul (float_of_int r) g) = min_int64.
Proof.
  intros Hr Hv Hg. destruct r as [|p|p]; try lia.
  pose proof (digits2_pos_le p 31 ltac:(lia) ltac:(lia)) as Hd31.
  apply flt_fone_false in Hg as [->|[->|(m & e & -> & H)]].
  1,2: right; destruct (float_of_int_pos p _ eq_refl ltac:(lia)) as (? & -> & _); done.
  destruct (growth_core p m e ltac:(lia) Hv H) as (mr & er & -> & Hle & _).
  destruct (er <=? 971); [|by right]. simpl.
  destruct ((min_int64 <=? trunc_mag mr er) && (trunc_mag mr er <=? max_int64)) eqn:E; [|by right].
  left. zify_bool. lia.
Qed.

(** ... and by a factor of at most 2^31 does not overflow. *)
Lemma growth_trunc r g :
  0 < r < 2 ^ 31 → valid64 g = true → fle fone g = true → fle g ftwo31 = true →
  r ≤ int_of_float (fmul (float_of_int r) g) ≤ max_int64.
Proof.
  intros Hr Hv H1 H2.
  change fone with (S754_finite false 4503599627370496 (-52)) in H1.
  change ftwo31 with (S754_finite false 4503599627370496 (-21)) in H2.
  apply fle_finite_pos in H1 as [->|(mg & eg & -> & H1)]; [done|].
  apply fle_finite_pos_r in H2. destruct r as [|p|p]; [lia| |lia].
  destruct (growth_core p mg eg ltac:(lia) Hv ltac:(lia)) as (mr & er & -> & Hle & Hup).
  destruct (Hup ltac:(lia)) as [Her Hmax].
  assert ((er <=? 971) = true) as -> by lia. rewrite int_of_float_pos; lia.
Qed.

(** The least integer stays the least integer. *)
Lemma growth_min g :
  valid64 g = true → flt g fone = false →
  int_of_float (fmul (float_of_int min_int64) g) = min_int64.
Proof.
  intros Hv Hg. change (float_of_int min_int64) with (S754_finite true 4503599627370496 11).
  apply flt_fone_false in Hg as [->|[->|(m & e & -> & H)]]; [done..|].
  assert (Z.pos (digits2_pos m) = 53) as Hd by (apply (valid64_finite false _ e); [done|lia]).
  pose proof (digits2_pos_bounds m) as [Bm _]. rewrite Hd in Bm.
  unfold fmul, SFmul. change (xorb true false) with true.
  pose proof (digits2_mul_53 4503599627370496 m eq_refl Hd) as HD.
  destruct (round_aux_all true (4503599627370496 * m) (11 + e) loc_Exact _ eq_refl)
    as (q & mr & er & -> & Ht & _ & Her & Hqb & _ & Hc); [lia..|].
  destruct (er <=? 971); [|done]. simpl. rewrite Ht.
  set (D := Z.pos (digits2_pos (4503599627370496 * m))) in *.
  set (E := 11 + e + D - 53) in *.
  assert (2 ^ 63 ≤ Z.shiftl q E) as Hge.
  { rewrite shiftl_nonneg_mul by lia.
    assert (2 ^ 11 ≤ 2 ^ E) by (apply Z.pow_le_mono_r; lia). nia. }
  unfold min_int64, max_int64.
  destruct ((- 2 ^ 63 <=? - Z.shiftl q E) && (- Z.shiftl q E <=? 2 ^ 63 - 1)) eqn:Eb; [|done].
  zify_bool. lia.
Qed.
