(* ===== verification/GoFmt.v ===== *)
(** * The formatting verbs the program uses

    [%d] on integers, [%v] on [float64] (shortest representation, [%e] form outside
    exponents -4..5, as [strconv.FormatFloat(f, 'g', -1, 64)]), and what [%d] prints for
    a [float64] operand.  Needed for the text of errors and for the strings pushed to
    Lua globals. *)
From Stdlib Require Import ZArith Lia.
From stdpp Require Import base option strings pretty.
From S2P Require Import Prelude GoNum.
From Stdlib Require Import SpecFloat.

Definition fmt_d (z : Z) : string := pretty z.

Lemma fmt_d_inj z1 z2 : fmt_d z1 = fmt_d z2 → z1 = z2.
Proof. apply (inj pretty). Qed.

(** ** Shortest decimal digits *)

(** A positive [float64] as a fraction. *)
Definition frac (m : positive) (e : Z) : Z * Z :=
  if 0 <=? e then (Z.pos m * 2 ^ e, 1) else (Z.pos m, 2 ^ (- e)).

(** [n * 10^k / d] compared against integers needs both scaled. *)
Definition scale10 (n d k : Z) : Z * Z :=
  if 0 <=? k then (n * 10 ^ k, d) else (n, d * 10 ^ (- k)).

(** The least [dp >= lo] with [n / d < 10 ^ dp]; [lo] is one below the estimate from
    the binary logarithm, so three steps reach it. *)
Fixpoint find_dp (fuel : nat) (n d dp : Z) : Z :=
  match fuel with
  | O => dp
  | S fuel =>
      let '(n', d') := scale10 n d (- dp) in
      if n' <? d' then dp else find_dp fuel n d (dp + 1)
  end.

(** Does the decimal [D * 10^k] round to [m * 2^e]? *)
Definition in_interval (m : positive) (e D k : Z) : bool :=
  let '(lown, lowd) :=
    if (Z.pos m =? 2 ^ 52) && (-1074 <? e)
    then frac (m * 4 - 1) (e - 2) else frac (m * 2 - 1) (e - 1) in
  let '(upn, upd) := frac (m * 2 + 1) (e - 1) in
  let '(n, d) := scale10 D 1 k in
  if Z.even (Z.pos m)
  then (lown * d <=? n * lowd) && (n * upd <=? upn * d)
  else (lown * d <? n * lowd) && (n * upd <? upn * d).

Fixpoint shortest (fuel : nat) (nd : Z) (m : positive) (e dp : Z) : Z * Z :=
  let '(n, d) := frac m e in
  let '(n', d') := scale10 n d (nd - dp) in
  let D := n' / d' in
  let r := n' mod d' in
  let up := (d' <? 2 * r) || ((2 * r =? d') && Z.odd D) in
  let '(c1, c2) := if up then (D + 1, D) else (D, D + 1) in
  if in_interval m e c1 (dp - nd) then (c1, nd)
  else if in_interval m e c2 (dp - nd) then (c2, nd)
  else match fuel with
       | O => (c1, nd)
       | S fuel => shortest fuel (nd + 1) m e dp
       end.

(** The digits and the position of the decimal point: [0.digits * 10^dp]. *)
Definition float_digits (m : positive) (e : Z) : string * Z :=
  let '(n, d) := frac m e in
  let dp := find_dp 4 n d ((Z.log2 (Z.pos m) + e) * 30103 / 100000 - 1) in
  let '(D, nd) := shortest 17 1 m e dp in
  if D =? 10 ^ nd then ("1"%string, dp + 1) else (fmt_d D, dp).

Definition zeros (n : Z) : string := String.concat "" (replicate (Z.to_nat n) "0"%string).

Definition fmt_exp (x : Z) : string :=
  let a := Z.abs x in
  ("e" +:+ (if (x <? 0)%Z then "-" else "+") +:+ (if (a <? 10)%Z then "0" else "") +:+ fmt_d a)%string.

(** [%v] of a [float64]. *)
Definition fmt_v_float (f : float64) : string :=
  match f with
  | S754_nan => "NaN"
  | S754_infinity false => "+Inf"
  | S754_infinity true => "-Inf"
  | S754_zero false => "0"
  | S754_zero true => "-0"
  | S754_finite s m e =>
      let '(ds, dp) := float_digits m e in
      let nd := Z.of_nat (String.length ds) in
      let exp := dp - 1 in
      let body :=
        if (exp <? -4) || (6 <=? exp) then
          (String.substring 0 1 ds +:+
           (if (nd =? 1)%Z then "" else "." +:+ String.substring 1 (Z.to_nat (nd - 1)%Z) ds) +:+
           fmt_exp exp)%string
        else if 0 <? dp then
          (String.substring 0 (Z.to_nat dp) ds +:+ zeros (dp - nd)%Z +:+
           (if (dp <? nd)%Z then "." +:+ String.substring (Z.to_nat dp) (Z.to_nat (nd - dp)%Z) ds
            else ""))%string
        else ("0." +:+ zeros (- dp)%Z +:+ ds)%string
      in ((if s then "-" else "") +:+ body)%string
  end.

(** [%d] given a [float64]. *)
Definition fmt_d_float (f : float64) : string :=
  ("%!d(float64=" +:+ fmt_v_float f +:+ ")")%string.

Example fmt_v_float_examples :
  map (fun q => fmt_v_float (float_lit (fst q) (snd q)))
    [(1, 2); (3, 2); (1, 10); (142, 1); (100000, 1); (1000000, 1); (123456789, 1);
     (1, 10000); (1, 100000); (-5, 2); (1, 3); (21, 1000)] =
  ["0.5"; "1.5"; "0.1"; "142"; "100000"; "1e+06"; "1.23456789e+08";
   "0.0001"; "1e-05"; "-2.5"; "0.3333333333333333"; "0.021"]%string.
Proof. vm_compute. reflexivity. Qed.
