(* ===== verification/Strconv.v ===== *)
(** * Byte sequences and the [strconv] functions the program relies on

    A Go [string] or [[]byte] seen byte by byte is a [list ascii].  [FormatInt] and
    [ParseInt] in base 10 for 64-bit integers, [FormatBool]/[ParseBool], and
    [FormatFloat]/[ParseFloat] with correct rounding. *)
From Stdlib Require Import ZArith Lia Ascii String.
From stdpp Require Import base option list strings pretty.
From S2P Require Import Prelude GoNum GoFmt.
From Stdlib Require Import SpecFloat.

Abbreviation bytes := (list ascii).

Definition to_bytes (s : string) : bytes := list_ascii_of_string s.
Definition to_string (b : bytes) : string := string_of_list_ascii b.

Lemma to_string_to_bytes s : to_string (to_bytes s) = s.
Proof. apply string_of_list_ascii_of_string. Qed.

Lemma to_bytes_to_string b : to_bytes (to_string b) = b.
Proof. apply list_ascii_of_string_of_list_ascii. Qed.

Lemma to_bytes_app s1 s2 : to_bytes (s1 +:+ s2) = to_bytes s1 ++ to_bytes s2.
Proof. induction s1 as [|c s1 IH]; [done|]. unfold to_bytes in *. cbn. by rewrite <- IH. Qed.

#[export] Instance to_bytes_inj : Inj (=) (=) to_bytes.
Proof. intros s1 s2 H. by rewrite <- (to_string_to_bytes s1), H, to_string_to_bytes. Qed.

Definition dquote : ascii := "034"%char.
Definition bslash : ascii := "\"%char.

Definition is_digit (c : ascii) : bool := (48 <=? N_of_ascii c)%N && (N_of_ascii c <=? 57)%N.
Definition digit_val (c : ascii) : Z := Z.of_N (N_of_ascii c) - 48.

(** ** Integers *)

Definition FormatInt (z : Z) : bytes := to_bytes (fmt_d z).
Definition FormatBool (b : bool) : bytes := to_bytes (if b then "true" else "false").

Definition parse_digits (ds : bytes) : Z := foldl (fun a c => 10 * a + digit_val c) 0 ds.

Definition invalid_syntax (fn : string) (s : bytes) : error :=
  Errorf ("strconv." +:+ fn +:+ ": parsing " +:+ to_string (dquote :: s ++ [dquote]) +:+ ": invalid syntax").
Definition out_of_range (fn : string) (s : bytes) : error :=
  Errorf ("strconv." +:+ fn +:+ ": parsing " +:+ to_string (dquote :: s ++ [dquote]) +:+ ": value out of range").

(** [strconv.ParseInt(s, 10, 64)]. *)
Definition ParseInt (s : bytes) : outcome Z :=
  let '(neg, ds) := match s with
                    | "-"%char :: ds => (true, ds)
                    | "+"%char :: ds => (false, ds)
                    | _ => (false, s)
                    end in
  if negb (bool_decide (ds ≠ [])) || negb (forallb is_digit ds)
  then Err (invalid_syntax "ParseInt" s)
  else let z := (if neg : bool then - parse_digits ds else parse_digits ds) in
       if (min_int64 <=? z) && (z <=? max_int64) then Ok z
       else Err (out_of_range "ParseInt" s).

(** [strconv.ParseBool]. *)
Definition ParseBool (s : bytes) : outcome bool :=
  if existsb (fun t => bool_decide (to_string s = t)) ["1"; "t"; "T"; "true"; "TRUE"; "True"]%string
  then Ok true
  else if existsb (fun t => bool_decide (to_string s = t)) ["0"; "f"; "F"; "false"; "FALSE"; "False"]%string
  then Ok false
  else Err (invalid_syntax "ParseBool" s).

Lemma digit_char n : (n < 10)%N →
  is_digit (pretty_N_char n) = true ∧ digit_val (pretty_N_char n) = Z.of_N n.
Proof.
  intros H.
  assert (n = 0 ∨ n = 1 ∨ n = 2 ∨ n = 3 ∨ n = 4 ∨ n = 5 ∨ n = 6 ∨ n = 7 ∨ n = 8 ∨ n = 9)%N
    as Hn by lia.
  by repeat destruct Hn as [->|Hn]; subst.
Qed.

(** Parsing the digits of [x] followed by [s] continues with [x]. *)
Lemma parse_pretty_N_go x s :
  foldl (fun a c => 10 * a + digit_val c) 0 (to_bytes (pretty_N_go x s)) =
  foldl (fun a c => 10 * a + digit_val c) (Z.of_N x) (to_bytes s).
Proof.
  revert s. induction (N.lt_wf_0 x) as [x _ IH]; intros s.
  assert (x = 0 ∨ 0 < x)%N as [->|Hx] by lia; [done|].
  rewrite pretty_N_go_step by done. rewrite IH by (by apply N.div_lt).
  change (to_bytes (String ?c s)) with (c :: to_bytes s). simpl.
  destruct (digit_char (x `mod` 10)) as [_ ->]; [by apply N.mod_lt|].
  f_equal. rewrite N2Z.inj_div, N2Z.inj_mod by done. div_lia.
Qed.

Lemma pretty_N_go_digits x s :
  forallb is_digit (to_bytes s) = true → forallb is_digit (to_bytes (pretty_N_go x s)) = true.
Proof.
  revert s. induction (N.lt_wf_0 x) as [x _ IH]; intros s Hs.
  assert (x = 0 ∨ 0 < x)%N as [->|Hx] by lia; [done|].
  rewrite pretty_N_go_step by done. apply IH; [by apply N.div_lt|].
  change (to_bytes (String ?c s)) with (c :: to_bytes s). simpl.
  destruct (digit_char (x `mod` 10)) as [-> _]; [by apply N.mod_lt|done].
Qed.

Lemma pretty_N_go_nonempty x s : s ≠ ""%string ∨ (0 < x)%N → pretty_N_go x s ≠ ""%string.
Proof.
  revert s. induction (N.lt_wf_0 x) as [x _ IH]; intros s Hs.
  assert (x = 0 ∨ 0 < x)%N as [->|Hx] by lia; [rewrite pretty_N_go_0; by destruct Hs|].
  rewrite pretty_N_go_step by done. apply IH; [by apply N.div_lt|by left].
Qed.

Lemma pretty_N_spec (n : N) :
  parse_digits (to_bytes (pretty n)) = Z.of_N n ∧
  forallb is_digit (to_bytes (pretty n)) = true ∧ to_bytes (pretty n) ≠ [].
Proof.
  unfold pretty, pretty_N. case_decide as Hn; [by subst|].
  split_and!.
  - unfold parse_digits. by rewrite parse_pretty_N_go.
  - by apply pretty_N_go_digits.
  - intros H. apply (pretty_N_go_nonempty n "" ltac:(right; lia)).
    by rewrite <- (to_string_to_bytes (pretty_N_go n "")), H.
Qed.

Lemma pretty_N_head (n : N) c b : to_bytes (pretty n) = c :: b → is_digit c = true.
Proof. intros H. destruct (pretty_N_spec n) as (_ & Hd & _). rewrite H in Hd. simpl in Hd. by apply andb_prop in Hd as [? _]. Qed.

Lemma pretty_Z_cases z :
  FormatInt z = (if z <? 0 then ["-"%char] else []) ++ to_bytes (pretty (Z.to_N (Z.abs z))).
Proof. unfold FormatInt, fmt_d. destruct z; done. Qed.

(** What [FormatInt] prints, [ParseInt] reads back. *)
Lemma ParseInt_FormatInt z : is_int64 z → ParseInt (FormatInt z) = Ok z.
Proof.
  intros Hz. rewrite pretty_Z_cases.
  destruct (pretty_N_spec (Z.to_N (Z.abs z))) as (Hv & Hd & Hne).
  assert (parse_digits (to_bytes (pretty (Z.to_N (Z.abs z)))) = Z.abs z) as Hv' by (rewrite Hv; lia).
  assert ((min_int64 <=? z) && (z <=? max_int64) = true) as Hr.
  { unfold is_int64, min_int64, max_int64 in *. lia. }
  unfold ParseInt. destruct (Z.ltb_spec z 0).
  - simpl. rewrite bool_decide_true, Hd by done. simpl. rewrite Hv'.
    replace (- Z.abs z) with z by lia. by rewrite Hr.
  - rewrite app_nil_l. destruct (to_bytes (pretty _)) as [|c ds] eqn:E; [done|].
    pose proof (pretty_N_head _ _ _ E) as Hc.
    assert ((match c :: ds with
             | "-"%char :: ds => (true, ds) | "+"%char :: ds => (false, ds)
             | _ => (false, c :: ds) end) = (false, c :: ds)) as ->.
    { destruct c as [[] [] [] [] [] [] [] []]; done. }
    rewrite bool_decide_true, Hd by done. simpl negb. cbn [orb].
    rewrite Hv'. replace (Z.abs z) with z by lia. by rewrite Hr.
Qed.

(** [FormatInt] prints a minus sign or a digit first, and digits after it. *)
Lemma FormatInt_shape z :
  ∃ c ds, FormatInt z = c :: ds ∧ (c = "-"%char ∨ is_digit c = true) ∧
    forallb is_digit ds = true.
Proof.
  rewrite pretty_Z_cases. destruct (pretty_N_spec (Z.to_N (Z.abs z))) as (_ & Hd & Hne).
  destruct (z <? 0).
  - exists "-"%char, (to_bytes (pretty (Z.to_N (Z.abs z)))). auto.
  - destruct (to_bytes _) as [|c ds]; [done|]. simpl in Hd. apply andb_prop in Hd as [??].
    exists c, ds. auto.
Qed.

(** ** Floats *)

(** [strconv.FormatFloat(f, 'f', -1, 64)]. *)
Definition FormatFloat_f (f : float64) : bytes :=
  match f with
  | S754_nan | S754_infinity _ | S754_zero _ => to_bytes (fmt_v_float f)
  | S754_finite s m e =>
      let '(ds, dp) := float_digits m e in
      let nd := Z.of_nat (String.length ds) in
      (if s then ["-"%char] else []) ++
      (if 0 <? dp then
         to_bytes (String.substring 0 (Z.to_nat dp) ds +:+ zeros (dp - nd)) ++
         (if dp <? nd then "."%char :: to_bytes (String.substring (Z.to_nat dp) (Z.to_nat (nd - dp)) ds)
          else [])
       else to_bytes ("0." +:+ zeros (- dp) +:+ ds))
  end.

(** The correctly rounded value of [n / d]. *)
Definition round_ratio (neg : bool) (n d : positive) : float64 :=
  let '(mz, ez, lz) := SFdiv_core_binary prec64 emax64 (Z.pos n) 0 (Z.pos d) 0 in
  binary_round_aux prec64 emax64 neg mz ez lz.

Fixpoint take_digits (s : bytes) : bytes * bytes :=
  match s with
  | c :: s' => if is_digit c then let '(ds, r) := take_digits s' in (c :: ds, r) else ([], s)
  | [] => ([], [])
  end.

Definition lower (c : ascii) : ascii :=
  if (65 <=? N_of_ascii c)%N && (N_of_ascii c <=? 90)%N
  then ascii_of_N (N_of_ascii c + 32) else c.

(** The exponent part of a decimal, [None] on a syntax error. *)
Definition parse_exponent (s : bytes) : option Z :=
  match s with
  | [] => Some 0
  | c :: s =>
      if bool_decide (lower c = "e"%char) then
        let '(neg, s) := match s with
                         | "-"%char :: s => (true, s) | "+"%char :: s => (false, s) | _ => (false, s)
                         end in
        let '(ds, r) := take_digits s in
        match ds, r with
        | _ :: _, [] => Some (if neg : bool then - parse_digits ds else parse_digits ds)
        | _, _ => None
        end
      else None
  end.

(** [strconv.ParseFloat(s, 64)]. *)
Definition ParseFloat (s : bytes) : outcome float64 :=
  let '(neg, body) := match s with
                      | "-"%char :: b => (true, b) | "+"%char :: b => (false, b) | _ => (false, s)
                      end in
  let word := to_string (map lower body) in
  if bool_decide (word = "inf"%string) || bool_decide (word = "infinity"%string)
  then Ok (S754_infinity neg)
  else if bool_decide (word = "nan"%string) && bool_decide (body = s) then Ok S754_nan
  else
    let '(ip, r) := take_digits body in
    let '(fp, r) := match r with "."%char :: r => take_digits r | _ => ([], r) end in
    match parse_exponent r with
    | None => Err (invalid_syntax "ParseFloat" s)
    | Some ex =>
        if bool_decide (ip ++ fp = []) then Err (invalid_syntax "ParseFloat" s) else
        let k := ex - Z.of_nat (length fp) in
        let '(n, d) := scale10 (parse_digits (ip ++ fp)) 1 k in
        match n, d with
        | Z.pos n, Z.pos d =>
            match round_ratio neg n d with
            | S754_infinity _ => Err (out_of_range "ParseFloat" s)
            | f => Ok f
            end
        | _, _ => Ok (S754_zero neg)
        end
    end.

Example ParseFloat_examples :
  map (fun s => ParseFloat (to_bytes s)) ["1"; "-0.5"; "1e3"; "0.1"; ".5"; "-0"; "1e400"; "x"; "+Inf"; "NaN"]%string =
  [Ok (float_lit 1 1); Ok (float_lit (-1) 2); Ok (float_lit 1000 1); Ok (float_lit 1 10);
   Ok (float_lit 1 2); Ok (S754_zero true); Err (out_of_range "ParseFloat" (to_bytes "1e400"));
   Err (invalid_syntax "ParseFloat" (to_bytes "x")); Ok (S754_infinity false); Ok S754_nan].
Proof. vm_compute. reflexivity. Qed.

Example FormatFloat_f_examples :
  map (fun q => to_string (FormatFloat_f (float_lit (fst q) (snd q))))
    [(1, 2); (5, 1); (1000000, 1); (123456789, 100); (-1, 1000); (1, 3); (0, 1)] =
  ["0.5"; "5"; "1000000"; "1234567.89"; "-0.001"; "0.3333333333333333"; "0"]%string.
Proof. vm_compute. reflexivity. Qed.
