(* ===== verification/Messages.v ===== *)
(** * The messages of the two gRPC services

    [executor/pb] (service Commander) and [scheduler/pb] (service Scheduler): the
    structs as records, a [oneof] as an inductive type, a pointer field as an option. *)
From Stdlib Require Import ZArith Lia.
From stdpp Require Import base option strings.
From S2P Require Import Prelude GoNum FloatFacts GoFmt.

Record ScriptParams := mkScriptParams {
  Url : string;
  Script : string;
  ScriptId : string;
  RunTime : Z;
  MaxWorkers : Z;
  GrowthFactor : float64;
  TimeBetweenGrowth : float64;
  StartingRequestsPerSecond : Z;
  MaxRequestsPerSecond : Z
}.

Record CommandMessage := mkCommandMessage {
  Command : string;
  CmdScriptParams : option ScriptParams;
  ScriptConfig : string
}.

Record StatusMessage := mkStatusMessage { Status : string }.

(** What the wire guarantees of a decoded [ScriptParams]. *)
Definition params_typed (p : ScriptParams) : Prop :=
  is_int32 (RunTime p) ∧ is_int32 (MaxWorkers p) ∧
  is_int32 (StartingRequestsPerSecond p) ∧ is_int32 (MaxRequestsPerSecond p) ∧
  valid64 (GrowthFactor p) = true ∧ valid64 (TimeBetweenGrowth p) = true.

Record LoadTestReq := mkLoadTestReq {
  lt_Url : string;
  lt_Script : string;
  lt_ScriptName : string;
  lt_RunTime : Z;
  lt_GrowthFactor : float64;
  lt_TimeBetweenGrowth : float64;
  lt_StartingRequestsPerSecond : Z;
  lt_MaxRequestsPerSecond : Z;
  lt_ScriptConfig : string
}.

Definition req_typed (r : LoadTestReq) : Prop :=
  is_int32 (lt_RunTime r) ∧ is_int32 (lt_StartingRequestsPerSecond r) ∧
  is_int32 (lt_MaxRequestsPerSecond r) ∧
  valid64 (lt_GrowthFactor r) = true ∧ valid64 (lt_TimeBetweenGrowth r) = true.

(** [LoadTestResp] with its [oneof phase]. *)
Inductive LoadTestResp_Phase :=
  | LoadTestResp_Preparing (Count : Z)
  | LoadTestResp_Started
  | LoadTestResp_Finished
  | LoadTestResp_Errored (Error : string).

Record LoadTestResp := mkLoadTestResp { Phase : option LoadTestResp_Phase }.

#[export] Instance phase_eq_dec : EqDecision LoadTestResp_Phase.
Proof. solve_decision. Defined.

(** The accessors of the oneof, [nil] as [None]. *)
Definition GetPreparing (m : LoadTestResp) : option Z :=
  match Phase m with Some (LoadTestResp_Preparing c) => Some c | _ => None end.
Definition GetStart (m : LoadTestResp) : option unit :=
  match Phase m with Some LoadTestResp_Started => Some tt | _ => None end.
Definition GetFinish (m : LoadTestResp) : option unit :=
  match Phase m with Some LoadTestResp_Finished => Some tt | _ => None end.
Definition GetError (m : LoadTestResp) : option string :=
  match Phase m with Some (LoadTestResp_Errored e) => Some e | _ => None end.

Record RegisterExecutorReq := mkRegisterExecutorReq {
  DropletId : Z;
  Port : Z
}.

Record RegisterExecutorResp := mkRegisterExecutorResp {
  InfluxAddr : string;
  InfluxUsername : string;
  InfluxPassword : string;
  InfluxDb : string;
  InfluxSsl : bool
}.

(** * Validation of a command (executor/controller/executor_grpc_listener.go)

    [verifyCommand]: which [ScriptParams] an executor accepts, and the text of each
    refusal, in the order of the code's tests. *)

Definition msg_MaxWorkers (p : ScriptParams) : error :=
  Errorf ("Max Workers must be greater than 0. Given MaxWorkers: " +:+ fmt_d (MaxWorkers p)).
Definition msg_RunTime (p : ScriptParams) : error :=
  Errorf ("You must run for greater than 1 second. Given Runtime: " +:+ fmt_d (RunTime p)).
Definition msg_Starting (p : ScriptParams) : error :=
  Errorf ("Max Requests per seconds must be greater than 10. Given StartingRequestsPerSecond: "
          +:+ fmt_d (StartingRequestsPerSecond p)).
Definition msg_MaxRequests (p : ScriptParams) : error :=
  Errorf ("Max Requests per seconds must be greater than 0. Given MaxRequestsPerSecond: "
          +:+ fmt_d (MaxRequestsPerSecond p)).
Definition msg_MaxStarting (p : ScriptParams) : error :=
  Errorf ("Max Requests per seconds must be greater than Starting Requests Per Second. Given MaxRequestsPerSecond: "
          +:+ fmt_d (MaxRequestsPerSecond p) +:+ " StartingRequestsPerSecond: "
          +:+ fmt_d (StartingRequestsPerSecond p)).
Definition msg_GrowthFactor (p : ScriptParams) : error :=
  Errorf ("Growth Factor must be greater or equal to 1. Given GrowthFactor: "
          +:+ fmt_d_float (GrowthFactor p)).
Definition msg_TimeBetweenGrowth (p : ScriptParams) : error :=
  Errorf ("Time Between Growth must be greater or equal to 0.1. Given TimeBetweenGrowth: "
          +:+ fmt_d_float (TimeBetweenGrowth p)).

Definition verifyCommand (p : ScriptParams) : option error :=
  if MaxWorkers p <? 1 then Some (msg_MaxWorkers p)
  else if RunTime p <=? 1 then Some (msg_RunTime p)
  else if StartingRequestsPerSecond p <=? 10 then Some (msg_Starting p)
  else if MaxRequestsPerSecond p <? 1 then Some (msg_MaxRequests p)
  else if MaxRequestsPerSecond p <? StartingRequestsPerSecond p then Some (msg_MaxStarting p)
  else if flt (GrowthFactor p) (float_lit 1 1) then Some (msg_GrowthFactor p)
  else if flt (TimeBetweenGrowth p) (float_lit 1 10) then Some (msg_TimeBetweenGrowth p)
  else None.

(** The integer part of the accepted commands. *)
Definition accepted_ints (p : ScriptParams) : Prop :=
  1 ≤ MaxWorkers p ∧ 1 < RunTime p ∧ 10 < StartingRequestsPerSecond p ∧
  StartingRequestsPerSecond p ≤ MaxRequestsPerSecond p.

Lemma verifyCommand_None p :
  verifyCommand p = None ↔
  accepted_ints p ∧ flt (GrowthFactor p) (float_lit 1 1) = false ∧
  flt (TimeBetweenGrowth p) (float_lit 1 10) = false.
Proof.
  unfold verifyCommand, accepted_ints.
  repeat (case_test; zify_bool); split; intros; try done; try lia.
  all: repeat match goal with H : _ ∧ _ |- _ => destruct H end; try done; try lia.
Qed.

(** The fourth test of [verifyCommand] never fires: the tests before and after it
    imply it. *)
Lemma verifyCommand_ints p : verifyCommand p = None → accepted_ints p.
Proof. by intros [? _]%verifyCommand_None. Qed.
