(* ===== verification/LineProtocol.v ===== *)
(** * The line protocol of InfluxDB (Godeps .../influxdb/models/points.go, pkg/escape)

    How a metric becomes a line of text ([NewPoint], [MarshalBinary], [MakeKey],
    [PrecisionString]), how its fields are read back ([newFieldsFromBinary], used by the
    test persister), and how a receiver that uses this library parses the body of a
    write ([ParsePointsWithPrecision] and its scanners).

    A scanner that moves an index forward over a buffer is a structural recursion that
    returns the scanned block and the rest of the buffer; [scanKey], which jumps between
    saved positions, keeps its indices.  A slice that ends past the buffer (the scanners
    skip two bytes after a backslash) is [None]. *)
From Stdlib Require Import ZArith Lia Ascii.
From stdpp Require Import base option list strings gmap sorting.
From S2P Require Import Prelude GoNum GoFmt Strconv.

(** ** Escaping *)

(** [bytes.Replace(in, []byte{b}, []byte{'\\', b}, -1)]. *)
Fixpoint replace_byte (b : ascii) (s : bytes) : bytes :=
  match s with
  | [] => []
  | c :: s => if bool_decide (c = b) then bslash :: c :: replace_byte b s else c :: replace_byte b s
  end.

(** [bytes.Replace(in, []byte{'\\', b}, []byte{b}, -1)]. *)
Fixpoint replace_esc (b : ascii) (s : bytes) : bytes :=
  match s with
  | c :: ((d :: s') as t) =>
      if bool_decide (c = bslash) && bool_decide (d = b) then d :: replace_esc b s'
      else c :: replace_esc b t
  | _ => s
  end.

(** The keys of the three code maps; each code is a backslash and its key.  A loop over
    a map visits the keys in an unspecified order. *)
Definition measurementEscapeCodes : bytes := [","; " "]%char.
Definition tagEscapeCodes : bytes := [","; " "; "="]%char.
Definition Codes : bytes := [","%char; dquote; " "%char; "="%char].

Definition escape_in (order : bytes) (s : bytes) : bytes := foldl (fun s b => replace_byte b s) s order.
Definition unescape_in (order : bytes) (s : bytes) : bytes := foldl (fun s b => replace_esc b s) s order.

Definition escapeMeasurement : bytes → bytes := escape_in measurementEscapeCodes.
Definition unescapeMeasurement : bytes → bytes := unescape_in measurementEscapeCodes.
Definition escapeTag : bytes → bytes := escape_in tagEscapeCodes.
Definition unescapeTag : bytes → bytes := unescape_in tagEscapeCodes.
(** [escape.String] and [escape.Unescape]. *)
Definition escape_String : bytes → bytes := escape_in Codes.

Fixpoint escape_Unescape (s : bytes) : bytes :=
  match s with
  | c :: ((d :: s') as t) =>
      if bool_decide (c = bslash) && bool_decide (d ∈ Codes) then d :: escape_Unescape s'
      else c :: escape_Unescape t
  | _ => s
  end.

Fixpoint escapeStringField (s : bytes) : bytes :=
  match s with
  | [] => []
  | c :: s =>
      if bool_decide (c = bslash) then bslash :: bslash :: escapeStringField s
      else if bool_decide (c = dquote) then bslash :: dquote :: escapeStringField s
      else c :: escapeStringField s
  end.

Fixpoint unescapeStringField (s : bytes) : bytes :=
  match s with
  | c :: ((d :: s') as t) =>
      if bool_decide (c = bslash) && bool_decide (d = bslash) then bslash :: unescapeStringField s'
      else if bool_decide (c = bslash) && bool_decide (d = dquote) then dquote :: unescapeStringField s'
      else c :: unescapeStringField t
  | _ => s
  end.

(** ** Fields *)

(** The dynamic types of a field value.  All integer types print through [int64];
    [FOther] is a value of another type, by what [%v] prints for it. *)
Inductive int_type := Tint | Tint8 | Tint16 | Tint32 | Tint64 | Tuint | Tuint8 | Tuint16 | Tuint32.

Inductive field_value :=
  | FInt (t : int_type) (z : Z)
  | FFloat (f : float64)
  | FBool (b : bool)
  | FBytes (b : bytes)
  | FString (s : bytes)
  | FNil
  | FOther (printed : bytes).

Abbreviation Fields := (gmap string field_value).

Definition sort_strings (l : list string) : list string := merge_sort String.le l.

Definition quote (s : bytes) : bytes := dquote :: escapeStringField s ++ [dquote].

Definition marshal_value (v : field_value) : bytes :=
  match v with
  | FInt _ z => FormatInt (int64_of z) ++ ["i"%char]
  | FFloat f => FormatFloat_f f
  | FBool b => FormatBool b
  | FBytes b => b
  | FString s => quote s
  | FNil => []
  | FOther s => quote s
  end.

Definition marshal_field (p : Fields) (k : string) : bytes :=
  escape_String (to_bytes k) ++ "="%char :: marshal_value (default FNil (p !! k)) ++ [","%char].

Definition MarshalBinary (p : Fields) : bytes :=
  let b := concat (map (marshal_field p) (sort_strings (map fst (map_to_list p)))) in
  match b with [] => b | _ => removelast b end.

(** ** Scanners *)

(** [scanTo(buf, i, stop)]: the block, and the buffer from its end. *)
Fixpoint scanTo (stop : ascii) (buf : bytes) : option (bytes * bytes) :=
  match buf with
  | [] => Some ([], [])
  | c :: rest =>
      if bool_decide (c = bslash) then
        match rest with
        | [] => None
        | d :: rest => '(blk, r) ← scanTo stop rest; Some (c :: d :: blk, r)
        end
      else if bool_decide (c = stop) then Some ([], buf)
      else '(blk, r) ← scanTo stop rest; Some (c :: blk, r)
  end.

(** [scanToSpaceOr] and [scanTagValue] differ in where they stop. *)
Fixpoint scanToSpaceOr (stop : ascii) (buf : bytes) : option (bytes * bytes) :=
  match buf with
  | [] => Some ([], [])
  | c :: rest =>
      if bool_decide (c = bslash) then
        match rest with
        | [] => None
        | d :: rest => '(blk, r) ← scanToSpaceOr stop rest; Some (c :: d :: blk, r)
        end
      else if bool_decide (c = stop) || bool_decide (c = " "%char) then Some ([], buf)
      else '(blk, r) ← scanToSpaceOr stop rest; Some (c :: blk, r)
  end.

Definition scanTagValue : bytes → option (bytes * bytes) := scanTo ",".

Fixpoint scanFieldValue (quoted : bool) (buf : bytes) : bytes * bytes :=
  match buf with
  | [] => ([], [])
  | c :: rest =>
      match rest with
      | d :: rest' =>
          if bool_decide (c = bslash) && bool_decide (d = dquote) then
            let '(blk, r) := scanFieldValue quoted rest' in (c :: d :: blk, r)
          else if bool_decide (c = dquote) then
            let '(blk, r) := scanFieldValue (negb quoted) rest in (c :: blk, r)
          else if bool_decide (c = ","%char) && negb quoted then ([], buf)
          else let '(blk, r) := scanFieldValue quoted rest in (c :: blk, r)
      | [] =>
          if bool_decide (c = dquote) then ([c], [])
          else if bool_decide (c = ","%char) && negb quoted then ([], buf)
          else ([c], [])
      end
  end.

Fixpoint skipWhitespace (buf : bytes) : bytes :=
  match buf with
  | c :: rest => if bool_decide (c = " "%char) || bool_decide (c = "009"%char) then skipWhitespace rest else buf
  | [] => []
  end.

(** ** Reading fields back *)

Fixpoint parseNumber_scan (val rest : bytes) : outcome field_value :=
  match rest with
  | [] => f ← ParseFloat val; Ok (FFloat f)
  | c :: rest =>
      if bool_decide (c ∈ ["."; "N"; "n"; "I"; "i"; "e"]%char) then f ← ParseFloat val; Ok (FFloat f)
      else if (N_of_ascii c <? N_of_ascii "0")%N && (N_of_ascii "9" <? N_of_ascii c)%N
      then Ok (FString val)
      else parseNumber_scan val rest
  end.

Definition parseNumber (val : bytes) : outcome field_value :=
  match last val with
  | Some "i"%char => z ← ParseInt (removelast val); Ok (FInt Tint64 z)
  | _ => parseNumber_scan val val
  end.

Definition starts_number (c : ascii) : bool :=
  is_digit c || bool_decide (c ∈ ["-"; "+"; "."; "N"; "n"; "I"; "i"]%char).

Definition panic_on_error {A} (what : string) (m : outcome A) : outcome A :=
  match m with Err e => Panic (what +:+ Error e) | _ => m end.

(** The value of one non-empty [valueBuf]; [valueBuf[1 : len(valueBuf)-1]] panics when
    the buffer is a single quote. *)
Definition parse_value (v : bytes) : outcome field_value :=
  match v with
  | [] => Ok FNil
  | c :: t =>
      if bool_decide (c = dquote) then
        match t with
        | [] => Panic "slice bounds out of range"
        | _ => Ok (FString (unescapeStringField (removelast t)))
        end
      else if starts_number c then
        panic_on_error ("unable to parse number value '" +:+ to_string v +:+ "': ") (parseNumber v)
      else
        b ← panic_on_error ("unable to parse bool value '" +:+ to_string v +:+ "': ") (ParseBool v);
        Ok (FBool b)
  end.

(** [newFieldsFromBinary(buf)].  [None]: the loop does not advance (an empty name) or a
    slice ends past the buffer. *)
Fixpoint newFieldsFromBinary_loop (fuel : nat) (buf : bytes) (fields : Fields) : option (outcome Fields) :=
  match buf, fuel with
  | [], _ => Some (Ok fields)
  | _, O => None
  | _, S fuel =>
      '(name, r) ← scanTo "=" buf;
      if bool_decide (name = []) then newFieldsFromBinary_loop fuel r fields else
      let key := to_string (escape_Unescape name) in
      match r with
      | [] => None
      | _ :: r =>
          let '(v, r) := scanFieldValue false r in
          match v with
          | [] => newFieldsFromBinary_loop fuel r (<[key:=FNil]> fields)
          | _ =>
              match parse_value v with
              | Ok x => newFieldsFromBinary_loop fuel (tail r) (<[key:=x]> fields)
              | Err e => Some (Err e)
              | Panic m => Some (Panic m)
              end
          end
      end
  end.

Definition newFieldsFromBinary (buf : bytes) : option (outcome Fields) :=
  newFieldsFromBinary_loop (S (length buf)) buf ∅.

(** ** Points *)

Abbreviation Tags := (gmap string string).

(** [tags.HashKey()]: the escaped tags with a value, sorted by escaped key. *)
Definition HashKey (t : Tags) : bytes :=
  let escaped : gmap string bytes :=
    foldl (fun m kv =>
      let ev := escapeTag (to_bytes (snd kv)) in
      if bool_decide (ev = []) then m
      else <[to_string (escapeTag (to_bytes (fst kv))) := ev]> m) ∅ (map_to_list t) in
  concat (map (fun k => ","%char :: to_bytes k ++ "="%char :: default [] (escaped !! k))
            (sort_strings (map fst (map_to_list escaped)))).

Definition MakeKey (name : bytes) (tags : Tags) : bytes :=
  escapeMeasurement (unescapeMeasurement name) ++ HashKey tags.

(** A [time.Time] is its [UnixNano()], [None] when [IsZero()]. *)
Record point := mkPoint { pt_time : option Z; pt_key : bytes; pt_fields : bytes }.

#[export] Instance point_eq_dec : EqDecision point.
Proof. solve_decision. Defined.

Definition NewPoint (name : string) (tags : Tags) (fields : Fields) (time : option Z) : point :=
  mkPoint time (MakeKey (to_bytes name) tags) (MarshalBinary fields).

Definition Name (p : point) : option string :=
  '(name, _) ← scanTo "," (pt_key p); Some (to_string (escape_Unescape name)).

Definition point_Fields (p : point) : option (outcome Fields) := newFieldsFromBinary (pt_fields p).

Definition GetPrecisionMultiplier (precision : string) : Z :=
  if bool_decide (precision = "u"%string) then 1000
  else if bool_decide (precision = "ms"%string) then Millisecond
  else if bool_decide (precision = "s"%string) then Second
  else if bool_decide (precision = "m"%string) then 60 * Second
  else if bool_decide (precision = "h"%string) then 3600 * Second
  else 1.

(** [t.Truncate(d)] for a [d] that divides an hour. *)
Definition SetPrecision (precision : string) (t : option Z) : option Z :=
  t ← t; Some (t - t mod GetPrecisionMultiplier precision).

Definition PrecisionString (precision : string) (p : point) : bytes :=
  match pt_time p with
  | None => pt_key p ++ " "%char :: pt_fields p
  | Some t => pt_key p ++ " "%char :: pt_fields p ++ " "%char ::
                FormatInt (Z.quot t (GetPrecisionMultiplier precision))
  end.

(** The body of a write: [client.Write] in client/v2/client.go. *)
Definition write_body (precision : string) (pts : list point) : bytes :=
  concat (map (fun p => PrecisionString precision p ++ ["010"%char]) pts).

(** ** Parsing a write *)

Definition parse_error {A} (s : string) : outcome A := Err (Errorf s).

Definition isNumeric (c : ascii) : bool := is_digit c || bool_decide (c = "."%char).
Definition is_e (c : ascii) : bool := bool_decide (c = "e"%char) || bool_decide (c = "E"%char).
Definition is_n (c : ascii) : bool := bool_decide (c = "N"%char) || bool_decide (c = "n"%char).
Definition is_a (c : ascii) : bool := bool_decide (c = "a"%char) || bool_decide (c = "A"%char).
Definition at_sep (c : ascii) : bool := bool_decide (c = ","%char) || bool_decide (c = " "%char).

(** What the loop of [scanNumber] knows: the text since [start], reversed, and its flags. *)
Record numstate := mkNum { n_acc : bytes; n_isInt : bool; n_scientific : bool; n_decimals : Z }.

(** The loop of [scanNumber]; [last] is the byte before the current one. *)
Fixpoint scanNumber_loop (last : ascii) (st : numstate) (rest : bytes) : outcome (numstate * bytes) :=
  let started := bool_decide (n_acc st ≠ []) in
  match rest with
  | [] => Ok (st, [])
  | c :: rest1 =>
      if at_sep c then Ok (st, rest)
      else if bool_decide (c = "i"%char) && started && negb (n_isInt st) then
        scanNumber_loop c (mkNum (c :: n_acc st) true (n_scientific st) (n_decimals st)) rest1
      else
        let decimals := n_decimals st + (if bool_decide (c = "."%char) then 1 else 0) in
        let next := mkNum (c :: n_acc st) (n_isInt st) (n_scientific st) decimals in
        if 1 <? decimals then parse_error "invalid number"
        else if started && is_e c then
          scanNumber_loop c (mkNum (c :: n_acc st) (n_isInt st) true decimals) rest1
        else if (bool_decide (c = "+"%char) || bool_decide (c = "-"%char)) && is_e last then
          scanNumber_loop c next rest1
        else match rest1 with
             | c1 :: c2 :: rest3 =>
                 if is_n c then
                   if is_a c1 && is_n c2
                   then scanNumber_loop c2 (mkNum (c2 :: c1 :: c :: n_acc st) (n_isInt st) (n_scientific st) decimals) rest3
                   else parse_error "invalid number"
                 else if isNumeric c then scanNumber_loop c next rest1
                 else parse_error "invalid number"
             | _ => if isNumeric c then scanNumber_loop c next rest1
                    else parse_error "invalid number"
             end
  end.

(** The checks of [scanNumber] after its loop. *)
Definition number_end (st : numstate) (rest : bytes) : outcome (bytes * bytes) :=
  let text := rev (n_acc st) in
  if n_isInt st && ((0 <? n_decimals st) || n_scientific st) then parse_error "invalid number"
  else if n_isInt st then
    if negb (bool_decide (head (n_acc st) = Some "i"%char)) then parse_error "invalid number"
    else if (19 <=? Z.of_nat (length text) - 1) then
      match ParseInt (removelast text) with
      | Err e => parse_error ("unable to parse integer " +:+ to_string (removelast text) +:+ ": " +:+ Error e)
      | _ => Ok (text, rest)
      end
    else Ok (text, rest)
  else if n_scientific st || (25 <=? Z.of_nat (length text)) then
    match ParseFloat text with Err _ => parse_error "invalid float" | _ => Ok (text, rest) end
  else Ok (text, rest).

(** [scanNumber(buf, i)]: the number's text and the rest of the buffer. *)
Definition scanNumber (last : ascii) (buf : bytes) : outcome (bytes * bytes) :=
  '(st0, buf1, last1) ←
    match buf with
    | "-"%char :: [] => parse_error "invalid number"
    | "-"%char :: rest => Ok (mkNum ["-"%char] false false 0, rest, "-"%char)
    | _ => Ok (mkNum [] false false 0, buf, last)
    end;
  '(st, rest) ← scanNumber_loop last1 st0 buf1;
  number_end st rest.

Fixpoint scan_to_sep (buf : bytes) : bytes * bytes :=
  match buf with
  | c :: rest => if at_sep c then ([], buf) else let '(b, r) := scan_to_sep rest in (c :: b, r)
  | [] => ([], [])
  end.

(** [scanBoolean]: the word from its first byte to the next separator. *)
Definition scanBoolean (buf : bytes) : outcome (bytes * bytes) :=
  match buf with
  | [] => Panic "slice bounds out of range"
  | c :: rest =>
      if negb (bool_decide (c ∈ ["t"; "f"; "T"; "F"]%char)) then parse_error "invalid boolean" else
      let '(b, r) := scan_to_sep rest in
      let word := to_string (c :: b) in
      if bool_decide (b = []) then Ok (c :: b, r)
      else if bool_decide (word ∈ ["true"; "TRUE"; "True"; "false"; "FALSE"; "False"]%string)
      then Ok (c :: b, r)
      else parse_error "invalid boolean"
  end.

(** What the loop of [scanFields] knows: the buffer before the current byte, reversed,
    and its flags. *)
Record fieldstate := mkFs { f_prev : bytes; f_quoted : bool; f_equals : Z; f_commas : Z }.

Definition advance (st : fieldstate) (c : ascii) : fieldstate :=
  mkFs (c :: f_prev st) (f_quoted st) (f_equals st)
    (f_commas st + (if bool_decide (c = ","%char) && negb (f_quoted st) then 1 else 0)).

(** Is the byte two before the current one not a backslash?  [buf[i-2]] panics when the
    index is negative; it is not, a field key follows the measurement. *)
Definition not_escaped (c : ascii) (prev : bytes) : bool :=
  match prev with
  | d :: e :: _ => bool_decide (d = c) && negb (bool_decide (e = bslash))
  | _ => false
  end.

Fixpoint scanFields_loop (fuel : nat) (st : fieldstate) (buf : bytes) : option (outcome (fieldstate * bytes)) :=
  match buf, fuel with
  | [], _ => Some (Ok (st, []))
  | _, O => None
  | c :: rest, S fuel =>
      let skip2 := match rest with
                   | d :: _ =>
                       bool_decide (c = bslash) &&
                       ((f_quoted st && (bool_decide (d = dquote) || bool_decide (d = bslash))) ||
                        (negb (f_quoted st) && bool_decide (d ∈ Codes)))
                   | [] => false
                   end in
      if skip2 then
        match rest with
        | d :: rest => scanFields_loop fuel
            (mkFs (d :: c :: f_prev st) (f_quoted st) (f_equals st) (f_commas st)) rest
        | [] => None
        end
      else if bool_decide (c = dquote) then
        scanFields_loop fuel (mkFs (c :: f_prev st) (negb (f_quoted st)) (f_equals st) (f_commas st)) rest
      else if bool_decide (c = "="%char) && negb (f_quoted st) then
        let st := mkFs (f_prev st) (f_quoted st) (f_equals st + 1) (f_commas st) in
        if not_escaped " " (f_prev st) || not_escaped "," (f_prev st)
        then Some (parse_error "missing field key") else
        match rest with
        | [] => Some (parse_error "missing field value")
        | d :: _ =>
            if at_sep d then Some (parse_error "missing field value")
            else
              let scanned :=
                if isNumeric d || bool_decide (d ∈ ["-"; "N"; "n"]%char) then Some (scanNumber c rest)
                else if negb (bool_decide (d = dquote)) then Some (scanBoolean rest)
                else None in
              match scanned with
              | Some (Ok (text, rest)) =>
                  scanFields_loop fuel
                    (mkFs (rev text ++ c :: f_prev st) (f_quoted st) (f_equals st) (f_commas st)) rest
              | Some (Err e) => Some (Err e)
              | Some (Panic m) => Some (Panic m)
              | None => scanFields_loop fuel (advance st c) rest
              end
        end
      else if bool_decide (c = " "%char) && negb (f_quoted st) then Some (Ok (st, buf))
      else scanFields_loop fuel (advance st c) rest
  end.

Definition scanFields (prev buf : bytes) : option (outcome (bytes * bytes)) :=
  let ws := skipWhitespace buf in
  let skipped := take (length buf - length ws)%nat buf in
  res ← scanFields_loop (length ws) (mkFs (rev skipped ++ prev) false 0 0) ws;
  Some ('(st, rest) ← res;
        if f_quoted st then parse_error "unbalanced quotes"
        else if (f_equals st =? 0) || negb (f_commas st =? f_equals st - 1)
        then parse_error "invalid field format"
        else Ok (take (length ws - length rest)%nat ws, rest)).

Fixpoint scanTime_loop (atstart : bool) (buf : bytes) : outcome (bytes * bytes) :=
  match buf with
  | [] => Ok ([], [])
  | c :: rest =>
      if is_digit c || (atstart && bool_decide (c = "-"%char)) then
        '(ts, r) ← scanTime_loop false rest; Ok (c :: ts, r)
      else parse_error "bad timestamp"
  end.

Definition scanTime (buf : bytes) : outcome (bytes * bytes) := scanTime_loop true (skipWhitespace buf).

(** *** The measurement and its tags *)

Definition bytes_lt (a b : bytes) : bool := negb (String.leb (to_string b) (to_string a)).

Definition byte_at (buf : bytes) (i : Z) (c : ascii) : bool :=
  (0 <=? i) && bool_decide (buf !! Z.to_nat i = Some c).

(** [buf[a:b]] for [0 <= a <= b <= len(buf)]. *)
Definition slice (buf : bytes) (a b : Z) : option bytes :=
  if (0 <=? a) && (a <=? b) && (b <=? Z.of_nat (length buf))
  then Some (take (Z.to_nat (b - a)) (drop (Z.to_nat a) buf)) else None.

(** The loop over the key: the end position, the tag positions and the two counters. *)
Record keystate := mkKs { k_i : Z; k_indices : list Z; k_equals : Z }.

Definition k_commas (st : keystate) : Z := Z.of_nat (length (k_indices st)).

Fixpoint scanKey_loop (fuel : nat) (buf : bytes) (st : keystate) : option (outcome keystate) :=
  let len := Z.of_nat (length buf) in
  let i := k_i st in
  let commas := k_commas st in
  if len <=? i then
    if (k_equals st =? 0) && (0 <? commas) then Some (parse_error "missing tag value")
    else Some (Ok st)
  else match fuel with
  | O => None
  | S fuel =>
      if byte_at buf i "=" && (0 <? commas) then
        if (i - 2 <? 0) then Some (parse_error "missing tag key")
        else if (byte_at buf (i - 1) "," || byte_at buf (i - 1) " ") && negb (byte_at buf (i - 2) bslash)
        then Some (parse_error "missing tag key")
        else if byte_at buf (i + 1) " " || byte_at buf (i + 1) "," then Some (parse_error "missing tag value")
        else scanKey_loop fuel buf (mkKs (i + 1) (k_indices st) (k_equals st + 1))
      else if byte_at buf i bslash then
        scanKey_loop fuel buf (mkKs (i + 2) (k_indices st) (k_equals st))
      else if byte_at buf i "," then
        if (k_equals st =? 0) && (0 <? commas) then Some (parse_error "missing tag value")
        else if byte_at buf (i + 1) " " then Some (parse_error "missing tag key")
        else scanKey_loop fuel buf (mkKs (i + 1) (k_indices st ++ [i + 1]) (k_equals st))
      else if byte_at buf i " " then
        if ((k_equals st =? 0) && (0 <? commas)) || ((0 <? k_equals st) && negb (commas =? k_equals st))
        then Some (parse_error "missing tag value")
        else Some (Ok st)
      else scanKey_loop fuel buf (mkKs (i + 1) (k_indices st) (k_equals st))
  end.

(** The tag name that starts at an index. *)
Definition tag_name (buf : bytes) (i : Z) : option bytes := fst <$> scanTo "=" (drop (Z.to_nat i) buf).

(** Sift the last element of a sorted prefix down: the inner loop of [insertionSort]. *)
Fixpoint insert_sorted (buf : bytes) (i : Z) (l : list Z) : option (list Z) :=
  match l with
  | [] => Some [i]
  | j :: l' =>
      a ← tag_name buf i; b ← tag_name buf j;
      if bytes_lt a b then r ← insert_sorted buf i l'; Some (j :: r) else Some (i :: j :: l')
  end.

(** [insertionSort], on the reversed prefix: the greatest name first. *)
Definition insertionSort (buf : bytes) (indices : list Z) : option (list Z) :=
  r ← foldl (fun acc i => l ← acc; insert_sorted buf i l) (Some []) indices; Some (rev r).

(** The duplicate and order checks between position [j] from the left and from the
    right: whether the tags are still known to be sorted. *)
Fixpoint check_tags (n : nat) (buf : bytes) (starts ends : list Z) (sorted : bool) (j : nat)
    : option (outcome bool) :=
  match n with
  | O => Some (Ok sorted)
  | S n =>
      let k := (length starts - j - 1)%nat in
      l0 ← starts !! j; l1 ← ends !! j; r0 ← starts !! k; r1 ← ends !! k;
      lb ← slice buf l0 (l1 - 1); rb ← slice buf r0 (r1 - 1);
      '(lname, _) ← scanTo "=" lb; '(rname, _) ← scanTo "=" rb;
      if bool_decide (lname = rname) then Some (parse_error "duplicate tags")
      else check_tags n buf starts ends (sorted && negb (bytes_lt rname lname)) (S j)
  end.

Definition join_tags (buf measurement : bytes) (indices : list Z) : option bytes :=
  foldl (fun acc i => b ← acc; '(v, _) ← scanToSpaceOr "," (drop (Z.to_nat i) buf);
                      Some (b ++ ","%char :: v)) (Some measurement) indices.

(** [scanKey(buf, 0)]: the key, sorted by tag, and the position after it. *)
Definition scanKey (buf : bytes) : option (outcome (bytes * Z)) :=
  let start := Z.of_nat (length buf - length (skipWhitespace buf)) in
  res ← scanKey_loop (length buf) buf (mkKs start [] 0);
  match res with
  | Ok st =>
      let i := k_i st in
      let commas := k_commas st in
      if (0 <? k_equals st) && negb (commas =? k_equals st) then Some (parse_error "invalid tag format")
      else if Z.of_nat (length buf) <=? i then Some (parse_error "missing fields")
      else
        key ← slice buf start i;
        let ends := tail (k_indices st) ++ [i + 1] in
        chk ← check_tags (length (k_indices st) / 2) buf (k_indices st) ends true 0;
        match chk with
        | Ok sorted =>
            if negb sorted && (0 <? commas) then
              i0 ← head (k_indices st);
              measurement ← slice buf start (i0 - 1);
              idx ← insertionSort buf (k_indices st);
              b ← join_tags buf measurement idx;
              Some (Ok (b, i))
            else Some (Ok (key, i))
        | Err e => Some (Err e)
        | Panic m => Some (Panic m)
        end
  | Err e => Some (Err e)
  | Panic m => Some (Panic m)
  end.

(** *** Lines *)

Definition last_byte (b : bytes) : option ascii := last b.

Fixpoint scanLine_loop (i : Z) (last : ascii) (quoted fields : bool) (buf : bytes) : bytes * bytes :=
  match buf with
  | [] => ([], [])
  | c :: rest =>
      let fields := fields || bool_decide (c = " "%char) in
      if fields && bool_decide (c = dquote) && (0 <? i - 1) && negb (bool_decide (last = bslash)) then
        let '(b, r) := scanLine_loop (i + 1) c (negb quoted) fields rest in (c :: b, r)
      else if bool_decide (c = "010"%char) && negb quoted then ([], buf)
      else let '(b, r) := scanLine_loop (i + 1) c quoted fields rest in (c :: b, r)
  end.

Definition parsePoint (defaultTime : option Z) (precision : string) (buf : bytes) : option (outcome point) :=
  k ← scanKey buf;
  match k with
  | Err e => Some (Err e)
  | Panic m => Some (Panic m)
  | Ok (key, pos) =>
      if bool_decide (key = []) then Some (parse_error "missing measurement") else
      f ← scanFields (rev (take (Z.to_nat pos) buf)) (drop (Z.to_nat pos) buf);
      Some ('(fields, rest) ← f;
            if bool_decide (fields = []) then parse_error "missing fields" else
            '(ts, _) ← scanTime rest;
            if bool_decide (ts = [])
            then Ok (mkPoint (SetPrecision precision defaultTime) key fields)
            else t ← ParseInt ts;
                 Ok (mkPoint (Some (int64_of (t * GetPrecisionMultiplier precision))) key fields))
  end.

(** [ParsePointsWithPrecision] from position [i] on; [last] is the byte before it. *)
Fixpoint ParsePoints_loop (fuel : nat) (defaultTime : option Z) (precision : string) (i : Z) (last : ascii)
    (buf : bytes) (points : list point) : option (outcome (list point)) :=
  match fuel with
  | O => None
  | S fuel =>
      let '(block, rest) := scanLine_loop i last false false buf in
      if bool_decide (block = []) then Some (Ok points) else
      let i' := i + Z.of_nat (length block) + 1 in
      let continue := ParsePoints_loop fuel defaultTime precision i' "010" (tail rest) in
      let line := skipWhitespace block in
      match line with
      | [] => continue points
      | c :: _ =>
          if bool_decide (c = "#"%char) then continue points else
          let line := if bool_decide (last_byte line = Some "010"%char) then removelast line else line in
          pt ← parsePoint defaultTime precision line;
          match pt with
          | Ok pt =>
              if bool_decide (tail rest = []) then Some (Ok (points ++ [pt]))
              else continue (points ++ [pt])
          | Err e => Some (parse_error ("unable to parse '" +:+ to_string line +:+ "': " +:+ Error e))
          | Panic m => Some (Panic m)
          end
      end
  end.

Definition ParsePointsWithPrecision (defaultTime : option Z) (precision : string) (buf : bytes)
    : option (outcome (list point)) :=
  ParsePoints_loop (S (length buf)) defaultTime precision 0 "000" buf [].

Example parse_examples :
  map (fun s => ParsePointsWithPrecision (Some 5) "n" (to_bytes s))
    ["cpu,b=1,a=2 v=1i,w=true 10"; "cpu v=,w=1 3"; "cpu v=9i10"; ""; "cpu v=3.5"; "cpu,a=1 v=1 2x"]%string =
  [Some (Ok [mkPoint (Some 10) (to_bytes "cpu,a=2,b=1") (to_bytes "v=1i,w=true")]);
   Some (parse_error "unable to parse 'cpu v=,w=1 3': missing field value");
   Some (parse_error "unable to parse 'cpu v=9i10': invalid number");
   Some (Ok []);
   Some (Ok [mkPoint (Some 5) (to_bytes "cpu") (to_bytes "v=3.5")]);
   Some (parse_error "unable to parse 'cpu,a=1 v=1 2x': bad timestamp")].
Proof. vm_compute. reflexivity. Qed.

Example marshal_examples :
  to_string (PrecisionString "ns" (NewPoint "LogTable" ∅
     {[ "msg"%string := FString (to_bytes "a b"); "level"%string := FString (to_bytes "info");
        "serverId"%string := FInt Tint 7 ]} (Some 12))) =
  to_string (to_bytes "LogTable level=" ++ dquote :: to_bytes "info" ++ dquote :: to_bytes ",msg=" ++
   dquote :: to_bytes "a b" ++ dquote :: to_bytes ",serverId=7i 12").
Proof. vm_compute. reflexivity. Qed.
