(* ===== verification/LineFacts.v ===== *)
(** * Facts about the line protocol

    Escaping and unescaping, the scanners on escaped text, and the shape of the text of
    a field. *)
From Stdlib Require Import ZArith Lia Ascii.
From stdpp Require Import base option list strings gmap sorting.
From S2P Require Import Prelude GoNum GoFmt Strconv LineProtocol.

(** Decide a test on bytes. *)
Ltac byte_test :=
  repeat match goal with
  | |- context [bool_decide ?P] =>
      first [rewrite (bool_decide_true P) by done | rewrite (bool_decide_false P) by done]
  end.

(** ** Escaping byte by byte *)

Definition esc (cs : bytes) (s : bytes) : bytes :=
  concat (map (fun c => if bool_decide (c ∈ cs) then [bslash; c] else [c]) s).

Lemma esc_cons cs c s :
  esc cs (c :: s) = (if bool_decide (c ∈ cs) then [bslash; c] else [c]) ++ esc cs s.
Proof. done. Qed.

Lemma replace_byte_app b s1 s2 : replace_byte b (s1 ++ s2) = replace_byte b s1 ++ replace_byte b s2.
Proof. induction s1 as [|c s1 IH]; simpl; [done|]. rewrite IH. by case_bool_decide. Qed.

Lemma replace_byte_esc b cs s :
  b ∉ cs → b ≠ bslash → replace_byte b (esc cs s) = esc (cs ++ [b]) s.
Proof.
  intros Hb Hs. induction s as [|c s IH]; [done|].
  rewrite !esc_cons, replace_byte_app, IH. f_equal.
  rewrite (bool_decide_ext (c ∈ cs ++ [b]) (c ∈ cs ∨ c = b)) by set_solver.
  destruct (decide (c ∈ cs)) as [Hc|Hc].
  - rewrite !bool_decide_true by auto. simpl.
    rewrite !bool_decide_false by (try congruence; set_solver). done.
  - rewrite (bool_decide_false (c ∈ cs)) by done. simpl.
    destruct (decide (c = b)) as [->|].
    + rewrite !bool_decide_true by auto. done.
    + rewrite !bool_decide_false by naive_solver. done.
Qed.

Lemma esc_nil s : esc [] s = s.
Proof. induction s as [|c s IH]; [done|]. by rewrite esc_cons, IH. Qed.

Lemma escape_in_esc order s :
  NoDup order → bslash ∉ order → escape_in order s = esc order s.
Proof.
  unfold escape_in. intros Hnd Hb.
  enough (∀ done order, NoDup (done ++ order) → bslash ∉ order →
    foldl (fun s b => replace_byte b s) (esc done s) order = esc (done ++ order) s) as H.
  { specialize (H [] order Hnd Hb). by rewrite esc_nil in H. }
  clear order Hnd Hb. intros done order. revert done.
  induction order as [|b order IH]; intros done Hnd Hb; simpl; [by rewrite app_nil_r|].
  rewrite replace_byte_esc; [|intros ?; apply NoDup_app in Hnd as (_ & Hd & _); set_solver|set_solver].
  rewrite IH; [|by rewrite <- app_assoc|set_solver]. by rewrite <- app_assoc.
Qed.

Lemma esc_perm cs cs' s : cs ≡ₚ cs' → esc cs s = esc cs' s.
Proof.
  intros Hp. induction s as [|c s IH]; [done|]. rewrite !esc_cons, IH.
  by rewrite (bool_decide_ext (c ∈ cs) (c ∈ cs')) by by rewrite Hp.
Qed.

(** ** Unescaping byte by byte *)

Section unesc.
Context (cs : bytes).

Fixpoint unesc (s : bytes) : bytes :=
  match s with
  | c :: ((d :: s') as t) =>
      if bool_decide (c = bslash) && bool_decide (d ∈ cs) then d :: unesc s'
      else c :: unesc t
  | _ => s
  end.
End unesc.

Lemma unesc_step cs c d s :
  unesc cs (c :: d :: s) =
  if bool_decide (c = bslash) && bool_decide (d ∈ cs) then d :: unesc cs s else c :: unesc cs (d :: s).
Proof. done. Qed.

Lemma escape_Unescape_unesc s : escape_Unescape s = unesc Codes s.
Proof. done. Qed.

Lemma unesc_other cs c s : c ≠ bslash → unesc cs (c :: s) = c :: unesc cs s.
Proof. intros H. destruct s; [done|]. simpl. by rewrite (bool_decide_false (c = bslash)). Qed.

Lemma unesc_code cs d s : d ∈ cs → unesc cs (bslash :: d :: s) = d :: unesc cs s.
Proof. intros H. simpl. by rewrite !bool_decide_true. Qed.

Lemma unesc_bslash cs d s : d ∉ cs → unesc cs (bslash :: d :: s) = bslash :: unesc cs (d :: s).
Proof. intros H. rewrite unesc_step.
  by rewrite (bool_decide_false (d ∈ cs)), andb_false_r. Qed.

Lemma unesc_empty s : unesc [] s = s.
Proof.
  induction s as [|c s IH]; [done|]. destruct s as [|d s]; [done|].
  rewrite unesc_step.
  rewrite (bool_decide_false (d ∈ [])), andb_false_r by set_solver. by rewrite IH.
Qed.

(** Two-step induction on byte sequences. *)
Lemma bytes_ind2 (P : bytes → Prop) :
  P [] → (∀ c, P [c]) → (∀ c d s, P s → P (d :: s) → P (c :: d :: s)) → ∀ s, P s.
Proof.
  intros H0 H1 H2. enough (∀ s, P s ∧ ∀ c, P (c :: s)) as H by (intros s; apply H).
  induction s as [|d s [IH1 IH2]]; auto.
Qed.

Lemma replace_esc_unesc b s : replace_esc b s = unesc [b] s.
Proof.
  induction s as [|c|c d s IH1 IH2] using bytes_ind2; [done..|].
  rewrite unesc_step.
  change (replace_esc b (c :: d :: s)) with
    (if bool_decide (c = bslash) && bool_decide (d = b) then d :: replace_esc b s else c :: replace_esc b (d :: s)).
  by rewrite (bool_decide_ext (d ∈ [b]) (d = b)), IH1, IH2 by set_solver.
Qed.

Lemma unesc_head cs d s e r : unesc cs (d :: s) = e :: r → e = d ∨ e ∈ cs.
Proof.
  destruct s as [|d' s]; [naive_solver|].
  rewrite unesc_step.
  destruct (bool_decide (d = bslash)), (bool_decide (d' ∈ cs)) eqn:E; simpl; intros [= <- _]; auto.
  apply bool_decide_eq_true in E. auto.
Qed.

Lemma unesc_nonempty cs d s : unesc cs (d :: s) ≠ [].
Proof.
  destruct s as [|d' s]; [done|].
  rewrite unesc_step.
  by case_match.
Qed.

Lemma unesc_snoc b cs s :
  b ∉ cs → b ≠ bslash → bslash ∉ cs → unesc [b] (unesc cs s) = unesc (cs ++ [b]) s.
Proof.
  intros Hb Hn Hcs. induction s as [|c|c d s IH1 IH2] using bytes_ind2; [done..|].
  destruct (decide (c = bslash)) as [->|Hc]; [|by rewrite !(unesc_other _ c), IH2 by done].
  destruct (decide (d ∈ cs)) as [Hd|Hd].
  { assert (d ≠ bslash) by (by intros ->).
    by rewrite (unesc_code cs), (unesc_code (cs ++ [b])), unesc_other, IH1 by (done || set_solver). }
  destruct (decide (d = b)) as [->|Hdb].
  { rewrite unesc_bslash, (unesc_other cs), (unesc_code [b]), (unesc_code (cs ++ [b])), IH1 by set_solver. done. }
  rewrite unesc_bslash, (unesc_bslash (cs ++ [b])), <- IH2 by set_solver.
  destruct (unesc cs (d :: s)) as [|e r] eqn:E; [by apply unesc_nonempty in E|].
  apply unesc_head in E as [->|]; apply unesc_bslash; set_solver.
Qed.

Lemma unescape_in_unesc order s :
  NoDup order → bslash ∉ order → unescape_in order s = unesc order s.
Proof.
  unfold unescape_in. intros Hnd Hb.
  enough (∀ done order, NoDup (done ++ order) → bslash ∉ done ++ order →
    foldl (fun s b => replace_esc b s) (unesc done s) order = unesc (done ++ order) s) as H.
  { specialize (H [] order Hnd Hb). by rewrite unesc_empty in H. }
  clear order Hnd Hb. intros done order. revert done.
  induction order as [|b order IH]; intros done Hnd Hb; simpl; [by rewrite app_nil_r|].
  rewrite replace_esc_unesc, unesc_snoc; [|..|set_solver|set_solver].
  - rewrite IH; [|by rewrite <- app_assoc|set_solver]. by rewrite <- app_assoc.
  - intros ?. apply NoDup_app in Hnd as (_ & Hd & _). set_solver.
Qed.

Lemma unesc_perm cs cs' s : cs ≡ₚ cs' → unesc cs s = unesc cs' s.
Proof.
  intros Hp. induction s as [|c|c d s IH1 IH2] using bytes_ind2; [done..|].
  rewrite !unesc_step, (bool_decide_ext (d ∈ cs) (d ∈ cs')) by (by rewrite Hp). by rewrite IH1, IH2.
Qed.

(** Unescaping undoes escaping on text without backslashes. *)
Lemma unesc_esc cs s : bslash ∉ s → unesc cs (esc cs s) = s.
Proof.
  induction s as [|c s IH]; intros H; [done|]. rewrite esc_cons.
  case_bool_decide; cbn [app].
  - by rewrite unesc_code, IH by set_solver.
  - by rewrite unesc_other, IH by set_solver.
Qed.

Lemma unescape_escape_field s : unescapeStringField (escapeStringField s) = s.
Proof.
  induction s as [|c s IH]; [done|]. simpl.
  destruct (decide (c = bslash)) as [->|Hb]; [byte_test; simpl; by f_equal|].
  destruct (decide (c = dquote)) as [->|Hq]; [byte_test; simpl; by f_equal|].
  rewrite !bool_decide_false by done.
  destruct (escapeStringField s) as [|d t] eqn:E; [by rewrite <- IH|].
  change (unescapeStringField (c :: d :: t)) with
    (if bool_decide (c = bslash) && bool_decide (d = bslash) then bslash :: unescapeStringField t
     else if bool_decide (c = bslash) && bool_decide (d = dquote) then dquote :: unescapeStringField t
     else c :: unescapeStringField (d :: t)).
  rewrite !(bool_decide_false (c = bslash)) by done. cbn [andb]. by rewrite IH.
Qed.

(** ** Scanning escaped text *)

Lemma scanTo_esc cs stop s r :
  stop ∈ cs → stop ≠ bslash → bslash ∉ s → (r = [] ∨ ∃ r', r = stop :: r') →
  scanTo stop (esc cs s ++ r) = Some (esc cs s, r).
Proof.
  intros Hst Hsb Hs Hr. induction s as [|c s IH].
  - simpl. destruct Hr as [->|[r' ->]]; [done|]. simpl.
    by rewrite (bool_decide_false (stop = bslash)), bool_decide_true.
  - rewrite esc_cons. case_bool_decide as Hc; simpl.
    + rewrite IH by set_solver. done.
    + rewrite (bool_decide_false (c = bslash)), (bool_decide_false (c = stop)) by set_solver.
      by rewrite IH by set_solver.
Qed.

(** ** The text of a value *)

(** Values whose text a receiver reads back: strings must not end in a backslash. *)
Definition value_ok (v : field_value) : bool :=
  match v with
  | FInt _ _ | FBool _ => true
  | FString s | FOther s => negb (bool_decide (last s = Some bslash))
  | FFloat _ | FBytes _ | FNil => false
  end.

(** The value read back: every integer is an [int64], everything printed a [string]. *)
Definition decoded (v : field_value) : field_value :=
  match v with
  | FInt _ z => FInt Tint64 (int64_of z)
  | FOther s => FString s
  | v => v
  end.

Definition plain_text (s : bytes) : Prop :=
  Forall (fun c => c ≠ bslash ∧ c ≠ dquote ∧ c ≠ ","%char ∧ c ≠ " "%char) s.

Lemma digit_plain c : is_digit c = true → c ≠ bslash ∧ c ≠ dquote ∧ c ≠ ","%char ∧ c ≠ " "%char.
Proof. intros H. split_and!; by intros ->. Qed.

Lemma digits_plain ds : forallb is_digit ds = true → plain_text ds.
Proof.
  induction ds as [|c ds IH]; simpl; [constructor|]. intros [Hc Hd]%andb_prop.
  constructor; [by apply digit_plain|by apply IH].
Qed.

Lemma FormatInt_plain z : plain_text (FormatInt z).
Proof.
  destruct (FormatInt_shape z) as (c & ds & -> & Hc & Hd). constructor; [|by apply digits_plain].
  destruct Hc as [->|Hc]; [by split_and!|by apply digit_plain].
Qed.

Lemma scanFieldValue_step q c r :
  c ≠ dquote → (c = ","%char → q = true) → (c = bslash → head r ≠ Some dquote) →
  scanFieldValue q (c :: r) = (c :: (scanFieldValue q r).1, (scanFieldValue q r).2).
Proof.
  intros Hq Hc Hb. simpl. rewrite (bool_decide_false (c = dquote)) by done.
  assert (bool_decide (c = ","%char) && negb q = false) as ->.
  { case_bool_decide; [by rewrite Hc|done]. }
  destruct r as [|d r]; [done|].
  assert (bool_decide (c = bslash) && bool_decide (d = dquote) = false) as ->.
  { destruct (decide (c = bslash)) as [->|]; [|by rewrite bool_decide_false].
    rewrite (bool_decide_false (d = dquote)), andb_false_r; [done|]. intros ->. by apply Hb. }
  by destruct (scanFieldValue q (d :: r)).
Qed.

Lemma scanFieldValue_plain s r :
  plain_text s → (r = [] ∨ ∃ r', r = ","%char :: r') → scanFieldValue false (s ++ r) = (s, r).
Proof.
  intros Hs Hr. induction Hs as [|c s (Hb & Hq & Hc & _) Hs IH].
  - destruct Hr as [->|[r' ->]]; [done|]. simpl. by destruct r'.
  - rewrite <- app_comm_cons, scanFieldValue_step by done. by rewrite IH.
Qed.

Lemma escapeStringField_head s d t : escapeStringField s = d :: t → d ≠ dquote.
Proof.
  destruct s as [|c s]; [done|]. simpl. repeat case_bool_decide; by intros [= <- _].
Qed.

Lemma scanFieldValue_quoted s r :
  last s ≠ Some bslash → (r = [] ∨ ∃ r', r = ","%char :: r') →
  scanFieldValue true (escapeStringField s ++ dquote :: r) = (escapeStringField s ++ [dquote], r).
Proof.
  intros Hl Hr. induction s as [|c s IH].
  - simpl. destruct Hr as [->|[r' ->]]; [done|]. simpl. by destruct r'.
  - assert (last s ≠ Some bslash) as Hls.
    { intros H. apply Hl. by destruct s. }
    specialize (IH Hls). simpl escapeStringField.
    destruct (decide (c = bslash)) as [->|Hb].
    { rewrite (bool_decide_true (bslash = bslash)) by done. simpl app.
      rewrite !scanFieldValue_step by (done || by intros _; destruct s as [|c s]; [|];
        [by destruct Hl | destruct (escapeStringField (c :: s)) as [|d t] eqn:E;
         [simpl in E; repeat case_bool_decide; done | simpl; intros [= ->]; by apply escapeStringField_head in E]]).
      by rewrite IH. }
    rewrite (bool_decide_false (c = bslash)) by done.
    destruct (decide (c = dquote)) as [->|Hq].
    { rewrite (bool_decide_true (dquote = dquote)) by done. simpl.
      by rewrite IH. }
    rewrite (bool_decide_false (c = dquote)) by done. simpl app.
    rewrite scanFieldValue_step by done. by rewrite IH.
Qed.

Lemma scan_marshal_value v r :
  value_ok v = true → (r = [] ∨ ∃ r', r = ","%char :: r') →
  scanFieldValue false (marshal_value v ++ r) = (marshal_value v, r).
Proof.
  assert (∀ s, negb (bool_decide (last s = Some bslash)) = true → (r = [] ∨ ∃ r', r = ","%char :: r') →
    scanFieldValue false (quote s ++ r) = (quote s, r)) as Hq.
  { intros s Hl Hr. apply negb_true_iff, bool_decide_eq_false in Hl.
    unfold quote. rewrite <- app_comm_cons, <- app_assoc. cbn [app].
    assert (scanFieldValue false (dquote :: escapeStringField s ++ dquote :: r) =
      (dquote :: (scanFieldValue true (escapeStringField s ++ dquote :: r)).1,
       (scanFieldValue true (escapeStringField s ++ dquote :: r)).2)) as ->.
    { destruct (escapeStringField s ++ dquote :: r) as [|d t]; [done|]. simpl.
      by destruct (match t with [] => _ | _ => _ end). }
    by rewrite scanFieldValue_quoted. }
  destruct v; intros Hok Hr; try done; simpl marshal_value; [..|by apply Hq|by apply Hq].
  - apply scanFieldValue_plain; [|done]. apply Forall_app. split; [apply FormatInt_plain|].
    by repeat constructor.
  - apply scanFieldValue_plain; [|done]. destruct b; by repeat constructor.
Qed.

Lemma marshal_value_nonempty v : value_ok v = true → marshal_value v ≠ [].
Proof. destruct v as [? z| |[]| | | |]; try done. simpl. by destruct (FormatInt (int64_of z)). Qed.

Lemma removelast_snoc {A} (l : list A) x : removelast (l ++ [x]) = l.
Proof. rewrite removelast_app by done. apply app_nil_r. Qed.

Lemma last_snoc_byte (l : bytes) x : last (l ++ [x]) = Some x.
Proof. apply last_snoc. Qed.

Lemma starts_number_FormatInt z c t : FormatInt z = c :: t → starts_number c = true ∧ c ≠ dquote.
Proof.
  destruct (FormatInt_shape z) as (c' & ds & -> & Hc & _). intros [= -> _].
  unfold starts_number. destruct Hc as [->|Hc]; [by split|].
  rewrite Hc. split; [done|]. by intros ->.
Qed.

Lemma parse_marshal_value v : value_ok v = true → parse_value (marshal_value v) = Ok (decoded v).
Proof.
  assert (∀ s, parse_value (quote s) = Ok (FString s)) as Hq.
  { intros s. unfold quote. simpl.
    destruct (escapeStringField s ++ [dquote]) as [|d t] eqn:E; [by destruct (escapeStringField s)|].
    rewrite <- E, removelast_snoc. by rewrite unescape_escape_field. }
  destruct v as [ty z| |b| | | |]; intros Hok; try done; [|by destruct b|apply Hq|apply Hq].
  simpl marshal_value. destruct (FormatInt (int64_of z)) as [|c t] eqn:E.
  { destruct (FormatInt_shape (int64_of z)) as (? & ? & H & _). by rewrite E in H. }
  destruct (starts_number_FormatInt _ _ _ E) as [Hc Hd].
  simpl. rewrite (bool_decide_false (c = dquote)), Hc by done. unfold parseNumber.
  rewrite app_comm_cons, last_snoc_byte, removelast_snoc, <- E.
  by rewrite ParseInt_FormatInt by apply int64_range.
Qed.

(** ** Reading back the fields *)

(** Keys whose escaped text a receiver reads back. *)
Definition key_ok (k : string) : bool :=
  bool_decide (k ≠ ""%string) && bool_decide (bslash ∉ to_bytes k).

Lemma key_ok_iff k : key_ok k = true → to_bytes k ≠ [] ∧ bslash ∉ to_bytes k.
Proof.
  intros [H1%bool_decide_eq_true H2%bool_decide_eq_true]%andb_prop. split; [|done].
  intros H. apply H1, (inj to_bytes). done.
Qed.

Lemma escape_String_esc s : escape_String s = esc Codes s.
Proof. apply escape_in_esc; [by apply (bool_decide_unpack _)|by apply (bool_decide_unpack _)]. Qed.

Lemma esc_nonempty cs s : s ≠ [] → esc cs s ≠ [].
Proof. destruct s as [|c s]; [done|]. rewrite esc_cons. by case_bool_decide. Qed.

(** The text of one field without its comma. *)
Definition field_text (p : Fields) (k : string) : bytes :=
  escape_String (to_bytes k) ++ "="%char :: marshal_value (default FNil (p !! k)).

Definition join_fields (p : Fields) (ks : list string) : bytes :=
  match ks with
  | [] => []
  | k :: ks => field_text p k ++ concat (map (fun k => ","%char :: field_text p k) ks)
  end.

Lemma marshal_field_text p k : marshal_field p k = field_text p k ++ [","%char].
Proof. unfold marshal_field, field_text. by rewrite <- app_assoc. Qed.

Lemma marshal_join p ks :
  concat (map (marshal_field p) ks) = match ks with [] => [] | _ => join_fields p ks ++ [","%char] end.
Proof.
  induction ks as [|k ks IH]; [done|]. simpl. rewrite IH, marshal_field_text.
  destruct ks as [|k' ks]; [by rewrite !app_nil_r|]. simpl.
  rewrite <- !app_assoc. by rewrite <- !app_comm_cons, <- !app_assoc.
Qed.

Lemma MarshalBinary_join p :
  MarshalBinary p = join_fields p (sort_strings (map fst (map_to_list p))).
Proof.
  unfold MarshalBinary. rewrite marshal_join.
  destruct (sort_strings _) as [|k ks]; [done|].
  destruct (join_fields p (k :: ks) ++ [","%char]) as [|c t] eqn:E.
  - by destruct (join_fields p (k :: ks)).
  - by rewrite <- E, removelast_snoc.
Qed.

Lemma fields_loop p ks acc fuel :
  Forall (fun k => key_ok k = true ∧ value_ok (default FNil (p !! k)) = true) ks →
  (length ks ≤ fuel)%nat →
  newFieldsFromBinary_loop fuel (join_fields p ks) acc =
  Some (Ok (foldl (fun m k => <[k := decoded (default FNil (p !! k))]> m) acc ks)).
Proof.
  revert acc fuel. induction ks as [|k ks IH]; intros acc fuel Hok Hf; [by destruct fuel|].
  apply Forall_cons in Hok as [[Hk Hv] Hok]. apply key_ok_iff in Hk as [Hne Hb].
  destruct fuel as [|fuel]; [simpl in Hf; lia|].
  set (v := default FNil (p !! k)) in *.
  set (rest := concat (map (fun k => ","%char :: field_text p k) ks)).
  assert (join_fields p (k :: ks) = esc Codes (to_bytes k) ++ "="%char :: marshal_value v ++ rest) as ->.
  { simpl. unfold field_text. by rewrite escape_String_esc, <- app_assoc. }
  assert (rest = [] ∨ ∃ r', rest = ","%char :: r') as Hr.
  { unfold rest. destruct ks; simpl; eauto. }
  assert (tail rest = join_fields p ks) as Ht by (unfold rest; by destruct ks).
  assert (esc Codes (to_bytes k) ≠ []) as Hne' by (by apply esc_nonempty).
  pose proof (marshal_value_nonempty v Hv) as Hvn.
  destruct (esc Codes (to_bytes k) ++ "="%char :: marshal_value v ++ rest) as [|c0 t0] eqn:E0.
  { by destruct (esc Codes (to_bytes k)). }
  cbn [newFieldsFromBinary_loop]. rewrite <- E0.
  rewrite scanTo_esc by (set_solver || eauto). cbn [mbind option_bind].
  rewrite bool_decide_false by done. rewrite escape_Unescape_unesc, unesc_esc, to_string_to_bytes by done.
  rewrite scan_marshal_value by done.
  destruct (marshal_value v) as [|c1 t1] eqn:E1; [done|]. rewrite <- E1.
  rewrite parse_marshal_value by done. rewrite Ht, IH by (done || simpl in Hf; lia). done.
Qed.

Lemma foldl_insert_lookup {V} (f : string → V) ks (acc : gmap string V) k :
  foldl (fun m k => <[k := f k]> m) acc ks !! k = if bool_decide (k ∈ ks) then Some (f k) else acc !! k.
Proof.
  revert acc. induction ks as [|k' ks IH]; intros acc; simpl; [done|].
  rewrite IH. destruct (decide (k = k')) as [->|Hk].
  - rewrite lookup_insert_eq, (bool_decide_true (k' ∈ k' :: ks)) by set_solver. by case_bool_decide.
  - rewrite lookup_insert_ne by done. by rewrite (bool_decide_ext (k ∈ k' :: ks) (k ∈ ks)) by set_solver.
Qed.

Lemma sorted_keys_elem (p : Fields) k :
  k ∈ sort_strings (map fst (map_to_list p)) ↔ is_Some (p !! k).
Proof.
  unfold sort_strings. rewrite merge_sort_Permutation, list_elem_of_fmap. split.
  - intros ([k' v] & -> & Hin%elem_of_map_to_list). by exists v.
  - intros [v Hv]. exists (k, v). split; [done|]. by apply elem_of_map_to_list.
Qed.

Definition fields_ok (p : Fields) : Prop :=
  map_Forall (fun k v => key_ok k = true ∧ value_ok v = true) p.

Lemma sorted_keys_ok (P : string → field_value → Prop) (p : Fields) :
  map_Forall P p →
  Forall (fun k => P k (default FNil (p !! k))) (sort_strings (map fst (map_to_list p))).
Proof.
  intros H. apply Forall_forall. intros k [v Hv]%sorted_keys_elem. rewrite Hv. by apply H.
Qed.

Lemma join_fields_length p ks : (length ks ≤ length (join_fields p ks))%nat.
Proof.
  assert (∀ ks, length ks ≤ length (concat (map (fun k => ","%char :: field_text p k) ks)))%nat as H.
  { intros l. induction l as [|k l IH]; simpl; [lia|]. rewrite length_app. simpl. lia. }
  destruct ks as [|k ks]; [simpl; lia|]. unfold join_fields. rewrite length_app. specialize (H ks).
  assert (1 ≤ length (field_text p k))%nat; [|simpl length at 1; lia].
  unfold field_text. rewrite length_app. simpl. lia.
Qed.
