(* ===== verification/LineScan.v ===== *)
(** * Parsing the body of a write

    The receiver's scanners on text that [NewPoint] and [PrecisionString] produced for
    measurements and field keys that are identifiers, as all those of the program are. *)
From Stdlib Require Import ZArith Lia Ascii.
From stdpp Require Import base option list strings gmap sorting.
From S2P Require Import Prelude GoNum GoFmt Strconv LineProtocol LineFacts.

(** ** Identifiers *)

Definition ident_byte (c : ascii) : bool :=
  let n := N_of_ascii c in
  is_digit c || ((65 <=? n) && (n <=? 90))%N || ((97 <=? n) && (n <=? 122))%N || bool_decide (c = "_"%char).

Definition ident (k : string) : bool :=
  bool_decide (k ≠ ""%string) && forallb ident_byte (to_bytes k).

Definition word_byte (c : ascii) : Prop :=
  c ∉ Codes ∧ c ≠ bslash ∧ c ≠ "009"%char ∧ c ≠ "010"%char ∧ c ≠ "#"%char.

Lemma ident_byte_word c : ident_byte c = true → word_byte c.
Proof.
  intros H. unfold word_byte, Codes, dquote, bslash.
  split_and!; intros Hc; try (by subst).
  repeat (apply elem_of_cons in Hc as [->|Hc]; [done|]). by apply elem_of_nil in Hc.
Qed.

Lemma ident_word k : ident k = true → to_bytes k ≠ [] ∧ Forall word_byte (to_bytes k).
Proof.
  intros [H1%bool_decide_eq_true H2]%andb_prop. split.
  - intros H. apply H1, (inj to_bytes). done.
  - apply Forall_forall. intros c Hc. apply ident_byte_word.
    rewrite forallb_forall in H2. apply H2. by apply list_elem_of_In.
Qed.

Lemma word_esc cs s : (∀ c, c ∈ cs → c ∈ Codes) → Forall word_byte s → esc cs s = s.
Proof.
  intros Hcs. induction 1 as [|c s (Hc & _) _ IH]; [done|].
  rewrite esc_cons, bool_decide_false by auto. simpl. by rewrite IH.
Qed.

Lemma ident_key_ok k : ident k = true → key_ok k = true.
Proof.
  intros Hk. pose proof (ident_word k Hk) as [_ Hw]. unfold key_ok, ident in *.
  apply andb_prop in Hk as [-> _]. simpl. apply bool_decide_eq_true. intros Hb.
  rewrite Forall_forall in Hw. by destruct (Hw _ Hb) as (_ & ? & _).
Qed.

(** ** The fields of a line *)

(** From one state of the scanner to another, whatever fuel covers the buffer. *)
Definition scans (st : fieldstate) (buf : bytes) (st' : fieldstate) (rest : bytes) : Prop :=
  ∀ fuel, (length buf ≤ fuel)%nat → ∃ fuel', (length rest ≤ fuel')%nat ∧
    scanFields_loop fuel st buf = scanFields_loop fuel' st' rest.

Lemma scans_refl st buf : scans st buf st buf.
Proof. intros fuel Hf. eauto. Qed.

Lemma scans_trans st1 b1 st2 b2 st3 b3 : scans st1 b1 st2 b2 → scans st2 b2 st3 b3 → scans st1 b1 st3 b3.
Proof.
  intros H1 H2 fuel Hf. destruct (H1 fuel Hf) as (f1 & Hf1 & ->). apply (H2 f1 Hf1).
Qed.

(** An ordinary byte. *)
Lemma scans_byte st c r :
  c ≠ dquote → c ≠ bslash → (f_quoted st = false → c ≠ "="%char ∧ c ≠ " "%char) →
  scans st (c :: r) (advance st c) r.
Proof.
  intros Hq Hb Hc fuel Hf. destruct fuel as [|fuel]; simpl in Hf; [lia|].
  exists fuel. split; [lia|]. simpl.
  assert (match r with [] => false | d :: _ => bool_decide (c = bslash) &&
    (f_quoted st && (bool_decide (d = dquote) || bool_decide (d = bslash)) ||
     negb (f_quoted st) && bool_decide (d ∈ Codes)) end = false) as ->.
  { destruct r; [done|]. by rewrite (bool_decide_false (c = bslash)). }
  rewrite (bool_decide_false (c = dquote)) by done.
  destruct (f_quoted st) eqn:E; [by rewrite !andb_false_r|].
  destruct (Hc eq_refl). by rewrite (bool_decide_false (c = "="%char)), (bool_decide_false (c = " "%char)).
Qed.

Lemma scans_quote st r :
  scans st (dquote :: r) (mkFs (dquote :: f_prev st) (negb (f_quoted st)) (f_equals st) (f_commas st)) r.
Proof.
  intros fuel Hf. destruct fuel as [|fuel]; simpl in Hf; [lia|]. exists fuel. split; [lia|].
  simpl. by destruct r.
Qed.

(** An escaped byte of a quoted value. *)
Lemma scans_escaped st d r :
  f_quoted st = true → d = dquote ∨ d = bslash →
  scans st (bslash :: d :: r) (mkFs (d :: bslash :: f_prev st) true (f_equals st) (f_commas st)) r.
Proof.
  intros Hq Hd fuel Hf. destruct fuel as [|fuel]; simpl in Hf; [lia|]. exists fuel. split; [lia|].
  cbn [scanFields_loop]. rewrite Hq.
  destruct Hd as [-> | ->]; byte_test; done.
Qed.

Lemma scans_ident k prev e cm r :
  Forall word_byte k → scans (mkFs prev false e cm) (k ++ r) (mkFs (rev k ++ prev) false e cm) r.
Proof.
  intros Hk. revert prev. induction Hk as [|c k Hc Hk IH]; intros prev; [apply scans_refl|].
  destruct Hc as (Hcd & Hb & _). simpl.
  assert (c ≠ ","%char ∧ c ≠ dquote ∧ c ≠ " "%char ∧ c ≠ "="%char) as (H1 & H2 & H3 & H4).
  { unfold Codes in Hcd. set_solver. }
  eapply scans_trans; [apply scans_byte; auto|].
  unfold advance. simpl. rewrite (bool_decide_false (c = ","%char)) by done. simpl.
  rewrite Z.add_0_r, <- app_assoc. apply IH.
Qed.

(** The content of a quoted value and its closing quote. *)
Lemma scans_string s prev e cm r :
  ∃ prev', scans (mkFs prev true e cm) (escapeStringField s ++ dquote :: r) (mkFs prev' false e cm) r.
Proof.
  revert prev. induction s as [|c s IH]; intros prev; simpl.
  - eexists. apply (scans_quote (mkFs prev true e cm)).
  - destruct (decide (c = bslash)) as [->|Hb]; [byte_test; simpl|].
    { destruct (IH (bslash :: bslash :: prev)) as [p Hp]. exists p.
      eapply scans_trans; [by apply scans_escaped; auto|exact Hp]. }
    rewrite (bool_decide_false (c = bslash)) by done.
    destruct (decide (c = dquote)) as [->|Hq]; [byte_test; simpl|].
    { destruct (IH (dquote :: bslash :: prev)) as [p Hp]. exists p.
      eapply scans_trans; [by apply scans_escaped; auto|exact Hp]. }
    rewrite (bool_decide_false (c = dquote)) by done. simpl.
    destruct (IH (c :: prev)) as [p Hp]. exists p.
    eapply scans_trans; [by apply scans_byte|].
    unfold advance. simpl. by rewrite andb_false_r, Z.add_0_r.
Qed.

(** *** Numbers and booleans *)

Definition sep_head (r : bytes) : Prop := match r with c :: _ => at_sep c = true | [] => False end.

Lemma digit_tests c :
  is_digit c = true →
  at_sep c = false ∧ bool_decide (c = "i"%char) = false ∧ bool_decide (c = "."%char) = false ∧
  is_e c = false ∧ bool_decide (c = "+"%char) = false ∧ bool_decide (c = "-"%char) = false ∧
  is_n c = false ∧ isNumeric c = true.
Proof.
  intros H. unfold at_sep, is_e, is_n, isNumeric. rewrite H.
  rewrite !bool_decide_false by (by intros ->). done.
Qed.

Lemma scanNumber_digits ds last st r :
  forallb is_digit ds = true → n_decimals st = 0 → n_isInt st = false → n_acc st ++ ds ≠ [] →
  sep_head r →
  scanNumber_loop last st (ds ++ "i"%char :: r) =
  Ok (mkNum ("i"%char :: rev ds ++ n_acc st) true (n_scientific st) 0, r).
Proof.
  revert last st. induction ds as [|c ds IH]; intros last st Hd Hdec Hi Hne Hr.
  - simpl app in *. rewrite app_nil_r in Hne. cbn [scanNumber_loop].
    rewrite (bool_decide_true (n_acc st ≠ [])), Hi by done. simpl.
    destruct r as [|c r]; [done|]. simpl in Hr |- *. by rewrite Hr, Hdec.
  - simpl in Hd. apply andb_prop in Hd as [Hc Hd].
    destruct (digit_tests c Hc) as (H1 & H2 & H3 & H4 & H5 & H6 & H7 & H8).
    rewrite <- app_comm_cons. cbn [scanNumber_loop]. rewrite H1, H2, H3, H4, H5, H6, H7, H8, Hdec.
    simpl. rewrite andb_false_r.
    assert (∀ x y : outcome (numstate * bytes), x = y →
      match ds ++ "i"%char :: r with _ :: _ :: _ => x | _ => x end = y) as Hm.
    { intros x y ->. by destruct (ds ++ "i"%char :: r) as [|? []]. }
    apply Hm. rewrite IH by (done || simpl; by destruct ds). simpl. by rewrite <- app_assoc.
Qed.

Lemma scanNumber_sign z last r :
  ∃ last1 acc ds, rev acc ++ ds = FormatInt z ∧ forallb is_digit ds = true ∧
    scanNumber last (FormatInt z ++ "i"%char :: r) =
    ('(st, rest) ← scanNumber_loop last1 (mkNum acc false false 0) (ds ++ "i"%char :: r);
     number_end st rest).
Proof.
  destruct (FormatInt_shape z) as (c & ds & -> & Hc & Hd). destruct Hc as [->|Hc].
  - exists "-"%char, ["-"%char], ds. split_and!; [done|done|].
    unfold scanNumber. simpl. by destruct ds.
  - exists last, [], (c :: ds). split_and!; [done|simpl; by rewrite Hc|].
    unfold scanNumber. simpl. destruct (digit_tests c Hc) as (_ & _ & _ & _ & _ & H & _).
    apply bool_decide_eq_false in H. by destruct c as [[] [] [] [] [] [] [] []].
Qed.

Lemma scanNumber_int z last r :
  is_int64 z → sep_head r →
  scanNumber last (FormatInt z ++ "i"%char :: r) = Ok (FormatInt z ++ ["i"%char], r).
Proof.
  intros Hz Hr. destruct (scanNumber_sign z last r) as (last1 & acc & ds & Hacc & Hdig & ->).
  rewrite scanNumber_digits; [|done..| |done].
  2: { simpl. intros [Ha Hb]%app_eq_nil. rewrite Ha, Hb in Hacc.
       destruct (FormatInt_shape z) as (? & ? & E & _). by rewrite <- Hacc in E. }
  cbn [mbind outcome_bind]. unfold number_end. simpl.
  rewrite rev_app_distr, rev_involutive, Hacc, removelast_snoc, ParseInt_FormatInt by done.
  by case_match.
Qed.

Lemma scanBoolean_bool b r : sep_head r → scanBoolean (FormatBool b ++ r) = Ok (FormatBool b, r).
Proof.
  intros Hr. destruct r as [|c r]; [done|]. simpl in Hr.
  destruct b; simpl; rewrite Hr; done.
Qed.

(** *** One field *)

(** The bytes before the equals sign end in a key. *)
Definition after_key (q : bytes) : Prop :=
  not_escaped " " q = false ∧ not_escaped "," q = false.

Lemma after_key_ident k prev : k ≠ [] → Forall word_byte k → after_key (rev k ++ prev).
Proof.
  intros Hne Hw. destruct (rev k) as [|c t] eqn:Er.
  { exfalso. apply Hne. by rewrite <- (rev_involutive k), Er. }
  assert (c ∈ k) as Hc by (apply list_elem_of_In, in_rev; rewrite Er; by left).
  rewrite Forall_forall in Hw. destruct (Hw c Hc) as (Hcd & _). unfold Codes in Hcd.
  unfold after_key, not_escaped. simpl. destruct (t ++ prev); [done|].
  by rewrite !(bool_decide_false (c = _)) by set_solver.
Qed.

(** The scan of a value that is a number or a boolean, at its equals sign. *)
Lemma scans_equals q e cm d t text rest :
  after_key q → at_sep d = false →
  (if isNumeric d || bool_decide (d ∈ ["-"; "N"; "n"]%char) then Some (scanNumber "=" (d :: t))
   else if negb (bool_decide (d = dquote)) then Some (scanBoolean (d :: t)) else None)
  = Some (Ok (text, rest)) →
  (length rest ≤ length t)%nat →
  scans (mkFs q false e cm) ("="%char :: d :: t) (mkFs (rev text ++ "="%char :: q) false (e + 1) cm) rest.
Proof.
  intros [Ha1 Ha2] Hsep Hs Hlen fuel Hf.
  destruct fuel as [|fuel]; simpl in Hf; [lia|]. exists fuel. split; [lia|].
  cbn [scanFields_loop f_quoted f_prev f_equals f_commas]. byte_test.
  cbn [andb orb negb]. by rewrite Ha1, Ha2, Hsep, Hs.
Qed.

Lemma scans_quoted_value q e cm s r :
  after_key q →
  ∃ prev', scans (mkFs q false e cm) (("="%char :: quote s) ++ r) (mkFs prev' false (e + 1) cm) r.
Proof.
  intros [Ha1 Ha2]. destruct (scans_string s (dquote :: "="%char :: q) (e + 1) cm r) as [p' Hp'].
  exists p'. eapply scans_trans;
    [|eapply scans_trans; [apply (scans_quote (mkFs ("="%char :: q) false (e + 1) cm))|exact Hp']].
  unfold quote. rewrite <- !app_comm_cons, <- app_assoc. intros fuel Hf.
  destruct fuel as [|fuel]; simpl in Hf; [lia|]. exists fuel. split; [simpl; lia|].
  cbn [scanFields_loop f_quoted f_prev f_equals f_commas]. byte_test.
  cbn [andb orb negb]. rewrite Ha1, Ha2. unfold advance. simpl. by rewrite Z.add_0_r.
Qed.

Lemma scans_value q e cm v r :
  after_key q → value_ok v = true → sep_head r →
  ∃ prev', scans (mkFs q false e cm) (("="%char :: marshal_value v) ++ r) (mkFs prev' false (e + 1) cm) r.
Proof.
  intros Ha Hv Hr.
  destruct v as [ty z| |b| | | |s]; try done; [| |by apply scans_quoted_value..]; simpl marshal_value.
  - destruct (FormatInt_shape (int64_of z)) as (c & ds & E & Hc & Hd).
    eexists. rewrite E. simpl. apply scans_equals; [done|..].
    + destruct Hc as [->|Hc]; [done|]. by destruct (digit_tests c Hc).
    + assert (isNumeric c || bool_decide (c ∈ ["-"; "N"; "n"]%char) = true) as ->.
      { unfold isNumeric. destruct Hc as [->|Hc]; [done|by rewrite Hc]. }
      f_equal. change (c :: (ds ++ ["i"%char]) ++ r) with ((c :: (ds ++ ["i"%char])) ++ r).
      rewrite app_comm_cons, <- E, <- app_assoc. apply scanNumber_int; [apply int64_range|done].
    + rewrite !length_app. lia.
  - destruct b; eexists; simpl; (eapply scans_equals; [done|done| |simpl; lia]); simpl; f_equal.
    + apply (scanBoolean_bool true r Hr).
    + apply (scanBoolean_bool false r Hr).
Qed.

Lemma scans_field p k prev e cm r :
  ident k = true → value_ok (default FNil (p !! k)) = true → sep_head r →
  ∃ prev', scans (mkFs prev false e cm) (field_text p k ++ r) (mkFs prev' false (e + 1) cm) r.
Proof.
  intros Hk Hv Hr. apply ident_word in Hk as [Hne Hw]. unfold field_text.
  rewrite escape_String_esc, word_esc, <- app_assoc by auto.
  destruct (scans_value (rev (to_bytes k) ++ prev) e cm (default FNil (p !! k)) r) as [prev' Hp];
    [by apply after_key_ident|done|done|].
  exists prev'. eapply scans_trans; [by apply scans_ident|exact Hp].
Qed.

(** *** All the fields *)

Definition ident_fields (p : Fields) (ks : list string) : Prop :=
  Forall (fun k => ident k = true ∧ value_ok (default FNil (p !! k)) = true) ks.

Lemma join_fields_cons p k k' ks :
  join_fields p (k :: k' :: ks) = field_text p k ++ ","%char :: join_fields p (k' :: ks).
Proof. done. Qed.

Lemma scans_comma prev e cm r : scans (mkFs prev false e cm) (","%char :: r) (mkFs (","%char :: prev) false e (cm + 1)) r.
Proof. eapply (scans_byte (mkFs prev false e cm)); done. Qed.

Lemma scans_fields p ks prev e cm r :
  ks ≠ [] → ident_fields p ks →
  ∃ prev', scans (mkFs prev false e cm) (join_fields p ks ++ " "%char :: r)
             (mkFs prev' false (e + Z.of_nat (length ks)) (cm + Z.of_nat (length ks) - 1)) (" "%char :: r).
Proof.
  revert prev e cm. induction ks as [|k ks IH]; intros prev e cm Hne Hok; [done|].
  apply Forall_cons in Hok as [[Hk Hv] Hok]. destruct ks as [|k' ks].
  - unfold join_fields. simpl. rewrite app_nil_r.
    replace (cm + Z.of_nat 1 - 1) with cm by lia. by apply scans_field.
  - rewrite join_fields_cons, <- app_assoc. rewrite <- app_comm_cons.
    destruct (scans_field p k prev e cm (","%char :: join_fields p (k' :: ks) ++ " "%char :: r)) as [p1 H1]; [done..|].
    destruct (IH (","%char :: p1) (e + 1) (cm + 1)) as [p2 H2]; [done..|].
    exists p2. eapply scans_trans; [exact H1|]. eapply scans_trans; [apply scans_comma|].
    replace (e + Z.of_nat (length (k :: k' :: ks))) with (e + 1 + Z.of_nat (length (k' :: ks))) by (simpl; lia).
    replace (cm + Z.of_nat (length (k :: k' :: ks)) - 1) with (cm + 1 + Z.of_nat (length (k' :: ks)) - 1) by (simpl; lia).
    exact H2.
Qed.

Lemma word_head_ws s : s ≠ [] → Forall word_byte s → ∀ r, skipWhitespace (s ++ r) = s ++ r.
Proof.
  intros Hne Hw r. destruct s as [|c s]; [done|]. apply Forall_cons in Hw as [(Hc & _ & Ht & _) _].
  simpl. rewrite !bool_decide_false; [done|done|]. intros ->. apply Hc. unfold Codes. set_solver.
Qed.

Lemma join_fields_head p k ks : ident k = true →
  ∃ t, join_fields p (k :: ks) = to_bytes k ++ t ∧ to_bytes k ≠ [] ∧ Forall word_byte (to_bytes k).
Proof.
  intros [Hne Hw]%ident_word. eexists. split; [|done]. unfold join_fields, field_text.
  by rewrite escape_String_esc, word_esc, <- app_assoc by auto.
Qed.

(** What [scanFields] does on a space, the fields of a point, a space and more. *)
Lemma scanFields_start p k ks prev r :
  ident k = true →
  scanFields prev (" "%char :: join_fields p (k :: ks) ++ " "%char :: r) =
  (res ← scanFields_loop (length (join_fields p (k :: ks) ++ " "%char :: r)) (mkFs (" "%char :: prev) false 0 0)
           (join_fields p (k :: ks) ++ " "%char :: r);
   Some ('(st, rest) ← res;
         if f_quoted st then parse_error "unbalanced quotes"
         else if (f_equals st =? 0) || negb (f_commas st =? f_equals st - 1)
         then parse_error "invalid field format"
         else Ok (take (length (join_fields p (k :: ks) ++ " "%char :: r) - length rest)%nat
                    (join_fields p (k :: ks) ++ " "%char :: r), rest))).
Proof.
  intros Hk. destruct (join_fields_head p k ks Hk) as (t & Ht & Hne & Hw).
  unfold scanFields.
  assert (skipWhitespace (" "%char :: join_fields p (k :: ks) ++ " "%char :: r) =
          join_fields p (k :: ks) ++ " "%char :: r) as ->.
  { assert (∀ x, skipWhitespace (" "%char :: x) = skipWhitespace x) as -> by done.
    rewrite Ht, <- app_assoc. by apply word_head_ws. }
  set (b := join_fields p (k :: ks) ++ " "%char :: r).
  replace (length (" "%char :: b) - length b)%nat with 1%nat by (simpl; lia).
  done.
Qed.

Lemma scanFields_ok p ks prev r :
  ks ≠ [] → ident_fields p ks →
  scanFields prev (" "%char :: join_fields p ks ++ " "%char :: r) =
  Some (Ok (join_fields p ks, " "%char :: r)).
Proof.
  intros Hne Hok. destruct ks as [|k ks]; [done|].
  rewrite scanFields_start by (by apply Forall_cons in Hok as [[? _] _]).
  destruct (scans_fields p (k :: ks) (" "%char :: prev) 0 0 r Hne Hok) as [prev' Hs].
  destruct (Hs _ (le_n _)) as (fuel & Hf & ->).
  destruct fuel as [|fuel]; [simpl in Hf; lia|].
  assert (∀ st, f_quoted st = false → scanFields_loop (S fuel) st (" "%char :: r) = Some (Ok (st, " "%char :: r))) as ->.
  { intros st Hq. cbn [scanFields_loop]. rewrite Hq. destruct r; byte_test; done. }
  - cbn [mbind option_bind outcome_bind f_quoted f_equals f_commas].
    assert ((0 + Z.of_nat (length (k :: ks)) =? 0) = false) as -> by (simpl; lia).
    replace (0 + Z.of_nat (length (k :: ks)) - 1 =? 0 + Z.of_nat (length (k :: ks)) - 1) with true by lia.
    cbn [orb negb]. rewrite length_app.
    replace (length (join_fields p (k :: ks)) + length (" "%char :: r) - length (" "%char :: r))%nat
      with (length (join_fields p (k :: ks))) by lia.
    by rewrite take_app_length.
  - done.
Qed.

(** Field lists in which every value is present and readable, or nil. *)
Definition ident_or_nil (p : Fields) (ks : list string) : Prop :=
  Forall (fun k => ident k = true ∧
    (p !! k = Some FNil ∨ value_ok (default FNil (p !! k)) = true)) ks.

(** The separator after the first field, and what follows it. *)
Lemma join_fields_next p k ks r :
  ∃ sep t, join_fields p (k :: ks) ++ " "%char :: r = field_text p k ++ sep :: t ∧
    at_sep sep = true ∧ (ks = [] ∨ sep = ","%char ∧ t = join_fields p ks ++ " "%char :: r).
Proof.
  destruct ks as [|k' ks].
  - exists " "%char, r. simpl. rewrite app_nil_r. auto.
  - exists ","%char, (join_fields p (k' :: ks) ++ " "%char :: r).
    rewrite join_fields_cons, <- app_assoc. auto.
Qed.

Lemma scanFields_loop_nil p k prev e cm sep t fuel :
  ident k = true → p !! k = Some FNil → at_sep sep = true →
  (length (field_text p k ++ sep :: t) ≤ fuel)%nat →
  scanFields_loop fuel (mkFs prev false e cm) (field_text p k ++ sep :: t) =
  Some (parse_error "missing field value").
Proof.
  intros [Hne Hw]%ident_word Hk0 Hsep Hf. unfold field_text in *.
  rewrite escape_String_esc, word_esc, Hk0, <- app_assoc in * by auto. simpl in *.
  destruct (scans_ident (to_bytes k) prev e cm ("="%char :: sep :: t) Hw fuel Hf) as (f1 & Hf1 & ->).
  destruct f1 as [|f1]; [simpl in Hf1; lia|].
  destruct (after_key_ident (to_bytes k) prev Hne Hw) as [Ha1 Ha2].
  cbn [scanFields_loop f_quoted f_prev f_equals f_commas].
  rewrite (bool_decide_false ("="%char = bslash)), (bool_decide_false ("="%char = dquote)) by done.
  cbn [andb orb negb]. by rewrite Ha1, Ha2, Hsep.
Qed.

(** A field without a value is refused. *)
Lemma scanFields_loop_refused p ks r prev e cm fuel :
  ident_or_nil p ks → Exists (fun k => p !! k = Some FNil) ks →
  (length (join_fields p ks ++ " "%char :: r) ≤ fuel)%nat →
  scanFields_loop fuel (mkFs prev false e cm) (join_fields p ks ++ " "%char :: r) =
  Some (parse_error "missing field value").
Proof.
  revert prev e cm fuel.
  induction ks as [|k ks IH]; intros prev e cm fuel Hok Hnil Hf; [by inversion Hnil|].
  apply Forall_cons in Hok as [[Hk Hv] Hok].
  destruct (join_fields_next p k ks r) as (sep & t & Ht & Hsep & Hks).
  rewrite Ht in Hf |- *. destruct Hv as [Hk0|Hv]; [by apply scanFields_loop_nil|].
  apply Exists_cons in Hnil as [Hh|Hnil]; [by rewrite Hh in Hv|].
  destruct Hks as [->|[-> ->]]; [by inversion Hnil|].
  destruct (scans_field p k prev e cm (","%char :: join_fields p ks ++ " "%char :: r) Hk Hv ltac:(done))
    as (p1 & Hs).
  destruct (Hs fuel Hf) as (f1 & Hf1 & ->).
  destruct (scans_comma p1 (e + 1) cm (join_fields p ks ++ " "%char :: r) f1 Hf1) as (f2 & Hf2 & ->).
  by apply IH.
Qed.

Lemma scanFields_nil p ks prev r :
  ident_or_nil p ks → Exists (fun k => p !! k = Some FNil) ks →
  scanFields prev (" "%char :: join_fields p ks ++ " "%char :: r) =
  Some (parse_error "missing field value").
Proof.
  intros Hok Hnil. destruct ks as [|k ks]; [by inversion Hnil|].
  rewrite scanFields_start by (by apply Forall_cons in Hok as [[? _] _]).
  by rewrite scanFields_loop_refused.
Qed.
