(* ===== verification/LineBody.v ===== *)
(** * The lines of a write

    [scanLine], [scanKey] and [scanTime] on the lines of points with identifier names and
    keys, and [ParsePointsWithPrecision] on whole bodies. *)
From Stdlib Require Import ZArith Lia Ascii.
From stdpp Require Import base option list strings gmap sorting.
From S2P Require Import Prelude GoNum GoFmt Strconv LineProtocol LineFacts LineScan.

(** ** The measurement *)

Lemma byte_at_Some buf n d c : buf !! n = Some d → byte_at buf (Z.of_nat n) c = bool_decide (d = c).
Proof.
  intros H. unfold byte_at. rewrite (proj2 (Z.leb_le 0 _)), Nat2Z.id, H by lia. simpl.
  apply bool_decide_ext. naive_solver.
Qed.

Lemma scanKey_loop_name name r n fuel :
  Forall word_byte name → (n ≤ length name)%nat → (length name - n < fuel)%nat →
  scanKey_loop fuel (name ++ " "%char :: r) (mkKs (Z.of_nat n) [] 0) =
  Some (Ok (mkKs (Z.of_nat (length name)) [] 0)).
Proof.
  intros Hw. revert n. induction fuel as [|fuel IH]; intros n Hn Hf; [lia|].
  cbn [scanKey_loop k_i k_indices k_equals]. unfold k_commas. simpl length.
  rewrite length_app. simpl length.
  destruct (Z.leb_spec (Z.of_nat (length name + S (length r))) (Z.of_nat n)); [lia|].
  simpl (0 <? Z.of_nat 0). rewrite andb_false_r.
  destruct (decide (n = length name)) as [->|Hlt].
  - rewrite !(byte_at_Some _ _ " "%char) by by apply list_lookup_middle.
    by byte_test.
  - destruct (lookup_lt_is_Some_2 name n ltac:(lia)) as [c Hc].
    rewrite !(byte_at_Some _ n c) by by apply lookup_app_l_Some.
    rewrite Forall_forall in Hw. destruct (Hw c) as (Hcd & Hb & _); [by eapply list_elem_of_lookup_2|].
    unfold Codes in Hcd.
    rewrite (bool_decide_false (c = bslash)), (bool_decide_false (c = ","%char)),
      (bool_decide_false (c = " "%char)) by (done || set_solver).
    replace (Z.of_nat n + 1) with (Z.of_nat (S n)) by lia. apply IH; lia.
Qed.

Lemma slice_prefix a r : slice (a ++ r) 0 (Z.of_nat (length a)) = Some a.
Proof.
  unfold slice. rewrite length_app.
  destruct (Z.leb_spec 0 (Z.of_nat (length a))); [|lia].
  destruct (Z.leb_spec (Z.of_nat (length a)) (Z.of_nat (length a + length r))); [|lia].
  cbn [Z.leb Z.compare andb]. by rewrite Z.sub_0_r, Nat2Z.id, drop_0, take_app_length.
Qed.

Lemma scanKey_name name r :
  name ≠ [] → Forall word_byte name →
  scanKey (name ++ " "%char :: r) = Some (Ok (name, Z.of_nat (length name))).
Proof.
  intros Hne Hw. unfold scanKey. rewrite word_head_ws by done. rewrite Nat.sub_diag.
  rewrite (scanKey_loop_name name r 0) by (done || rewrite ?length_app; simpl; lia).
  cbn [mbind option_bind k_i k_indices k_equals]. unfold k_commas. simpl length.
  cbn [Z.of_nat Z.ltb Z.compare andb].
  destruct (Z.leb_spec (Z.of_nat (length (name ++ " "%char :: r))) (Z.of_nat (length name))) as [Hl|_].
  { rewrite length_app in Hl. simpl in Hl. lia. }
  by rewrite slice_prefix.
Qed.

(** ** The timestamp *)

Lemma scanTime_int z : scanTime (" "%char :: FormatInt z) = Ok (FormatInt z, []).
Proof.
  assert (∀ b ds, forallb is_digit ds = true → scanTime_loop b ds = Ok (ds, [])) as Hds.
  { intros b ds. revert b. induction ds as [|c ds IH]; intros b Hd; [done|].
    simpl in Hd |- *. apply andb_prop in Hd as [-> Hd]. by rewrite IH. }
  destruct (FormatInt_shape z) as (c & ds & -> & Hc & Hd). unfold scanTime.
  assert (skipWhitespace (" "%char :: c :: ds) = c :: ds) as ->.
  { simpl. rewrite !bool_decide_false; [done|..]; intros ->; by destruct Hc. }
  simpl. destruct Hc as [->|Hc]; [simpl|rewrite Hc; simpl]; by rewrite Hds.
Qed.

(** ** Splitting the body into lines *)

(** [scanLine] goes over [x] from one state to another. *)
Definition lscan (i : Z) (lst : ascii) (q fl : bool) (x : bytes) (lst' : ascii) (q' fl' : bool) : Prop :=
  ∀ r, scanLine_loop i lst q fl (x ++ r) =
    let '(b, r') := scanLine_loop (i + Z.of_nat (length x)) lst' q' fl' r in (x ++ b, r').

Lemma lscan_app i lst q fl x lst1 q1 fl1 y lst2 q2 fl2 :
  lscan i lst q fl x lst1 q1 fl1 → lscan (i + Z.of_nat (length x)) lst1 q1 fl1 y lst2 q2 fl2 →
  lscan i lst q fl (x ++ y) lst2 q2 fl2.
Proof.
  intros H1 H2 r. rewrite <- app_assoc, H1, H2, length_app.
  replace (i + Z.of_nat (length x) + Z.of_nat (length y)) with (i + Z.of_nat (length x + length y)) by lia.
  destruct (scanLine_loop _ _ _ _ r). by rewrite <- app_assoc.
Qed.

Lemma lscan_nil i lst q fl : lscan i lst q fl [] lst q fl.
Proof. intros r. simpl. rewrite Z.add_0_r. by destruct (scanLine_loop i lst q fl r). Qed.

Lemma lscan_byte i lst q fl c :
  c ≠ dquote ∨ lst = bslash → c ≠ "010"%char ∨ q = true →
  lscan i lst q fl [c] c q (fl || bool_decide (c = " "%char)).
Proof.
  intros Hc Hn r. simpl.
  assert ((fl || bool_decide (c = " "%char)) && bool_decide (c = dquote) && (0 <? i - 1) &&
    negb (bool_decide (lst = bslash)) = false) as ->.
  { destruct Hc as [Hc|Hl].
    - by rewrite (bool_decide_false (c = dquote)), andb_false_r.
    - by rewrite (bool_decide_true (lst = bslash)), andb_false_r. }
  assert (bool_decide (c = "010"%char) && negb q = false) as ->.
  { destruct Hn as [Hn| ->]; [by rewrite bool_decide_false|by rewrite andb_false_r]. }
  done.
Qed.

Lemma lscan_quote i lst q : 1 < i → lst ≠ bslash → lscan i lst q true [dquote] dquote (negb q) true.
Proof.
  intros Hi Hl r. simpl. rewrite (bool_decide_false (lst = bslash)) by done.
  by rewrite (proj2 (Z.ltb_lt 0 (i - 1))) by lia.
Qed.

(** Text without quotes, spaces and newlines. *)
Definition quiet (s : bytes) : Prop := Forall (fun c => c ≠ dquote ∧ c ≠ "010"%char ∧ c ≠ " "%char) s.

Lemma lscan_quiet i lst q fl s : quiet s → lscan i lst q fl s (default lst (last s)) q fl.
Proof.
  intros Hs. revert i lst. induction Hs as [|c s (H1 & H2 & H3) Hs IH]; intros i lst; [apply lscan_nil|].
  change (c :: s) with ([c] ++ s). eapply lscan_app; [apply lscan_byte; auto|].
  rewrite (bool_decide_false (c = " "%char)), orb_false_r by done.
  assert (default lst (last ([c] ++ s)) = default c (last s)) as ->; [|apply IH].
  cbn [app]. rewrite last_cons. by destruct (last s).
Qed.

Lemma word_quiet s : Forall word_byte s → quiet s.
Proof.
  intros H. eapply Forall_impl; [exact H|]. intros c (Hc & _ & _ & Hn & _).
  unfold Codes in Hc. set_solver.
Qed.

Lemma FormatInt_quiet z : quiet (FormatInt z).
Proof.
  destruct (FormatInt_shape z) as (c & ds & -> & Hc & Hd).
  assert (∀ c, is_digit c = true → c ≠ dquote ∧ c ≠ "010"%char ∧ c ≠ " "%char) as Hdq.
  { intros x Hx. split_and!; by intros ->. }
  constructor; [destruct Hc as [->|Hc]; [by split_and!|by apply Hdq]|].
  apply Forall_forall. intros x Hx. apply Hdq. rewrite forallb_forall in Hd.
  apply Hd. by apply list_elem_of_In.
Qed.

(** The content of a quoted value leaves the scanner in the quotes; it ends in a
    backslash only when the string does. *)
Lemma lscan_content i lst s :
  ∃ lst', lscan i lst true true (escapeStringField s) lst' true true ∧
    (lst' = bslash → (s = [] ∧ lst = bslash) ∨ last s = Some bslash).
Proof.
  revert i lst. induction s as [|c s IH]; intros i lst.
  { exists lst. split; [apply lscan_nil|auto]. }
  assert (∃ x lst1, escapeStringField (c :: s) = x ++ escapeStringField s ∧
    lscan i lst true true x lst1 true true ∧ (lst1 = bslash → c = bslash)) as (x & lst1 & Hx & H1 & Hc).
  { simpl. destruct (decide (c = bslash)) as [->|Hb]; [byte_test|].
    { exists [bslash; bslash], bslash. split_and!; [done| |done].
      change [bslash; bslash] with ([bslash] ++ [bslash]).
      eapply lscan_app; by apply (lscan_byte _ _ true true bslash); auto. }
    rewrite (bool_decide_false (c = bslash)) by done.
    destruct (decide (c = dquote)) as [->|Hq]; [byte_test|].
    { exists [bslash; dquote], dquote. split_and!; [done| |done].
      change [bslash; dquote] with ([bslash] ++ [dquote]).
      eapply lscan_app; [by apply (lscan_byte _ _ true true bslash); auto|].
      by apply (lscan_byte _ _ true true dquote); auto. }
    rewrite (bool_decide_false (c = dquote)) by done.
    exists [c], c. split_and!; [done| |done]. by apply (lscan_byte _ _ true true c); auto. }
  destruct (IH (i + Z.of_nat (length x)) lst1) as (lst' & H2 & Hl).
  exists lst'. rewrite Hx. split; [by eapply lscan_app|]. intros [[-> Hb]|Hls]%Hl.
  - right. simpl. by rewrite (Hc Hb).
  - right. by destruct s.
Qed.

Lemma lscan_quoted i lst s :
  1 < i → lst ≠ bslash → last s ≠ Some bslash →
  ∃ lst', lscan i lst false true (quote s) lst' false true.
Proof.
  intros Hi Hl Hs. unfold quote.
  destruct (lscan_content (i + 1) dquote s) as (lst1 & H1 & Hb).
  exists dquote. change (dquote :: ?x) with ([dquote] ++ x).
  eapply lscan_app; [by apply (lscan_quote i lst false)|]. eapply lscan_app; [exact H1|].
  apply (lscan_quote _ _ true); [simpl; lia|]. intros ->. by destruct (Hb eq_refl) as [[_ ?]|?].
Qed.

Definition is_FNil (v : field_value) : bool := match v with FNil => true | _ => false end.

Definition value_or_nil (v : field_value) : bool := value_ok v || is_FNil v.

Lemma lscan_value i lst v :
  1 < i → lst ≠ bslash → value_or_nil v = true →
  ∃ lst', lscan i lst false true (marshal_value v) lst' false true.
Proof.
  intros Hi Hl Hv. destruct v as [ty z| |b| |s| |s]; try done; simpl marshal_value.
  - eexists. apply lscan_quiet. apply Forall_app. split; [apply FormatInt_quiet|by repeat constructor].
  - eexists. apply lscan_quiet. destruct b; by repeat constructor.
  - apply lscan_quoted; [done..|]. unfold value_or_nil in Hv. simpl in Hv.
    rewrite orb_false_r in Hv. by apply negb_true_iff, bool_decide_eq_false in Hv.
  - eexists. apply lscan_nil.
  - apply lscan_quoted; [done..|]. unfold value_or_nil in Hv. simpl in Hv.
    rewrite orb_false_r in Hv. by apply negb_true_iff, bool_decide_eq_false in Hv.
Qed.

Lemma lscan_field i lst p k :
  0 < i → ident k = true → value_or_nil (default FNil (p !! k)) = true →
  ∃ lst', lscan i lst false true (field_text p k) lst' false true.
Proof.
  intros Hi [Hne Hw]%ident_word Hv. unfold field_text.
  rewrite escape_String_esc, word_esc by auto.
  set (n := i + Z.of_nat (length (to_bytes k))).
  destruct (lscan_value (n + 1) "="%char _ ltac:(unfold n; lia) ltac:(done) Hv) as [l2 H2].
  exists l2. eapply lscan_app; [by apply lscan_quiet, word_quiet|].
  change ("="%char :: ?x) with (["="%char] ++ x).
  eapply lscan_app; [by apply (lscan_byte _ _ false true "="%char); auto|]. exact H2.
Qed.

Lemma lscan_fields i lst p ks :
  0 < i → Forall (fun k => ident k = true ∧ value_or_nil (default FNil (p !! k)) = true) ks →
  ∃ lst', lscan i lst false true (join_fields p ks) lst' false true.
Proof.
  intros Hi Hok. destruct Hok as [|k ks [Hk Hv] Hok]; [eexists; apply lscan_nil|].
  destruct (lscan_field i lst p k Hi Hk Hv) as [l1 H1]. unfold join_fields.
  enough (∃ lst', lscan (i + Z.of_nat (length (field_text p k))) l1 false true
    (concat (map (fun k => ","%char :: field_text p k) ks)) lst' false true) as [l2 H2].
  { exists l2. by eapply lscan_app. }
  assert (0 < i + Z.of_nat (length (field_text p k))) as Hj by lia.
  clear H1 Hk Hv. revert Hj. generalize (i + Z.of_nat (length (field_text p k))). intros j Hj.
  clear Hi i lst. revert j l1 Hj. induction Hok as [|k' ks [Hk Hv] Hok IH]; intros j l1 Hj;
    [eexists; apply lscan_nil|].
  destruct (lscan_field (j + 1) ","%char p k' ltac:(lia) Hk Hv) as [l2 H2].
  destruct (IH (j + 1 + Z.of_nat (length (field_text p k'))) l2 ltac:(lia)) as [l3 H3].
  exists l3. simpl. change (","%char :: ?x) with ([","%char] ++ x).
  eapply lscan_app; [by apply (lscan_byte _ _ false true ","%char); auto|].
  eapply lscan_app; [exact H2|exact H3].
Qed.

(** ** The line of one point *)

Definition keys_of (p : Fields) : list string := sort_strings (map fst (map_to_list p)).

(** Points with an identifier for a name, and for keys; every value readable or nil. *)
Definition line_point (name : string) (p : Fields) : Prop :=
  ident name = true ∧ p ≠ ∅ ∧
  map_Forall (fun k v => ident k = true ∧ value_or_nil v = true) p.

(** No value is nil. *)
Definition no_nil (p : Fields) : Prop := map_Forall (fun _ v => is_FNil v = false) p.

#[export] Instance no_nil_dec p : Decision (no_nil p).
Proof. unfold no_nil. apply _. Defined.


Lemma keys_of_nonempty p : p ≠ ∅ → keys_of p ≠ [].
Proof.
  intros Hp. apply map_choose in Hp as (k & v & Hk). intros Hn.
  assert (k ∈ keys_of p) as Hin by (apply sorted_keys_elem; eauto).
  rewrite Hn in Hin. by apply elem_of_nil in Hin.
Qed.

Lemma MakeKey_ident name : ident name = true → MakeKey (to_bytes name) ∅ = to_bytes name.
Proof.
  intros [_ Hw]%ident_word. unfold MakeKey.
  assert (HashKey ∅ = []) as -> by done. rewrite app_nil_r.
  assert (bslash ∉ to_bytes name) as Hb.
  { intros Hin. rewrite Forall_forall in Hw. by destruct (Hw _ Hin) as (_ & ? & _). }
  assert (NoDup measurementEscapeCodes ∧ bslash ∉ measurementEscapeCodes) as [H1 H2]
    by (split; by apply (bool_decide_unpack _)).
  unfold escapeMeasurement, unescapeMeasurement.
  rewrite unescape_in_unesc, escape_in_esc by done.
  assert (unesc measurementEscapeCodes (to_bytes name) = to_bytes name) as ->.
  { rewrite <- (unesc_esc measurementEscapeCodes (to_bytes name)) at 2 by done.
    f_equal. symmetry. apply word_esc; [|done]. unfold measurementEscapeCodes, Codes. set_solver. }
  apply word_esc; [|done]. unfold measurementEscapeCodes, Codes. set_solver.
Qed.

Definition line_of (name : string) (p : Fields) (t : Z) : bytes :=
  PrecisionString "ns" (NewPoint name ∅ p (Some t)).

Lemma line_of_eq name p t :
  ident name = true →
  line_of name p t = to_bytes name ++ " "%char :: join_fields p (keys_of p) ++ " "%char :: FormatInt t.
Proof.
  intros Hn. unfold line_of, PrecisionString, NewPoint. cbn [pt_time pt_key pt_fields].
  rewrite MakeKey_ident, MarshalBinary_join by done.
  do 4 f_equal. f_equal. apply Z.quot_1_r.
Qed.

Lemma line_scan name p t i lst :
  0 ≤ i → line_point name p → ∃ lst', lscan i lst false false (line_of name p t) lst' false true.
Proof.
  intros Hi (Hn & _ & Hp). rewrite line_of_eq by done.
  pose proof (ident_word name Hn) as [Hne Hw].
  set (j := i + Z.of_nat (length (to_bytes name))).
  assert (Forall (fun k => ident k = true ∧ value_or_nil (default FNil (p !! k)) = true) (keys_of p)) as Hks.
  { by apply (sorted_keys_ok (fun k v => ident k = true ∧ value_or_nil v = true)). }
  destruct (lscan_fields (j + 1) " "%char p (keys_of p) ltac:(unfold j; lia) Hks) as [l2 H2].
  eexists. eapply lscan_app; [by apply lscan_quiet, word_quiet|].
  change (" "%char :: ?x) with ([" "%char] ++ x).
  eapply lscan_app; [by apply (lscan_byte _ _ false false " "%char); auto|].
  eapply lscan_app; [exact H2|].
  change (" "%char :: FormatInt t) with ([" "%char] ++ FormatInt t).
  eapply lscan_app; [by apply (lscan_byte _ _ false true " "%char); auto|].
  apply lscan_quiet, FormatInt_quiet.
Qed.

Lemma line_scanLine name p t i lst r :
  0 ≤ i → line_point name p →
  scanLine_loop i lst false false (line_of name p t ++ "010"%char :: r) = (line_of name p t, "010"%char :: r).
Proof.
  intros Hi Hp. destruct (line_scan name p t i lst Hi Hp) as [lst' H].
  rewrite H. simpl. by rewrite app_nil_r.
Qed.

Lemma line_head name p t :
  ident name = true → ∃ c l, line_of name p t = c :: l ∧ c ≠ "#"%char ∧
    skipWhitespace (line_of name p t) = line_of name p t.
Proof.
  intros Hn. rewrite line_of_eq by done. apply ident_word in Hn as [Hne Hw].
  rewrite word_head_ws by done. destruct (to_bytes name) as [|c l]; [done|].
  apply Forall_cons in Hw as [(_ & _ & _ & _ & Hc) _]. simpl. eauto.
Qed.

Lemma line_last name p t : ident name = true → last_byte (line_of name p t) ≠ Some "010"%char.
Proof.
  intros Hn. rewrite line_of_eq by done. unfold last_byte.
  assert (∀ x y : bytes, y ≠ [] → last (x ++ y) = last y) as Hl.
  { intros x y Hy. rewrite last_app. destruct (last y) eqn:E; [done|]. by apply last_None in E. }
  change (" "%char :: FormatInt t) with ([" "%char] ++ FormatInt t).
  rewrite app_comm_cons, !app_assoc, Hl.
  - intros H%last_Some_elem_of. pose proof (FormatInt_quiet t) as Hq.
    unfold quiet in Hq. rewrite Forall_forall in Hq. by destruct (Hq _ H) as (_ & ? & _).
  - by destruct (FormatInt_shape t) as (? & ? & -> & _).
Qed.

(** What the receiver makes of the line. *)
Lemma line_parse name p t d precision :
  line_point name p → is_int64 t → GetPrecisionMultiplier precision = 1 →
  parsePoint d precision (line_of name p t) =
  if bool_decide (no_nil p) then Some (Ok (NewPoint name ∅ p (Some t)))
  else Some (parse_error "missing field value").
Proof.
  intros (Hn & Hp0 & Hp) Ht Hprec. rewrite line_of_eq by done.
  pose proof (ident_word name Hn) as [Hne Hw]. unfold parsePoint.
  rewrite scanKey_name by done. cbn [mbind option_bind].
  rewrite bool_decide_false, Nat2Z.id, drop_app_length, take_app_length by done.
  case_bool_decide as Hnil.
  - rewrite scanFields_ok.
    + cbn [mbind option_bind outcome_bind].
      destruct (keys_of p) as [|k ks] eqn:Ek; [by apply keys_of_nonempty in Ek|].
      rewrite bool_decide_false.
      * rewrite scanTime_int. cbn [mbind outcome_bind]. rewrite bool_decide_false.
        -- rewrite ParseInt_FormatInt by done. cbn [mbind outcome_bind].
           rewrite Hprec, Z.mul_1_r, int64_id by done. unfold NewPoint.
           by rewrite MakeKey_ident, MarshalBinary_join, <- Ek by done.
        -- by destruct (FormatInt_shape t) as (? & ? & -> & _).
      * unfold join_fields, field_text. intros H. by destruct (escape_String (to_bytes k)).
    + by apply keys_of_nonempty.
    + apply (sorted_keys_ok (fun k v => ident k = true ∧ value_ok v = true)).
      intros k v Hk. destruct (Hp k v Hk) as [? Hv]. split; [done|].
      specialize (Hnil k v Hk). cbn beta in Hnil. unfold value_or_nil in Hv.
      by rewrite Hnil, orb_false_r in Hv.
  - rewrite scanFields_nil; [done|..].
    + unfold ident_or_nil. apply Forall_forall. intros k [v Hv]%sorted_keys_elem.
      destruct (Hp k v Hv) as [? Hok]. rewrite Hv. split; [done|].
      apply orb_true_iff in Hok as [?|?]; [by right|left; by destruct v].
    + apply Exists_exists. unfold no_nil in Hnil.
      apply map_not_Forall in Hnil; [|apply _].
      destruct Hnil as (k & v & Hk & Hv). exists k. split; [apply sorted_keys_elem; eauto|].
      rewrite Hk. by destruct v.
Qed.

(** ** Whole bodies *)

(** A point by its measurement, fields and time. *)
Record sample := mkSample { s_name : string; s_fields : Fields; s_time : Z }.

Definition point_of (s : sample) : point := NewPoint (s_name s) ∅ (s_fields s) (Some (s_time s)).
Definition sample_ok (s : sample) : Prop := line_point (s_name s) (s_fields s) ∧ is_int64 (s_time s).

(** What parsing the body returns: the points, or an error at the first one with a nil
    field. *)
Fixpoint parsed (acc : list point) (ss : list sample) : outcome (list point) :=
  match ss with
  | [] => Ok acc
  | s :: ss =>
      if bool_decide (no_nil (s_fields s)) then parsed (acc ++ [point_of s]) ss
      else parse_error ("unable to parse '" +:+ to_string (PrecisionString "ns" (point_of s)) +:+
                        "': missing field value")
  end.

Lemma ParsePoints_loop_body ss : ∀ fuel d precision i lst acc,
  Forall sample_ok ss → (length ss < fuel)%nat → 0 ≤ i → GetPrecisionMultiplier precision = 1 →
  ParsePoints_loop fuel d precision i lst (write_body "ns" (map point_of ss)) acc = Some (parsed acc ss).
Proof.
  induction ss as [|s ss IH]; intros fuel d precision i lst acc Hok Hf Hi Hp;
    (destruct fuel as [|fuel]; [simpl in Hf; lia|]); [done|].
  apply Forall_cons in Hok as [[Hl Ht] Hok].
  destruct (line_head (s_name s) (s_fields s) (s_time s) (proj1 Hl)) as (c & l & Hcl & Hc & Hws).
  assert (write_body "ns" (map point_of (s :: ss)) =
    line_of (s_name s) (s_fields s) (s_time s) ++ "010"%char :: write_body "ns" (map point_of ss)) as ->.
  { unfold write_body. simpl. by rewrite <- app_assoc. }
  cbn [ParsePoints_loop]. rewrite line_scanLine by done.
  rewrite (bool_decide_false (line_of _ _ _ = [])) by by rewrite Hcl.
  rewrite Hws. rewrite Hcl at 1. rewrite (bool_decide_false (c = "#"%char)) by done.
  rewrite (bool_decide_false (last_byte _ = _)) by by apply line_last, Hl.
  rewrite line_parse by done. cbn [parsed tail]. destruct (bool_decide (no_nil (s_fields s))); [|done].
  cbn [mbind option_bind]. destruct ss as [|s' ss]; [done|].
  rewrite bool_decide_false.
  - apply IH; [done|simpl in *; lia|lia|done].
  - unfold write_body. simpl. intros [H0 _]%app_eq_nil. by apply app_eq_nil in H0 as [_ ?].
Qed.

Lemma write_body_length ss : (length ss ≤ length (write_body "ns" (map point_of ss)))%nat.
Proof.
  unfold write_body. induction ss as [|s ss IH]; simpl; [lia|].
  rewrite length_app, length_app. simpl. lia.
Qed.

Lemma ParsePoints_body d precision ss :
  Forall sample_ok ss → GetPrecisionMultiplier precision = 1 →
  ParsePointsWithPrecision d precision (write_body "ns" (map point_of ss)) = Some (parsed [] ss).
Proof.
  intros Hok Hp. unfold ParsePointsWithPrecision.
  pose proof (write_body_length ss). apply ParsePoints_loop_body; [done|lia|lia|done].
Qed.

Lemma parsed_ok acc ss : Forall (fun s => no_nil (s_fields s)) ss → parsed acc ss = Ok (acc ++ map point_of ss).
Proof.
  intros H. revert acc. induction H as [|s ss Hs _ IH]; intros acc; simpl; [by rewrite app_nil_r|].
  rewrite bool_decide_true by done. by rewrite IH, <- app_assoc.
Qed.

Lemma parsed_err acc ss : Exists (fun s => ¬ no_nil (s_fields s)) ss → ∃ e, parsed acc ss = Err e.
Proof.
  revert acc. induction ss as [|s ss IH]; intros acc H; [by inversion H|]. simpl.
  case_bool_decide; [|by eexists]. apply IH. by apply Exists_cons in H as [?|?].
Qed.

(** * Properties of the line protocol *)

(** Escaping and unescaping loop over a Go map, whose order is unspecified: every
    order of the codes gives the same text, both ways. *)
Theorem escape_order (order : bytes) (codes : bytes) (s : bytes) :
  codes ∈ [measurementEscapeCodes; tagEscapeCodes; Codes] → order ≡ₚ codes →
  escape_in order s = escape_in codes s ∧ unescape_in order s = unescape_in codes s.
Proof.
  intros Hc Hp.
  assert (NoDup codes ∧ bslash ∉ codes) as [Hnd Hb].
  { repeat (apply elem_of_cons in Hc as [->|Hc]; [split; by apply (bool_decide_unpack _)|]).
    by apply elem_of_nil in Hc. }
  assert (NoDup order ∧ bslash ∉ order) as [Hnd' Hb'] by by rewrite Hp.
  rewrite !escape_in_esc, !unescape_in_unesc by done. split; [by apply esc_perm|by apply unesc_perm].
Qed.

Lemma escape_order_witness :
  escape_in (rev tagEscapeCodes) (to_bytes "a=b, c") = escapeTag (to_bytes "a=b, c") ∧
  unescape_in (rev tagEscapeCodes) (to_bytes "a=b, c") = unescapeTag (to_bytes "a=b, c").
Proof. apply escape_order; [set_solver|symmetry; apply Permutation_rev]. Defined.

(** The fields of a point read back as they were given, integers as [int64]: whatever
    the keys (no backslash, not empty), the integers, the booleans and the strings that
    do not end in a backslash, with their quotes, commas, spaces, newlines and escapes. *)
Theorem fields_roundtrip (name : string) (tags : Tags) (p : Fields) (t : option Z) :
  fields_ok p → point_Fields (NewPoint name tags p t) = Some (Ok (decoded <$> p)).
Proof.
  intros Hok. unfold point_Fields, newFieldsFromBinary, NewPoint. cbn [pt_fields].
  rewrite MarshalBinary_join.
  assert (Forall (fun k => key_ok k = true ∧ value_ok (default FNil (p !! k)) = true) (keys_of p)) as Hks
    by by apply (sorted_keys_ok (fun k v => key_ok k = true ∧ value_ok v = true)).
  fold (keys_of p). pose proof (join_fields_length p (keys_of p)).
  rewrite fields_loop by (done || lia). do 2 f_equal.
  apply map_eq. intros k. rewrite foldl_insert_lookup, lookup_fmap, lookup_empty.
  destruct (p !! k) as [v|] eqn:Hk.
  - rewrite bool_decide_true by (apply sorted_keys_elem; eauto). done.
  - rewrite bool_decide_false; [done|]. intros [v Hv]%sorted_keys_elem. by rewrite Hk in Hv.
Qed.

Definition sample_fields : Fields :=
  {[ "id"%string := FString (dquote :: to_bytes "a,b=c\" ++ [dquote]);
     "code"%string := FInt Tint 200; "a key"%string := FBool true ]}.

Lemma fields_roundtrip_witness :
  point_Fields (NewPoint "T" ∅ sample_fields None) = Some (Ok (decoded <$> sample_fields)).
Proof. apply fields_roundtrip. apply (bool_decide_unpack _). by vm_compute. Defined.


Definition log_sample (msg : field_value) : sample :=
  mkSample "LogTable" {[ "level"%string := FString (to_bytes "info"); "msg"%string := msg;
                         "serverId"%string := FInt Tint 7 ]} 1445000000000000000.

Lemma sample_ok_log msg : value_or_nil msg = true → sample_ok (log_sample msg).
Proof.
  intros Hm. split; [split_and!; [done|by apply insert_non_empty|]|by vm_compute].
  cbn. apply map_Forall_insert_2; [by vm_compute|].
  apply map_Forall_insert_2; [by split|]. apply map_Forall_singleton. by vm_compute.
Qed.


(** A message that ends in a backslash closes no quote: the line swallows the next ones
    and the body is refused. *)
Example trailing_backslash :
  ParsePointsWithPrecision None "n"
    (write_body "ns" (map point_of [log_sample (FString (to_bytes "C:\")); log_sample (FBool true)])) ≠
  Some (Ok (map point_of [log_sample (FString (to_bytes "C:\")); log_sample (FBool true)])).
Proof. by vm_compute. Qed.
