(* ===== verification/Dispatch.v ===== *)
(** * The job dispatcher and its workers (executor/controller/controller.go, worker.go)

    [runScript] as a labelled transition system.  The goroutines are the dispatcher
    loop, one worker per [MaxWorkers], the flushes started by [go sendData], the timer
    that closes [done] and [listenForHalt], which closes [halt].  A label is one
    scheduling choice; [sys_step] computes its effect, [None] when it is not enabled, so
    every interleaving is a list of labels.

    The elements of [jobChannel] are [struct{}], so its state is its length.  A ticker
    channel holds at most one tick. *)
From Stdlib Require Import ZArith Lia.
From stdpp Require Import base option list strings.
From S2P Require Import Prelude GoNum FloatFacts Messages.

(** ** The clock a controller is given *)

(** [Ticker d] for a [clock.Clock]: whether creating the ticker panics. *)
Class Clock := { Ticker : Z → outcome unit }.

(** [clock.New()]: wraps [time.NewTicker], which panics on a non-positive interval. *)
Definition real_Ticker (d : Z) : outcome unit :=
  if d <=? 0 then Panic "non-positive interval for NewTicker" else Ok tt.

(** [clock.NewMock()]: appends the ticker, whatever the interval. *)
Definition mock_Ticker (d : Z) : outcome unit := Ok tt.

Definition real_clock : Clock := {| Ticker := real_Ticker |}.
Definition mock_clock : Clock := {| Ticker := mock_Ticker |}.

(** ** State *)

Definition numSavedExecutions : Z := 1000.
Definition tickTimer : Z := int64_of (Millisecond * 100).

Definition getNumberOfIterations (tick requestsPerSecond : Z) : Z :=
  int_of_float (fmul (float_of_int requestsPerSecond) (Seconds tick)).

(** [worker.execute]: before [Wait.Add], in the outer [select], with a job in hand before
    the inner [select], running the program, and after [Wait.Done]. *)
Inductive wpc := WNew | WIdle | WTook | WRun | WExit.

Record worker := mkWorker {
  w_pc : wpc;
  w_testNum : Z;       (** the local [testNum] *)
  w_TestId : Z;        (** [w.Metrics.TestId] *)
  w_Done : bool        (** [workerDone] is closed *)
}.

(** A [sendData] goroutine. *)
Inductive fpc := FNew | FSending | FDone.

(** The dispatcher: in the [select] of the loop, in the inner loop with its [i], closing
    the workers' channels from index [k] on, waiting on [wg], returned. *)
Inductive dpc := Selecting | Sending (i : Z) | Closing (k : nat) | Waiting | Returned | Crashed.

Record sys := mkSys {
  pc : dpc;
  requestsPerSecond : Z;
  iterations : Z;
  totalIterations : Z;
  growthActive : bool;
  jobs : Z;                 (** [len(jobChannel)] *)
  jobsClosed : bool;
  haltClosed : bool;
  doneClosed : bool;
  tickC : bool;             (** a tick is pending on [ticker.C] *)
  growthC : bool;           (** a tick is pending on [growthTicker.C] *)
  workers : list worker;
  flushes : list fpc;
  wg : Z
}.

#[export] Instance wpc_eq_dec : EqDecision wpc. Proof. solve_decision. Defined.
#[export] Instance fpc_eq_dec : EqDecision fpc. Proof. solve_decision. Defined.
#[export] Instance dpc_eq_dec : EqDecision dpc. Proof. solve_decision. Defined.

Definition set_pc (c : dpc) (s : sys) : sys :=
  mkSys c (requestsPerSecond s) (iterations s) (totalIterations s) (growthActive s) (jobs s)
    (jobsClosed s) (haltClosed s) (doneClosed s) (tickC s) (growthC s) (workers s) (flushes s) (wg s).
Definition set_total (t : Z) (s : sys) : sys :=
  mkSys (pc s) (requestsPerSecond s) (iterations s) t (growthActive s) (jobs s)
    (jobsClosed s) (haltClosed s) (doneClosed s) (tickC s) (growthC s) (workers s) (flushes s) (wg s).
Definition set_rate (r i : Z) (g : bool) (s : sys) : sys :=
  mkSys (pc s) r i (totalIterations s) g (jobs s)
    (jobsClosed s) (haltClosed s) (doneClosed s) (tickC s) (growthC s) (workers s) (flushes s) (wg s).
Definition set_jobs (n : Z) (c : bool) (s : sys) : sys :=
  mkSys (pc s) (requestsPerSecond s) (iterations s) (totalIterations s) (growthActive s) n
    c (haltClosed s) (doneClosed s) (tickC s) (growthC s) (workers s) (flushes s) (wg s).
Definition set_ends (h d : bool) (s : sys) : sys :=
  mkSys (pc s) (requestsPerSecond s) (iterations s) (totalIterations s) (growthActive s) (jobs s)
    (jobsClosed s) h d (tickC s) (growthC s) (workers s) (flushes s) (wg s).
Definition set_ticks (t g : bool) (s : sys) : sys :=
  mkSys (pc s) (requestsPerSecond s) (iterations s) (totalIterations s) (growthActive s) (jobs s)
    (jobsClosed s) (haltClosed s) (doneClosed s) t g (workers s) (flushes s) (wg s).
Definition set_workers (ws : list worker) (n : Z) (s : sys) : sys :=
  mkSys (pc s) (requestsPerSecond s) (iterations s) (totalIterations s) (growthActive s) (jobs s)
    (jobsClosed s) (haltClosed s) (doneClosed s) (tickC s) (growthC s) ws (flushes s) n.
Definition set_flushes (fs : list fpc) (n : Z) (s : sys) : sys :=
  mkSys (pc s) (requestsPerSecond s) (iterations s) (totalIterations s) (growthActive s) (jobs s)
    (jobsClosed s) (haltClosed s) (doneClosed s) (tickC s) (growthC s) (workers s) fs n.
Definition set_wpc (c : wpc) (w : worker) : worker :=
  mkWorker c (w_testNum w) (w_TestId w) (w_Done w).

(** ** Steps *)

Inductive label :=
  (* the environment: tickers, the scheduler's command stream, the run timer *)
  | Tick | GrowTick | HaltClose | DoneClose
  (* the dispatcher's outer [select] *)
  | DHalt | DDone | DTick | DGrow
  (* its inner loop *)
  | DSend | DSendDone | DSendHalt | DSendEnd
  (* [stopWorkers] *)
  | DClose | DWaitGroup
  (* worker [w] *)
  | WStart (w : nat) | WSeeDone (w : nat) | WJob (w : nat) | WSeeClosed (w : nat)
  | WSkip (w : nat) | WBegin (w : nat) | WFinish (w : nat) | WFail (w : nat)
  (* flush [j] *)
  | FStart (j : nat) | FEnd (j : nat).

Definition guard_then {A} (b : bool) (a : A) : option A := if b then Some a else None.

(** The growth branch of the loop: the new rate, job count and [growthActive]. *)
Definition grow (p : ScriptParams) (rps : Z) : Z * bool :=
  let rps := int_of_float (fmul (float_of_int rps) (GrowthFactor p)) in
  if MaxRequestsPerSecond p <? rps then (MaxRequestsPerSecond p, false) else (rps, true).

(** One worker step: the worker after it, the change of [len(jobChannel)] and of [wg]. *)
Definition worker_step (l : label) (jobs : Z) (closed : bool) (w : worker)
    : option (worker * Z * Z) :=
  match l, w_pc w with
  | WStart _, WNew => Some (set_wpc WIdle w, 0, 1)
  | WSeeDone _, WIdle => guard_then (w_Done w) (set_wpc WExit w, 0, -1)
  | WJob _, WIdle => guard_then (0 <? jobs) (set_wpc WTook w, -1, 0)
  | WSeeClosed _, WIdle => guard_then (closed && (jobs =? 0)) (set_wpc WExit w, 0, -1)
  | WSkip _, WTook => guard_then (w_Done w) (set_wpc WExit w, 0, -1)
  | WBegin _, WTook =>
      guard_then (negb (w_Done w))
        (mkWorker WRun (int64_of (w_testNum w + 1)) (w_testNum w) (w_Done w), 0, 0)
  | WFinish _, WRun => Some (set_wpc WIdle w, 0, 0)
  | WFail _, WRun => Some (set_wpc WExit w, 0, -1)
  | _, _ => None
  end.

Definition label_worker (l : label) : option nat :=
  match l with
  | WStart w | WSeeDone w | WJob w | WSeeClosed w | WSkip w | WBegin w | WFinish w | WFail w =>
      Some w
  | _ => None
  end.

Definition step_worker (l : label) (i : nat) (s : sys) : option sys :=
  w ← workers s !! i;
  '(w', dj, dw) ← worker_step l (jobs s) (jobsClosed s) w;
  Some (set_jobs (jobs s + dj) (jobsClosed s) (set_workers (<[i:=w']> (workers s)) (wg s + dw) s)).

Definition step_flush (l : label) (s : sys) : option sys :=
  match l with
  | FStart j =>
      guard_then (bool_decide (flushes s !! j = Some FNew))
        (set_flushes (<[j:=FSending]> (flushes s)) (wg s + 1) s)
  | FEnd j =>
      guard_then (bool_decide (flushes s !! j = Some FSending))
        (set_flushes (<[j:=FDone]> (flushes s)) (wg s - 1) s)
  | _ => None
  end.

(** [close(jobChannel)] and on to [stopWorkers]. *)
Definition stop (s : sys) : sys :=
  if jobsClosed s then set_pc Crashed s else set_pc (Closing 0) (set_jobs (jobs s) true s).

(** [close(workerDoneChannel)] of worker [k]. *)
Definition close_worker (k : nat) (s : sys) : option sys :=
  match workers s !! k with
  | Some w =>
      Some (if w_Done w then set_pc Crashed s
            else set_pc (Closing (S k))
                   (set_workers (<[k:=mkWorker (w_pc w) (w_testNum w) (w_TestId w) true]> (workers s))
                      (wg s) s))
  | None => Some (set_pc Waiting s)
  end.

Definition step_dispatcher (p : ScriptParams) (l : label) (s : sys) : option sys :=
  match l, pc s with
  | DHalt, Selecting => guard_then (haltClosed s) (stop s)
  | DDone, Selecting => guard_then (doneClosed s) (stop s)
  | DTick, Selecting =>
      guard_then (tickC s)
        (set_pc (Sending 1)
          (set_total (int64_of (totalIterations s + iterations s))
            (set_ticks false (growthC s) s)))
  | DGrow, Selecting =>
      guard_then (growthC s)
        (let s := set_ticks (tickC s) false s in
         if growthActive s then
           let '(rps, active) := grow p (requestsPerSecond s) in
           set_rate rps (getNumberOfIterations tickTimer rps) active s
         else s)
  | DSend, Sending i =>
      if jobsClosed s then guard_then (i <? iterations s) (set_pc Crashed s)
      else guard_then ((i <? iterations s) && (jobs s <? MaxRequestsPerSecond p))
             (set_pc (Sending (i + 1)) (set_jobs (jobs s + 1) (jobsClosed s) s))
  | DSendDone, Sending i => guard_then ((i <? iterations s) && doneClosed s) (set_pc Selecting s)
  | DSendHalt, Sending i => guard_then ((i <? iterations s) && haltClosed s) (set_pc Selecting s)
  | DSendEnd, Sending i =>
      guard_then (iterations s <=? i)
        (set_pc Selecting
          (if numSavedExecutions <? totalIterations s
           then set_total 0 (set_flushes (flushes s ++ [FNew]) (wg s) s)
           else s))
  | DClose, Closing k => close_worker k s
  | DWaitGroup, Waiting => guard_then (wg s =? 0) (set_pc Returned s)
  | _, _ => None
  end.

(** The tickers are stopped when [runScript] returns; the other two goroutines close
    their channel once, also after that. *)
Definition step_env (l : label) (s : sys) : option sys :=
  match l with
  | Tick => guard_then (bool_decide (pc s ≠ Returned)) (set_ticks true (growthC s) s)
  | GrowTick => guard_then (bool_decide (pc s ≠ Returned)) (set_ticks (tickC s) true s)
  | HaltClose => guard_then (negb (haltClosed s)) (set_ends true (doneClosed s) s)
  | DoneClose => guard_then (negb (doneClosed s)) (set_ends (haltClosed s) true s)
  | _ => None
  end.

Definition sys_step (p : ScriptParams) (l : label) (s : sys) : option sys :=
  match l with
  | Tick | GrowTick | HaltClose | DoneClose => step_env l s
  | FStart _ | FEnd _ => step_flush l s
  | _ => match label_worker l with
         | Some i => step_worker l i s
         | None => step_dispatcher p l s
         end
  end.

Definition sys_rel (p : ScriptParams) (s : sys) (l : label) (t : sys) : Prop :=
  sys_step p l s = Some t.

(** The interval of [growthTicker]. *)
Definition growth_interval (p : ScriptParams) : Z :=
  int64_of (Second * int_of_float (TimeBetweenGrowth p)).

Definition new_worker : worker := mkWorker WNew 0 0 false.

(** [runScript] up to its loop: the channels, the workers, the tickers. *)
Definition runScript_start {clk : Clock} (p : ScriptParams) : outcome sys :=
  if MaxRequestsPerSecond p <? 0 then Panic "makechan: size out of range" else
  let rps := StartingRequestsPerSecond p in
  let its := getNumberOfIterations tickTimer rps in
  _ ← Ticker tickTimer;
  _ ← Ticker (growth_interval p);
  Ok (mkSys Selecting rps its 0 true 0 false false false false false
        (replicate (Z.to_nat (MaxWorkers p)) new_worker) [] 0).

(** Execute a schedule; [None] when a step of it is not enabled. *)
Fixpoint exec (p : ScriptParams) (ls : list label) (s : sys) : option sys :=
  match ls with
  | [] => Some s
  | l :: ls => sys_step p l s ≫= exec p ls
  end.

Lemma exec_run p ls s t : exec p ls s = Some t ↔ run (sys_rel p) s ls t.
Proof.
  revert s. induction ls as [|l ls IH]; simpl; intros s.
  - split; [intros [= ->]; constructor|by inversion 1].
  - rewrite bind_Some. split.
    + intros (u & Hu & Ht). econstructor; [exact Hu|by apply IH].
    + inversion 1; subst. eexists. split; [eassumption|by apply IH].
Qed.
