(* ===== verification/DispatchFacts.v ===== *)
(** * Correctness of the dispatcher

    Invariants of the transition system of [Dispatch] and what they give: no panic, a
    bounded job queue, jobs neither lost nor invented, the rate limit, the growth of the
    rate, nothing runs after [runScript] returned, and [runScript] returns. *)
From Stdlib Require Import ZArith Lia.
From stdpp Require Import base option list strings.
From S2P Require Import Prelude GoNum FloatFacts Messages Dispatch.

(** ** The number of jobs per tick *)

Lemma seconds_tick : Seconds tickTimer = float_lit 1 10.
Proof. vm_compute. reflexivity. Qed.

Lemma iterations_tenth r : 0 ≤ r < 2 ^ 31 → getNumberOfIterations tickTimer r = r / 10.
Proof. intros. unfold getNumberOfIterations. rewrite seconds_tick. by apply tenth_trunc. Qed.

Lemma iterations_min : getNumberOfIterations tickTimer min_int64 < 0.
Proof. by vm_compute. Qed.

(** ** Bookkeeping invariant *)

Definition active_w (w : worker) : Z :=
  match w_pc w with WIdle | WTook | WRun => 1 | _ => 0 end.
Definition active_f (f : fpc) : Z := match f with FSending => 1 | _ => 0 end.

Lemma active_w_nonneg w : 0 ≤ active_w w.
Proof. unfold active_w. destruct (w_pc w); lia. Qed.
Lemma active_f_nonneg f : 0 ≤ active_f f.
Proof. destruct f; simpl; lia. Qed.
#[local] Hint Resolve active_w_nonneg active_f_nonneg : core.

(** Which [workerDone] channels are closed, by the dispatcher's position. *)
Definition done_flags (c : dpc) (ws : list worker) : Prop :=
  match c with
  | Selecting | Sending _ => ∀ i w, ws !! i = Some w → w_Done w = false
  | Closing k => ∀ i w, ws !! i = Some w → w_Done w = bool_decide (i < k)%nat
  | Waiting => ∀ i w, ws !! i = Some w → w_Done w = true
  | Returned => ∀ i w, ws !! i = Some w → w_Done w = true ∧ w_pc w ≠ WRun
  | Crashed => False
  end.

Definition stopping (c : dpc) : bool :=
  match c with Selecting | Sending _ => false | _ => true end.

Record sys_inv (p : ScriptParams) (s : sys) : Prop := {
  inv_jobs : 0 ≤ jobs s ≤ MaxRequestsPerSecond p;
  inv_wg : wg s = sumZ active_w (workers s) + sumZ active_f (flushes s);
  inv_closed : jobsClosed s = stopping (pc s);
  inv_ended : stopping (pc s) = true → haltClosed s = true ∨ doneClosed s = true;
  inv_done : done_flags (pc s) (workers s)
}.

Lemma worker_step_Done l j c w w' dj dw :
  worker_step l j c w = Some (w', dj, dw) →
  w_Done w' = w_Done w ∧ dw = active_w w' - active_w w ∧
  (w_pc w' = WRun → w_Done w = false) ∧
  (dj = 0 ∨ (dj = -1 ∧ 0 < j)).
Proof.
  destruct w as [c0 n t d]. unfold worker_step, guard_then, set_wpc, active_w.
  destruct l, c0; simpl; intros; try done; try case_test; zify_bool; simplify_eq/=.
  all: split_and!; try done; try lia; by destruct d.
Qed.

Lemma lookup_insert_inv {A} (l : list A) i x j y :
  <[i:=x]> l !! j = Some y → (i = j ∧ y = x) ∨ (i ≠ j ∧ l !! j = Some y).
Proof.
  intros H. apply list_lookup_insert_Some in H. naive_solver.
Qed.

Lemma done_flags_insert c ws i w w' :
  done_flags c ws → ws !! i = Some w → w_Done w' = w_Done w →
  (w_pc w' = WRun → w_Done w = false) → done_flags c (<[i:=w']> ws).
Proof.
  intros H Hi Hd Hr.
  destruct c; simpl in *; try done; intros j x [[-> ->]|[? Hj]]%lookup_insert_inv; eauto.
  all: try (rewrite Hd; eauto; done).
  destruct (H _ _ Hi) as [Hd' Hp]. split; [congruence|]. intros E. specialize (Hr E). congruence.
Qed.

Lemma guard_then_Some {A} b (a x : A) : guard_then b a = Some x ↔ b = true ∧ a = x.
Proof. unfold guard_then. destruct b; naive_solver. Qed.

Ltac guards :=
  repeat match goal with
  | H : guard_then _ _ = Some _ |- _ => apply guard_then_Some in H as [? ?]
  | H : Some _ = Some _ |- _ => injection H as H; try subst
  | H : None = Some _ |- _ => discriminate H
  end; zify_bool; subst.

Lemma step_env_inv p l s t : sys_inv p s → step_env l s = Some t → sys_inv p t.
Proof.
  intros [? ? ? He ?] H. unfold step_env in H.
  destruct l; guards; try done; split; simpl; auto; intros Hs; destruct (He Hs); auto.
Qed.

Lemma step_flush_inv p l s t : sys_inv p s → step_flush l s = Some t → sys_inv p t.
Proof.
  intros [? Hwg ? ? ?] H. unfold step_flush in H.
  destruct l; guards; try done;
    match goal with H : bool_decide _ = true |- _ => apply bool_decide_eq_true in H end.
  all: split; simpl; auto; erewrite sumZ_insert by eassumption; simpl; lia.
Qed.

Lemma step_worker_inv p l i s t : sys_inv p s → step_worker l i s = Some t → sys_inv p t.
Proof.
  intros [? Hwg ? ? Hd] H. unfold step_worker in H.
  apply bind_Some in H as (w & Hw & H). apply bind_Some in H as ([[w' dj] dw] & Hs & [= <-]).
  destruct (worker_step_Done _ _ _ _ _ _ _ Hs) as (H1 & H2 & H3 & H4).
  split; simpl; auto.
  - lia.
  - erewrite sumZ_insert by eassumption. lia.
  - eapply done_flags_insert; eauto.
Qed.

Lemma done_flags_close k ws w :
  done_flags (Closing k) ws → ws !! k = Some w →
  w_Done w = false ∧
  done_flags (Closing (S k)) (<[k:=mkWorker (w_pc w) (w_testNum w) (w_TestId w) true]> ws).
Proof.
  simpl. intros H Hk. split.
  - rewrite (H _ _ Hk). rewrite bool_decide_eq_false. lia.
  - intros i x [[-> ->]|[? Hi]]%lookup_insert_inv; simpl.
    + symmetry. apply bool_decide_eq_true. lia.
    + rewrite (H _ _ Hi). apply bool_decide_ext. lia.
Qed.

Lemma active_w_sum_zero ws :
  sumZ active_w ws = 0 → ∀ i w, ws !! i = Some w → w_pc w = WNew ∨ w_pc w = WExit.
Proof.
  intros H i w Hi. apply sumZ_zero in H; [|done].
  rewrite Forall_lookup in H. specialize (H _ _ Hi). unfold active_w in H.
  destruct (w_pc w); try lia; auto.
Qed.

Lemma step_dispatcher_inv p l s t :
  sys_inv p s → step_dispatcher p l s = Some t → sys_inv p t.
Proof.
  intros [? Hwg Hc He Hd] H. unfold step_dispatcher in H.
  destruct l, (pc s) as [|i|k| | |] eqn:Epc; try done; simpl in *.
  1,2: guards; unfold stop; rewrite Hc; split; simpl; auto;
       intros j w Hj; rewrite (Hd _ _ Hj); by rewrite bool_decide_eq_false_2 by lia.
  - guards. split; simpl; auto.
  - guards. destruct (growthActive s); [destruct (grow p _)|]; split; simpl; auto; by rewrite Epc.
  - rewrite Hc in H. guards. split; simpl; auto. lia.
  - guards. split; simpl; auto.
  - guards. split; simpl; auto.
  - guards. split; simpl; auto; destruct (_ <? _); simpl; auto; try done.
    rewrite sumZ_app. simpl. lia.
  - unfold close_worker in H. destruct (workers s !! k) as [w|] eqn:Ek; simplify_eq/=.
    + destruct (done_flags_close k (workers s) w Hd Ek) as [-> Hd'].
      split; simpl; auto. erewrite sumZ_insert by eassumption. unfold active_w at 2 3. simpl. lia.
    + split; simpl; auto. intros i w Hi. rewrite (Hd _ _ Hi).
      apply bool_decide_eq_true. apply lookup_lt_Some in Hi. apply lookup_ge_None in Ek. lia.
  - guards. split; simpl; auto. intros i w Hi. split; [eauto|].
    assert (0 ≤ sumZ active_w (workers s)) by by apply sumZ_nonneg.
    assert (0 ≤ sumZ active_f (flushes s)) by by apply sumZ_nonneg.
    destruct (active_w_sum_zero (workers s) ltac:(lia) i w Hi) as [-> | ->]; done.
Qed.

Lemma sys_rel_inv p s l t : sys_inv p s → sys_rel p s l t → sys_inv p t.
Proof.
  unfold sys_rel, sys_step. intros HI H.
  destruct l; cbn [label_worker] in H;
    first [ eapply step_env_inv; eassumption | eapply step_flush_inv; eassumption
          | eapply step_worker_inv; eassumption | eapply step_dispatcher_inv; eassumption ].
Qed.

Lemma start_inv {clk : Clock} p s :
  runScript_start p = Ok s → sys_inv p s ∧ pc s = Selecting ∧ growthActive s = true ∧
  requestsPerSecond s = StartingRequestsPerSecond p ∧
  iterations s = getNumberOfIterations tickTimer (StartingRequestsPerSecond p) ∧
  workers s = replicate (Z.to_nat (MaxWorkers p)) new_worker ∧
  jobs s = 0 ∧ totalIterations s = 0 ∧ haltClosed s = false ∧ doneClosed s = false.
Proof.
  unfold runScript_start. case_test; [done|].
  intros (? & _ & (? & _ & [= <-])%outcome_bind_ok)%outcome_bind_ok. zify_bool.
  split; [|done]. split; simpl; try done.
  - rewrite sumZ_replicate. unfold active_w. simpl. lia.
  - intros i w Hi. by apply lookup_replicate in Hi as [-> _].
Qed.

Lemma reachable_inv {clk : Clock} p s0 ls s :
  runScript_start p = Ok s0 → run (sys_rel p) s0 ls s → sys_inv p s.
Proof.
  intros H0 Hr. eapply run_invariant; [|exact Hr|by apply start_inv].
  intros. by eapply sys_rel_inv.
Qed.

(** ** Jobs are neither lost nor invented *)

Definition is_send (l : label) : bool := match l with DSend => true | _ => false end.
Definition is_tick (l : label) : bool := match l with DTick => true | _ => false end.
Definition is_job (l : label) : bool := match l with WJob _ => true | _ => false end.
Definition is_begin (l : label) : bool := match l with WBegin _ => true | _ => false end.
Definition is_skip (l : label) : bool := match l with WSkip _ => true | _ => false end.
Definition is_env (l : label) : bool :=
  match l with Tick | GrowTick | HaltClose | DoneClose => true | _ => false end.

(** Workers holding a job they have not begun. *)
Definition took (w : worker) : Z := match w_pc w with WTook => 1 | _ => 0 end.

Definition jobs_inv (h : list label) (s : sys) : Prop :=
  countb is_send h = jobs s + countb is_job h ∧
  countb is_job h = countb is_begin h + countb is_skip h + sumZ took (workers s).

Lemma worker_step_took l j c w w' dj dw :
  worker_step l j c w = Some (w', dj, dw) →
  (if is_send l then 1 else 0) = 0 ∧
  dj = - (if is_job l then 1 else 0) ∧
  took w' = took w + (if is_job l then 1 else 0) - (if is_begin l then 1 else 0)
            - (if is_skip l then 1 else 0).
Proof.
  destruct w as [c0 n t d]. unfold worker_step, guard_then, set_wpc, took.
  destruct l, c0; simpl; intros; try done; try case_test; simplify_eq/=; done.
Qed.

Lemma step_dispatcher_jobs p l s t :
  pc t ≠ Crashed → step_dispatcher p l s = Some t →
  sumZ took (workers t) = sumZ took (workers s) ∧
  jobs t = jobs s + (if is_send l then 1 else 0) ∧
  is_job l = false ∧ is_begin l = false ∧ is_skip l = false.
Proof.
  intros Hn H. unfold step_dispatcher, stop, close_worker in H.
  destruct l, (pc s) as [|i|k| | |] eqn:Epc; try done; simpl in *; guards; simpl;
    try (split_and!; try done; lia).
  - destruct (jobsClosed s); simpl; split_and!; try done; lia.
  - destruct (jobsClosed s); simpl; split_and!; try done; lia.
  - destruct (growthActive s); [destruct (grow p _)|]; simpl; split_and!; try done; lia.
  - destruct (jobsClosed s) eqn:Ec; guards; simpl in *; [done|]. split_and!; try done; lia.
  - destruct (_ <? _); simpl; split_and!; try done; lia.
  - destruct (workers s !! k) as [w|] eqn:Ek; simplify_eq/=; [|split_and!; try done; lia].
    destruct (w_Done w); simpl in *; [done|]. erewrite sumZ_insert by eassumption.
    unfold took at 2 3. simpl. split_and!; try done; lia.
Qed.

Lemma step_env_jobs l s t :
  step_env l s = Some t →
  workers t = workers s ∧ jobs t = jobs s ∧ is_send l = false ∧ is_job l = false ∧
  is_begin l = false ∧ is_skip l = false.
Proof.
  unfold step_env. destruct l; intros; guards; try done; auto.
Qed.

Lemma step_flush_jobs l s t :
  step_flush l s = Some t →
  workers t = workers s ∧ jobs t = jobs s ∧ is_send l = false ∧ is_job l = false ∧
  is_begin l = false ∧ is_skip l = false.
Proof. unfold step_flush. destruct l; intros; guards; try done; auto. Qed.

(** The step function split by goroutine. *)
Lemma sys_rel_cases p s l t :
  sys_rel p s l t →
  step_env l s = Some t ∨ step_flush l s = Some t ∨
  (∃ i, step_worker l i s = Some t) ∨ step_dispatcher p l s = Some t.
Proof.
  unfold sys_rel, sys_step. intros H. destruct l; cbn [label_worker] in H; eauto.
Qed.

Lemma jobs_inv_step p h s l t :
  sys_inv p s → jobs_inv h s → sys_rel p s l t → jobs_inv (h ++ [l]) t.
Proof.
  intros HI [H1 H2] Hs. assert (pc t ≠ Crashed) as Hn.
  { intros E. pose proof (inv_done _ _ (sys_rel_inv _ _ _ _ HI Hs)) as Hd.
    by rewrite E in Hd. }
  unfold jobs_inv. rewrite !countb_snoc.
  apply sys_rel_cases in Hs as [H|[H|[(i & H)|H]]].
  - apply step_env_jobs in H as (-> & -> & -> & -> & -> & ->). lia.
  - apply step_flush_jobs in H as (-> & -> & -> & -> & -> & ->). lia.
  - unfold step_worker in H. apply bind_Some in H as (w & Hw & H).
    apply bind_Some in H as ([[w' dj] dw] & Hs & [= <-]). simpl.
    destruct (worker_step_took _ _ _ _ _ _ _ Hs) as (-> & -> & Ht).
    erewrite sumZ_insert by eassumption. lia.
  - destruct (step_dispatcher_jobs _ _ _ _ Hn H) as (-> & -> & -> & -> & ->). lia.
Qed.

(** ** The rate *)

Definition accepted (p : ScriptParams) : Prop := verifyCommand p = None ∧ params_typed p.

Lemma accepted_bounds p :
  accepted p →
  1 ≤ MaxWorkers p ∧ 10 < StartingRequestsPerSecond p ∧
  StartingRequestsPerSecond p ≤ MaxRequestsPerSecond p < 2 ^ 31 ∧
  valid64 (GrowthFactor p) = true ∧ flt (GrowthFactor p) fone = false.
Proof.
  intros [((? & ? & ? & ?) & Hg & _)%verifyCommand_None (? & ? & ? & Hm & ? & ?)].
  destruct Hm. split_and!; try done; try lia.
Qed.

Record rate_inv (p : ScriptParams) (s : sys) : Prop := {
  rate_range : StartingRequestsPerSecond p ≤ requestsPerSecond s ≤ MaxRequestsPerSecond p ∨
               requestsPerSecond s = min_int64;
  rate_its : iterations s = getNumberOfIterations tickTimer (requestsPerSecond s);
  rate_capped : growthActive s = false → requestsPerSecond s = MaxRequestsPerSecond p
}.

Lemma grow_range p rps :
  accepted p →
  StartingRequestsPerSecond p ≤ rps ≤ MaxRequestsPerSecond p ∨ rps = min_int64 →
  let '(r, a) := grow p rps in
  (rps ≤ r ≤ MaxRequestsPerSecond p ∨ r = min_int64) ∧ (rps = min_int64 → r = min_int64) ∧
  (a = false → r = MaxRequestsPerSecond p).
Proof.
  intros Hp Hr. destruct (accepted_bounds p Hp) as (? & ? & ? & Hv & Hg). unfold grow.
  destruct Hr as [Hr| ->].
  - destruct (growth_any rps _ ltac:(lia) Hv Hg) as [Hn|Hn];
      case_test; zify_bool; split_and!; try done; try (unfold min_int64 in *; lia).
  - rewrite growth_min by done.
    assert ((MaxRequestsPerSecond p <? min_int64) = false) as -> by (unfold min_int64; lia).
    split_and!; [by right|done|done].
Qed.

Lemma iterations_bound p s :
  accepted p → rate_inv p s → iterations s ≤ MaxRequestsPerSecond p / 10.
Proof.
  intros Hp [Hr -> _]. destruct (accepted_bounds p Hp) as (? & ? & ? & _).
  destruct Hr as [Hr| ->].
  - rewrite iterations_tenth by lia. apply Z.div_le_mono; lia.
  - pose proof iterations_min. assert (0 ≤ MaxRequestsPerSecond p / 10) by (apply Z.div_pos; lia). lia.
Qed.

(** Only the growth branch changes the rate. *)
Lemma rate_step p s l t :
  sys_rel p s l t →
  (requestsPerSecond t = requestsPerSecond s ∧ iterations t = iterations s ∧
   growthActive t = growthActive s) ∨
  (grow p (requestsPerSecond s) = (requestsPerSecond t, growthActive t) ∧
   iterations t = getNumberOfIterations tickTimer (requestsPerSecond t)).
Proof.
  intros Hs. apply sys_rel_cases in Hs as [H|[H|[(i & H)|H]]].
  - unfold step_env in H. destruct l; guards; try done; by left.
  - unfold step_flush in H. destruct l; guards; try done; by left.
  - unfold step_worker in H. apply bind_Some in H as (w & Hw & H).
    apply bind_Some in H as ([[w' dj] dw] & Hs & [= <-]). by left.
  - unfold step_dispatcher, stop, close_worker in H.
    destruct l, (pc s) as [|i|k| | |] eqn:Epc; try done; simpl in *; guards; try by left.
    1,2: destruct (jobsClosed s); by left.
    + destruct (growthActive s) eqn:Ea; [right|left; simpl; auto].
      by destruct (grow p _) as [r a].
    + destruct (jobsClosed s); guards; by left.
    + destruct (_ <? _); by left.
    + destruct (workers s !! k) as [w|]; injection H as <-; [|by left].
      destruct (w_Done w); by left.
Qed.

Lemma rate_inv_step p s l t : accepted p → rate_inv p s → sys_rel p s l t → rate_inv p t.
Proof.
  intros Hp [A B C] [(E1 & E2 & E3)|[Hg E2]]%rate_step.
  - split; rewrite ?E1, ?E2, ?E3; auto.
  - pose proof (grow_range p (requestsPerSecond s) Hp A) as Hr. rewrite Hg in Hr.
    destruct Hr as (Hr1 & Hr2 & Hr3). split; auto. lia.
Qed.

Lemma rate_min_step p s l t :
  accepted p → rate_inv p s → sys_rel p s l t →
  requestsPerSecond s = min_int64 → requestsPerSecond t = min_int64.
Proof.
  intros Hp [A B C] [(-> & _)|[Hg _]]%rate_step; [done|].
  pose proof (grow_range p (requestsPerSecond s) Hp A) as Hr. rewrite Hg in Hr. tauto.
Qed.

(** ** Jobs per tick *)

Definition send_inv (p : ScriptParams) (h : list label) (s : sys) : Prop :=
  let K := MaxRequestsPerSecond p / 10 - 1 in
  match pc s with
  | Sending i => 1 ≤ i ≤ K + 1 ∧ countb is_send h ≤ (countb is_tick h - 1) * K + (i - 1)
  | _ => countb is_send h ≤ countb is_tick h * K
  end.

Lemma send_inv_step p h s l t :
  accepted p → sys_inv p s → rate_inv p s → send_inv p h s → sys_rel p s l t →
  send_inv p (h ++ [l]) t.
Proof.
  intros Hp HI HR HS Hs. pose proof (iterations_bound p s Hp HR) as Hits.
  assert (1 ≤ MaxRequestsPerSecond p / 10) as HK.
  { destruct (accepted_bounds p Hp) as (_ & ? & ? & _). apply div_ge; lia. }
  assert (pc t = pc s → is_send l = false → is_tick l = false → send_inv p (h ++ [l]) t) as Hsame.
  { unfold send_inv. intros -> El Et. rewrite !countb_snoc, El, Et. by rewrite !Z.add_0_r. }
  apply sys_rel_cases in Hs as [H|[H|[(i & H)|H]]].
  - unfold step_env in H. destruct l; guards; try done; by apply Hsame.
  - unfold step_flush in H. destruct l; guards; try done; by apply Hsame.
  - unfold step_worker in H. apply bind_Some in H as (w & Hw & H).
    apply bind_Some in H as ([[w' dj] dw] & Hs & [= <-]).
    destruct l; try (by apply Hsame); by destruct w as [[]].
  - clear Hsame. unfold send_inv in *. rewrite !countb_snoc.
    pose proof (inv_closed _ _ HI) as Hc.
    unfold step_dispatcher, stop, close_worker in H.
    destruct l, (pc s) as [|i|k| | |] eqn:Epc; try done; simpl in Hc; rewrite ?Hc in H;
      simpl in H; guards; simpl; rewrite ?Epc; try lia.
    + destruct (growthActive s); [destruct (grow p _)|]; simpl; rewrite Epc; lia.
    + destruct (workers s !! k) as [w|]; injection H as <-; simpl; [|lia].
      destruct (w_Done w); simpl; lia.
Qed.

(** ** Nothing runs once [runScript] has returned *)

Lemma returned_step p s l t :
  sys_inv p s → pc s = Returned → sys_rel p s l t →
  pc t = Returned ∧ is_begin l = false ∧ is_send l = false ∧
  (∀ i, l ≠ WFinish i ∧ l ≠ WFail i).
Proof.
  intros HI Hpc Hs. pose proof (inv_done _ _ HI) as Hd. rewrite Hpc in Hd.
  apply sys_rel_cases in Hs as [H|[H|[(i & H)|H]]].
  - unfold step_env in H. destruct l; guards; simpl; try done; by rewrite Hpc in *.
  - unfold step_flush in H. destruct l; guards; try done; simpl; split_and!; done.
  - unfold step_worker in H. apply bind_Some in H as (w & Hw & H).
    apply bind_Some in H as ([[w' dj] dw] & Hs & [= <-]). simpl.
    destruct (Hd _ _ Hw) as [Hdone Hrun]. unfold worker_step in Hs. rewrite Hdone in Hs.
    destruct l, (w_pc w); try done; simpl; split_and!; done.
  - unfold step_dispatcher in H. rewrite Hpc in H. by destruct l.
Qed.

(** ** [runScript] returns *)

Definition w_weight (w : worker) : Z :=
  match w_pc w with WNew => 5 | WIdle => 4 | WTook => 7 | WRun => 5 | WExit => 0 end.
Definition f_weight (f : fpc) : Z :=
  match f with FNew => 2 | FSending => 1 | FDone => 0 end.
Definition d_weight (s : sys) : Z :=
  let n := Z.of_nat (length (workers s)) in
  match pc s with
  | Selecting => n + 3
  | Sending i => n + 6 + 5 * Z.max 0 (iterations s - i)
  | Closing k => Z.max 0 (n - Z.of_nat k) + 2
  | Waiting => 1
  | Returned | Crashed => 0
  end.

Definition measure (p : ScriptParams) (s : sys) : Z :=
  d_weight s + (if tickC s then 5 * (MaxRequestsPerSecond p / 10) + 5 else 0) +
  (if growthC s then 1 else 0) + 4 * jobs s + sumZ w_weight (workers s) +
  sumZ f_weight (flushes s).

Lemma w_weight_nonneg w : 0 ≤ w_weight w.
Proof. unfold w_weight. destruct (w_pc w); lia. Qed.
Lemma f_weight_nonneg f : 0 ≤ f_weight f.
Proof. destruct f; simpl; lia. Qed.
#[local] Hint Resolve w_weight_nonneg f_weight_nonneg : core.

Lemma d_weight_nonneg s : 0 ≤ d_weight s.
Proof. unfold d_weight. destruct (pc s); lia. Qed.

Lemma measure_nonneg p s : accepted p → sys_inv p s → 0 ≤ measure p s.
Proof.
  intros Hp HI. unfold measure. pose proof (d_weight_nonneg s). pose proof (inv_jobs _ _ HI).
  pose proof (sumZ_nonneg w_weight (workers s) ltac:(done)).
  pose proof (sumZ_nonneg f_weight (flushes s) ltac:(done)).
  assert (0 ≤ MaxRequestsPerSecond p / 10).
  { destruct (accepted_bounds p Hp) as (_ & ? & ? & _). apply Z.div_pos; lia. }
  destruct (tickC s), (growthC s); lia.
Qed.

Lemma worker_step_weight l j c w w' dj dw :
  worker_step l j c w = Some (w', dj, dw) → 4 * dj + w_weight w' < w_weight w.
Proof.
  destruct w as [c0 n t d]. unfold worker_step, guard_then, set_wpc, w_weight.
  destruct l, c0; simpl; intros; try done; try case_test; simplify_eq/=; lia.
Qed.

Lemma measure_decreases p s l t :
  accepted p → sys_inv p s → rate_inv p s → is_env l = false → sys_rel p s l t →
  measure p t < measure p s.
Proof.
  intros Hp HI HR Hl Hs. pose proof (iterations_bound p s Hp HR) as Hits.
  assert (1 ≤ MaxRequestsPerSecond p / 10) as HK.
  { destruct (accepted_bounds p Hp) as (_ & ? & ? & _). apply div_ge; lia. }
  apply sys_rel_cases in Hs as [H|[H|[(i & H)|H]]].
  - unfold step_env in H. by destruct l.
  - unfold step_flush in H. destruct l; guards; try done;
      match goal with H : bool_decide _ = true |- _ => apply bool_decide_eq_true in H end.
    all: unfold measure, d_weight; simpl; erewrite sumZ_insert by eassumption; simpl; lia.
  - unfold step_worker in H. apply bind_Some in H as (w & Hw & H).
    apply bind_Some in H as ([[w' dj] dw] & Hs & [= <-]).
    apply worker_step_weight in Hs. unfold measure, d_weight. simpl. rewrite length_insert.
    erewrite sumZ_insert by eassumption. lia.
  - pose proof (inv_closed _ _ HI) as Hc. unfold measure, d_weight.
    unfold step_dispatcher, stop, close_worker in H.
    destruct l, (pc s) as [|i|k| | |] eqn:Epc; try done; simpl in Hc; rewrite ?Hc in H;
      simpl in H; guards; simpl; try lia.
    + rewrite H. lia.
    + destruct (growthActive s); [destruct (grow p _)|]; simpl; rewrite Epc, H; lia.
    + destruct (_ <? _); simpl; rewrite ?sumZ_app; simpl; lia.
    + destruct (workers s !! k) as [w|] eqn:Ek; injection H as <-; simpl; [|lia].
      pose proof (lookup_lt_Some _ _ _ Ek).
      destruct (w_Done w); simpl; [lia|]. rewrite length_insert.
      erewrite sumZ_insert by eassumption. unfold w_weight at 2 3. simpl. lia.
Qed.

Lemma sumZ_pos_lookup {A} (f : A → Z) l :
  (∀ x, 0 ≤ f x) → 0 < sumZ f l → ∃ i x, l !! i = Some x ∧ 0 < f x.
Proof.
  intros Hf. induction l as [|x l IH]; simpl; intros H; [lia|].
  destruct (Z.lt_ge_cases 0 (f x)); [by exists 0%nat, x|].
  destruct IH as (i & y & ? & ?); [specialize (Hf x); lia|]. by exists (S i), y.
Qed.

Lemma ended_step p s l t :
  sys_rel p s l t → haltClosed s = true ∨ doneClosed s = true →
  haltClosed t = true ∨ doneClosed t = true.
Proof.
  intros Hs He.
  assert ((haltClosed s = true → haltClosed t = true) ∧
          (doneClosed s = true → doneClosed t = true)) as [? ?]; [|tauto]. clear He.
  apply sys_rel_cases in Hs as [H|[H|[(i & H)|H]]].
  - unfold step_env in H. destruct l; guards; try done; by rewrite ?H.
  - unfold step_flush in H. destruct l; guards; done.
  - unfold step_worker in H. apply bind_Some in H as (w & Hw & H).
    by apply bind_Some in H as ([[w' dj] dw] & Hs & [= <-]).
  - unfold step_dispatcher, stop, close_worker in H.
    destruct l, (pc s) as [|i|k| | |] eqn:Epc; try done; simpl in *; guards; try done.
    1,2: by destruct (jobsClosed s).
    + destruct (growthActive s); [|done]. by destruct (grow p _).
    + by destruct (jobsClosed s); guards.
    + by destruct (_ <? _).
    + destruct (workers s !! k) as [w|]; injection H as <-; [|done].
      by destruct (w_Done w).
Qed.

Lemma stopping_progress p s :
  sys_inv p s → haltClosed s = true ∨ doneClosed s = true →
  pc s = Returned ∨ ∃ l t, is_env l = false ∧ sys_rel p s l t.
Proof.
  intros HI Hend. pose proof (inv_done _ _ HI) as Hd. unfold sys_rel.
  destruct (pc s) as [|i|k| | |] eqn:Epc; [right..|by left|done].
  - destruct Hend as [E|E]; [exists DHalt|exists DDone]; eexists; (split; [done|]);
      simpl; by rewrite Epc, E.
  - destruct (i <? iterations s) eqn:Ei.
    + destruct Hend as [E|E]; [exists DSendHalt|exists DSendDone]; eexists; (split; [done|]);
        simpl; by rewrite Epc, E, Ei.
    + exists DSendEnd. eexists. split; [done|]. simpl. rewrite Epc.
      assert ((iterations s <=? i) = true) as -> by lia. done.
  - exists DClose. simpl. rewrite Epc. unfold close_worker.
    destruct (workers s !! k); eexists; (split; [done|reflexivity]).
  - destruct (Z.eq_dec (wg s) 0) as [Hz|Hz].
    { exists DWaitGroup. eexists. split; [done|]. simpl. by rewrite Epc, Hz. }
    pose proof (inv_wg _ _ HI) as Hwg.
    pose proof (sumZ_nonneg active_w (workers s) ltac:(done)).
    pose proof (sumZ_nonneg active_f (flushes s) ltac:(done)).
    destruct (Z.lt_ge_cases 0 (sumZ active_w (workers s))) as [Hw|Hw].
    + apply sumZ_pos_lookup in Hw as (i & w & Hi & Hw); [|done].
      specialize (Hd _ _ Hi). unfold active_w in Hw.
      destruct (w_pc w) eqn:Ew; try lia;
        [exists (WSeeDone i)|exists (WSkip i)|exists (WFinish i)];
        eexists; (split; [done|]); simpl; unfold step_worker; rewrite Hi; simpl;
        unfold worker_step; rewrite Ew, ?Hd; reflexivity.
    + destruct (sumZ_pos_lookup active_f (flushes s)) as (j & f & Hj & Hf); [done|lia|].
      destruct f; simpl in Hf; try lia. exists (FEnd j). eexists. split; [done|].
      simpl. rewrite bool_decide_eq_true_2 by done. reflexivity.
Qed.
