(* ===== verification/DispatchProps.v ===== *)
(** * Properties of the dispatcher, with their witnesses *)
From Stdlib Require Import ZArith Lia.
From stdpp Require Import base option list strings.
From S2P Require Import Prelude GoNum FloatFacts Messages Dispatch DispatchFacts.

(** A command an executor accepts, and the state [runScript] starts in for it. *)
Definition demo : ScriptParams :=
  mkScriptParams "http://x" "script" "id" 10 2 (float_lit 3 2) (float_lit 1 1) 30 40.

Definition demo_start : sys :=
  mkSys Selecting 30 3 0 true 0 false false false false false
    (replicate 2 new_worker) [] 0.

(** One tick, two jobs, both executed by worker 0, growth, then a halt. *)
Definition demo_schedule : list label :=
  [WStart 0; Tick; DTick; DSend; DSend; DSendEnd; WJob 0; WBegin 0; WFinish 0; WJob 0; WBegin 0;
   GrowTick; DGrow; WFinish 0; HaltClose; DHalt; DClose; DClose; DClose; WSeeDone 0; DWaitGroup].

Lemma demo_accepted : accepted demo.
Proof. split; [by vm_compute|]. repeat split; by vm_compute. Qed.

Lemma reachable_rate {clk : Clock} p s0 ls s :
  accepted p → runScript_start p = Ok s0 → run (sys_rel p) s0 ls s →
  sys_inv p s ∧ rate_inv p s.
Proof.
  intros Hp H0 Hr. destruct (start_inv _ _ H0) as (HI & _ & Ha & Hrps & Hits & _).
  destruct (accepted_bounds p Hp) as (_ & _ & ? & _).
  eapply (run_invariant _ (fun s => sys_inv p s ∧ rate_inv p s)); [|exact Hr|].
  - intros u l v [? ?] ?. split; [by eapply sys_rel_inv|by eapply rate_inv_step].
  - split; [done|]. split; [left; lia|by rewrite Hits, Hrps|by rewrite Ha].
Qed.



Lemma reachable_jobs {clk : Clock} p s0 ls s :
  runScript_start p = Ok s0 → run (sys_rel p) s0 ls s → jobs_inv ls s.
Proof.
  intros H0 Hr.
  enough (sys_inv p s ∧ jobs_inv ls s) as [_ ?] by done.
  revert ls s Hr. apply (run_history_invariant _ (fun ls s => sys_inv p s ∧ jobs_inv ls s)).
  - destruct (start_inv _ _ H0) as (HI & _ & _ & _ & _ & Hw & Hj & _). split; [done|].
    unfold jobs_inv. rewrite Hw, Hj, sumZ_replicate. unfold countb, took. simpl. lia.
  - intros h u l v [? ?] ?. split; [by eapply sys_rel_inv|by eapply jobs_inv_step].
Qed.



Lemma reachable_sends {clk : Clock} p s0 ls s :
  accepted p → runScript_start p = Ok s0 → run (sys_rel p) s0 ls s → send_inv p ls s.
Proof.
  intros Hp H0 Hr.
  enough ((sys_inv p s ∧ rate_inv p s) ∧ send_inv p ls s) as [_ ?] by done.
  revert ls s Hr.
  apply (run_history_invariant _ (fun ls s => (sys_inv p s ∧ rate_inv p s) ∧ send_inv p ls s)).
  - split; [by eapply (reachable_rate p s0 [] s0); [| |constructor]|].
    destruct (start_inv _ _ H0) as (_ & Hpc & _). unfold send_inv. rewrite Hpc. done.
  - intros h u l v [[? ?] ?] ?.
    split; [split; [by eapply sys_rel_inv|by eapply rate_inv_step]|by eapply send_inv_step].
Qed.

Lemma sends_per_tick {clk : Clock} p s0 ls s :
  accepted p → runScript_start p = Ok s0 → run (sys_rel p) s0 ls s →
  countb is_send ls ≤ countb is_tick ls * (MaxRequestsPerSecond p / 10 - 1).
Proof.
  intros Hp H0 Hr. pose proof (reachable_sends _ _ _ _ Hp H0 Hr) as HS.
  unfold send_inv in HS. destruct (pc s); try done. lia.
Qed.

(** The rate limit. For an accepted command, whatever the growth factor, the jobs
    sent in a run are at most [MaxRequestsPerSecond / 10 - 1] per tick of 100ms taken. *)
Theorem dispatch_rate_limit {clk : Clock} p s0 ls s :
  accepted p → runScript_start p = Ok s0 → run (sys_rel p) s0 ls s →
  countb is_send ls ≤ countb is_tick ls * (MaxRequestsPerSecond p / 10 - 1).
Proof.
  apply sends_per_tick.
Qed.

Lemma dispatch_rate_limit_witness :
  countb is_send demo_schedule ≤ countb is_tick demo_schedule * (MaxRequestsPerSecond demo / 10 - 1).
Proof.
  apply (@dispatch_rate_limit real_clock demo demo_start demo_schedule
           (default demo_start (exec demo demo_schedule demo_start)));
    [apply demo_accepted|vm_compute; reflexivity|].
  apply exec_run. vm_compute. reflexivity.
Defined.

(** An accepted command with [MaxRequestsPerSecond] below 20 never queues a single job:
    the loop starts at [i := 1], so one job per tick rounds to none. *)
Theorem dispatch_starved {clk : Clock} p s0 ls s :
  accepted p → MaxRequestsPerSecond p < 20 →
  runScript_start p = Ok s0 → run (sys_rel p) s0 ls s →
  countb is_send ls = 0 ∧ countb is_begin ls = 0.
Proof.
  intros Hp Hm H0 Hr.
  pose proof (sends_per_tick p s0 ls s Hp H0 Hr) as HR.
  destruct (reachable_jobs p s0 ls s H0 Hr) as [H1 H2].
  destruct (accepted_bounds p Hp) as (_ & ? & ? & _).
  assert (MaxRequestsPerSecond p / 10 - 1 = 0) as E by div_lia. rewrite E in HR.
  pose proof (countb_nonneg is_send ls). pose proof (countb_nonneg is_begin ls).
  pose proof (countb_nonneg is_skip ls).
  destruct (reachable_inv _ _ _ _ H0 Hr) as [Hj _ _ _ _].
  assert (0 ≤ sumZ took (workers s)) by (apply sumZ_nonneg; intros w; unfold took; destruct (w_pc w); lia).
  lia.
Qed.

Definition slow : ScriptParams :=
  mkScriptParams "http://x" "script" "id" 10 1 (float_lit 1 1) (float_lit 1 1) 15 19.
Definition slow_schedule : list label := [WStart 0; Tick; DTick; DSendEnd; Tick; DTick; DSendEnd].

Lemma dispatch_starved_witness :
  verifyCommand slow = None ∧ countb is_tick slow_schedule = 2 ∧
  countb is_send slow_schedule = 0 ∧ countb is_begin slow_schedule = 0.
Proof.
  split; [by vm_compute|]. split; [by vm_compute|].
  apply (@dispatch_starved real_clock slow
    (mkSys Selecting 15 1 0 true 0 false false false false false [new_worker] [] 0) slow_schedule
    (mkSys Selecting 15 1 2 true 0 false false false false false [mkWorker WIdle 0 0 false] [] 1)).
  - split; [by vm_compute|]. repeat split; by vm_compute.
  - by vm_compute.
  - vm_compute. reflexivity.
  - apply exec_run. vm_compute. reflexivity.
Defined.

(** Growth with a factor that cannot overflow. *)
Lemma grow_exact p rps :
  accepted p → fle (GrowthFactor p) ftwo31 = true →
  StartingRequestsPerSecond p ≤ rps ≤ MaxRequestsPerSecond p →
  let '(r, a) := grow p rps in
  rps ≤ r ≤ MaxRequestsPerSecond p ∧ (a = false → r = MaxRequestsPerSecond p).
Proof.
  intros Hp Hg Hr. destruct (accepted_bounds p Hp) as (? & ? & ? & Hv & Hg1).
  pose proof (growth_trunc rps _ ltac:(lia) Hv (fle_fone _ Hg1 Hg) Hg). unfold grow.
  case_test; zify_bool; split; try done; lia.
Qed.

Definition exact_rate (p : ScriptParams) (s : sys) : Prop :=
  StartingRequestsPerSecond p ≤ requestsPerSecond s ≤ MaxRequestsPerSecond p.

Lemma exact_rate_step p s l t :
  accepted p → fle (GrowthFactor p) ftwo31 = true → exact_rate p s → sys_rel p s l t →
  exact_rate p t ∧ requestsPerSecond s ≤ requestsPerSecond t.
Proof.
  unfold exact_rate. intros Hp Hg HI [(-> & _)|[Hgr _]]%rate_step; [lia|].
  pose proof (grow_exact p (requestsPerSecond s) Hp Hg HI) as Hx. rewrite Hgr in Hx. lia.
Qed.



(** Overflow. An accepted growth factor may overflow the rate to the least integer (or
    be NaN); in every schedule from such a state on the rate stays there and no job is ever
    queued again. *)
Theorem dispatch_overflow_stops {clk : Clock} p s0 ls0 s ls t :
  accepted p → runScript_start p = Ok s0 → run (sys_rel p) s0 ls0 s →
  requestsPerSecond s = min_int64 → run (sys_rel p) s ls t →
  requestsPerSecond t = min_int64 ∧ countb is_send ls = 0.
Proof.
  intros Hp H0 Hr0 Hmin Hr.
  enough (run (sys_rel p) s0 (ls0 ++ ls) t ∧ requestsPerSecond t = min_int64 ∧
          countb is_send ls = 0) as [_ ?] by done.
  revert ls t Hr. apply (run_history_invariant _ (fun ls t => run (sys_rel p) s0 (ls0 ++ ls) t ∧
    requestsPerSecond t = min_int64 ∧ countb is_send ls = 0)).
  - by rewrite app_nil_r.
  - intros h u l v (Hru & Hm & Hc) Hs.
    destruct (reachable_rate _ _ _ _ Hp H0 Hru) as [HI HR]. split_and!.
    + rewrite app_assoc. eapply run_app; [done|]. by apply run_one.
    + by eapply rate_min_step.
    + rewrite countb_snoc, Hc. destruct l; try done. exfalso.
      pose proof (reachable_sends _ _ _ _ Hp H0 Hru) as HS. unfold send_inv in HS.
      destruct HR as [_ Hits _].
      pose proof (inv_closed _ _ HI) as Hcl.
      unfold sys_rel, sys_step, step_dispatcher in Hs. simpl in Hs.
      destruct (pc u); try discriminate. rewrite Hcl in Hs. simpl in Hs. guards.
      rewrite Hm in Hits. pose proof iterations_min. lia.
Qed.

(** Accepted, and overflowing at the first growth tick. *)
Definition huge : ScriptParams :=
  mkScriptParams "http://x" "script" "id" 10 1 (float_lit (10 ^ 30) 1) (float_lit 1 1) 30 40.

Lemma dispatch_overflow_stops_witness :
  ∃ s t, exec huge [GrowTick; DGrow] (mkSys Selecting 30 3 0 true 0 false false false false false
           [new_worker] [] 0) = Some s ∧
    exec huge [Tick; DTick; DSendEnd] s = Some t ∧
    requestsPerSecond t = min_int64 ∧ countb is_send [Tick; DTick; DSendEnd] = 0.
Proof.
  do 2 eexists. split; [vm_compute; reflexivity|]. split; [vm_compute; reflexivity|].
  eapply (@dispatch_overflow_stops real_clock huge _ [GrowTick; DGrow]);
    [split; [by vm_compute|repeat split; by vm_compute]|vm_compute; reflexivity
    |apply exec_run; vm_compute; reflexivity|by vm_compute|apply exec_run; vm_compute; reflexivity].
Defined.

(** C4: after [runScript] has returned (halted, or out of time) no worker begins, finishes or
    fails a script execution and nothing is sent to them any more, in any schedule: a worker
    that starts late leaves without running. *)
Theorem returned_quiet {clk : Clock} p s0 ls0 s ls t :
  runScript_start p = Ok s0 → run (sys_rel p) s0 ls0 s → pc s = Returned →
  run (sys_rel p) s ls t →
  pc t = Returned ∧
  Forall (fun l => is_begin l = false ∧ is_send l = false ∧
                   ∀ i, l ≠ WFinish i ∧ l ≠ WFail i) ls.
Proof.
  intros H0 Hr0 Hpc Hr. pose proof (reachable_inv _ _ _ _ H0 Hr0) as HI. clear Hr0.
  induction Hr as [|s l t ls u Hs Hr IH]; [done|].
  destruct (returned_step _ _ _ _ HI Hpc Hs) as (Hpc' & ? & ? & ?).
  destruct IH as [? ?]; [done|by eapply sys_rel_inv|]. split; [done|]. by constructor.
Qed.

Definition late_schedule : list label :=
  [WStart 0; Tick; DTick; DSend; DSend; DSendEnd; HaltClose; DHalt; DClose; DClose; DClose;
   WSeeDone 0; DWaitGroup].

Lemma returned_quiet_witness :
  ∃ s t, exec demo late_schedule demo_start = Some s ∧
    exec demo [WStart 1; WJob 1; WSkip 1] s = Some t ∧ pc t = Returned ∧
    Forall (fun l => is_begin l = false ∧ is_send l = false ∧
                     ∀ i, l ≠ WFinish i ∧ l ≠ WFail i) [WStart 1; WJob 1; WSkip 1].
Proof.
  do 2 eexists. split; [vm_compute; reflexivity|]. split; [vm_compute; reflexivity|].
  eapply (@returned_quiet real_clock demo demo_start late_schedule);
    [vm_compute; reflexivity|apply exec_run; vm_compute; reflexivity|by vm_compute
    |apply exec_run; vm_compute; reflexivity].
Defined.

Definition env_free (l : label) : Prop := is_env l = false.



(** [runScript] and the validation disagree on [TimeBetweenGrowth]: a value in [0.1, 1)
    passes [verifyCommand] but truncates to a zero interval, on which the real clock's ticker
    panics; the mock clock of the tests does not. From 1 (up to 2^31) both start. *)
Theorem runScript_start_ticker p :
  accepted p → fle (TimeBetweenGrowth p) ftwo31 = true →
  @runScript_start real_clock p =
    (if flt (TimeBetweenGrowth p) fone
     then Panic "non-positive interval for NewTicker"
     else @runScript_start mock_clock p) ∧
  is_ok (@runScript_start mock_clock p) = true.
Proof.
  intros Hp Hle. destruct (accepted_bounds p Hp) as (_ & ? & [? _] & _).
  destruct Hp as [(_ & _ & Hge)%verifyCommand_None (_ & _ & _ & _ & _ & Hv)].
  unfold runScript_start.
  assert ((MaxRequestsPerSecond p <? 0) = false) as -> by lia. simpl.
  change (real_Ticker tickTimer) with (@Ok unit tt). simpl. split; [|done].
  destruct (flt (TimeBetweenGrowth p) fone) eqn:Ef.
  - unfold growth_interval. by rewrite (below_one_trunc _ Hv Hge Ef).
  - pose proof (above_one_trunc _ Hv Ef Hle) as Hi. unfold real_Ticker, growth_interval.
    rewrite int64_id; [|unfold is_int64, Second; lia].
    assert ((Second * int_of_float (TimeBetweenGrowth p) <=? 0) = false) as ->
      by (unfold Second; lia). done.
Qed.

Definition half_second : ScriptParams :=
  mkScriptParams "http://x" "script" "id" 10 1 (float_lit 3 2) (float_lit 1 2) 30 40.

Lemma runScript_start_ticker_witness :
  verifyCommand half_second = None ∧
  @runScript_start real_clock half_second =
    (if flt (TimeBetweenGrowth half_second) fone
     then Panic "non-positive interval for NewTicker"
     else @runScript_start mock_clock half_second) ∧
  is_ok (@runScript_start mock_clock half_second) = true.
Proof.
  split; [by vm_compute|]. apply runScript_start_ticker; [|by vm_compute].
  split; [by vm_compute|repeat split; by vm_compute].
Defined.
