(* ===== verification/Metrics.v ===== *)
(** * Batches of points and the metrics of a worker

    [client.BatchPoints] (Godeps .../client/v2/client.go), the [MetricsGatherer] of
    executor/controller/metrics_gatherer.go, and the calls of the engine's
    [MetricReporter] interface that it receives. *)
From Stdlib Require Import ZArith Lia Ascii.
From stdpp Require Import base option list strings gmap.
From S2P Require Import Prelude GoNum GoFmt Strconv LineProtocol LineFacts LineScan LineBody.

(** ** Batches *)

Record BatchPointsConfig := mkBatchPointsConfig {
  c_Precision : string; c_Database : string; c_RetentionPolicy : string; c_WriteConsistency : string
}.

Record BatchPoints := mkBatchPoints {
  Points : list point;
  Database : string;
  Precision : string;
  RetentionPolicy : string;
  WriteConsistency : string
}.

Definition duration_units : list string := ["ns"; "us"; "µs"; "μs"; "ms"; "s"; "m"; "h"]%string.

Fixpoint take_unit (s : bytes) : bytes * bytes :=
  match s with
  | c :: r => if is_digit c || bool_decide (c = "."%char) then ([], s)
              else let '(u, r) := take_unit r in (c :: u, r)
  | [] => ([], [])
  end.

(** Whether [time.ParseDuration] accepts the text after a leading digit, up to overflow:
    numbers, each followed by a unit. *)
Fixpoint duration_ok (fuel : nat) (s : bytes) : bool :=
  match fuel with
  | O => false
  | S fuel =>
      let '(_, s) := take_digits s in
      let '(_, s) := match s with "."%char :: s => take_digits s | _ => ([], s) end in
      let '(u, s) := take_unit s in
      bool_decide (to_string u ∈ duration_units) &&
      match s with [] => true | c :: _ => (is_digit c || bool_decide (c = "."%char)) && duration_ok fuel s end
  end.

Definition NewBatchPoints (c : BatchPointsConfig) : outcome BatchPoints :=
  let precision := if bool_decide (c_Precision c = ""%string) then "ns"%string else c_Precision c in
  let text := ("1" +:+ precision)%string in
  if duration_ok (S (String.length text)) (to_bytes text)
  then Ok (mkBatchPoints [] (c_Database c) precision (c_RetentionPolicy c) (c_WriteConsistency c))
  else Err (Errorf ("time: invalid duration " +:+ text)).

Definition AddPoint (p : point) (bp : BatchPoints) : BatchPoints :=
  mkBatchPoints (Points bp ++ [p]) (Database bp) (Precision bp) (RetentionPolicy bp) (WriteConsistency bp).

Definition SetDatabase (db : string) (bp : BatchPoints) : BatchPoints :=
  mkBatchPoints (Points bp) db (Precision bp) (RetentionPolicy bp) (WriteConsistency bp).

Definition empty_config : BatchPointsConfig := mkBatchPointsConfig "" "" "" "".
Definition empty_batch : BatchPoints := mkBatchPoints [] "" "ns" "" "".

Lemma NewBatchPoints_empty : NewBatchPoints empty_config = Ok empty_batch.
Proof. by vm_compute. Qed.

(** ** The calls of [MetricReporter] *)

Inductive metric_call :=
  | IncrScriptExecution
  | IncrStepExecution (step : string) (dur : Z)
  | IncrStepError (step : string)
  | IncrHTTPGet (url : bytes) (code : Z) (dur : Z)
  | IncrHTTPPost (url : bytes) (code : Z) (dur : Z)
  | IncrHTTPError (url : bytes)
  | IncrLogInfo (msg : field_value)
  | IncrLogFatal (msg : field_value)
  | AddLuaError (err : error).

(** An implementation of the interface; [now] is what [time.Now()] returns. *)
Class MetricReporter (R : Type) := report : Z → metric_call → R → R.

(** [nullMetric] of executor/engine/engine.go. *)
#[export] Instance nullMetric : MetricReporter unit := fun _ _ _ => tt.

(** ** The gatherer *)

Record MetricsGatherer := mkMetricsGatherer {
  g_BatchPoints : BatchPoints;
  g_ScriptId : string;
  g_DropletId : Z;
  g_WorkerId : Z;
  g_TestId : Z
}.

Definition NewMetricsGatherer (scriptId : string) (dropletId workerId : Z) : outcome MetricsGatherer :=
  bps ← NewBatchPoints empty_config;
  Ok (mkMetricsGatherer bps scriptId dropletId workerId 0).

Definition set_batch (bps : BatchPoints) (m : MetricsGatherer) : MetricsGatherer :=
  mkMetricsGatherer bps (g_ScriptId m) (g_DropletId m) (g_WorkerId m) (g_TestId m).

Definition set_TestId (t : Z) (m : MetricsGatherer) : MetricsGatherer :=
  mkMetricsGatherer (g_BatchPoints m) (g_ScriptId m) (g_DropletId m) (g_WorkerId m) t.

(** The batch so far, and the gatherer with a fresh one. *)
Definition ClearBatchPoints (m : MetricsGatherer) : outcome (BatchPoints * MetricsGatherer) :=
  newBps ← NewBatchPoints empty_config;
  Ok (g_BatchPoints m, set_batch newBps m).

Definition base_fields (m : MetricsGatherer) : Fields :=
  {[ "serverId"%string := FInt Tint (g_DropletId m);
     "threadId"%string := FInt Tint32 (g_WorkerId m);
     "testId"%string := FInt Tint (g_TestId m);
     "id"%string := FString (to_bytes (g_ScriptId m)) ]}.

(** The measurement and the fields one call adds. *)
Definition call_table (c : metric_call) : string :=
  match c with
  | IncrScriptExecution => "ExecutionExecutionTable"
  | IncrStepExecution _ _ => "StepExecutionTable"
  | IncrStepError _ => "StepErrorTable"
  | IncrHTTPGet _ _ _ => "GetRequestTable"
  | IncrHTTPPost _ _ _ => "PostRequestTable"
  | IncrHTTPError _ => "ErrorRequestTable"
  | IncrLogInfo _ | IncrLogFatal _ => "LogTable"
  | AddLuaError _ => "LuaErrorTable"
  end.

Definition logMsg_fields (msg : field_value) (level : string) : Fields :=
  {[ "msg"%string := msg; "level"%string := FString (to_bytes level) ]}.

Definition call_fields (c : metric_call) : Fields :=
  match c with
  | IncrScriptExecution => ∅
  | IncrStepExecution step dur =>
      {[ "duration_ns"%string := FInt Tint64 dur; "step"%string := FString (to_bytes step) ]}
  | IncrStepError step => {[ "step"%string := FString (to_bytes step) ]}
  | IncrHTTPGet url code dur | IncrHTTPPost url code dur =>
      {[ "url"%string := FString url; "code"%string := FInt Tint code;
         "duration_ns"%string := FInt Tint64 dur ]}
  | IncrHTTPError url => {[ "url"%string := FString url ]}
  | IncrLogInfo msg => logMsg_fields msg "info"
  | IncrLogFatal msg => logMsg_fields msg "fatal"
  | AddLuaError err => {[ "error"%string := FString (to_bytes (Error err)) ]}
  end.

Definition call_point (now : Z) (c : metric_call) (m : MetricsGatherer) : point :=
  NewPoint (call_table c) ∅ (call_fields c ∪ base_fields m) (Some now).

(** Each method: lock, [AddPoint], unlock. *)
#[export] Instance gather : MetricReporter MetricsGatherer := fun now c m =>
  set_batch (AddPoint (call_point now c m) (g_BatchPoints m)) m.

Example IncrHTTPGet_line :
  PrecisionString "ns" (call_point 5 (IncrHTTPGet (to_bytes "http://h/") 200 70)
    (mkMetricsGatherer empty_batch "s" 1 2 3)) =
  to_bytes "GetRequestTable code=200i,duration_ns=70i,id=" ++ dquote :: to_bytes "s" ++ dquote ::
  to_bytes ",serverId=1i,testId=3i,threadId=2i,url=" ++ dquote :: to_bytes "http://h/" ++ dquote ::
  to_bytes " 5".
Proof. by vm_compute. Qed.

(** ** The lines of a gatherer *)

(** Every string of the call is readable, or the message of a log call is nil. *)
Definition call_ok (c : metric_call) : Prop := map_Forall (fun _ v => value_or_nil v = true) (call_fields c).
Definition gatherer_ok (m : MetricsGatherer) : Prop := value_ok (FString (to_bytes (g_ScriptId m))) = true.

Definition call_nil (c : metric_call) : bool :=
  match c with IncrLogInfo FNil | IncrLogFatal FNil => true | _ => false end.

Lemma base_fields_ok m : gatherer_ok m →
  map_Forall (fun k v => ident k = true ∧ value_ok v = true) (base_fields m).
Proof.
  intros Hm. unfold base_fields.
  repeat (apply map_Forall_insert_2; [by split|]). apply map_Forall_empty.
Qed.

Lemma call_fields_ident c : map_Forall (fun k _ => ident k = true) (call_fields c).
Proof.
  destruct c; simpl; unfold logMsg_fields;
    repeat (apply map_Forall_insert_2; [done|]); apply map_Forall_empty.
Qed.

Lemma call_fields_nil c : no_nil (call_fields c) ↔ call_nil c = false.
Proof.
  unfold no_nil. split.
  - intros H. destruct c as [| | | | | |[]|[]|]; try done; by specialize (H "msg"%string FNil eq_refl).
  - intros H. destruct c as [| | | | | |msg|msg|]; simpl; unfold logMsg_fields;
      repeat (apply map_Forall_insert_2; [first [done|by destruct msg]|]);
      apply map_Forall_empty.
Qed.

Lemma call_line_point c m : call_ok c → gatherer_ok m → line_point (call_table c) (call_fields c ∪ base_fields m).
Proof.
  intros Hc Hm. split_and!; [by destruct c| |].
  - intros H. assert ((call_fields c ∪ base_fields m) !! "serverId"%string = None) as Hn by (by rewrite H).
    apply lookup_union_None in Hn as [_ Hn]. by vm_compute in Hn.
  - intros k v [Hk|[_ Hk]]%lookup_union_Some_raw.
    + split; [by apply (call_fields_ident c k v)|by apply (Hc k v)].
    + destruct (base_fields_ok m Hm k v Hk) as [? Hv]. split; [done|]. unfold value_or_nil. by rewrite Hv.
Qed.

Lemma call_no_nil c m : gatherer_ok m → no_nil (call_fields c ∪ base_fields m) ↔ call_nil c = false.
Proof.
  intros Hm. rewrite <- call_fields_nil. split.
  - intros H k v Hk. apply (H k v). by apply lookup_union_Some_l.
  - intros H k v [Hk|[_ Hk]]%lookup_union_Some_raw; [by apply (H k v)|].
    destruct (base_fields_ok m Hm k v Hk) as [_ Hv]. by destruct v.
Qed.
