(* ===== verification/Collect.v ===== *)
(** * Collecting the metrics of all workers (executor/controller/controller.go)

    [getBatchPoints] runs in every [sendData] goroutine and at the end of [stopWorkers],
    while the workers go on reporting.  Each report and each [ClearBatchPoints] holds
    the gatherer's mutex, so these are the atomic steps of a transition system; the
    sequential function is the run of one collector alone. *)
From Stdlib Require Import ZArith Lia.
From stdpp Require Import base option list strings gmap.
From S2P Require Import Prelude GoNum GoFmt Strconv LineProtocol Metrics.

(** ** The sequential function *)

(** The loop over [metricsList]: the batch and the gatherers after it. *)
Fixpoint collect (bps : BatchPoints) (ms : list MetricsGatherer) : outcome (BatchPoints * list MetricsGatherer) :=
  match ms with
  | [] => Ok (bps, [])
  | m :: ms =>
      '(subBps, m') ← ClearBatchPoints m;
      '(bps', ms') ← collect (foldl (fun b p => AddPoint p b) bps (Points subBps)) ms;
      Ok (bps', m' :: ms')
  end.

Definition getBatchPoints (metricsList : list MetricsGatherer) : outcome (BatchPoints * list MetricsGatherer) :=
  bps ← NewBatchPoints empty_config; collect bps metricsList.

(** ** Collectors among reporting workers *)

(** A collector: the index of its loop, its batch, whether it has returned. *)
Record collector := mkCollector { k_next : nat; k_bps : BatchPoints; k_done : bool }.

(** [reported] lists every point added to a gatherer so far, in order; it is read by no
    step. *)
Record csys := mkCsys {
  metricsList : list MetricsGatherer;
  collectors : list collector;
  reported : list point
}.

Inductive clabel :=
  | CTest (w : nat) (t : Z)                    (** worker [w] sets its [TestId] *)
  | CReport (w : nat) (now : Z) (c : metric_call)
  | CStart                                     (** a goroutine enters [getBatchPoints] *)
  | CTake (j : nat)                            (** collector [j] clears its next gatherer *)
  | CReturn (j : nat).                         (** its loop ends *)

Definition csys_step (l : clabel) (s : csys) : option csys :=
  match l with
  | CTest w t =>
      m ← metricsList s !! w;
      Some (mkCsys (<[w:=set_TestId t m]> (metricsList s)) (collectors s) (reported s))
  | CReport w now c =>
      m ← metricsList s !! w;
      Some (mkCsys (<[w:=report now c m]> (metricsList s)) (collectors s)
              (reported s ++ [call_point now c m]))
  | CStart =>
      match NewBatchPoints empty_config with
      | Ok bps => Some (mkCsys (metricsList s) (collectors s ++ [mkCollector 0 bps false]) (reported s))
      | _ => None
      end
  | CTake j =>
      k ← collectors s !! j;
      m ← metricsList s !! k_next k;
      if k_done k then None else
      match ClearBatchPoints m with
      | Ok (sub, m') =>
          Some (mkCsys (<[k_next k:=m']> (metricsList s))
                  (<[j:=mkCollector (S (k_next k)) (foldl (fun b p => AddPoint p b) (k_bps k) (Points sub)) false]>
                     (collectors s))
                  (reported s))
      | _ => None
      end
  | CReturn j =>
      k ← collectors s !! j;
      if k_done k || negb (bool_decide (k_next k = length (metricsList s))) then None
      else Some (mkCsys (metricsList s) (<[j:=mkCollector (k_next k) (k_bps k) true]> (collectors s)) (reported s))
  end.

Definition csys_rel (s : csys) (l : clabel) (t : csys) : Prop := csys_step l s = Some t.

Definition csys_start (ms : list MetricsGatherer) : csys := mkCsys ms [] [].

(** ** Facts *)

Lemma Points_foldl bps ps : Points (foldl (fun b p => AddPoint p b) bps ps) = Points bps ++ ps.
Proof.
  revert bps. induction ps as [|p ps IH]; intros bps; simpl; [by rewrite app_nil_r|].
  rewrite IH. cbn. by rewrite <- app_assoc.
Qed.

Lemma batch_foldl bps ps :
  foldl (fun b p => AddPoint p b) bps ps =
  mkBatchPoints (Points bps ++ ps) (Database bps) (Precision bps) (RetentionPolicy bps) (WriteConsistency bps).
Proof.
  revert bps. induction ps as [|p ps IH]; intros bps; simpl; [rewrite app_nil_r; by destruct bps|].
  rewrite IH. cbn. by rewrite <- app_assoc.
Qed.

Definition gathered (m : MetricsGatherer) : list point := Points (g_BatchPoints m).
Definition collected (k : collector) : list point := Points (k_bps k).

Definition clear (m : MetricsGatherer) : MetricsGatherer := set_batch empty_batch m.

Lemma ClearBatchPoints_ok m : ClearBatchPoints m = Ok (g_BatchPoints m, clear m).
Proof. unfold ClearBatchPoints. by rewrite NewBatchPoints_empty. Qed.

(** One collector alone: all the points, in order of worker, and every gatherer clear. *)
Lemma collect_ok bps ms :
  collect bps ms = Ok (foldl (fun b p => AddPoint p b) bps (concat (map gathered ms)), map clear ms).
Proof.
  revert bps. induction ms as [|m ms IH]; intros bps; [done|].
  cbn [collect]. rewrite ClearBatchPoints_ok. cbn [mbind outcome_bind]. rewrite IH.
  cbn [mbind outcome_bind map concat]. by rewrite foldl_app.
Qed.

Lemma getBatchPoints_ok ms :
  getBatchPoints ms = Ok (mkBatchPoints (concat (map gathered ms)) "" "ns" "" "", map clear ms).
Proof.
  unfold getBatchPoints. rewrite NewBatchPoints_empty. cbn [mbind outcome_bind].
  by rewrite collect_ok, batch_foldl.
Qed.

(** The points of a list of holders after one of them changes. *)
Lemma concat_insert {A} (f : A → list point) l i x y ps :
  l !! i = Some x → f y ≡ₚ f x ++ ps → concat (map f (<[i:=y]> l)) ≡ₚ concat (map f l) ++ ps.
Proof.
  revert i. induction l as [|z l IH]; intros [|i] Hx Hy; simplify_eq/=.
  - rewrite Hy, <- !app_assoc. f_equiv. apply Permutation_app_comm.
  - rewrite (IH i) by done. by rewrite app_assoc.
Qed.

Lemma concat_insert_out {A} (f : A → list point) l i x y :
  l !! i = Some x → f y = [] → concat (map f l) ≡ₚ f x ++ concat (map f (<[i:=y]> l)).
Proof.
  revert i. induction l as [|z l IH]; intros [|i] Hx Hy; simplify_eq/=; [by rewrite Hy|].
  rewrite (IH i) by done. rewrite !app_assoc. f_equiv. apply Permutation_app_comm.
Qed.

(** Every reported point is in one gatherer or in one collector's batch. *)
Definition cinv (s : csys) : Prop :=
  reported s ≡ₚ concat (map gathered (metricsList s)) ++ concat (map collected (collectors s)).

(** No collector passes the end of the list. *)
Definition cbound (s : csys) : Prop :=
  Forall (fun k => (k_next k ≤ length (metricsList s))%nat) (collectors s).

Lemma csys_step_length l s t : csys_step l s = Some t → length (metricsList t) = length (metricsList s).
Proof.
  destruct l; cbn [csys_step]; intros H; repeat (case_match || simplify_option_eq); by rewrite ?length_insert.
Qed.

Lemma cinv_step s l t : cinv s → csys_rel s l t → cinv t.
Proof.
  unfold cinv, csys_rel. intros Hi H. destruct l as [w x|w now c| |j|j]; cbn [csys_step] in H.
  - destruct (metricsList s !! w) as [m|] eqn:Hm; simplify_eq/=.
    rewrite (concat_insert gathered _ w m _ []) by (done || by rewrite app_nil_r). by rewrite app_nil_r.
  - destruct (metricsList s !! w) as [m|] eqn:Hm; simplify_eq/=.
    rewrite (concat_insert gathered _ w m _ [call_point now c m]) by done.
    rewrite Hi, <- !app_assoc. f_equiv. apply Permutation_app_comm.
  - rewrite NewBatchPoints_empty in H. simplify_eq/=.
    rewrite map_app, concat_app. simpl. by rewrite !app_nil_r.
  - destruct (collectors s !! j) as [k|] eqn:Hk; [|done]. cbn in H.
    destruct (metricsList s !! k_next k) as [m|] eqn:Hm; [|done]. cbn in H.
    destruct (k_done k); [done|]. rewrite ClearBatchPoints_ok in H. injection H as <-. cbn.
    rewrite (concat_insert collected _ j k _ (gathered m)) by (done || unfold collected; cbn; by rewrite Points_foldl).
    rewrite Hi, (concat_insert_out gathered _ (k_next k) m (clear m)) by done.
    rewrite <- app_assoc. rewrite (Permutation_app_comm (gathered m)). by rewrite <- app_assoc.
  - destruct (collectors s !! j) as [k|] eqn:Hk; [|done]. cbn in H.
    destruct (k_done k || _); [done|]. injection H as <-. cbn.
    rewrite (concat_insert collected _ j k _ []) by (done || by rewrite app_nil_r). by rewrite app_nil_r.
Qed.

Lemma cbound_step s l t : cbound s → csys_rel s l t → cbound t.
Proof.
  unfold cbound, csys_rel. intros Hb H. pose proof (csys_step_length _ _ _ H) as Hl. rewrite Hl.
  destruct l as [w x|w now c| |j|j]; cbn [csys_step] in H.
  - destruct (metricsList s !! w); by simplify_eq/=.
  - destruct (metricsList s !! w); by simplify_eq/=.
  - rewrite NewBatchPoints_empty in H. simplify_eq/=. apply Forall_app. split; [done|].
    constructor; [simpl; lia|done].
  - destruct (collectors s !! j) as [k|] eqn:Hk; [|done]. cbn in H.
    destruct (metricsList s !! k_next k) as [m|] eqn:Hm; [|done]. cbn in H.
    destruct (k_done k); [done|]. rewrite ClearBatchPoints_ok in H. injection H as <-. cbn in *.
    apply Forall_insert; [done|]. cbn. by apply lookup_lt_Some in Hm.
  - destruct (collectors s !! j) as [k|] eqn:Hk; [|done]. cbn in H.
    destruct (k_done k || _); [done|]. injection H as <-. cbn.
    apply Forall_insert; [done|]. cbn. rewrite Forall_forall in Hb. apply Hb. by eapply list_elem_of_lookup_2.
Qed.

Lemma cinv_reach ms ls s :
  Forall (fun m => gathered m = []) ms → run csys_rel (csys_start ms) ls s → cinv s ∧ cbound s.
Proof.
  intros Hms Hr.
  eapply (run_invariant csys_rel (fun s => cinv s ∧ cbound s)); [|exact Hr|].
  - intros x l y [H1 H2] Hs. split; [by eapply cinv_step|by eapply cbound_step].
  - split; [|constructor]. unfold cinv. simpl. rewrite app_nil_r.
    clear Hr. induction Hms as [|m ms Hm _ IH]; [done|]. simpl. by rewrite Hm.
Qed.
