(* ===== verification/Persist.v ===== *)
(** * Persisting batches (executor/controller/controller.go, executor/persister/)

    The [Persister] interface, the retry loop of [sendBatchPoints], and the persister
    that writes to InfluxDB through the client of Godeps .../client/v2/client.go.

    The network and the database behind it are a parameter, [httpDo]: what a request
    answers, threading their state.  [url.Parse] and the text [fmt.Errorf] makes of a
    format without operands are parameters too; no property depends on them. *)
From Stdlib Require Import ZArith Lia Ascii.
From stdpp Require Import base option list strings gmap.
From S2P Require Import Prelude GoNum GoFmt Strconv LineProtocol LineFacts LineScan LineBody Metrics Collect.

(** ** The interface *)

(** [Persist] may change the persister and the batch it is given. *)
Class Persister (P : Type) := Persist : P → BatchPoints → P * BatchPoints * outcome unit.

Definition maxRetries : Z := 10.

(** The loop of [sendBatchPoints]; [None] when the fuel runs out. *)
Fixpoint sendBatchPoints_loop {P} `{Persister P} (fuel : nat) (numTries : Z) (p : P) (bps : BatchPoints)
    : option (P * BatchPoints * outcome unit) :=
  match fuel with
  | O => None
  | S fuel =>
      let '(p, bps, err) := Persist p bps in
      match err with
      | Err e => if maxRetries <? numTries then Some (p, bps, Err e)
                 else sendBatchPoints_loop fuel (int64_of (numTries + 1)) p bps
      | _ => Some (p, bps, err)
      end
  end.

Definition sendBatchPoints {P} `{Persister P} (p : P) (bps : BatchPoints)
    : option (P * BatchPoints * outcome unit) :=
  sendBatchPoints_loop 12 0 p bps.

Definition is_err {A} (m : outcome A) : bool := match m with Err _ => true | _ => false end.

Section attempts.
Context {P : Type} `{Persister P}.

(** The state after [n] attempts, and how attempt [n] ends. *)
Fixpoint after (n : nat) (p : P) (bps : BatchPoints) : P * BatchPoints :=
  match n with
  | O => (p, bps)
  | S n => let '(p, bps, _) := Persist p bps in after n p bps
  end.

Definition attempt (n : nat) (p : P) (bps : BatchPoints) : outcome unit :=
  let '(p, bps) := after n p bps in snd (Persist p bps).

Lemma attempt_S n p bps :
  attempt (S n) p bps = attempt n (fst (fst (Persist p bps))) (snd (fst (Persist p bps))).
Proof. unfold attempt. simpl. by destruct (Persist p bps) as [[p' b'] e]. Qed.

Lemma after_S n p bps : after (S n) p bps = after n (fst (fst (Persist p bps))) (snd (fst (Persist p bps))).
Proof. simpl. by destruct (Persist p bps) as [[p' b'] e]. Qed.

(** The loop from attempt [t] on, with [k] more attempts to go: it ends with the first
    attempt that is no error, or with the last. *)
Lemma sendBatchPoints_loop_spec k t p bps :
  t + Z.of_nat k = 12 → 0 ≤ t → (0 < k)%nat →
  ∃ n, (n < k)%nat ∧ (∀ i, (i < n)%nat → is_err (attempt i p bps) = true) ∧
    (is_err (attempt n p bps) = false ∨ n = (k - 1)%nat) ∧
    sendBatchPoints_loop k t p bps = Some (after (S n) p bps, attempt n p bps).
Proof.
  revert t p bps. induction k as [|k IH]; intros t p bps Ht H0 Hk; [lia|].
  cbn [sendBatchPoints_loop]. destruct (Persist p bps) as [[p' b'] err] eqn:E.
  assert (attempt 0 p bps = err) as He by (unfold attempt; simpl; by rewrite E).
  assert (∀ i, attempt (S i) p bps = attempt i p' b') as HS by (intros i; by rewrite attempt_S, E).
  assert (∀ i, after (S i) p bps = after i p' b') as HA by (intros i; by rewrite after_S, E).
  destruct (is_err err) eqn:Her.
  - destruct err as [|e|]; try done.
    destruct (Z.ltb_spec maxRetries t) as [Hmax|Hmax]; unfold maxRetries in Hmax.
    { assert (k = 0)%nat as -> by lia. exists 0%nat. rewrite HA, He.
      split_and!; [lia|lia|by right|done]. }
    rewrite int64_id by (unfold is_int64, min_int64, max_int64; lia).
    destruct (IH (t + 1) p' b' ltac:(lia) ltac:(lia) ltac:(lia)) as (n & Hn & Hall & Hend & ->).
    exists (S n). rewrite HA, HS. split_and!; [lia| |destruct Hend; [by left|right; lia]|done].
    intros [|i] Hi; [by rewrite He|]. rewrite HS. apply Hall. lia.
  - exists 0%nat. rewrite HA, He. split_and!; [lia|lia|by left|by destruct err].
Qed.
End attempts.

(** ** The client *)

Record URL := mkURL { u_Scheme : string; u_Host : string; u_Path : string; u_Query : gmap string string }.

Record Config := mkConfig {
  cfg_URL : URL; cfg_Username : string; cfg_Password : string; cfg_UserAgent : string;
  cfg_Timeout : Z; cfg_InsecureSkipVerify : bool
}.

Record client := mkClient {
  cl_url : URL; cl_username : string; cl_password : string; cl_useragent : string;
  cl_Timeout : Z; cl_InsecureSkipVerify : bool
}.

Definition NewClient (conf : Config) : client :=
  mkClient (cfg_URL conf) (cfg_Username conf) (cfg_Password conf)
    (if bool_decide (cfg_UserAgent conf = ""%string) then "InfluxDBClient" else cfg_UserAgent conf)
    (cfg_Timeout conf) (cfg_InsecureSkipVerify conf).

Record http_request := mkRequest {
  r_method : string; r_url : URL; r_body : bytes; r_useragent : string; r_auth : option (string * string)
}.

(** The rows of a query's answer; a value is the text [%v] prints for it. *)
Record Row := mkRow { Values : list (list string) }.
Record Result := mkResult { Series : list Row; res_Err : option error }.
Record Response := mkResponse { Results : list Result; resp_Err : option error }.

Definition Response_Error (r : Response) : option error :=
  match resp_Err r with
  | Some e => Some e
  | None => foldr (fun res acc => match res_Err res with Some e => Some e | None => acc end) None (Results r)
  end.

Record Query := mkQuery { Command : string; q_Database : string; q_Precision : string }.

Section network.
Context {N : Type} (httpDo : http_request → N → N * outcome (Z * bytes)).
Context (url_Parse : string → outcome URL).
Context (fmt_no_operands : bytes → string).
(** [json.Decoder.Decode] into a [Response]: the error, or the value. *)
Context (decode_Response : bytes → outcome Response).

Definition auth_of (c : client) : option (string * string) :=
  if bool_decide (cl_username c = ""%string) then None else Some (cl_username c, cl_password c).

Definition set_url (u : URL) (c : client) : client :=
  mkClient u (cl_username c) (cl_password c) (cl_useragent c) (cl_Timeout c) (cl_InsecureSkipVerify c).

(** [client.Write]: the client's [URL] is shared, its path stays set. *)
Definition Write (c : client) (bp : BatchPoints) (n : N) : client * N * outcome unit :=
  let u := mkURL (u_Scheme (cl_url c)) (u_Host (cl_url c)) "write" (u_Query (cl_url c)) in
  let params := <["db":=Database bp]> (<["rp":=RetentionPolicy bp]> (<["precision":=Precision bp]>
                  (<["consistency":=WriteConsistency bp]> (u_Query u))))%string in
  let req := mkRequest "POST" (mkURL (u_Scheme u) (u_Host u) (u_Path u) params)
               (write_body (Precision bp) (Points bp)) (cl_useragent c) (auth_of c) in
  let '(n, resp) := httpDo req n in
  (set_url u c, n,
   '(code, body) ← resp;
   if negb (code =? 204) && negb (code =? 200) then Err (Errorf (fmt_no_operands body)) else Ok tt).

(** [client.Query]. *)
Definition client_Query (c : client) (q : Query) (n : N) : client * N * outcome Response :=
  let values := <["db":=q_Database q]> (<["q":=Command q]> (u_Query (cl_url c)))%string in
  let values := if bool_decide (q_Precision q = ""%string) then values
                else <["epoch":=q_Precision q]>%string values in
  let u := mkURL (u_Scheme (cl_url c)) (u_Host (cl_url c)) "query" values in
  let '(n, resp) := httpDo (mkRequest "GET" u [] (cl_useragent c) (auth_of c)) n in
  (set_url u c, n,
   '(code, body) ← resp;
   match decode_Response body with
   | Err e =>
       if bool_decide (Error e = "EOF"%string) && negb (code =? 200)
       then Err (Errorf ("received status code " +:+ fmt_d code +:+ " from server"))
       else Err e
   | Panic m => Panic m
   | Ok r =>
       if negb (code =? 200) && bool_decide (Response_Error r = None)
       then Err (Errorf ("received status code " +:+ fmt_d code +:+ " from server"))
       else Ok r
   end).

(** ** The persister *)

Record InfluxPersister := mkInfluxPersister { ip_client : option client; ip_database : string }.

Definition parseUrl (url : string) (useSsl : bool) : string :=
  let prefix := (if useSsl then "https://" else "http://")%string in
  if String.prefix prefix url then url else (prefix +:+ url)%string.

Definition SetupPersister (influxIP user pass database : string) (useSsl : bool) (f : InfluxPersister)
    : outcome InfluxPersister :=
  url ← url_Parse (parseUrl influxIP useSsl);
  Ok (mkInfluxPersister (Some (NewClient (mkConfig url user pass "" 0 useSsl))) database).

(** [Persist]; before [SetupPersister] the client is nil and [Write] panics. *)
#[export] Instance InfluxPersister_Persist : Persister (InfluxPersister * N) := fun p bps =>
  let '(f, n) := p in
  let bps := SetDatabase (ip_database f) bps in
  match ip_client f with
  | Some c => let '(c, n, err) := Write c bps n in (mkInfluxPersister (Some c) (ip_database f), n, bps, err)
  | None => (f, n, bps, Panic "invalid memory address or nil pointer dereference")
  end.

Definition query (cmd : string) (f : InfluxPersister) (n : N) : InfluxPersister * N * outcome Response :=
  match ip_client f with
  | None => (f, n, Panic "invalid memory address or nil pointer dereference")
  | Some c =>
      let '(c, n, r) := client_Query c (mkQuery cmd (ip_database f) "") n in
      (mkInfluxPersister (Some c) (ip_database f), n, r)
  end.

(** What [CountOccurrences] makes of the answer. *)
Definition count_of (result : Response) : outcome Z :=
  match Response_Error result with
  | Some e => Err e
  | None =>
      match Results result with
      | [] => Err (Errorf "no rows found")
      | res :: _ =>
          match Series res with
          | row :: _ =>
              match Values row with
              | (_ :: v :: _) :: _ =>
                  match ParseInt (to_bytes v) with
                  | Err e => Err (Errorf ("what I got back was not an int: " +:+ Error e))
                  | r => r
                  end
              | _ => Panic "index out of range"
              end
          | [] => Panic "index out of range"
          end
      end
  end.

Definition CountOccurrences (testID tableName : string) (f : InfluxPersister) (n : N)
    : InfluxPersister * N * outcome Z :=
  let '(f, n, r) := query ("select count(id) from " +:+ tableName +:+ " where id='" +:+ testID +:+ "'") f n in
  (f, n, r ≫= count_of).

Definition DropData (tableName : string) (f : InfluxPersister) (n : N) : InfluxPersister * N * outcome unit :=
  let '(f, n, r) := query ("drop series " +:+ tableName) f n in (f, n, _ ← r; Ok tt).
End network.

(** * Properties of collecting and persisting metrics *)

(** C8: no interleaving of reporting workers and collectors loses or duplicates a point:
    once the collectors so far have returned, what they return and what the final
    [getBatchPoints] returns are together exactly the points reported. *)
Theorem collect_delivers (ms : list MetricsGatherer) (ls : list clabel) (s : csys)
    (final : BatchPoints) (ms' : list MetricsGatherer) :
  Forall (fun m => gathered m = []) ms →
  run csys_rel (csys_start ms) ls s →
  getBatchPoints (metricsList s) = Ok (final, ms') →
  reported s ≡ₚ concat (map collected (collectors s)) ++ Points final ∧
  Forall (fun m => gathered m = []) ms' ∧ Precision final = "ns"%string.
Proof.
  intros Hms Hr Hf. destruct (cinv_reach _ _ _ Hms Hr) as [Hi _].
  rewrite getBatchPoints_ok in Hf. injection Hf as <- <-. split_and!; [|by apply Forall_fmap, Forall_true|done].
  etrans; [exact Hi|]. apply Permutation_app_comm.
Qed.

Definition two_gatherers : list MetricsGatherer :=
  [mkMetricsGatherer empty_batch "s" 1 0 0; mkMetricsGatherer empty_batch "s" 1 1 0].

(** A flush takes the first gatherer, both workers report, it takes the second. *)
Definition flush_schedule : list clabel :=
  [CReport 0 5 IncrScriptExecution; CStart; CTake 0; CReport 0 6 (IncrStepError "a");
   CReport 1 7 (IncrStepError "b"); CTake 0; CReturn 0].

Fixpoint cexec (ls : list clabel) (s : csys) : option csys :=
  match ls with [] => Some s | l :: ls => csys_step l s ≫= cexec ls end.

Lemma cexec_run ls s t : cexec ls s = Some t → run csys_rel s ls t.
Proof.
  revert s. induction ls as [|l ls IH]; simpl; intros s H; [injection H as ->; constructor|].
  apply bind_Some in H as (u & Hu & Ht). econstructor; [exact Hu|by apply IH].
Qed.

Lemma collect_delivers_witness :
  ∃ s final ms', cexec flush_schedule (csys_start two_gatherers) = Some s ∧
    getBatchPoints (metricsList s) = Ok (final, ms') ∧ length (Points final) = 1%nat ∧
    length (reported s) = 3%nat ∧
    reported s ≡ₚ concat (map collected (collectors s)) ++ Points final.
Proof.
  do 3 eexists. split; [by vm_compute|]. split; [by vm_compute|]. split; [by vm_compute|].
  split; [by vm_compute|].
  eapply (collect_delivers two_gatherers flush_schedule); [by repeat constructor| |by vm_compute].
  apply cexec_run. by vm_compute.
Defined.

(** The retry loop always ends: it makes attempts until one does not return an error,
    at most twelve of them ([maxRetries] is 10), and returns how the last one ended. *)
Theorem sendBatchPoints_attempts {P : Type} `{Persister P} (p : P) (bps : BatchPoints) :
  ∃ n, (n < 12)%nat ∧
    (∀ i, (i < n)%nat → is_err (attempt i p bps) = true) ∧
    (is_err (attempt n p bps) = false ∨ n = 11%nat) ∧
    sendBatchPoints p bps = Some (after (S n) p bps, attempt n p bps).
Proof. unfold sendBatchPoints. apply (sendBatchPoints_loop_spec 12 0); lia. Qed.

(** ** Delivery to InfluxDB *)

Section delivery.
Context {N : Type} (httpDo : http_request → N → N * outcome (Z * bytes)).
Context (fmt_no_operands : bytes → string).
Context (stored : N → list point).

(** A receiver that parses the body of a write with this library: it stores the points
    and answers 204, or refuses the request with 400. *)
Definition receiver : Prop :=
  ∀ req n, r_method req = "POST"%string → u_Path (r_url req) = "write"%string →
  match ParsePointsWithPrecision None (default "n"%string (u_Query (r_url req) !! "precision"%string)) (r_body req) with
  | Some (Ok pts) => ∃ n', httpDo req n = (n', Ok (204, [])) ∧ stored n' = stored n ++ pts
  | _ => ∃ n' body, httpDo req n = (n', Ok (400, body)) ∧ stored n' = stored n
  end.

#[local] Instance persister : Persister (InfluxPersister * N) := InfluxPersister_Persist httpDo fmt_no_operands.

(** A connected persister, and a batch of these points in nanoseconds. *)
Definition ready (ps : list point) (x : (InfluxPersister * N) * BatchPoints) : Prop :=
  is_Some (ip_client x.1.1) ∧ Points x.2 = ps ∧ Precision x.2 = "ns"%string.

Lemma write_precision db rp p c (m : gmap string string) :
  (<["db":=db]> (<["rp":=rp]> (<["precision":=p]> (<["consistency":=c]> m))))%string !! "precision"%string = Some p.
Proof. rewrite !lookup_insert_ne by done. apply lookup_insert_eq. Qed.

Lemma persist_parsed ps p bps pts :
  receiver → ready ps (p, bps) → ParsePointsWithPrecision None "ns" (write_body "ns" ps) = Some (Ok pts) →
  (Persist p bps).2 = Ok tt ∧ stored (Persist p bps).1.1.2 = stored p.2 ++ pts.
Proof.
  intros Hr ([c Hc] & Hps & Hprec) Hp. destruct p as [f n]. simpl in *.
  unfold Persist, persister, InfluxPersister_Persist, Write. rewrite Hc. cbn -[write_body]. rewrite Hps, Hprec.
  match goal with |- context [httpDo ?r n] => pose proof (Hr r n eq_refl eq_refl) as H end.
  cbn [r_url r_body u_Query] in H. rewrite write_precision in H. cbn [from_option id] in H. rewrite Hp in H. destruct H as (n' & -> & Hs). done.
Qed.

Lemma persist_refused ps p bps e :
  receiver → ready ps (p, bps) → ParsePointsWithPrecision None "ns" (write_body "ns" ps) = Some (Err e) →
  is_err (Persist p bps).2 = true ∧ ready ps (Persist p bps).1 ∧ stored (Persist p bps).1.1.2 = stored p.2.
Proof.
  intros Hr ([c Hc] & Hps & Hprec) Hp. destruct p as [f n]. simpl in *.
  unfold Persist, persister, InfluxPersister_Persist, Write. rewrite Hc. cbn -[write_body]. rewrite Hps, Hprec.
  match goal with |- context [httpDo ?r n] => pose proof (Hr r n eq_refl eq_refl) as H end.
  cbn [r_url r_body u_Query] in H. rewrite write_precision in H. cbn [from_option id] in H. rewrite Hp in H. destruct H as (n' & body & -> & Hs).
  split_and!; [done| |done]. by split_and!.
Qed.

Lemma refused_all ps p bps e k :
  receiver → ready ps (p, bps) → ParsePointsWithPrecision None "ns" (write_body "ns" ps) = Some (Err e) →
  is_err (attempt k p bps) = true ∧ ready ps (after k p bps) ∧ stored (after k p bps).1.2 = stored p.2.
Proof.
  intros Hr Hp He. revert p bps Hp. induction k as [|k IH]; intros p bps Hp.
  - split_and!; [|done|done]. by apply (persist_refused ps p bps e).
  - destruct (persist_refused ps p bps e Hr Hp He) as (_ & Hp' & Hs).
    rewrite attempt_S, after_S. destruct (Persist p bps) as [[p' b'] err]. simpl in *.
    destruct (IH p' b' Hp') as (H1 & H2 & H3). by rewrite H3.
Qed.

(** The points of reports: when, what and on which gatherer. *)
Definition report_of (r : Z * metric_call * MetricsGatherer) : sample :=
  let '(now, c, m) := r in mkSample (call_table c) (call_fields c ∪ base_fields m) now.
Definition report_nil (r : Z * metric_call * MetricsGatherer) : bool := call_nil r.1.2.
Definition report_ok (r : Z * metric_call * MetricsGatherer) : Prop :=
  call_ok r.1.2 ∧ gatherer_ok r.2 ∧ is_int64 r.1.1.

Lemma report_parse rs :
  Forall report_ok rs →
  (Forall (fun r => report_nil r = false) rs →
   ParsePointsWithPrecision None "ns" (write_body "ns" (map (fun r => point_of (report_of r)) rs)) =
   Some (Ok (map (fun r => point_of (report_of r)) rs))) ∧
  (Exists (fun r => report_nil r = true) rs →
   ∃ e, ParsePointsWithPrecision None "ns" (write_body "ns" (map (fun r => point_of (report_of r)) rs)) = Some (Err e)).
Proof.
  intros Hok. rewrite <- (map_map report_of point_of).
  rewrite ParsePoints_body; [|apply Forall_fmap; eapply Forall_impl; [exact Hok|]|done].
  2: { intros [[now c] m] (Hc & Hm & Hn). split; [by apply call_line_point|done]. }
  assert (∀ r, report_ok r → no_nil (s_fields (report_of r)) ↔ report_nil r = false) as Hnil.
  { intros [[now c] m] (_ & Hm & _). by apply call_no_nil. }
  split; intros H.
  - rewrite parsed_ok; [done|]. apply Forall_fmap. apply Forall_forall. intros r Hin.
    rewrite Forall_forall in Hok, H. apply Hnil; auto.
  - destruct (parsed_err [] (map report_of rs)) as [e ->]; [|by eexists].
    apply Exists_fmap. apply Exists_exists in H as (r & Hin & Hr). apply Exists_exists. exists r. split; [done|].
    rewrite Forall_forall in Hok. intros Hn%Hnil; [congruence|by apply Hok].
Qed.

End delivery.

(** A receiver. *)
Definition lib_server (req : http_request) (db : list point) : list point * outcome (Z * bytes) :=
  match ParsePointsWithPrecision None (default "n"%string (u_Query (r_url req) !! "precision"%string)) (r_body req) with
  | Some (Ok pts) => (db ++ pts, Ok (204, []))
  | _ => (db, Ok (400, to_bytes "unable to parse"))
  end.

Lemma lib_server_receiver : receiver lib_server id.
Proof.
  intros req n _ _. unfold lib_server.
  destruct (ParsePointsWithPrecision _ _ _) as [[pts| |]|]; [|by eexists _, _..].
  eexists. done.
Qed.

Definition a_gatherer : MetricsGatherer := mkMetricsGatherer empty_batch "script-1" 7 3 2.
Definition a_client : client := NewClient (mkConfig (mkURL "http" "influx:8086" "" ∅) "" "" "" 0 false).
Definition batch_of (rs : list (Z * metric_call * MetricsGatherer)) : BatchPoints :=
  mkBatchPoints (map (fun '(now, c, m) => call_point now c m) rs) "" "ns" "" "".
Definition good_reports : list (Z * metric_call * MetricsGatherer) :=
  [(5, IncrScriptExecution, a_gatherer); (6, IncrLogInfo (FString (to_bytes "hi")), a_gatherer)].
Definition nil_reports : list (Z * metric_call * MetricsGatherer) :=
  [(5, IncrScriptExecution, a_gatherer); (6, IncrLogInfo FNil, a_gatherer)].

