(* ===== verification/Engine.v ===== *)
(** * The script engine (executor/engine/)

    A [LuaProgram] and the functions it offers to scripts.  The Lua VM is a parameter,
    the class [LuaVM]: what a chunk and a Lua function do is a tree of their
    interactions with the host — globals, the [step] table, and calls of the four host
    functions.  A VM made by [lua.NewState] has no libraries, so a script cannot catch an
    error: one ends the whole run.  A run that never ends has no tree. *)
From Stdlib Require Import ZArith Lia.
From stdpp Require Import base option list strings gmap.
From S2P Require Import Prelude GoNum GoFmt Strconv LineProtocol Metrics.

(** ** Values and scripts *)

Inductive host_fn := HInfo | HFatal | HGet | HPost.

(** [LStep] is the table that [configureLua] made, [LTable] one of the script's, [LFresh]
    one that the host has just built. *)
Inductive lua_value :=
  | LNil
  | LBool (b : bool)
  | LNumber (f : float64)
  | LString (s : string)
  | LStep
  | LTable (id : nat)
  | LFunction (id : nat)
  | LHost (h : host_fn)
  | LFresh (fields : list (string * lua_value)).

Definition is_LNil (v : lua_value) : bool := match v with LNil => true | _ => false end.

(** A run over a heap [W], up to its result or a runtime error. *)
Inductive script (W A : Type) : Type :=
  | Return (a : A)
  | Fail (msg : string)
  | GetGlobal (x : string) (k : lua_value → script W A)
  | SetGlobal (x : string) (v : lua_value) (k : script W A)
  | GetStep (key : lua_value) (k : lua_value → script W A)  (** [step[key]] *)
  | SetStep (key v : lua_value) (k : script W A)        (** [step[key] = v] *)
  | GetHeap (k : W → script W A)
  | SetHeap (w : W) (k : script W A)
  | CallHost (h : host_fn) (args : list lua_value) (k : list lua_value → script W A).
Arguments Return {W A} _.
Arguments Fail {W A} _.
Arguments GetGlobal {W A} _ _.
Arguments SetGlobal {W A} _ _ _.
Arguments GetStep {W A} _ _.
Arguments SetStep {W A} _ _ _.
Arguments GetHeap {W A} _.
Arguments SetHeap {W A} _ _.
Arguments CallHost {W A} _ _ _.

(** The VM: compiling a source, calling a function by its identity, reading a field of a
    script's table, the text of a number, and the texts of its errors. *)
Class LuaVM (W : Type) := {
  vm_load : string → outcome (script W unit);
  vm_call : nat → list lua_value → script W (list lua_value);
  vm_field : nat → string → W → lua_value;
  vm_number : float64 → string;
  vm_print : lua_value → bytes;
  vm_where : W → string;
  vm_bad_argument : lua_value → string;
  vm_not_callable : lua_value → string
}.

(** The network as [net/http] shows it: a response, whose body may fail to be read. *)
Record response := mkResponse {
  StatusCode : Z; Status : string; ContentLength : Z;
  Header : gmap string string;       (** the first value of each header *)
  Body : outcome string
}.

Class HTTP (N : Type) := {
  http_Get : string → N → N * outcome response;
  http_Post : string → string → string → N → N * outcome response
}.

(** [time.Now()], by the number of readings before. *)
Class Wall := wall : nat → Z.

(** ** The program *)

(** A line of the log: its level, step and message. *)
Record log_line := mkLog { lg_lvl : string; lg_step : string; lg_msg : lua_value }.

(** [closures] is [None] while [info] and [fatal] are the ones [Lua] installs, and the
    [currentStep] of those that [Execute] installs. *)
Record LuaProgram (W N R : Type) := mkProgram {
  configured : bool;
  steps : list string;
  step_table : gmap string lua_value;
  step_others : list (lua_value * lua_value);   (** what [step] has under keys that are no strings *)
  missed : bool;                                (** a key that [step] lacks has been read *)
  globals : gmap string lua_value;
  heap : W;
  net : N;
  metrics : R;
  closures : option string;
  out : list log_line;
  readings : nat
}.
Arguments mkProgram {W N R} _ _ _ _ _ _ _ _ _ _ _ _.
Arguments configured {W N R} _.
Arguments steps {W N R} _.
Arguments step_table {W N R} _.
Arguments step_others {W N R} _.
Arguments missed {W N R} _.
Arguments globals {W N R} _.
Arguments heap {W N R} _.
Arguments net {W N R} _.
Arguments metrics {W N R} _.
Arguments closures {W N R} _.
Arguments out {W N R} _.
Arguments readings {W N R} _.

Section engine.
Context {W N R : Type} {LV : LuaVM W} {HT : HTTP N} {MR : MetricReporter R} {WL : Wall}.
Abbreviation program := (LuaProgram W N R).

Definition set_configured (b : bool) (p : program) : program :=
  mkProgram b (steps p) (step_table p) (step_others p) (missed p) (globals p) (heap p) (net p) (metrics p) (closures p) (out p) (readings p).
Definition set_steps (l : list string) (t : gmap string lua_value) (p : program) : program :=
  mkProgram (configured p) l t (step_others p) (missed p) (globals p) (heap p) (net p) (metrics p) (closures p) (out p) (readings p).
Definition set_others (l : list (lua_value * lua_value)) (p : program) : program :=
  mkProgram (configured p) (steps p) (step_table p) l (missed p) (globals p) (heap p) (net p) (metrics p) (closures p)
    (out p) (readings p).
Definition set_missed (p : program) : program :=
  mkProgram (configured p) (steps p) (step_table p) (step_others p) true (globals p) (heap p) (net p) (metrics p)
    (closures p) (out p) (readings p).
Definition set_globals (g : gmap string lua_value) (p : program) : program :=
  mkProgram (configured p) (steps p) (step_table p) (step_others p) (missed p) g (heap p) (net p) (metrics p) (closures p) (out p) (readings p).
Definition set_heap (w : W) (p : program) : program :=
  mkProgram (configured p) (steps p) (step_table p) (step_others p) (missed p) (globals p) w (net p) (metrics p) (closures p) (out p) (readings p).
Definition set_net (n : N) (p : program) : program :=
  mkProgram (configured p) (steps p) (step_table p) (step_others p) (missed p) (globals p) (heap p) n (metrics p) (closures p) (out p) (readings p).
Definition set_metrics (m : R) (p : program) : program :=
  mkProgram (configured p) (steps p) (step_table p) (step_others p) (missed p) (globals p) (heap p) (net p) m (closures p) (out p) (readings p).
Definition set_closures (c : option string) (p : program) : program :=
  mkProgram (configured p) (steps p) (step_table p) (step_others p) (missed p) (globals p) (heap p) (net p) (metrics p) c (out p) (readings p).
Definition add_log (l : log_line) (p : program) : program :=
  mkProgram (configured p) (steps p) (step_table p) (step_others p) (missed p) (globals p) (heap p) (net p) (metrics p) (closures p)
    (out p ++ [l]) (readings p).

Definition read_time (p : program) : Z * program :=
  (wall (readings p),
   mkProgram (configured p) (steps p) (step_table p) (step_others p) (missed p) (globals p) (heap p) (net p) (metrics p) (closures p)
     (out p) (S (readings p))).

(** One call of the [MetricReporter]. *)
Definition incr (c : metric_call) (p : program) : program :=
  let '(t, p) := read_time p in set_metrics (report t c (metrics p)) p.

Definition runtime_error {A} (msg : string) : outcome A := Err (Errorf ("runtime error: " +:+ msg)).

(** [lua.Errorf(l, ...)]. *)
Definition lua_Errorf {A} (msg : string) (p : program) : outcome A := runtime_error (vm_where (heap p) +:+ msg).

(** [l.ToString]: strings, and numbers as their text. *)
Definition ToString (v : lua_value) : option string :=
  match v with LString s => Some s | LNumber f => Some (vm_number f) | _ => None end.

Definition CheckString (v : lua_value) : outcome string :=
  match ToString v with Some s => Ok s | None => runtime_error (vm_bad_argument v) end.

(** [l.ToValue(1)], as the metrics receive it. *)
Definition ToValue (v : lua_value) : field_value :=
  match v with
  | LNil => FNil
  | LBool b => FBool b
  | LNumber f => FFloat f
  | LString s => FString (to_bytes s)
  | v => FOther (vm_print v)
  end.

(** *** The [step] table *)

Definition table_put (key : string) (v : lua_value) (t : gmap string lua_value) : gmap string lua_value :=
  if is_LNil v then delete key t else <[key:=v]> t.

(** [registerStep]: the [__newindex] of the table. *)
Definition registerStep (key v : lua_value) (p : program) : outcome unit * program :=
  if configured p then (lua_Errorf "step is immutable" p, p)
  else match CheckString key with
       | Ok stepName => (Ok tt, set_steps (steps p ++ [stepName]) (table_put stepName v (step_table p)) p)
       | Err e => (Err e, p)
       | Panic m => (Panic m, p)
       end.

(** Keys that are no strings: identities, and numbers up to [==]. *)
Definition same_key (k k' : lua_value) : bool :=
  match k, k' with
  | LBool b, LBool b' => Bool.eqb b b'
  | LNumber f, LNumber f' => feq f f'
  | LStep, LStep => true
  | LTable i, LTable j | LFunction i, LFunction j => Nat.eqb i j
  | LHost HInfo, LHost HInfo | LHost HFatal, LHost HFatal | LHost HGet, LHost HGet | LHost HPost, LHost HPost => true
  | _, _ => false
  end.
Fixpoint other_at (key : lua_value) (l : list (lua_value * lua_value)) : option lua_value :=
  match l with [] => None | (k, v) :: l => if same_key k key then Some v else other_at key l end.
Definition others_put (key v : lua_value) (l : list (lua_value * lua_value)) : list (lua_value * lua_value) :=
  let l := filter (λ kv, same_key kv.1 key = false) l in if is_LNil v then l else (key, v) :: l.

Definition step_value (key : lua_value) (p : program) : option lua_value :=
  match key with LString s => step_table p !! s | key => other_at key (step_others p) end.

(** [step[key]]: the search for [__index] of a key that is missing leaves its mark in the
    cache of the metatable. *)
Definition read_step (key : lua_value) (p : program) : lua_value * program :=
  match step_value key p with Some v => (v, p) | None => (LNil, set_missed p) end.

(** The assignment past the metatable. *)
Definition raw_assign (key v : lua_value) (p : program) : outcome unit * program :=
  match key with
  | LNil => (lua_Errorf "table index is nil" p, p)
  | LString s => (Ok tt, set_steps (steps p) (table_put s v (step_table p)) p)
  | LNumber f => if feq f f then (Ok tt, set_others (others_put key v (step_others p)) p)
                 else (lua_Errorf "table index is NaN" p, p)
  | key => (Ok tt, set_others (others_put key v (step_others p)) p)
  end.

(** An assignment: [__newindex] is consulted when the key has no value yet or is to lose it
    ([tryPut]), and is no longer found once [read_step] has left its mark
    ([fastTagMethod]). *)
Definition assign_step (key v : lua_value) (p : program) : outcome unit * program :=
  if (bool_decide (is_Some (step_value key p)) && negb (is_LNil v)) || missed p then raw_assign key v p
  else registerStep key v p.

(** *** HTTP (http_binding.go) *)

Definition pushResponse (resp : response) : outcome lua_value :=
  body ← Body resp;
  Ok (LFresh [("code"%string, LNumber (float_of_int (StatusCode resp)));
              ("status"%string, LString (Status resp));
              ("body"%string, LString body);
              ("content_length"%string, LNumber (float_of_int (ContentLength resp)));
              ("header"%string, LFresh (map (fun kv => (fst kv, LString (snd kv))) (map_to_list (Header resp))))]).

(** What follows the request in both functions: [verb] names it, [count] is the metric
    of an answered request, reported when the function is left. *)
Definition finish_request (verb : string) (u : string) (count : Z → Z → metric_call) (start : Z)
    (resp : outcome response) (p : program) : outcome (list lua_value) * program :=
  match resp with
  | Err e =>
      let p := incr (IncrHTTPError (to_bytes u)) p in
      (lua_Errorf ("lua-http: can't " +:+ verb +:+ ": " +:+ Error e) p, p)
  | Panic m => (Panic m, p)
  | Ok resp =>
      let '(res, p) :=
        match pushResponse resp with
        | Ok t => (Ok [t], p)
        | Err e =>
            let p := incr (IncrHTTPError (to_bytes u)) p in
            (lua_Errorf ("lua-http: can't read body from " +:+ verb +:+ ": " +:+ Error e) p, p)
        | Panic m => (Panic m, p)
        end in
      let '(t, p) := read_time p in
      (res, incr (count (StatusCode resp) (t - start)) p)
  end.

(** The argument at a negative index; below the arguments lies the function itself, not
    a string. *)
Definition arg_at (i : nat) (args : list lua_value) (h : host_fn) : lua_value :=
  default (LHost h) (rev args !! (i - 1)%nat).

Definition http_get (args : list lua_value) (p : program) : outcome (list lua_value) * program :=
  match CheckString (arg_at 1 args HGet) with
  | Ok u =>
      let '(start, p) := read_time p in
      let '(n, resp) := http_Get u (net p) in
      finish_request "GET" u (fun code d => IncrHTTPGet (to_bytes u) code d) start resp (set_net n p)
  | Err e => (Err e, p)
  | Panic m => (Panic m, p)
  end.

Definition http_post (args : list lua_value) (p : program) : outcome (list lua_value) * program :=
  match (u ← CheckString (arg_at 3 args HPost);
         contentType ← CheckString (arg_at 2 args HPost);
         body ← CheckString (arg_at 1 args HPost);
         Ok (u, contentType, body)) with
  | Ok (u, contentType, body) =>
      let '(start, p) := read_time p in
      let '(n, resp) := http_Post u contentType body (net p) in
      finish_request "POST" u (fun code d => IncrHTTPPost (to_bytes u) code d) start resp (set_net n p)
  | Err e => (Err e, p)
  | Panic m => (Panic m, p)
  end.

(** *** Logging *)

Definition log_call (lvl : string) (count : field_value → metric_call) (args : list lua_value) (p : program)
    : outcome (list lua_value) * program :=
  let msg := default LNil (head args) in
  let p := incr (count (ToValue msg)) p in
  match closures p with
  | None => (Err (Errorf ("'" +:+ lvl +:+ "' is not defined outside of steps")), p)
  | Some currentStep => (Ok [], add_log (mkLog lvl currentStep msg) p)
  end.

Definition host_call (h : host_fn) (args : list lua_value) (p : program) : outcome (list lua_value) * program :=
  match h with
  | HInfo => log_call "info" IncrLogInfo args p
  | HFatal => log_call "fatal" IncrLogFatal args p
  | HGet => http_get args p
  | HPost => http_post args p
  end.

(** ** Running a script *)

Definition andThen {A B} (r : outcome A * program) (f : A → program → outcome B * program) : outcome B * program :=
  match r with
  | (Ok a, p) => f a p
  | (Err e, p) => (Err e, p)
  | (Panic m, p) => (Panic m, p)
  end.

Fixpoint interp {A} (s : script W A) (p : program) : outcome A * program :=
  match s with
  | Return a => (Ok a, p)
  | Fail msg => (runtime_error msg, p)
  | GetGlobal x k => interp (k (default LNil (globals p !! x))) p
  | SetGlobal x v k => interp k (set_globals (table_put x v (globals p)) p)
  | GetStep key k => let '(v, p) := read_step key p in interp (k v) p
  | SetStep key v k => andThen (assign_step key v p) (fun _ p => interp k p)
  | GetHeap k => interp (k (heap p)) p
  | SetHeap w k => interp k (set_heap w p)
  | CallHost h args k => andThen (host_call h args p) (fun rs p => interp (k rs) p)
  end.

Definition call_value (f : lua_value) (args : list lua_value) (p : program) : outcome (list lua_value) * program :=
  match f with
  | LFunction id => interp (vm_call id args) p
  | LHost h => host_call h args p
  | f => (runtime_error (vm_not_callable f), p)
  end.

(** *** [Lua]: compile a source and run it to prepare the steps *)

(** The VM that [configureLua] and the calls of [Register] leave. *)
Definition configureLua (w : W) (n : N) (m : R) : program :=
  mkProgram false [] ∅ [] false
    {[ "step"%string := LStep; "info"%string := LHost HInfo; "fatal"%string := LHost HFatal;
       "get"%string := LHost HGet; "post"%string := LHost HPost ]}
    w n m None [] 0.

Definition Lua (source : string) (w : W) (n : N) (m : R) : outcome unit * program :=
  let p := configureLua w n m in
  match vm_load source with
  | Err e => (Err (Errorf ("compiling program: " +:+ Error e)), p)
  | Panic msg => (Panic msg, p)
  | Ok chunk =>
      match interp chunk p with
      | (Ok _, p) => (Ok tt, set_configured true p)
      | (Err e, p) => (Err (Errorf ("preparing program: " +:+ Error e)), p)
      | (Panic msg, p) => (Panic msg, p)
      end
  end.

(** *** [Execute] *)

(** [l.Field] on a value, [None] when it cannot be indexed. *)
Definition field_of (v : lua_value) (name : string) (p : program) : option (lua_value * program) :=
  match v with
  | LStep => Some (read_step (LString name) p)
  | LTable id => Some (vm_field id name (heap p), p)
  | LFresh fs => Some (default LNil (snd <$> list_find (fun kv => fst kv = name) fs ≫= fun x => Some (snd x)), p)
  | _ => None
  end.

(** A Lua error outside a protected call ends the process. *)
Definition uncaught {A} (msg : string) : outcome A := Panic ("Uncaught Lua error: " +:+ msg).

Definition StepError (step : string) (e : error) : error := Errorf (step +:+ ":" +:+ Error e).

(** The loop of [runSteps]; the stack is listed from its top, index [-(i+1)] at [i].
    The error object that a failed call leaves in its slot is shown as [LNil]; nothing
    reads it before the deferred [Pop(2)].  [cancelled i] is whether [ctx.Done()] is closed when the [i]-th step is reported. *)
Fixpoint runSteps_loop (cancelled : nat → bool) (i : nat) (names : list string) (st : list lua_value)
    (p : program) : outcome unit * list lua_value * program :=
  match names with
  | [] => (Ok tt, st, p)
  | stepName :: names =>
      let p := set_closures (Some stepName) p in
      if cancelled i then (Ok tt, st, p) else
      let top := length st in
      match st !! (top - 1)%nat ≫= fun t => field_of t stepName p with
      | None => (uncaught "attempt to index a value", st, p)
      | Some (f, p) =>
          let st := f :: st in
          match st !! (top - 1)%nat with
          | None => (uncaught "invalid index", st, p)
          | Some arg =>
              let st := arg :: st in
              let st := delete top st in
              let '(start, p) := read_time p in
              match st with
              | arg :: f :: st =>
                  match call_value f [arg] p with
                  | (Ok rs, p) =>
                      let st := default LNil (head rs) :: st in
                      if negb (bool_decide (length st = 2%nat))
                      then (uncaught "step needs to return exactly 1 argument", st, p)
                      else
                        let '(t, p) := read_time p in
                        runSteps_loop cancelled (S i) names st (incr (IncrStepExecution stepName (t - start)) p)
                  | (Err e, p) => (Err (StepError stepName e), LNil :: st, incr (IncrStepError stepName) p)
                  | (Panic m, p) => (Panic m, st, p)
                  end
              | _ => (uncaught "not enough elements in the stack", st, p)
              end
          end
      end
  end.

Definition runSteps (cancelled : nat → bool) (p : program) : outcome unit * list lua_value * program :=
  let st := [LFresh []; default LNil (globals p !! "step"%string)] in
  let '(r, st, p) := runSteps_loop cancelled 0 (steps p) st (incr IncrScriptExecution p) in
  (r, drop 2 st, p).

(** [Execute] of a context: its error, the stack it leaves, the program after it. *)
Definition Execute (cancelled : nat → bool) (p : program) : outcome unit * list lua_value * program :=
  runSteps cancelled (set_closures (Some "<not a step>"%string) p).
End engine.

(** ** Script configurations *)

(** What [json.Unmarshal] into an [interface{}] yields; [COther] is an array or an
    object, by its [%v]. *)
Inductive config_value :=
  | CString (s : string) | CInt (z : Z) | CFloat (f : float64) | CBool (b : bool) | CNil
  | COther (printed : string).

Definition config_text (v : config_value) : string :=
  match v with
  | CString s | COther s => s
  | CInt z => fmt_d z
  | CFloat f => fmt_v_float f
  | CBool b => if b then "true" else "false"
  | CNil => "<nil>"
  end.

Definition invalid_type (key : string) (v : config_value) : error :=
  Errorf ("invalid type for lua config file: " +:+ config_text v +:+ ", key was: " +:+ key).

(** Both functions range over a map; [entries] lists it in the order of the iteration. *)
Fixpoint VerifyConfig (entries : list (string * config_value)) : option error :=
  match entries with
  | [] => None
  | (key, COther s) :: _ => Some (invalid_type key (COther s))
  | _ :: entries => VerifyConfig entries
  end.

Fixpoint AddConfig {W N R} (entries : list (string * config_value)) (p : LuaProgram W N R)
    : option error * LuaProgram W N R :=
  match entries with
  | [] => (None, p)
  | (key, COther s) :: _ => (Some (invalid_type key (COther s)), p)
  | (key, CNil) :: entries => AddConfig entries (set_globals (table_put key LNil (globals p)) p)
  | (key, v) :: entries => AddConfig entries (set_globals (table_put key (LString (config_text v)) (globals p)) p)
  end.
