(* ===== verification/EngineFacts.v ===== *)
(** * Facts about the script engine: what runs keep, and what they report *)
From Stdlib Require Import ZArith Lia.
From stdpp Require Import base option list strings gmap.
From S2P Require Import Prelude GoNum GoFmt Strconv LineProtocol Metrics Engine.

(** A reporter that lists the calls it receives. *)
#[export] Instance trace_reporter : MetricReporter (list metric_call) := fun _ c l => l ++ [c].

(** The metrics that the loop of the steps reports itself. *)
Definition is_step_metric (c : metric_call) : Prop :=
  match c with IncrScriptExecution | IncrStepExecution _ _ | IncrStepError _ => True | _ => False end.
#[export] Instance is_step_metric_dec c : Decision (is_step_metric c).
Proof. destruct c; apply _. Defined.

Section engine.
Context {W N R : Type} {LV : LuaVM W} {HT : HTTP N} {MR : MetricReporter R} {WL : Wall}.
Abbreviation program := (LuaProgram W N R).

(** ** What runs leave alone *)

Lemma incr_eq c (p : program) :
  incr c p = mkProgram (configured p) (steps p) (step_table p) (step_others p) (missed p) (globals p) (heap p) (net p)
    (report (wall (readings p)) c (metrics p)) (closures p) (out p) (S (readings p)).
Proof. done. Qed.

(** A relation on programs that every host call keeps, kept by every run. *)
Section kept.
Context (K : program → program → Prop) `{!PreOrder K}.
Hypothesis K_globals : ∀ p g, K p (set_globals g p).
Hypothesis K_heap : ∀ p w, K p (set_heap w p).
Hypothesis K_missed : ∀ p, K p (set_missed p).
Hypothesis K_assign : ∀ key v p r p', assign_step key v p = (r, p') → K p p'.
Hypothesis K_host : ∀ h args p r p', host_call h args p = (r, p') → K p p'.

Lemma andThen_kept {A B} (x : outcome A * program) (f : A → program → outcome B * program) p r p' :
  K p x.2 → (∀ a q r q', f a q = (r, q') → K q q') → andThen x f = (r, p') → K p p'.
Proof.
  intros Hx Hf. destruct x as [[a|e|m] q]; simpl in *; intros Heq; [|by injection Heq as _ <-..].
  etrans; [exact Hx|by eapply Hf].
Qed.

Lemma read_kept key p v q : read_step key p = (v, q) → K p q.
Proof. unfold read_step. case_match; intros [= _ <-]; [done|apply K_missed]. Qed.

Lemma field_of_kept table name p f q : field_of table name p = Some (f, q) → K p q.
Proof.
  destruct table; cbn [field_of]; try done; [|by intros [= _ <-]..].
  destruct (read_step _ p) as [v q'] eqn:E. intros [= _ <-]. by eapply read_kept.
Qed.

Lemma interp_kept {A} (s : script W A) p r p' : interp s p = (r, p') → K p p'.
Proof.
  revert p r p'. induction s as [a|m|x k IH|x v k IH|key k IH|key v k IH|k IH|w k IH|h args k IH];
    intros p r p' Hr; simpl in Hr.
  - by injection Hr as _ <-.
  - by injection Hr as _ <-.
  - by eapply IH.
  - etrans; [apply K_globals|by eapply IH].
  - destruct (read_step key p) as [v q] eqn:E. etrans; [eapply read_kept; exact E|by eapply IH].
  - eapply andThen_kept; [|intros a q; apply IH|exact Hr].
    destruct (assign_step key v p) as [r1 p1] eqn:E. by eapply K_assign.
  - by eapply IH.
  - etrans; [apply K_heap|by eapply IH].
  - eapply andThen_kept; [|intros a q; apply IH|exact Hr].
    destruct (host_call h args p) as [r1 p1] eqn:E. by eapply K_host.
Qed.

Lemma call_value_kept f args p r p' : call_value f args p = (r, p') → K p p'.
Proof.
  destruct f; simpl; intros Hr; try (by injection Hr as _ <-); [by eapply interp_kept|by eapply K_host].
Qed.
End kept.

(** Host calls change the network, the metrics, the log and the clock only. *)
Definition only_effects (p q : program) : Prop :=
  configured q = configured p ∧ steps q = steps p ∧ step_table q = step_table p ∧
  step_others q = step_others p ∧ missed q = missed p ∧ globals q = globals p ∧ heap q = heap p ∧ closures q = closures p.

Lemma only_effects_refl p : only_effects p p.
Proof. by split_and!. Qed.

Lemma finish_request_effects verb u count start resp p r p' :
  finish_request verb u count start resp p = (r, p') → only_effects p p'.
Proof.
  unfold finish_request. destruct resp as [resp|e|m]; [|by intros [= _ <-]..].
  destruct (pushResponse resp); by intros [= _ <-].
Qed.

Lemma host_call_effects h args p r p' : host_call h args p = (r, p') → only_effects p p'.
Proof.
  destruct h; simpl; unfold log_call, http_get, http_post.
  1,2: simpl; destruct (closures p) eqn:E; intros [= _ <-]; split_and!; simpl; done.
  - destruct (CheckString _); [|by intros [= _ <-]..]. simpl.
    destruct (http_Get _ _) as [n resp]. intros Hr%finish_request_effects. exact Hr.
  - destruct (u ← _; _) as [[[u c] b]|e|m]; [|by intros [= _ <-]..]. simpl.
    destruct (http_Post _ _ _ _) as [n resp]. intros Hr%finish_request_effects. exact Hr.
Qed.

(** ** The step table *)

(** Once configured: the list of steps stays, and no step is added or removed, as long as no
    key that is missing has been read. *)
Definition frozen (p q : program) : Prop :=
  configured p = true → configured q = true ∧ steps q = steps p ∧ (missed p = true → missed q = true) ∧
    (missed q = false → dom (step_table q) = dom (step_table p)).

#[export] Instance frozen_preorder : PreOrder frozen.
Proof.
  split; [by intros p Hp|]. intros p q r H1 H2 Hp. destruct (H1 Hp) as (Hq & S1 & M1 & D1).
  destruct (H2 Hq) as (Hr & S2 & M2 & D2). split_and!; [done|congruence|auto|]. intros Hm.
  rewrite D2 by done. apply D1. destruct (missed q); [by rewrite M2 in Hm|done].
Qed.

Lemma assign_frozen key v p r p' : assign_step key v p = (r, p') → frozen p p'.
Proof.
  intros Ha Hp. unfold assign_step, registerStep in Ha. rewrite Hp in Ha.
  destruct (missed p) eqn:Hm.
  { rewrite orb_true_r in Ha. destruct key; simpl in Ha; repeat case_match; injection Ha as _ <-; split_and!; simpl; congruence. }
  rewrite orb_false_r in Ha. case_bool_decide as Hs; [|by injection Ha as _ <-; split_and!].
  destruct (is_LNil v) eqn:Hv; [by injection Ha as _ <-; split_and!|].
  destruct key; simpl in Ha; repeat case_match; injection Ha as _ <-; split_and!; try done.
  intros _. simpl in *. unfold table_put. rewrite Hv. by apply dom_insert_lookup_L.
Qed.

Lemma interp_frozen {A} (s : script W A) p r p' : interp s p = (r, p') → frozen p p'.
Proof.
  apply interp_kept; [apply _|by intros; intros ?|by intros; intros ?|by intros; intros ?|apply assign_frozen|].
  intros h args q r1 q' (H1 & H2 & H3 & _ & H4 & _)%host_call_effects Hq. by rewrite H1, H2, H3, H4.
Qed.

Lemma call_value_frozen f args p r p' : call_value f args p = (r, p') → frozen p p'.
Proof.
  apply call_value_kept; [apply _|by intros; intros ?|by intros; intros ?|by intros; intros ?|apply assign_frozen|].
  intros h args' q r1 q' (H1 & H2 & H3 & _ & H4 & _)%host_call_effects Hq. by rewrite H1, H2, H3, H4.
Qed.

Lemma assign_effects key v (p : program) r (p' : program) :
  assign_step key v p = (r, p') → metrics p' = metrics p ∧ closures p' = closures p ∧ out p' = out p.
Proof.
  unfold assign_step, registerStep.
  destruct (_ || _); [|destruct (configured p), (CheckString key); by intros [= _ <-]].
  destruct key; simpl; repeat case_match; by intros [= _ <-].
Qed.

(** ** The loop of the steps without its stack *)

(** Each step is looked up in the table and called with the first value the last one
    returned, an empty table at first. *)
Fixpoint steps_spec (cancelled : nat → bool) (i : nat) (names : list string) (table arg : lua_value)
    (p : program) : outcome unit * program :=
  match names with
  | [] => (Ok tt, p)
  | name :: names =>
      let p := set_closures (Some name) p in
      if cancelled i then (Ok tt, p) else
      match field_of table name p with
      | None => (uncaught "attempt to index a value", p)
      | Some (f, p) =>
          let '(start, p) := read_time p in
          match call_value f [arg] p with
          | (Ok rs, p) =>
              let '(t, p) := read_time p in
              steps_spec cancelled (S i) names table (default LNil (head rs))
                (incr (IncrStepExecution name (t - start)) p)
          | (Err e, p) => (Err (StepError name e), incr (IncrStepError name) p)
          | (Panic m, p) => (Panic m, p)
          end
      end
  end.

Lemma field_of_frozen table name p f q : field_of table name p = Some (f, q) → frozen p q.
Proof. apply field_of_kept; [apply _|]. by intros p' ?. Qed.

Lemma runSteps_loop_spec cancelled names i table arg p :
  ∃ st, (length st ≤ 2)%nat ∧
    runSteps_loop cancelled i names [arg; table] p =
    let '(r, p') := steps_spec cancelled i names table arg p in (r, st, p').
Proof.
  revert i arg p. induction names as [|name names IH]; intros i arg p; [by exists [arg; table]|].
  cbn [runSteps_loop steps_spec]. destruct (cancelled i); [by exists [arg; table]|].
  simpl. destruct (field_of table name (set_closures (Some name) p)) as [[f q0]|]; [|by exists [arg; table]].
  destruct (call_value f [arg] _) as [[rs|e|m] q]; [|by exists [LNil; table]|exists [table]; split; [simpl; lia|done]].
  apply IH.
Qed.

End engine.

(** ** Reports of a run *)

Section reports.
Context {W N : Type} {LV : LuaVM W} {HT : HTTP N} {WL : Wall}.
Abbreviation program := (LuaProgram W N (list metric_call)).

(** A run only adds to the metrics, and none of the loop's own. *)
Definition no_step_reports (p q : program) : Prop :=
  ∃ cs, metrics q = metrics p ++ cs ∧ filter is_step_metric cs = [].

#[export] Instance no_step_reports_preorder : PreOrder no_step_reports.
Proof.
  split; [intros p; exists []; by rewrite app_nil_r|].
  intros p q r (c1 & E1 & F1) (c2 & E2 & F2). exists (c1 ++ c2).
  by rewrite E2, E1, app_assoc, filter_app, F1, F2.
Qed.

Lemma no_step_reports_same p q : metrics q = metrics p → no_step_reports p q.
Proof. intros E. exists []. by rewrite app_nil_r. Qed.

Lemma no_step_reports_one p q c : metrics q = metrics p ++ [c] → ¬ is_step_metric c → no_step_reports p q.
Proof. intros E Hc. exists [c]. split; [done|]. by rewrite filter_cons_False. Qed.

Lemma finish_request_reports verb u count start resp p r p' :
  (∀ code d, ¬ is_step_metric (count code d)) →
  finish_request verb u count start resp p = (r, p') → no_step_reports p p'.
Proof.
  intros Hc. unfold finish_request. destruct resp as [resp|e|m].
  - destruct (pushResponse resp) as [t|e|m]; intros [= _ <-].
    + eapply no_step_reports_one; [done|apply Hc].
    + etrans; [eapply (no_step_reports_one _ (incr (IncrHTTPError (to_bytes u)) p)); [done|auto]|].
      eapply no_step_reports_one; [done|apply Hc].
    + eapply no_step_reports_one; [done|apply Hc].
  - intros [= _ <-]. eapply no_step_reports_one; [done|auto].
  - by intros [= _ <-].
Qed.

Lemma host_call_reports h args (p : program) r p' : host_call h args p = (r, p') → no_step_reports p p'.
Proof.
  destruct h; simpl; unfold log_call, http_get, http_post.
  1,2: simpl; destruct (closures p) eqn:E; intros [= _ <-]; (eapply no_step_reports_one; [done|auto]).
  - destruct (CheckString _); [|by intros [= _ <-]..]. simpl.
    destruct (http_Get _ _) as [n resp]. intros Hr%finish_request_reports; [exact Hr|auto].
  - destruct (u ← _; _) as [[[u c] b]|e|m]; [|by intros [= _ <-]..]. simpl.
    destruct (http_Post _ _ _ _) as [n resp]. intros Hr%finish_request_reports; [exact Hr|auto].
Qed.

Lemma assign_reports key v (p : program) r p' : assign_step key v p = (r, p') → no_step_reports p p'.
Proof.
  intros Ha. apply no_step_reports_same. by apply assign_effects in Ha as (-> & _).
Qed.

Lemma call_value_reports f args (p : program) r p' : call_value f args p = (r, p') → no_step_reports p p'.
Proof.
  apply call_value_kept; [apply _|by intros; apply no_step_reports_same..|apply assign_reports|apply host_call_reports].
Qed.
End reports.

(** ** The log *)

Section logs.
Context {W N R : Type} {LV : LuaVM W} {HT : HTTP N} {MR : MetricReporter R} {WL : Wall}.
Abbreviation program := (LuaProgram W N R).

(** A run keeps [currentStep] and the lines it adds carry it; outside the steps it adds
    none. *)
Definition logs_current (p q : program) : Prop :=
  closures q = closures p ∧
  ∃ ls, out q = out p ++ ls ∧ Forall (fun l => Some (lg_step l) = closures p) ls.

#[local] Instance logs_current_preorder : PreOrder logs_current.
Proof.
  split; [intros p; split; [done|exists []; by rewrite app_nil_r]|].
  intros p q r (C1 & l1 & E1 & F1) (C2 & l2 & E2 & F2). split; [congruence|]. exists (l1 ++ l2).
  rewrite E2, E1, app_assoc. split; [done|]. apply Forall_app. by rewrite C1 in F2.
Qed.

Lemma logs_current_same p q : closures q = closures p → out q = out p → logs_current p q.
Proof. intros C E. split; [done|]. exists []. by rewrite app_nil_r. Qed.

Lemma finish_request_logs verb u count start resp (p : program) r p' :
  finish_request verb u count start resp p = (r, p') → logs_current p p'.
Proof.
  unfold finish_request. destruct resp as [resp|e|m]; [|intros [= _ <-]; by apply logs_current_same..].
  destruct (pushResponse resp); intros [= _ <-]; by apply logs_current_same.
Qed.

Lemma host_call_logs h args (p : program) r p' : host_call h args p = (r, p') → logs_current p p'.
Proof.
  destruct h; simpl; unfold log_call, http_get, http_post.
  1,2: simpl; destruct (closures p) as [cs|] eqn:E; intros [= _ <-];
    [split; [done|]; eexists; split; [reflexivity|]; by repeat constructor|by apply logs_current_same].
  - destruct (CheckString _); [|by intros [= _ <-]..]. simpl.
    destruct (http_Get _ _) as [n resp]. intros Hr%finish_request_logs. exact Hr.
  - destruct (u ← _; _) as [[[u c] b]|e|m]; [|by intros [= _ <-]..]. simpl.
    destruct (http_Post _ _ _ _) as [n resp]. intros Hr%finish_request_logs. exact Hr.
Qed.

Lemma assign_logs key v (p : program) r p' : assign_step key v p = (r, p') → logs_current p p'.
Proof.
  intros (_ & E1 & E2)%assign_effects. by apply logs_current_same.
Qed.

Lemma interp_logs {A} (s : script W A) (p : program) r p' : interp s p = (r, p') → logs_current p p'.
Proof.
  apply interp_kept; [apply _|by intros; apply logs_current_same..|apply assign_logs|apply host_call_logs].
Qed.

Lemma call_value_logs f args (p : program) r p' : call_value f args p = (r, p') → logs_current p p'.
Proof.
  apply call_value_kept; [apply _|by intros; apply logs_current_same..|apply assign_logs|apply host_call_logs].
Qed.

Lemma steps_spec_logs cancelled i names table arg (p : program) r p' :
  steps_spec cancelled i names table arg p = (r, p') →
  ∃ ls, out p' = out p ++ ls ∧ Forall (fun l => lg_step l ∈ names) ls.
Proof.
  revert i arg p. induction names as [|name names IH]; intros i arg p Hr; simpl in Hr.
  { injection Hr as _ <-. exists []. by rewrite app_nil_r. }
  destruct (cancelled i); [injection Hr as _ <-; exists []; by rewrite app_nil_r|].
  destruct (field_of _ _ _) as [[f q0]|] eqn:Ef; [|injection Hr as _ <-; exists []; by rewrite app_nil_r].
  apply (field_of_kept logs_current) in Ef as (Ec0 & l0 & E0 & F0); [|by intros; apply logs_current_same].
  destruct (call_value f [arg] _) as [c q] eqn:Ec.
  apply call_value_logs in Ec as (Ec1 & l1 & E1 & F1). simpl in E0, Ec0, F0, E1, F1.
  rewrite Ec0 in F1. rewrite E0, <- app_assoc in E1.
  assert (Forall (fun l => lg_step l ∈ name :: names) (l0 ++ l1)) as F1'.
  { eapply Forall_impl; [apply Forall_app; split; [exact F0|exact F1]|]. intros l [= ->]. by left. }
  destruct c as [rs|e|m]; [|injection Hr as _ <-; by exists (l0 ++ l1)..].
  apply IH in Hr as (l2 & E2 & F2). exists ((l0 ++ l1) ++ l2). simpl in E2. rewrite E2, E1, <- !app_assoc.
  split; [done|]. rewrite app_assoc. apply Forall_app. split; [done|]. eapply Forall_impl; [exact F2|]. intros l Hl. by right.
Qed.
End logs.

(** ** Preparing the steps *)

Section prepare.
Context {W N R : Type} {LV : LuaVM W} {HT : HTTP N} {MR : MetricReporter R} {WL : Wall}.
Abbreviation program := (LuaProgram W N R).

(** Every assignment to the step table gives a string key a value, whatever the answers
    of the host. *)
Fixpoint names_steps {A} (s : script W A) : Prop :=
  match s with
  | Return _ | Fail _ => True
  | GetGlobal _ k | GetStep _ k => ∀ v, names_steps (k v)
  | SetGlobal _ _ k | SetHeap _ k => names_steps k
  | SetStep key v k => (∃ s, key = LString s) ∧ is_LNil v = false ∧ names_steps k
  | GetHeap k => ∀ w, names_steps (k w)
  | CallHost _ _ k => ∀ rs, names_steps (k rs)
  end.

(** The list of steps names the keys of the table, each once, unless a missing key has been
    read. *)
Definition steps_inv (p : program) : Prop :=
  missed p = true ∨ (NoDup (steps p) ∧ ∀ s, s ∈ steps p ↔ s ∈ dom (step_table p)).

Lemma assign_inv s v (p : program) r p' :
  steps_inv p → is_LNil v = false → assign_step (LString s) v p = (r, p') → steps_inv p'.
Proof.
  intros Hi Hv Ha. unfold assign_step, registerStep in Ha. simpl in Ha.
  assert (table_put s v (step_table p) = <[s:=v]> (step_table p)) as Hput by (unfold table_put; by rewrite Hv).
  rewrite Hv, andb_true_r in Ha. destruct (missed p) eqn:Hm.
  { rewrite orb_true_r in Ha. injection Ha as _ <-. by left. }
  rewrite orb_false_r in Ha. destruct Hi as [?|[Hnd Hd]]; [congruence|right]. case_bool_decide as Hs.
  - injection Ha as _ <-. rewrite Hput. split; [done|]. intros x. simpl. rewrite dom_insert_lookup_L by done. apply Hd.
  - destruct (configured p); [by injection Ha as _ <-|]. injection Ha as _ <-. rewrite Hput.
    apply eq_None_not_Some, not_elem_of_dom in Hs. split.
    + simpl. apply NoDup_app. split_and!; [done| |by apply NoDup_singleton].
      intros x Hx ->%list_elem_of_singleton. by apply Hs, Hd.
    + intros x. simpl. rewrite dom_insert_L, elem_of_app, Hd. set_solver.
Qed.

Lemma interp_inv {A} (s : script W A) (p : program) r p' :
  names_steps s → steps_inv p → interp s p = (r, p') → steps_inv p'.
Proof.
  revert p. induction s as [a|m|x k IH|x v k IH|key k IH|key v k IH|k IH|w k IH|h args k IH];
    intros p Hs Hi Hr; simpl in Hs, Hr.
  - by injection Hr as _ <-.
  - by injection Hr as _ <-.
  - by eapply IH.
  - by eapply IH; [..|exact Hr].
  - unfold read_step in Hr. destruct (step_value key p); [by eapply IH|]. eapply IH; [apply Hs| |exact Hr]. by left.
  - destruct Hs as ([s ->] & Hv & Hs). destruct (assign_step (LString s) v p) as [r1 p1] eqn:E.
    apply assign_inv in E; [|done..]. destruct r1; simpl in Hr; [by eapply IH|by injection Hr as _ <-..].
  - by eapply IH.
  - by eapply IH; [..|exact Hr].
  - destruct (host_call h args p) as [r1 p1] eqn:E.
    apply host_call_effects in E as (_ & H1 & H2 & _ & H3 & _).
    assert (steps_inv p1) by (unfold steps_inv; by rewrite H1, H2, H3).
    destruct r1; simpl in Hr; [by eapply IH|by injection Hr as _ <-..].
Qed.
End prepare.

(** ** Configurations *)

(** The global that one entry of a valid configuration sets. *)
Definition config_global (v : config_value) : lua_value :=
  match v with CNil => LNil | v => LString (config_text v) end.

Section configurations.
Context {W N R : Type}.
Abbreviation program := (LuaProgram W N R).

Lemma config_step key v entries (p : program) :
  (∃ s, v = COther s) ∨
  (VerifyConfig ((key, v) :: entries) = VerifyConfig entries ∧
   AddConfig ((key, v) :: entries) p = AddConfig entries (set_globals (table_put key (config_global v) (globals p)) p)).
Proof. destruct v; eauto. Qed.

Lemma VerifyConfig_AddConfig entries (p : program) : VerifyConfig entries = fst (AddConfig entries p).
Proof.
  revert p. induction entries as [|[key v] entries IH]; intros p; [done|].
  destruct (config_step key v entries p) as [[s ->]|[-> ->]]; [done|apply IH].
Qed.

Lemma AddConfig_globals entries (p : program) :
  VerifyConfig entries = None → NoDup (map fst entries) →
  (∀ key v, (key, v) ∈ entries →
     globals (snd (AddConfig entries p)) !! key = (if is_LNil (config_global v) then None else Some (config_global v))) ∧
  (∀ key, key ∉ map fst entries → globals (snd (AddConfig entries p)) !! key = globals p !! key).
Proof.
  revert p. induction entries as [|[key v] entries IH]; intros p Hn Hnd.
  { split; [intros ? ? H%elem_of_nil; done|done]. }
  apply NoDup_cons in Hnd as [Hk Hnd].
  destruct (config_step key v entries p) as [[s ->]|[HV ->]]; [done|]. rewrite HV in Hn.
  destruct (IH (set_globals (table_put key (config_global v) (globals p)) p) Hn Hnd) as [H1 H2]. clear IH. split.
  - intros k x [[= -> ->]|Hin]%elem_of_cons; [|by apply H1].
    rewrite H2 by done. simpl. unfold table_put. case_match; [apply lookup_delete_eq|apply lookup_insert_eq].
  - intros k [Hne Hin]%not_elem_of_cons. rewrite H2 by done. simpl. unfold table_put.
    case_match; [by apply lookup_delete_ne|by apply lookup_insert_ne].
Qed.

Lemma AddConfig_core entries (p : program) :
  configured (snd (AddConfig entries p)) = configured p ∧ steps (snd (AddConfig entries p)) = steps p ∧
  step_table (snd (AddConfig entries p)) = step_table p.
Proof.
  revert p. induction entries as [|[key v] entries IH]; intros p; [done|].
  destruct (config_step key v entries p) as [[s ->]|[_ ->]]; [done|].
  destruct (IH (set_globals (table_put key (config_global v) (globals p)) p)) as (-> & -> & ->). done.
Qed.
End configurations.

(** * A sample script, for the examples and witnesses *)

(** The script of lua_test.go, with a [get] in its first step; the last assignment
    replaces the first step. *)
Definition test_chunk : script unit unit :=
  SetStep (LString "first_step") (LFunction 0)
    (SetStep (LString "second_step") (LFunction 1)
      (SetStep (LString "first_step") (LFunction 0) (Return tt))).

Definition test_fn (id : nat) (args : list lua_value) : script unit (list lua_value) :=
  match id with
  | O => CallHost HInfo [LString "hello world"] (fun _ => CallHost HGet [LString "http://h/"] (fun r => Return r))
  | _ => CallHost HFatal [LString "still there"] (fun _ => Fail "oops")
  end.

#[export] Instance test_vm : LuaVM unit := {|
  vm_load := fun _ => Ok test_chunk; vm_call := test_fn; vm_field := fun _ _ _ => LNil;
  vm_number := fmt_v_float; vm_print := fun _ => []; vm_where := fun _ => "?:1: "%string;
  vm_bad_argument := fun _ => "bad argument"%string; vm_not_callable := fun _ => "attempt to call"%string |}.

Definition test_answer : response := mkResponse 200 "200 OK" 2 ∅ (Ok "hi"%string).

#[export] Instance test_net : HTTP unit := {|
  http_Get := fun _ n => (n, Ok test_answer); http_Post := fun _ _ _ n => (n, Ok test_answer) |}.
#[export] Instance test_wall : Wall := fun n => Z.of_nat n.

Definition test_program : LuaProgram unit unit (list metric_call) := snd (Lua "src" tt tt []).
Definition test_run := Execute (fun _ => false) test_program.

