(* ===== verification/EngineProps.v ===== *)
(** * Properties of the script engine *)
From Stdlib Require Import ZArith Lia.
From stdpp Require Import base option list strings gmap.
From S2P Require Import Prelude GoNum GoFmt Strconv LineProtocol Metrics Engine EngineFacts.

Section engine.
Context {W N R : Type} {LV : LuaVM W} {HT : HTTP N} {MR : MetricReporter R} {WL : Wall}.
Abbreviation program := (LuaProgram W N R).

(** C6: the stack manipulation of [runSteps] is right: each step is looked up under its
    own name and called with exactly one argument, what the step before it returned (an
    empty table for the first), its check on the stack's height never fails, and the
    stack is empty again at the end, on errors too. *)
Theorem Execute_spec (cancelled : nat → bool) (p : program) :
  Execute cancelled p =
  let '(r, p') := steps_spec cancelled 0 (steps p) (default LNil (globals p !! "step"%string)) (LFresh [])
                    (incr IncrScriptExecution (set_closures (Some "<not a step>"%string) p)) in
  (r, [], p').
Proof.
  unfold Execute, runSteps. simpl.
  destruct (runSteps_loop_spec cancelled (steps p) 0 (default LNil (globals p !! "step"%string)) (LFresh [])
    (incr IncrScriptExecution (set_closures (Some "<not a step>"%string) p))) as (st & Hst & Heq).
  simpl in Heq. rewrite Heq. destruct (steps_spec _ _ _ _ _ _) as [r p'].
  f_equal. f_equal. by destruct st as [|? [|? [|]]]; simpl in *; try lia.
Qed.

Lemma steps_spec_frozen cancelled i names table arg (p : program) r p' :
  steps_spec cancelled i names table arg p = (r, p') → frozen p p'.
Proof.
  revert i arg p. induction names as [|name names IH]; intros i arg p Hr; simpl in Hr.
  { by injection Hr as _ <-. }
  destruct (cancelled i); [by injection Hr as _ <-|].
  destruct (field_of _ _ _) as [[f q0]|] eqn:Ef; [|by injection Hr as _ <-]. apply field_of_frozen in Ef.
  destruct (call_value f [arg] _) as [c q] eqn:Ec. apply call_value_frozen in Ec.
  assert (frozen p q) as Hpq by (transitivity q0; [exact Ef|exact Ec]).
  transitivity q; [exact Hpq|]. destruct c as [rs|e|m]; [exact (IH _ _ _ Hr)|by injection Hr as _ <-..].
Qed.

(** After a successful preparation the list of steps never changes, whatever the steps do
    when they run; nor is a step added to the table or removed, unless a key that it lacks
    has been read. *)
Theorem steps_immutable (source : string) (w : W) (n : N) (m : R) (p : program) (cancelled : nat → bool)
    (r : outcome unit) (st : list lua_value) (p' : program) :
  Lua source w n m = (Ok tt, p) → Execute cancelled p = (r, st, p') →
  configured p' = true ∧ steps p' = steps p ∧ (missed p' = false → dom (step_table p') = dom (step_table p)).
Proof.
  intros HL HE. rewrite Execute_spec in HE. destruct (steps_spec _ _ _ _ _ _) as [r1 p1] eqn:E.
  injection HE as _ _ <-. apply steps_spec_frozen in E.
  destruct E as (E1 & E2 & _ & E3); [|by split_and!]. simpl.
  unfold Lua in HL. destruct (vm_load source) as [chunk| |]; [|done..].
  destruct (interp chunk _) as [[]]; by simplify_eq/=.
Qed.

(** When the script gives each step a function, and reads none that is missing, the steps to
    execute are the keys of the table, each once, however often a step was assigned. *)
Theorem Lua_steps (source : string) (chunk : script W unit) (w : W) (n : N) (m : R) (p : program) :
  vm_load source = Ok chunk → names_steps chunk → Lua source w n m = (Ok tt, p) → missed p = false →
  NoDup (steps p) ∧ ∀ s, s ∈ steps p ↔ s ∈ dom (step_table p).
Proof.
  intros Hl Hs HL Hm. unfold Lua in HL. rewrite Hl in HL.
  destruct (interp chunk (configureLua w n m)) as [c q] eqn:E.
  apply interp_inv in E; [|done|right; split; [constructor|set_solver]].
  destruct c; simplify_eq/=. by destruct E as [?|E]; [congruence|].
Qed.

(** Preparing a program logs nothing ([info] and [fatal] fail there), and every line
    logged by an execution carries the name of a step. *)
Theorem logs_in_steps (source : string) (w : W) (n : N) (m : R) (p : program) (r0 : outcome unit)
    (cancelled : nat → bool) (r : outcome unit) (st : list lua_value) (p' : program) :
  Lua source w n m = (r0, p) → Execute cancelled p = (r, st, p') →
  out p = [] ∧ Forall (fun l => lg_step l ∈ steps p) (out p').
Proof.
  intros HL HE.
  assert (out p = []) as Hp.
  { unfold Lua in HL. destruct (vm_load source) as [chunk| |]; [|by injection HL as _ <-..].
    destruct (interp chunk _) as [c q] eqn:E.
    apply interp_logs in E as (_ & ls & Eo & Hls). simpl in Eo, Hls.
    assert (ls = []) as -> by (destruct Hls; [done|discriminate]).
    by destruct c; injection HL as _ <-. }
  split; [done|]. rewrite Execute_spec in HE. destruct (steps_spec _ _ _ _ _ _) as [r1 p1] eqn:E.
  injection HE as _ _ <-. apply steps_spec_logs in E as (ls & Eo & Hls). simpl in Eo. by rewrite Eo, Hp.
Qed.

(** ** Configurations *)

(** [VerifyConfig] accepts exactly the configurations that [AddConfig] adds without
    error, in whatever order the map is iterated; then every entry is a global with the
    text of its value, a null entry is no global, and nothing else changes. *)
Theorem config_verified (entries : list (string * config_value)) (p : program) :
  VerifyConfig entries = fst (AddConfig entries p) ∧
  (VerifyConfig entries = None → NoDup (map fst entries) →
   (∀ key v, (key, v) ∈ entries →
      globals (snd (AddConfig entries p)) !! key = (if is_LNil (config_global v) then None else Some (config_global v))) ∧
   (∀ key, key ∉ map fst entries → globals (snd (AddConfig entries p)) !! key = globals p !! key)).
Proof.
  split; [apply VerifyConfig_AddConfig|]. intros Hv Hnd. by apply AddConfig_globals.
Qed.
End engine.

(** ** What is reported *)

Section reports.
Context {W N : Type} {LV : LuaVM W} {HT : HTTP N} {WL : Wall}.
Abbreviation program := (LuaProgram W N (list metric_call)).

Definition step_metrics (cs : list metric_call) : list metric_call := filter is_step_metric cs.

(** The reports of a loop over [names] that ran the steps [executed]. *)
Definition loop_reports (cancelled : nat → bool) (i : nat) (names executed : list string) (ds : list Z)
    (r : outcome unit) (cs : list metric_call) : Prop :=
  length ds = length executed ∧
  ∃ rest, names = executed ++ rest ∧
  match r with
  | Ok _ => step_metrics cs = zip_with IncrStepExecution executed ds ∧
            (rest = [] ∨ cancelled (i + length executed)%nat = true)
  | Err e => ∃ name rest' e', rest = name :: rest' ∧ e = StepError name e' ∧
             step_metrics cs = zip_with IncrStepExecution executed ds ++ [IncrStepError name]
  | Panic _ => step_metrics cs = zip_with IncrStepExecution executed ds
  end.

Lemma steps_spec_reports cancelled i names table arg (p : program) r p' :
  steps_spec cancelled i names table arg p = (r, p') →
  ∃ executed ds cs, metrics p' = metrics p ++ cs ∧ loop_reports cancelled i names executed ds r cs.
Proof.
  revert i arg p. induction names as [|name names IH]; intros i arg p Hr; simpl in Hr.
  { injection Hr as <- <-. exists [], [], []. rewrite app_nil_r. split; [done|]. split; [done|]. exists []. auto. }
  destruct (cancelled i) eqn:Hc.
  { injection Hr as <- <-. exists [], [], []. rewrite app_nil_r. split; [done|]. split; [done|].
    exists (name :: names). rewrite Nat.add_0_r. auto. }
  destruct (field_of _ _ _) as [[f q0]|] eqn:Ef.
  2: { injection Hr as <- <-. exists [], [], []. rewrite app_nil_r. split; [done|]. split; [done|]. by exists (name :: names). }
  destruct (call_value f [arg] _) as [c q] eqn:Ec.
  apply (field_of_kept no_step_reports) in Ef; [|by intros; apply no_step_reports_same].
  apply call_value_reports in Ec. assert (no_step_reports p q) as (cs1 & E1 & F1) by (transitivity q0; done).
  destruct c as [rs|e|m].
  - apply IH in Hr as (ex & ds & cs & E2 & Hlen & rest & -> & Hres). simpl in E2.
    match type of E2 with context [IncrStepExecution name ?x] => set (d := x) in * end.
    exists (name :: ex), (d :: ds), (cs1 ++ IncrStepExecution name d :: cs).
    assert (step_metrics (cs1 ++ IncrStepExecution name d :: cs) = IncrStepExecution name d :: step_metrics cs) as Hsm.
    { unfold step_metrics. rewrite filter_app, F1. simpl. by rewrite filter_cons_True. }
    split; [unfold report, trace_reporter in E2; by rewrite E2, E1, <- !app_assoc|].
    split; [simpl; lia|]. exists rest. split; [done|]. rewrite Hsm. simpl.
    replace (i + S (length ex))%nat with (S i + length ex)%nat by lia.
    destruct r as [u|e|m]; [destruct Hres as [-> ?]; auto| |by rewrite Hres].
    destruct Hres as (x & rest' & e' & -> & -> & ->). by exists x, rest', e'.
  - injection Hr as <- <-. exists [], [], (cs1 ++ [IncrStepError name]).
    split; [simpl; unfold report, trace_reporter; by rewrite E1, <- app_assoc|].
    split; [done|]. exists (name :: names). split; [done|]. exists name, names, e. split_and!; [done..|].
    unfold step_metrics. rewrite filter_app, F1. simpl. by rewrite filter_cons_True.
  - injection Hr as <- <-. exists [], [], cs1. split; [done|]. split; [done|]. by exists (name :: names).
Qed.

(** C7: an execution reports itself once, then each step it completes, once and in the
    order of the steps; when it returns an error that is the error of the next step,
    which is reported as failed; when it returns none every step was executed, or the
    context was cancelled. *)
Theorem Execute_reports (cancelled : nat → bool) (p : program) (r : outcome unit) (st : list lua_value)
    (p' : program) :
  Execute cancelled p = (r, st, p') →
  ∃ executed ds cs, metrics p' = metrics p ++ IncrScriptExecution :: cs ∧
    loop_reports cancelled 0 (steps p) executed ds r cs.
Proof.
  intros HE. rewrite Execute_spec in HE. destruct (steps_spec _ _ _ _ _ _) as [r1 p1] eqn:E.
  injection HE as <- _ <-. apply steps_spec_reports in E as (ex & ds & cs & Em & Hl).
  exists ex, ds, cs. split; [|done]. rewrite Em. simpl. unfold report, trace_reporter. by rewrite <- app_assoc.
Qed.

(** A [get] or [post] of a script whose arguments are strings reports exactly: an
    HTTP error when there is no answer; the answer's code when its body is read; both
    when the body cannot be read.  The script goes on exactly when nothing failed, with
    the code, status, length, headers and body of the answer in a new table. *)
Theorem http_reports (verb : string) (u : string) (count : Z → Z → metric_call) (start : Z)
    (resp : outcome response) (p : program) (r : outcome (list lua_value)) (p' : program) :
  finish_request verb u count start resp p = (r, p') →
  match resp with
  | Ok a =>
      ∃ d, match Body a with
           | Ok b => metrics p' = metrics p ++ [count (StatusCode a) d] ∧
                     ∃ fs, r = Ok [LFresh fs] ∧ NoDup (map fst fs) ∧
                       ("code"%string, LNumber (float_of_int (StatusCode a))) ∈ fs ∧
                       ("status"%string, LString (Status a)) ∈ fs ∧ ("body"%string, LString b) ∈ fs ∧
                       ("content_length"%string, LNumber (float_of_int (ContentLength a))) ∈ fs
           | Err e => metrics p' = metrics p ++ [IncrHTTPError (to_bytes u); count (StatusCode a) d] ∧ is_ok r = false
           | Panic m => r = Panic m
           end
  | Err e => metrics p' = metrics p ++ [IncrHTTPError (to_bytes u)] ∧ is_ok r = false
  | Panic m => r = Panic m
  end.
Proof.
  unfold finish_request. destruct resp as [a|e|m]; [|by intros [= <- <-]..].
  unfold pushResponse. destruct (Body a) as [b|e|m] eqn:Hb; simpl; intros [= <- <-].
  - eexists. split; [reflexivity|]. eexists. split; [done|].
    split; [by apply (bool_decide_unpack _)|]. set_solver.
  - eexists. split; [|done]. simpl. unfold report, trace_reporter. rewrite <- app_assoc. reflexivity.
  - by exists 0.
Qed.
End reports.

(** ** On the script of EngineFacts.v *)

Lemma steps_immutable_witness :
  steps (snd test_run) = ["first_step"; "second_step"]%string.
Proof.
  destruct (steps_immutable "src" tt tt ([] : list metric_call) test_program (fun _ => false)
    (fst (fst test_run)) (snd (fst test_run)) (snd test_run)) as (_ & Hs & _); [by vm_compute|by vm_compute|].
  etrans; [exact Hs|by vm_compute].
Defined.

Lemma Lua_steps_witness :
  NoDup (steps test_program) ∧ ∀ s, s ∈ steps test_program ↔ s ∈ dom (step_table test_program).
Proof.
  apply (Lua_steps "src" test_chunk tt tt ([] : list metric_call)); [done| |by vm_compute..].
  repeat (split; [by eexists|split; [done|]]). done.
Defined.

Lemma logs_in_steps_witness :
  length (out (snd test_run)) = 2%nat ∧
  Forall (fun l => lg_step l ∈ ["first_step"; "second_step"]%string) (out (snd test_run)).
Proof.
  split; [by vm_compute|].
  apply (logs_in_steps "src" tt tt ([] : list metric_call) test_program (Ok tt) (fun _ => false)
    (fst (fst test_run)) (snd (fst test_run)) (snd test_run)); by vm_compute.
Defined.

Lemma Execute_reports_witness :
  fst (fst test_run) = Err (StepError "second_step" (Errorf "runtime error: oops")) ∧
  ∃ executed ds cs, metrics (snd test_run) = [] ++ IncrScriptExecution :: cs ∧
    loop_reports (fun _ => false) 0 ["first_step"; "second_step"]%string executed ds (fst (fst test_run)) cs.
Proof.
  split; [by vm_compute|].
  apply (Execute_reports (fun _ => false) test_program (fst (fst test_run)) (snd (fst test_run)) (snd test_run)).
  by vm_compute.
Defined.

Lemma http_reports_witness :
  ∃ d, metrics (snd (finish_request "GET" "u" (IncrHTTPGet []) 0 (Ok test_answer) test_program)) =
       [IncrHTTPGet [] 200 d].
Proof.
  destruct (http_reports "GET" "u" (IncrHTTPGet []) 0 (Ok test_answer) test_program _ _ eq_refl) as (d & Hm & _).
  exists d. exact Hm.
Defined.
