(* ===== verification/Job.v ===== *)
(** * Running the script for one job (executor/controller/worker.go, controller.go)

    What [worker.execute] does with a job it has taken, and [RunInstructions], which
    checks script and configuration once before the load test starts.  A worker that
    returns from its loop is the step [WFail] of Dispatch.v, one that goes on is
    [WFinish].  [json.Unmarshal] into a map is a parameter: it lists the entries of the
    map in the order of the later iteration. *)
From Stdlib Require Import ZArith Lia.
From stdpp Require Import base option list strings gmap.
From S2P Require Import Prelude GoNum GoFmt Strconv Messages LineProtocol Metrics Engine EngineFacts.

(** What becomes of the worker after a job. *)
Inductive job_end :=
  | Continue
  | Stop (why : error)
  | Crash (msg : string).

Class JSON := Unmarshal : string → outcome (list (string * config_value)).

Section job.
Context {W N : Type} {LV : LuaVM W} {HT : HTTP N} {WL : Wall} {JS : JSON}.
(** The heap of a new VM. *)
Context (new_heap : W).

(** [VerifyConfig] and [AddConfig] of a configuration text; the empty text is none. *)
Definition check_config (config : string) : outcome unit :=
  if bool_decide (config = ""%string) then Ok tt else
  cfg ← Unmarshal config;
  match VerifyConfig cfg with Some e => Err e | None => Ok tt end.

Definition add_config {R} (config : string) (p : LuaProgram W N R) : outcome unit * LuaProgram W N R :=
  if bool_decide (config = ""%string) then (Ok tt, p) else
  match Unmarshal config with
  | Ok cfg => match AddConfig cfg p with
              | (Some e, p) => (Err e, p)
              | (None, p) => (Ok tt, p)
              end
  | Err e => (Err e, p)
  | Panic m => (Panic m, p)
  end.

(** The body of the worker's loop with a job in hand: a fresh program, its configuration,
    one execution. *)
Definition run_job {R} {MR : MetricReporter R} (set_test : Z → R → R) (script config : string) (testNum : Z)
    (n : N) (m : R) : job_end * N * R :=
  let m := set_test testNum m in
  match Lua script new_heap n m with
  | (Err e, p) => (Stop e, net p, metrics p)
  | (Panic msg, p) => (Crash msg, net p, metrics p)
  | (Ok _, prog) =>
      match add_config config prog with
      | (Err e, p) => (Stop e, net p, metrics p)
      | (Panic msg, p) => (Crash msg, net p, metrics p)
      | (Ok _, prog) =>
          match Execute (fun _ => false) prog with
          | (Ok _, _, p) => (Continue, net p, metrics p)
          | (Err e, _, p) => (Continue, net p, metrics (incr (AddLuaError e) p))
          | (Panic msg, _, p) => (Crash msg, net p, metrics p)
          end
      end
  end.

(** [RunInstructions] up to [runScript]. *)
Definition check_instructions (script config : string) (n : N) : outcome unit * N :=
  match Lua script new_heap n tt with
  | (Ok _, p) => (check_config config, net p)
  | (Err e, p) => (Err e, net p)
  | (Panic msg, p) => (Panic msg, net p)
  end.

(** ** Preparations that do not depend on the world *)

Section two.
Context {R1 R2 : Type} {M1 : MetricReporter R1} {M2 : MetricReporter R2}.

(** The script calls no host function, whatever it reads. *)
Fixpoint no_calls {A} (s : script W A) : Prop :=
  match s with
  | Return _ | Fail _ => True
  | GetGlobal _ k | GetStep _ k => ∀ v, no_calls (k v)
  | SetGlobal _ _ k | SetHeap _ k | SetStep _ _ k => no_calls k
  | GetHeap k => ∀ w, no_calls (k w)
  | CallHost _ _ _ => False
  end.

Definition same_core (p : LuaProgram W N R1) (q : LuaProgram W N R2) : Prop :=
  configured p = configured q ∧ steps p = steps q ∧ step_table p = step_table q ∧
  globals p = globals q ∧ heap p = heap q ∧ step_others p = step_others q ∧ missed p = missed q.

Lemma registerStep_same key v p q :
  same_core p q →
  fst (registerStep key v p) = fst (registerStep key v q) ∧
  same_core (snd (registerStep key v p)) (snd (registerStep key v q)).
Proof.
  intros (E1 & E2 & E3 & E4 & E5 & E6' & E7). unfold registerStep, lua_Errorf. rewrite E1, E2, E3, E5.
  destruct (configured q) eqn:E6; [|destruct (CheckString key)]; simpl;
    (split; [done|]); repeat split; simpl; congruence.
Qed.

Lemma step_value_same key p q : same_core p q → step_value key p = step_value key q.
Proof. intros (_ & _ & E3 & _ & _ & E6 & _). unfold step_value. by rewrite E3, E6. Qed.

Lemma raw_same key v p q :
  same_core p q → fst (raw_assign key v p) = fst (raw_assign key v q) ∧ same_core (snd (raw_assign key v p)) (snd (raw_assign key v q)).
Proof.
  intros (E1 & E2 & E3 & E4 & E5 & E6 & E7). unfold raw_assign, lua_Errorf. rewrite E2, E3, E5, E6.
  destruct key; simpl; repeat case_match; (split; [done|]); repeat split; simpl; congruence.
Qed.

Lemma assign_same key v p q :
  same_core p q →
  fst (assign_step key v p) = fst (assign_step key v q) ∧
  same_core (snd (assign_step key v p)) (snd (assign_step key v q)).
Proof.
  intros Hc. unfold assign_step. rewrite (step_value_same key p q Hc). pose proof Hc as (_ & _ & _ & _ & _ & _ & ->).
  destruct (_ || _); [by apply raw_same|by apply registerStep_same].
Qed.

Lemma interp_same {A} (s : script W A) p q :
  no_calls s → same_core p q →
  fst (interp s p) = fst (interp s q) ∧ same_core (snd (interp s p)) (snd (interp s q)).
Proof.
  revert p q. induction s as [a|m|x k IH|x v k IH|key k IH|key v k IH|k IH|w k IH|h args k IH];
    intros p q Hs Hc; simpl in *; try done; pose proof Hc as (E1 & E2 & E3 & E4 & E5 & E6 & E7).
  - rewrite E4. by apply IH.
  - apply IH; [done|]. repeat split; simpl; congruence.
  - unfold read_step. rewrite (step_value_same key p q Hc). destruct (step_value key q); apply IH; done.
  - destruct (assign_same key v p q Hc) as [Hf Hp].
    destruct (assign_step key v p) as [r1 p1], (assign_step key v q) as [r2 q1]. simpl in *. subst r2.
    destruct r1; simpl; [by apply IH|by split..].
  - rewrite E5. by apply IH.
  - apply IH; [done|]. by repeat split.
Qed.

Lemma Lua_same source chunk n1 m1 n2 m2 :
  vm_load source = Ok chunk → no_calls chunk →
  fst (Lua source new_heap n1 m1) = fst (Lua source new_heap n2 m2) ∧
  same_core (snd (Lua source new_heap n1 m1)) (snd (Lua source new_heap n2 m2)).
Proof.
  intros Hl Hn. unfold Lua. rewrite Hl.
  destruct (interp_same chunk (configureLua new_heap n1 m1) (configureLua new_heap n2 m2)) as [Hf Hc]; [done|by repeat split|].
  destruct (interp chunk (configureLua new_heap n1 m1)) as [r1 p1], (interp chunk (configureLua new_heap n2 m2)) as [r2 p2].
  simpl in *. subst r2. destruct r1; simpl; (split; [done|]); [|done..].
  destruct Hc as (E1 & E2 & E3 & E4 & E5 & E6 & E7). by repeat split.
Qed.
End two.
End job.

(** * Properties of the jobs *)

Section verified.
Context {W N R : Type} {LV : LuaVM W} {HT : HTTP N} {WL : Wall} {JS : JSON} {MR : MetricReporter R}.
Context (new_heap : W) (set_test : Z → R → R).

Lemma add_config_checked config (p : LuaProgram W N R) :
  check_config config = Ok tt → fst (add_config config p) = Ok tt.
Proof.
  unfold check_config, add_config. case_bool_decide; [done|].
  destruct (Unmarshal config) as [cfg|e|m]; [|done..]. simpl. rewrite (VerifyConfig_AddConfig cfg p).
  destruct (AddConfig cfg p) as [[e|] q]; done.
Qed.

(** When [RunInstructions] accepts a script whose preparation calls no host function,
    and its configuration, then no job makes a worker stop, whatever the metrics, the
    network and the number of the job: a failing execution is recorded as a Lua error
    and the worker goes on.  Only an uncaught Lua error ends it, with the process. *)
Theorem checked_job_continues (script config : string) (chunk : Engine.script W unit) (n0 n : N) (m : R) (testNum : Z) :
  vm_load script = Ok chunk → no_calls chunk →
  fst (check_instructions new_heap script config n0) = Ok tt →
  (fst (fst (run_job new_heap set_test script config testNum n m)) = Continue ∨
   ∃ msg, fst (fst (run_job new_heap set_test script config testNum n m)) = Crash msg).
Proof.
  intros Hl Hn Hc. unfold check_instructions in Hc.
  destruct (Lua_same new_heap script chunk n0 tt n (set_test testNum m) Hl Hn) as [Hf _].
  destruct (Lua script new_heap n0 tt) as [r1 p1]. unfold run_job.
  destruct (Lua script new_heap n (set_test testNum m)) as [r2 p2]. simpl in Hf. subst r2.
  destruct r1 as [u|e|msg]; simpl in Hc; [|done..].
  pose proof (add_config_checked config p2 Hc) as Ha. destruct (add_config config p2) as [r3 p3].
  simpl in Ha. subst r3. destruct (Execute _ p3) as [[[u'|e|msg] st] p4]; simpl; eauto.
Qed.

(** An accepted configuration with an entry named [step] replaces the global that the
    execution looks the steps up in: every job of a script with a step ends the process. *)
Theorem config_step_crashes (script config : string) (entries : list (string * config_value)) (v : config_value)
    (n : N) (m : R) (testNum : Z) (p : LuaProgram W N R) :
  Unmarshal config = Ok entries → config ≠ ""%string → VerifyConfig entries = None →
  NoDup (map fst entries) → ("step"%string, v) ∈ entries →
  Lua script new_heap n (set_test testNum m) = (Ok tt, p) → steps p ≠ [] →
  check_config config = Ok tt ∧
  ∃ msg, fst (fst (run_job new_heap set_test script config testNum n m)) = Crash msg.
Proof.
  intros Hu Hne Hv Hnd Hin HL Hs. split.
  { unfold check_config. rewrite bool_decide_false, Hu by done. simpl. by rewrite Hv. }
  unfold run_job, add_config. rewrite HL, bool_decide_false, Hu by done.
  pose proof (VerifyConfig_AddConfig entries p) as He. rewrite Hv in He.
  destruct (AddConfig_globals entries p Hv Hnd) as [Hg _]. specialize (Hg _ _ Hin).
  destruct (AddConfig_core entries p) as (_ & Hst & _).
  destruct (AddConfig entries p) as [e q]. simpl in *. subst e.
  unfold Execute, runSteps. simpl. rewrite Hst, Hg. destruct (steps p) as [|name names]; [done|].
  simpl. destruct v; simpl; eauto.
Qed.
End verified.

(** A configuration text by its entries. *)
#[local] Instance test_json : JSON := fun s =>
  if bool_decide (s = "step"%string) then Ok [("step"%string, CString "x")]
  else Ok [("rate"%string, CFloat (float_lit 5 2))].

Definition test_job (config : string) : job_end * unit * list metric_call :=
  run_job tt (fun _ m => m) "src" config 0 tt [].

Lemma checked_job_continues_witness : fst (fst (test_job "rate")) = Continue.
Proof.
  destruct (checked_job_continues tt (fun _ m => m) "src" "rate" test_chunk tt tt ([] : list metric_call) 0)
    as [H|[msg H]]; [reflexivity|done|by vm_compute|exact H|].
  exfalso. by vm_compute in H.
Defined.

Lemma config_step_crashes_witness : ∃ msg, fst (fst (test_job "step")) = Crash msg.
Proof.
  destruct (config_step_crashes tt (fun _ m => m) "src" "step" [("step"%string, CString "x")] (CString "x") tt
    ([] : list metric_call) 0 test_program) as [_ H]; [reflexivity|done|reflexivity| | |by vm_compute|by vm_compute|exact H].
  - apply NoDup_singleton.
  - by left.
Defined.
