(* ===== verification/ExecGrpc.v ===== *)
(** * The executor's gRPC service (executor/controller/executor_grpc_listener.go, executord)

    Registration with the scheduler, [ExecuteCommand] and the goroutine [listenForHalt]
    that reads the command stream while the load test runs.

    The stream is the list of what the successive calls of [server.Recv] yield; what
    [server.Send] returns is a parameter, as are the dial and the call to the scheduler.
    The load test itself enters [ExecuteCommand] as what [RunInstructions] returns,
    together with the part of the stream that the goroutine has read by then. *)
From Stdlib Require Import ZArith Lia.
From stdpp Require Import base option list strings.
From S2P Require Import Prelude GoNum GoFmt Messages.

(** ** The command stream *)

(** A call of [Recv]: a message, a nil message without error, an error, a panic. *)
Inductive recv :=
  | RecvMsg (m : CommandMessage)
  | RecvNil
  | RecvErr (e : error)
  | RecvPanic (msg : string).

(** The variables of [ExecuteCommand] that the goroutine shares, and what it sent. *)
Record listener := mkListener {
  l_haltClosed : bool;
  l_halted : bool;
  l_serverErr : option error;
  l_sent : list string
}.

Definition new_listener : listener := mkListener false false None [].

(** One iteration of the loop, the deferred [close(halt)] included when it returns: the
    error of [Recv] is declared inside the loop, the shared [serverErr] is not
    assigned.  A panic is recovered. *)
Definition listen_step (r : recv) (l : listener) : listener :=
  match r with
  | RecvErr _ | RecvPanic _ => mkListener true (l_halted l) (l_serverErr l) (l_sent l)
  | RecvNil => l
  | RecvMsg m =>
      if bool_decide (Command m = "Halt"%string) then mkListener true true (l_serverErr l) (l_sent l)
      else mkListener (l_haltClosed l) (l_halted l) (l_serverErr l) (l_sent l ++ ["Invalid"%string])
  end.

(** [listenForHalt] over the messages it has read so far. *)
Fixpoint listenForHalt (rs : list recv) (l : listener) : listener :=
  match rs with
  | [] => l
  | r :: rs => let l := listen_step r l in if l_haltClosed l then l else listenForHalt rs l
  end.

(** ** [ExecuteCommand] *)

Section command.
(** What [server.Send] of a status returns. *)
Context (Send : string → outcome unit).

(** What it returns, and the statuses it sent itself, in order. *)
Definition ExecuteCommand (first : recv) (during : list recv) (run : ScriptParams → string → outcome unit)
    : outcome unit * list string :=
  match first with
  | RecvErr _ | RecvNil => (Panic "invalid memory address or nil pointer dereference", [])
  | RecvPanic msg => (Panic msg, [])
  | RecvMsg m =>
      if negb (bool_decide (Command m = "Run"%string)) then (Send "Invalid", ["Invalid"%string]) else
      match CmdScriptParams m with
      | None => (Panic "invalid memory address or nil pointer dereference", [])
      | Some params =>
          match verifyCommand params with
          | Some err => (Err err, ["Invalid: " +:+ Error err])
          | None =>
              let l := listenForHalt during new_listener in
              match run params (ScriptConfig m) with
              | Err err => (Err err, ["Invalid: " +:+ Error err])
              | Panic msg => (Panic msg, [])
              | Ok _ =>
                  match l_serverErr l with
                  | Some e => (Err e, [])
                  | None => if l_halted l then (Send "Halted", ["Halted"%string])
                            else (Send "OK", ["OK"%string])
                  end
              end
          end
      end
  end%string.
End command.

(** ** Registration *)

Section register.
(** [grpc.Dial] and the call of [RegisterExecutor]; the persister set up from the
    answer. *)
Context {P : Type} (Dial : string → outcome unit)
  (RegisterExecutor : RegisterExecutorReq → outcome RegisterExecutorResp)
  (SetupPersister : string → string → string → string → bool → P → outcome P).

Definition registerDroplet (dropletId : Z) (persister : P) (schedulerAddr : string) (port : Z) : outcome P :=
  let req := mkRegisterExecutorReq (int64_of dropletId) (int64_of port) in
  _ ← Dial schedulerAddr;
  msg ← RegisterExecutor req;
  SetupPersister (InfluxAddr msg) (InfluxUsername msg) (InfluxPassword msg) (InfluxDb msg) (InfluxSsl msg) persister.

(** The server that [NewGRPCExecutorStarter] makes, by the fields of its service. *)
Record GRPCExecutorStarter := mkStarter { st_persister : P; st_dropletId : Z }.

Definition NewGRPCExecutorStarter (persister : P) (schedulerAddr : string) (port dropletId : Z)
    : outcome GRPCExecutorStarter :=
  persister ← registerDroplet dropletId persister schedulerAddr port;
  Ok (mkStarter persister dropletId).

(** [CreateListenPort]: the address it listens on. *)
Definition listenPort (port : Z) : string := (":" +:+ fmt_d port)%string.

Definition CreateListenPort {L} (Listen : string → outcome L) (port : Z) : outcome L := Listen (listenPort port).

(** [start] of executord: the droplet's own id when none is given; a failure of any part
    is [log.Fatalf]. *)
Definition start {L} (getDropletId : outcome Z) (Listen : string → outcome L) (persister : P)
    (schedulerAddr : string) (port dropletId : Z) : outcome (GRPCExecutorStarter * L) :=
  dropletId ← (if dropletId =? -1 then getDropletId else Ok dropletId);
  s ← NewGRPCExecutorStarter persister schedulerAddr port dropletId;
  lis ← CreateListenPort Listen port;
  Ok (s, lis).
End register.

(** ** Facts *)

Lemma listen_serverErr rs l : l_serverErr (listenForHalt rs l) = l_serverErr l.
Proof.
  revert l. induction rs as [|r rs IH]; intros l; simpl; [done|].
  assert (l_serverErr (listen_step r l) = l_serverErr l) as E.
  { destruct r as [m| |e|p]; simpl; try done. by case_bool_decide. }
  case_match; [done|]. by rewrite IH.
Qed.

Definition is_halt (r : recv) : bool :=
  match r with RecvMsg m => bool_decide (Command m = "Halt"%string) | _ => false end.
Definition is_end (r : recv) : bool := match r with RecvErr _ | RecvPanic _ => true | _ => is_halt r end.

(** The goroutine stops at the first end of the stream; [halted] says whether that was a
    Halt. *)
Lemma listen_spec rs l :
  l_haltClosed l = false → l_halted l = false →
  match list_find (fun r => is_end r = true) rs with
  | Some (_, r) => l_haltClosed (listenForHalt rs l) = true ∧ l_halted (listenForHalt rs l) = is_halt r
  | None => l_haltClosed (listenForHalt rs l) = false ∧ l_halted (listenForHalt rs l) = false
  end.
Proof.
  revert l. induction rs as [|r rs IH]; intros l Hc Hh; simpl; [done|].
  destruct r as [m| |e|p]; simpl.
  - destruct (bool_decide (Command m = "Halt"%string)) eqn:E; [simpl; by rewrite ?E|].
    rewrite Hc. specialize (IH (mkListener false (l_halted l) (l_serverErr l) (l_sent l ++ ["Invalid"%string])) eq_refl Hh).
    simpl in IH. destruct (list_find _ rs) as [[i r]|]; exact IH.
  - rewrite Hc. specialize (IH l Hc Hh). destruct (list_find _ rs) as [[i r]|]; exact IH.
  - auto.
  - auto.
Qed.

(** ** Properties *)


(** The load test is told to stop exactly when the stream has ended: at a Halt, an
    error or a panic of [Recv]; other commands and empty messages are answered or
    ignored, and never stop it. *)
Theorem halt_closed (during : list recv) :
  l_haltClosed (listenForHalt during new_listener) = true ↔ Exists (fun r => is_end r = true) during.
Proof.
  pose proof (listen_spec during new_listener eq_refl eq_refl) as Hl.
  destruct (list_find (fun r => is_end r = true) during) as [[i x]|] eqn:E; destruct Hl as [Hl _]; rewrite Hl.
  - split; [|done]. intros _. apply list_find_Some in E as (Hi & Hx & _).
    apply Exists_exists. exists x. split; [by eapply list_elem_of_lookup_2|done].
  - split; [done|]. intros (x & Hin & Hx)%Exists_exists.
    apply list_find_None in E. rewrite Forall_forall in E. by destruct (E x Hin).
Qed.
