(* ===== verification/Controller.v ===== *)
(** * One command at the executor (executor/controller/controller.go)

    [RunInstructions] as [ExecuteCommand] calls it: the checks of Job.v, the load test of
    Dispatch.v by the batch it returns, and the persisting of that batch. *)
From Stdlib Require Import ZArith Lia.
From stdpp Require Import base option list strings gmap.
From S2P Require Import Prelude GoNum GoFmt Strconv LineProtocol Metrics Persist Engine EngineFacts Job Messages ExecGrpc.

Section controller.
Context {W N : Type} {LV : LuaVM W} {HT : HTTP N} {WL : Wall} {JS : JSON}.
Context {P : Type} {PE : Persister P}.
(** The heap of a new VM, the network and the persister at the time of the command. *)
Context (new_heap : W) (n : N) (p : P).
(** The batch that [runScript] returns for accepted parameters. *)
Context (runScript : ScriptParams → outcome BatchPoints).

(** The retry loop always has an end, so its fuel does not show. *)
Definition RunInstructions (params : ScriptParams) (config : string) : outcome unit :=
  match fst (check_instructions new_heap (Script params) config n) with
  | Ok _ =>
      match runScript params with
      | Ok bps => match sendBatchPoints p bps with
                  | Some (_, _, r) => r
                  | None => Panic "out of fuel"
                  end
      | Err e => Err e
      | Panic m => Panic m
      end
  | r => r
  end.

Lemma RunInstructions_persisted params config :
  RunInstructions params config = Ok tt →
  fst (check_instructions new_heap (Script params) config n) = Ok tt ∧
  ∃ bps k, runScript params = Ok bps ∧ (k < 12)%nat ∧ attempt k p bps = Ok tt ∧
    ∀ i, (i < k)%nat → is_err (attempt i p bps) = true.
Proof.
  unfold RunInstructions. destruct (fst (check_instructions _ _ _ _)) as [[]|e|m]; [|done..]. intros H. split; [done|].
  destruct (runScript params) as [bps|e|m]; [|done..]. exists bps.
  destruct (sendBatchPoints_loop_spec 12 0 p bps eq_refl ltac:(lia) ltac:(lia)) as (k & Hk & Hall & _ & Hs).
  unfold sendBatchPoints in H. rewrite Hs in H. destruct (after (S k) p bps). exists k. split; [done|]. split; [done|]. split; [exact H|exact Hall].
Qed.

(** C40: the executor answers OK or Halted only for a Run command whose parameters, script
    and configuration passed the checks, and only after one of at most twelve attempts
    has persisted the last batch of its load test; those before it failed. *)
Theorem completion_persisted (Send : string → outcome unit) (m : CommandMessage) (during : list recv)
    (r : outcome unit) (sent : list string) (status : string) :
  ExecuteCommand Send (RecvMsg m) during RunInstructions = (r, sent) → status ∈ sent →
  status = "OK"%string ∨ status = "Halted"%string →
  ∃ params bps k, Command m = "Run"%string ∧ CmdScriptParams m = Some params ∧ verifyCommand params = None ∧
    fst (check_instructions new_heap (Script params) (ScriptConfig m) n) = Ok tt ∧
    runScript params = Ok bps ∧ (k < 12)%nat ∧ attempt k p bps = Ok tt ∧
    ∀ i, (i < k)%nat → is_err (attempt i p bps) = true.
Proof.
  unfold ExecuteCommand. case_bool_decide as Hc; simpl; [|intros [= <- <-] ->%list_elem_of_singleton; naive_solver].
  assert (∀ e, status ∈ ["Invalid: " +:+ Error e]%string → status = "OK"%string ∨ status = "Halted"%string → False) as Hinv.
  { intros e ->%list_elem_of_singleton. by intros [?|?]. }
  destruct (CmdScriptParams m) as [params|]; [|intros [= <- <-] ?%elem_of_nil; done].
  destruct (verifyCommand params) eqn:Hv; [intros [= <- <-] Hin Hst; by destruct (Hinv _ Hin Hst)|].
  destruct (RunInstructions params (ScriptConfig m)) as [[]|e|msg] eqn:Hrun;
    [|intros [= <- <-] Hin Hst; by destruct (Hinv _ Hin Hst)|intros [= <- <-] ?%elem_of_nil; done].
  intros _ _ _. destruct (RunInstructions_persisted _ _ Hrun) as (Hchk & bps & k & Hb & Hk & Ha & Hall).
  exists params, bps, k. by split_and!.
Qed.
End controller.

(** ** A sample command, with a persister that fails once *)

#[local] Instance no_json : JSON := fun _ => Ok [].
#[local] Instance failing_once : Persister nat :=
  fun n bps => (S n, bps, match n with O => Err (Errorf "timeout") | _ => Ok tt end).

Definition sample_command : CommandMessage :=
  mkCommandMessage "Run" (Some (mkScriptParams "http://a" "src" "test" 60 100 FloatFacts.fone FloatFacts.fone 25 250)) "".

Lemma completion_persisted_witness :
  ∃ params bps k, CmdScriptParams sample_command = Some params ∧ (k < 12)%nat ∧ attempt k 0%nat bps = Ok tt.
Proof.
  destruct (completion_persisted tt tt 0%nat (fun _ => Ok (mkBatchPoints [] "" "" "" "")) (fun _ => Ok tt) sample_command []
    (Ok tt) ["OK"%string] "OK") as (params & bps & k & _ & Hp & _ & _ & _ & Hk & Ha & _); [by vm_compute|by left|by left|].
  exists params, bps, k. by split_and!.
Defined.
