(* ===== verification/SchedDB.v ===== *)
(** * Launching and registering executors (scheduler/db.go)

    [LaunchExecutors] with its goroutines, and the registrations that arrive on the RPC
    server meanwhile, as a labelled transition system.  A label is one scheduling choice
    or one answer of the cloud.  [db.lock] is held across no step except by a
    registration that waits to send on a full channel.

    The droplets the provider has are part of the state, so that a leaked one shows. *)
From Stdlib Require Import ZArith Lia.
From stdpp Require Import base option list strings gmap.
From S2P Require Import Prelude GoNum GoFmt Messages.

(** ** Droplets *)

Record Network := mkNetwork { IPAddress : string; NetType : string }.
Record Droplet := mkDroplet { ID : Z; DropletName : string; Networks : option (list Network) }.

(** [ipv4PublicAddress]: the first public address. *)
Fixpoint first_public (ns : list Network) : option string :=
  match ns with
  | [] => None
  | n :: ns => if bool_decide (NetType n = "public"%string) then Some (IPAddress n) else first_public ns
  end.

Definition ipv4PublicAddress (d : Droplet) : option string := ns ← Networks d; first_public ns.

Definition executorPrefix : string := "executor".

(** [NewDB]: delete the executors a crash has left, in the order of the list; the first
    error ends it.  [Delete] says which deletions fail; the ids deleted are returned. *)
Fixpoint NewDB_loop (Delete : Z → option error) (ds : list Droplet) : list Z * option error :=
  match ds with
  | [] => ([], None)
  | d :: ds =>
      if String.prefix executorPrefix (DropletName d) then
        match Delete (ID d) with
        | Some e => ([], Some e)
        | None => let '(ids, err) := NewDB_loop Delete ds in (ID d :: ids, err)
        end
      else NewDB_loop Delete ds
  end.

Definition NewDB (List : outcome (list Droplet)) (Delete : Z → option error) : list Z * option error :=
  match List with
  | Ok ds => NewDB_loop Delete ds
  | Err e => ([], Some e)
  | Panic m => ([], Some (Errorf m))
  end.

(** The name of executor [id]: [rand] and [unix] are drawn once per launch. *)
Definition droplet_name (rand unix id : Z) : string :=
  (executorPrefix +:+ "." +:+ (fmt_d rand +:+ "-" +:+ fmt_d unix) +:+ "." +:+ fmt_d id)%string.

(** An executor that has joined. *)
Record executor := mkExecutor { ex_droplet : Z; ex_ip : string; ex_port : Z }.

(** ** State *)

(** The goroutine of one executor: before [Create], waiting on its channel, with a port
    in hand, at its deferred deletion from [waitDroplets], ended. *)
Inductive gpc :=
  | GCreate
  | GWait (id : Z)
  | GGot (id port : Z)
  | GDelete (id : Z)
  | GExit.

Inductive mpc := MSelect | MRet (r : outcome (list executor)).

Record launch := mkLaunch {
  gs : list gpc;
  waitDroplets : gmap Z (option Z);   (** the channel of each droplet: empty, or a port *)
  blocked : option (Z * Z);           (** a registration sending while it holds the lock *)
  executorc : list executor;
  executorc_closed : bool;
  errc : list error;
  cancelled : bool;                   (** [ctx.Done()] is closed *)
  main : mpc;
  joined : list executor;             (** [exec.executors] *)
  droplets : gset Z;                  (** the provider's *)
  failed : nat                        (** goroutines that sent an error *)
}.

Inductive dlabel :=
  | LCreate (i : nat) (r : outcome Z)        (** [Droplets.Create] answers *)
  | LRegister (id port : Z) (del : option error)  (** [RegisterExecutorUp]; how a deletion it requests ends *)
  | LUnblock                                 (** the blocked registration sends *)
  | LRecv (i : nat)                          (** goroutine [i] receives its port *)
  | LCancel
  | LTimeout (i : nat)                       (** goroutine [i] sees [ctx.Done()] *)
  | LGet (i : nat) (r : outcome Droplet)     (** [Droplets.Get] answers *)
  | LDelete (i : nat)                        (** its deferred deletion *)
  | LClose                                   (** [close(executorc)] *)
  | MJoin | MAll | MErr | MCancelled.        (** the [select] of [LaunchExecutors] *)

Definition set_g (i : nat) (g : gpc) (s : launch) : launch :=
  mkLaunch (<[i:=g]> (gs s)) (waitDroplets s) (blocked s) (executorc s) (executorc_closed s) (errc s)
    (cancelled s) (main s) (joined s) (droplets s) (failed s).
Definition set_wait (w : gmap Z (option Z)) (b : option (Z * Z)) (s : launch) : launch :=
  mkLaunch (gs s) w b (executorc s) (executorc_closed s) (errc s) (cancelled s) (main s) (joined s) (droplets s) (failed s).
Definition set_execs (l : list executor) (c : bool) (s : launch) : launch :=
  mkLaunch (gs s) (waitDroplets s) (blocked s) l c (errc s) (cancelled s) (main s) (joined s) (droplets s) (failed s).
Definition send_err (e : error) (s : launch) : launch :=
  mkLaunch (gs s) (waitDroplets s) (blocked s) (executorc s) (executorc_closed s) (errc s ++ [e]) (cancelled s)
    (main s) (joined s) (droplets s) (S (failed s)).
Definition set_cancelled (s : launch) : launch :=
  mkLaunch (gs s) (waitDroplets s) (blocked s) (executorc s) (executorc_closed s) (errc s) true (main s) (joined s)
    (droplets s) (failed s).
Definition set_main (m : mpc) (l : list executor) (s : launch) : launch :=
  mkLaunch (gs s) (waitDroplets s) (blocked s) (executorc s) (executorc_closed s) (errc s) (cancelled s) m l
    (droplets s) (failed s).
Definition set_droplets (d : gset Z) (s : launch) : launch :=
  mkLaunch (gs s) (waitDroplets s) (blocked s) (executorc s) (executorc_closed s) (errc s) (cancelled s) (main s)
    (joined s) d (failed s).

Definition is_exit (g : gpc) : bool := match g with GExit => true | _ => false end.
Definition lock_free (s : launch) : bool := match blocked s with None => true | Some _ => false end.

(** ** Steps *)

Definition step_goroutine (i : nat) (l : dlabel) (s : launch) : option launch :=
  g ← gs s !! i;
  match l, g with
  | LCreate _ r, GCreate =>
      if negb (lock_free s) then None else
      match r with
      | Ok id => if bool_decide (id ∈ droplets s) then None else
                 Some (set_g i (GWait id)
                   (set_wait (<[id:=None]> (waitDroplets s)) (blocked s)
                     (set_droplets ({[id]} ∪ droplets s) s)))
      | Err e => Some (set_g i GExit (send_err e s))
      | Panic _ => None
      end
  | LRecv _, GWait id =>
      match waitDroplets s !! id with
      | Some (Some port) => Some (set_g i (GGot id port) (set_wait (<[id:=None]> (waitDroplets s)) (blocked s) s))
      | _ => None
      end
  | LTimeout _, GWait id => if cancelled s then Some (set_g i (GDelete id) s) else None
  | LGet _ r, GGot id port =>
      match r with
      | Ok d => match ipv4PublicAddress d with
                | Some ip => Some (set_g i (GDelete id)
                               (set_execs (executorc s ++ [mkExecutor (ID d) ip port]) (executorc_closed s) s))
                | None => Some (set_g i (GDelete id)
                            (send_err (Errorf ("no public IPv4 found on droplet " +:+ fmt_d (ID d))) s))
                end
      | Err e => Some (set_g i (GDelete id) (send_err e s))
      | Panic _ => None
      end
  | LDelete _, GDelete id =>
      if negb (lock_free s) then None
      else Some (set_g i GExit (set_wait (delete id (waitDroplets s)) (blocked s) s))
  | _, _ => None
  end.

(** [RegisterExecutorUp]: an expected droplet's port is sent on its channel, the
    deletion of an unexpected one is requested.  Its state and its result; when it has to
    wait to send, the result is that of the send to come. *)
Definition RegisterExecutorUp (id port : Z) (del : option error) (s : launch) : option (launch * option error) :=
  if negb (lock_free s) then None else
  match waitDroplets s !! id with
  | None => Some (match del with None => set_droplets (droplets s ∖ {[id]}) s | Some _ => s end,
              Some (Errorf ("unexpected droplet " +:+ fmt_d id +:+ " registered, delete request sent: "
                            +:+ match del with None => "<nil>" | Some e => Error e end)))
  | Some None => Some (set_wait (<[id:=Some port]> (waitDroplets s)) None s, None)
  | Some (Some _) => Some (set_wait (waitDroplets s) (Some (id, port)) s, None)
  end.

Definition step_main (l : dlabel) (s : launch) : option launch :=
  match main s with
  | MRet _ => None
  | MSelect =>
      match l with
      | MJoin => match executorc s with
                 | e :: q => Some (set_main MSelect (joined s ++ [e]) (set_execs q (executorc_closed s) s))
                 | [] => None
                 end
      | MAll => if executorc_closed s && bool_decide (executorc s = []) then Some (set_main (MRet (Ok (joined s))) (joined s) s)
                else None
      | MErr => match errc s with e :: _ => Some (set_main (MRet (Err e)) (joined s) s) | [] => None end
      | MCancelled => if cancelled s then Some (set_main (MRet (Err (Errorf "context canceled"))) (joined s) s) else None
      | _ => None
      end
  end.

Definition label_g (l : dlabel) : option nat :=
  match l with
  | LCreate i _ | LRecv i | LTimeout i | LGet i _ | LDelete i => Some i
  | _ => None
  end.

#[export] Instance executor_eq_dec : EqDecision executor.
Proof. solve_decision. Defined.

Definition launch_step (l : dlabel) (s : launch) : option launch :=
  match l with
  | LCreate i _ | LRecv i | LTimeout i | LGet i _ | LDelete i => step_goroutine i l s
  | LRegister id port del => fst <$> RegisterExecutorUp id port del s
  | LUnblock =>
      '(id, port) ← blocked s;
      match waitDroplets s !! id with
      | Some None => Some (set_wait (<[id:=Some port]> (waitDroplets s)) None s)
      | _ => None
      end
  | LCancel => if cancelled s then None else Some (set_cancelled s)
  | LClose => if executorc_closed s || negb (forallb is_exit (gs s)) then None
              else Some (set_execs (executorc s) true s)
  | _ => step_main l s
  end.

Definition launch_rel (s : launch) (l : dlabel) (t : launch) : Prop := launch_step l s = Some t.

(** [LaunchExecutors] of [count], with the provider's droplets before it. *)
Definition LaunchExecutors (count : nat) (ds : gset Z) : launch :=
  mkLaunch (replicate count GCreate) ∅ None [] false [] false MSelect [] ds 0.

Fixpoint launch_exec (ls : list dlabel) (s : launch) : option launch :=
  match ls with [] => Some s | l :: ls => launch_step l s ≫= launch_exec ls end.

Lemma launch_exec_run ls s t : launch_exec ls s = Some t → run launch_rel s ls t.
Proof.
  revert s. induction ls as [|l ls IH]; simpl; intros s H; [injection H as ->; constructor|].
  apply bind_Some in H as (u & Hu & Ht). econstructor; [exact Hu|by apply IH].
Qed.
