(* ===== verification/SchedDBProps.v ===== *)
(** * Properties of launching and registering executors *)
From Stdlib Require Import ZArith Lia.
From stdpp Require Import base option list strings gmap.
From S2P Require Import Prelude GoNum GoFmt Messages SchedDB.

(** ** The steps of a goroutine, one by one *)

Inductive gstep (i : nat) (s : launch) : dlabel → gpc → gpc → launch → Prop :=
  | gs_create id : lock_free s = true → id ∉ droplets s →
      gstep i s (LCreate i (Ok id)) GCreate (GWait id)
        (set_wait (<[id:=None]> (waitDroplets s)) (blocked s) (set_droplets ({[id]} ∪ droplets s) s))
  | gs_create_err e : lock_free s = true →
      gstep i s (LCreate i (Err e)) GCreate GExit (send_err e s)
  | gs_recv id port : waitDroplets s !! id = Some (Some port) →
      gstep i s (LRecv i) (GWait id) (GGot id port) (set_wait (<[id:=None]> (waitDroplets s)) (blocked s) s)
  | gs_timeout id : cancelled s = true → gstep i s (LTimeout i) (GWait id) (GDelete id) s
  | gs_get id port d ip : ipv4PublicAddress d = Some ip →
      gstep i s (LGet i (Ok d)) (GGot id port) (GDelete id)
        (set_execs (executorc s ++ [mkExecutor (ID d) ip port]) (executorc_closed s) s)
  | gs_get_err id port r e :
      gstep i s (LGet i r) (GGot id port) (GDelete id) (send_err e s)
  | gs_delete id : lock_free s = true →
      gstep i s (LDelete i) (GDelete id) GExit (set_wait (delete id (waitDroplets s)) (blocked s) s).

Lemma step_goroutine_inv i l s t :
  label_g l = Some i → launch_step l s = Some t →
  ∃ g g' u, gs s !! i = Some g ∧ gstep i s l g g' u ∧ t = set_g i g' u.
Proof.
  intros Hl Hs. assert (step_goroutine i l s = Some t) as Hg by (destruct l; simplify_eq/=; done).
  unfold step_goroutine in Hg. destruct (gs s !! i) as [g|] eqn:Hi; [|done]. cbn in Hg. exists g.
  destruct l as [? r|? ? ?| |?| |?|? r|?| | | | |], g; try done; simplify_eq/=.
  - destruct (lock_free s) eqn:Hf; [|done]. simpl in Hg. destruct r as [id|e|m]; [|injection Hg as <-|done].
    + case_bool_decide; [done|]. injection Hg as <-. do 2 eexists. split; [done|]. split; [by constructor|done].
    + do 2 eexists. split; [done|]. split; [by constructor|done].
  - destruct (waitDroplets s !! id) as [[port|]|] eqn:Hw; [|done..]. injection Hg as <-.
    do 2 eexists. split; [done|]. split; [by constructor|done].
  - destruct (cancelled s) eqn:Hc; [|done]. injection Hg as <-.
    do 2 eexists. split; [done|]. split; [by constructor|done].
  - destruct r as [d|e|m]; [destruct (ipv4PublicAddress d) eqn:Hip; injection Hg as <-|injection Hg as <-|done];
      (do 2 eexists; split; [done|]; split; [by econstructor|done]).
  - destruct (lock_free s) eqn:Hf; [|done]. simpl in Hg. injection Hg as <-.
    do 2 eexists. split; [done|]. split; [by constructor|done].
Qed.

(** ** Counting *)

Definition is_timeout (l : dlabel) : bool := match l with LTimeout _ => true | _ => false end.
(** A goroutine that has neither sent an executor or an error nor timed out. *)
Definition pending (g : gpc) : Z := match g with GCreate | GWait _ | GGot _ _ => 1 | _ => 0 end.

Record accounts (n : nat) (h : list dlabel) (s : launch) : Prop := {
  a_sum : Z.of_nat n = Z.of_nat (length (joined s)) + Z.of_nat (length (executorc s)) + Z.of_nat (failed s) +
    countb is_timeout h + sumZ pending (gs s);
  a_closed : executorc_closed s = true → Forall (fun g => g = GExit) (gs s);
  a_ret : ∀ es, main s = MRet (Ok es) → executorc_closed s = true ∧ executorc s = [] ∧ es = joined s;
  a_timeout : cancelled s = false → countb is_timeout h = 0
}.

Lemma accounts_goroutine n h s i l t :
  accounts n h s → label_g l = Some i → launch_step l s = Some t → accounts n (h ++ [l]) t.
Proof.
  intros [Hn Hc Hm Ht] Hl Hs. destruct (step_goroutine_inv i l s t Hl Hs) as (g & g' & u & Hi & Hg & ->).
  assert (g ≠ GExit) as Hne by (by inversion Hg).
  assert (executorc_closed s = false) as Hnc.
  { destruct (executorc_closed s) eqn:E; [|done]. specialize (Hc eq_refl).
    rewrite Forall_lookup in Hc. by specialize (Hc _ _ Hi). }
  assert (∀ es, main s ≠ MRet (Ok es)) as Hnm.
  { intros es E. destruct (Hm _ E) as [E' _]. by rewrite Hnc in E'. }
  pose proof (sumZ_insert pending (gs s) i g g' Hi) as Hsum.
  destruct Hg; constructor; simpl in *; rewrite ?countb_snoc, ?length_app; simpl;
    first [lia|by rewrite Hnc|by intros es E%Hnm|by rewrite Z.add_0_r|congruence].
Qed.

Lemma accounts_other n h s l t :
  accounts n h s → label_g l = None → launch_step l s = Some t → accounts n (h ++ [l]) t.
Proof.
  intros [Hn Hc Hm Ht] Hl Hs.
  assert (countb is_timeout (h ++ [l]) = countb is_timeout h) as Hcount.
  { rewrite countb_snoc. destruct l; simpl; try done; lia. }
  destruct l as [? r|id port del| |?| |?|? r|?| | | | |]; try done; simpl in Hs.
  - unfold RegisterExecutorUp in Hs. destruct (lock_free s); [|done]. simpl in Hs.
    destruct (waitDroplets s !! id) as [[p|]|]; [| |destruct del]; injection Hs as <-;
      constructor; simpl; rewrite ?Hcount; done.
  - destruct (blocked s) as [[id port]|]; [|done]. cbn in Hs.
    destruct (waitDroplets s !! id) as [[p|]|]; [done| |done]. injection Hs as <-.
    constructor; simpl; rewrite ?Hcount; done.
  - destruct (cancelled s) eqn:E; [done|]. injection Hs as <-. constructor; simpl; rewrite ?Hcount; by auto.
  - destruct (executorc_closed s) eqn:E; [done|]. destruct (forallb is_exit (gs s)) eqn:Ef; [|done].
    injection Hs as <-. constructor; simpl; rewrite ?Hcount; [done| |intros es Em; by destruct (Hm _ Em)|done].
    intros _. apply Forall_forall. intros g Hg. rewrite forallb_forall in Ef.
    specialize (Ef g ltac:(by apply list_elem_of_In)). by destruct g.
  - unfold step_main in Hs. destruct (main s) eqn:Em; [|done]. destruct (executorc s) as [|e q] eqn:Eq; [done|].
    injection Hs as <-. constructor; simpl in *; rewrite ?Hcount, ?length_app; simpl; [lia|done|done|done].
  - unfold step_main in Hs. destruct (main s) eqn:Em; [|done]. destruct (executorc_closed s) eqn:E; simpl in Hs; [|discriminate].
    case_bool_decide; [|done]. injection Hs as <-. constructor; simpl in *; rewrite ?Hcount; [lia|by auto| |by auto].
    intros es [= ->]. by split_and!.
  - unfold step_main in Hs. destruct (main s) eqn:Em; [|done]. destruct (errc s); [done|].
    injection Hs as <-. constructor; simpl in *; rewrite ?Hcount; [exact Hn|exact Hc|intros es ?; discriminate|first [exact Ht|intros ?; congruence]].
  - unfold step_main in Hs. destruct (main s) eqn:Em; [|done]. destruct (cancelled s) eqn:E; [|done].
    injection Hs as <-. constructor; simpl in *; rewrite ?Hcount; [exact Hn|exact Hc|intros es ?; discriminate|first [exact Ht|intros ?; congruence]].
Qed.

Lemma accounts_reach n ds ls s : run launch_rel (LaunchExecutors n ds) ls s → accounts n ls s.
Proof.
  apply (run_history_invariant launch_rel (accounts n)).
  - constructor; simpl; [|done|done|done]. rewrite sumZ_replicate. simpl. unfold countb. simpl. lia.
  - intros h x l y Hx Hs. destruct (label_g l) as [i|] eqn:E; [by eapply accounts_goroutine|by eapply accounts_other].
Qed.

(** C23: when [LaunchExecutors] returns executors, they, the goroutines that sent an error
    and those that timed out are together as many as were asked for: without an error
    and a cancellation exactly the number asked for has joined. *)
Theorem launch_count (n : nat) (ds : gset Z) (ls : list dlabel) (s : launch) (es : list executor) :
  run launch_rel (LaunchExecutors n ds) ls s → main s = MRet (Ok es) →
  Z.of_nat n = Z.of_nat (length es) + Z.of_nat (failed s) + countb is_timeout ls ∧
  (failed s = 0%nat → cancelled s = false → length es = n).
Proof.
  intros Hr Hm. destruct (accounts_reach _ _ _ _ Hr) as [Hn Hc Hret Ht].
  destruct (Hret _ Hm) as (Hcl & Hq & ->). specialize (Hc Hcl).
  assert (sumZ pending (gs s) = 0) as Hz.
  { clear -Hc. induction Hc as [|g l -> _ IH]; simpl; lia. }
  rewrite Hq, Hz in Hn. simpl in Hn. split; [lia|]. intros Hf Hcan. rewrite Hf, (Ht Hcan) in Hn. lia.
Qed.

Definition a_droplet : Droplet := mkDroplet 7 "executor.1" (Some [mkNetwork "10.0.0.1" "private"; mkNetwork "1.2.3.4" "public"]).

Definition join_schedule : list dlabel :=
  [LCreate 0 (Ok 7); LRegister 7 50053 None; LRecv 0; LGet 0 (Ok a_droplet); MJoin; LDelete 0; LClose; MAll].

Lemma launch_count_witness :
  ∃ s es, run launch_rel (LaunchExecutors 1 ∅) join_schedule s ∧ main s = MRet (Ok es) ∧ length es = 1%nat.
Proof.
  destruct (launch_exec join_schedule (LaunchExecutors 1 ∅)) as [s|] eqn:E; [|by vm_compute in E].
  pose proof (launch_exec_run _ _ _ E) as Hr. vm_compute in E. injection E as <-.
  do 2 eexists. split; [exact Hr|]. split; [reflexivity|].
  by apply (launch_count 1 ∅ join_schedule _ _ Hr eq_refl).
Defined.

(** An error may be overtaken by the end of the goroutines: no executor at all is
    returned as a success. *)
Example launch_missing :
  main <$> launch_exec [LCreate 0 (Err (Errorf "quota")); LClose; MAll] (LaunchExecutors 1 ∅) = Some (MRet (Ok [])).
Proof. by vm_compute. Qed.

(** ** Droplets that stay behind *)

Definition is_created (id : Z) (l : dlabel) : bool :=
  match l with LCreate _ (Ok id') => bool_decide (id' = id) | _ => false end.
(** A registration whose deletion request for [id] succeeds. *)
Definition is_deletion (id : Z) (l : dlabel) : bool :=
  match l with LRegister id' _ None => bool_decide (id' = id) | _ => false end.

(** Only a creation adds a droplet, only a registration that was not expected removes one. *)
Lemma launch_step_droplets l s t :
  launch_step l s = Some t →
  droplets t = match l with
               | LCreate _ (Ok id) => {[id]} ∪ droplets s
               | LRegister id _ None => match waitDroplets s !! id with None => droplets s ∖ {[id]} | _ => droplets s end
               | _ => droplets s
               end.
Proof.
  intros Hs. destruct (label_g l) as [i|] eqn:Hl.
  - destruct (step_goroutine_inv i l s t Hl Hs) as (g & g' & u & _ & Hg & ->). by destruct Hg as [| | | | |? ? []|].
  - destruct l as [? r|id port del| |?| |?|? r|?| | | | |]; try done; simpl in Hs; unfold step_main in Hs;
      try (repeat case_match; by simplify_eq/=).
    + unfold RegisterExecutorUp in Hs. destruct (lock_free s); [|done]. simpl in Hs.
      destruct (waitDroplets s !! id) as [[p|]|] eqn:E; [| |destruct del]; injection Hs as <-; by try destruct del.
    + destruct (blocked s) as [[id port]|]; [|done]. cbn in Hs.
      destruct (waitDroplets s !! id) as [[p|]|]; [done| |done]. by injection Hs as <-.
Qed.

(** No return of [LaunchExecutors], whether with executors, with an error or at a
    cancellation, deletes a droplet: one that was created is still at the provider,
    unless the executor on it registered while no launch expected it. *)
Theorem launch_leaks (n : nat) (ds : gset Z) (ls : list dlabel) (s : launch) (id : Z) :
  run launch_rel (LaunchExecutors n ds) ls s → Exists (fun l => is_created id l = true) ls →
  id ∈ droplets s ∨ Exists (fun l => is_deletion id l = true) ls.
Proof.
  intros Hr. revert ls s Hr. apply (run_history_invariant launch_rel (fun ls s =>
    Exists (fun l => is_created id l = true) ls → id ∈ droplets s ∨ Exists (fun l => is_deletion id l = true) ls)).
  { intros Hx. by inversion Hx. }
  intros h s l t IH Hs%launch_step_droplets. rewrite !Exists_app, !Exists_cons, !Exists_nil, Hs.
  intros [[Hin|Hd]%IH|[Hl|[]]]; [|by auto|].
  - destruct l as [? [?|?|?]|id' ? [?|]| |?| |?|? ?|?| | | | |]; auto; [set_solver|].
    destruct (decide (id' = id)) as [->|Hne]; [right; right; left; simpl; by case_bool_decide|].
    left. destruct (waitDroplets s !! id'); set_solver.
  - destruct l as [? [?|?|?]|id' ? [?|]| |?| |?|? ?|?| | | | |]; try done.
    simpl in Hl. apply bool_decide_eq_true in Hl as ->. left. set_solver.
Qed.

Definition leak_schedule : list dlabel :=
  [LCreate 0 (Ok 7); LCreate 1 (Err (Errorf "quota exceeded")); MErr].

Lemma launch_leaks_witness :
  ∃ s, run launch_rel (LaunchExecutors 2 ∅) leak_schedule s ∧ main s = MRet (Err (Errorf "quota exceeded")) ∧
    (7 ∈ droplets s ∨ Exists (fun l => is_deletion 7 l = true) leak_schedule).
Proof.
  destruct (launch_exec leak_schedule (LaunchExecutors 2 ∅)) as [s|] eqn:E; [|by vm_compute in E].
  pose proof (launch_exec_run _ _ _ E) as Hr.
  assert (main <$> launch_exec leak_schedule (LaunchExecutors 2 ∅) = Some (MRet (Err (Errorf "quota exceeded")))) as Hm
    by (by vm_compute).
  rewrite E in Hm. injection Hm as Hm. exists s. split; [exact Hr|]. split; [exact Hm|].
  apply (launch_leaks 2 ∅ leak_schedule s 7 Hr). by apply Exists_cons_hd.
Defined.

(** ** The lock *)

(** The labels that take [db.lock], and the send of the registration that holds it. *)
Definition takes_lock (l : dlabel) : bool :=
  match l with LCreate _ _ | LRegister _ _ _ | LDelete _ | LUnblock => true | _ => false end.

(** A registration waits to send on a channel that is full and that no goroutine is
    going to receive from. *)
Definition dead (id port q : Z) (s : launch) : Prop :=
  blocked s = Some (id, port) ∧ waitDroplets s !! id = Some (Some q) ∧ Forall (fun g => g ≠ GWait id) (gs s).

Lemma dead_step id port q s l t : dead id port q s → launch_step l s = Some t → takes_lock l = false ∧ dead id port q t.
Proof.
  intros (Hb & Hw & Hg) Hs. unfold dead.
  assert (lock_free s = false) as Hf by (unfold lock_free; by rewrite Hb).
  destruct (label_g l) as [i|] eqn:Hl.
  - destruct (step_goroutine_inv i l s t Hl Hs) as (g & g' & u & Hi & Hst & ->).
    pose proof (Forall_lookup_1 _ _ _ _ Hg Hi) as Hne. split; [by destruct Hst; try congruence|].
    destruct Hst; try congruence; simpl; split_and!; try done; try (by apply Forall_insert).
    by rewrite lookup_insert_ne by congruence.
  - destruct l as [? r|id' port' del| |?| |?|? r|?| | | | |]; try done; simpl in Hs; unfold step_main in Hs;
      try (repeat case_match; by simplify_eq/=).
    + unfold RegisterExecutorUp in Hs. by rewrite Hf in Hs.
    + rewrite Hb in Hs. cbn in Hs. by rewrite Hw in Hs.
Qed.

(** A registration that holds [db.lock] while it waits to send on a full channel
    whose goroutine has gone never ends: from then on no registration, no creation and
    no end of a launch's goroutine ever takes the lock. *)
Theorem lock_deadlock (s t : launch) (id port q : Z) (ls : list dlabel) :
  dead id port q s → run launch_rel s ls t →
  blocked t = Some (id, port) ∧ Forall (fun l => takes_lock l = false) ls.
Proof.
  intros Hd Hr. assert (dead id port q t ∧ Forall (fun l => takes_lock l = false) ls) as [[? _] ?]; [|done].
  induction Hr as [s|s l u ls t Hs Hr IH]; [done|].
  destruct (dead_step _ _ _ _ _ _ Hd Hs) as [Hl Hu]. destruct (IH Hu). by split; [|constructor].
Qed.

(** The executor of droplet 7 registers, its port is received, and it registers twice
    more: systemd restarts it. *)
Definition deadlock_schedule : list dlabel :=
  [LCreate 0 (Ok 7); LRegister 7 50053 None; LRecv 0; LRegister 7 50053 None; LRegister 7 50053 None].
Definition after_deadlock : list dlabel := [LGet 0 (Ok a_droplet); MJoin].

Lemma lock_deadlock_witness :
  ∃ s t, run launch_rel (LaunchExecutors 1 ∅) deadlock_schedule s ∧ run launch_rel s after_deadlock t ∧
    blocked t = Some (7, 50053) ∧ Forall (fun l => takes_lock l = false) after_deadlock.
Proof.
  destruct (launch_exec deadlock_schedule (LaunchExecutors 1 ∅)) as [s|] eqn:E; [|by vm_compute in E].
  destruct (launch_exec after_deadlock s) as [t|] eqn:Et; [|exfalso; revert E Et; vm_compute; by intros [= <-]].
  exists s, t. pose proof (launch_exec_run _ _ _ E) as Hs. pose proof (launch_exec_run _ _ _ Et) as Ht.
  split; [exact Hs|]. split; [exact Ht|].
  apply (lock_deadlock s t 7 50053 50053 after_deadlock); [|exact Ht].
  vm_compute in E. injection E as <-. split; [reflexivity|]. split; [reflexivity|]. by repeat constructor.
Defined.

Definition registered (ls : list dlabel) : list Z :=
  omap (fun l => match l with LRegister id _ _ => Some id | _ => None end) ls.

Record quiet_lock (h : list dlabel) (s : launch) : Prop := {
  ql_blocked : blocked s = None;
  ql_full : ∀ id q, waitDroplets s !! id = Some (Some q) → id ∈ registered h
}.

Lemma quiet_lock_step h s l t :
  NoDup (registered (h ++ [l])) → quiet_lock h s → launch_step l s = Some t → quiet_lock (h ++ [l]) t.
Proof.
  unfold registered. rewrite omap_app. intros Hnd [Hb Hf] Hs.
  assert (∀ id q, waitDroplets s !! id = Some (Some q) → id ∈ registered (h ++ [l])) as Hf'.
  { intros id q H%Hf. unfold registered. rewrite omap_app. set_solver. }
  destruct (label_g l) as [i|] eqn:Hl.
  - destruct (step_goroutine_inv i l s t Hl Hs) as (g & g' & u & Hi & Hst & ->).
    destruct Hst; constructor; simpl; try done;
      intros id' q'; rewrite ?lookup_insert_Some, ?lookup_delete_Some; naive_solver.
  - destruct l as [? r|id' port' del| |?| |?|? r|?| | | | |]; try done; simpl in Hs; unfold step_main in Hs;
      try (repeat case_match; simplify_eq/=; by constructor).
    2: { by rewrite Hb in Hs. }
    unfold RegisterExecutorUp, lock_free in Hs. rewrite Hb in Hs. simpl in Hs.
    destruct (waitDroplets s !! id') as [[p|]|] eqn:E; [| |destruct del]; injection Hs as <-; constructor; simpl; try done.
    + exfalso. apply Hf in E. apply NoDup_app in Hnd as (_ & Hnd & _). apply (Hnd id'); [done|]. simpl. set_solver.
    + intros id q. rewrite lookup_insert_Some. intros [[<- _]|[_ H%Hf']]; [|exact H].
      unfold registered. rewrite omap_app. set_solver.
Qed.

(** As long as each droplet registers at most once no registration waits for its
    send while it holds [db.lock]. *)
Theorem launch_lock_free (n : nat) (ds : gset Z) (ls : list dlabel) (s : launch) :
  run launch_rel (LaunchExecutors n ds) ls s → NoDup (registered ls) → blocked s = None.
Proof.
  intros Hr Hnd. cut (NoDup (registered ls) → quiet_lock ls s); [intros H; by apply H|].
  clear Hnd. revert ls s Hr.
  apply (run_history_invariant launch_rel (fun ls s => NoDup (registered ls) → quiet_lock ls s)); [by constructor|].
  intros h s l t IH Hs Hnd. apply (quiet_lock_step h s); [done| |exact Hs]. apply IH.
  unfold registered in Hnd. rewrite omap_app in Hnd. by apply NoDup_app in Hnd as (? & _ & _).
Qed.

Lemma launch_lock_free_witness : ∃ s, run launch_rel (LaunchExecutors 1 ∅) join_schedule s ∧ blocked s = None.
Proof.
  destruct (launch_exec join_schedule (LaunchExecutors 1 ∅)) as [s|] eqn:E; [|by vm_compute in E].
  exists s. pose proof (launch_exec_run _ _ _ E) as Hr. split; [exact Hr|].
  apply (launch_lock_free 1 ∅ join_schedule s Hr). apply NoDup_singleton.
Defined.
