(* ===== verification/Executors.v ===== *)
(** * Talking to all executors at once (scheduler/db.go, type executors)

    [each] runs one goroutine per executor and returns at the first error, at the end of
    the last goroutine or when its context is done; it is a labelled transition system
    over a world that the goroutines change.  [killall], [executeCommand], [haltCommand]
    and [waitCompletion] are instances of it. *)
From Stdlib Require Import ZArith Lia.
From stdpp Require Import base option list strings gmap.
From S2P Require Import Prelude GoNum FloatFacts GoFmt Messages SchedDB.

(** ** [each] *)

Section each.
(** [fn i a w]: the goroutine of executor [i], when its calls are answered as [a] says;
    [None] when those answers do not bring it to an end. *)
Context {W A : Type} (fn : nat → A → W → option (W * outcome unit)).
Context (ctxErr : error).

Record each_state := mkEach {
  e_world : W;
  e_results : list (option (option error));  (** of each goroutine: running, or the error it returned *)
  e_errc : list error;
  e_closed : bool;
  e_done : bool;                             (** [ctx.Done()] is closed *)
  e_ret : option (outcome unit)
}.

Inductive elabel := EReturn (i : nat) (a : A) | EClose | ECancel | ESelectErr | ESelectDone.

Definition each (n : nat) (w : W) : each_state := mkEach w (replicate n None) [] false false None.

Definition finished (r : option (option error)) : bool := match r with Some _ => true | None => false end.

Definition each_step (l : elabel) (s : each_state) : option each_state :=
  match l with
  | EReturn i a =>
      match e_results s !! i with
      | Some None =>
          '(w, r) ← fn i a (e_world s);
          match r with
          | Ok _ => Some (mkEach w (<[i:=Some None]> (e_results s)) (e_errc s) (e_closed s) (e_done s) (e_ret s))
          | Err e => Some (mkEach w (<[i:=Some (Some e)]> (e_results s)) (e_errc s ++ [e]) (e_closed s) (e_done s) (e_ret s))
          | Panic m => Some (mkEach w (e_results s) (e_errc s) (e_closed s) (e_done s) (Some (Panic m)))
          end
      | _ => None
      end
  | EClose => if e_closed s || negb (forallb finished (e_results s)) then None
              else Some (mkEach (e_world s) (e_results s) (e_errc s) true (e_done s) (e_ret s))
  | ECancel => if e_done s then None
               else Some (mkEach (e_world s) (e_results s) (e_errc s) (e_closed s) true (e_ret s))
  | ESelectErr =>
      match e_ret s, e_errc s with
      | None, e :: q => Some (mkEach (e_world s) (e_results s) q (e_closed s) (e_done s) (Some (Err e)))
      | None, [] => if e_closed s then Some (mkEach (e_world s) (e_results s) [] true (e_done s) (Some (Ok tt))) else None
      | Some _, _ => None
      end
  | ESelectDone =>
      match e_ret s with
      | None => if e_done s then Some (mkEach (e_world s) (e_results s) (e_errc s) (e_closed s) true (Some (Err ctxErr)))
                else None
      | Some _ => None
      end
  end.

Definition each_rel (s : each_state) (l : elabel) (t : each_state) : Prop := each_step l s = Some t.

Fixpoint each_exec (ls : list elabel) (s : each_state) : option each_state :=
  match ls with [] => Some s | l :: ls => each_step l s ≫= each_exec ls end.

Lemma each_exec_run ls s t : each_exec ls s = Some t → run each_rel s ls t.
Proof.
  revert s. induction ls as [|l ls IH]; simpl; intros s H; [injection H as ->; constructor|].
  apply bind_Some in H as (u & Hu & Ht). econstructor; [exact Hu|by apply IH].
Qed.

(** *** What its result says *)

Record each_inv (n : nat) (s : each_state) : Prop := {
  ei_len : length (e_results s) = n;
  ei_errc : ∀ e, e ∈ e_errc s → Some (Some e) ∈ e_results s;
  ei_queued : e_ret s = None → ∀ e, Some (Some e) ∈ e_results s → e ∈ e_errc s;
  ei_closed : e_closed s = true → Forall (fun r => finished r = true) (e_results s);
  ei_ok : e_ret s = Some (Ok tt) → e_results s = replicate n (Some None);
  ei_err : ∀ e, e_ret s = Some (Err e) → Some (Some e) ∈ e_results s ∨ e_done s = true ∧ e = ctxErr
}.

Lemma results_ok rs : Forall (fun r => finished r = true) rs → (∀ e : error, Some (Some e) ∉ rs) →
  rs = replicate (length rs) (Some None).
Proof.
  induction 1 as [|r rs Hr _ IH]; simpl; intros Hne; [done|].
  destruct r as [[e|]|]; [by destruct (Hne e); left| |done].
  f_equal. apply IH. intros e He. apply (Hne e). by right.
Qed.

Lemma insert_elem_ne {X} (l : list X) i x y z : l !! i = Some x → z ≠ x → z ∈ l → z ∈ <[i:=y]> l.
Proof.
  intros Hi Hne (j & Hj)%list_elem_of_lookup. apply list_elem_of_lookup. exists j.
  rewrite list_lookup_insert_ne; [done|congruence].
Qed.

Lemma insert_elem_inv {X} (l : list X) i y z : z ∈ <[i:=y]> l → z = y ∨ z ∈ l.
Proof.
  intros (j & Hj)%list_elem_of_lookup. destruct (decide (i = j)) as [->|Hne].
  - apply list_lookup_insert_Some in Hj as [(_ & <- & _)|(? & _)]; [by left|done].
  - rewrite list_lookup_insert_ne in Hj by done. right. by eapply list_elem_of_lookup_2.
Qed.

Lemma each_inv_return n s i w r :
  each_inv n s → e_results s !! i = Some None →
  each_inv n (mkEach w (<[i:=Some r]> (e_results s)) (e_errc s ++ match r with Some e => [e] | None => [] end)
    (e_closed s) (e_done s) (e_ret s)).
Proof.
  intros [Hl He Hq Hc Ho Hx] Hi.
  assert (e_closed s = false) as Hnc.
  { destruct (e_closed s); [|done]. specialize (Hc eq_refl). by apply (Forall_lookup_1 _ _ _ _ Hc) in Hi. }
  constructor; simpl.
  - by rewrite length_insert.
  - intros e. rewrite elem_of_app. intros [H|H]; [apply (insert_elem_ne _ _ _ _ _ Hi); [done|by apply He]|].
    destruct r as [e'|]; [|by apply elem_of_nil in H]. apply list_elem_of_singleton in H as ->.
    apply list_elem_of_lookup. exists i. apply list_lookup_insert_eq. by eapply lookup_lt_Some.
  - intros Hr e [[= <-]|H]%insert_elem_inv; rewrite elem_of_app; [right; by left|left; by apply Hq].
  - by rewrite Hnc.
  - intros Hr. specialize (Ho Hr). rewrite Ho in Hi. by apply lookup_replicate in Hi as [? _].
  - intros e [H|H]%Hx; [left|by right]. by apply (insert_elem_ne _ _ _ _ _ Hi).
Qed.

Lemma each_inv_step n s l t : each_inv n s → each_step l s = Some t → each_inv n t.
Proof.
  intros Hinv Hs. pose proof Hinv as [Hl He Hq Hc Ho Hx]. destruct l as [i a| | | |]; simpl in Hs.
  - destruct (e_results s !! i) as [[?|]|] eqn:Hi; [done| |done].
    destruct (fn i a (e_world s)) as [[w r]|]; [|done]. cbn in Hs.
    destruct r as [u|e|m]; injection Hs as <-.
    + pose proof (each_inv_return n s i w None Hinv Hi) as H. by rewrite app_nil_r in H.
    + by apply (each_inv_return n s i w (Some e)).
    + by constructor.
  - destruct (e_closed s) eqn:E; [done|]. destruct (forallb finished (e_results s)) eqn:Ef; [|done].
    injection Hs as <-. constructor; simpl; try done. intros _. apply Forall_forall. intros r Hr.
    rewrite forallb_forall in Ef. apply Ef. by apply list_elem_of_In.
  - destruct (e_done s) eqn:E; [done|]. injection Hs as <-. constructor; simpl; try done.
    intros e [?|[? ?]]%Hx; [by left|congruence].
  - destruct (e_ret s) eqn:Er; [done|]. destruct (e_errc s) as [|e q] eqn:Eq.
    + destruct (e_closed s) eqn:E; [|done]. injection Hs as <-. constructor; simpl; try done.
      intros _. rewrite <- Hl. apply results_ok; [by apply Hc|]. intros e H%Hq; [|done]. by apply elem_of_nil in H.
    + injection Hs as <-. constructor; simpl; try done.
      * intros e' H. apply He. by right.
      * intros e' [= <-]. left. apply He. by left.
  - destruct (e_ret s) eqn:Er; [done|]. destruct (e_done s) eqn:E; [|done]. injection Hs as <-.
    constructor; simpl; try done. intros e [= <-]. by right.
Qed.

Lemma each_reach n w ls s : run each_rel (each n w) ls s → each_inv n s.
Proof.
  intros Hr. eapply (run_invariant each_rel (each_inv n)); [|exact Hr|].
  - intros x l y Hx Hs. by eapply each_inv_step.
  - constructor; simpl; try done.
    + by rewrite length_replicate.
    + intros e H. by apply elem_of_nil in H.
    + intros _ e H. by apply elem_of_replicate in H as [? _].
Qed.
End each.
Arguments EReturn {A} _ _.
Arguments EClose {A}.
Arguments ECancel {A}.
Arguments ESelectErr {A}.
Arguments ESelectDone {A}.

(** *** What holds of the world once it returned nil

    [Q i] holds of the world until goroutine [i] runs, which then establishes [P i]; the
    other goroutines disturb neither. *)
Section post.
Context {W A : Type} (fn : nat → A → W → option (W * outcome unit)) (ctxErr : error).
Context (P Q : nat → W → Prop).
Context (fn_post : ∀ i a w w' u, Q i w → fn i a w = Some (w', Ok u) → P i w').
Context (fn_frame : ∀ i j a w w' r, fn i a w = Some (w', r) → i ≠ j → (Q j w → Q j w') ∧ (P j w → P j w')).

Definition each_prog (s : each_state) : Prop :=
  ∀ i, match e_results s !! i with
       | Some None => Q i (e_world s)
       | Some (Some None) => P i (e_world s)
       | _ => True
       end.

Lemma each_prog_step s l t :
  each_prog s → e_ret t = None ∨ e_ret t = Some (Ok tt) → each_step fn ctxErr l s = Some t → each_prog t.
Proof.
  intros Hp Hnp Hs. destruct l as [i a| | | |]; simpl in Hs; try (repeat case_match; by simplify_eq/=).
  destruct (e_results s !! i) as [[?|]|] eqn:Hi; [done| |done].
  destruct (fn i a (e_world s)) as [[w r]|] eqn:Hf; [|done]. cbn in Hs.
  pose proof (Hp i) as Hpi. rewrite Hi in Hpi.
  destruct r as [u|e|m]; injection Hs as <-; [| |simpl in Hnp; naive_solver]; intros j; simpl;
    pose proof (Hp j) as Hpj;
    (destruct (decide (i = j)) as [<-|Hne];
      [rewrite list_lookup_insert_eq by (by eapply lookup_lt_Some)|rewrite list_lookup_insert_ne by done]);
    try done; try (by eapply fn_post);
    destruct (e_results s !! j) as [[[?|]|]|]; try done; by eapply fn_frame.
Qed.

(** Once a result is there it stays. *)
Lemma each_ret_mono s l t r :
  each_step fn ctxErr l s = Some t → e_ret s = Some r → e_ret t = Some r ∨ ∃ m, e_ret t = Some (Panic m).
Proof.
  intros Hs Hr. destruct l as [i a| | | |]; simpl in Hs;
    try (repeat case_match; simplify_eq/=; by auto).
  destruct (e_results s !! i) as [[?|]|]; [done| |done]. destruct (fn i a (e_world s)) as [[w [u|e|m]]|]; [| | |done];
    injection Hs as <-; simpl; eauto.
Qed.

Lemma each_post n w ls s :
  run (each_rel fn ctxErr) (each n w) ls s → (∀ i, (i < n)%nat → Q i w) → e_ret s = Some (Ok tt) →
  ∀ i, (i < n)%nat → P i (e_world s).
Proof.
  intros Hr HQ Hret i Hi. pose proof (each_reach fn ctxErr n w ls s Hr) as [_ _ _ _ Hok _].
  assert (e_ret s = None ∨ e_ret s = Some (Ok tt) → each_prog s) as Hp.
  { clear Hok Hret Hi i. revert s Hr. induction ls as [|l ls IH] using rev_ind; intros s Hr.
    - intros _. inversion Hr; subst. intros i. simpl. destruct (replicate n None !! i) as [[?|]|] eqn:E; [| |done].
      + by apply lookup_replicate in E as [? _].
      + apply HQ. by apply lookup_replicate in E as [_ ?].
    - intros Hs. apply run_snoc_inv in Hr as (u & Hu & Hl). apply (each_prog_step u l s); [|done|exact Hl].
      apply IH; [exact Hu|..].
      destruct (e_ret u) as [r|] eqn:Er; [|by left].
      destruct (each_ret_mono _ _ _ _ Hl Er) as [Hx|[m Hx]]; rewrite Hx in Hs; [|naive_solver].
      destruct Hs as [?|[= ->]]; [done|by right]. }
  specialize (Hp (or_intror Hret) i). rewrite (Hok Hret) in Hp.
  by rewrite lookup_replicate_2 in Hp by done.
Qed.
End post.

(** ** The operations *)

(** [killall]: the world is the provider's droplets, the answer whether the deletion
    succeeded. *)
Definition kill (es : list executor) (i : nat) (a : option error) (w : gset Z) : option (gset Z * outcome unit) :=
  e ← es !! i;
  Some (match a with None => (w ∖ {[ex_droplet e]}, Ok tt) | Some err => (w, Err err) end).

Definition killall (es : list executor) (w : gset Z) : each_state := each (length es) w.

(** What an executor's record holds of its connection: [client] and [cmdClient] set, and
    the commands sent on the stream. *)
Record conn := mkConn { client : bool; cmdClient : bool; c_sent : list CommandMessage }.

Definition new_conn : conn := mkConn false false [].

(** A call of [grpc.Dial]. *)
Inductive dial := DialTimeout | DialOk | DialErr (e : error).

(** [waitTilAlive]: every round sees whether the context is done, then dials.  The error
    it returns and whether the client is set; [None] while it is still trying. *)
Fixpoint waitTilAlive (ctxErr : error) (c : bool) (rounds : list (bool * dial)) : option (outcome unit * bool) :=
  if c then Some (Ok tt, true) else
  match rounds with
  | [] => None
  | (true, _) :: _ => Some (Err ctxErr, false)
  | (false, DialTimeout) :: rounds => waitTilAlive ctxErr false rounds
  | (false, DialOk) :: rounds => waitTilAlive ctxErr true rounds
  | (false, DialErr e) :: _ => Some (Err e, false)
  end.

(** The answers one executor's goroutine of [executeCommand] gets. *)
Record command_answers := mkAnswers {
  a_rounds : list (bool * dial);
  a_stream : outcome unit;    (** [client.ExecuteCommand] *)
  a_send : outcome unit       (** [cmdClient.Send] *)
}.

Section command.
Context (ctxErr : error) (len : nat) (url script scriptID : string) (runtime maxWorkers : Z)
  (growthFactor timeBetweenGrowth : float64) (startingRPS maxRPS : Z) (scriptConfig : string).

(** The message: the rates are divided by the number of executors. *)
Definition command_message : outcome CommandMessage :=
  starting ← div32 startingRPS (int32_of (Z.of_nat len));
  max ← div32 maxRPS (int32_of (Z.of_nat len));
  Ok (mkCommandMessage "Run"
    (Some (mkScriptParams url script scriptID runtime maxWorkers growthFactor timeBetweenGrowth starting max))
    scriptConfig).

Definition executeCommand_one (i : nat) (a : command_answers) (w : list conn) : option (list conn * outcome unit) :=
  c ← w !! i;
  '(r, alive) ← waitTilAlive ctxErr (client c) (a_rounds a);
  Some
    match r with
    | Ok _ =>
        match (if cmdClient c then Ok tt else a_stream a) with
        | Ok _ =>
            match command_message with
            | Ok m =>
                match a_send a with
                | Ok _ => (<[i:=mkConn alive true (c_sent c ++ [m])]> w, Ok tt)
                | r => (<[i:=mkConn alive true (c_sent c)]> w, r)
                end
            | Err e => (<[i:=mkConn alive true (c_sent c)]> w, Err e)
            | Panic msg => (<[i:=mkConn alive true (c_sent c)]> w, Panic msg)
            end
        | r => (<[i:=mkConn alive (cmdClient c) (c_sent c)]> w, r)
        end
    | r => (<[i:=mkConn alive (cmdClient c) (c_sent c)]> w, r)
    end.

Definition executeCommand (w : list conn) : each_state := each len w.
End command.

(** [haltCommand]; the answer is that of [Send]. *)
Definition halt_one (i : nat) (a : outcome unit) (w : list conn) : option (list conn * outcome unit) :=
  c ← w !! i;
  Some (if cmdClient c then
          match a with
          | Ok _ => (<[i:=mkConn (client c) true (c_sent c ++ [mkCommandMessage "Halt" None ""])]> w, Ok tt)
          | r => (w, r)
          end
        else (w, Err (Errorf "nothing to halt"))).

Definition haltCommand (w : list conn) : each_state := each (length w) w.

(** [waitCompletion]; the answer is that of [Recv]: any status is a completion. *)
Definition wait_one (i : nat) (a : outcome StatusMessage) (w : list conn) : option (list conn * outcome unit) :=
  c ← w !! i;
  Some (w, if cmdClient c then match a with Ok _ => Ok tt | Err e => Err e | Panic m => Panic m end
           else Err (Errorf "no execution running")).

Definition waitCompletion (w : list conn) : each_state := each (length w) w.

(** ** Properties *)

(** [each] returns nil only when every goroutine has returned nil, and an error only
    when a goroutine returned it or the context is done. *)
Theorem each_outcome {W A : Type} (fn : nat → A → W → option (W * outcome unit)) (ctxErr : error) (n : nat) (w : W)
    (ls : list elabel) (s : each_state) :
  run (each_rel fn ctxErr) (each n w) ls s →
  (e_ret s = Some (Ok tt) → e_results s = replicate n (Some None)) ∧
  (∀ e, e_ret s = Some (Err e) → Some (Some e) ∈ e_results s ∨ e_done s = true ∧ e = ctxErr).
Proof. intros Hr. by destruct (each_reach fn ctxErr n w ls s Hr). Qed.

Definition answer (i : nat) (a : option error) (w : unit) : option (unit * outcome unit) :=
  Some (w, match a with None => Ok tt | Some e => Err e end).
Definition one_fails : list elabel := [EReturn 1 (Some (Errorf "unreachable")); EReturn 0 None; EClose; ESelectErr].

Lemma each_outcome_witness :
  ∃ s, run (each_rel answer (Errorf "context canceled")) (each 2 tt) one_fails s ∧
    e_ret s = Some (Err (Errorf "unreachable")) ∧
    (Some (Some (Errorf "unreachable")) ∈ e_results s ∨ e_done s = true ∧ Errorf "unreachable" = Errorf "context canceled").
Proof.
  destruct (each_exec answer (Errorf "context canceled") one_fails (each 2 tt)) as [s|] eqn:E; [|by vm_compute in E].
  exists s. pose proof (each_exec_run _ _ _ _ _ E) as Hr. split; [exact Hr|].
  assert (e_ret s = Some (Err (Errorf "unreachable"))) as Hret by (vm_compute in E; by injection E as <-).
  split; [exact Hret|]. by apply (each_outcome answer (Errorf "context canceled") 2 tt one_fails s Hr).
Defined.

(** When [killall] returns nil none of the executors' droplets is left at the
    provider. *)
Theorem killall_complete (es : list executor) (w : gset Z) (ctxErr : error) (ls : list elabel) (s : each_state) :
  run (each_rel (kill es) ctxErr) (killall es w) ls s → e_ret s = Some (Ok tt) →
  Forall (fun e => ex_droplet e ∉ e_world s) es.
Proof.
  intros Hr Hret. apply Forall_lookup. intros i e Hi.
  pose proof (each_post (kill es) ctxErr (fun i w => ∀ e, es !! i = Some e → ex_droplet e ∉ w) (fun _ _ => True)) as H.
  eapply H; [| |exact Hr|done|exact Hret|by eapply lookup_lt_Some|exact Hi].
  - intros j a x x' u _. unfold kill. destruct (es !! j) as [ej|]; [|done]. cbn.
    destruct a; intros [= <- _] e' [= <-]. set_solver.
  - intros j k a x x' r. unfold kill. destruct (es !! j) as [ej|]; [|done]. cbn.
    destruct a; intros [= <- _] _; (split; [done|]); intros Hk e' He'; specialize (Hk e' He'); set_solver.
Qed.

Definition two_executors : list executor := [mkExecutor 7 "1.2.3.4" 50053; mkExecutor 8 "1.2.3.5" 50053].

Lemma killall_complete_witness :
  ∃ s, run (each_rel (kill two_executors) (Errorf "")) (killall two_executors {[7; 8; 9]})
         [EReturn 1 None; EReturn 0 None; EClose; ESelectErr] s ∧
       Forall (fun e => ex_droplet e ∉ e_world s) two_executors.
Proof.
  destruct (each_exec (kill two_executors) (Errorf "") [EReturn 1 None; EReturn 0 None; EClose; ESelectErr]
    (killall two_executors {[7; 8; 9]})) as [s|] eqn:E; [|by vm_compute in E].
  exists s. pose proof (each_exec_run _ _ _ _ _ E) as Hr. split; [exact Hr|].
  apply (killall_complete _ _ _ _ _ Hr). vm_compute in E. by injection E as <-.
Defined.

Lemma waitTilAlive_spec ctxErr c rounds r c' :
  waitTilAlive ctxErr c rounds = Some (r, c') → c' = is_ok r ∧ panics r = false.
Proof.
  revert c. induction rounds as [|[[] []] rounds IH]; intros []; simpl; try (by intros [= <- <-]); try done; by apply IH.
Qed.

Lemma executeCommand_sends ctxErr len url script scriptID runtime maxWorkers gf tbg starting max config i a w w' r :
  executeCommand_one ctxErr len url script scriptID runtime maxWorkers gf tbg starting max config i a w = Some (w', r) →
  (∀ j, i ≠ j → w' !! j = w !! j) ∧
  (is_ok r = true → ∃ c m, w !! i = Some c ∧
     command_message len url script scriptID runtime maxWorkers gf tbg starting max config = Ok m ∧
     w' !! i = Some (mkConn true true (c_sent c ++ [m]))).
Proof.
  unfold executeCommand_one. destruct (w !! i) as [c|] eqn:Hc; [|done]. cbn -[command_message].
  destruct (waitTilAlive ctxErr (client c) (a_rounds a)) as [[r0 alive]|] eqn:Hw; [|done]. cbn -[command_message].
  apply waitTilAlive_spec in Hw as [-> Hnp].
  intros Hs. injection Hs as Hs. split.
  - revert Hs. repeat case_match; intros [= <- _] j Hne; by rewrite list_lookup_insert_ne.
  - intros Hok. revert Hs. repeat case_match; intros [= <- <-]; try done;
      exists c; eexists; (split_and!; [done..|]); by rewrite list_lookup_insert_eq by (by eapply lookup_lt_Some).
Qed.

(** When [executeCommand] returns nil every executor has been sent exactly one
    command: Run, with the rates divided by the number of executors. *)
Theorem command_sent (ctxErr : error) (n : nat) (url script scriptID : string) (runtime maxWorkers : Z)
    (gf tbg : float64) (starting max : Z) (config : string) (ls : list elabel) (s : each_state) :
  run (each_rel (executeCommand_one ctxErr n url script scriptID runtime maxWorkers gf tbg starting max config) ctxErr)
    (executeCommand n (replicate n new_conn)) ls s →
  e_ret s = Some (Ok tt) → (0 < n)%nat → Z.of_nat n < 2 ^ 31 →
  ∀ i, (i < n)%nat → ∃ c, e_world s !! i = Some c ∧
    c_sent c = [mkCommandMessage "Run"
      (Some (mkScriptParams url script scriptID runtime maxWorkers gf tbg
        (int32_of (Z.quot starting (Z.of_nat n))) (int32_of (Z.quot max (Z.of_nat n))))) config].
Proof.
  intros Hr Hret Hn0 Hn i Hi.
  set (m := mkCommandMessage _ _ _).
  assert (command_message n url script scriptID runtime maxWorkers gf tbg starting max config = Ok m) as Hm.
  { unfold command_message, div32. rewrite int32_id by (unfold is_int32; lia).
    destruct (Z.eqb_spec (Z.of_nat n) 0); [lia|done]. }
  pose proof (each_post (executeCommand_one ctxErr n url script scriptID runtime maxWorkers gf tbg starting max config)
    ctxErr (fun i (w : list conn) => ∃ c, w !! i = Some c ∧ c_sent c = [m])
    (fun i w => w !! i = Some new_conn)) as H.
  eapply H; [| |exact Hr| |exact Hret|exact Hi].
  - intros j a w w' u HQ [_ Hs]%executeCommand_sends. destruct (Hs eq_refl) as (c & m' & Hc & Hm' & Hw).
    rewrite HQ in Hc. injection Hc as <-. rewrite Hm in Hm'. injection Hm' as <-. eexists. by split.
  - intros j k a w w' r [Hs _]%executeCommand_sends Hne. by rewrite (Hs k Hne).
  - intros j Hj. by apply lookup_replicate_2.
Qed.

Definition both_alive (n : nat) : list elabel :=
  map (fun i => EReturn i (mkAnswers [(false, DialTimeout); (false, DialOk)] (Ok tt) (Ok tt))) (seq 0 n) ++ [EClose; ESelectErr].

Lemma command_sent_witness :
  ∃ s, run (each_rel (executeCommand_one (Errorf "") 2 "http://a" "" "s" 60 100 fone fone 100 1000 "") (Errorf ""))
         (executeCommand 2 (replicate 2 new_conn)) (both_alive 2) s ∧
    ∀ i, (i < 2)%nat → ∃ c, e_world s !! i = Some c ∧
      c_sent c = [mkCommandMessage "Run" (Some (mkScriptParams "http://a" "" "s" 60 100 fone fone 50 500)) ""].
Proof.
  destruct (each_exec (executeCommand_one (Errorf "") 2 "http://a" "" "s" 60 100 fone fone 100 1000 "") (Errorf "")
    (both_alive 2) (executeCommand 2 (replicate 2 new_conn))) as [s|] eqn:E; [|by vm_compute in E].
  exists s. pose proof (each_exec_run _ _ _ _ _ E) as Hr. split; [exact Hr|].
  apply (command_sent _ _ _ _ _ _ _ _ _ 100 1000 _ _ _ Hr); [vm_compute in E; by injection E as <-|lia|lia].
Defined.
