(* ===== verification/SchedServer.v ===== *)
(** * The scheduler's gRPC service (scheduler/server.go)

    [RegisterExecutor] and [LoadTest].  A load test is the list of its effects: the
    phases sent to the client and the calls into db.go, whose answers are parameters;
    SchedDB.v and Executors.v say which answers those calls give. *)
From Stdlib Require Import ZArith Lia.
From stdpp Require Import base option list strings gmap.
From S2P Require Import Prelude GoNum FloatFacts GoFmt Messages Dispatch DispatchFacts DispatchProps Metrics Engine EngineFacts Job ExecGrpc SchedDB Executors.

Lemma quot_range a b : 0 < b → (0 ≤ a → 0 ≤ Z.quot a b ≤ a) ∧ (a ≤ 0 → a ≤ Z.quot a b ≤ 0).
Proof.
  intros Hb. assert (∀ x, 0 ≤ x → 0 ≤ Z.quot x b ≤ x) as Hx.
  { intros x Hx. rewrite Z.quot_div_nonneg by lia. split; [by apply Z.div_pos|apply Z.div_le_upper_bound; nia]. }
  split; [apply Hx|]. intros Ha. specialize (Hx (- a) ltac:(lia)). rewrite Z.quot_opp_l in Hx by lia. lia.
Qed.

(** The part of [Config] that the service reads. *)
Record ServerConfig := mkServerConfig {
  MaxWorkerPerExecutor : Z;
  MaxExecPSPerExecutor : Z;
  cfg_Influx : RegisterExecutorResp
}.

(** [RegisterExecutor]: the response is built in any case, the error is that of the
    registration.  [del] is how a deletion it requests ends. *)
Definition RegisterExecutor (cfg : ServerConfig) (req : RegisterExecutorReq) (del : option error) (s : launch)
    : option (launch * (RegisterExecutorResp * option error)) :=
  '(s, err) ← RegisterExecutorUp (DropletId req) (Port req) del s;
  Some (s, (cfg_Influx cfg, err)).

Inductive effect :=
  | ESend (p : LoadTestResp_Phase)
  | ELaunch (n : Z)
  | ECommand (es : list executor)
  | EWait (es : list executor)
  | EKill (es : list executor).

(** How the wait of [LoadTest] ends: [waitCompletion] returned, or the context is done. *)
Inductive completion := Completed (r : outcome unit) | CtxDone.

(** The answers of the calls; those of [killall] and of all but the first send are only
    logged. *)
Record answers := mkServerAnswers {
  w_preparing : outcome unit;                             (** [srv.Send] of Preparing *)
  w_launch : Z → outcome (list executor);                 (** [LaunchExecutors] *)
  w_command : list executor → outcome unit;               (** [executeCommand] *)
  w_complete : list executor → completion
}.

(** [int(math.Ceil(float64(max) / float64(perExecutor)))]. *)
Definition needExecutors (cfg : ServerConfig) (req : LoadTestReq) : Z :=
  int_of_float (fceil (fdiv (float_of_int (lt_MaxRequestsPerSecond req)) (float_of_int (MaxExecPSPerExecutor cfg)))).

Definition msg_need (need : Z) (req : LoadTestReq) : error :=
  Errorf ("You need more than " +:+ fmt_d (int64_of (need * 11)) +:+ " starting requests per second to deal with "
          +:+ fmt_d (lt_MaxRequestsPerSecond req) +:+ " max request per second").

(** [LoadTest] after the executors were launched, up to the deferred [killall]. *)
Definition LoadTest_run (w : answers) (es : list executor) : outcome unit * list effect :=
  match w_command w es with
  | Panic m => (Panic m, [ECommand es])
  | Err e => (Ok tt, [ECommand es; ESend (LoadTestResp_Errored (Error e)); EKill es])
  | Ok _ =>
      let started := [ECommand es; ESend LoadTestResp_Started; EWait es] in
      match w_complete w es with
      | Completed (Panic m) => (Panic m, started)
      | Completed (Err e) => (Ok tt, started ++ [ESend (LoadTestResp_Errored (Error e)); EKill es])
      | Completed (Ok _) => (Ok tt, started ++ [ESend LoadTestResp_Finished; EKill es])
      | CtxDone => (Ok tt, started ++ [ESend (LoadTestResp_Errored "forcing destruction of executors"); EKill es])
      end
  end.

Section server.
Context {W N : Type} {LV : LuaVM W} {HT : HTTP N} {WL : Wall} {JS : JSON}.
Context (new_heap : W).

(** [verifyScript]: the whole chunk runs, with its [get]s and [post]s. *)
Definition verifyScript (req : LoadTestReq) (n : N) : outcome unit * N :=
  match Lua (lt_Script req) new_heap n tt with
  | (Err e, p) => (Err e, net p)
  | (Panic m, p) => (Panic m, net p)
  | (Ok _, p) =>
      if bool_decide (lt_ScriptConfig req = ""%string) then (Ok tt, net p) else
      match Unmarshal (lt_ScriptConfig req) with
      | Err e => (Err e, net p)
      | Panic m => (Panic m, net p)
      | Ok cfg => match VerifyConfig cfg with Some e => (Err e, net p) | None => (Ok tt, net p) end
      end
  end.

Definition LoadTest (cfg : ServerConfig) (w : answers) (req : LoadTestReq) (n : N) : outcome unit * list effect :=
  match fst (verifyScript req n) with
  | Err e => (Err e, [])
  | Panic m => (Panic m, [])
  | Ok _ =>
      let need := needExecutors cfg req in
      match div32 (lt_StartingRequestsPerSecond req) (int32_of need) with
      | Err e => (Err e, [])
      | Panic m => (Panic m, [])
      | Ok q =>
          if q <=? 10 then (Err (msg_need need req), []) else
          let preparing := ESend (LoadTestResp_Preparing (int32_of need)) in
          match w_preparing w with
          | Err e => (Err e, [preparing])
          | Panic m => (Panic m, [preparing])
          | Ok _ =>
              if need <? 0 then (Panic "runtime error: makechan: size out of range", [preparing; ELaunch need]) else
              match w_launch w need with
              | Err e => (Err e, [preparing; ELaunch need])
              | Panic m => (Panic m, [preparing; ELaunch need])
              | Ok es => let '(r, effs) := LoadTest_run w es in (r, [preparing; ELaunch need] ++ effs)
              end
          end
      end
  end.

Lemma verifyScript_check req n :
  verifyScript req n = check_instructions new_heap (lt_Script req) (lt_ScriptConfig req) n.
Proof.
  unfold verifyScript, check_instructions, check_config.
  destruct (Lua (lt_Script req) new_heap n tt) as [[u|e|m] p]; [|done..].
  case_bool_decide; [done|]. destruct (Unmarshal _) as [c|e|m]; [|done..]. simpl. by destruct (VerifyConfig c).
Qed.

(** ** Properties *)

(** The message an executor is sent for a load test with [len] executors. *)
Definition LoadTest_message (cfg : ServerConfig) (req : LoadTestReq) (len : nat) : outcome CommandMessage :=
  command_message len (lt_Url req) (lt_Script req) (lt_ScriptName req) (lt_RunTime req)
    (int32_of (MaxWorkerPerExecutor cfg)) (lt_GrowthFactor req) (lt_TimeBetweenGrowth req)
    (lt_StartingRequestsPerSecond req) (lt_MaxRequestsPerSecond req) (lt_ScriptConfig req).

(** What every load test that gets as far as preparing has passed. *)
Lemma LoadTest_prepared cfg w req n r effs :
  LoadTest cfg w req n = (r, effs) → effs ≠ [] →
  fst (verifyScript req n) = Ok tt ∧
  ∃ q, div32 (lt_StartingRequestsPerSecond req) (int32_of (needExecutors cfg req)) = Ok q ∧ 10 < q.
Proof.
  unfold LoadTest. intros H Hne. destruct (fst (verifyScript req n)) as [[]| |]; [|by simplify_eq..]. split; [done|].
  destruct (div32 _ _) as [q| |]; [|by simplify_eq..]. exists q. split; [done|].
  destruct (Z.leb_spec q 10); [by simplify_eq|lia].
Qed.


(** The shares of the executors. *)
Lemma LoadTest_shares (cfg : ServerConfig) (w : answers) (req : LoadTestReq) (n : N) (r : outcome unit)
    (effs : list effect) (m : CommandMessage) (p : ScriptParams) :
  req_typed req → 0 < MaxExecPSPerExecutor cfg < 2 ^ 31 → 0 ≤ lt_MaxRequestsPerSecond req →
  LoadTest cfg w req n = (r, effs) → effs ≠ [] →
  let need := needExecutors cfg req in
  LoadTest_message cfg req (Z.to_nat need) = Ok m → CmdScriptParams m = Some p →
  1 ≤ need ∧ (need - 1) * MaxExecPSPerExecutor cfg < lt_MaxRequestsPerSecond req ≤ need * MaxExecPSPerExecutor cfg ∧
  0 ≤ MaxRequestsPerSecond p ≤ MaxExecPSPerExecutor cfg ∧ need * MaxRequestsPerSecond p ≤ lt_MaxRequestsPerSecond req ∧
  10 < StartingRequestsPerSecond p ∧ need * StartingRequestsPerSecond p ≤ lt_StartingRequestsPerSecond req.
Proof.
  intros (Hrt & Hst & Hmx & _) Hper Hmax HL Hne need Hm Hp.
  assert (need = - (- lt_MaxRequestsPerSecond req / MaxExecPSPerExecutor cfg)) as Hneed.
  { unfold need, needExecutors. unfold is_int32 in Hmx. apply ceil_quotient; lia. }
  destruct (LoadTest_prepared _ _ _ _ _ _ HL Hne) as (_ & q & Hq & Hq10). fold need in Hq.
  set (M := lt_MaxRequestsPerSecond req) in *. set (P := MaxExecPSPerExecutor cfg) in *.
  set (S := lt_StartingRequestsPerSecond req) in *. unfold is_int32 in Hst, Hmx.
  assert ((need - 1) * P < M ≤ need * P) as [H1 H2].
  { pose proof (div_mul_le (- M) P ltac:(lia)). pose proof (div_mul_gt (- M) P ltac:(lia)). nia. }
  assert (0 ≤ need < 2 ^ 31) as Hr by nia.
  unfold LoadTest_message, command_message in Hm. fold M S in Hm. rewrite Z2Nat.id in Hm by lia.
  unfold div32 in *. assert (int32_of need = need) as En by (apply int32_id; unfold is_int32; lia).
  rewrite En in Hq, Hm. destruct (Z.eqb_spec need 0); [done|]. simpl in Hm.
  injection Hm as <-. injection Hp as <-. injection Hq as <-.
  assert (0 < S) as HS.
  { destruct (Z.le_gt_cases S 0); [|lia]. destruct (quot_range S need ltac:(lia)) as [_ Hq].
    rewrite int32_id in Hq10 by (unfold is_int32; lia). lia. }
  cbn [MaxRequestsPerSecond StartingRequestsPerSecond].
  rewrite !Z.quot_div_nonneg in * by lia.
  assert (0 ≤ M / need ≤ M) by (split; [apply Z.div_pos; lia|apply Z.div_le_upper_bound; nia]).
  assert (0 ≤ S / need ≤ S) by (split; [apply Z.div_pos; lia|apply Z.div_le_upper_bound; nia]).
  rewrite !int32_id in * by (unfold is_int32; lia).
  pose proof (div_mul_le M need ltac:(lia)). pose proof (div_mul_le S need ltac:(lia)).
  split_and!; try lia; apply Z.div_le_upper_bound; lia.
Qed.


(** The command that the executors of a load test get is accepted exactly when the
    configuration allows a worker, the run lasts more than a second, the shares of the
    rates are in order and growth and its interval are large enough: the scheduler has
    checked only the starting rate. *)
Theorem LoadTest_accepted (cfg : ServerConfig) (w : answers) (req : LoadTestReq) (n : N) (r : outcome unit)
    (effs : list effect) (m : CommandMessage) (p : ScriptParams) :
  LoadTest cfg w req n = (r, effs) → effs ≠ [] → 0 ≤ needExecutors cfg req →
  LoadTest_message cfg req (Z.to_nat (needExecutors cfg req)) = Ok m → CmdScriptParams m = Some p →
  verifyCommand p = None ↔
    1 ≤ int32_of (MaxWorkerPerExecutor cfg) ∧ 1 < lt_RunTime req ∧
    StartingRequestsPerSecond p ≤ MaxRequestsPerSecond p ∧
    flt (lt_GrowthFactor req) (float_lit 1 1) = false ∧ flt (lt_TimeBetweenGrowth req) (float_lit 1 10) = false.
Proof.
  intros HL Hne Hn Hm Hp. destruct (LoadTest_prepared _ _ _ _ _ _ HL Hne) as (_ & q & Hq & Hq10).
  unfold LoadTest_message, command_message in Hm. rewrite Z2Nat.id, Hq in Hm by done. simpl in Hm.
  destruct (div32 (lt_MaxRequestsPerSecond req) _) as [q'| |]; [|done..]. simpl in Hm. injection Hm as <-.
  injection Hp as <-. rewrite verifyCommand_None. unfold accepted_ints.
  cbn [MaxWorkers RunTime StartingRequestsPerSecond MaxRequestsPerSecond GrowthFactor TimeBetweenGrowth].
  split; [intros ((? & ? & ? & ?) & ? & ?)|intros (? & ? & ? & ? & ?)]; by split_and!.
Qed.

(** The executors needed for no requests, or when there are none per executor. *)
Lemma needExecutors_zero cfg req :
  lt_MaxRequestsPerSecond req = 0 ∧ 0 < MaxExecPSPerExecutor cfg < 2 ^ 53 ∨ MaxExecPSPerExecutor cfg = 0 →
  int32_of (needExecutors cfg req) = 0.
Proof.
  unfold needExecutors. intros [[-> Hper]| ->].
  - rewrite ceil_quotient by lia. by rewrite Z.div_0_l by lia.
  - destruct (float_of_int (lt_MaxRequestsPerSecond req)) as [[]|[]| |[] ?m ?e]; by vm_compute.
Qed.

Lemma LoadTest_zero_executors cfg w req n :
  fst (verifyScript req n) = Ok tt → int32_of (needExecutors cfg req) = 0 → LoadTest cfg w req n = (Panic div_panic, []).
Proof. intros Hv Hz. unfold LoadTest. by rewrite Hv, Hz. Qed.

(** A request for no requests per second, and every request to a scheduler that is
    configured with no requests per executor, makes the handler divide by zero. *)
Theorem LoadTest_divides_by_zero (cfg : ServerConfig) (w : answers) (req : LoadTestReq) (n : N) :
  fst (verifyScript req n) = Ok tt →
  lt_MaxRequestsPerSecond req = 0 ∧ 0 < MaxExecPSPerExecutor cfg < 2 ^ 53 ∨ MaxExecPSPerExecutor cfg = 0 →
  LoadTest cfg w req n = (Panic div_panic, []).
Proof.
  intros Hv Hz. by apply LoadTest_zero_executors; [|apply needExecutors_zero].
Qed.

(** A script that the scheduler has verified, and whose preparation calls no host
    function, is accepted by every executor, with its configuration. *)
Theorem verified_script_accepted (req : LoadTestReq) (chunk : Engine.script W unit) (n n' n1 : N) :
  vm_load (lt_Script req) = Ok chunk → no_calls chunk → verifyScript req n = (Ok tt, n') →
  fst (check_instructions new_heap (lt_Script req) (lt_ScriptConfig req) n1) = Ok tt.
Proof.
  intros Hl Hn. rewrite verifyScript_check. unfold check_instructions. intros Hv.
  destruct (Lua_same new_heap (lt_Script req) chunk n tt n1 tt Hl Hn) as [Hf _].
  destruct (Lua (lt_Script req) new_heap n tt) as [r p], (Lua (lt_Script req) new_heap n1 tt) as [r1 p1].
  simpl in Hf. subst r1. destruct r; [|done..]. simpl. by injection Hv.
Qed.
End server.

(** What the first [Recv] of the scheduler yields of an executor's handler: the first
    status it sent, or how it ended. *)
Definition Recv_status (r : outcome unit * list string) : outcome StatusMessage :=
  match r with
  | (_, s :: _) => Ok (mkStatusMessage s)
  | (Err e, []) => Err e
  | (Ok _, []) => Err (Errorf "EOF")
  | (Panic m, []) => Err (Errorf m)
  end.

(** As long as an executor does not crash and its status can be sent, the scheduler's
    wait for it succeeds, and the client is told that the test has finished: also when
    the executor has refused the command, or has failed to run it. *)
Theorem refusal_completes (Send : string → outcome unit) (m : CommandMessage) (p : ScriptParams)
    (during : list recv) (run : ScriptParams → string → outcome unit) (i : nat) (w : list conn) (c : conn) :
  (∀ s, Send s = Ok tt) → CmdScriptParams m = Some p → panics (run p (ScriptConfig m)) = false →
  w !! i = Some c → cmdClient c = true →
  wait_one i (Recv_status (ExecuteCommand Send (RecvMsg m) during run)) w = Some (w, Ok tt).
Proof.
  intros HS Hp Hnp Hi Hc. unfold wait_one. rewrite Hi. cbn -[ExecuteCommand]. rewrite Hc.
  assert (∃ r s l, ExecuteCommand Send (RecvMsg m) during run = (r, s :: l)) as (r & s & l & ->); [|by destruct r].
  unfold ExecuteCommand. destruct (bool_decide _); simpl; [|eauto]. rewrite Hp.
  destruct (verifyCommand p); [eauto|]. destruct (run p (ScriptConfig m)); [|eauto|done].
  rewrite listen_serverErr. simpl. destruct (l_halted _); eauto.
Qed.

(** ** A sample load test: 1000 requests per second on executors of 300 each *)

#[local] Instance test_json : JSON := fun _ => Ok [].

Definition test_cfg : ServerConfig := mkServerConfig 100 300 (mkRegisterExecutorResp "" "" "" "" false).
Definition test_req : LoadTestReq := mkLoadTestReq "http://a" "src" "test" 60 fone fone 100 1000 "".
Definition four_executors : list executor :=
  map (fun i => mkExecutor i "1.2.3.4" 50053) [7; 8; 9; 10].
Definition test_answers : answers :=
  mkServerAnswers (Ok tt) (fun _ => Ok four_executors) (fun _ => Ok tt) (fun _ => Completed (Ok tt)).

Definition test_effects : list effect :=
  [ESend (LoadTestResp_Preparing 4); ELaunch 4; ECommand four_executors; ESend LoadTestResp_Started;
   EWait four_executors; ESend LoadTestResp_Finished; EKill four_executors].

Example test_load : LoadTest tt test_cfg test_answers test_req tt = (Ok tt, test_effects).
Proof. by vm_compute. Qed.

Definition test_params : ScriptParams := mkScriptParams "http://a" "src" "test" 60 100 fone fone 25 250.


Lemma LoadTest_accepted_witness :
  LoadTest tt test_cfg test_answers test_req tt = (Ok tt, test_effects) ∧ verifyCommand test_params = None.
Proof.
  split; [exact test_load|].
  apply (LoadTest_accepted tt test_cfg test_answers test_req tt (Ok tt) test_effects
    (mkCommandMessage "Run" (Some test_params) "") test_params test_load); by vm_compute.
Defined.

Lemma LoadTest_divides_by_zero_witness :
  LoadTest tt test_cfg test_answers (mkLoadTestReq "http://a" "src" "test" 60 fone fone 100 0 "") tt = (Panic div_panic, []).
Proof.
  apply LoadTest_divides_by_zero; [by vm_compute|]. left. by vm_compute.
Defined.

(** A script whose preparation only defines a step. *)
Definition quiet_chunk : Engine.script unit unit := SetStep (LString "only") (LFunction 0) (Return tt).
Definition quiet_vm : LuaVM unit := {|
  vm_load := fun _ => Ok quiet_chunk; vm_call := fun _ _ => Return []; vm_field := fun _ _ _ => LNil;
  vm_number := fmt_v_float; vm_print := fun _ => []; vm_where := fun _ => ""%string;
  vm_bad_argument := fun _ => ""%string; vm_not_callable := fun _ => ""%string |}.

Lemma verified_script_accepted_witness :
  fst (check_instructions (LV := quiet_vm) tt "src" "" tt) = Ok tt.
Proof.
  apply (verified_script_accepted (LV := quiet_vm) tt test_req quiet_chunk tt tt tt); by vm_compute.
Defined.

(** The executor refuses a run without workers; the scheduler's wait succeeds. *)
Lemma refusal_completes_witness :
  let refused := mkScriptParams "http://a" "src" "test" 60 0 fone fone 25 250 in
  is_ok (fst (ExecuteCommand (fun _ => Ok tt) (RecvMsg (mkCommandMessage "Run" (Some refused) "")) [] (fun _ _ => Ok tt))) = false ∧
  wait_one 0 (Recv_status (ExecuteCommand (fun _ => Ok tt) (RecvMsg (mkCommandMessage "Run" (Some refused) "")) [] (fun _ _ => Ok tt)))
    [mkConn true true []] = Some ([mkConn true true []], Ok tt).
Proof.
  split; [by vm_compute|]. by eapply refusal_completes.
Defined.

(** * The fleet *)

Section fleet.
Context {W N : Type} {LV : LuaVM W} {HT : HTTP N} {WL : Wall} {JS : JSON}.
Context (new_heap : W).

(** Runs of equal bound add up. *)
Lemma sumZ_bound {A} (f : A → Z) (b : Z) (l : list A) : Forall (fun x => f x ≤ b) l → sumZ f l ≤ Z.of_nat (length l) * b.
Proof. induction 1; simpl; lia. Qed.

(** C22: the target of a load test gets at most [MaxRequestsPerSecond / 10] jobs per
    100ms from all executors together, less one for each, whatever the growth factor, the
    scheduling and the interleaving on each of them. *)
Theorem fleet_rate {clk : Clock} (cfg : ServerConfig) (w : answers) (req : LoadTestReq) (n : N) (r : outcome unit)
    (effs : list effect) (m : CommandMessage) (p : ScriptParams) (s0 : sys) (runs : list (list label * sys)) (ticks : Z) :
  req_typed req → 0 < MaxExecPSPerExecutor cfg < 2 ^ 31 → 0 ≤ lt_MaxRequestsPerSecond req →
  LoadTest new_heap cfg w req n = (r, effs) → effs ≠ [] →
  LoadTest_message cfg req (Z.to_nat (needExecutors cfg req)) = Ok m → CmdScriptParams m = Some p →
  accepted p → runScript_start p = Ok s0 →
  Z.of_nat (length runs) = needExecutors cfg req →
  Forall (fun ls => run (sys_rel p) s0 (fst ls) (snd ls) ∧ countb is_tick (fst ls) ≤ ticks) runs →
  sumZ (fun ls => countb is_send (fst ls)) runs ≤
    ticks * (lt_MaxRequestsPerSecond req / 10 - needExecutors cfg req).
Proof.
  intros Ht Hper Hmax HL Hne Hm Hp Hacc H0 Hlen Hruns.
  destruct (LoadTest_shares new_heap cfg w req n r effs m p Ht Hper Hmax HL Hne Hm Hp) as (Hn & _ & _ & Htot & _).
  destruct (accepted_bounds p Hacc) as (_ & Hst & Hms & _).
  set (need := needExecutors cfg req) in *. set (M := MaxRequestsPerSecond p) in *.
  assert (0 ≤ M / 10 - 1) as Hpos by div_lia.
  assert (need * (M / 10) ≤ lt_MaxRequestsPerSecond req / 10) as Hdiv.
  { apply Z.div_le_lower_bound; [lia|]. pose proof (div_mul_le M 10 ltac:(lia)). nia. }
  assert (0 ≤ ticks) as Hticks.
  { destruct runs as [|[ls s] runs]; [simpl in Hlen; lia|]. apply Forall_cons in Hruns as [[_ Hx] _].
    pose proof (countb_nonneg is_tick ls). simpl in Hx. lia. }
  transitivity (Z.of_nat (length runs) * (ticks * (M / 10 - 1))).
  - apply sumZ_bound. eapply Forall_impl; [exact Hruns|]. intros [ls s] [Hr Htk]. simpl in *.
    pose proof (sends_per_tick p s0 ls s Hacc H0 Hr). fold M in H. nia.
  - rewrite Hlen. nia.
Qed.
End fleet.

(** ** Four executors of the sample load test, each sending for one tick *)

#[local] Existing Instance SchedServer.test_json.

Definition executor_start : sys :=
  match runScript_start (clk := real_clock) test_params with
  | Ok s => s
  | _ => mkSys Selecting 0 0 0 false 0 false false false false false [] [] 0
  end.

Definition executor_schedule : list label := [Tick; DTick; DSend; DSendEnd].

Definition executor_run : list label * sys :=
  (executor_schedule, default executor_start (exec test_params executor_schedule executor_start)).

Lemma fleet_rate_witness :
  sumZ (fun ls => countb is_send (fst ls)) (replicate 4 executor_run) = 4 ∧
  sumZ (fun ls => countb is_send (fst ls)) (replicate 4 executor_run) ≤ 1 * (1000 / 10 - 4).
Proof.
  split; [by vm_compute|].
  apply (fleet_rate (clk := real_clock) tt test_cfg test_answers test_req tt (Ok tt) test_effects
    (mkCommandMessage "Run" (Some test_params) "") test_params executor_start).
  - repeat split; by vm_compute.
  - by split.
  - by vm_compute.
  - exact test_load.
  - done.
  - by vm_compute.
  - reflexivity.
  - split; [by vm_compute|]. repeat split; by vm_compute.
  - by vm_compute.
  - by vm_compute.
  - apply Forall_replicate. split; [|by vm_compute].
    apply exec_run. vm_compute. reflexivity.
Defined.
