(* ===== verification/Flow.v ===== *)
(** * Flow control of a gRPC transport (Godeps .../grpc/transport, control.go and transport.go)

    The quota of a sender ([quotaPool]), the accounting of a receiver ([inFlow]) and the
    unbounded channel between the transport and a reader ([recvBuffer]).  Each method
    that holds the mutex is one function of the state; a channel of capacity one is an
    [option]. *)
From Stdlib Require Import ZArith Lia.
From stdpp Require Import base option list.
From S2P Require Import Prelude GoNum GoFmt.

(** [uint32(x)]. *)
Definition uint32 (x : Z) : Z := x mod 2 ^ 32.

Lemma uint32_id x : 0 ≤ x < 2 ^ 32 → uint32 x = x.
Proof. apply Z.mod_small. Qed.

(** ** Quota of a sender *)

(** [c]: the channel of capacity one from which quota is acquired. *)
Record quotaPool := mkQuotaPool { qc : option Z; quota : Z }.

Definition newQuotaPool (q : Z) : quotaPool :=
  if 0 <? q then mkQuotaPool (Some q) 0 else mkQuotaPool None q.

(** The [select] at the end of [add] and [reset]. *)
Definition offer (qb : quotaPool) : quotaPool :=
  if quota qb <=? 0 then qb else
  match qc qb with
  | None => mkQuotaPool (Some (quota qb)) 0
  | Some _ => qb
  end.

Definition add (n : Z) (qb : quotaPool) : quotaPool :=
  offer (mkQuotaPool (qc qb) (int64_of (quota qb + n))).

Definition cancel (qb : quotaPool) : quotaPool :=
  match qc qb with
  | Some n => mkQuotaPool None (int64_of (quota qb + n))
  | None => qb
  end.

Definition reset (v : Z) (qb : quotaPool) : quotaPool :=
  let qb := cancel qb in offer (mkQuotaPool (qc qb) (int64_of (quota qb + v))).

(** A receive from [acquire()]; [None] blocks. *)
Definition acquire (qb : quotaPool) : option (Z * quotaPool) :=
  n ← qc qb; Some (n, mkQuotaPool None (quota qb)).

(** All the quota of a pool. *)
Definition total (qb : quotaPool) : Z := default 0 (qc qb) + quota qb.

(** Quota on the channel is positive. *)
Definition pool_ok (qb : quotaPool) : Prop :=
  match qc qb with Some n => 0 < n | None => True end ∧ 0 ≤ quota qb.

(** Who waits on [acquire()] is not kept waiting when there is quota. *)
Definition offered (qb : quotaPool) : Prop := qc qb = None → quota qb ≤ 0.

Lemma newQuotaPool_total q : total (newQuotaPool q) = q.
Proof. unfold newQuotaPool, total. case_test; simpl; lia. Qed.

Lemma newQuotaPool_ok q : 0 ≤ q → pool_ok (newQuotaPool q).
Proof. unfold newQuotaPool, pool_ok. case_test; zify_bool; simpl; lia. Qed.

Lemma offer_total qb : total (offer qb) = total qb.
Proof. unfold offer, total. destruct (quota qb <=? 0); [done|]. destruct (qc qb) eqn:E; simpl; rewrite ?E; simpl; lia. Qed.

Lemma offer_ok qb : pool_ok qb → pool_ok (offer qb).
Proof.
  unfold offer, pool_ok. destruct (Z.leb_spec (quota qb) 0); [done|]. destruct (qc qb) eqn:E; simpl; [|lia].
  by rewrite E.
Qed.

Lemma offer_offered qb : offered (offer qb).
Proof.
  unfold offer, offered. destruct (Z.leb_spec (quota qb) 0); [done|].
  destruct (qc qb) eqn:E; simpl; [by rewrite E|done].
Qed.

Lemma add_offered n qb : offered (add n qb).
Proof. apply offer_offered. Qed.

Lemma add_spec n qb :
  pool_ok qb → 0 ≤ n → total qb + n < 2 ^ 63 → total (add n qb) = total qb + n ∧ pool_ok (add n qb).
Proof.
  intros [Hc Hq] Hn Ht. unfold add. rewrite offer_total. unfold total in *.
  assert (int64_of (quota qb + n) = quota qb + n) as ->.
  { apply int64_id. unfold is_int64. destruct (qc qb); simpl in *; lia. }
  split; [simpl; lia|apply offer_ok; split; simpl; [done|lia]].
Qed.

Lemma acquire_spec qb n qb' :
  acquire qb = Some (n, qb') → pool_ok qb → total qb' = total qb - n ∧ 0 < n ∧ pool_ok qb'.
Proof. unfold acquire, total, pool_ok. destruct (qc qb); [intros [= <- <-] [? ?]|done]. simpl in *. split_and!; lia || done. Qed.

Lemma acquire_blocks qb : acquire qb = None → offered qb → pool_ok qb → total qb = 0.
Proof. unfold acquire, offered, total, pool_ok. destruct (qc qb); [done|]. intros _ H [? ?]. specialize (H eq_refl). simpl. lia. Qed.

(** ** Accounting of a receiver *)

Record inFlow := mkInFlow { limit : Z; pendingData : Z; pendingUpdate : Z }.

Definition msg_limit (n limit : Z) : error :=
  Errorf ("recieved " +:+ fmt_d n +:+ "-bytes data exceeding the limit " +:+ fmt_d limit +:+ " bytes").

(** An error of [onData]: of the stream, or a [ConnectionError]. *)
Inductive flowError := StreamLimit (e : error) | ConnectionLimit (e : error).

(** [onData] of the flow of a connection. *)
Definition conn_onData (n : Z) (f : inFlow) : inFlow + error :=
  if n =? 0 then inl f else
  let t := uint32 (uint32 (pendingData f + pendingUpdate f) + n) in
  if limit f <? t then inr (msg_limit t (limit f)) else
  inl (mkInFlow (limit f) (uint32 (pendingData f + n)) (pendingUpdate f)).

(** [onData] of the flow of a stream on the connection [conn]. *)
Definition onData (n : Z) (f conn : inFlow) : (inFlow * inFlow) + flowError :=
  if n =? 0 then inl (f, conn) else
  let t := uint32 (uint32 (pendingData f + pendingUpdate f) + n) in
  if limit f <? t then inr (StreamLimit (msg_limit t (limit f))) else
  match conn_onData n conn with
  | inr e => inr (ConnectionLimit e)
  | inl conn => inl (mkInFlow (limit f) (uint32 (pendingData f + n)) (pendingUpdate f), conn)
  end.

(** The data is consumed: what is pending for an update, and the update when it is due. *)
Definition consume (n : Z) (f : inFlow) : Z * inFlow :=
  let pd := uint32 (pendingData f - n) in
  let pu := uint32 (pendingUpdate f + n) in
  if limit f / 4 <=? pu then (pu, mkInFlow (limit f) pd 0) else (0, mkInFlow (limit f) pd pu).

(** [connOnRead] of the flow of a connection. *)
Definition connOnRead (n : Z) (conn : inFlow) : Z * inFlow := if n =? 0 then (0, conn) else consume n conn.

(** The updates of the stream and of the connection that are due. *)
Definition onRead (n : Z) (f conn : inFlow) : (Z * Z) * (inFlow * inFlow) :=
  if (n =? 0) || (pendingData f =? 0) then ((0, 0), (f, conn)) else
  let '(swu, f) := consume n f in
  let '(cwu, conn) := connOnRead n conn in
  ((swu, cwu), (f, conn)).

Definition restoreConn (f conn : inFlow) : Z * (inFlow * inFlow) :=
  let '(cwu, conn) := connOnRead (pendingData f) conn in
  (cwu, (mkInFlow (limit f) 0 0, conn)).

Definition flow_ok (f : inFlow) : Prop :=
  0 ≤ pendingData f ∧ 0 ≤ pendingUpdate f < limit f / 4 ∧ pendingData f + pendingUpdate f ≤ limit f < 2 ^ 31.

Lemma conn_onData_spec n f :
  flow_ok f → 0 < n → pendingData f + pendingUpdate f + n ≤ limit f →
  conn_onData n f = inl (mkInFlow (limit f) (pendingData f + n) (pendingUpdate f)).
Proof.
  intros (? & ? & ?) Hn Hl. unfold conn_onData. rewrite (proj2 (Z.eqb_neq n 0)), (uint32_id (pendingData f + pendingUpdate f)), !uint32_id by lia.
  by rewrite (proj2 (Z.ltb_ge _ _)) by lia.
Qed.

Lemma onData_spec n f conn :
  flow_ok f → flow_ok conn → 0 < n →
  pendingData f + pendingUpdate f + n ≤ limit f → pendingData conn + pendingUpdate conn + n ≤ limit conn →
  onData n f conn = inl (mkInFlow (limit f) (pendingData f + n) (pendingUpdate f),
                         mkInFlow (limit conn) (pendingData conn + n) (pendingUpdate conn)).
Proof.
  intros (? & ? & ?) Hc Hn Hl Hlc. unfold onData. rewrite (proj2 (Z.eqb_neq n 0)), (uint32_id (pendingData f + pendingUpdate f)), !uint32_id by lia.
  rewrite (proj2 (Z.ltb_ge _ _)) by lia. by rewrite conn_onData_spec.
Qed.

Lemma consume_spec n f u f' :
  consume n f = (u, f') → flow_ok f → 0 < n ≤ pendingData f →
  flow_ok f' ∧ limit f' = limit f ∧ pendingData f' = pendingData f - n ∧ 0 ≤ u ∧
  u + pendingUpdate f' = pendingUpdate f + n.
Proof.
  intros H (? & ? & ?) Hn. unfold consume in H. rewrite !uint32_id in H by lia.
  destruct (Z.leb_spec (limit f / 4) (pendingUpdate f + n)); injection H as <- <-; unfold flow_ok; cbn [limit pendingData pendingUpdate]; split_and!; lia.
Qed.

Lemma onRead_spec n f conn swu cwu f' conn' :
  onRead n f conn = ((swu, cwu), (f', conn')) → flow_ok f → flow_ok conn →
  0 < n ≤ pendingData f → n ≤ pendingData conn →
  (flow_ok f' ∧ limit f' = limit f ∧ pendingData f' = pendingData f - n ∧ 0 ≤ swu ∧
   swu + pendingUpdate f' = pendingUpdate f + n) ∧
  (flow_ok conn' ∧ limit conn' = limit conn ∧ pendingData conn' = pendingData conn - n ∧ 0 ≤ cwu ∧
   cwu + pendingUpdate conn' = pendingUpdate conn + n).
Proof.
  intros H Hf Hc Hn Hnc. unfold onRead, connOnRead in H.
  rewrite (proj2 (Z.eqb_neq n 0)), (proj2 (Z.eqb_neq (pendingData f) 0)) in H by lia. simpl in H.
  destruct (consume n f) as [u g] eqn:E1, (consume n conn) as [v h] eqn:E2. injection H as <- <- <- <-.
  split; eapply consume_spec; eauto; lia.
Qed.

(** ** The buffer between a transport and the reader of a stream *)

Section recvBuffer.
Context {item : Type}.

(** [c], a channel of capacity one, and the [backlog] behind it. *)
Record recvBuffer := mkRecvBuffer { bc : option item; backlog : list item }.

Definition newRecvBuffer : recvBuffer := mkRecvBuffer None [].

(** The [select] of [put] and [load]. *)
Definition load (b : recvBuffer) : recvBuffer :=
  match bc b, backlog b with
  | None, i :: l => mkRecvBuffer (Some i) l
  | _, _ => b
  end.

Definition put (r : item) (b : recvBuffer) : recvBuffer := load (mkRecvBuffer (bc b) (backlog b ++ [r])).

(** A receive from [get()]; [None] blocks. *)
Definition get (b : recvBuffer) : option (item * recvBuffer) :=
  i ← bc b; Some (i, mkRecvBuffer None (backlog b)).

(** The queue that it implements. *)
Definition queued (b : recvBuffer) : list item := option_list (bc b) ++ backlog b.

(** The head of the queue can be received. *)
Definition ready (b : recvBuffer) : Prop := bc b = None → backlog b = [].

Lemma load_queued b : queued (load b) = queued b.
Proof. unfold load, queued. by destruct b as [[?|] [|]]. Qed.

Lemma load_ready b : ready (load b).
Proof. unfold load, ready. by destruct b as [[?|] [|]]. Qed.

Lemma put_queued r b : queued (put r b) = queued b ++ [r].
Proof. unfold put. rewrite load_queued. unfold queued. simpl. by rewrite app_assoc. Qed.

Lemma get_queued b i b' : get b = Some (i, b') → queued b = i :: queued b'.
Proof. unfold get, queued. destruct b as [[j|] l]; [|done]. by intros [= -> <-]. Qed.

Lemma get_none b : ready b → get b = None → queued b = [].
Proof. unfold ready, get, queued. destruct b as [[j|] l]; [done|]. simpl. by intros ->. Qed.
End recvBuffer.
Arguments recvBuffer : clear implicits.
