(* ===== verification/Transfer.v ===== *)
(** * One stream of a gRPC connection (Godeps .../grpc/transport, http2_client.go,
    http2_server.go and transport.go)

    What a client writes on a stream until the server's handler has read it, as a labelled
    transition system: [http2Client.Write] with its two quotas, the data frames in flight,
    [http2Server.handleData], the buffer of the stream and its reader, the window updates
    that reading causes, the server's [controller] and the client's [handleWindowUpdate].
    A connection of the program carries one stream at a time.  Settings, pings and resets
    are left out, and nobody cancels. *)
From Stdlib Require Import ZArith Lia.
From stdpp Require Import base option list.
From S2P Require Import Prelude GoNum GoFmt Strconv Flow.

Definition http2MaxFrameLen : Z := 16384.
Definition defaultWindowSize : Z := 65535.
Definition initialWindowSize : Z := defaultWindowSize.
Definition initialConnWindowSize : Z := defaultWindowSize * 16.

(** ** Reading from a stream *)

(** The errors that end the reading of a stream. *)
Inductive rerror :=
  | EOF
  | UnexpectedEOF
  | StreamError (code : Z) (desc : string)
  | ConnectionError (desc : string)
  | rpcError (code : Z) (desc : string).

Inductive recvMsg := RData (data : bytes) | RErr (err : rerror).

(** [r_last] is what the previous calls have left of an item. *)
Record recvBufferReader := mkReader {
  recv_buf : recvBuffer recvMsg;
  r_last : bytes;
  r_err : option rerror
}.

(** [bytes.Reader.Read] into [k] bytes. *)
Definition Reader_Read (k : nat) (b : bytes) : bytes + rerror :=
  if (k =? 0)%nat then inl [] else match b with [] => inr EOF | _ => inl (take k b) end.

(** [Read] into a slice of [k] bytes; [None] blocks. *)
Definition Read (k : nat) (r : recvBufferReader) : option ((bytes + rerror) * recvBufferReader) :=
  match r_err r with
  | Some e => Some (inr e, r)
  | None =>
      match r_last r with
      | _ :: _ => Some (Reader_Read k (r_last r), mkReader (recv_buf r) (drop k (r_last r)) None)
      | [] =>
          '(i, b) ← get (recv_buf r);
          let b := load b in
          match i with
          | RErr e => Some (inr e, mkReader b [] (Some e))
          | RData d =>
              match Reader_Read k d with
              | inl p => Some (inl p, mkReader b (drop k d) None)
              | inr e => Some (inr e, mkReader b [] (Some e))
              end
          end
      end
  end.

(** ** State *)

Record dataFrame := mkData { Data : bytes; endStream : bool }.
(** The window update of the stream, or of the connection. *)
Record windowUpdate := mkUpdate { of_stream : bool; increment : Z }.

(** [Write]: between calls, at the top of its loop, waiting for quota of the stream, with
    [sq] of it before [add(0)] and waiting for quota of the transport, about to write [p]. *)
Inductive writer_pc :=
  | WIdle
  | WTop
  | WStream
  | WGot (sq : Z)
  | WConn (sq : Z)
  | WHold (p : bytes).

Inductive rstate := Active | ReadDone | Reset | Closed.

Record xfer := mkXfer {
  calls : list (bytes * bool);        (** the calls of [Write] to come: data and [opts.Last] *)
  pc : writer_pc;
  wbuf : bytes;                       (** [r], what is left of the data *)
  wlast : bool;
  sendQuotaPool : quotaPool;          (** of the stream *)
  connQuotaPool : quotaPool;          (** of the transport *)
  wire : list dataFrame;              (** from the client to the server *)
  rst : rstate;
  fc : inFlow;
  conn : inFlow;
  rd : recvBufferReader;
  upd : Z;                            (** bytes read of which [windowHandler] has not heard yet *)
  controlBuf : recvBuffer windowUpdate;
  updates : list windowUpdate;        (** from the server to the client *)
  reads : list (bytes + rerror)       (** what the reads of the handler have returned *)
}.

Inductive xlabel :=
  | LCall | LTop | LStream | LAdd | LConn | LData
  | RFrame
  | ARead (k : nat) | AUpdate
  | RControl
  | WUpdate.

(** ** Steps *)

Definition set_w (c : list (bytes * bool)) (q : writer_pc) (r : bytes) (l : bool) (sp tp : quotaPool) (w : list dataFrame)
    (s : xfer) : xfer :=
  mkXfer c q r l sp tp w (rst s) (fc s) (conn s) (rd s) (upd s) (controlBuf s) (updates s) (reads s).
Definition set_r (w : list dataFrame) (t : rstate) (f g : inFlow) (r : recvBufferReader) (u : Z)
    (c : recvBuffer windowUpdate) (ups : list windowUpdate) (d : list (bytes + rerror)) (s : xfer) : xfer :=
  mkXfer (calls s) (pc s) (wbuf s) (wlast s) (sendQuotaPool s) (connQuotaPool s) w t f g r u c ups d.

(** What [Write] takes of its data with quota [sq] and [tq]. *)
Definition chunk_size (sq tq : Z) : Z := Z.min (Z.min http2MaxFrameLen sq) tq.

Definition step_writer (l : xlabel) (s : xfer) : option xfer :=
  match l, pc s with
  | LCall, WIdle =>
      match calls s with
      | (d, lst) :: cs => Some (set_w cs WTop d lst (sendQuotaPool s) (connQuotaPool s) (wire s) s)
      | [] => None
      end
  | LTop, WTop =>
      if (0 <? length (wbuf s))%nat
      then Some (set_w (calls s) WStream (wbuf s) (wlast s) (add 0 (sendQuotaPool s)) (connQuotaPool s) (wire s) s)
      else Some (set_w (calls s) (WHold []) (wbuf s) (wlast s) (sendQuotaPool s) (connQuotaPool s) (wire s) s)
  | LStream, WStream =>
      '(sq, sp) ← acquire (sendQuotaPool s);
      Some (set_w (calls s) (WGot sq) (wbuf s) (wlast s) sp (connQuotaPool s) (wire s) s)
  | LAdd, WGot sq =>
      Some (set_w (calls s) (WConn sq) (wbuf s) (wlast s) (sendQuotaPool s) (add 0 (connQuotaPool s)) (wire s) s)
  | LConn, WConn sq =>
      '(tq, tp) ← acquire (connQuotaPool s);
      let p := take (Z.to_nat (chunk_size sq tq)) (wbuf s) in
      let ps := Z.of_nat (length p) in
      Some (set_w (calls s) (WHold p) (drop (Z.to_nat (chunk_size sq tq)) (wbuf s)) (wlast s)
        (if ps <? sq then add (sq - ps) (sendQuotaPool s) else sendQuotaPool s)
        (if ps <? tq then add (tq - ps) tp else tp) (wire s) s)
  | LData, WHold p =>
      let empty := (length (wbuf s) =? 0)%nat in
      Some (set_w (calls s) (if empty then WIdle else WTop) (wbuf s) (wlast s) (sendQuotaPool s) (connQuotaPool s)
        (wire s ++ [mkData p (wlast s && empty)]) s)
  | _, _ => None
  end.

(** [handleData] of the server; frames of a stream that is gone are dropped. *)
Definition write (m : recvMsg) (r : recvBufferReader) : recvBufferReader :=
  mkReader (put m (recv_buf r)) (r_last r) (r_err r).

Definition handleEnd (f : dataFrame) (s : xfer) : xfer :=
  if endStream f then
    set_r (wire s) ReadDone (fc s) (conn s) (write (RErr EOF) (rd s)) (upd s) (controlBuf s) (updates s) (reads s) s
  else s.

(** [closeStream], which gives back what the stream has pending. *)
Definition closeStream (s : xfer) : xfer :=
  let '(q, (f, g)) := restoreConn (fc s) (conn s) in
  set_r (wire s) Reset f g (rd s) (upd s)
    (if 0 <? q then put (mkUpdate false q) (controlBuf s) else controlBuf s) (updates s) (reads s) s.

Definition handleData (f : dataFrame) (s : xfer) : xfer :=
  match rst s with
  | Reset | Closed => s
  | _ =>
      let size := Z.of_nat (length (Data f)) in
      if 0 <? size then
        match onData size (fc s) (conn s) with
        | inr (ConnectionLimit _) =>
            set_r (wire s) Closed (fc s) (conn s) (rd s) (upd s) (controlBuf s) (updates s) (reads s) s
        | inr (StreamLimit _) => closeStream s
        | inl (fc', conn') =>
            handleEnd f (set_r (wire s) (rst s) fc' conn' (write (RData (Data f)) (rd s)) (upd s) (controlBuf s)
              (updates s) (reads s) s)
        end
      else handleEnd f s
  end.

(** [updateWindow]. *)
Definition updateWindow (n : Z) (s : xfer) : xfer :=
  let '((swu, cwu), (f, g)) := onRead n (fc s) (conn s) in
  let c := if 0 <? swu then put (mkUpdate true swu) (controlBuf s) else controlBuf s in
  let c := if 0 <? cwu then put (mkUpdate false cwu) c else c in
  set_r (wire s) (rst s) f g (rd s) 0 c (updates s) (reads s) s.

Definition handleWindowUpdate (u : windowUpdate) (s : xfer) : xfer :=
  if of_stream u
  then set_w (calls s) (pc s) (wbuf s) (wlast s) (add (increment u) (sendQuotaPool s)) (connQuotaPool s) (wire s) s
  else set_w (calls s) (pc s) (wbuf s) (wlast s) (sendQuotaPool s) (add (increment u) (connQuotaPool s)) (wire s) s.

(** A handler reads on as long as its reads give no error. *)
Definition xfer_step (l : xlabel) (s : xfer) : option xfer :=
  match l with
  | RFrame =>
      match wire s with
      | f :: w => Some (handleData f
          (set_r w (rst s) (fc s) (conn s) (rd s) (upd s) (controlBuf s) (updates s) (reads s) s))
      | [] => None
      end
  | ARead k =>
      if (k =? 0)%nat || negb (upd s =? 0) || bool_decide (is_Some (r_err (rd s))) then None else
      '(res, r) ← Read k (rd s);
      Some (set_r (wire s) (rst s) (fc s) (conn s) r
        match res with inl p => Z.of_nat (length p) | inr _ => 0 end (controlBuf s) (updates s) (reads s ++ [res]) s)
  | AUpdate => if upd s =? 0 then None else Some (updateWindow (upd s) s)
  | RControl =>
      '(u, c) ← get (controlBuf s);
      Some (set_r (wire s) (rst s) (fc s) (conn s) (rd s) (upd s) (load c) (updates s ++ [u]) (reads s) s)
  | WUpdate =>
      match updates s with
      | u :: us => Some (handleWindowUpdate u
          (set_r (wire s) (rst s) (fc s) (conn s) (rd s) (upd s) (controlBuf s) us (reads s) s))
      | [] => None
      end
  | _ => step_writer l s
  end.

Definition xfer_rel (s : xfer) (l : xlabel) (t : xfer) : Prop := xfer_step l s = Some t.

(** A new stream on a new connection: the server has sent the window update with which it
    starts, and [cs] are the calls of [Write] to come. *)
Definition xfer_start (cs : list (bytes * bool)) : xfer :=
  mkXfer cs WIdle [] false (newQuotaPool defaultWindowSize) (newQuotaPool defaultWindowSize) [] Active
    (mkInFlow initialWindowSize 0 0) (mkInFlow initialConnWindowSize 0 0) (mkReader newRecvBuffer [] None) 0
    newRecvBuffer [mkUpdate false (uint32 (initialConnWindowSize - defaultWindowSize))] [].

(** What the handler has read. *)
Definition read_bytes (r : bytes + rerror) : bytes := match r with inl p => p | inr _ => [] end.
Definition delivered (s : xfer) : bytes := concat (map read_bytes (reads s)).

Fixpoint xfer_exec (ls : list xlabel) (s : xfer) : option xfer :=
  match ls with [] => Some s | l :: ls => xfer_step l s ≫= xfer_exec ls end.

Lemma xfer_exec_run ls s t : xfer_exec ls s = Some t → run xfer_rel s ls t.
Proof.
  revert s. induction ls as [|l ls IH]; simpl; intros s H; [injection H as ->; constructor|].
  apply bind_Some in H as (u & Hu & Ht). econstructor; [exact Hu|by apply IH].
Qed.
