(* ===== verification/TransferProps.v ===== *)
(** * Properties of a stream

    Nothing is lost, reordered or duplicated, no flow-control limit is ever exceeded, and
    no interleaving of writer, transports and reader deadlocks or runs forever. *)
From Stdlib Require Import ZArith Lia Ascii.
From stdpp Require Import base option list.
From S2P Require Import Prelude GoNum GoFmt Strconv Flow Transfer.

(** ** What a stream still carries

    A byte is [Some c], the end of the stream [None]. *)

Abbreviation content := (list (option ascii)).

Definition some_bytes (d : bytes) (e : bool) : content := map Some d ++ (if e then [None] else []).

Definition item_content (m : recvMsg) : content :=
  match m with RData d => some_bytes d false | RErr _ => [None] end.
Definition frame_content (f : dataFrame) : content := some_bytes (Data f) (endStream f).
Definition call_content (c : bytes * bool) : content := some_bytes (fst c) (snd c).

Definition writer_content (q : writer_pc) (r : bytes) (l : bool) : content :=
  match q with
  | WIdle => []
  | WHold p => map Some p ++ some_bytes r l
  | _ => some_bytes r l
  end.

Definition reader_content (r : recvBufferReader) : content :=
  map Some (r_last r) ++ concat (map item_content (queued (recv_buf r))).

(** What has left the writer and has not been read. *)
Definition underway (s : xfer) : content :=
  reader_content (rd s) ++ concat (map frame_content (wire s)).

Definition unsent (s : xfer) : content :=
  writer_content (pc s) (wbuf s) (wlast s) ++ concat (map call_content (calls s)).

Definition read_content (s : xfer) : content :=
  some_bytes (delivered s) (bool_decide (is_Some (r_err (rd s)))).

(** ** Quota *)

Definition sizeZ (d : bytes) : Z := Z.of_nat (length d).
Definition item_size (m : recvMsg) : Z := match m with RData d => sizeZ d | RErr _ => 0 end.
Definition update_size (b : bool) (u : windowUpdate) : Z := if Bool.eqb (of_stream u) b then increment u else 0.

Definition in_flight (s : xfer) : Z := sumZ (fun f => sizeZ (Data f)) (wire s).
Definition buffered (r : recvBufferReader) : Z := sizeZ (r_last r) + sumZ item_size (queued (recv_buf r)).
Definition returning (b : bool) (s : xfer) : Z :=
  sumZ (update_size b) (queued (controlBuf s)) + sumZ (update_size b) (updates s).

(** Quota that the writer has acquired and not used. *)
Definition held_stream (q : writer_pc) : Z :=
  match q with WGot sq | WConn sq => sq | WHold p => sizeZ p | _ => 0 end.
Definition held_conn (q : writer_pc) : Z := match q with WHold p => sizeZ p | _ => 0 end.

Definition item_ok (m : recvMsg) : Prop := match m with RData d => d ≠ [] | RErr e => e = EOF end.

Definition writer_ok (s : xfer) : Prop :=
  match pc s with
  | WStream => wbuf s ≠ [] ∧ offered (sendQuotaPool s)
  | WGot sq => wbuf s ≠ [] ∧ 0 < sq
  | WConn sq => wbuf s ≠ [] ∧ 0 < sq ∧ offered (connQuotaPool s)
  | _ => True
  end.

(** The quota of the stream and that of the connection are somewhere: in a pool, with the
    writer, spent on data in flight, pending at the receiver, or on their way back. *)
Record quota_inv (s : xfer) : Prop := {
  qi_stream : total (sendQuotaPool s) + held_stream (pc s) + in_flight s + pendingData (fc s)
              + pendingUpdate (fc s) + returning true s = initialWindowSize;
  qi_conn : total (connQuotaPool s) + held_conn (pc s) + in_flight s + pendingData (conn s)
            + pendingUpdate (conn s) + returning false s = initialConnWindowSize;
  qi_limits : limit (fc s) = initialWindowSize ∧ limit (conn s) = initialConnWindowSize;
  qi_pending : pendingData (fc s) = buffered (rd s) + upd s ∧ pendingData (conn s) = pendingData (fc s);
  qi_pools : pool_ok (sendQuotaPool s) ∧ pool_ok (connQuotaPool s);
  qi_flows : flow_ok (fc s) ∧ flow_ok (conn s);
  qi_upd : 0 ≤ upd s;
  qi_updates : Forall (fun u => 0 < increment u) (queued (controlBuf s) ++ updates s)
}.

Record shape_inv (s : xfer) : Prop := {
  si_open : rst s = Active ∨ rst s = ReadDone;
  si_writer : writer_ok s;
  si_items : Forall item_ok (queued (recv_buf (rd s)));
  si_err : r_err (rd s) = None ∨ r_err (rd s) = Some EOF;
  si_ready : ready (recv_buf (rd s)) ∧ ready (controlBuf s)
}.

Lemma sizeZ_fold d : Z.of_nat (length d) = sizeZ d.
Proof. done. Qed.

Lemma sizeZ_nonneg d : 0 ≤ sizeZ d.
Proof. unfold sizeZ. lia. Qed.

Lemma sizeZ_app a b : sizeZ (a ++ b) = sizeZ a + sizeZ b.
Proof. unfold sizeZ. rewrite length_app. lia. Qed.

Lemma sizeZ_split n d : sizeZ (take n d) + sizeZ (drop n d) = sizeZ d.
Proof. rewrite <- sizeZ_app. by rewrite take_drop. Qed.

Lemma sizeZ_pos d : d ≠ [] → 0 < sizeZ d.
Proof. unfold sizeZ. destruct d; [done|]. simpl. lia. Qed.

Lemma nonempty_length (d : bytes) : (0 < length d)%nat → d ≠ [].
Proof. destruct d; [simpl; lia|done]. Qed.

Lemma item_size_nonneg m : 0 ≤ item_size m.
Proof. destruct m; simpl; [apply sizeZ_nonneg|lia]. Qed.

Lemma in_flight_nonneg s : 0 ≤ in_flight s.
Proof. apply sumZ_nonneg. intros f. apply sizeZ_nonneg. Qed.

Lemma buffered_nonneg r : 0 ≤ buffered r.
Proof. unfold buffered. pose proof (sizeZ_nonneg (r_last r)). pose proof (sumZ_nonneg item_size (queued (recv_buf r)) item_size_nonneg). lia. Qed.

Lemma updates_nonneg b l : Forall (fun u => 0 < increment u) l → 0 ≤ sumZ (update_size b) l.
Proof. induction 1 as [|u l Hu _ IH]; simpl; [lia|]. unfold update_size at 1. destruct (Bool.eqb _ _); lia. Qed.

Lemma returning_nonneg b s : quota_inv s → 0 ≤ returning b s.
Proof. intros HI. pose proof (updates_nonneg b _ (qi_updates _ HI)) as H. rewrite sumZ_app in H. exact H. Qed.

Lemma held_nonneg s : writer_ok s → 0 ≤ held_stream (pc s) ∧ 0 ≤ held_conn (pc s).
Proof. unfold writer_ok. destruct (pc s); simpl; try lia. split; apply sizeZ_nonneg. Qed.

Lemma total_nonneg q : pool_ok q → 0 ≤ total q.
Proof. unfold pool_ok, total. destruct (qc q); simpl; lia. Qed.

(** The parts of a quota are bounded by the whole. *)
Lemma quota_bounds s :
  quota_inv s → writer_ok s →
  0 ≤ total (sendQuotaPool s) ∧ 0 ≤ total (connQuotaPool s) ∧ 0 ≤ held_stream (pc s) ∧ 0 ≤ held_conn (pc s) ∧
  0 ≤ in_flight s ∧ 0 ≤ buffered (rd s) ∧ 0 ≤ returning true s ∧ 0 ≤ returning false s.
Proof.
  intros HI HW. pose proof (held_nonneg s HW). pose proof (qi_pools _ HI) as [Ha Hb].
  pose proof (total_nonneg _ Ha). pose proof (total_nonneg _ Hb). pose proof (in_flight_nonneg s).
  pose proof (buffered_nonneg (rd s)). pose proof (returning_nonneg true s HI). pose proof (returning_nonneg false s HI).
  tauto.
Qed.

(** The fields of a state after a step. *)
Ltac fields :=
  cbn [set_w set_r calls pc wbuf wlast sendQuotaPool connQuotaPool wire rst fc conn rd upd controlBuf updates reads
       recv_buf r_last r_err limit pendingData pendingUpdate Data endStream of_stream increment held_stream held_conn] in *.

Lemma sumZ_cons {A} (f : A → Z) x l : sumZ f (x :: l) = f x + sumZ f l.
Proof. done. Qed.

Lemma sumZ_nil {A} (f : A → Z) : sumZ f [] = 0.
Proof. done. Qed.

Lemma sumZ_one {A} (f : A → Z) x : sumZ f [x] = f x.
Proof. unfold sumZ. simpl. lia. Qed.

Ltac quota_eq :=
  repeat match goal with H : pc _ = _ |- _ => rewrite H end; unfold in_flight; fields; rewrite ?sumZ_app, ?sumZ_one;
  fields; unfold in_flight in *; change (sizeZ []) with 0 in *; lia.

(** ** The writer *)

Definition carried (s : xfer) : content := read_content s ++ underway s ++ unsent s.

(** What a step of the writer leaves as it is. *)
Lemma set_w_inv cs q r l sp tp w s :
  quota_inv s → shape_inv s → pool_ok sp → pool_ok tp →
  total sp + held_stream q + sumZ (fun f => sizeZ (Data f)) w =
    total (sendQuotaPool s) + held_stream (pc s) + in_flight s →
  total tp + held_conn q + sumZ (fun f => sizeZ (Data f)) w =
    total (connQuotaPool s) + held_conn (pc s) + in_flight s →
  writer_ok (set_w cs q r l sp tp w s) →
  quota_inv (set_w cs q r l sp tp w s) ∧ shape_inv (set_w cs q r l sp tp w s).
Proof.
  intros [H1 H2 H3 H4 H5 H6 H7 H8] [G1 G2 G3 G6 G4] Hsp Htp Es Et HW. split; [|by split].
  unfold returning, in_flight in *.
  split; unfold returning, in_flight; fields; try done; lia.
Qed.

Lemma chunk_spec sq tq (r : bytes) :
  0 < sq → 0 < tq → r ≠ [] →
  let p := take (Z.to_nat (chunk_size sq tq)) r in
  p ≠ [] ∧ sizeZ p ≤ sq ∧ sizeZ p ≤ tq ∧ sizeZ p ≤ http2MaxFrameLen.
Proof.
  intros Hs Ht Hr p. assert (0 < chunk_size sq tq ≤ http2MaxFrameLen) as Hc by (unfold chunk_size, http2MaxFrameLen; lia).
  assert (sizeZ p ≤ chunk_size sq tq) as Hl by (unfold sizeZ, p; rewrite length_take; lia).
  split; [|unfold chunk_size in *; lia].
  unfold p. destruct r; [done|]. by destruct (Z.to_nat (chunk_size sq tq)) eqn:E; [lia|].
Qed.

(** Overbooked quota goes back. *)
Lemma give_back n q qb :
  pool_ok qb → 0 ≤ n ≤ q → total qb + q < 2 ^ 63 →
  let qb' := if n <? q then add (q - n) qb else qb in total qb' = total qb + (q - n) ∧ pool_ok qb'.
Proof.
  intros Hok Hn Ht. simpl. destruct (Z.ltb_spec n q); [apply add_spec; [done|lia..]|]. split; [lia|done].
Qed.

Lemma writer_step l s t :
  quota_inv s → shape_inv s → step_writer l s = Some t → quota_inv t ∧ shape_inv t.
Proof.
  intros HQ HS H. pose proof (si_writer _ HS) as HW. pose proof (quota_bounds s HQ HW) as HB.
  pose proof (qi_stream _ HQ) as Es. pose proof (qi_conn _ HQ) as Ec. pose proof (qi_pools _ HQ) as [Hsp Htp].
  pose proof (qi_flows _ HQ) as [(? & ? & _) (? & ? & _)].
  unfold initialWindowSize, initialConnWindowSize, defaultWindowSize in *.
  unfold step_writer in H. unfold writer_ok in HW. destruct l; try done; destruct (pc s) eqn:Epc; try done; cbn [held_stream held_conn] in *.
  - destruct (calls s) as [|[d lst] cs]; [done|]. injection H as <-. apply set_w_inv; try done; quota_eq.
  - destruct (add_spec 0 (sendQuotaPool s)) as [Ea Hok]; [done|lia..|].
    destruct (Nat.ltb_spec 0 (length (wbuf s))); injection H as <-; apply set_w_inv; try done; try quota_eq.
    split; [fields; by apply nonempty_length|apply add_offered].
  - destruct (acquire (sendQuotaPool s)) as [[sq sp]|] eqn:E; [|done]. injection H as <-.
    apply acquire_spec in E as (E1 & E2 & E3); [|done]. apply set_w_inv; try done; try quota_eq. split; fields; [apply HW|lia].
  - destruct (add_spec 0 (connQuotaPool s)) as [Ea Hok]; [done|lia..|].
    injection H as <-. apply set_w_inv; try done; try quota_eq. destruct HW. by split; [|split; [|apply add_offered]].
  - destruct (acquire (connQuotaPool s)) as [[tq tp]|] eqn:E; [|done]. injection H as <-.
    apply acquire_spec in E as (E1 & E2 & E3); [|done]. destruct HW as (Hr & Hsq & _).
    pose proof (total_nonneg _ E3).
    destruct (chunk_spec sq tq (wbuf s) Hsq E2 Hr) as (Hp & K1 & K2 & _).
    set (p := take _ _) in *. change (Z.of_nat (length p)) with (sizeZ p). pose proof (sizeZ_nonneg p).
    destruct (give_back (sizeZ p) sq (sendQuotaPool s)) as [F1 F2]; [done|lia..|].
    destruct (give_back (sizeZ p) tq tp) as [F3 F4]; [done|lia..|].
    apply set_w_inv; try done; rewrite ?F1, ?F3; quota_eq.
  - injection H as <-. destruct (length (wbuf s) =? 0)%nat; apply set_w_inv; try done; quota_eq.
Qed.

(** ** The receiver *)

Lemma updates_put u c : Forall (fun u => 0 < increment u) (queued c) → 0 < increment u →
  Forall (fun u => 0 < increment u) (queued (put u c)).
Proof. intros Hc Hu. rewrite put_queued. apply Forall_app. split; [done|by constructor]. Qed.

(** An update that is due is put into the buffer of the controller. *)
Lemma put_due b n c :
  0 ≤ n → ready c → Forall (fun u => 0 < increment u) (queued c) →
  let c' := if 0 <? n then put (mkUpdate b n) c else c in
  ready c' ∧ Forall (fun u => 0 < increment u) (queued c') ∧
  ∀ b', sumZ (update_size b') (queued c') = sumZ (update_size b') (queued c) + (if Bool.eqb b b' then n else 0).
Proof.
  intros Hn Hr Hc. simpl. destruct (Z.ltb_spec 0 n).
  - split; [apply load_ready|]. split; [by apply updates_put|]. intros b'.
    rewrite put_queued, sumZ_app, sumZ_one. done.
  - split; [done|]. split; [done|]. intros b'. assert (n = 0) as -> by lia. case_match; lia.
Qed.

Lemma onData_ok f w s :
  quota_inv s → shape_inv s → wire s = f :: w → Data f ≠ [] →
  onData (sizeZ (Data f)) (fc s) (conn s) =
    inl (mkInFlow (limit (fc s)) (pendingData (fc s) + sizeZ (Data f)) (pendingUpdate (fc s)),
         mkInFlow (limit (conn s)) (pendingData (conn s) + sizeZ (Data f)) (pendingUpdate (conn s))) ∧
  flow_ok (mkInFlow (limit (fc s)) (pendingData (fc s) + sizeZ (Data f)) (pendingUpdate (fc s))) ∧
  flow_ok (mkInFlow (limit (conn s)) (pendingData (conn s) + sizeZ (Data f)) (pendingUpdate (conn s))).
Proof.
  intros HQ HS Hw Hd. pose proof (quota_bounds s HQ (si_writer _ HS)) as HB.
  pose proof (qi_stream _ HQ) as Es. pose proof (qi_conn _ HQ) as Ec. pose proof (qi_limits _ HQ) as [L1 L2].
  pose proof (qi_flows _ HQ) as [F1 F2]. pose proof (sizeZ_pos _ Hd).
  assert (sizeZ (Data f) ≤ in_flight s).
  { unfold in_flight. rewrite Hw. unfold sumZ. simpl. pose proof (sumZ_nonneg (fun f => sizeZ (Data f)) w (fun f => sizeZ_nonneg _)).
    unfold sumZ in *. lia. }
  pose proof F1 as (? & ? & ?). pose proof F2 as (? & ? & ?).
  split; [apply onData_spec; try done; lia|]. unfold flow_ok. cbn [limit pendingData pendingUpdate].
  split; split_and!; lia.
Qed.

Lemma in_flight_cons f w s : wire s = f :: w → in_flight s = sizeZ (Data f) + sumZ (fun f => sizeZ (Data f)) w.
Proof. intros H. unfold in_flight. by rewrite H. Qed.

Lemma buffered_write m r : buffered (write m r) = buffered r + item_size m.
Proof. unfold buffered, write. cbn [recv_buf r_last]. rewrite put_queued, sumZ_app, sumZ_one. lia. Qed.

Lemma handleEnd_inv f s :
  quota_inv s → shape_inv s → quota_inv (handleEnd f s) ∧ shape_inv (handleEnd f s).
Proof.
  intros HQ HS. unfold handleEnd. destruct (endStream f); [|done].
  destruct HQ as [H1 H2 H3 H4 H5 H6 H7 H8], HS as [G1 G2 G3 G6 [G4 G5]].
  split; split; try done; unfold returning in *; fields; try done.
  - rewrite buffered_write. simpl. by rewrite Z.add_0_r.
  - by right.
  - unfold write. fields. rewrite put_queued. apply Forall_app. by split; [|constructor].
  - split; [apply load_ready|done].
Qed.

Lemma frame_step f w s :
  quota_inv s → shape_inv s → wire s = f :: w →
  let s' := set_r w (rst s) (fc s) (conn s) (rd s) (upd s) (controlBuf s) (updates s) (reads s) s in
  quota_inv (handleData f s') ∧ shape_inv (handleData f s').
Proof.
  intros HQ HS Hw s'. pose proof (in_flight_cons _ _ _ Hw) as HI.
  unfold handleData. change (rst s') with (rst s). change (fc s') with (fc s). change (conn s') with (conn s).
  change (Z.of_nat (length (Data f))) with (sizeZ (Data f)).
  assert (∀ X Y : xfer, (match rst s with Reset | Closed => X | _ => Y end) = Y) as ->
    by (intros; by destruct (si_open _ HS) as [-> | ->]).
  destruct (Z.ltb_spec 0 (sizeZ (Data f))) as [Hp|Hp].
  - assert (Data f ≠ []) as Hd by (intros E; rewrite E in Hp; change (sizeZ []) with 0 in Hp; lia).
    destruct (onData_ok f w s HQ HS Hw Hd) as (-> & F1 & F2). apply handleEnd_inv.
    + destruct HQ as [H1 H2 H3 H4 H5 H6 H7 H8]. unfold returning in *. subst s'.
      split; unfold returning, in_flight; fields; try done; try lia.
      rewrite buffered_write. cbn [item_size]. lia.
    + destruct HS as [G1 G2 G3 G6 [G4 G5]]. split; try done; unfold write; fields.
      * rewrite put_queued. apply Forall_app. by split; [|constructor].
      * split; [apply load_ready|done].
  - pose proof (sizeZ_nonneg (Data f)). apply handleEnd_inv.
    + destruct HQ as [H1 H2 H3 H4 H5 H6 H7 H8]. unfold returning in *. subst s'.
      split; unfold returning, in_flight; fields; try done; lia.
    + by destruct HS as [G1 G2 G3 G6 [G4 G5]].
Qed.

Lemma take_nonempty k (d : bytes) : (0 < k)%nat → d ≠ [] → take k d ≠ [].
Proof. destruct k, d; try done. lia. Qed.

Lemma map_some_split k (d : bytes) : map Some (take k d) ++ map Some (drop k d) = map Some d.
Proof. by rewrite <- map_app, take_drop. Qed.

(** What a read takes out of the buffer. *)
Lemma Read_spec k r res r' :
  (0 < k)%nat → r_err r = None → ready (recv_buf r) → Forall item_ok (queued (recv_buf r)) →
  Read k r = Some (res, r') →
  ready (recv_buf r') ∧ Forall item_ok (queued (recv_buf r')) ∧
  match res with
  | inl p => p ≠ [] ∧ r_err r' = None ∧ buffered r = sizeZ p + buffered r' ∧
             reader_content r = map Some p ++ reader_content r'
  | inr e => e = EOF ∧ r_err r' = Some e ∧ buffered r = buffered r' ∧ reader_content r = None :: reader_content r' ∧
             (length (queued (recv_buf r')) < length (queued (recv_buf r)))%nat
  end.
Proof.
  intros Hk He Hr Hi H. unfold Read, Reader_Read in H. rewrite He in H.
  rewrite (proj2 (Nat.eqb_neq k 0)) in H by lia. destruct (r_last r) as [|c l] eqn:El.
  - destruct (get (recv_buf r)) as [[i b]|] eqn:Eg; [|done]. simpl in H. apply get_queued in Eg.
    unfold buffered, reader_content. rewrite Eg in *. apply Forall_cons in Hi as [Hi1 Hi2]. rewrite El.
    destruct i as [[|c d]|e]; [done|..]; injection H as <- <-; fields; rewrite ?load_queued;
      (split; [apply load_ready|split; [done|]]).
    + split; [by apply take_nonempty|]. split; [done|]. pose proof (sizeZ_split k (c :: d)).
      rewrite sumZ_cons. cbn [item_size map concat item_content]. change (sizeZ []) with 0. split; [lia|].
      unfold some_bytes. by rewrite app_nil_r, (app_assoc (map Some (take k (c :: d)))), map_some_split.
    + split; [done|]. split; [done|]. rewrite sumZ_cons. cbn [item_size length]. split_and!; [lia|done|lia].
  - injection H as <- <-. fields. split; [done|]. split; [done|].
    split; [by apply take_nonempty|]. split; [done|]. pose proof (sizeZ_split k (c :: l)).
    unfold buffered, reader_content. fields. rewrite El. split; [lia|].
    by rewrite (app_assoc (map Some (take k (c :: l)))), map_some_split.
Qed.

Lemma read_step k s t :
  quota_inv s → shape_inv s → xfer_step (ARead k) s = Some t → quota_inv t ∧ shape_inv t.
Proof.
  intros HQ HS H. unfold xfer_step in H.
  destruct ((k =? 0)%nat || negb (upd s =? 0) || bool_decide (is_Some (r_err (rd s)))) eqn:Eg; [done|].
  apply orb_false_elim in Eg as [[Ek%Nat.eqb_neq Eu]%orb_false_elim Ee%bool_decide_eq_false].
  apply negb_false_iff, Z.eqb_eq in Eu. rewrite <- eq_None_not_Some in Ee.
  destruct HQ as [H1 H2 H3 H4 H5 H6 H7 H8], HS as [G1 G2 G3 G6 [G4 G5]].
  destruct (Read k (rd s)) as [[res r]|] eqn:ER; [|done]. simpl in H.
  apply Read_spec in ER as (R1 & R2 & R3); [|lia|done..]. unfold returning in *.
  destruct res as [p|e]; injection H as <-; split; split; unfold returning, in_flight in *; fields; try done;
    rewrite ?sizeZ_fold; destruct R3 as (R3 & R4 & R5 & R6); try lia; [apply sizeZ_nonneg|by left|subst e; by right].
Qed.

Lemma update_step s :
  quota_inv s → shape_inv s → upd s ≠ 0 → quota_inv (updateWindow (upd s) s) ∧ shape_inv (updateWindow (upd s) s).
Proof.
  intros HQ HS Hu. pose proof (quota_bounds s HQ (si_writer _ HS)) as HB.
  destruct HQ as [H1 H2 H3 H4 H5 H6 H7 H8], HS as [G1 G2 G3 G6 [G4 G5]].
  unfold updateWindow. destruct (onRead (upd s) (fc s) (conn s)) as [[swu cwu] [f g]] eqn:E.
  apply onRead_spec in E as [(F1 & F2 & F3 & F4 & F5) (K1 & K2 & K3 & K4 & K5)]; [|apply H6|apply H6|lia|lia].
  apply Forall_app in H8 as [H8 H9].
  destruct (put_due true swu (controlBuf s) F4 G5 H8) as (C1 & C2 & C3). cbv zeta in *.
  set (c := if 0 <? swu then _ else _) in *.
  destruct (put_due false cwu c K4 C1 C2) as (D1 & D2 & D3). cbv zeta in *.
  set (c' := if 0 <? cwu then _ else _) in *.
  pose proof (D3 true) as Dt. pose proof (D3 false) as Df. rewrite C3 in Dt, Df. cbn [Bool.eqb] in Dt, Df.
  unfold returning in *.
  split; split; unfold returning, in_flight in *; fields; try done; try lia. by apply Forall_app.
Qed.

Lemma control_step s t :
  quota_inv s → shape_inv s → xfer_step RControl s = Some t → quota_inv t ∧ shape_inv t.
Proof.
  intros [H1 H2 H3 H4 H5 H6 H7 H8] [G1 G2 G3 G6 [G4 G5]] H. cbn [xfer_step] in H.
  destruct (get (controlBuf s)) as [[u c]|] eqn:E; [|done]. simpl in H. injection H as <-.
  apply get_queued in E. unfold returning in *. rewrite E, sumZ_cons in *.
  split; split; unfold returning, in_flight in *; fields; rewrite ?load_queued, ?sumZ_app, ?sumZ_one; try done; try lia.
  - apply Forall_app in H8 as [H8 H9]. apply Forall_cons in H8 as [H8 H10]. by rewrite !Forall_app, Forall_singleton.
  - split; [done|apply load_ready].
Qed.

Lemma wupdate_step u us s :
  quota_inv s → shape_inv s → updates s = u :: us →
  let s' := set_r (wire s) (rst s) (fc s) (conn s) (rd s) (upd s) (controlBuf s) us (reads s) s in
  quota_inv (handleWindowUpdate u s') ∧ shape_inv (handleWindowUpdate u s').
Proof.
  intros HQ HS Hu s'. pose proof (quota_bounds s HQ (si_writer _ HS)) as HB. pose proof (qi_pools _ HQ) as [P1 P2].
  pose proof HS as [G1 G2 G3 G6 [G4 G5]]. pose proof HQ as [H1 H2 H3 H4 H5 H6 H7 H8].
  pose proof H8 as [Hc Hu8]%Forall_app. rewrite Hu in Hu8. apply Forall_cons in Hu8 as [Hi Hus].
  pose proof (updates_nonneg true us Hus) as N1. pose proof (updates_nonneg false us Hus) as N2.
  pose proof (updates_nonneg true _ Hc) as N3. pose proof (updates_nonneg false _ Hc) as N4.
  pose proof H6 as [(? & ? & _) (? & ? & _)].
  unfold returning, initialWindowSize, initialConnWindowSize, defaultWindowSize in *.
  rewrite Hu, !sumZ_cons in *. unfold handleWindowUpdate. subst s'.
  assert (update_size true u = (if of_stream u then increment u else 0) ∧
          update_size false u = (if of_stream u then 0 else increment u)) as [U1 U2]
    by (unfold update_size; by destruct (of_stream u)).
  destruct (of_stream u); cbn [Bool.eqb] in *.
  - destruct (add_spec (increment u) (sendQuotaPool s)) as [A1 A2]; [done|lia..|].
    split; split; unfold returning, in_flight, initialWindowSize, initialConnWindowSize, defaultWindowSize in *;
      fields; rewrite ?A1; try done; try lia; [by apply Forall_app|].
    unfold writer_ok in *. fields. destruct (pc s); try done. split; [apply G2|apply add_offered].
  - destruct (add_spec (increment u) (connQuotaPool s)) as [A1 A2]; [done|lia..|].
    split; split; unfold returning, in_flight, initialWindowSize, initialConnWindowSize, defaultWindowSize in *;
      fields; rewrite ?A1; try done; try lia; [by apply Forall_app|].
    unfold writer_ok in *. fields. destruct (pc s); try done. split_and!; [apply G2|apply G2|apply add_offered].
Qed.

Lemma xfer_inv l s t : quota_inv s → shape_inv s → xfer_rel s l t → quota_inv t ∧ shape_inv t.
Proof.
  intros HQ HS H. unfold xfer_rel in H. destruct l; cbn [xfer_step] in H; try (by eapply writer_step).
  - destruct (wire s) as [|f w] eqn:E; [done|]. injection H as <-. by apply (frame_step f w).
  - by eapply (read_step k).
  - destruct (Z.eqb_spec (upd s) 0); [done|]. injection H as <-. by apply update_step.
  - by apply (control_step s).
  - destruct (updates s) as [|u us] eqn:E; [done|]. injection H as <-. by apply wupdate_step.
Qed.

Lemma xfer_start_inv cs : quota_inv (xfer_start cs) ∧ shape_inv (xfer_start cs).
Proof.
  split.
  - by split; try done; vm_compute; repeat constructor.
  - split; try done; by left.
Qed.

Lemma xfer_reachable_inv cs ls s : run xfer_rel (xfer_start cs) ls s → quota_inv s ∧ shape_inv s.
Proof.
  intros Hr. eapply (run_invariant xfer_rel (fun s => quota_inv s ∧ shape_inv s)); [|exact Hr|apply xfer_start_inv].
  intros u l v [? ?] ?. by eapply xfer_inv.
Qed.

(** ** Nothing is lost, reordered or duplicated *)

Lemma some_bytes_split k d e : map Some (take k d) ++ some_bytes (drop k d) e = some_bytes d e.
Proof. unfold some_bytes. by rewrite app_assoc, map_some_split. Qed.

Lemma reader_content_write m r : reader_content (write m r) = reader_content r ++ item_content m.
Proof.
  unfold reader_content, write. cbn [recv_buf r_last]. rewrite put_queued, map_app, concat_app. simpl.
  by rewrite app_nil_r, app_assoc.
Qed.

(** Only what is in a writer, on the wire and in a reader counts. *)
Lemma carried_eq s t :
  read_content t ++ reader_content (rd t) ++ concat (map frame_content (wire t)) ++ unsent t =
  read_content s ++ reader_content (rd s) ++ concat (map frame_content (wire s)) ++ unsent s →
  carried t = carried s.
Proof. unfold carried, underway. by rewrite !app_assoc. Qed.

Lemma writer_carried l s t : step_writer l s = Some t → carried t = carried s.
Proof.
  intros H. apply carried_eq. unfold step_writer in H. destruct l; try done; destruct (pc s) eqn:Epc; try done.
  - destruct (calls s) as [|[d lst] cs] eqn:Ec; [done|]. injection H as <-.
    unfold unsent. fields. by rewrite Epc, Ec.
  - destruct (Nat.ltb_spec 0 (length (wbuf s))); injection H as <-; unfold unsent; fields; by rewrite Epc.
  - destruct (acquire (sendQuotaPool s)) as [[sq sp]|] eqn:E; [|done]. injection H as <-.
    unfold unsent. fields. by rewrite Epc.
  - injection H as <-. unfold unsent. fields. by rewrite Epc.
  - destruct (acquire (connQuotaPool s)) as [[tq tp]|] eqn:E; [|done]. injection H as <-.
    unfold unsent. fields. rewrite Epc. cbn [writer_content]. by rewrite some_bytes_split.
  - injection H as <-. unfold unsent. fields. rewrite Epc. cbn [writer_content].
    rewrite map_app, concat_app. cbn [map concat]. rewrite app_nil_r. unfold frame_content at 2. fields.
    destruct (wbuf s) eqn:Eb; cbn [length Nat.eqb]; rewrite ?andb_true_r, ?andb_false_r; cbn [writer_content];
      unfold read_content, some_bytes; fields; cbn [map app]; rewrite ?app_nil_r, <- ?app_assoc; cbn [app];
      rewrite <- ?app_assoc; reflexivity.
Qed.

Lemma handleEnd_carried f s :
  carried (handleEnd f s) =
  read_content s ++ reader_content (rd s) ++ (if endStream f then [None] else []) ++
    concat (map frame_content (wire s)) ++ unsent s.
Proof.
  unfold handleEnd. destruct (endStream f); unfold carried, underway, read_content; fields;
    rewrite ?reader_content_write; cbn [item_content app]; by rewrite <- ?app_assoc.
Qed.

Lemma frame_carried f w s :
  quota_inv s → shape_inv s → wire s = f :: w →
  carried (handleData f (set_r w (rst s) (fc s) (conn s) (rd s) (upd s) (controlBuf s) (updates s) (reads s) s)) =
  carried s.
Proof.
  intros HQ HS Hw. unfold handleData. fields. rewrite sizeZ_fold.
  assert (∀ X Y : xfer, (match rst s with Reset | Closed => X | _ => Y end) = Y) as ->
    by (intros; by destruct (si_open _ HS) as [-> | ->]).
  assert (carried s = read_content s ++ reader_content (rd s) ++ map Some (Data f) ++
            (if endStream f then [None] else []) ++ concat (map frame_content w) ++ unsent s) as ->.
  { unfold carried, underway. rewrite Hw. cbn [map concat]. unfold frame_content at 1, some_bytes. by rewrite <- !app_assoc. }
  destruct (Z.ltb_spec 0 (sizeZ (Data f))) as [Hp|Hp].
  - assert (Data f ≠ []) as Hd by (intros E; rewrite E in Hp; change (sizeZ []) with 0 in Hp; lia).
    destruct (onData_ok f w s HQ HS Hw Hd) as (-> & _). rewrite handleEnd_carried. unfold read_content. fields.
    rewrite reader_content_write. cbn [item_content]. unfold some_bytes at 2. by rewrite app_nil_r, <- !app_assoc.
  - assert (Data f = []) as -> by (destruct (Data f) as [|c d]; [done|pose proof (sizeZ_pos (c :: d)); naive_solver lia]).
    by rewrite handleEnd_carried.
Qed.

Lemma read_carried k s t :
  quota_inv s → shape_inv s → xfer_step (ARead k) s = Some t → carried t = carried s.
Proof.
  intros HQ HS H. unfold xfer_step in H.
  destruct ((k =? 0)%nat || negb (upd s =? 0) || bool_decide (is_Some (r_err (rd s)))) eqn:Eg; [done|].
  apply orb_false_elim in Eg as [[Ek%Nat.eqb_neq Eu]%orb_false_elim Ee%bool_decide_eq_false].
  rewrite <- eq_None_not_Some in Ee.
  destruct (Read k (rd s)) as [[res r]|] eqn:ER; [|done]. simpl in H.
  apply Read_spec in ER as (R1 & R2 & R3); [|lia|done|apply HS|apply HS]. apply carried_eq.
  assert (delivered t = delivered s ++ read_bytes res) as Hd by (injection H as <-; unfold delivered; fields; by rewrite map_app, concat_app; cbn [map concat]; rewrite app_nil_r).
  destruct res as [p|e]; injection H as <-; unfold read_content; rewrite Hd; fields; rewrite Ee; cbn [read_bytes].
  - destruct R3 as (R3 & R4 & R5 & R6). rewrite R4, R6. change (bool_decide _) with false. unfold some_bytes.
    by rewrite map_app, !app_nil_r, <- !app_assoc.
  - destruct R3 as (_ & R3 & R4 & R5 & R6). rewrite R3, R5. change (bool_decide (is_Some None)) with false.
    change (bool_decide (is_Some (Some e))) with true. unfold some_bytes. by rewrite app_nil_r, <- !app_assoc.
Qed.

Lemma carried_step l s t : quota_inv s → shape_inv s → xfer_rel s l t → carried t = carried s.
Proof.
  intros HQ HS H. unfold xfer_rel in H. destruct l; cbn [xfer_step] in H; try (by eapply writer_carried).
  - destruct (wire s) as [|f w] eqn:E; [done|]. injection H as <-. by apply (frame_carried f w).
  - by eapply (read_carried k).
  - destruct (Z.eqb_spec (upd s) 0); [done|]. injection H as <-. unfold updateWindow.
    by destruct (onRead _ _ _) as [[? ?] [? ?]].
  - destruct (get (controlBuf s)) as [[u c]|] eqn:E; [|done]. simpl in H. by injection H as <-.
  - destruct (updates s) as [|u us] eqn:E; [done|]. injection H as <-. unfold handleWindowUpdate.
    by destruct (of_stream u).
Qed.

Lemma reachable_carried cs ls s :
  run xfer_rel (xfer_start cs) ls s → carried s = concat (map call_content cs).
Proof.
  intros Hr.
  enough (carried s = carried (xfer_start cs) ∧ quota_inv s ∧ shape_inv s) as [-> _] by done.
  eapply (run_invariant xfer_rel (fun s => carried s = carried (xfer_start cs) ∧ quota_inv s ∧ shape_inv s));
    [|exact Hr|by split; [|apply xfer_start_inv]].
  intros u l v (E & ? & ?) Hs. rewrite <- E. split; [by eapply carried_step|by eapply xfer_inv].
Qed.

(** ** Every interleaving ends *)

Definition frame_weight (f : dataFrame) : Z := 2 + 6 * sizeZ (Data f).
Definition item_weight (m : recvMsg) : Z := match m with RData d => 6 * sizeZ d | RErr _ => 1 end.
Definition call_weight (c : bytes * bool) : Z := 8 + 14 * sizeZ (fst c).
Definition writer_weight (q : writer_pc) (r : bytes) : Z :=
  14 * sizeZ r + match q with
                 | WIdle => 0
                 | WTop => if (length r =? 0)%nat then 7 else 3
                 | WStream => 2
                 | WGot _ => 1
                 | WConn _ => 0
                 | WHold p => 6 + 6 * sizeZ p
                 end.

Definition xfer_measure (s : xfer) : Z :=
  sumZ call_weight (calls s) + writer_weight (pc s) (wbuf s) + sumZ frame_weight (wire s)
  + 6 * sizeZ (r_last (rd s)) + sumZ item_weight (queued (recv_buf (rd s)))
  + (if upd s =? 0 then 0 else 5) + 2 * Z.of_nat (length (queued (controlBuf s))) + Z.of_nat (length (updates s)).

Lemma weights_nonneg :
  (∀ f, 0 ≤ frame_weight f) ∧ (∀ m, 0 ≤ item_weight m) ∧ (∀ c, 0 ≤ call_weight c) ∧ (∀ q r, 0 ≤ writer_weight q r).
Proof.
  unfold frame_weight, item_weight, call_weight, writer_weight. split_and!.
  - intros f. pose proof (sizeZ_nonneg (Data f)). lia.
  - intros [d|]; [pose proof (sizeZ_nonneg d)|]; lia.
  - intros c. pose proof (sizeZ_nonneg (fst c)). lia.
  - intros q r. pose proof (sizeZ_nonneg r). destruct q; try lia; [case_match; lia|].
    pose proof (sizeZ_nonneg p). lia.
Qed.

Lemma xfer_measure_nonneg s : 0 ≤ xfer_measure s.
Proof.
  destruct weights_nonneg as (Hf & Hm & Hc & Hw). unfold xfer_measure.
  pose proof (sumZ_nonneg _ (wire s) Hf). pose proof (sumZ_nonneg _ (queued (recv_buf (rd s))) Hm).
  pose proof (sumZ_nonneg _ (calls s) Hc). pose proof (Hw (pc s) (wbuf s)). pose proof (sizeZ_nonneg (r_last (rd s))).
  case_match; lia.
Qed.

Ltac measure_eq := unfold xfer_measure; fields; rewrite ?sumZ_app, ?sumZ_cons, ?sumZ_nil, ?length_app, ?load_queued;
  cbn [length]; try lia.

Lemma writer_measure l s t :
  quota_inv s → shape_inv s → step_writer l s = Some t → xfer_measure t < xfer_measure s.
Proof.
  intros HQ HS H. pose proof (si_writer _ HS) as HW. unfold writer_ok in HW.
  unfold step_writer in H. destruct l; try done; destruct (pc s) eqn:Epc; try done.
  - destruct (calls s) as [|[d lst] cs] eqn:Ec; [done|]. injection H as <-.
    measure_eq. rewrite Epc, Ec, sumZ_cons. change (call_weight (d, lst)) with (8 + 14 * sizeZ d).
    pose proof (sizeZ_nonneg (wbuf s)). unfold writer_weight. case_match; lia.
  - destruct (Nat.ltb_spec 0 (length (wbuf s))); injection H as <-; measure_eq; rewrite Epc; unfold writer_weight.
    + rewrite (proj2 (Nat.eqb_neq _ 0)) by lia. lia.
    + rewrite (proj2 (Nat.eqb_eq _ 0)) by lia. change (sizeZ []) with 0. lia.
  - destruct (acquire (sendQuotaPool s)) as [[sq sp]|] eqn:E; [|done]. injection H as <-.
    measure_eq. rewrite Epc. unfold writer_weight. lia.
  - injection H as <-. measure_eq. rewrite Epc. unfold writer_weight. lia.
  - destruct (acquire (connQuotaPool s)) as [[tq tp]|] eqn:E; [|done]. injection H as <-.
    apply acquire_spec in E as (_ & Ht & _); [|apply HQ].
    measure_eq. rewrite Epc. unfold writer_weight. destruct HW as (Hr & Hsq & _).
    destruct (chunk_spec sq tq (wbuf s) Hsq Ht Hr) as (Hp & _). pose proof (sizeZ_pos _ Hp).
    pose proof (sizeZ_split (Z.to_nat (chunk_size sq tq)) (wbuf s)). lia.
  - injection H as <-. measure_eq. rewrite Epc. unfold writer_weight, frame_weight. fields.
    destruct (Nat.eqb_spec (length (wbuf s)) 0) as [E|E]; rewrite ?(proj2 (Nat.eqb_neq _ 0)) by done; lia.
Qed.

Lemma handleEnd_measure f s : xfer_measure (handleEnd f s) ≤ xfer_measure s + 1.
Proof.
  unfold handleEnd. destruct (endStream f); [|lia]. measure_eq. unfold write. fields.
  rewrite put_queued, sumZ_app, sumZ_one. cbn [item_weight]. lia.
Qed.

Lemma frame_measure f w s :
  quota_inv s → shape_inv s → wire s = f :: w →
  xfer_measure (handleData f (set_r w (rst s) (fc s) (conn s) (rd s) (upd s) (controlBuf s) (updates s) (reads s) s)) <
  xfer_measure s.
Proof.
  intros HQ HS Hw. unfold handleData. fields. rewrite sizeZ_fold.
  assert (∀ X Y : xfer, (match rst s with Reset | Closed => X | _ => Y end) = Y) as ->
    by (intros; by destruct (si_open _ HS) as [-> | ->]).
  destruct (Z.ltb_spec 0 (sizeZ (Data f))) as [Hp|Hp].
  - assert (Data f ≠ []) as Hd by (intros E; rewrite E in Hp; change (sizeZ []) with 0 in Hp; lia).
    destruct (onData_ok f w s HQ HS Hw Hd) as (-> & _).
    eapply Z.le_lt_trans; [apply handleEnd_measure|]. measure_eq. rewrite Hw, sumZ_cons. unfold write. fields.
    rewrite put_queued, sumZ_app, sumZ_one. change (frame_weight f) with (2 + 6 * sizeZ (Data f)).
    cbn [item_weight]. lia.
  - pose proof (sizeZ_nonneg (Data f)). eapply Z.le_lt_trans; [apply handleEnd_measure|]. measure_eq.
    rewrite Hw, sumZ_cons. change (frame_weight f) with (2 + 6 * sizeZ (Data f)). lia.
Qed.

Lemma Read_weight k r res r' :
  (0 < k)%nat → r_err r = None → Forall item_ok (queued (recv_buf r)) → Read k r = Some (res, r') →
  6 * sizeZ (r_last r') + sumZ item_weight (queued (recv_buf r')) + match res with inl p => 6 * sizeZ p | inr _ => 1 end ≤
  6 * sizeZ (r_last r) + sumZ item_weight (queued (recv_buf r)).
Proof.
  intros Hk He Hi H. unfold Read, Reader_Read in H. rewrite He in H. rewrite (proj2 (Nat.eqb_neq k 0)) in H by lia.
  destruct (r_last r) as [|c l] eqn:El.
  - destruct (get (recv_buf r)) as [[i b]|] eqn:Eg; [|done]. simpl in H. apply get_queued in Eg.
    rewrite Eg, sumZ_cons in *. apply Forall_cons in Hi as [Hi _].
    destruct i as [[|c d]|e]; [done|..]; injection H as <- <-; fields; rewrite ?load_queued; cbn [item_weight];
      change (sizeZ []) with 0; try lia.
    pose proof (sizeZ_split k (c :: d)). lia.
  - injection H as <- <-. fields. pose proof (sizeZ_split k (c :: l)). lia.
Qed.

Lemma read_measure k s t :
  quota_inv s → shape_inv s → xfer_step (ARead k) s = Some t → xfer_measure t < xfer_measure s.
Proof.
  intros HQ HS H. unfold xfer_step in H.
  destruct ((k =? 0)%nat || negb (upd s =? 0) || bool_decide (is_Some (r_err (rd s)))) eqn:Eg; [done|].
  apply orb_false_elim in Eg as [[Ek%Nat.eqb_neq Eu]%orb_false_elim Ee%bool_decide_eq_false].
  apply negb_false_iff in Eu. rewrite <- eq_None_not_Some in Ee.
  destruct (Read k (rd s)) as [[res r]|] eqn:ER; [|done]. simpl in H.
  assert (0 < k)%nat as Hk by lia.
  pose proof (Read_spec _ _ _ _ Hk Ee (proj1 (si_ready _ HS)) (si_items _ HS) ER) as (_ & _ & R3).
  pose proof (Read_weight _ _ _ _ Hk Ee (si_items _ HS) ER) as R4.
  destruct res as [p|e]; injection H as <-; measure_eq; rewrite Eu.
  - destruct R3 as [Hp _]. pose proof (sizeZ_pos _ Hp). rewrite ?sizeZ_fold, (proj2 (Z.eqb_neq (sizeZ p) 0)) by lia. lia.
  - change (0 =? 0) with true. lia.
Qed.

Lemma update_measure s : upd s ≠ 0 → xfer_measure (updateWindow (upd s) s) < xfer_measure s.
Proof.
  intros Hu. unfold updateWindow. destruct (onRead _ _ _) as [[swu cwu] [f g]].
  assert (∀ (b : bool) (n : Z) (c : recvBuffer windowUpdate), (length (queued (if (0 <? n)%Z then put (mkUpdate b n) c else c)) ≤ S (length (queued c)))%nat) as Hput.
  { intros b n c. destruct (0 <? n); [|lia]. rewrite put_queued, length_app. simpl. lia. }
  measure_eq. rewrite (proj2 (Z.eqb_neq (upd s) 0)) by done. rewrite Z.eqb_refl.
  pose proof (Hput true swu (controlBuf s)). set (c := if 0 <? swu then _ else _) in *.
  pose proof (Hput false cwu c). lia.
Qed.

Lemma xfer_decreases l s t :
  quota_inv s → shape_inv s → xfer_rel s l t → xfer_measure t < xfer_measure s.
Proof.
  intros HQ HS H. unfold xfer_rel in H. destruct l; cbn [xfer_step] in H; try (by eapply writer_measure).
  - destruct (wire s) as [|f w] eqn:E; [done|]. injection H as <-. by apply (frame_measure f w).
  - by eapply (read_measure k).
  - destruct (Z.eqb_spec (upd s) 0); [done|]. injection H as <-. by apply update_measure.
  - destruct (get (controlBuf s)) as [[u c]|] eqn:E; [|done]. simpl in H. injection H as <-.
    apply get_queued in E. measure_eq. rewrite E. cbn [length]. lia.
  - destruct (updates s) as [|u us] eqn:E; [done|]. injection H as <-. unfold handleWindowUpdate.
    destruct (of_stream u); measure_eq; rewrite E; cbn [length]; lia.
Qed.

(** ** No interleaving is stuck *)

(** Every call of [Write] has returned, every update has arrived, and the reader has read
    all or has seen the end of the stream. *)
Definition drained (s : xfer) : Prop :=
  calls s = [] ∧ pc s = WIdle ∧ wire s = [] ∧ upd s = 0 ∧ queued (controlBuf s) = [] ∧ updates s = [] ∧
  (r_err (rd s) = None → queued (recv_buf (rd s)) = [] ∧ r_last (rd s) = []).

Lemma get_some {A} (b : recvBuffer A) : ready b → queued b ≠ [] → is_Some (get b).
Proof. intros Hr Hq. destruct (get b) eqn:E; [done|]. by apply get_none in E. Qed.

(** [l] is no read, or a read into [k] bytes. *)
Definition reading (k : nat) (l : xlabel) : Prop := ∀ k', l = ARead k' → k' = k.

Ltac enabled l := exists l; unfold xfer_rel; cbn [xfer_step]; unfold step_writer.

Lemma read_enabled k s :
  (0 < k)%nat → upd s = 0 → r_err (rd s) = None → ready (recv_buf (rd s)) →
  (queued (recv_buf (rd s)) = [] ∧ r_last (rd s) = []) ∨ ∃ t, xfer_rel s (ARead k) t.
Proof.
  intros Hk Hu He Hr. unfold xfer_rel, xfer_step, Read. rewrite Hu, He, (proj2 (Nat.eqb_neq k 0)) by lia.
  change (bool_decide (is_Some None)) with false. cbn [Z.eqb negb orb].
  destruct (r_last (rd s)) as [|c l]; [|right; by eexists].
  destruct (queued (recv_buf (rd s))) as [|i q] eqn:Eq; [by left|right].
  destruct (get_some _ Hr) as [[j b] E]; [by rewrite Eq|]. rewrite E. simpl.
  destruct j as [d|e]; [destruct (Reader_Read k d)|]; by eexists.
Qed.

(** Reading has ended with the stream: nothing is left. *)
Lemma read_out s D c :
  carried s = some_bytes D c → r_err (rd s) ≠ None → delivered s = D ∧ c = true ∧ underway s ++ unsent s = [].
Proof.
  unfold carried, read_content, some_bytes. intros H He.
  rewrite bool_decide_eq_true_2 in H by (by apply not_eq_None_Some).
  rewrite <- app_assoc in H. remember (underway s ++ unsent s) as R.
  revert D H. induction (delivered s) as [|x d IH]; intros D H.
  - destruct D; [destruct c; simplify_eq/=; by split|done].
  - destruct D as [|y D]; [destruct c; simplify_eq/=|]. simplify_eq/=. destruct (IH D) as (-> & -> & ->); [done|by split].
Qed.

(** Quota that is nowhere else waits for an update, and then the update is due. *)
Lemma writer_not_stuck k s :
  quota_inv s → shape_inv s → wire s = [] → queued (controlBuf s) = [] → updates s = [] → buffered (rd s) = 0 →
  upd s = 0 → (calls s = [] ∧ pc s = WIdle) ∨ ∃ l, reading k l ∧ ∃ t, xfer_rel s l t.
Proof.
  intros HQ HS Hw Hc Hu Hb Hupd.
  destruct HQ as [H1 H2 [L1 L2] [H4 H4'] [P1 P2] [F1 F2] H7 H8]. pose proof (si_writer _ HS) as HW.
  unfold returning, in_flight in *. rewrite Hw, Hc, Hu in *.
  change (sumZ (fun f => sizeZ (Data f)) []) with 0 in *. rewrite !sumZ_nil in *.
  destruct F1 as (_ & F1 & _), F2 as (_ & F2 & _). rewrite L1 in F1. rewrite L2 in F2.
  change (initialWindowSize / 4) with 16383 in F1. change (initialConnWindowSize / 4) with 262140 in F2.
  unfold initialWindowSize, initialConnWindowSize, defaultWindowSize in *.
  unfold writer_ok in HW. destruct (pc s) eqn:Epc; cbn [held_stream held_conn] in *.
  - destruct (calls s) as [|[d lst] cs] eqn:Ec; [by left|]. right. enabled LCall. rewrite Epc, Ec. by split; [|eexists].
  - right. enabled LTop. rewrite Epc. split; [done|]. case_match; by eexists.
  - right. enabled LStream. rewrite Epc. split; [done|].
    destruct (acquire (sendQuotaPool s)) as [[sq sp]|] eqn:E; [by eexists|].
    apply acquire_blocks in E; [lia|apply HW|done].
  - right. enabled LAdd. rewrite Epc. by split; [|eexists].
  - right. enabled LConn. rewrite Epc. split; [done|].
    destruct (acquire (connQuotaPool s)) as [[tq tp]|] eqn:E; [by eexists|].
    apply acquire_blocks in E; [lia|apply HW|done].
  - right. enabled LData. rewrite Epc. by split; [|eexists].
Qed.

(** Whatever the size of the next read. *)
Lemma xfer_progress k s D c :
  (0 < k)%nat → quota_inv s → shape_inv s → carried s = some_bytes D c →
  drained s ∨ ∃ l, reading k l ∧ ∃ t, xfer_rel s l t.
Proof.
  intros Hk HQ HS HC.
  destruct (wire s) as [|f w] eqn:Ew; [|right; enabled RFrame; rewrite Ew; by split; [|eexists]].
  destruct (updates s) as [|u us] eqn:Eu; [|right; enabled WUpdate; rewrite Eu; by split; [|eexists]].
  destruct (queued (controlBuf s)) as [|i q] eqn:Ec.
  2: { destruct (get_some _ (proj2 (si_ready _ HS))) as [[j b] E]; [by rewrite Ec|].
       right. enabled RControl. rewrite E. by split; [|eexists]. }
  destruct (Z.eq_dec (upd s) 0) as [Hupd|Hupd].
  2: { right. enabled AUpdate. rewrite (proj2 (Z.eqb_neq _ _)) by done. by split; [|eexists]. }
  destruct (r_err (rd s)) as [e|] eqn:Ee.
  - destruct (read_out _ _ _ HC) as (_ & _ & HU); [by rewrite Ee|]. apply app_nil in HU as [HU _].
    apply app_nil in HU as [HU _]. apply app_nil in HU as [Hl Hq].
    assert (buffered (rd s) = 0) as Hb.
    { unfold buffered. apply map_eq_nil in Hl. rewrite Hl. change (sizeZ []) with 0.
      pose proof (si_items _ HS) as HI. destruct (queued (recv_buf (rd s))) as [|[[|x d]|e'] q]; [done|..].
      - by apply Forall_cons in HI as [HI _].
      - done.
      - done. }
    destruct (writer_not_stuck k s) as [[??]|?]; try done; [|by right]. left. by split_and!; try done; rewrite Ee.
  - destruct (read_enabled k s Hk Hupd Ee (proj1 (si_ready _ HS))) as [[Hq Hl]|[t Ht]].
    + destruct (writer_not_stuck k s) as [[??]|?]; try done; [unfold buffered; by rewrite Hq, Hl| |by right].
      by left.
    + right. exists (ARead k). split; [by intros k' [= ->]|by exists t].
Qed.

(** ** Messages on a stream *)

(** The calls of [Write] for [ms], one after the other, with [CloseSend] at the end. *)
Definition stream_calls (ms : list bytes) (close : bool) : list (bytes * bool) :=
  map (fun m => (m, false)) ms ++ (if close then [([], true)] else []).

Lemma stream_content ms close : concat (map call_content (stream_calls ms close)) = some_bytes (concat ms) close.
Proof.
  unfold stream_calls, some_bytes. induction ms as [|m ms IH]; simpl; [by destruct close|].
  rewrite IH, map_app. unfold call_content, some_bytes. simpl. by rewrite app_nil_r, app_assoc.
Qed.

(** C24: whatever the interleaving of the client's writer, both transports and the reading
    handler, and whatever the sizes of its reads, the handler has read a prefix of what the
    client has written, in order and without gaps or repetitions; it sees the end of the
    stream only after all of it; and neither transport ever breaks a limit of the
    flow control: the stream is not reset and the connection not closed. *)
Theorem stream_in_order (ms : list bytes) (close : bool) (ls : list xlabel) (s : xfer) :
  run xfer_rel (xfer_start (stream_calls ms close)) ls s →
  delivered s `prefix_of` concat ms ∧
  (r_err (rd s) = None ∨ r_err (rd s) = Some EOF ∧ close = true ∧ delivered s = concat ms) ∧
  (rst s = Active ∨ rst s = ReadDone) ∧
  in_flight s + buffered (rd s) ≤ initialWindowSize.
Proof.
  intros Hr. destruct (xfer_reachable_inv _ _ _ Hr) as [HQ HS]. pose proof (reachable_carried _ _ _ Hr) as HC.
  rewrite stream_content in HC. split_and!.
  - unfold carried, read_content, some_bytes in HC. apply (f_equal (omap id)) in HC.
    rewrite !omap_app in HC. assert (∀ l : bytes, omap id (map Some l) = l) as Hs by (induction l; csimpl; congruence).
    assert (∀ b : bool, omap id (if b then [None] else [] : content) = []) as Hn by (intros []; done).
    rewrite !Hs, !Hn, !app_nil_r in HC. rewrite <- HC. by eexists.
  - destruct (si_err _ HS) as [He|He]; [by left|right].
    destruct (read_out _ _ _ HC) as (-> & -> & _); [by rewrite He|]. done.
  - apply HS.
  - pose proof (quota_bounds s HQ (si_writer _ HS)). destruct HQ as [H1 H2 [L1 L2] [H4 H4'] [P1 P2] [F1 F2] H7 H8].
    destruct F1 as (? & ? & ?). lia.
Qed.

(** Nothing is left in a drained state. *)
Lemma drained_delivered s D c :
  shape_inv s → carried s = some_bytes D c → drained s → delivered s = D ∧ r_err (rd s) = (if c then Some EOF else None).
Proof.
  intros HS HC (H1 & H2 & H3 & _ & _ & _ & H7). destruct (r_err (rd s)) as [e|] eqn:Ee.
  - destruct (read_out _ _ _ HC) as (-> & -> & _); [by rewrite Ee|]. split; [done|].
    destruct (si_err _ HS) as [He|He]; congruence.
  - destruct (H7 eq_refl) as [Hq Hl]. unfold carried, underway, unsent, reader_content, read_content in HC.
    rewrite H1, H2, H3, Hq, Hl, Ee in HC. change (bool_decide (is_Some None)) with false in HC. cbn [map concat app] in HC.
    unfold some_bytes in HC. rewrite !app_nil_r in HC. destruct c.
    + assert (None ∈ map Some (delivered s)) as Hin by (rewrite HC; set_solver).
      apply list_elem_of_fmap in Hin as (x & ? & _). done.
    + rewrite app_nil_r in HC. split; [|done]. apply (inj (fmap Some)) in HC. done.
Qed.

(** C25: no interleaving of writer, transports and reader runs forever or is stuck before
    everything has been read: the steps of a run are bounded, a state in which no step is
    left has delivered all that was written and the end of the stream, and such a state
    can always be reached.  So quota never gets lost between the pools, the windows and
    the updates. *)
Theorem stream_delivers (ms : list bytes) (close : bool) (ls : list xlabel) (s : xfer) :
  run xfer_rel (xfer_start (stream_calls ms close)) ls s →
  Z.of_nat (length ls) ≤ xfer_measure (xfer_start (stream_calls ms close)) ∧
  ((∀ l t, ¬ xfer_rel s l t) →
     delivered s = concat ms ∧ r_err (rd s) = (if close then Some EOF else None)) ∧
  (∃ ls' t, run xfer_rel s ls' t ∧ delivered t = concat ms ∧ r_err (rd t) = (if close then Some EOF else None)).
Proof.
  intros Hr. destruct (xfer_reachable_inv _ _ _ Hr) as [HQ HS]. pose proof (reachable_carried _ _ _ Hr) as HC.
  rewrite stream_content in HC.
  set (I := fun s => (quota_inv s ∧ shape_inv s) ∧ carried s = some_bytes (concat ms) close).
  assert (∀ s l t, I s → xfer_rel s l t → I t ∧ xfer_measure t < xfer_measure s) as Hstep.
  { intros u l v [[? ?] HCu] Hs. split; [|by eapply xfer_decreases].
    split; [by eapply xfer_inv|]. rewrite <- HCu. by eapply carried_step. }
  split_and!.
  - eapply (run_boundedZ xfer_rel xfer_measure I (fun _ => True)); [| |exact Hr|by apply Forall_true|].
    + intros. apply xfer_measure_nonneg.
    + intros. by apply Hstep with l.
    + split; [apply xfer_start_inv|]. rewrite <- stream_content. apply (reachable_carried _ []). constructor.
  - intros Hstuck. apply drained_delivered; [done..|].
    destruct (xfer_progress 1 s _ _ ltac:(lia) HQ HS HC) as [|(l & _ & t & Ht)]; [done|]. by apply Hstuck in Ht.
  - destruct (run_reaches xfer_rel xfer_measure I drained (fun _ => True)) with (s := s) as (ls' & t & Ht & _ & [[_ ?] ?] & ?).
    + intros. apply xfer_measure_nonneg.
    + intros u HIu. pose proof HIu as [[? ?] HCu]. destruct (xfer_progress 1 u _ _ ltac:(lia) ltac:(done) ltac:(done) HCu) as [|(l & _ & t & Ht)];
        [by left|right]. exists l, t. destruct (Hstep _ _ _ HIu Ht). done.
    + done.
    + exists ls', t. split; [done|]. by apply drained_delivered.
Qed.

(** A stream of nine bytes in two messages, read in pieces. *)
Definition nine : list bytes := [map ascii_of_nat [1; 2; 3; 4; 5]; map ascii_of_nat [6; 7; 8; 9]]%nat.
Definition nine_schedule : list xlabel :=
  [LCall; LTop; LStream; LAdd; LConn; WUpdate; LData; RFrame; ARead 3; AUpdate; LCall; LTop; LStream; LAdd; LConn; LData;
   RFrame; ARead 9; AUpdate; ARead 9; AUpdate; LCall; LTop; LData; RFrame; ARead 1].

Lemma stream_in_order_witness :
  ∃ s, xfer_exec (take 21 nine_schedule) (xfer_start (stream_calls nine true)) = Some s ∧
    length (delivered s) = 9%nat ∧ delivered s `prefix_of` concat nine.
Proof.
  eexists. split; [vm_compute; reflexivity|]. split; [vm_compute; reflexivity|].
  apply (stream_in_order nine true (take 21 nine_schedule)). apply xfer_exec_run. vm_compute. reflexivity.
Defined.

Lemma stream_delivers_witness :
  ∃ s, xfer_exec nine_schedule (xfer_start (stream_calls nine true)) = Some s ∧ r_err (rd s) = Some EOF ∧
    Z.of_nat (length nine_schedule) ≤ xfer_measure (xfer_start (stream_calls nine true)).
Proof.
  eexists. split; [vm_compute; reflexivity|]. split; [vm_compute; reflexivity|].
  eapply (stream_delivers nine true nine_schedule). apply xfer_exec_run. vm_compute. reflexivity.
Defined.

(** ** The sizes of frames *)

(** Every frame fits: no more than [http2MaxFrameLen], no increment beyond a window. *)
Definition frames_fit (s : xfer) : Prop :=
  Forall (fun f => sizeZ (Data f) ≤ http2MaxFrameLen) (wire s) ∧
  match pc s with WHold p => sizeZ p ≤ http2MaxFrameLen | _ => True end.

Lemma handleData_sender f s : wire (handleData f s) = wire s ∧ pc (handleData f s) = pc s.
Proof.
  assert (∀ u, wire (handleEnd f u) = wire u ∧ pc (handleEnd f u) = pc u) as HE
    by (intros u; unfold handleEnd; by destruct (endStream f)).
  unfold handleData, closeStream. destruct (rst s); try done; (destruct (0 <? _); [|by apply HE]);
    (destruct (onData _ _ _) as [[g h]|[e|e]]; [by rewrite !(proj1 (HE _)), !(proj2 (HE _))| |done]);
    by destruct (restoreConn _ _) as [q [g h]].
Qed.

Lemma frames_fit_step l s t : quota_inv s → shape_inv s → frames_fit s → xfer_rel s l t → frames_fit t.
Proof.
  intros HQ HS [Hw Hp] H. pose proof (si_writer _ HS) as HW. unfold writer_ok in HW.
  unfold frames_fit, xfer_rel in *. destruct l; cbn [xfer_step] in H; unfold step_writer in H.
  - destruct (pc s); try done. destruct (calls s) as [|[d l] cs]; [done|]. by injection H as <-.
  - destruct (pc s); try done. case_match; injection H as <-; [done|]. split; [done|]. fields. by vm_compute.
  - destruct (pc s); try done. destruct (acquire _) as [[sq sp]|]; [|done]. by injection H as <-.
  - destruct (pc s); try done. by injection H as <-.
  - destruct (pc s) as [| | | |sq|]; try done. destruct (acquire _) as [[tq tp]|] eqn:E; [|done]. injection H as <-.
    apply acquire_spec in E as (_ & Ht & _); [|apply HQ]. destruct HW as (Hr & Hsq & _).
    split; [done|]. by apply (chunk_spec sq tq (wbuf s)).
  - destruct (pc s); try done. injection H as <-. fields. split; [|by destruct (_ =? _)%nat].
    rewrite Forall_app. split; [done|]. by constructor.
  - destruct (wire s) as [|f w] eqn:Ew; [done|]. injection H as <-. apply Forall_cons in Hw as [_ Hw].
    by rewrite (proj1 (handleData_sender _ _)), (proj2 (handleData_sender _ _)).
  - destruct (_ || _); [done|]. destruct (Read k (rd s)) as [[res r]|]; [|done]. by injection H as <-.
  - destruct (upd s =? 0); [done|]. injection H as <-. unfold updateWindow. by destruct (onRead _ _ _) as [[? ?] [? ?]].
  - destruct (get _) as [[u c]|]; [|done]. by injection H as <-.
  - destruct (updates s) as [|u us]; [done|]. injection H as <-. unfold handleWindowUpdate. by destruct (of_stream u).
Qed.

Lemma reachable_fit cs ls s : run xfer_rel (xfer_start cs) ls s → frames_fit s.
Proof.
  intros Hr.
  eapply (run_invariant xfer_rel (fun s => frames_fit s ∧ quota_inv s ∧ shape_inv s)); [|exact Hr|].
  - intros u l v (? & ? & ?) Hs. split; [by eapply frames_fit_step|by eapply xfer_inv].
  - split; [by split|apply xfer_start_inv].
Qed.
