(* ===== verification/Ctl.v ===== *)
(** * The command line tools (cmd/schedulerctl, cmd/schedulerd)

    The request [schedulerctl] makes of its flags, what it does with the answers, and the
    configuration [schedulerd] ends up with.  The flags are taken as parsed; files and
    standard input are parameters. *)
From Stdlib Require Import ZArith Lia.
From stdpp Require Import base option list strings gmap.
From S2P Require Import Prelude GoNum FloatFacts GoFmt Messages Metrics Engine Job EngineFacts SchedDB Executors SchedServer.

(** [int32(f)] on amd64 ([CVTTSD2SL]). *)
Definition int32_of_float (f : float64) : Z :=
  let t := int_of_float f in if bool_decide (- 2 ^ 31 ≤ t < 2 ^ 31) then t else - 2 ^ 31.

Definition dquote : string := String (Ascii.ascii_of_nat 34) EmptyString.

(** ** schedulerctl *)

(** Its flags by their variables; durations in nanoseconds. *)
Record ctl_flags := mkFlags {
  addrFlag : string; tgtFlag : string;
  scriptNameFlag : string; scriptFileFlag : string; scriptConfigFlag : string;
  runTimeFlag : Z; maxExecPerSecFlag : Z;
  growthFactorFlag : float64; timeBetweenGrowthFlag : Z; startingRequestsPerSecondFlag : Z
}.

Section ctl.
(** [ioutil.ReadAll] of an opened file, and of standard input. *)
Context (Open : string → outcome string) (Stdin : outcome string).

Definition readFile (filename : string) : outcome string := Open filename.

Definition readFileOrStdin (filename : string) : outcome string :=
  if bool_decide (filename = ""%string) || bool_decide (filename = "-"%string) then Stdin else readFile filename.

Definition readFileIfExists (filename : string) : outcome string :=
  if bool_decide (filename ≠ ""%string) then readFile filename else Ok ""%string.

(** The message: the starting rate is read from the flag of the maximal one. *)
Definition new_request (fl : ctl_flags) (script scriptConfig : string) : LoadTestReq :=
  let max := int32_of (maxExecPerSecFlag fl) in
  let starting := int32_of (maxExecPerSecFlag fl) in
  let growth := growthFactorFlag fl in
  let between := Seconds (timeBetweenGrowthFlag fl) in
  mkLoadTestReq (tgtFlag fl) script (scriptNameFlag fl) (int32_of_float (Seconds (runTimeFlag fl)))
    (if feq growth (float_of_int 0) then float_of_int 1 else growth)
    (if feq between (float_of_int 0) then float_of_int 1 else between)
    (if starting =? 0 then max else starting) max scriptConfig.

(** A call of [srv.Recv]. *)
Inductive reply := AMsg (m : LoadTestResp) | AEOF | AErr (e : error).

(** How the tool ends: it returns, or [log.Fatal]. *)
Inductive exit := Exit0 | Fatal (e : error).

(** [since i]: the elapsed time it prints with the [i]-th message; [unexpected]: the
    [%#v] of a message. *)
Context (since : nat → string) (unexpected : LoadTestResp → string).

Definition phase_line (i : nat) (res : LoadTestResp) : string :=
  (since i +:+
   match GetPreparing res with
   | Some count => ": load test is preparing " +:+ fmt_d count +:+ " workers..."
   | None => match GetStart res with
   | Some _ => ": load test started!"
   | None => match GetFinish res with
   | Some _ => ": load test finished!"
   | None => match GetError res with
   | Some e => ": load test had an error: " +:+ e
   | None => ": unexpected message: " +:+ unexpected res
   end end end end)%string.

(** The loop over the answers: the lines printed and the end, [None] while it waits. *)
Fixpoint receive (i : nat) (rs : list reply) : list string * option exit :=
  match rs with
  | [] => ([], None)
  | AEOF :: _ => (["done"%string], Some Exit0)
  | AErr e :: _ => ([], Some (Fatal (Errorf ("waiting for response: " +:+ Error e))))
  | AMsg m :: rs => let '(lines, ex) := receive (S i) rs in (phase_line i m :: lines, ex)
  end.

(** The action.  [call]: the request sent, and the answers to it.  The line that
    announces the request is left out of the result. *)
Definition Action (fl : ctl_flags) (call : LoadTestReq → outcome (list reply)) : list string * option exit :=
  if bool_decide (scriptNameFlag fl = ""%string) then
    ([], Some (Fatal (Errorf ("param " +:+ dquote +:+ "script.name" +:+ dquote +:+ " required to run script"))))
  else
  match readFileOrStdin (scriptFileFlag fl) with
  | Err e => ([], Some (Fatal e))
  | Panic m => ([], Some (Fatal (Errorf m)))
  | Ok script =>
      match readFileIfExists (scriptConfigFlag fl) with
      | Err e => ([], Some (Fatal e))
      | Panic m => ([], Some (Fatal (Errorf m)))
      | Ok scriptConfig =>
          match call (new_request fl script scriptConfig) with
          | Err e => ([], Some (Fatal (Errorf ("issuing load test request: " +:+ Error e))))
          | Panic m => ([], Some (Fatal (Errorf m)))
          | Ok rs => receive 0 rs
          end
      end
  end.
End ctl.

(** ** schedulerd *)

(** The variable of one setting: [flag] stores its default, [envflag] then stores its
    own, and parsing stores what the environment and the arguments give. *)
Definition setting {A} (flagDefault envDefault : A) (env arg : option A) : A :=
  fold_left (fun v w => default v w) [Some flagDefault; Some envDefault; env; arg] flagDefault.

(** What the environment, or the arguments, give for the settings of the service. *)
Record given := mkGiven {
  max_worker_per_executor : option Z;
  max_rps_per_executor : option Z;
  influx_addr : option string; influx_username : option string; influx_password : option string;
  influx_db_name : option string; influx_use_ssl : option bool
}.

Definition scheduler_config (env arg : given) : ServerConfig :=
  let str (f : given → option string) := setting "" "" (f env) (f arg) in
  mkServerConfig (setting 100 0 (max_worker_per_executor env) (max_worker_per_executor arg))
    (setting 500 0 (max_rps_per_executor env) (max_rps_per_executor arg))
    (mkRegisterExecutorResp (str influx_addr) (str influx_username) (str influx_password) (str influx_db_name)
      (setting false false (influx_use_ssl env) (influx_use_ssl arg))).

(** [connectToDO]: the ids of the keys; no key at all is fatal. *)
Definition connectToDO (List : outcome (list Z)) : outcome (list Z) :=
  match List with
  | Err e => Panic ("can't retrieve SSH keys: " +:+ Error e)
  | Panic m => Panic m
  | Ok [] => Panic "need at least 1 ssh key on your DO account"
  | Ok keys => Ok keys
  end.

(** ** Properties *)

Section properties.
Context {W N : Type} {LV : LuaVM W} {HT : HTTP N} {WL : Wall} {JS : JSON}.
Context (new_heap : W).

Lemma new_request_starting fl script config :
  lt_StartingRequestsPerSecond (new_request fl script config) = lt_MaxRequestsPerSecond (new_request fl script config).
Proof. simpl. by case_test. Qed.

(** A load test requested by [schedulerctl] never grows: each executor starts with
    its maximal rate, whatever the flags say of the starting one. *)
Theorem ctl_no_growth (fl : ctl_flags) (script config : string) (cfg : ServerConfig) (len : nat)
    (m : CommandMessage) (p : ScriptParams) :
  LoadTest_message cfg (new_request fl script config) len = Ok m → CmdScriptParams m = Some p →
  StartingRequestsPerSecond p = MaxRequestsPerSecond p.
Proof.
  unfold LoadTest_message, command_message. rewrite new_request_starting.
  destruct (div32 _ _) as [q| |]; [|done..]. simpl. intros [= <-] [= <-]. done.
Qed.

(** [schedulerd] without a rate per executor in its environment and its arguments is
    configured with none, not with the default of its flag: every load test with a
    script that passes ends in a division by zero. *)
Theorem schedulerd_default_panics (env arg : given) (w : answers) (req : LoadTestReq) (n : N) :
  max_rps_per_executor env = None → max_rps_per_executor arg = None →
  fst (verifyScript new_heap req n) = Ok tt →
  LoadTest new_heap (scheduler_config env arg) w req n = (Panic div_panic, []).
Proof.
  intros He Ha Hv. apply LoadTest_zero_executors; [exact Hv|]. apply needExecutors_zero. right.
  unfold scheduler_config. simpl. by rewrite He, Ha.
Qed.
End properties.

#[local] Existing Instance SchedServer.test_json.

(** The flags of [schedulerctl -tgt http://a -script.name test -max.exec.ps 1000]. *)
Definition test_flags : ctl_flags :=
  mkFlags "" "http://a" "test" "" "" (60 * Second) 1000 (float_lit 3 2) Second 50.

Lemma ctl_no_growth_witness :
  ∃ m p, LoadTest_message test_cfg (new_request test_flags "src" "") 4 = Ok m ∧ CmdScriptParams m = Some p ∧
    verifyCommand p = None ∧ StartingRequestsPerSecond p = MaxRequestsPerSecond p.
Proof.
  eexists _, _. split; [reflexivity|]. split; [reflexivity|]. split; [by vm_compute|].
  by eapply (ctl_no_growth test_flags "src" "" test_cfg 4).
Defined.

Definition nothing_given : given := mkGiven None None None None None None None.

Lemma schedulerd_default_panics_witness :
  LoadTest tt (scheduler_config nothing_given nothing_given) test_answers test_req tt = (Panic div_panic, []).
Proof. apply schedulerd_default_panics; by vm_compute. Defined.

(** What a client of [test_load] prints. *)
Example ctl_output :
  Action (fun _ => Err (Errorf "no such file")) (Ok "src"%string) (fun _ => "1s"%string) (fun _ => ""%string) test_flags
    (fun req => Ok (map (fun p => AMsg (mkLoadTestResp (Some p)))
       (omap (fun e => match e with ESend p => Some p | _ => None end) (snd (LoadTest tt test_cfg test_answers req tt))) ++ [AEOF])) =
  (["1s: load test is preparing 4 workers..."; "1s: load test started!"; "1s: load test finished!"; "done"]%string, Some Exit0).
Proof. by vm_compute. Qed.
