(* ===== verification/Proto.v ===== *)
(** * The protobuf wire format (Godeps .../protobuf/proto, encode.go and decode.go)

    The primitives of a [Buffer], and the encoding and decoding of a struct driven by its
    [Properties], as far as the messages of the two services need them: proto3 scalars,
    embedded messages and a oneof; required and repeated fields, extensions and maps do
    not occur.  A buffer is the list of its bytes; the reading index is the rest. *)
From Stdlib Require Import ZArith Lia Ascii.
From stdpp Require Import base option list strings.
From S2P Require Import Prelude GoNum FloatFacts GoFmt Strconv.
From Stdlib Require Import SpecFloat.

(** ** Bytes *)

Definition byte_val (c : ascii) : Z := Z.of_N (N_of_ascii c).
(** [uint8(x)]. *)
Definition uint8 (x : Z) : ascii := ascii_of_N (Z.to_N (Z.land x 255)).
Definition uint64 (x : Z) : Z := Z.land x (2 ^ 64 - 1).

Lemma byte_val_range c : 0 ≤ byte_val c < 256.
Proof. unfold byte_val. pose proof (N_ascii_bounded c). lia. Qed.

Lemma byte_val_uint8 x : byte_val (uint8 x) = x mod 256.
Proof.
  unfold byte_val, uint8. change 255 with (Z.ones 8). rewrite Z.land_ones by lia. change (2 ^ 8) with 256.
  pose proof (Z.mod_pos_bound x 256 ltac:(lia)). rewrite N_ascii_embedding by lia. lia.
Qed.

Lemma uint64_mod x : uint64 x = x mod 2 ^ 64.
Proof. unfold uint64. change (2 ^ 64 - 1) with (Z.ones 64). by rewrite Z.land_ones by lia. Qed.

Lemma uint64_id x : 0 ≤ x < 2 ^ 64 → uint64 x = x.
Proof. intros. rewrite uint64_mod. by apply Z.mod_small. Qed.

(** ** Encoders *)

(** [EncodeVarint]; ten bytes hold a [uint64]. *)
Fixpoint EncodeVarint_loop (fuel : nat) (x : Z) : bytes :=
  match fuel with
  | O => [uint8 x]
  | S fuel => if 2 ^ 7 <=? x then uint8 (Z.lor (Z.land x 127) 128) :: EncodeVarint_loop fuel (Z.shiftr x 7)
              else [uint8 x]
  end.

Definition EncodeVarint (x : Z) : bytes := EncodeVarint_loop 10 x.

Definition EncodeFixed64 (x : Z) : bytes :=
  [uint8 x; uint8 (Z.shiftr x 8); uint8 (Z.shiftr x 16); uint8 (Z.shiftr x 24); uint8 (Z.shiftr x 32);
   uint8 (Z.shiftr x 40); uint8 (Z.shiftr x 48); uint8 (Z.shiftr x 56)].

Definition EncodeRawBytes (b : bytes) : bytes := EncodeVarint (Z.of_nat (length b)) ++ b.

(** ** Decoders *)

Definition ErrUnexpectedEOF : error := Errorf "unexpected EOF".
Definition errOverflow : error := Errorf "proto: integer overflow".

(** The loop of [DecodeVarint] at [shift]; ten rounds pass before [shift] reaches 64. *)
Fixpoint DecodeVarint_loop (fuel : nat) (shift x : Z) (buf : bytes) : outcome (Z * bytes) :=
  match fuel with
  | O => Err errOverflow
  | S fuel =>
      match buf with
      | [] => Err ErrUnexpectedEOF
      | b :: buf =>
          let x := Z.lor x (uint64 (Z.shiftl (Z.land (byte_val b) 127) shift)) in
          if byte_val b <? 128 then Ok (x, buf) else DecodeVarint_loop fuel (shift + 7) x buf
      end
  end.

Definition DecodeVarint (buf : bytes) : outcome (Z * bytes) := DecodeVarint_loop 10 0 0 buf.

Definition le_combine (b : bytes) : Z := foldr (fun c acc => Z.lor (byte_val c) (Z.shiftl acc 8)) 0 b.

Definition DecodeFixed64 (buf : bytes) : outcome (Z * bytes) :=
  if (length buf <? 8)%nat then Err ErrUnexpectedEOF else Ok (le_combine (take 8 buf), drop 8 buf).

Definition DecodeFixed32 (buf : bytes) : outcome (Z * bytes) :=
  if (length buf <? 4)%nat then Err ErrUnexpectedEOF else Ok (le_combine (take 4 buf), drop 4 buf).

Definition DecodeRawBytes (buf : bytes) : outcome (bytes * bytes) :=
  '(n, buf) ← DecodeVarint buf;
  let nb := int64_of n in
  if nb <? 0 then Err (Errorf ("proto: bad byte length " +:+ fmt_d nb))
  else if Z.of_nat (length buf) <? nb then Err ErrUnexpectedEOF
  else Ok (take (Z.to_nat nb) buf, drop (Z.to_nat nb) buf).

(** ** Round trips of the primitives *)

Lemma lor_shiftl_add a v k : 0 ≤ k → 0 ≤ a < 2 ^ k → Z.lor a (Z.shiftl v k) = a + v * 2 ^ k.
Proof.
  intros Hk Ha. rewrite <- Z.add_nocarry_lor; [by rewrite Z.shiftl_mul_pow2|].
  apply Z.bits_inj'. intros n Hn. rewrite Z.land_spec, Z.bits_0, andb_false_iff.
  destruct (Z.le_gt_cases k n).
  - left. destruct (Z.eq_dec a 0) as [->|]; [by rewrite Z.bits_0|]. apply Z.bits_above_log2; [lia|].
    assert (Z.log2 a < k); [|lia]. by apply Z.log2_lt_pow2; lia.
  - right. by apply Z.shiftl_spec_low.
Qed.

Lemma varint_loop k shift acc x rest :
  (0 < k)%nat → 0 ≤ shift → shift + 7 * Z.of_nat k = 70 → 0 ≤ x < 2 ^ (64 - shift) → 0 ≤ acc < 2 ^ shift →
  DecodeVarint_loop k shift acc (EncodeVarint_loop k x ++ rest) = Ok (acc + x * 2 ^ shift, rest).
Proof.
  revert shift acc x. induction k as [|k IH]; intros shift acc x Hk0 Hs Hk Hx Ha; [lia|].
  cbn [EncodeVarint_loop DecodeVarint_loop].
  assert (0 < 2 ^ shift) as Hp by (apply pow2_pos; lia).
  assert (2 ^ 64 = 2 ^ (64 - shift) * 2 ^ shift) as H64 by (rewrite <- pow2_add by lia; f_equal; lia).
  destruct (Z.leb_spec (2 ^ 7) x) as [Hge|Hlt].
  - assert (k ≠ 0%nat) as Hk1.
    { intros ->. assert (shift = 63) as -> by lia. change (2 ^ (64 - 63)) with 2 in Hx. lia. }
    cbn [app]. rewrite byte_val_uint8.
    assert (Z.lor (Z.land x 127) 128 = x mod 128 + 128) as E.
    { change 127 with (Z.ones 7). rewrite Z.land_ones by lia. change 128 with (Z.shiftl 1 7) at 1.
      rewrite lor_shiftl_add; [done|lia|]. apply Z.mod_pos_bound. lia. }
    pose proof (Z.mod_pos_bound x 128 ltac:(lia)) as Hm.
    rewrite E, (Z.mod_small (x mod 128 + 128)) by lia.
    assert ((x mod 128 + 128 <? 128) = false) as -> by lia.
    assert (Z.land (x mod 128 + 128) 127 = x mod 128) as ->.
    { change 127 with (Z.ones 7). rewrite Z.land_ones by lia. change (2 ^ 7) with 128.
      rewrite <- (Z.mul_1_l 128) at 2. rewrite Z.mod_add by lia. by apply Z.mod_mod. }
    assert (x mod 128 ≤ x) by (apply Z.mod_le; lia).
    rewrite uint64_id by (rewrite Z.shiftl_mul_pow2 by lia; nia).
    rewrite lor_shiftl_add by lia. rewrite Z.shiftr_div_pow2 by lia. change (2 ^ 7) with 128 in *.
    assert (2 ^ (shift + 7) = 2 ^ shift * 128) as H7 by (rewrite pow2_add by lia; done).
    rewrite IH; [|lia..| |].
    + f_equal. f_equal. rewrite H7. pose proof (Z.div_mod x 128 ltac:(lia)). nia.
    + split; [apply Z.div_pos; lia|]. apply Z.div_lt_upper_bound; [lia|].
      replace (128 * 2 ^ (64 - (shift + 7))) with (2 ^ (64 - shift)); [lia|].
      change 128 with (2 ^ 7). rewrite <- pow2_add by lia. f_equal. lia.
    + rewrite H7. nia.
  - cbn [app]. rewrite byte_val_uint8, Z.mod_small by lia.
    assert ((x <? 128) = true) as -> by lia.
    assert (Z.land x 127 = x) as ->.
    { change 127 with (Z.ones 7). rewrite Z.land_ones by lia. apply Z.mod_small. lia. }
    rewrite uint64_id by (rewrite Z.shiftl_mul_pow2 by lia; nia). by rewrite lor_shiftl_add by lia.
Qed.

Lemma DecodeVarint_EncodeVarint x rest : 0 ≤ x < 2 ^ 64 → DecodeVarint (EncodeVarint x ++ rest) = Ok (x, rest).
Proof.
  intros Hx. unfold DecodeVarint, EncodeVarint. rewrite varint_loop; [f_equal; f_equal; lia|lia..|lia].
Qed.

Lemma DecodeRawBytes_EncodeRawBytes b rest :
  Z.of_nat (length b) < 2 ^ 63 → DecodeRawBytes (EncodeRawBytes b ++ rest) = Ok (b, rest).
Proof.
  intros Hb. unfold DecodeRawBytes, EncodeRawBytes. rewrite <- app_assoc, DecodeVarint_EncodeVarint by lia.
  cbn [mbind outcome_bind]. rewrite int64_id by (unfold is_int64; lia).
  rewrite (proj2 (Z.ltb_ge _ 0)) by lia. rewrite length_app, (proj2 (Z.ltb_ge _ _)) by lia.
  rewrite Nat2Z.id. by rewrite take_app_length, drop_app_length.
Qed.

Lemma le_combine_bytes n x :
  0 ≤ x < 2 ^ (8 * Z.of_nat n) →
  le_combine (map (fun i => uint8 (Z.shiftr x (8 * Z.of_nat i))) (seq 0 n)) = x.
Proof.
  revert x. induction n as [|n IH]; intros x Hx; [simpl in *; lia|].
  cbn [seq map]. rewrite <- seq_shift, map_map. cbn [le_combine foldr]. unfold le_combine in IH.
  assert (2 ^ (8 * Z.of_nat (S n)) = 256 * 2 ^ (8 * Z.of_nat n)) as Hp.
  { change 256 with (2 ^ 8). rewrite <- pow2_add by lia. f_equal. lia. }
  rewrite (map_ext _ (fun i => uint8 (Z.shiftr (Z.shiftr x 8) (8 * Z.of_nat i)))).
  2: { intros i. rewrite Z.shiftr_shiftr by lia. do 2 f_equal. lia. }
  change (8 * Z.of_nat 0) with 0. rewrite Z.shiftr_0_r, byte_val_uint8.
  rewrite IH; rewrite Z.shiftr_div_pow2 by lia; change (2 ^ 8) with 256.
  - pose proof (Z.mod_pos_bound x 256 ltac:(lia)). rewrite lor_shiftl_add by lia. change (2 ^ 8) with 256.
    pose proof (Z.div_mod x 256 ltac:(lia)). lia.
  - split; [apply Z.div_pos; lia|]. apply Z.div_lt_upper_bound; lia.
Qed.

Lemma DecodeFixed64_EncodeFixed64 x rest :
  0 ≤ x < 2 ^ 64 → DecodeFixed64 (EncodeFixed64 x ++ rest) = Ok (x, rest).
Proof.
  intros Hx. pose proof (le_combine_bytes 8 x Hx) as H. cbn [seq map] in H.
  unfold DecodeFixed64. cbn -[le_combine uint8 Z.shiftr]. f_equal. f_equal.
  rewrite <- H at 9. cbn -[le_combine uint8 Z.shiftr]. by rewrite Z.shiftr_0_r.
Qed.

(** ** The bits of a float64 *)

Definition sign_bit (s : bool) : Z := if s then 2 ^ 63 else 0.

(** The memory word of a [float64]; there is one NaN. *)
Definition bits_of_float (f : float64) : Z :=
  match f with
  | S754_zero s => sign_bit s
  | S754_infinity s => sign_bit s + 2047 * 2 ^ 52
  | S754_nan => 2047 * 2 ^ 52 + 2 ^ 51 + 1
  | S754_finite s m e =>
      sign_bit s + (if Z.pos m <? 2 ^ 52 then Z.pos m else (e + 1075) * 2 ^ 52 + (Z.pos m - 2 ^ 52))
  end.

Definition float_of_bits (u : Z) : float64 :=
  let s := 2 ^ 63 <=? u in
  let ex := (u / 2 ^ 52) mod 2 ^ 11 in
  let mant := u mod 2 ^ 52 in
  if ex =? 0 then match mant with Z.pos m => S754_finite s m (-1074) | _ => S754_zero s end
  else if ex =? 2047 then (if mant =? 0 then S754_infinity s else S754_nan)
  else match mant + 2 ^ 52 with Z.pos m => S754_finite s m (ex - 1075) | _ => S754_nan end.

(** A finite [float64] is subnormal, or has 53 digits and an exponent in range. *)
Lemma valid64_cases s m e :
  valid64 (S754_finite s m e) = true →
  (e = -1074 ∧ Z.pos m < 2 ^ 52) ∨ (2 ^ 52 ≤ Z.pos m < 2 ^ 53 ∧ -1074 ≤ e ≤ 971).
Proof.
  unfold valid64, valid_binary, bounded, canonical_mantissa, fexp, emin, prec64, emax64.
  intros [H%Z.eqb_eq He%Z.leb_le]%andb_prop. pose proof (digits2_pos_bounds m) as [Hl Hu].
  set (d := Z.pos (digits2_pos m)) in *.
  destruct (Z.le_gt_cases 53 d) as [Hd|Hd].
  - right. assert (d = 53) as Hd53 by lia. rewrite Hd53 in *. lia.
  - left. split; [lia|]. assert (2 ^ d ≤ 2 ^ 52) by (apply Z.pow_le_mono_r; lia). lia.
Qed.

Lemma valid64_normal s m e : 2 ^ 52 ≤ Z.pos m < 2 ^ 53 → -1074 ≤ e ≤ 971 → valid64 (S754_finite s m e) = true.
Proof.
  intros Hm He. unfold valid64, valid_binary, bounded, canonical_mantissa, fexp, emin, prec64, emax64.
  rewrite (digits2_pos_unique m 53) by done. apply andb_true_iff. split; [apply Z.eqb_eq|apply Z.leb_le]; lia.
Qed.

Lemma valid64_subnormal s m : Z.pos m < 2 ^ 52 → valid64 (S754_finite s m (-1074)) = true.
Proof.
  intros Hm. unfold valid64, valid_binary, bounded, canonical_mantissa, fexp, emin, prec64, emax64.
  pose proof (digits2_pos_le m 52 ltac:(lia) Hm). apply andb_true_iff. split; [apply Z.eqb_eq|apply Z.leb_le]; lia.
Qed.

(** Sign, exponent and mantissa of a word. *)
Lemma word_parts s ex mant :
  0 ≤ ex < 2048 → 0 ≤ mant < 2 ^ 52 →
  let u := sign_bit s + (ex * 2 ^ 52 + mant) in
  0 ≤ u < 2 ^ 64 ∧ (2 ^ 63 <=? u) = s ∧ (u / 2 ^ 52) mod 2 ^ 11 = ex ∧ u mod 2 ^ 52 = mant.
Proof.
  intros He Hm u. unfold u, sign_bit.
  assert (((if s then 2 ^ 63 else 0) + (ex * 2 ^ 52 + mant)) = mant + ((if s then 2048 else 0) + ex) * 2 ^ 52) as E
    by (destruct s; lia).
  split_and!.
  - destruct s; lia.
  - destruct s; lia.
  - destruct s; lia.
  - rewrite E, Z.div_add by lia. rewrite (Z.div_small mant) by lia. rewrite Z.add_0_l. change (2 ^ 11) with 2048.
    destruct s; [|by apply Z.mod_small]. replace (2048 + ex) with (ex + 1 * 2048) by lia.
    rewrite Z.mod_add by lia. by apply Z.mod_small.
  - rewrite E, Z.mod_add by lia. by apply Z.mod_small.
Qed.

(** Every valid [float64] as its parts. *)
Lemma bits_parts f :
  valid64 f = true →
  ∃ s ex mant, 0 ≤ ex < 2048 ∧ 0 ≤ mant < 2 ^ 52 ∧ bits_of_float f = sign_bit s + (ex * 2 ^ 52 + mant) ∧
    f = (if ex =? 0 then match mant with Z.pos m => S754_finite s m (-1074) | _ => S754_zero s end
         else if ex =? 2047 then (if mant =? 0 then S754_infinity s else S754_nan)
         else match mant + 2 ^ 52 with Z.pos m => S754_finite s m (ex - 1075) | _ => S754_nan end).
Proof.
  destruct f as [s|s| |s m e]; intros Hv; cbn [bits_of_float].
  - exists s, 0, 0. split_and!; [lia..|done].
  - exists s, 2047, 0. split_and!; [lia..|done].
  - exists false, 2047, (2 ^ 51 + 1). split_and!; [lia..|by vm_compute|done].
  - destruct (valid64_cases _ _ _ Hv) as [[-> Hm]|[Hm He]].
    + exists s, 0, (Z.pos m). rewrite (proj2 (Z.ltb_lt _ _) Hm). split_and!; [lia..|done].
    + exists s, (e + 1075), (Z.pos m - 2 ^ 52). rewrite (proj2 (Z.ltb_ge _ _)) by lia.
      split_and!; [lia..|]. rewrite !(proj2 (Z.eqb_neq _ _)) by lia.
      replace (Z.pos m - 2 ^ 52 + 2 ^ 52) with (Z.pos m) by lia. f_equal. lia.
Qed.

Lemma bits_range f : valid64 f = true → 0 ≤ bits_of_float f < 2 ^ 64.
Proof.
  intros (s & ex & mant & He & Hm & -> & _)%bits_parts. by destruct (word_parts s ex mant He Hm) as [? _].
Qed.

Lemma float_of_bits_of_float f : valid64 f = true → float_of_bits (bits_of_float f) = f.
Proof.
  intros (s & ex & mant & He & Hm & E & Hf)%bits_parts.
  destruct (word_parts s ex mant He Hm) as (_ & E1 & E2 & E3). unfold float_of_bits.
  rewrite E, E1, E2, E3. by symmetry.
Qed.

Lemma float_of_bits_valid u : valid64 (float_of_bits u) = true.
Proof.
  unfold float_of_bits. pose proof (Z.mod_pos_bound u (2 ^ 52) ltac:(lia)) as Hm.
  pose proof (Z.mod_pos_bound (u / 2 ^ 52) (2 ^ 11) ltac:(lia)) as He.
  destruct (Z.eqb_spec ((u / 2 ^ 52) mod 2 ^ 11) 0).
  - destruct (u mod 2 ^ 52) as [|m|m] eqn:E; [done| |lia]. apply valid64_subnormal. lia.
  - destruct (Z.eqb_spec ((u / 2 ^ 52) mod 2 ^ 11) 2047); [by destruct (_ =? 0)|].
    destruct (u mod 2 ^ 52 + 2 ^ 52) as [|m|m] eqn:E; [done| |lia]. apply valid64_normal; lia.
Qed.

(** ** Structs *)

Definition WireVarint : Z := 0.
Definition WireFixed64 : Z := 1.
Definition WireBytes : Z := 2.
Definition WireStartGroup : Z := 3.
Definition WireEndGroup : Z := 4.
Definition WireFixed32 : Z := 5.

(** What follows a tag. *)
Inductive payload := PVarint (u : Z) | PFixed64 (u : Z) | PBytes (b : bytes).

Definition enc_payload (v : payload) : bytes :=
  match v with PVarint u => EncodeVarint u | PFixed64 u => EncodeFixed64 u | PBytes b => EncodeRawBytes b end.

Definition dec_payload (wireType : Z) (buf : bytes) : outcome (payload * bytes) :=
  if wireType =? WireVarint then '(u, buf) ← DecodeVarint buf; Ok (PVarint u, buf)
  else if wireType =? WireFixed64 then '(u, buf) ← DecodeFixed64 buf; Ok (PFixed64 u, buf)
  else '(b, buf) ← DecodeRawBytes buf; Ok (PBytes b, buf).

(** One field: what it puts on the wire, [None] for a zero value, and how it stores what
    it reads. *)
Record Properties (M : Type) := mkProperties {
  Tag : Z; WireType : Z;
  enc : M → option payload;
  dec : payload → M → outcome M
}.
Arguments mkProperties {M} _ _ _ _.
Arguments Tag {M} _.
Arguments WireType {M} _.
Arguments enc {M} _ _.
Arguments dec {M} _ _ _.

(** A struct: its fields in the order of their tags, and the generated functions of its
    oneof; [None] of the unmarshaler: not a field of the oneof. *)
Record StructProperties (M : Type) := mkStruct {
  stype : string;
  order : list (Properties M);
  oneofMarshaler : M → bytes;
  oneofUnmarshaler : Z → Z → bytes → M → option (outcome (M * bytes))
}.
Arguments mkStruct {M} _ _ _ _.
Arguments stype {M} _.
Arguments order {M} _.
Arguments oneofMarshaler {M} _ _.
Arguments oneofUnmarshaler {M} _ _ _ _ _.

Definition tagcode (tag wireType : Z) : bytes := EncodeVarint (Z.lor (Z.shiftl tag 3) wireType).

Definition enc_field {M} (m : M) (p : Properties M) : bytes :=
  match enc p m with None => [] | Some v => tagcode (Tag p) (WireType p) ++ enc_payload v end.

Definition enc_struct {M} (sp : StructProperties M) (m : M) : bytes :=
  concat (map (enc_field m) (order sp)) ++ oneofMarshaler sp m.

Definition out_of_fuel {A} : outcome A := Panic "out of fuel".

(** The items of a group up to its end. *)
Fixpoint skip_group (skip : Z → bytes → outcome bytes) (n : nat) (buf : bytes) : outcome bytes :=
  match n with
  | O => out_of_fuel
  | S n =>
      '(u, buf) ← DecodeVarint buf;
      let fwire := Z.land u 7 in
      if fwire =? WireEndGroup then Ok buf
      else buf ← skip fwire buf; skip_group skip n buf
  end.

(** [skip]: the next item, of the given wire type. *)
Fixpoint skip (fuel : nat) (st : string) (wire : Z) (buf : bytes) : outcome bytes :=
  match fuel with
  | O => out_of_fuel
  | S fuel =>
      if wire =? WireVarint then '(_, buf) ← DecodeVarint buf; Ok buf
      else if wire =? WireFixed64 then '(_, buf) ← DecodeFixed64 buf; Ok buf
      else if wire =? WireBytes then '(_, buf) ← DecodeRawBytes buf; Ok buf
      else if wire =? WireFixed32 then '(_, buf) ← DecodeFixed32 buf; Ok buf
      else if wire =? WireStartGroup then
        skip_group (skip fuel st) (S fuel) buf
      else Err (Errorf ("proto: can't skip unknown wire type " +:+ fmt_d wire +:+ " for " +:+ st))
  end.

(** [unmarshalType] of a message that is no group. *)
Fixpoint unmarshalType {M} (fuel : nat) (sp : StructProperties M) (buf : bytes) (m : M) : outcome M :=
  match buf with
  | [] => Ok m
  | _ =>
      match fuel with
      | O => out_of_fuel
      | S fuel =>
          '(u, buf) ← DecodeVarint buf;
          let wire := Z.land u 7 in
          if wire =? WireEndGroup then Err (Errorf ("proto: " +:+ stype sp +:+ ": wiretype end group for non-group"))
          else
          let tag := int64_of (Z.shiftr u 3) in
          if tag <=? 0 then
            Err (Errorf ("proto: " +:+ stype sp +:+ ": illegal tag " +:+ fmt_d tag +:+ " (wire type " +:+ fmt_d wire +:+ ")"))
          else
          match find (fun p => Tag p =? tag) (order sp) with
          | Some p =>
              if negb (wire =? WireStartGroup) && negb (wire =? WireType p) then
                Err (Errorf ("proto: bad wiretype for field " +:+ stype sp +:+ ": got wiretype " +:+ fmt_d wire
                             +:+ ", want " +:+ fmt_d (WireType p)))
              else
                '(v, buf) ← dec_payload (WireType p) buf;
                m ← dec p v m;
                unmarshalType fuel sp buf m
          | None =>
              match oneofUnmarshaler sp tag wire buf m with
              | Some r => '(m, buf) ← r; unmarshalType fuel sp buf m
              | None => buf ← skip (S (length buf)) (stype sp) wire buf; unmarshalType fuel sp buf m
              end
          end
      end
  end.

Definition Unmarshal {M} (sp : StructProperties M) (buf : bytes) (m : M) : outcome M :=
  unmarshalType (length buf) sp buf m.

(** [DecodeMessage] into a new message. *)
Definition DecodeMessage {M} (sp : StructProperties M) (reset : M) (buf : bytes) : outcome (M * bytes) :=
  '(raw, buf) ← DecodeRawBytes buf; m ← Unmarshal sp raw reset; Ok (m, buf).

(** *** The kinds of fields *)

Section kinds.
Context {M : Type}.

Definition unreachable {A} : outcome A := Panic "payload of another wire type".

Definition enc_proto3_bool (get : M → bool) (m : M) : option payload := if get m then Some (PVarint 1) else None.
Definition dec_proto3_bool (set : bool → M → M) (v : payload) (m : M) : outcome M :=
  match v with PVarint u => Ok (set (negb (u =? 0)) m) | _ => unreachable end.

(** [uint64(x)] of the [int32]: its sign is extended. *)
Definition enc_proto3_int32 (get : M → Z) (m : M) : option payload :=
  if get m =? 0 then None else Some (PVarint (uint64 (get m))).
Definition dec_proto3_int32 (set : Z → M → M) (v : payload) (m : M) : outcome M :=
  match v with PVarint u => Ok (set (int32_of u) m) | _ => unreachable end.

Definition enc_proto3_int64 (get : M → Z) (m : M) : option payload :=
  if get m =? 0 then None else Some (PVarint (uint64 (get m))).
Definition dec_proto3_int64 (set : Z → M → M) (v : payload) (m : M) : outcome M :=
  match v with PVarint u => Ok (set (int64_of u) m) | _ => unreachable end.

(** A [float64] is encoded as the word it is stored in. *)
Definition enc_proto3_double (get : M → float64) (m : M) : option payload :=
  if bits_of_float (get m) =? 0 then None else Some (PFixed64 (bits_of_float (get m))).
Definition dec_proto3_double (set : float64 → M → M) (v : payload) (m : M) : outcome M :=
  match v with PFixed64 u => Ok (set (float_of_bits u) m) | _ => unreachable end.

Definition enc_proto3_string (get : M → string) (m : M) : option payload :=
  if bool_decide (get m = ""%string) then None else Some (PBytes (to_bytes (get m))).
Definition dec_proto3_string (set : string → M → M) (v : payload) (m : M) : outcome M :=
  match v with PBytes b => Ok (set (to_string b) m) | _ => unreachable end.

Definition enc_struct_message {S} (sp : StructProperties S) (get : M → option S) (m : M) : option payload :=
  match get m with None => None | Some s => Some (PBytes (enc_struct sp s)) end.
(** A nested message that is there already is merged into. *)
Definition dec_struct_message {S} (sp : StructProperties S) (reset : S) (get : M → option S) (set : option S → M → M)
    (v : payload) (m : M) : outcome M :=
  match v with
  | PBytes b => s ← Unmarshal sp b (default reset (get m)); Ok (set (Some s) m)
  | _ => unreachable
  end.

Definition prop_int32 (tag : Z) (get : M → Z) (set : Z → M → M) : Properties M :=
  mkProperties tag WireVarint (enc_proto3_int32 get) (dec_proto3_int32 set).
Definition prop_int64 (tag : Z) (get : M → Z) (set : Z → M → M) : Properties M :=
  mkProperties tag WireVarint (enc_proto3_int64 get) (dec_proto3_int64 set).
Definition prop_bool (tag : Z) (get : M → bool) (set : bool → M → M) : Properties M :=
  mkProperties tag WireVarint (enc_proto3_bool get) (dec_proto3_bool set).
Definition prop_double (tag : Z) (get : M → float64) (set : float64 → M → M) : Properties M :=
  mkProperties tag WireFixed64 (enc_proto3_double get) (dec_proto3_double set).
Definition prop_string (tag : Z) (get : M → string) (set : string → M → M) : Properties M :=
  mkProperties tag WireBytes (enc_proto3_string get) (dec_proto3_string set).
Definition prop_message {S} (tag : Z) (sp : StructProperties S) (reset : S) (get : M → option S)
    (set : option S → M → M) : Properties M :=
  mkProperties tag WireBytes (enc_struct_message sp get) (dec_struct_message sp reset get set).
End kinds.

Definition no_oneof_marshal {M} (m : M) : bytes := [].
Definition no_oneof_unmarshal {M} (tag wire : Z) (buf : bytes) (m : M) : option (outcome (M * bytes)) := None.
