(* ===== verification/ProtoFacts.v ===== *)
(** * Facts on the wire format: what a struct puts on the wire is read back

    The interface [Message] of a protobuf message, the laws that make it lawful, the round
    trip of every lawful message, and the fact that no input makes the decoder panic. *)
From Stdlib Require Import ZArith Lia Ascii.
From stdpp Require Import base option list strings.
From S2P Require Import Prelude GoNum FloatFacts GoFmt Strconv Proto.
From Stdlib Require Import SpecFloat.

(** ** One field *)

(** A payload of the wire type of its field. *)
Definition fits (wireType : Z) (v : payload) : Prop :=
  match v with
  | PVarint u => wireType = WireVarint ∧ 0 ≤ u < 2 ^ 64
  | PFixed64 u => wireType = WireFixed64 ∧ 0 ≤ u < 2 ^ 64
  | PBytes b => wireType = WireBytes
  end.

(** The sizes that [int(n)] of a length keeps. *)
Definition small (b : bytes) : Prop := Z.of_nat (length b) < 2 ^ 63.

Lemma small_app b1 b2 : small (b1 ++ b2) → small b1 ∧ small b2.
Proof. unfold small. rewrite length_app. lia. Qed.

Lemma small_raw b : small (EncodeRawBytes b) → small b.
Proof. by intros [_ ?]%small_app. Qed.

Lemma dec_enc_payload wt v rest :
  fits wt v → small (enc_payload v) → dec_payload wt (enc_payload v ++ rest) = Ok (v, rest).
Proof.
  unfold dec_payload. destruct v as [u|u|b]; cbn [fits enc_payload]; [intros [-> H] _..|intros -> H%small_raw];
    cbn -[EncodeVarint DecodeVarint EncodeFixed64 DecodeFixed64 EncodeRawBytes DecodeRawBytes app].
  - by rewrite DecodeVarint_EncodeVarint.
  - by rewrite DecodeFixed64_EncodeFixed64.
  - by rewrite DecodeRawBytes_EncodeRawBytes.
Qed.

Lemma EncodeVarint_nonempty x : (1 ≤ length (EncodeVarint x))%nat.
Proof. unfold EncodeVarint. cbn [EncodeVarint_loop]. case_match; cbn [length]; lia. Qed.

Definition tag_ok (tag wt : Z) : Prop := 0 < tag < 2 ^ 29 ∧ 0 ≤ wt < 3.

Lemma tag_word tag wt :
  tag_ok tag wt → let u := Z.lor (Z.shiftl tag 3) wt in
  0 ≤ u < 2 ^ 64 ∧ Z.land u 7 = wt ∧ int64_of (Z.shiftr u 3) = tag.
Proof.
  intros [Ht Hw] u. assert (u = wt + tag * 8) as ->.
  { unfold u. rewrite Z.lor_comm, lor_shiftl_add by lia. done. }
  split; [lia|]. split.
  - change 7 with (Z.ones 3). rewrite Z.land_ones by lia. change (2 ^ 3) with 8. rewrite Z.mod_add by lia.
    apply Z.mod_small. lia.
  - rewrite Z.shiftr_div_pow2 by lia. change (2 ^ 3) with 8. rewrite Z.div_add, (Z.div_small wt) by lia.
    apply int64_id. unfold is_int64. lia.
Qed.

(** What [unmarshalType] does with the tag of a known field. *)
Definition on_tag {M} (fuel : nat) (sp : StructProperties M) (tag wt : Z) (buf : bytes) (m : M) : outcome M :=
  match find (fun p => Tag p =? tag) (order sp) with
  | Some p =>
      if negb (wt =? WireStartGroup) && negb (wt =? WireType p) then
        Err (Errorf ("proto: bad wiretype for field " +:+ stype sp +:+ ": got wiretype " +:+ fmt_d wt
                     +:+ ", want " +:+ fmt_d (WireType p)))
      else '(v, buf) ← dec_payload (WireType p) buf; m ← dec p v m; unmarshalType fuel sp buf m
  | None =>
      match oneofUnmarshaler sp tag wt buf m with
      | Some r => '(m, buf) ← r; unmarshalType fuel sp buf m
      | None => buf ← skip (S (length buf)) (stype sp) wt buf; unmarshalType fuel sp buf m
      end
  end.

Lemma unmarshal_tag {M} fuel (sp : StructProperties M) tag wt rest m :
  tag_ok tag wt → unmarshalType (S fuel) sp (tagcode tag wt ++ rest) m = on_tag fuel sp tag wt rest m.
Proof.
  intros Ht. destruct (tag_word tag wt Ht) as (Hu & Hw & Htag). unfold tagcode.
  set (u := Z.lor _ _) in *. pose proof (EncodeVarint_nonempty u) as Hne.
  assert (∃ c l, EncodeVarint u ++ rest = c :: l) as (c & l & E).
  { destruct (EncodeVarint u) as [|c l]; [cbn [length] in Hne; lia|]. by exists c, (l ++ rest). }
  rewrite E. cbn [unmarshalType]. rewrite <- E, DecodeVarint_EncodeVarint by done.
  cbn [mbind outcome_bind]. rewrite Hw, Htag. destruct Ht as [Ht Hwt].
  rewrite (proj2 (Z.eqb_neq wt _)) by (unfold WireEndGroup; lia).
  by rewrite (proj2 (Z.leb_gt tag 0)) by lia.
Qed.

Lemma unmarshal_field {M} fuel (sp : StructProperties M) p v m acc acc' rest :
  find (fun q => Tag q =? Tag p) (order sp) = Some p → tag_ok (Tag p) (WireType p) →
  enc p m = Some v → fits (WireType p) v → small (enc_field m p) → dec p v acc = Ok acc' →
  unmarshalType (S fuel) sp (enc_field m p ++ rest) acc = unmarshalType fuel sp rest acc'.
Proof.
  intros Hf Ht He Hv Hsm Hd. unfold enc_field in *. rewrite He in *. apply small_app in Hsm as [_ Hsm].
  rewrite <- app_assoc, unmarshal_tag by done. unfold on_tag. rewrite Hf, Z.eqb_refl, andb_false_r, dec_enc_payload by done. cbn [mbind outcome_bind].
  by rewrite Hd.
Qed.

(** ** All fields *)

(** [m] is rebuilt on [acc], field by field, up to [fin]. *)
Inductive rebuild {M} (m : M) : list (Properties M) → M → M → Prop :=
  | rb_nil acc : rebuild m [] acc acc
  | rb_skip p ps acc fin : enc p m = None → rebuild m ps acc fin → rebuild m (p :: ps) acc fin
  | rb_set p ps v acc acc' fin :
      enc p m = Some v → fits (WireType p) v → dec p v acc = Ok acc' → rebuild m ps acc' fin →
      rebuild m (p :: ps) acc fin.

Definition tags_ok {M} (ps : list (Properties M)) : Prop :=
  NoDup (map Tag ps) ∧ Forall (fun p => tag_ok (Tag p) (WireType p)) ps.

Lemma find_tag {M} (ps : list (Properties M)) p :
  NoDup (map Tag ps) → p ∈ ps → find (fun q => Tag q =? Tag p) ps = Some p.
Proof.
  induction ps as [|q ps IH]; intros Hnd Hin; [by apply elem_of_nil in Hin|].
  cbn [find]. inversion_clear Hnd as [|? ? Hq Hps]. apply elem_of_cons in Hin as [->|Hin]; [by rewrite Z.eqb_refl|].
  rewrite (proj2 (Z.eqb_neq _ _)); [by apply IH|]. intros E. apply Hq. rewrite E. by apply list_elem_of_fmap_2.
Qed.

Lemma unmarshal_rebuild {M} (sp : StructProperties M) m ps acc fin rest R :
  tags_ok (order sp) → ps ⊆ order sp → rebuild m ps acc fin → small (concat (map (enc_field m) ps)) →
  (∀ fuel, (length rest ≤ fuel)%nat → unmarshalType fuel sp rest fin = R) →
  ∀ fuel, (length (concat (map (enc_field m) ps) ++ rest) ≤ fuel)%nat →
  unmarshalType fuel sp (concat (map (enc_field m) ps) ++ rest) acc = R.
Proof.
  intros [Hnd Hok] Hsub Hrb Hsm Hrest. induction Hrb as [acc|p ps acc fin He Hrb IH|p ps v acc acc' fin He Hv Hd Hrb IH];
    cbn [map concat] in *; intros fuel Hf; [by apply Hrest|apply small_app in Hsm as [Hs1 Hs2]..].
  - unfold enc_field at 1. rewrite He. unfold enc_field at 1 in Hf. rewrite He in Hf. apply IH; [set_solver|done..].
  - rewrite <- app_assoc in *. assert (p ∈ order sp) as Hin by set_solver.
    rewrite Forall_forall in Hok. specialize (Hok p Hin).
    assert (1 ≤ length (enc_field m p))%nat as Hl.
    { unfold enc_field. rewrite He, length_app. unfold tagcode. pose proof (EncodeVarint_nonempty (Z.lor (Z.shiftl (Tag p) 3) (WireType p))). lia. }
    rewrite length_app in Hf. destruct fuel as [|fuel]; [lia|].
    rewrite (unmarshal_field fuel sp p v m acc acc') by (try done; by apply find_tag).
    apply IH; [set_solver|done|done|lia].
Qed.

(** ** The interface of a message *)

Class Message (M : Type) := {
  properties : StructProperties M;
  Reset : M;
  typed : M → Prop          (** its values are of the Go types of the fields *)
}.

Definition Marshal {M} `{Message M} (m : M) : bytes := enc_struct properties m.
Definition Parse {M} `{Message M} (buf : bytes) : outcome M := Unmarshal properties buf Reset.

(** A oneof that is not set, or one field of it. *)
Definition oneof_rebuilds {M} (sp : StructProperties M) (m mid : M) : Prop :=
  oneofMarshaler sp m = [] ∧ mid = m ∨
  ∃ tag b, oneofMarshaler sp m = tagcode tag WireBytes ++ EncodeRawBytes b ∧ tag_ok tag WireBytes ∧
    find (fun p => Tag p =? tag) (order sp) = None ∧
    ∀ rest, oneofUnmarshaler sp tag WireBytes (EncodeRawBytes b ++ rest) mid = Some (Ok (m, rest)).

Class LawfulMessage (M : Type) `{Message M} := {
  message_tags : tags_ok (order (properties (M:=M)));
  message_rebuild (m : M) : typed m → small (Marshal m) →
    ∃ mid, rebuild m (order properties) Reset mid ∧ oneof_rebuilds properties m mid
}.

Lemma roundtrip {M} `{LawfulMessage M} (m : M) :
  typed m → small (Marshal m) → Parse (Marshal m) = Ok m.
Proof.
  intros Ht Hl. destruct (message_rebuild m Ht Hl) as (mid & Hrb & Ho).
  unfold Parse, Unmarshal, Marshal, enc_struct.
  unfold Marshal, enc_struct in Hl. apply small_app in Hl as [Hl _].
  eapply unmarshal_rebuild; [apply message_tags|done|exact Hrb|exact Hl| |done].
  intros fuel Hf. destruct Ho as [[-> ->]|(tag & b & E & Htag & Hfind & Hdec)]; [by destruct fuel|].
  rewrite E in *. rewrite length_app in Hf. pose proof (EncodeVarint_nonempty (Z.lor (Z.shiftl tag 3) WireBytes)) as Hne.
  unfold tagcode in Hf. destruct fuel as [|fuel]; [lia|]. rewrite unmarshal_tag by done.
  unfold on_tag. rewrite Hfind. specialize (Hdec []). rewrite app_nil_r in Hdec. rewrite Hdec.
  cbn [mbind outcome_bind]. by destruct fuel.
Qed.

(** ** The kinds of fields *)

Section kinds.
Context {M : Type} (m : M) (ps : list (Properties M)) (acc fin : M).

(** A field that is zero in [m] may be left out, when storing it changes nothing. *)
Lemma rb_field p v acc' :
  enc p m = None ∧ acc' = acc ∨ enc p m = Some v ∧ fits (WireType p) v ∧ dec p v acc = Ok acc' →
  rebuild m ps acc' fin → rebuild m (p :: ps) acc fin.
Proof. intros [[He ->]|(He & Hv & Hd)] Hr; [by apply rb_skip|by eapply rb_set]. Qed.

Lemma rb_int32 tag get set :
  is_int32 (get m) → set 0 acc = acc → rebuild m ps (set (get m) acc) fin →
  rebuild m (prop_int32 tag get set :: ps) acc fin.
Proof.
  intros Ht H0. apply (rb_field _ (PVarint (uint64 (get m)))). cbn [prop_int32 enc dec WireType].
  unfold enc_proto3_int32, dec_proto3_int32.
  destruct (Z.eqb_spec (get m) 0) as [->|]; [by left|]. right. split_and!; [done|..].
  - split; [done|]. rewrite uint64_mod. by apply Z.mod_pos_bound.
  - do 2 f_equal. rewrite uint64_mod. unfold int32_of, wrap. unfold is_int32 in Ht.
    change (2 ^ 64) with (2 ^ 32 * 2 ^ 32). rewrite Zplus_mod, Z.rem_mul_r by lia.
    rewrite <- Z.mul_comm. rewrite Z.mod_add, Z.mod_mod, <- Zplus_mod by lia.
    rewrite Z.mod_small by lia. lia.
Qed.

Lemma rb_int64 tag get set :
  is_int64 (get m) → set 0 acc = acc → rebuild m ps (set (get m) acc) fin →
  rebuild m (prop_int64 tag get set :: ps) acc fin.
Proof.
  intros Ht H0. apply (rb_field _ (PVarint (uint64 (get m)))). cbn [prop_int64 enc dec WireType].
  unfold enc_proto3_int64, dec_proto3_int64.
  destruct (Z.eqb_spec (get m) 0) as [->|]; [by left|]. right. split_and!; [done|..].
  - split; [done|]. rewrite uint64_mod. by apply Z.mod_pos_bound.
  - do 2 f_equal. rewrite uint64_mod. unfold int64_of, wrap. unfold is_int64 in Ht.
    rewrite Zplus_mod, Z.mod_mod, <- Zplus_mod by lia. rewrite Z.mod_small by lia. lia.
Qed.

Lemma rb_bool tag get set :
  set false acc = acc → rebuild m ps (set (get m) acc) fin → rebuild m (prop_bool tag get set :: ps) acc fin.
Proof.
  intros H0. apply (rb_field _ (PVarint 1)). cbn [prop_bool enc dec WireType].
  unfold enc_proto3_bool, dec_proto3_bool.
  destruct (get m); [right|by left]. split_and!; [done|split; [done|lia]|done].
Qed.

Lemma rb_double tag get set :
  valid64 (get m) = true → set (S754_zero false) acc = acc → rebuild m ps (set (get m) acc) fin →
  rebuild m (prop_double tag get set :: ps) acc fin.
Proof.
  intros Hv H0. apply (rb_field _ (PFixed64 (bits_of_float (get m)))). cbn [prop_double enc dec WireType].
  unfold enc_proto3_double, dec_proto3_double.
  pose proof (float_of_bits_of_float _ Hv) as Hf. destruct (Z.eqb_spec (bits_of_float (get m)) 0) as [E|].
  - left. split; [done|]. rewrite <- Hf, E. exact H0.
  - right. split_and!; [done|split; [done|by apply bits_range]|by rewrite Hf].
Qed.

Lemma rb_string tag get set :
  set ""%string acc = acc → rebuild m ps (set (get m) acc) fin → rebuild m (prop_string tag get set :: ps) acc fin.
Proof.
  intros H0. apply (rb_field _ (PBytes (to_bytes (get m)))). cbn [prop_string enc dec WireType].
  unfold enc_proto3_string, dec_proto3_string.
  case_bool_decide as E; [left; by rewrite E|]. right. split_and!; [done..|by rewrite to_string_to_bytes].
Qed.

Lemma rb_message {S} tag sp (reset : S) get set :
  get acc = None → set None acc = acc →
  match get m with None => True | Some s => Unmarshal sp (enc_struct sp s) reset = Ok s end →
  rebuild m ps (set (get m) acc) fin → rebuild m (prop_message tag sp reset get set :: ps) acc fin.
Proof.
  intros Hg H0 Hs. apply (rb_field _ (PBytes (default [] (enc_struct sp <$> get m)))). cbn [prop_message enc dec WireType].
  unfold enc_struct_message, dec_struct_message.
  destruct (get m) as [s|]; [right|by left]. split_and!; [done..|].
  cbn -[Unmarshal]. rewrite Hg. cbn -[Unmarshal]. by rewrite Hs.
Qed.
End kinds.

(** ** No input makes the decoder panic *)

(** An outcome that is no panic, and whose value satisfies [P]. *)
Definition safe {A} (P : A → Prop) (r : outcome A) : Prop :=
  match r with Ok a => P a | Err _ => True | Panic _ => False end.

Lemma safe_bind {A B} (P : A → Prop) (Q : B → Prop) r (f : A → outcome B) :
  safe P r → (∀ a, P a → safe Q (f a)) → safe Q (r ≫= f).
Proof. destruct r; simpl; auto. Qed.

Lemma safe_weaken {A} (P Q : A → Prop) r : safe P r → (∀ a, P a → Q a) → safe Q r.
Proof. destruct r; simpl; auto. Qed.

Definition shorter {A} (buf : bytes) (r : A * bytes) : Prop := (length (snd r) < length buf)%nat.

Lemma DecodeVarint_safe buf : safe (shorter buf) (DecodeVarint buf).
Proof.
  unfold DecodeVarint. generalize 0 at 2 as x. generalize 0 as sh. generalize 10%nat as k.
  intros k. revert buf. induction k as [|k IH]; intros buf sh x; [done|]. cbn [DecodeVarint_loop].
  destruct buf as [|b buf]; [done|]. destruct (byte_val b <? 128); [unfold shorter; cbn; lia|].
  eapply safe_weaken; [apply IH|]. unfold shorter. intros r Hr. cbn [length]. lia.
Qed.

Lemma DecodeFixed64_safe buf : safe (shorter buf) (DecodeFixed64 buf).
Proof.
  unfold DecodeFixed64. destruct (Nat.ltb_spec (length buf) 8); [done|]. unfold shorter. cbn [safe snd].
  rewrite length_drop. lia.
Qed.

Lemma DecodeFixed32_safe buf : safe (shorter buf) (DecodeFixed32 buf).
Proof.
  unfold DecodeFixed32. destruct (Nat.ltb_spec (length buf) 4); [done|]. unfold shorter. cbn [safe snd].
  rewrite length_drop. lia.
Qed.

Lemma DecodeRawBytes_safe buf : safe (shorter buf) (DecodeRawBytes buf).
Proof.
  unfold DecodeRawBytes. eapply safe_bind; [apply DecodeVarint_safe|]. intros [n rest] Hr. unfold shorter in *.
  cbn [snd] in *. cbv zeta. destruct (int64_of n <? 0); [done|].
  destruct (Z.of_nat (length rest) <? int64_of n); [done|]. cbn [safe snd]. rewrite length_drop. lia.
Qed.

(** A payload that the decoder of a wire type yields. *)
Definition payload_of (wireType : Z) (v : payload) : Prop :=
  match v with
  | PVarint _ => wireType = WireVarint
  | PFixed64 _ => wireType = WireFixed64
  | PBytes _ => wireType ≠ WireVarint ∧ wireType ≠ WireFixed64
  end.

Lemma dec_payload_safe wt buf : safe (fun r => payload_of wt (fst r) ∧ shorter buf r) (dec_payload wt buf).
Proof.
  unfold dec_payload. destruct (Z.eqb_spec wt WireVarint) as [->|Hv].
  { eapply safe_bind; [apply DecodeVarint_safe|]. intros [u rest] Hr. by split. }
  destruct (Z.eqb_spec wt WireFixed64) as [->|Hf].
  { eapply safe_bind; [apply DecodeFixed64_safe|]. intros [u rest] Hr. by split. }
  eapply safe_bind; [apply DecodeRawBytes_safe|]. intros [b rest] Hr. by repeat split.
Qed.

(** The rest of a buffer after an item of it was skipped; one more than its length is
    fuel enough. *)
Lemma skip_safe fuel st wire buf :
  (length buf < fuel)%nat → safe (fun rest => (length rest ≤ length buf)%nat) (skip fuel st wire buf).
Proof.
  revert wire buf. induction fuel as [|fuel IH]; intros wire buf Hl; [lia|]. cbn [skip].
  assert (∀ A (r : outcome (A * bytes)), safe (shorter buf) r →
    safe (fun rest => (length rest ≤ length buf)%nat) ('(_, buf) ← r; Ok buf)) as Hone.
  { intros A r Hr. eapply safe_bind; [exact Hr|]. intros [a rest]. unfold shorter. cbn [safe snd]. lia. }
  destruct (wire =? WireVarint); [apply Hone, DecodeVarint_safe|].
  destruct (wire =? WireFixed64); [apply Hone, DecodeFixed64_safe|].
  destruct (wire =? WireBytes); [apply Hone, DecodeRawBytes_safe|].
  destruct (wire =? WireFixed32); [apply Hone, DecodeFixed32_safe|].
  destruct (wire =? WireStartGroup); [|done]. assert (length buf < S fuel)%nat as Hn by lia.
  assert (length buf ≤ fuel)%nat as Hf by lia. clear Hl Hone. revert Hn Hf. generalize (S fuel) as n.
  intros n. revert buf. induction n as [|n IHn]; intros buf Hn Hf; [lia|]. cbn [skip_group].
  eapply safe_bind; [apply DecodeVarint_safe|]. intros [u rest] Hr. unfold shorter in Hr. cbn [snd] in Hr.
  cbv zeta. destruct (Z.land u 7 =? WireEndGroup); [cbn [safe]; lia|].
  eapply safe_bind; [apply IH; lia|]. intros rest' Hr'. cbn beta in Hr'.
  eapply safe_weaken; [apply IHn; lia|]. intros a Ha. cbn beta in *. lia.
Qed.

(** The decoders of a struct keep the types of its values. *)
Definition dec_safe {M} (P : M → Prop) (sp : StructProperties M) : Prop :=
  (∀ p v m, p ∈ order sp → payload_of (WireType p) v → P m → safe P (dec p v m)) ∧
  (∀ tag wire buf m r, P m → oneofUnmarshaler sp tag wire buf m = Some r →
     safe (fun mr => P (fst mr) ∧ (length (snd mr) ≤ length buf)%nat) r).

Lemma unmarshal_safe {M} (P : M → Prop) (sp : StructProperties M) :
  dec_safe P sp → ∀ fuel buf m, (length buf ≤ fuel)%nat → P m → safe P (unmarshalType fuel sp buf m).
Proof.
  intros [Hdec Hone] fuel. induction fuel as [|fuel IH]; intros buf m Hl Hm.
  { destruct buf; [done|simpl in Hl; lia]. }
  cbn [unmarshalType]. destruct buf as [|c buf]; [done|].
  eapply safe_bind; [apply DecodeVarint_safe|]. intros [u rest] Hr. unfold shorter in Hr. cbn [snd] in Hr.
  cbv zeta. destruct (Z.land u 7 =? WireEndGroup); [done|]. destruct (_ <=? 0); [done|].
  destruct (find _ (order sp)) as [p|] eqn:Hf.
  - destruct (negb _ && negb _); [done|]. eapply safe_bind; [apply dec_payload_safe|].
    intros [v rest'] [Hv Hr']. unfold shorter in Hr'. cbn [fst snd] in *.
    apply find_some in Hf as [Hin _]. eapply safe_bind; [apply Hdec; [by apply list_elem_of_In|done|done]|].
    intros m' Hm'. apply IH; [lia|done].
  - destruct (oneofUnmarshaler sp _ _ rest m) as [r|] eqn:Ho.
    + eapply safe_bind; [by eapply Hone|]. intros [m' rest'] [Hm' Hr']. cbn [fst snd] in *. apply IH; [lia|done].
    + eapply safe_bind; [by apply skip_safe; lia|]. intros rest' Hr'. cbn beta in Hr'. apply IH; [lia|done].
Qed.

(** The kinds of fields, for a predicate on the struct. *)
Section safe_kinds.
Context {M : Type} (P : M → Prop) (m : M).

Lemma safe_int32 tag get set v :
  (∀ z, is_int32 z → P (set z m)) → payload_of WireVarint v → safe P (dec (prop_int32 tag get set) v m).
Proof. intros H Hv. destruct v; [|done|by destruct Hv]. apply H, int32_range. Qed.

Lemma safe_int64 tag get set v :
  (∀ z, is_int64 z → P (set z m)) → payload_of WireVarint v → safe P (dec (prop_int64 tag get set) v m).
Proof. intros H Hv. destruct v; [|done|by destruct Hv]. apply H, int64_range. Qed.

Lemma safe_bool tag get set v :
  (∀ b, P (set b m)) → payload_of WireVarint v → safe P (dec (prop_bool tag get set) v m).
Proof. intros H Hv. destruct v; [|done|by destruct Hv]. apply H. Qed.

Lemma safe_double tag get set v :
  (∀ f, valid64 f = true → P (set f m)) → payload_of WireFixed64 v → safe P (dec (prop_double tag get set) v m).
Proof. intros H Hv. destruct v; [done| |by destruct Hv]. apply H, float_of_bits_valid. Qed.

Lemma safe_string tag get set v :
  (∀ s, P (set s m)) → payload_of WireBytes v → safe P (dec (prop_string tag get set) v m).
Proof. intros H Hv. destruct v; [done|done|]. apply H. Qed.

Lemma safe_message {S} (PS : S → Prop) tag (sp : StructProperties S) reset get set v :
  dec_safe PS sp → PS (default reset (get m)) → (∀ s, PS s → P (set (Some s) m)) → payload_of WireBytes v →
  safe P (dec (prop_message tag sp reset get set) v m).
Proof.
  intros Hd Hr Hset Hv. destruct v as [| |b]; [done|done|]. cbn [prop_message dec dec_struct_message].
  eapply safe_bind; [by apply unmarshal_safe|]. intros s Hs. by apply Hset.
Qed.
End safe_kinds.
