(* ===== verification/Wire.v ===== *)
(** * The messages on the wire (executor/pb, scheduler/pb)

    The fields of each generated struct by their protobuf tags, the generated functions of
    the oneof of [LoadTestResp], and the instances that make each of them a lawful
    message. *)
From Stdlib Require Import ZArith Lia Ascii.
From stdpp Require Import base option list strings.
From S2P Require Import Prelude GoNum FloatFacts GoFmt Strconv Messages Proto ProtoFacts.
From Stdlib Require Import SpecFloat.

Definition zero64 : float64 := S754_zero false.

(** ** executor/pb *)

Definition StatusMessage_properties : StructProperties StatusMessage :=
  mkStruct "executor.StatusMessage" [prop_string 1 Status (fun s _ => mkStatusMessage s)]
    no_oneof_marshal no_oneof_unmarshal.

#[export] Instance StatusMessage_message : Message StatusMessage :=
  {| properties := StatusMessage_properties; Reset := mkStatusMessage ""; typed _ := True |}.

Definition ScriptParams_properties : StructProperties ScriptParams :=
  mkStruct "executor.ScriptParams"
    [prop_string 1 Url (fun v '(mkScriptParams _ b c d e f g h i) => mkScriptParams v b c d e f g h i);
     prop_string 2 Script (fun v '(mkScriptParams a _ c d e f g h i) => mkScriptParams a v c d e f g h i);
     prop_string 3 ScriptId (fun v '(mkScriptParams a b _ d e f g h i) => mkScriptParams a b v d e f g h i);
     prop_int32 4 RunTime (fun v '(mkScriptParams a b c _ e f g h i) => mkScriptParams a b c v e f g h i);
     prop_int32 6 MaxWorkers (fun v '(mkScriptParams a b c d _ f g h i) => mkScriptParams a b c d v f g h i);
     prop_double 8 GrowthFactor (fun v '(mkScriptParams a b c d e _ g h i) => mkScriptParams a b c d e v g h i);
     prop_double 9 TimeBetweenGrowth (fun v '(mkScriptParams a b c d e f _ h i) => mkScriptParams a b c d e f v h i);
     prop_int32 10 StartingRequestsPerSecond
       (fun v '(mkScriptParams a b c d e f g _ i) => mkScriptParams a b c d e f g v i);
     prop_int32 11 MaxRequestsPerSecond
       (fun v '(mkScriptParams a b c d e f g h _) => mkScriptParams a b c d e f g h v)]
    no_oneof_marshal no_oneof_unmarshal.

#[export] Instance ScriptParams_message : Message ScriptParams :=
  {| properties := ScriptParams_properties;
     Reset := mkScriptParams "" "" "" 0 0 zero64 zero64 0 0; typed := params_typed |}.

Definition CommandMessage_ScriptParams : Properties CommandMessage :=
  prop_message 2 ScriptParams_properties Reset CmdScriptParams
    (fun v '(mkCommandMessage a _ c) => mkCommandMessage a v c).

Definition CommandMessage_properties : StructProperties CommandMessage :=
  mkStruct "executor.CommandMessage"
    [prop_string 1 Command (fun v '(mkCommandMessage _ b c) => mkCommandMessage v b c);
     CommandMessage_ScriptParams;
     prop_string 3 ScriptConfig (fun v '(mkCommandMessage a b _) => mkCommandMessage a b v)]
    no_oneof_marshal no_oneof_unmarshal.

#[export] Instance CommandMessage_message : Message CommandMessage :=
  {| properties := CommandMessage_properties; Reset := mkCommandMessage "" None "";
     typed m := match CmdScriptParams m with Some p => params_typed p | None => True end |}.

(** ** scheduler/pb *)

Definition LoadTestReq_properties : StructProperties LoadTestReq :=
  mkStruct "scheduler.LoadTestReq"
    [prop_string 1 lt_Url (fun v '(mkLoadTestReq _ b c d e f g h i) => mkLoadTestReq v b c d e f g h i);
     prop_string 2 lt_Script (fun v '(mkLoadTestReq a _ c d e f g h i) => mkLoadTestReq a v c d e f g h i);
     prop_string 3 lt_ScriptName (fun v '(mkLoadTestReq a b _ d e f g h i) => mkLoadTestReq a b v d e f g h i);
     prop_int32 4 lt_RunTime (fun v '(mkLoadTestReq a b c _ e f g h i) => mkLoadTestReq a b c v e f g h i);
     prop_double 8 lt_GrowthFactor (fun v '(mkLoadTestReq a b c d _ f g h i) => mkLoadTestReq a b c d v f g h i);
     prop_double 9 lt_TimeBetweenGrowth (fun v '(mkLoadTestReq a b c d e _ g h i) => mkLoadTestReq a b c d e v g h i);
     prop_int32 10 lt_StartingRequestsPerSecond
       (fun v '(mkLoadTestReq a b c d e f _ h i) => mkLoadTestReq a b c d e f v h i);
     prop_int32 11 lt_MaxRequestsPerSecond (fun v '(mkLoadTestReq a b c d e f g _ i) => mkLoadTestReq a b c d e f g v i);
     prop_string 12 lt_ScriptConfig (fun v '(mkLoadTestReq a b c d e f g h _) => mkLoadTestReq a b c d e f g h v)]
    no_oneof_marshal no_oneof_unmarshal.

#[export] Instance LoadTestReq_message : Message LoadTestReq :=
  {| properties := LoadTestReq_properties;
     Reset := mkLoadTestReq "" "" "" 0 zero64 zero64 0 0 ""; typed := req_typed |}.

Definition RegisterExecutorReq_properties : StructProperties RegisterExecutorReq :=
  mkStruct "scheduler.RegisterExecutorReq"
    [prop_int64 1 DropletId (fun v '(mkRegisterExecutorReq _ b) => mkRegisterExecutorReq v b);
     prop_int64 2 Port (fun v '(mkRegisterExecutorReq a _) => mkRegisterExecutorReq a v)]
    no_oneof_marshal no_oneof_unmarshal.

#[export] Instance RegisterExecutorReq_message : Message RegisterExecutorReq :=
  {| properties := RegisterExecutorReq_properties; Reset := mkRegisterExecutorReq 0 0;
     typed m := is_int64 (DropletId m) ∧ is_int64 (Port m) |}.

Definition RegisterExecutorResp_properties : StructProperties RegisterExecutorResp :=
  mkStruct "scheduler.RegisterExecutorResp"
    [prop_string 1 InfluxAddr (fun v '(mkRegisterExecutorResp _ b c d e) => mkRegisterExecutorResp v b c d e);
     prop_string 2 InfluxUsername (fun v '(mkRegisterExecutorResp a _ c d e) => mkRegisterExecutorResp a v c d e);
     prop_string 3 InfluxPassword (fun v '(mkRegisterExecutorResp a b _ d e) => mkRegisterExecutorResp a b v d e);
     prop_string 4 InfluxDb (fun v '(mkRegisterExecutorResp a b c _ e) => mkRegisterExecutorResp a b c v e);
     prop_bool 5 InfluxSsl (fun v '(mkRegisterExecutorResp a b c d _) => mkRegisterExecutorResp a b c d v)]
    no_oneof_marshal no_oneof_unmarshal.

#[export] Instance RegisterExecutorResp_message : Message RegisterExecutorResp :=
  {| properties := RegisterExecutorResp_properties; Reset := mkRegisterExecutorResp "" "" "" "" false; typed _ := True |}.

(** *** The oneof of [LoadTestResp]: its fields are messages *)

Definition Preparing_properties : StructProperties Z :=
  mkStruct "scheduler.LoadTestResp_Preparing" [prop_int32 1 (fun c => c) (fun v _ => v)] no_oneof_marshal no_oneof_unmarshal.
Definition Empty_properties (name : string) : StructProperties unit := mkStruct name [] no_oneof_marshal no_oneof_unmarshal.
Definition Errored_properties : StructProperties string :=
  mkStruct "scheduler.LoadTestResp_Errored" [prop_string 1 (fun e => e) (fun v _ => v)] no_oneof_marshal no_oneof_unmarshal.

(** [EncodeMessage] after the tag. *)
Definition oneof_field {S} (tag : Z) (sp : StructProperties S) (s : S) : bytes :=
  tagcode tag WireBytes ++ EncodeRawBytes (enc_struct sp s).

Definition LoadTestResp_OneofMarshaler (m : LoadTestResp) : bytes :=
  match Phase m with
  | Some (LoadTestResp_Preparing c) => oneof_field 1 Preparing_properties c
  | Some LoadTestResp_Started => oneof_field 2 (Empty_properties "scheduler.LoadTestResp_Started") tt
  | Some LoadTestResp_Finished => oneof_field 3 (Empty_properties "scheduler.LoadTestResp_Finished") tt
  | Some (LoadTestResp_Errored e) => oneof_field 4 Errored_properties e
  | None => []
  end.

Definition ErrInternalBadWireType : error := Errorf "bad wiretype for oneof field in *scheduler.LoadTestResp".

Definition oneof_case {S} (sp : StructProperties S) (reset : S) (phase : S → LoadTestResp_Phase) (wire : Z) (buf : bytes)
    : option (outcome (LoadTestResp * bytes)) :=
  Some (if negb (wire =? WireBytes) then Err ErrInternalBadWireType
        else '(msg, buf) ← DecodeMessage sp reset buf; Ok (mkLoadTestResp (Some (phase msg)), buf)).

Definition LoadTestResp_OneofUnmarshaler (tag wire : Z) (buf : bytes) (m : LoadTestResp)
    : option (outcome (LoadTestResp * bytes)) :=
  if tag =? 1 then oneof_case Preparing_properties 0 LoadTestResp_Preparing wire buf
  else if tag =? 2 then
    oneof_case (Empty_properties "scheduler.LoadTestResp_Started") tt (fun _ => LoadTestResp_Started) wire buf
  else if tag =? 3 then
    oneof_case (Empty_properties "scheduler.LoadTestResp_Finished") tt (fun _ => LoadTestResp_Finished) wire buf
  else if tag =? 4 then oneof_case Errored_properties ""%string LoadTestResp_Errored wire buf
  else None.

Definition LoadTestResp_properties : StructProperties LoadTestResp :=
  mkStruct "scheduler.LoadTestResp" [] LoadTestResp_OneofMarshaler LoadTestResp_OneofUnmarshaler.

#[export] Instance LoadTestResp_message : Message LoadTestResp :=
  {| properties := LoadTestResp_properties; Reset := mkLoadTestResp None;
     typed m := match Phase m with Some (LoadTestResp_Preparing c) => is_int32 c | _ => True end |}.

(** ** The laws *)

Ltac tags := split; [repeat constructor; set_solver|repeat constructor; by vm_compute].

Lemma no_oneof_rebuilds {M} (sp : StructProperties M) m :
  oneofMarshaler sp = no_oneof_marshal → oneof_rebuilds sp m m.
Proof. intros H. left. by rewrite H. Qed.

#[export] Instance StatusMessage_lawful : LawfulMessage StatusMessage.
Proof.
  split; [tags|]. intros [s] _ _. eexists. split; [|by apply no_oneof_rebuilds]. simpl.
  apply rb_string; [done|]. simpl. constructor.
Qed.

#[export] Instance ScriptParams_lawful : LawfulMessage ScriptParams.
Proof.
  split; [tags|]. intros [a b c d e f g h i] (Hd & He & Hh & Hi & Hf & Hg) _. eexists.
  split; [|by apply no_oneof_rebuilds]. simpl in *.
  do 3 (apply rb_string; [done|]; simpl). do 2 (apply rb_int32; [done|done|]; simpl).
  do 2 (apply rb_double; [done|done|]; simpl). do 2 (apply rb_int32; [done|done|]; simpl). constructor.
Qed.

(** The bytes of one field are as small as the whole message. *)
Lemma small_field {M} (sp : StructProperties M) m p : small (enc_struct sp m) → p ∈ order sp → small (enc_field m p).
Proof.
  intros [Hs _]%small_app Hin. induction (order sp) as [|q ps IH]; [by apply elem_of_nil in Hin|].
  simpl in Hs. apply small_app in Hs as [H1 H2]. apply elem_of_cons in Hin as [->|Hin]; [done|by apply IH].
Qed.

Lemma small_embedded {S} tag (sp : StructProperties S) (s : S) :
  small (tagcode tag WireBytes ++ EncodeRawBytes (enc_struct sp s)) → small (enc_struct sp s).
Proof. by intros [_ ?%small_raw]%small_app. Qed.

#[export] Instance CommandMessage_lawful : LawfulMessage CommandMessage.
Proof.
  split; [tags|]. intros [a p c] Ht Hs. eexists. split; [|by apply no_oneof_rebuilds].
  assert (match p with None => True | Some s => Unmarshal ScriptParams_properties (enc_struct ScriptParams_properties s) Reset = Ok s end) as Hp.
  { destruct p as [p|]; [|done]. cbn in Ht. change (Parse (Marshal p) = Ok p).
    apply roundtrip; [exact Ht|]. apply (small_embedded 2 ScriptParams_properties).
    assert (CommandMessage_ScriptParams ∈ order CommandMessage_properties) as Hin by (right; left).
    exact (small_field CommandMessage_properties (mkCommandMessage a (Some p) c) _ Hs Hin). }
  cbn [order properties CommandMessage_message CommandMessage_properties Reset].
  apply rb_string; [done|]. apply rb_message; [done|done|exact Hp|]. apply rb_string; [done|]. constructor.
Qed.

#[export] Instance LoadTestReq_lawful : LawfulMessage LoadTestReq.
Proof.
  split; [tags|]. intros [a b c d e f g h i] (Hd & Hg & Hh & He & Hf) _. eexists.
  split; [|by apply no_oneof_rebuilds]. simpl in *.
  do 3 (apply rb_string; [done|]; simpl). apply rb_int32; [done|done|]; simpl.
  do 2 (apply rb_double; [done|done|]; simpl). do 2 (apply rb_int32; [done|done|]; simpl).
  apply rb_string; [done|]. constructor.
Qed.

#[export] Instance RegisterExecutorReq_lawful : LawfulMessage RegisterExecutorReq.
Proof.
  split; [tags|]. intros [d p] [Hd Hp] _. eexists. split; [|by apply no_oneof_rebuilds]. simpl in *.
  do 2 (apply rb_int64; [done|done|]; simpl). constructor.
Qed.

#[export] Instance RegisterExecutorResp_lawful : LawfulMessage RegisterExecutorResp.
Proof.
  split; [tags|]. intros [a b c d e] _ _. eexists. split; [|by apply no_oneof_rebuilds]. simpl.
  do 4 (apply rb_string; [done|]; simpl). apply rb_bool; [done|]. constructor.
Qed.

(** The messages of the oneof. *)
#[local] Instance Preparing_message : Message Z := {| properties := Preparing_properties; Reset := 0; typed := is_int32 |}.
#[local] Instance Errored_message : Message string :=
  {| properties := Errored_properties; Reset := ""%string; typed _ := True |}.

#[local] Instance Preparing_lawful : LawfulMessage Z.
Proof.
  split; [tags|]. intros c Hc _. eexists. split; [|by apply no_oneof_rebuilds]. simpl.
  apply rb_int32; [done|done|]. constructor.
Qed.

#[local] Instance Errored_lawful : LawfulMessage string.
Proof.
  split; [tags|]. intros c Hc _. eexists. split; [|by apply no_oneof_rebuilds]. simpl.
  apply rb_string; [done|]. constructor.
Qed.

Lemma DecodeMessage_raw {S} (sp : StructProperties S) reset s rest :
  small (enc_struct sp s) → Unmarshal sp (enc_struct sp s) reset = Ok s →
  DecodeMessage sp reset (EncodeRawBytes (enc_struct sp s) ++ rest) = Ok (s, rest).
Proof.
  intros Hs Hu. unfold DecodeMessage. rewrite DecodeRawBytes_EncodeRawBytes by done.
  cbn [mbind outcome_bind]. by rewrite Hu.
Qed.

Lemma oneof_case_raw {S} (sp : StructProperties S) reset phase s rest :
  small (enc_struct sp s) → Unmarshal sp (enc_struct sp s) reset = Ok s →
  oneof_case sp reset phase WireBytes (EncodeRawBytes (enc_struct sp s) ++ rest) =
    Some (Ok (mkLoadTestResp (Some (phase s)), rest)).
Proof. intros Hs Hu. unfold oneof_case. cbn [negb Z.eqb]. rewrite DecodeMessage_raw by done. done. Qed.

#[export] Instance LoadTestResp_lawful : LawfulMessage LoadTestResp.
Proof.
  split; [tags|]. intros [ph] Ht Hs. exists (mkLoadTestResp None). split; [constructor|].
  destruct ph as [[c| | |e]|]; [right..|by left];
    (eexists _, _; split; [reflexivity|split; [by vm_compute|split; [done|]]]); intros rest;
    apply small_embedded in Hs.
  - apply (oneof_case_raw Preparing_properties 0 LoadTestResp_Preparing); [done|].
    change (Parse (Marshal c) = Ok c). by apply roundtrip.
  - by apply (oneof_case_raw (Empty_properties _) tt).
  - by apply (oneof_case_raw (Empty_properties _) tt).
  - apply (oneof_case_raw Errored_properties ""%string LoadTestResp_Errored); [done|].
    change (Parse (Marshal e) = Ok e). by apply roundtrip.
Qed.

(** ** Decoding keeps the types *)

(** The fields of a struct, one by one. *)
Ltac each_field :=
  split; [|by intros * _ ?];
  intros p v m Hin; repeat (apply elem_of_cons in Hin as [->|Hin]);
  [..|by apply elem_of_nil in Hin]; destruct m; intros Hv Hm.

(** A field by its kind; the values it can store are typed. *)
Ltac field_safe :=
  match goal with
  | |- safe _ (dec (prop_string _ _ _) _ _) => apply safe_string
  | |- safe _ (dec (prop_int32 _ _ _) _ _) => apply safe_int32
  | |- safe _ (dec (prop_int64 _ _ _) _ _) => apply safe_int64
  | |- safe _ (dec (prop_bool _ _ _) _ _) => apply safe_bool
  | |- safe _ (dec (prop_double _ _ _) _ _) => apply safe_double
  end; [intros; cbn in *; tauto|assumption].

Lemma StatusMessage_safe : dec_safe typed (properties (M:=StatusMessage)).
Proof. each_field; field_safe. Qed.

Lemma ScriptParams_safe : dec_safe params_typed ScriptParams_properties.
Proof. each_field; unfold params_typed in *; field_safe. Qed.

Lemma CommandMessage_safe : dec_safe typed (properties (M:=CommandMessage)).
Proof.
  each_field; [field_safe| |field_safe].
  apply (safe_message typed _ params_typed); [exact ScriptParams_safe| |done|exact Hv].
  cbn in *. destruct CmdScriptParams; [exact Hm|]. by repeat split.
Qed.

Lemma LoadTestReq_safe : dec_safe typed (properties (M:=LoadTestReq)).
Proof. each_field; cbn in Hm; unfold req_typed in *; cbn [typed LoadTestReq_message]; unfold req_typed; field_safe. Qed.

Lemma RegisterExecutorReq_safe : dec_safe typed (properties (M:=RegisterExecutorReq)).
Proof. each_field; field_safe. Qed.

Lemma RegisterExecutorResp_safe : dec_safe typed (properties (M:=RegisterExecutorResp)).
Proof. each_field; field_safe. Qed.

Lemma oneof_case_safe {S} (PS : S → Prop) sp (reset : S) phase wire buf r :
  dec_safe PS sp → PS reset → (∀ s, PS s → typed (mkLoadTestResp (Some (phase s)))) →
  oneof_case sp reset phase wire buf = Some r →
  safe (fun mr => typed (fst mr) ∧ (length (snd mr) ≤ length buf)%nat) r.
Proof.
  intros Hd Hr Hp [= <-]. destruct (negb _); [done|]. unfold DecodeMessage.
  eapply (safe_bind (fun sr => PS (fst sr) ∧ (length (snd sr) < length buf)%nat)).
  - eapply safe_bind; [apply DecodeRawBytes_safe|]. intros [raw rest] Hl. unfold shorter in Hl.
    eapply safe_bind; [by apply unmarshal_safe|]. intros s Hs. by split.
  - intros [s rest] [Hs Hl]. cbn [safe fst snd] in *. split; [by apply Hp|lia].
Qed.

Lemma LoadTestResp_safe : dec_safe typed (properties (M:=LoadTestResp)).
Proof.
  split; [intros p v m Hin; by apply elem_of_nil in Hin|].
  intros tag wire buf m r Hm. cbn [properties LoadTestResp_message LoadTestResp_properties oneofUnmarshaler].
  unfold LoadTestResp_OneofUnmarshaler. repeat case_match; try done;
    [apply (oneof_case_safe is_int32)|apply (oneof_case_safe (fun _ => True))..]; try done;
    (split; [|by intros * _ ?]); intros p v m' Hin; repeat (apply elem_of_cons in Hin as [->|Hin]);
    try (by apply elem_of_nil in Hin); intros Hv Hm'; field_safe.
Qed.

(** ** Properties *)

(** C11: every message of the two services whose values are of their Go types is read back
    from the wire as it was written, embedded parameters, unset fields, signs and the
    bits of floats included. *)
Theorem messages_roundtrip :
  (∀ m : CommandMessage, typed m → small (Marshal m) → Parse (Marshal m) = Ok m) ∧
  (∀ m : StatusMessage, typed m → small (Marshal m) → Parse (Marshal m) = Ok m) ∧
  (∀ m : LoadTestReq, typed m → small (Marshal m) → Parse (Marshal m) = Ok m) ∧
  (∀ m : LoadTestResp, typed m → small (Marshal m) → Parse (Marshal m) = Ok m) ∧
  (∀ m : RegisterExecutorReq, typed m → small (Marshal m) → Parse (Marshal m) = Ok m) ∧
  (∀ m : RegisterExecutorResp, typed m → small (Marshal m) → Parse (Marshal m) = Ok m).
Proof. split_and!; intros m; apply roundtrip. Qed.

(** C12: whatever bytes arrive, decoding a message ends without a panic and within the
    bytes of the buffer, and the values of a decoded message are of their Go types: the
    integers are 32- or 64-bit, the floats valid. *)
Theorem decoding_safe (buf : bytes) :
  safe (typed (M:=CommandMessage)) (Parse buf) ∧ safe (typed (M:=StatusMessage)) (Parse buf) ∧
  safe (typed (M:=LoadTestReq)) (Parse buf) ∧ safe (typed (M:=LoadTestResp)) (Parse buf) ∧
  safe (typed (M:=RegisterExecutorReq)) (Parse buf) ∧ safe (typed (M:=RegisterExecutorResp)) (Parse buf).
Proof.
  unfold Parse, Unmarshal.
  split_and!; (apply unmarshal_safe; [|done|by repeat split]).
  - apply CommandMessage_safe.
  - apply StatusMessage_safe.
  - apply LoadTestReq_safe.
  - apply LoadTestResp_safe.
  - apply RegisterExecutorReq_safe.
  - apply RegisterExecutorResp_safe.
Qed.

(** The bytes of a Run command, and what is read back when a field with an unknown tag
    follows. *)
Example wire_examples :
  map byte_val (Marshal (mkCommandMessage "Run" (Some (mkScriptParams "" "" "" 60 0 (float_lit 3 2) zero64 (-1) 0)) "")) =
    [10; 3; 82; 117; 110; 18; 22; 32; 60; 65; 0; 0; 0; 0; 0; 0; 248; 63; 80; 255; 255; 255; 255; 255; 255; 255; 255; 255; 1] ∧
  Parse (Marshal (mkStatusMessage "OK") ++ [uint8 120; uint8 5]) = Ok (mkStatusMessage "OK").
Proof. split; by vm_compute. Qed.
