(* ===== verification/Grpc.v ===== *)
(** * Messages on a stream (Godeps .../grpc, rpc_util.go, stream.go and server.go)

    The framing of gRPC messages, the parser that reads them back from whatever pieces the
    transport's reads return, and what a server does with a unary call.  Compression
    and tracing are left out. *)
From Stdlib Require Import ZArith Lia Ascii.
From stdpp Require Import base option list strings.
From S2P Require Import Prelude GoNum FloatFacts GoFmt Strconv Messages Flow Transfer Proto ProtoFacts Wire.

(** ** Codes *)

Definition OK : Z := 0.
Definition Canceled : Z := 1.
Definition Unknown : Z := 2.
Definition InvalidArgument : Z := 3.
Definition DeadlineExceeded : Z := 4.
Definition NotFound : Z := 5.
Definition AlreadyExists : Z := 6.
Definition PermissionDenied : Z := 7.
Definition FailedPrecondition : Z := 9.
Definition OutOfRange : Z := 11.
Definition Internal : Z := 13.

(** The errors that [convertCode] tells apart. *)
Inductive appError :=
  | IoEOF | IoUnexpectedEOF | IoClosedPipe | IoNoProgress | IoShortBuffer | IoShortWrite
  | OsInvalid | OsExist (e : error) | OsNotExist (e : error) | OsPermission (e : error)
  | CtxCanceled | CtxDeadlineExceeded
  | AppError (e : error).

Definition convertCode (err : option appError) : Z :=
  match err with
  | None => OK
  | Some IoEOF => OutOfRange
  | Some (IoClosedPipe | IoNoProgress | IoShortBuffer | IoShortWrite | IoUnexpectedEOF) => FailedPrecondition
  | Some OsInvalid => InvalidArgument
  | Some CtxCanceled => Canceled
  | Some CtxDeadlineExceeded => DeadlineExceeded
  | Some (OsExist _) => AlreadyExists
  | Some (OsNotExist _) => NotFound
  | Some (OsPermission _) => PermissionDenied
  | Some (AppError _) => Unknown
  end.

Definition app_text (err : appError) : string :=
  match err with
  | IoEOF => "EOF" | IoUnexpectedEOF => "unexpected EOF" | IoClosedPipe => "io: read/write on closed pipe"
  | IoNoProgress => "multiple Read calls return no data or error" | IoShortBuffer => "short buffer"
  | IoShortWrite => "short write" | OsInvalid => "invalid argument"
  | OsExist e | OsNotExist e | OsPermission e | AppError e => Error e
  | CtxCanceled => "context canceled" | CtxDeadlineExceeded => "context deadline exceeded"
  end.

(** What a handler returns: an [rpcError] or another one. *)
Inductive handlerError := HRpc (code : Z) (desc : string) | HError (e : appError).

(** ** Framing *)

(** [binary.BigEndian]. *)
Definition PutUint32 (x : Z) : bytes :=
  [uint8 (Z.shiftr x 24); uint8 (Z.shiftr x 16); uint8 (Z.shiftr x 8); uint8 x].

Definition Uint32 (b : bytes) : Z := foldl (fun acc c => Z.lor (Z.shiftl acc 8) (byte_val c)) 0 (take 4 b).

Definition MaxUint32 : Z := 2 ^ 32 - 1.

(** [encode] of a message that marshals to [b]; [None] for a nil message. *)
Definition encode (b : option bytes) (pf : Z) : bytes + rerror :=
  let b := default [] b in
  let length := Z.of_nat (length b) in
  if MaxUint32 <? length
  then inr (rpcError InvalidArgument ("grpc: message too large (" +:+ fmt_d length +:+ " bytes)"))
  else inl (uint8 pf :: PutUint32 length ++ b).

(** ** Reading messages

    [rs] are the results that the stream's [Read] will give, one after the other.  A call
    that needs more of them blocks, asking for so many bytes. *)
Inductive progress (A : Type) :=
  | Done (a : A) (rs : list (bytes + rerror))
  | Failed (e : rerror) (rs : list (bytes + rerror))
  | Blocked (k : nat).
Arguments Done {A} _ _.
Arguments Failed {A} _ _.
Arguments Blocked {A} _.

(** [io.ReadFull] of [n] bytes, [got] of which have been read. *)
Fixpoint ReadFull (n : nat) (got : bytes) (rs : list (bytes + rerror)) : progress bytes :=
  if (n <=? length got)%nat then Done got rs else
  match rs with
  | [] => Blocked (n - length got)
  | inr e :: rs =>
      match e, got with
      | EOF, _ :: _ => Failed UnexpectedEOF rs
      | _, _ => Failed e rs
      end
  | inl p :: rs => ReadFull n (got ++ p) rs
  end.

(** The parser's [recvMsg]: the payload format and the message. *)
Definition recvMsg (rs : list (bytes + rerror)) : progress (Z * bytes) :=
  match ReadFull 5 [] rs with
  | Blocked k => Blocked k
  | Failed e rs => Failed e rs
  | Done buf rs =>
      let pf := byte_val (hd zero buf) in
      let length := Uint32 (drop 1 buf) in
      if length =? 0 then Done (pf, []) rs else
      match ReadFull (Z.to_nat length) [] rs with
      | Blocked k => Blocked k
      | Failed e rs => Failed (match e with EOF => UnexpectedEOF | _ => e end) rs
      | Done msg rs => Done (pf, msg) rs
      end
  end.

(** [recv] of a message of type [M] from what the parser has read. *)
Definition decode {M} `{Message M} (m : Z * bytes) : outcome (M + rerror) :=
  let '(pf, d) := m in
  if pf =? 0 then
    match Parse d with
    | Ok v => Ok (inl v)
    | Err e => Ok (inr (rpcError Internal ("grpc: " +:+ Error e)))
    | Panic p => Panic p
    end
  else Ok (inr (rpcError Internal "gprc: compression is not supported yet.")).

(** A handler that receives until an error: the frames that it has got, and how it goes on:
    blocked in a read, or at its end.  Each round takes a read, so their number is fuel. *)
Inductive status := Asking (k : nat) | Ended (e : rerror).

Fixpoint recvMsgs (fuel : nat) (rs : list (bytes + rerror)) : list (Z * bytes) * status :=
  match recvMsg rs with
  | Blocked k => ([], Asking k)
  | Failed e _ => ([], Ended e)
  | Done m rs =>
      match fuel with
      | O => ([m], Asking 0)
      | S fuel => let '(ms, st) := recvMsgs fuel rs in (m :: ms, st)
      end
  end.

Definition serve (rs : list (bytes + rerror)) : list (Z * bytes) * status := recvMsgs (length rs) rs.

(** ** A unary call at the server *)

Inductive unary_effect := EWrite (data : bytes) | EWriteStatus (code : Z) (desc : string).

(** [processUnaryRPC] from the result of [recvMsg]; [Handler] is the generated handler with
    the service behind it, given the bytes of the request; the writes are assumed to succeed.
    [Ok []] for a call that ends without a word. *)
Definition processUnaryRPC (Handler : bytes → bytes + handlerError) (r : (Z * bytes) + rerror) : outcome (list unary_effect) :=
  match r with
  | inr EOF => Ok []
  | inr (ConnectionError _) => Ok []
  | inr (StreamError code desc) => Ok [EWriteStatus code desc]
  | inr UnexpectedEOF => Panic "grpc: Unexpected error (*errors.errorString) from recvMsg: unexpected EOF"
  | inr (rpcError _ _) => Panic "grpc: Unexpected error (grpc.rpcError) from recvMsg"
  | inl (pf, req) =>
      if pf =? 0 then
        match Handler req with
        | inr (HRpc code desc) => Ok [EWriteStatus code desc]
        | inr (HError e) => Ok [EWriteStatus (convertCode (Some e)) (app_text e)]
        | inl reply =>
            match encode (Some reply) 0 with
            | inl p => Ok [EWrite p; EWriteStatus OK ""]
            | inr _ => Panic "grpc: Server failed to encode response"
            end
        end
      else Panic ("payload format to be supported: " +:+ fmt_d pf)
  end.
