(* ===== verification/GrpcFacts.v ===== *)
(** * Facts on the framing of messages

    The parser as a machine that is fed one read at a time, its agreement with the loops of
    Grpc.v, and the frames that it finds in any pieces of a sequence of frames. *)
From Stdlib Require Import ZArith Lia Ascii.
From stdpp Require Import base option list strings.
From S2P Require Import Prelude GoNum FloatFacts GoFmt Strconv Flow Transfer TransferProps Proto Grpc.

(** ** Big-endian words *)

Lemma uint8_byte_val c : uint8 (byte_val c) = c.
Proof.
  unfold uint8, byte_val. change 255 with (Z.ones 8). rewrite Z.land_ones by lia. change (2 ^ 8) with 256.
  pose proof (N_ascii_bounded c). rewrite Z.mod_small by lia. by rewrite N2Z.id, ascii_N_embedding.
Qed.

Lemma be_step a c : 0 ≤ byte_val c < 256 → Z.lor (Z.shiftl a 8) (byte_val c) = a * 256 + byte_val c.
Proof. intros. rewrite Z.lor_comm, lor_shiftl_add by lia. change (2 ^ 8) with 256. lia. Qed.

Lemma Uint32_four c0 c1 c2 c3 rest :
  Uint32 (c0 :: c1 :: c2 :: c3 :: rest) =
  ((byte_val c0 * 256 + byte_val c1) * 256 + byte_val c2) * 256 + byte_val c3.
Proof.
  pose proof (byte_val_range c0). pose proof (byte_val_range c1). pose proof (byte_val_range c2). pose proof (byte_val_range c3).
  unfold Uint32. cbn [take foldl]. rewrite !be_step by done. destruct rest; cbn [take foldl]; lia.
Qed.

Lemma Uint32_PutUint32 x rest : 0 ≤ x < 2 ^ 32 → Uint32 (PutUint32 x ++ rest) = x.
Proof.
  intros Hx. unfold PutUint32. cbn [app]. rewrite Uint32_four, !byte_val_uint8, !Z.shiftr_div_pow2 by lia.
  change (2 ^ 24) with 16777216. change (2 ^ 16) with 65536. change (2 ^ 8) with 256. change (2 ^ 32) with 4294967296 in Hx.
  div_lia.
Qed.

Lemma PutUint32_Uint32 c0 c1 c2 c3 : PutUint32 (Uint32 [c0; c1; c2; c3]) = [c0; c1; c2; c3].
Proof.
  pose proof (byte_val_range c0). pose proof (byte_val_range c1). pose proof (byte_val_range c2). pose proof (byte_val_range c3).
  rewrite Uint32_four. unfold PutUint32. rewrite !Z.shiftr_div_pow2 by lia.
  change (2 ^ 24) with 16777216. change (2 ^ 16) with 65536. change (2 ^ 8) with 256.
  assert (∀ x c, x mod 256 = byte_val c → uint8 x = c) as E.
  { intros x c Hx. rewrite <- (uint8_byte_val c), <- Hx. unfold uint8. change 255 with (Z.ones 8).
    rewrite !Z.land_ones by lia. change (2 ^ 8) with 256. by rewrite Z.mod_mod by lia. }
  f_equal; [apply E; div_lia|]. f_equal; [apply E; div_lia|]. f_equal; [apply E; div_lia|]. f_equal. apply E. div_lia.
Qed.

Lemma Uint32_range c0 c1 c2 c3 : 0 ≤ Uint32 [c0; c1; c2; c3] < 2 ^ 32.
Proof.
  pose proof (byte_val_range c0). pose proof (byte_val_range c1). pose proof (byte_val_range c2). pose proof (byte_val_range c3).
  rewrite Uint32_four. lia.
Qed.

(** ** The parser fed by reads *)

Inductive pstate := PHeader (got : bytes) | PBody (pf : Z) (len : nat) (got : bytes).

Definition want (st : pstate) : nat :=
  match st with PHeader got => 5 - length got | PBody _ len got => len - length got end.

(** The state after the header, with the message when it is empty. *)
Definition msg_header (buf : bytes) : list (Z * bytes) * pstate :=
  let pf := byte_val (hd zero buf) in
  let length := Uint32 (drop 1 buf) in
  if length =? 0 then ([(pf, [])], PHeader []) else ([], PBody pf (Z.to_nat length) []).

Definition feed (st : pstate) (p : bytes) : list (Z * bytes) * pstate :=
  match st with
  | PHeader got => if (5 <=? length (got ++ p))%nat then msg_header (got ++ p) else ([], PHeader (got ++ p))
  | PBody pf len got =>
      if (len <=? length (got ++ p))%nat then ([(pf, got ++ p)], PHeader []) else ([], PBody pf len (got ++ p))
  end.

Definition failed (st : pstate) (e : rerror) : rerror :=
  match e, st with
  | EOF, PHeader [] => EOF
  | EOF, _ => UnexpectedEOF
  | _, _ => e
  end.

Fixpoint drive (st : pstate) (rs : list (bytes + rerror)) : list (Z * bytes) * status :=
  match rs with
  | [] => ([], Asking (want st))
  | inr e :: _ => ([], Ended (failed st e))
  | inl p :: rs =>
      let '(out, st) := feed st p in
      let '(ms, s) := drive st rs in (out ++ ms, s)
  end.

(** What is between frames is short of a frame. *)
Definition pok (st : pstate) : Prop :=
  match st with
  | PHeader got => (length got < 5)%nat
  | PBody pf len got => (length got < len)%nat ∧ 0 ≤ pf < 256 ∧ Z.of_nat len < 2 ^ 32
  end.

Lemma header_drive got rs :
  (length got < 5)%nat →
  drive (PHeader got) rs =
    match ReadFull 5 got rs with
    | Blocked k => ([], Asking k)
    | Failed e _ => ([], Ended e)
    | Done buf rs => let '(out, st) := msg_header buf in let '(ms, s) := drive st rs in (out ++ ms, s)
    end.
Proof.
  revert got. induction rs as [|[p|e] rs IH]; intros got Hg; cbn [drive ReadFull];
    rewrite (proj2 (Nat.leb_gt 5 (length got))) by done; [done| |].
  - cbn [feed]. destruct (Nat.leb_spec 5 (length (got ++ p))) as [Hl|Hl].
    + destruct rs; cbn [ReadFull]; by rewrite (proj2 (Nat.leb_le _ _)) by done.
    + rewrite IH by done. destruct (ReadFull 5 (got ++ p) rs) as [buf rs'|e rs'|k]; [|done..].
      destruct (msg_header buf) as [out st]. by destruct (drive st rs').
  - by destruct e, got.
Qed.

Lemma body_drive pf len got rs :
  (length got < len)%nat →
  drive (PBody pf len got) rs =
    match ReadFull len got rs with
    | Blocked k => ([], Asking k)
    | Failed e _ => ([], Ended (match e with EOF => UnexpectedEOF | _ => e end))
    | Done msg rs => let '(ms, s) := drive (PHeader []) rs in ((pf, msg) :: ms, s)
    end.
Proof.
  revert got. induction rs as [|[p|e] rs IH]; intros got Hg; cbn [drive ReadFull];
    rewrite (proj2 (Nat.leb_gt len (length got))) by done; [done| |].
  - cbn [feed]. destruct (Nat.leb_spec len (length (got ++ p))) as [Hl|Hl].
    + destruct rs; cbn [ReadFull]; rewrite (proj2 (Nat.leb_le _ _)) by done; by destruct (drive _ _).
    + rewrite IH by done. destruct (ReadFull len (got ++ p) rs) as [buf rs'|e rs'|k]; [|done..].
      by destruct (drive _ rs').
  - by destruct e, got.
Qed.

Lemma ReadFull_shorter n got rs buf rs' :
  (length got < n)%nat → ReadFull n got rs = Done buf rs' → (length rs' < length rs)%nat.
Proof.
  revert got. induction rs as [|[p|e] rs IH]; intros got Hg H; cbn [ReadFull] in H;
    rewrite (proj2 (Nat.leb_gt n (length got))) in H by done; [done| |by destruct e, got].
  destruct (Nat.le_gt_cases n (length (got ++ p))) as [Hl|Hl].
  - destruct rs; cbn [ReadFull] in H; rewrite (proj2 (Nat.leb_le _ _)) in H by done; injection H as _ <-; simpl; lia.
  - apply IH in H; [simpl; lia|done].
Qed.

Lemma Uint32_nonneg b : 0 ≤ Uint32 b.
Proof.
  unfold Uint32. generalize (take 4 b). intros l. assert (0 ≤ 0) as Ha by lia. revert Ha. generalize 0 at 2 4.
  induction l as [|c l IH]; intros a Ha; [done|]. cbn [foldl]. apply IH.
  pose proof (byte_val_range c). rewrite be_step by done. lia.
Qed.

Lemma recvMsgs_drive fuel rs : (length rs ≤ fuel)%nat → recvMsgs fuel rs = drive (PHeader []) rs.
Proof.
  revert rs. induction fuel as [|fuel IH]; intros rs Hf.
  { destruct rs; [done|simpl in Hf; lia]. }
  cbn [recvMsgs]. rewrite header_drive by (simpl; lia). unfold recvMsg.
  destruct (ReadFull 5 [] rs) as [buf rs'|e rs'|k] eqn:E1; [|done..].
  apply ReadFull_shorter in E1; [|simpl; lia]. unfold msg_header.
  destruct (Z.eqb_spec (Uint32 (drop 1 buf)) 0) as [E0|E0].
  - rewrite IH by lia. by destruct (drive (PHeader []) rs').
  - pose proof (Uint32_nonneg (drop 1 buf)). rewrite body_drive by (simpl; lia).
    destruct (ReadFull (Z.to_nat (Uint32 (drop 1 buf))) [] rs') as [msg rs''|e rs''|k] eqn:E2; [|done..].
    apply ReadFull_shorter in E2; [|simpl; lia]. rewrite IH by lia. by destruct (drive (PHeader []) rs'').
Qed.

Lemma serve_drive rs : serve rs = drive (PHeader []) rs.
Proof. by apply recvMsgs_drive. Qed.

(** ** The frames in what is read *)

Definition frame (m : Z * bytes) : bytes := uint8 (fst m) :: PutUint32 (Z.of_nat (length (snd m))) ++ snd m.
Definition frames (ms : list (Z * bytes)) : bytes := concat (map frame ms).

Definition partial (st : pstate) : bytes :=
  match st with
  | PHeader got => got
  | PBody pf len got => uint8 pf :: PutUint32 (Z.of_nat len) ++ got
  end.

Definition frame_ok (m : Z * bytes) : Prop := 0 ≤ fst m < 256 ∧ Z.of_nat (length (snd m)) < 2 ^ 32.

Lemma header_spec buf out st :
  length buf = 5%nat → msg_header buf = (out, st) → buf = frames out ++ partial st ∧ pok st ∧ Forall frame_ok out.
Proof.
  intros Hl H. destruct buf as [|c [|c0 [|c1 [|c2 [|c3 [|]]]]]]; try done. unfold msg_header in H. cbn [hd drop] in H.
  pose proof (Uint32_range c0 c1 c2 c3) as HR. pose proof (byte_val_range c).
  pose proof (PutUint32_Uint32 c0 c1 c2 c3) as HP.
  destruct (Z.eqb_spec (Uint32 [c0; c1; c2; c3]) 0) as [E|E]; injection H as <- <-; unfold frames; cbn [map concat partial].
  - rewrite E in HP. unfold frame. cbn [fst snd length]. change (Z.of_nat 0) with 0. rewrite HP, uint8_byte_val.
    split; [done|]. split; [simpl; lia|]. constructor; [|constructor]. split; simpl; lia.
  - rewrite Z2Nat.id by lia. rewrite HP, uint8_byte_val. split; [done|]. split; [|constructor].
    unfold pok. cbn [length]. lia.
Qed.

(** A read of no more than was asked for. *)
Lemma feed_spec st p out st' :
  pok st → (length p ≤ want st)%nat → feed st p = (out, st') →
  partial st ++ p = frames out ++ partial st' ∧ pok st' ∧ Forall frame_ok out.
Proof.
  intros Hp Hl H. destruct st as [got|pf len got]; cbn [feed pok want partial] in *.
  - destruct (Nat.leb_spec 5 (length (got ++ p))) as [Hg|Hg].
    + apply header_spec in H; [done|]. rewrite length_app in *. lia.
    + injection H as <- <-. split; [done|]. split; [done|constructor].
  - destruct Hp as (Hp & Hpf & Hlen). destruct (Nat.leb_spec len (length (got ++ p))) as [Hg|Hg]; injection H as <- <-.
    + assert (length (got ++ p) = len) as E by (rewrite length_app in *; lia).
      unfold frames, frame. cbn [map concat partial fst snd]. rewrite E, !app_nil_r. cbn [app]. rewrite <- app_assoc.
      split; [done|]. split; [simpl; lia|]. constructor; [|constructor]. split; cbn [fst snd]; [done|by rewrite E].
    + unfold frames. cbn [map concat partial app]. rewrite <- app_assoc. split; [done|]. split; [unfold pok; split; [lia|by split]|constructor].
Qed.

Lemma frames_app a b : frames (a ++ b) = frames a ++ frames b.
Proof. unfold frames. by rewrite map_app, concat_app. Qed.

(** All reads, each of no more than was asked for. *)
Fixpoint feeds (st : pstate) (ps : list bytes) : list (Z * bytes) * pstate :=
  match ps with
  | [] => ([], st)
  | p :: ps => let '(out, st) := feed st p in let '(ms, st) := feeds st ps in (out ++ ms, st)
  end.

Lemma feeds_snoc st ps p :
  feeds st (ps ++ [p]) =
  let '(out, st) := feeds st ps in let '(ms, st) := feed st p in (out ++ ms, st).
Proof.
  revert st. induction ps as [|q ps IH]; intros st; cbn [feeds app].
  - destruct (feed st p) as [o st']. by rewrite app_nil_r.
  - destruct (feed st q) as [o st']. rewrite IH. destruct (feeds st' ps) as [o' st'']. destruct (feed st'' p) as [o'' ?].
    by rewrite app_assoc.
Qed.

Lemma drive_feeds st ps rs :
  drive st (map inl ps ++ rs) =
  let '(out, st) := feeds st ps in let '(ms, s) := drive st rs in (out ++ ms, s).
Proof.
  revert st. induction ps as [|p ps IH]; intros st; cbn [feeds map app drive].
  - by destruct (drive st rs).
  - destruct (feed st p) as [o st']. rewrite IH. destruct (feeds st' ps) as [o' st'']. destruct (drive st'' rs).
    by rewrite app_assoc.
Qed.

(** ** A sequence of frames is read in only one way *)

Lemma PutUint32_inj a b : 0 ≤ a < 2 ^ 32 → 0 ≤ b < 2 ^ 32 → PutUint32 a = PutUint32 b → a = b.
Proof. intros Ha Hb E. rewrite <- (Uint32_PutUint32 a []), <- (Uint32_PutUint32 b []), E; done. Qed.

Lemma uint8_inj a b : 0 ≤ a < 256 → 0 ≤ b < 256 → uint8 a = uint8 b → a = b.
Proof. intros Ha Hb E. apply (f_equal byte_val) in E. rewrite !byte_val_uint8, !Z.mod_small in E; lia. Qed.

Lemma head_inj pf pf' x x' a b :
  0 ≤ pf < 256 → 0 ≤ pf' < 256 → 0 ≤ x < 2 ^ 32 → 0 ≤ x' < 2 ^ 32 →
  uint8 pf :: PutUint32 x ++ a = uint8 pf' :: PutUint32 x' ++ b → pf = pf' ∧ x = x' ∧ a = b.
Proof.
  intros ? ? ? ? E. apply (app_inj_1 [_] [_]) in E as [E0 E]; [|done]. injection E0 as E0. apply uint8_inj in E0; [|done..].
  apply app_inj_1 in E as [E1 E2]; [|done]. apply PutUint32_inj in E1; done.
Qed.

Lemma frames_prefix out st full :
  Forall frame_ok out → Forall frame_ok full → pok st →
  frames out ++ partial st `prefix_of` frames full →
  out `prefix_of` full ∧ (frames out ++ partial st = frames full → out = full ∧ st = PHeader []).
Proof.
  revert full. induction out as [|[pf m] out IH]; intros full Ho Hf Hp [r Hr].
  - split; [apply prefix_nil|]. intros E. destruct full as [|[pf' m'] full].
    + destruct st as [[|]|]; done.
    + apply Forall_cons in Hf as [[Hpf Hm] _]. exfalso. unfold frames, frame in E. cbn [map concat app fst snd] in *.
      destruct st as [got|pf len got]; cbn [partial pok] in *.
      * apply (f_equal length) in E. rewrite E in Hp. cbn [length] in Hp. rewrite !length_app in Hp. simpl in Hp. lia.
      * destruct Hp as (Hp & Hpf' & Hl). rewrite <- app_assoc in E. apply head_inj in E as (_ & E1 & E2); [|lia..].
        apply (f_equal length) in E2. rewrite length_app in E2. lia.
  - apply Forall_cons in Ho as [[Hpf Hm] Ho]. destruct full as [|[pf' m'] full]; [done|].
    apply Forall_cons in Hf as [[Hpf' Hm'] Hf]. unfold frames, frame in Hr. cbn [map concat app fst snd] in *.
    rewrite <- !app_assoc in Hr. symmetry in Hr. apply head_inj in Hr as (<- & E1 & E2); [|lia..].
    apply app_inj_1 in E2 as [<- E2]; [|lia]. rewrite app_assoc in E2.
    destruct (IH full Ho Hf Hp) as [H1 H2]; [by exists r|]. split; [by apply prefix_cons|].
    intros E. unfold frames, frame in E. cbn [map concat app fst snd] in E. rewrite <- !app_assoc in E.
    apply head_inj in E as (_ & _ & E); [|lia..]. apply app_inv_head in E. destruct (H2 E) as [-> ->]. done.
Qed.
