(* ===== verification/Delivery.v ===== *)
(** * Messages from one end of a connection to the other

    The messages that a client sends on a stream ([SendMsg], [CloseSend]), through
    marshalling, framing, the transport with its flow control, and the parser of the
    handler that receives them. *)
From Stdlib Require Import ZArith Lia Ascii.
From stdpp Require Import base option list strings.
From S2P Require Import Prelude GoNum FloatFacts GoFmt Strconv Messages Flow Transfer TransferProps Proto ProtoFacts Wire.
From S2P Require Import Grpc GrpcFacts.

(** A handler receives messages, one after the other: it reads what [recvMsg] asks for. *)
Definition handler_rel (s : xfer) (l : xlabel) (t : xfer) : Prop :=
  xfer_rel s l t ∧ ∀ k, l = ARead k → snd (serve (reads s)) = Asking k.

Lemma handler_run s ls t : run handler_rel s ls t → run xfer_rel s ls t.
Proof. induction 1 as [|s l t ls u [H _] _ IH]; [constructor|by econstructor]. Qed.

(** The reads of a handler, and what its parser has made of them. *)
Definition parsed (s : xfer) : Prop :=
  ∃ ps, reads s = map inl ps ++ option_list (inr <$> r_err (rd s)) ∧
    let '(out, st) := feeds (PHeader []) ps in
    delivered s = frames out ++ partial st ∧ pok st ∧ Forall frame_ok out ∧
    serve (reads s) = (out, match r_err (rd s) with None => Asking (want st) | Some e => Ended (failed st e) end).

Lemma writer_reads l s t : step_writer l s = Some t → reads t = reads s ∧ rd t = rd s.
Proof.
  unfold step_writer. intros H. destruct l; try done; destruct (pc s); try done.
  - destruct (calls s) as [|[d lst] cs]; [done|]. by injection H as <-.
  - case_match; by injection H as <-.
  - destruct (acquire _) as [[sq sp]|]; [|done]. by injection H as <-.
  - by injection H as <-.
  - destruct (acquire _) as [[tq tp]|]; [|done]. by injection H as <-.
  - by injection H as <-.
Qed.

Lemma handleEnd_reads f s : reads (handleEnd f s) = reads s ∧ r_err (rd (handleEnd f s)) = r_err (rd s).
Proof. unfold handleEnd. by destruct (endStream f). Qed.

Lemma handleData_reads f s : reads (handleData f s) = reads s ∧ r_err (rd (handleData f s)) = r_err (rd s).
Proof.
  unfold handleData, closeStream. destruct (rst s); try done; (destruct (0 <? _); [|by apply handleEnd_reads]);
    (destruct (onData _ _ _) as [[g h]|[e|e]]; [by rewrite !(proj1 (handleEnd_reads _ _)), !(proj2 (handleEnd_reads _ _))| |done]);
    by destruct (restoreConn _ _) as [q [g h]].
Qed.

Lemma reads_unchanged l s t :
  (∀ k, l ≠ ARead k) → xfer_rel s l t → reads t = reads s ∧ r_err (rd t) = r_err (rd s).
Proof.
  intros Hl H. unfold xfer_rel in H.
  destruct l; cbn [xfer_step] in H; try (apply writer_reads in H as [? ->]; done).
  - destruct (wire s) as [|f w]; [done|]. injection H as <-.
    by rewrite (proj1 (handleData_reads _ _)), (proj2 (handleData_reads _ _)).
  - by destruct (Hl k).
  - destruct (upd s =? 0); [done|]. injection H as <-. unfold updateWindow. by destruct (onRead _ _ _) as [[? ?] [? ?]].
  - destruct (get (controlBuf s)) as [[u c]|]; [|done]. simpl in H. by injection H as <-.
  - destruct (updates s) as [|u us]; [done|]. injection H as <-. unfold handleWindowUpdate. by destruct (of_stream u).
Qed.

Lemma map_app_snoc {A B} (f : A → B) l x : map f l ++ [f x] = map f (l ++ [x]).
Proof. by rewrite map_app. Qed.

Lemma Read_size k r p r' : Read k r = Some (inl p, r') → (length p ≤ k)%nat.
Proof.
  unfold Read, Reader_Read. intros H. destruct (r_err r); [done|].
  destruct (r_last r) as [|c l]; [destruct (get (recv_buf r)) as [[[d|e] b]|]; simpl in H|]; repeat case_match;
    simplify_eq; rewrite ?length_take; simpl; lia.
Qed.

Lemma parsed_step l s t : quota_inv s → shape_inv s → parsed s → handler_rel s l t → parsed t.
Proof.
  intros HQ HS (ps & Er & HP) [Hs Hk].
  destruct (feeds (PHeader []) ps) as [out st] eqn:Ef. destruct HP as (Hd & Hst & Hout & Hserve).
  assert ((∃ k, l = ARead k) ∨ ∀ k, l ≠ ARead k) as [[k ->]|Hl] by (destruct l; eauto).
  - specialize (Hk k eq_refl). unfold xfer_rel, xfer_step in Hs.
    destruct ((k =? 0)%nat || negb (upd s =? 0) || bool_decide (is_Some (r_err (rd s)))) eqn:Eg; [done|].
    apply orb_false_elim in Eg as [[Ek%Nat.eqb_neq Eu]%orb_false_elim Ee%bool_decide_eq_false].
    rewrite <- eq_None_not_Some in Ee. rewrite Ee in *. rewrite Hserve in Hk. injection Hk as Hk.
    destruct (Read k (rd s)) as [[res r]|] eqn:ER; [|done]. simpl in Hs.
    assert (delivered t = delivered s ++ read_bytes res) as Hdt.
    { injection Hs as <-. unfold delivered. fields. rewrite map_app, concat_app. cbn [map concat]. by rewrite app_nil_r. }
    pose proof ER as (_ & _ & R3)%Read_spec; [|lia|done|apply HS|apply HS].
    cbn [option_list fmap option_fmap option_map] in Er. rewrite app_nil_r in Er.
    injection Hs as <-. unfold parsed. rewrite Hdt. fields. rewrite Er. destruct res as [p|e].
    + destruct R3 as (_ & R3 & _). apply Read_size in ER. rewrite R3. exists (ps ++ [p]).
      cbn [option_list fmap option_fmap option_map]. split; [by rewrite app_nil_r, map_app_snoc|].
      rewrite feeds_snoc, Ef. destruct (feed st p) as [o st'] eqn:Efd.
      pose proof (feed_spec st p o st' Hst ltac:(lia) Efd) as (F1 & F2 & F3).
      rewrite Hd, frames_app, <- !app_assoc. cbn [read_bytes]. rewrite F1. split; [done|]. split; [done|].
      split; [by apply Forall_app|]. rewrite serve_drive, drive_feeds, Ef. cbn [drive]. rewrite Efd. by rewrite app_nil_r.
    + destruct R3 as (-> & R3 & _). rewrite R3. exists ps. split; [done|]. rewrite Ef. cbn [read_bytes].
      rewrite app_nil_r. split; [done|]. split; [done|]. split; [done|].
      rewrite serve_drive, drive_feeds, Ef. cbn [drive]. by rewrite app_nil_r.
  - destruct (reads_unchanged l s t Hl Hs) as [E1 E2]. unfold parsed, delivered in *. rewrite E1, E2.
    exists ps. by rewrite Ef.
Qed.

Lemma handler_reachable cs ls s :
  run handler_rel (xfer_start cs) ls s → (quota_inv s ∧ shape_inv s) ∧ parsed s.
Proof.
  intros Hr. eapply (run_invariant handler_rel (fun s => (quota_inv s ∧ shape_inv s) ∧ parsed s)); [|exact Hr|].
  - intros u l v [[? ?] ?] Hs. split; [apply (xfer_inv l u); [done..|apply Hs]|by eapply parsed_step].
  - split; [apply xfer_start_inv|]. exists []. split; [done|]. cbn [feeds]. split_and!; [done|simpl; lia|constructor|done].
Qed.

(** ** Properties *)

Section messages.
Context {M : Type} {HM : Message M} {HL : LawfulMessage M}.

(** What [SendMsg] writes. *)
Definition sent (m : M) : bytes :=
  match encode (Some (Marshal m)) 0 with inl b => b | inr _ => [] end.

(** A message that is sent without an error. *)
Definition sendable (m : M) : Prop := typed m ∧ Z.of_nat (length (Marshal m)) < 2 ^ 32.

Lemma sent_frame m : sendable m → sent m = frame (0, Marshal m).
Proof.
  intros [_ Hm]. unfold sent, encode. change (default [] (Some (Marshal m))) with (Marshal m). unfold MaxUint32. by rewrite (proj2 (Z.ltb_ge _ _)) by lia.
Qed.

Lemma sent_frames ms : Forall sendable ms → concat (map sent ms) = frames (map (fun m => (0, Marshal m)) ms).
Proof.
  unfold frames. induction 1 as [|m ms Hm _ IH]; [done|]. cbn [map concat]. by rewrite IH, sent_frame.
Qed.

Lemma sendable_frames ms : Forall sendable ms → Forall frame_ok (map (fun m => (0, Marshal m)) ms).
Proof. induction 1 as [|m ms [_ Hm] _ IH]; [done|]. constructor; [by split; cbn [fst snd]|done]. Qed.

Lemma decode_sent ms : Forall sendable ms → map decode (map (fun m => (0, Marshal m)) ms) = map (fun m => Ok (inl m)) ms.
Proof.
  induction 1 as [|m ms [Ht Hm] _ IH]; [done|]. cbn [map]. rewrite IH. unfold decode at 1. cbn [Z.eqb].
  rewrite roundtrip; [done|done|]. unfold small. lia.
Qed.

(** C26: end to end. The messages that the handler has received at any time, whatever the
    interleaving and however the transport cuts them, are the first of those that the
    client has sent, in order and each as it was sent. When nothing can happen any more
    they are all of them, and the handler waits for the next one, or has seen the end of
    the stream if the client has closed it. *)
Theorem messages_delivered (ms : list M) (close : bool) (ls : list xlabel) (s : xfer) :
  Forall sendable ms → run handler_rel (xfer_start (stream_calls (map sent ms) close)) ls s →
  (∃ got, got `prefix_of` ms ∧ map decode (fst (serve (reads s))) = map (fun m => Ok (inl m)) got) ∧
  ((∀ l t, ¬ handler_rel s l t) →
     map decode (fst (serve (reads s))) = map (fun m => Ok (inl m)) ms ∧
     snd (serve (reads s)) = (if close then Ended EOF else Asking 5)).
Proof.
  intros Hms Hr. destruct (handler_reachable _ _ _ Hr) as [[HQ HS] (ps & Er & HP)].
  destruct (feeds (PHeader []) ps) as [out st]. destruct HP as (Hd & Hst & Hout & Hserve). rewrite Hserve.
  pose proof (handler_run _ _ _ Hr) as Hx. pose proof (reachable_carried _ _ _ Hx) as HC.
  rewrite stream_content in HC. pose proof (stream_in_order _ _ _ _ Hx) as (Hpre & _).
  rewrite Hd, sent_frames in Hpre by done. pose proof (sendable_frames _ Hms) as Hf.
  destruct (frames_prefix out st _ Hout Hf Hst Hpre) as [Hp Hall]. cbn [fst snd]. split.
  - destruct Hp as [rest Hp]. apply map_eq_app in Hp as (got & rest' & -> & <- & _).
    exists got. split; [by eexists|]. apply Forall_app in Hms as [Hms _]. by apply decode_sent.
  - intros Hstuck.
    assert (drained s) as Hdr.
    { destruct (xfer_progress (match r_err (rd s) with None => want st | _ => 1 end) s _ _ ltac:(
        destruct (r_err (rd s)); [lia|destruct st; cbn [want pok] in *; lia]) HQ HS HC) as [|(l & Hl & t & Ht)]; [done|].
      destruct (Hstuck l t). split; [done|]. intros k ->. specialize (Hl k eq_refl). rewrite Hserve. cbn [snd].
      destruct (r_err (rd s)) eqn:Ee; [|by rewrite Hl]. exfalso. unfold xfer_rel, xfer_step in Ht. rewrite Ee in Ht.
      change (bool_decide (is_Some (Some r))) with true in Ht. by rewrite orb_true_r in Ht. }
    destruct (drained_delivered _ _ _ HS HC Hdr) as [Hd1 He]. rewrite Hd, sent_frames in Hd1 by done.
    destruct (Hall Hd1) as [-> ->]. rewrite decode_sent by done. split; [done|]. rewrite He. by destruct close.
Qed.
End messages.

(** ** Unary calls *)

(** Each read returns no more than was asked for. *)
Fixpoint asked (st : pstate) (ps : list bytes) : Prop :=
  match ps with
  | [] => True
  | p :: ps => (length p ≤ want st)%nat ∧ asked (snd (feed st p)) ps
  end.

Lemma feeds_spec st ps out st' :
  pok st → asked st ps → feeds st ps = (out, st') →
  partial st ++ concat ps = frames out ++ partial st' ∧ pok st' ∧ Forall frame_ok out.
Proof.
  revert st out. induction ps as [|p ps IH]; intros st out Hst Ha H; cbn [feeds asked concat] in *.
  - injection H as <- <-. by rewrite app_nil_r.
  - destruct Ha as [Hl Ha]. destruct (feed st p) as [o st1] eqn:E. destruct (feeds st1 ps) as [o' st2] eqn:E2.
    injection H as <- <-. apply feed_spec in E as (F1 & F2 & F3); [|done..].
    destruct (IH st1 o' F2 Ha E2) as (K1 & K2 & K3).
    by rewrite app_assoc, F1, <- app_assoc, K1, frames_app, <- app_assoc, Forall_app.
Qed.

Lemma recvMsg_failed rs e : serve rs = ([], Ended e) → ∃ rs', recvMsg rs = Failed e rs'.
Proof.
  unfold serve. destruct (length rs) as [|n]; cbn [recvMsgs]; destruct (recvMsg rs) as [m rs'|e' rs'|k]; intros H; simplify_eq;
    [by eexists| |by eexists]. by destruct (recvMsgs n rs').
Qed.

Lemma frame_nonempty m : frame m ≠ [].
Proof. done. Qed.

(** A client that ends the stream of a unary call in the middle of its message makes
    the server panic, with the process, wherever it stops and however the bytes arrive; one
    that ends it before the first byte does not. *)
Theorem unary_truncated (Handler : bytes → bytes + handlerError) (m : Z * bytes) (ps : list bytes) :
  frame_ok m → asked (PHeader []) ps → concat ps `prefix_of` frame m → concat ps ≠ frame m →
  ∃ e rs, recvMsg (map inl ps ++ [inr EOF]) = Failed e rs ∧
    panics (processUnaryRPC Handler (inr e)) = negb (bool_decide (concat ps = [])).
Proof.
  intros Hm Ha Hp Hne. destruct (feeds (PHeader []) ps) as [out st] eqn:Ef.
  assert (pok (PHeader [])) as Hp0 by (simpl; lia).
  pose proof (feeds_spec _ _ _ _ Hp0 Ha Ef) as (F1 & F2 & F3). cbn [partial app] in F1.
  destruct (frames_prefix out st [m]) as [Hpre Hall]; [done|by constructor|done| |].
  { unfold frames at 2. cbn [map concat]. by rewrite app_nil_r, <- F1. }
  assert (out = []) as ->.
  { destruct out as [|x out]; [done|]. destruct Hpre as [k Hk]. injection Hk as -> Hk.
    destruct out; [|done]. exfalso. destruct Hp as [r Hr]. rewrite F1 in Hr, Hne. unfold frames in Hr, Hne. cbn [map concat] in Hr, Hne.
    rewrite app_nil_r in Hr, Hne. destruct (partial st) eqn:E; [by rewrite app_nil_r in Hne|].
    apply (f_equal length) in Hr. rewrite !length_app in Hr. simpl in Hr. lia. }
  assert (serve (map inl ps ++ [inr EOF]) = ([], Ended (failed st EOF))) as Hs
    by (rewrite serve_drive, drive_feeds, Ef; done).
  apply recvMsg_failed in Hs as [rs' Hs]. exists (failed st EOF), rs'. split; [done|].
  rewrite F1. cbn [frames map concat app]. destruct st as [[|c got]|pf len got]; done.
Qed.

(** ** A command on its way to an executor *)

Definition halt_command : CommandMessage := mkCommandMessage "Halt" None "".
Definition halt_schedule : list xlabel :=
  [WUpdate; LCall; LTop; LStream; LAdd; LConn; LData; RFrame; ARead 5; AUpdate; ARead 6; AUpdate; LCall; LTop; LData; RFrame;
   ARead 5].

Fixpoint handler_exec (ls : list xlabel) (s : xfer) : option xfer :=
  match ls with
  | [] => Some s
  | l :: ls =>
      let ok := match l, snd (serve (reads s)) with ARead k, Asking k' => (k =? k')%nat | ARead _, Ended _ => false | _, _ => true end in
      if ok then xfer_step l s ≫= handler_exec ls else None
  end.

Lemma handler_exec_run ls s t : handler_exec ls s = Some t → run handler_rel s ls t.
Proof.
  revert s. induction ls as [|l ls IH]; simpl; intros s H; [injection H as ->; constructor|].
  destruct (match l, snd (serve (reads s)) with ARead k, Asking k' => (k =? k')%nat | ARead _, Ended _ => false | _, _ => true end)
    eqn:E; [|done].
  apply bind_Some in H as (u & Hu & Ht). apply (run_cons _ _ _ u); [|by apply IH]. split; [exact Hu|].
  intros k ->. destruct (snd (serve (reads s))); [by apply Nat.eqb_eq in E as ->|done].
Qed.

Lemma messages_delivered_witness :
  ∃ s, handler_exec halt_schedule (xfer_start (stream_calls (map sent [halt_command]) true)) = Some s ∧
    snd (serve (reads s)) = Ended EOF ∧
    ∃ got, got `prefix_of` [halt_command] ∧ map decode (fst (serve (reads s))) = map (fun m => Ok (inl m)) got.
Proof.
  eexists. split; [vm_compute; reflexivity|]. split; [vm_compute; reflexivity|].
  refine (proj1 (messages_delivered [halt_command] true halt_schedule _ _ _)).
  - constructor; [|constructor]. split; [done|by vm_compute].
  - apply handler_exec_run. vm_compute. reflexivity.
Defined.

Lemma unary_truncated_witness :
  ∃ e rs, recvMsg (map inl [PutUint32 1; [zero]] ++ [inr EOF]) = Failed e rs ∧
    panics (processUnaryRPC (fun b => inl b) (inr e)) = true.
Proof.
  apply (unary_truncated (fun b => inl b) (0, map ascii_of_nat (repeat 7%nat 256)) [PutUint32 1; [zero]]).
  - split; by vm_compute.
  - by split; [simpl; lia|split; [simpl; lia|]].
  - exists (map ascii_of_nat (repeat 7%nat 256)). by vm_compute.
  - intros H. apply (f_equal length) in H. by vm_compute in H.
Defined.
