(* ===== verification/Frames.v ===== *)
(** * The frames of HTTP/2 (Godeps .../x/net/http2, frame.go)

    The writers of a [Framer] and [ReadFrame] with the parser of every frame type.  A
    connection is the list of the bytes that arrive on it.  The reuse of the read buffer,
    which invalidates a frame when the next one is read, is left out, and so are illegal
    writes. *)
From Stdlib Require Import ZArith Lia Ascii.
From stdpp Require Import base option list strings.
From S2P Require Import Prelude GoNum FloatFacts GoFmt Strconv Flow Proto Grpc.

(** ** Frames *)

Definition FrameData : Z := 0.
Definition FrameHeaders : Z := 1.
Definition FramePriority : Z := 2.
Definition FrameRSTStream : Z := 3.
Definition FrameSettings : Z := 4.
Definition FramePushPromise : Z := 5.
Definition FramePing : Z := 6.
Definition FrameGoAway : Z := 7.
Definition FrameWindowUpdate : Z := 8.
Definition FrameContinuation : Z := 9.

Definition FlagEndStream : Z := 1.      (** of data and headers *)
Definition FlagAck : Z := 1.            (** of settings and pings *)
Definition FlagEndHeaders : Z := 4.     (** of headers, continuations and promises *)
Definition FlagPadded : Z := 8.         (** of data, headers and promises *)
Definition FlagHeadersPriority : Z := 32.

(** [f.Has(v)]. *)
Definition Has (f v : Z) : bool := Z.land f v =? v.

Record FrameHeader := mkHeader { Type_ : Z; Flags : Z; Length : Z; StreamID : Z }.

Record PriorityParam := mkPriority { StreamDep : Z; Exclusive : bool; Weight : Z }.

Definition IsZero (p : PriorityParam) : bool := (StreamDep p =? 0) && negb (Exclusive p) && (Weight p =? 0).

Inductive Frame :=
  | DataFrame (fh : FrameHeader) (data : bytes)
  | HeadersFrame (fh : FrameHeader) (prio : PriorityParam) (frag : bytes)
  | PriorityFrame (fh : FrameHeader) (prio : PriorityParam)
  | RSTStreamFrame (fh : FrameHeader) (code : Z)
  | SettingsFrame (fh : FrameHeader) (p : bytes)
  | PushPromiseFrame (fh : FrameHeader) (promise : Z) (frag : bytes)
  | PingFrame (fh : FrameHeader) (data : bytes)
  | GoAwayFrame (fh : FrameHeader) (last code : Z) (debug : bytes)
  | WindowUpdateFrame (fh : FrameHeader) (incr : Z)
  | ContinuationFrame (fh : FrameHeader) (frag : bytes)
  | UnknownFrame (fh : FrameHeader) (p : bytes).

Definition frame_header (f : Frame) : FrameHeader :=
  match f with
  | DataFrame fh _ | HeadersFrame fh _ _ | PriorityFrame fh _ | RSTStreamFrame fh _ | SettingsFrame fh _
  | PushPromiseFrame fh _ _ | PingFrame fh _ | GoAwayFrame fh _ _ _ | WindowUpdateFrame fh _
  | ContinuationFrame fh _ | UnknownFrame fh _ => fh
  end.

Inductive frameError :=
  | ConnError (code : Z)               (** [ConnectionError] *)
  | StrError (id code : Z)             (** [StreamError] *)
  | ErrStreamID
  | ErrFrameTooLarge
  | ErrIllegalIncrement
  | ErrDependentStreamID
  | FrameEOF
  | FrameUnexpectedEOF.

Definition ErrCodeProtocol : Z := 1.
Definition ErrCodeFlowControl : Z := 3.
Definition ErrCodeFrameSize : Z := 6.

Abbreviation result A := (A + frameError)%type.

Definition rbind {A B} (m : result A) (f : A → result B) : result B :=
  match m with inl a => f a | inr e => inr e end.

(** ** Writing *)

Definition writeUint16 (x : Z) : bytes := [uint8 (Z.shiftr x 8); uint8 x].

(** [startWrite], the payload and [endWrite]: one write of the whole frame. *)
Definition write_frame (ftype flags streamID : Z) (payload : bytes) : result bytes :=
  let length := Z.of_nat (length payload) in
  if 2 ^ 24 <=? length then inr ErrFrameTooLarge else
  inl ([uint8 (Z.shiftr length 16); uint8 (Z.shiftr length 8); uint8 length; uint8 ftype; uint8 flags]
       ++ PutUint32 streamID ++ payload).

Definition validStreamID (id : Z) : bool := negb (id =? 0) && (Z.land id (2 ^ 31) =? 0).

Definition flag (b : bool) (f : Z) : Z := if b then f else 0.

Definition WriteData (id : Z) (endStream : bool) (data : bytes) : result bytes :=
  if negb (validStreamID id) then inr ErrStreamID else
  write_frame FrameData (flag endStream FlagEndStream) id data.

(** A setting: its identifier and its value. *)
Definition WriteSettings (ss : list (Z * Z)) : result bytes :=
  write_frame FrameSettings 0 0 (concat (map (fun s => writeUint16 (fst s) ++ PutUint32 (snd s)) ss)).

Definition WriteSettingsAck : result bytes := write_frame FrameSettings FlagAck 0 [].

Definition WritePing (ack : bool) (data : bytes) : result bytes :=
  write_frame FramePing (flag ack FlagAck) 0 data.

Definition WriteGoAway (maxStreamID code : Z) (debug : bytes) : result bytes :=
  write_frame FrameGoAway 0 0 (PutUint32 (Z.land maxStreamID (2 ^ 31 - 1)) ++ PutUint32 code ++ debug).

Definition WriteWindowUpdate (id incr : Z) : result bytes :=
  if (incr <? 1) || (2147483647 <? incr) then inr ErrIllegalIncrement else
  write_frame FrameWindowUpdate 0 id (PutUint32 incr).

(** The stream that a stream depends on, with the exclusive bit. *)
Definition priority_word (p : PriorityParam) : Z :=
  if Exclusive p then Z.lor (StreamDep p) (2 ^ 31) else StreamDep p.

Record HeadersFrameParam := mkHeadersParam {
  hp_StreamID : Z; BlockFragment : bytes; EndStream : bool; EndHeaders : bool; PadLength : Z; Priority : PriorityParam
}.

Definition padZeros (n : Z) : bytes := replicate (Z.to_nat n) zero.
Definition pad_byte (n : Z) : bytes := if n =? 0 then [] else [uint8 n].

Definition WriteHeaders (p : HeadersFrameParam) : result bytes :=
  if negb (validStreamID (hp_StreamID p)) then inr ErrStreamID else
  let flags := Z.lor (Z.lor (Z.lor (flag (negb (PadLength p =? 0)) FlagPadded) (flag (EndStream p) FlagEndStream))
                 (flag (EndHeaders p) FlagEndHeaders)) (flag (negb (IsZero (Priority p))) FlagHeadersPriority) in
  if negb (IsZero (Priority p)) && negb (validStreamID (StreamDep (Priority p))) then inr ErrDependentStreamID else
  write_frame FrameHeaders flags (hp_StreamID p)
    (pad_byte (PadLength p)
     ++ (if IsZero (Priority p) then [] else PutUint32 (priority_word (Priority p)) ++ [uint8 (Weight (Priority p))])
     ++ BlockFragment p ++ padZeros (PadLength p)).

Definition WritePriority (id : Z) (p : PriorityParam) : result bytes :=
  if negb (validStreamID id) then inr ErrStreamID else
  write_frame FramePriority 0 id (PutUint32 (priority_word p) ++ [uint8 (Weight p)]).

Definition WriteRSTStream (id code : Z) : result bytes :=
  if negb (validStreamID id) then inr ErrStreamID else
  write_frame FrameRSTStream 0 id (PutUint32 code).

Definition WriteContinuation (id : Z) (endHeaders : bool) (frag : bytes) : result bytes :=
  if negb (validStreamID id) then inr ErrStreamID else
  write_frame FrameContinuation (flag endHeaders FlagEndHeaders) id frag.

Record PushPromiseParam := mkPushPromise {
  pp_StreamID : Z; PromiseID : Z; pp_BlockFragment : bytes; pp_EndHeaders : bool; pp_PadLength : Z
}.

Definition WritePushPromise (p : PushPromiseParam) : result bytes :=
  if negb (validStreamID (pp_StreamID p)) then inr ErrStreamID else
  if negb (validStreamID (PromiseID p)) then inr ErrStreamID else
  write_frame FramePushPromise (Z.lor (flag (negb (pp_PadLength p =? 0)) FlagPadded) (flag (pp_EndHeaders p) FlagEndHeaders))
    (pp_StreamID p)
    (pad_byte (pp_PadLength p) ++ PutUint32 (PromiseID p) ++ pp_BlockFragment p ++ padZeros (pp_PadLength p)).

Definition WriteRawFrame (t flags id : Z) (payload : bytes) : result bytes := write_frame t flags id payload.

(** ** Parsing a payload *)

Definition readByte (p : bytes) : result (bytes * Z) :=
  match p with [] => inr FrameUnexpectedEOF | c :: p => inl (p, byte_val c) end.

Definition readUint32 (p : bytes) : result (bytes * Z) :=
  if (length p <? 4)%nat then inr FrameUnexpectedEOF else inl (drop 4 p, Uint32 p).

(** [p[:len(p)-n]]. *)
Definition chop (n : Z) (p : bytes) : bytes := take (length p - Z.to_nat n) p.

Definition parseDataFrame (fh : FrameHeader) (payload : bytes) : result Frame :=
  if StreamID fh =? 0 then inr (ConnError ErrCodeProtocol) else
  rbind (if Has (Flags fh) FlagPadded then readByte payload else inl (payload, 0)) (fun '(payload, padSize) =>
  if Z.of_nat (length payload) <? padSize then inr (ConnError ErrCodeProtocol) else
  inl (DataFrame fh (chop padSize payload))).

Definition Uint16 (b : bytes) : Z := foldl (fun acc c => Z.lor (Z.shiftl acc 8) (byte_val c)) 0 (take 2 b).

(** The settings of a payload, which is a multiple of six bytes. *)
Fixpoint settings (p : bytes) : outcome (list (Z * Z)) :=
  match p with
  | [] => Ok []
  | a :: b :: c :: d :: e :: f :: p =>
      ss ← settings p; Ok ((Uint16 [a; b], Uint32 [c; d; e; f]) :: ss)
  | _ => Panic "runtime error: slice bounds out of range"
  end.

Definition SettingInitialWindowSize : Z := 4.

(** [Value]: the first setting of that identifier. *)
Definition Value (s : Z) (p : bytes) : outcome (option Z) :=
  ss ← settings p; Ok (snd <$> find (fun x => fst x =? s) ss).

Definition parseSettingsFrame (fh : FrameHeader) (p : bytes) : outcome (result Frame) :=
  if Has (Flags fh) FlagAck && (0 <? Length fh) then Ok (inr (ConnError ErrCodeFrameSize)) else
  if negb (StreamID fh =? 0) then Ok (inr (ConnError ErrCodeProtocol)) else
  if negb ((length p) mod 6 =? 0)%nat then Ok (inr (ConnError ErrCodeFrameSize)) else
  v ← Value SettingInitialWindowSize p;
  match v with
  | Some v => Ok (if 2 ^ 31 - 1 <? v then inr (ConnError ErrCodeFlowControl) else inl (SettingsFrame fh p))
  | None => Ok (inl (SettingsFrame fh p))
  end.

Definition parsePingFrame (fh : FrameHeader) (payload : bytes) : result Frame :=
  if negb (length payload =? 8)%nat then inr (ConnError ErrCodeFrameSize) else
  if negb (StreamID fh =? 0) then inr (ConnError ErrCodeProtocol) else
  inl (PingFrame fh payload).

Definition parseGoAwayFrame (fh : FrameHeader) (p : bytes) : result Frame :=
  if negb (StreamID fh =? 0) then inr (ConnError ErrCodeProtocol) else
  if (length p <? 8)%nat then inr (ConnError ErrCodeFrameSize) else
  inl (GoAwayFrame fh (Z.land (Uint32 p) (2 ^ 31 - 1)) (Uint32 (drop 4 p)) (drop 8 p)).

Definition parseWindowUpdateFrame (fh : FrameHeader) (p : bytes) : result Frame :=
  if negb (length p =? 4)%nat then inr (ConnError ErrCodeFrameSize) else
  let inc := Z.land (Uint32 p) 2147483647 in
  if inc =? 0 then
    (if StreamID fh =? 0 then inr (ConnError ErrCodeProtocol) else inr (StrError (StreamID fh) ErrCodeProtocol))
  else inl (WindowUpdateFrame fh inc).

Definition priority_of (v weight : Z) : PriorityParam :=
  let dep := Z.land v 2147483647 in mkPriority dep (negb (v =? dep)) weight.

Definition parseHeadersFrame (fh : FrameHeader) (p : bytes) : result Frame :=
  if StreamID fh =? 0 then inr (ConnError ErrCodeProtocol) else
  rbind (if Has (Flags fh) FlagPadded then readByte p else inl (p, 0)) (fun '(p, padLength) =>
  rbind (if Has (Flags fh) FlagHeadersPriority
         then rbind (readUint32 p) (fun '(p, v) => rbind (readByte p) (fun '(p, w) => inl (p, priority_of v w)))
         else inl (p, mkPriority 0 false 0)) (fun '(p, prio) =>
  if Z.of_nat (length p) - padLength <=? 0 then inr (StrError (StreamID fh) ErrCodeProtocol) else
  inl (HeadersFrame fh prio (chop padLength p)))).

Definition parsePriorityFrame (fh : FrameHeader) (payload : bytes) : result Frame :=
  if StreamID fh =? 0 then inr (ConnError ErrCodeProtocol) else
  if negb (length payload =? 5)%nat then inr (ConnError ErrCodeFrameSize) else
  inl (PriorityFrame fh (priority_of (Uint32 payload) (byte_val (nth 4 payload zero)))).

Definition parseRSTStreamFrame (fh : FrameHeader) (p : bytes) : result Frame :=
  if negb (length p =? 4)%nat then inr (ConnError ErrCodeFrameSize) else
  if StreamID fh =? 0 then inr (ConnError ErrCodeProtocol) else
  inl (RSTStreamFrame fh (Uint32 p)).

Definition parseContinuationFrame (fh : FrameHeader) (p : bytes) : result Frame := inl (ContinuationFrame fh p).
Definition parseUnknownFrame (fh : FrameHeader) (p : bytes) : result Frame := inl (UnknownFrame fh p).

Definition parsePushPromise (fh : FrameHeader) (p : bytes) : result Frame :=
  if StreamID fh =? 0 then inr (ConnError ErrCodeProtocol) else
  rbind (if Has (Flags fh) FlagPadded then readByte p else inl (p, 0)) (fun '(p, padLength) =>
  rbind (readUint32 p) (fun '(p, promise) =>
  if Z.of_nat (length p) <? padLength then inr (ConnError ErrCodeProtocol) else
  inl (PushPromiseFrame fh (Z.land promise (2 ^ 31 - 1)) (chop padLength p)))).

(** [typeFrameParser]. *)
Definition parseFrame (fh : FrameHeader) (p : bytes) : outcome (result Frame) :=
  let t := Type_ fh in
  if t =? FrameData then Ok (parseDataFrame fh p)
  else if t =? FrameHeaders then Ok (parseHeadersFrame fh p)
  else if t =? FramePriority then Ok (parsePriorityFrame fh p)
  else if t =? FrameRSTStream then Ok (parseRSTStreamFrame fh p)
  else if t =? FrameSettings then parseSettingsFrame fh p
  else if t =? FramePushPromise then Ok (parsePushPromise fh p)
  else if t =? FramePing then Ok (parsePingFrame fh p)
  else if t =? FrameGoAway then Ok (parseGoAwayFrame fh p)
  else if t =? FrameWindowUpdate then Ok (parseWindowUpdateFrame fh p)
  else if t =? FrameContinuation then Ok (parseContinuationFrame fh p)
  else Ok (parseUnknownFrame fh p).

(** ** Reading *)

Definition frameHeaderLen : nat := 9.
Definition maxFrameSize : Z := 2 ^ 24 - 1.

(** [io.ReadFull] of [n] bytes from a connection that ends with [buf]. *)
Definition readFull (n : nat) (buf : bytes) : result (bytes * bytes) :=
  if (length buf <? n)%nat then inr (match buf with [] => FrameEOF | _ => FrameUnexpectedEOF end)
  else inl (take n buf, drop n buf).

Definition readFrameHeader (buf : bytes) : result (FrameHeader * bytes) :=
  rbind (readFull frameHeaderLen buf) (fun '(h, rest) =>
  let at_ i := byte_val (nth i h zero) in
  inl (mkHeader (at_ 3%nat) (at_ 4%nat)
         (Z.lor (Z.lor (Z.shiftl (at_ 0%nat) 16) (Z.shiftl (at_ 1%nat) 8)) (at_ 2%nat))
         (Z.land (Uint32 (drop 5 h)) (2 ^ 31 - 1)), rest)).

(** [ReadFrame] of a [Framer] with [maxReadSize]: the frame and what follows it. *)
Definition ReadFrame (maxReadSize : Z) (buf : bytes) : outcome (result (Frame * bytes)) :=
  match readFrameHeader buf with
  | inr e => Ok (inr e)
  | inl (fh, rest) =>
      if maxReadSize <? Length fh then Ok (inr ErrFrameTooLarge) else
      match readFull (Z.to_nat (Length fh)) rest with
      | inr e => Ok (inr e)
      | inl (payload, rest) =>
          f ← parseFrame fh payload;
          Ok (rbind f (fun f => inl (f, rest)))
      end
  end.
