(* ===== verification/FramesProps.v ===== *)
(** * Properties of the frames of HTTP/2

    What a [Framer] writes is read back as it was meant, and no bytes make [ReadFrame]
    panic or return a frame that breaks the rules of its type. *)
From Stdlib Require Import ZArith Lia Ascii.
From stdpp Require Import base option list strings.
From S2P Require Import Prelude GoNum FloatFacts GoFmt Strconv Flow Proto Transfer TransferProps Grpc GrpcFacts Frames.

(** ** Words and flags *)

Lemma land_mask x n : 0 ≤ n → Z.land x (2 ^ n - 1) = x mod 2 ^ n.
Proof. intros. change (2 ^ n - 1) with (Z.pred (2 ^ n)). rewrite <- Z.ones_equiv. by apply Z.land_ones. Qed.

Lemma mask31 x : 0 ≤ x < 2 ^ 31 → Z.land x (2 ^ 31 - 1) = x.
Proof. intros. rewrite land_mask by lia. by apply Z.mod_small. Qed.

Lemma mask31' x : 0 ≤ x < 2 ^ 31 → Z.land x 2147483647 = x.
Proof. apply mask31. Qed.

Lemma valid_id id : 0 ≤ id < 2 ^ 32 → validStreamID id = true → 0 < id < 2 ^ 31.
Proof.
  unfold validStreamID. intros Hi [H0 H1]%andb_prop. apply negb_true_iff, Z.eqb_neq in H0. apply Z.eqb_eq in H1.
  split; [lia|]. apply (f_equal (fun z => Z.testbit z 31)) in H1.
  rewrite Z.land_spec, Z.bits_0, Z.pow2_bits_true, andb_true_r in H1 by lia.
  destruct (Z.lt_ge_cases id (2 ^ 31)); [done|]. exfalso.
  assert (id / 2 ^ 31 = 1) as E by (symmetry; apply (Z.div_unique id (2 ^ 31) 1 (id - 2 ^ 31)); lia).
  apply (f_equal Z.b2z) in H1. rewrite Z.testbit_spec' in H1 by lia. rewrite E in H1. done.
Qed.

Lemma valid_id_intro id : 0 < id < 2 ^ 31 → validStreamID id = true.
Proof.
  intros Hi. unfold validStreamID. rewrite (proj2 (Z.eqb_neq id 0)) by lia. cbn [negb andb]. apply Z.eqb_eq.
  apply Z.bits_inj'. intros n Hn. rewrite Z.land_spec, Z.bits_0. destruct (Z.eq_dec n 31) as [->|Hne].
  - rewrite Z.bits_above_log2; [done|lia|]. destruct (Z.eq_dec id 0); [lia|]. apply Z.log2_lt_pow2; lia.
  - by rewrite Z.pow2_bits_false, andb_false_r by lia.
Qed.

Lemma lor_top v : 0 ≤ v < 2 ^ 31 → Z.lor v (2 ^ 31) = v + 2 ^ 31.
Proof. intros. change (2 ^ 31) with (Z.shiftl 1 31). by rewrite lor_shiftl_add by lia. Qed.

Lemma priority_of_word p :
  0 ≤ StreamDep p < 2 ^ 31 → priority_of (priority_word p) (Weight p) = p.
Proof.
  intros Hd. destruct p as [d e w]. unfold priority_of, priority_word. cbn [StreamDep Exclusive Weight] in *. destruct e.
  - rewrite lor_top by done. change 2147483647 with (2 ^ 31 - 1). rewrite land_mask by lia.
    assert ((d + 2 ^ 31) mod 2 ^ 31 = d) as -> by (rewrite <- (Z.mul_1_l (2 ^ 31)) at 1; by rewrite Z.mod_add, Z.mod_small by lia).
    by rewrite (proj2 (Z.eqb_neq _ _)) by lia.
  - rewrite mask31' by done. by rewrite Z.eqb_refl.
Qed.

Lemma priority_word_range p : 0 ≤ StreamDep p < 2 ^ 31 → 0 ≤ priority_word p < 2 ^ 32.
Proof. intros. unfold priority_word. destruct (Exclusive p); [rewrite lor_top by done|]; lia. Qed.

Lemma zero_priority p : IsZero p = true → p = mkPriority 0 false 0.
Proof.
  destruct p as [d e w]. unfold IsZero. cbn [StreamDep Exclusive Weight].
  intros [[Hd%Z.eqb_eq He%negb_true_iff]%andb_prop Hw%Z.eqb_eq]%andb_prop. by subst.
Qed.

(** ** A frame is read back *)

Lemma byte_val_small x : 0 ≤ x < 256 → byte_val (uint8 x) = x.
Proof. intros. rewrite byte_val_uint8. by apply Z.mod_small. Qed.

Lemma length_word x :
  0 ≤ x < 2 ^ 24 →
  Z.lor (Z.lor (Z.shiftl (byte_val (uint8 (Z.shiftr x 16))) 16) (Z.shiftl (byte_val (uint8 (Z.shiftr x 8))) 8)) (byte_val (uint8 x)) = x.
Proof.
  intros Hx. change (2 ^ 24) with 16777216 in Hx. rewrite !byte_val_uint8, !Z.shiftr_div_pow2 by lia.
  change (2 ^ 16) with 65536. change (2 ^ 8) with 256.
  pose proof (Z.mod_pos_bound (x / 256) 256 ltac:(lia)). pose proof (Z.mod_pos_bound x 256 ltac:(lia)).
  assert (Z.shiftl (x / 65536 mod 256) 16 = Z.shiftl (Z.shiftl (x / 65536 mod 256) 8) 8) as -> by (by rewrite Z.shiftl_shiftl by lia).
  rewrite <- Z.shiftl_lor, (Z.lor_comm (Z.shiftl (x / 65536 mod 256) 8)), lor_shiftl_add by lia.
  rewrite (Z.lor_comm _ (x mod 256)), lor_shiftl_add by lia. change (2 ^ 8) with 256. div_lia.
Qed.

Lemma take_app_eq {A} (a b : list A) n : length a = n → take n (a ++ b) = a.
Proof. intros <-. apply take_app_length. Qed.
Lemma drop_app_eq {A} (a b : list A) n : length a = n → drop n (a ++ b) = b.
Proof. intros <-. apply drop_app_length. Qed.

Lemma readFull_app n a b : length a = n → readFull n (a ++ b) = inl (a, b).
Proof.
  intros Hl. unfold readFull. rewrite (proj2 (Nat.ltb_ge _ _)) by (rewrite length_app; lia).
  by rewrite take_app_eq, drop_app_eq.
Qed.

Lemma read_write t flags id payload w rest :
  0 ≤ t < 256 → 0 ≤ flags < 256 → 0 ≤ id < 2 ^ 32 → write_frame t flags id payload = inl w →
  ReadFrame maxFrameSize (w ++ rest) =
    (f ← parseFrame (mkHeader t flags (sizeZ payload) (Z.land id (2 ^ 31 - 1))) payload; Ok (rbind f (fun f => inl (f, rest)))).
Proof.
  intros Ht Hf Hi. unfold write_frame. change (Z.of_nat (length payload)) with (sizeZ payload).
  destruct (Z.leb_spec (2 ^ 24) (sizeZ payload)) as [Hl|Hl]; [done|]. intros Hw. apply (inj inl) in Hw. subst w. pose proof (sizeZ_nonneg payload).
  unfold ReadFrame, readFrameHeader.
  rewrite <- (app_assoc [_; _; _; _; _]), <- (app_assoc (PutUint32 id)), (app_assoc [_; _; _; _; _]).
  rewrite (readFull_app frameHeaderLen) by done. cbn [rbind].
  rewrite (drop_app_eq [_; _; _; _; _]) by done.
  cbn [nth app].
  rewrite length_word by lia. rewrite !byte_val_small by done.
  rewrite <- (app_nil_r (PutUint32 id)), Uint32_PutUint32 by done. cbn [Length].
  unfold maxFrameSize. rewrite (proj2 (Z.ltb_ge _ _)) by lia.
  rewrite readFull_app by (unfold sizeZ; lia). done.
Qed.

Lemma rbind_inl {A B} (a : A) (f : A → result B) : rbind (inl a) f = f a.
Proof. done. Qed.

Lemma chop_zero p : chop 0 p = p.
Proof. unfold chop. rewrite Nat.sub_0_r. by apply take_ge. Qed.

Lemma chop_pad p n : 0 ≤ n → chop n (p ++ padZeros n) = p.
Proof.
  intros Hn. unfold chop, padZeros. rewrite length_app, length_replicate.
  by rewrite (take_app_eq p) by lia.
Qed.

Lemma pad_length n : 0 ≤ n → sizeZ (padZeros n) = n.
Proof. intros. unfold sizeZ, padZeros. rewrite length_replicate. lia. Qed.

(** The pad length is read when it was written. *)
Lemma read_pad n p fl :
  0 ≤ n < 256 → Has fl FlagPadded = negb (n =? 0) →
  (if Has fl FlagPadded then readByte (pad_byte n ++ p) else inl (pad_byte n ++ p, 0)) = inl (p, n).
Proof.
  intros Hn ->. unfold pad_byte. destruct (Z.eqb_spec n 0) as [->|Hz]; [done|]. cbn [negb app readByte].
  by rewrite byte_val_small.
Qed.

Lemma readUint32_word v p : 0 ≤ v < 2 ^ 32 → readUint32 (PutUint32 v ++ p) = inl (p, v).
Proof.
  intros Hv. unfold readUint32. rewrite (proj2 (Nat.ltb_ge _ _)) by (rewrite length_app; simpl; lia).
  rewrite Uint32_PutUint32 by done. done.
Qed.

Ltac read_frame := erewrite read_write; [|..|eassumption]; [unfold parseFrame; cbn [Type_ Z.eqb Pos.eqb FrameData FrameHeaders FramePriority FrameRSTStream FrameSettings
    FramePushPromise FramePing FrameGoAway FrameWindowUpdate FrameContinuation]|..].

Lemma read_data id e d w rest :
  0 ≤ id < 2 ^ 32 → WriteData id e d = inl w →
  ReadFrame maxFrameSize (w ++ rest) = Ok (inl (DataFrame (mkHeader FrameData (flag e FlagEndStream) (sizeZ d) id) d, rest)).
Proof.
  intros Hi. unfold WriteData. destruct (validStreamID id) eqn:Ev; [|done]. apply valid_id in Ev; [|done]. cbn [negb].
  intros Hw. read_frame; [|by split|by destruct e|done].
  unfold parseDataFrame. cbn [StreamID Flags]. rewrite mask31 by lia. rewrite (proj2 (Z.eqb_neq id 0)) by lia.
  assert (Has (flag e FlagEndStream) FlagPadded = false) as -> by by destruct e. cbn [rbind].
  rewrite (proj2 (Z.ltb_ge _ _)) by lia. by rewrite chop_zero.
Qed.

Lemma read_window_update id incr w rest :
  0 ≤ id < 2 ^ 31 → WriteWindowUpdate id incr = inl w →
  ReadFrame maxFrameSize (w ++ rest) = Ok (inl (WindowUpdateFrame (mkHeader FrameWindowUpdate 0 4 id) incr, rest)).
Proof.
  intros Hi. unfold WriteWindowUpdate. destruct ((incr <? 1) || (2147483647 <? incr)) eqn:Er; [done|].
  apply orb_false_elim in Er as [H1%Z.ltb_ge H2%Z.ltb_ge]. intros Hw. read_frame; [|by split|done|lia].
  unfold parseWindowUpdateFrame. cbn [length Nat.eqb negb]. rewrite (mask31 id) by lia.
  rewrite <- (app_nil_r (PutUint32 incr)), Uint32_PutUint32 by lia. rewrite mask31' by lia.
  by rewrite (proj2 (Z.eqb_neq incr 0)) by lia.
Qed.

Lemma read_headers p w :
  0 ≤ hp_StreamID p < 2 ^ 32 → 0 ≤ PadLength p < 256 → 0 ≤ StreamDep (Priority p) < 2 ^ 32 → 0 ≤ Weight (Priority p) < 256 →
  BlockFragment p ≠ [] → WriteHeaders p = inl w →
  ∃ fh, (∀ rest, ReadFrame maxFrameSize (w ++ rest) = Ok (inl (HeadersFrame fh (Priority p) (BlockFragment p), rest))) ∧
    StreamID fh = hp_StreamID p ∧ Has (Flags fh) FlagEndStream = EndStream p ∧ Has (Flags fh) FlagEndHeaders = EndHeaders p.
Proof.
  intros Hi Hp Hd Hwt Hf. unfold WriteHeaders. destruct (validStreamID (hp_StreamID p)) eqn:Ev; [|done].
  apply valid_id in Ev; [|done]. cbn [negb]. set (fl := Z.lor _ _).
  destruct (negb (IsZero (Priority p)) && negb (validStreamID (StreamDep (Priority p)))) eqn:Ed; [done|].
  assert (Has fl FlagPadded = negb (PadLength p =? 0) ∧ Has fl FlagHeadersPriority = negb (IsZero (Priority p)) ∧
          Has fl FlagEndStream = EndStream p ∧ Has fl FlagEndHeaders = EndHeaders p ∧ 0 ≤ fl < 256) as (F1 & F2 & F3 & F4 & F5).
  { subst fl. by destruct (PadLength p =? 0), (IsZero (Priority p)), (EndStream p), (EndHeaders p). }
  set (pl := pad_byte (PadLength p) ++ _). intros Hw.
  exists (mkHeader FrameHeaders fl (sizeZ pl) (hp_StreamID p)). split; [intros rest|by split].
  read_frame; [|by split|done|lia]. unfold parseHeadersFrame. rewrite (mask31 (hp_StreamID p)) by lia.
  generalize (sizeZ pl). intros len. subst pl. cbn [StreamID Flags].
  rewrite (proj2 (Z.eqb_neq (hp_StreamID p) 0)) by lia. rewrite read_pad by done. cbn [rbind]. rewrite F2.
  assert (∀ q, 0 < Z.of_nat (length (BlockFragment p ++ q)) - sizeZ q) as Hlen.
  { intros q. pose proof (sizeZ_pos _ Hf). rewrite sizeZ_fold, sizeZ_app. lia. }
  destruct (IsZero (Priority p)) eqn:Ez; cbn [negb andb app] in *.
  - cbn [rbind]. specialize (Hlen (padZeros (PadLength p))). rewrite pad_length in Hlen by lia.
    rewrite (proj2 (Z.leb_gt _ _)) by lia. rewrite chop_pad by lia. by rewrite (zero_priority _ Ez).
  - apply negb_false_iff, valid_id in Ed; [|done]. rewrite <- app_assoc.
    rewrite readUint32_word by (apply priority_word_range; lia). cbn [rbind app readByte].
    rewrite byte_val_small, priority_of_word by lia. specialize (Hlen (padZeros (PadLength p))). rewrite pad_length in Hlen by lia.
    rewrite (proj2 (Z.leb_gt _ _)) by lia. by rewrite chop_pad by lia.
Qed.

Definition setting_ok (s : Z * Z) : Prop := 0 ≤ fst s < 2 ^ 16 ∧ 0 ≤ snd s < 2 ^ 32.

Definition settings_payload (ss : list (Z * Z)) : bytes :=
  concat (map (fun s => writeUint16 (fst s) ++ PutUint32 (snd s)) ss).

Lemma Uint16_writeUint16 x : 0 ≤ x < 2 ^ 16 → Uint16 (writeUint16 x) = x.
Proof.
  intros Hx. change (2 ^ 16) with 65536 in Hx. unfold Uint16, writeUint16. cbn [take foldl].
  rewrite !be_step by apply byte_val_range. rewrite !byte_val_uint8, Z.shiftr_div_pow2 by lia. change (2 ^ 8) with 256. div_lia.
Qed.

Lemma settings_written ss : Forall setting_ok ss → settings (settings_payload ss) = Ok ss.
Proof.
  induction 1 as [|[i v] ss [Hi Hv] _ IH]; [done|]. unfold settings_payload. cbn [map concat fst snd] in *.
  change (settings (writeUint16 i ++ PutUint32 v ++ ?x)) with
    (ss' ← settings x; Ok ((Uint16 (writeUint16 i), Uint32 (PutUint32 v)) :: ss')).
  rewrite <- app_assoc. unfold writeUint16 at 1, PutUint32 at 1. cbn [app settings].
  fold (settings_payload ss). rewrite IH. cbn [mbind outcome_bind].
  change [uint8 (Z.shiftr i 8); uint8 i] with (writeUint16 i). rewrite Uint16_writeUint16 by done.
  change [uint8 (Z.shiftr v 24); uint8 (Z.shiftr v 16); uint8 (Z.shiftr v 8); uint8 v] with (PutUint32 v).
  by rewrite <- (app_nil_r (PutUint32 v)), Uint32_PutUint32.
Qed.

Lemma settings_payload_length ss : (length (settings_payload ss) mod 6 = 0)%nat.
Proof.
  unfold settings_payload. replace (length _) with (length ss * 6)%nat; [apply Nat.Div0.mod_mul|].
  induction ss as [|s ss IH]; [done|]. cbn [map concat]. rewrite length_app, <- IH. done.
Qed.

(** No window of more than [2^31 - 1] is announced. *)
Definition window_ok (ss : list (Z * Z)) : Prop :=
  match find (fun x => fst x =? SettingInitialWindowSize) ss with Some s => snd s < 2 ^ 31 | None => True end.

Lemma read_settings ss w rest :
  Forall setting_ok ss → window_ok ss → WriteSettings ss = inl w →
  ∃ fh, ReadFrame maxFrameSize (w ++ rest) = Ok (inl (SettingsFrame fh (settings_payload ss), rest)) ∧ Flags fh = 0 ∧
    settings (settings_payload ss) = Ok ss.
Proof.
  intros Hss Hwin. unfold WriteSettings. fold (settings_payload ss). intros Hw.
  exists (mkHeader FrameSettings 0 (sizeZ (settings_payload ss)) 0). split; [|split; [done|by apply settings_written]].
  read_frame; [|done..]. unfold parseSettingsFrame. rewrite mask31 by lia.
  generalize (sizeZ (settings_payload ss)). intros len. cbn [StreamID Flags Length].
  change (Has 0 FlagAck) with false. cbn [andb Z.eqb negb].
  rewrite settings_payload_length. cbn [Nat.eqb negb]. unfold Value. rewrite settings_written by done.
  cbn [mbind outcome_bind]. unfold window_ok in Hwin.
  destruct (find _ ss) as [[i v]|]; cbn [fmap option_fmap option_map snd] in *; [|done].
  by rewrite (proj2 (Z.ltb_ge _ _)) by lia.
Qed.

Lemma read_settings_ack w rest :
  WriteSettingsAck = inl w →
  ReadFrame maxFrameSize (w ++ rest) = Ok (inl (SettingsFrame (mkHeader FrameSettings FlagAck 0 0) [], rest)).
Proof. unfold WriteSettingsAck. intros Hw. by read_frame. Qed.

Lemma read_ping ack d w rest :
  length d = 8%nat → WritePing ack d = inl w →
  ReadFrame maxFrameSize (w ++ rest) = Ok (inl (PingFrame (mkHeader FramePing (flag ack FlagAck) 8 0) d, rest)).
Proof.
  intros Hd. unfold WritePing. intros Hw. read_frame; [|done|by destruct ack|done].
  unfold parsePingFrame, sizeZ. rewrite Hd. done.
Qed.

Lemma read_goaway last code d w rest :
  0 ≤ last < 2 ^ 31 → 0 ≤ code < 2 ^ 32 → WriteGoAway last code d = inl w →
  ∃ fh, ReadFrame maxFrameSize (w ++ rest) = Ok (inl (GoAwayFrame fh last code d, rest)).
Proof.
  intros Hl Hc. unfold WriteGoAway. rewrite mask31 by done. set (pl := PutUint32 last ++ _). intros Hw.
  exists (mkHeader FrameGoAway 0 (sizeZ pl) 0). read_frame; [|done..]. unfold parseGoAwayFrame.
  generalize (sizeZ pl). intros len. rewrite (mask31 0) by lia. cbn [StreamID Z.eqb negb]. subst pl.
  rewrite (proj2 (Nat.ltb_ge _ _)) by (rewrite !length_app; simpl; lia).
  rewrite Uint32_PutUint32, mask31 by lia.
  rewrite (drop_app_eq (PutUint32 last)) by done. rewrite Uint32_PutUint32 by done.
  by rewrite app_assoc, (drop_app_eq (PutUint32 last ++ PutUint32 code)).
Qed.

Lemma read_priority id p w rest :
  0 ≤ id < 2 ^ 32 → 0 ≤ StreamDep p < 2 ^ 31 → 0 ≤ Weight p < 256 → WritePriority id p = inl w →
  ReadFrame maxFrameSize (w ++ rest) = Ok (inl (PriorityFrame (mkHeader FramePriority 0 5 id) p, rest)).
Proof.
  intros Hi Hd Hwt. unfold WritePriority. destruct (validStreamID id) eqn:Ev; [|done]. apply valid_id in Ev; [|done].
  cbn [negb]. intros Hw. read_frame; [|done|done|lia]. unfold parsePriorityFrame. cbn [StreamID].
  rewrite (mask31 id) by lia. rewrite (proj2 (Z.eqb_neq id 0)) by lia.
  rewrite Uint32_PutUint32 by (apply priority_word_range; lia).
  change (nth 4 (PutUint32 (priority_word p) ++ [uint8 (Weight p)]) zero) with (uint8 (Weight p)).
  by rewrite byte_val_small, priority_of_word by lia.
Qed.

Lemma read_rst id code w rest :
  0 ≤ id < 2 ^ 32 → 0 ≤ code < 2 ^ 32 → WriteRSTStream id code = inl w →
  ReadFrame maxFrameSize (w ++ rest) = Ok (inl (RSTStreamFrame (mkHeader FrameRSTStream 0 4 id) code, rest)).
Proof.
  intros Hi Hc. unfold WriteRSTStream. destruct (validStreamID id) eqn:Ev; [|done]. apply valid_id in Ev; [|done].
  cbn [negb]. intros Hw. read_frame; [|done|done|lia]. unfold parseRSTStreamFrame. cbn [StreamID].
  rewrite (mask31 id) by lia. rewrite (proj2 (Z.eqb_neq id 0)) by lia.
  rewrite <- (app_nil_r (PutUint32 code)), Uint32_PutUint32 by done. done.
Qed.

Lemma read_continuation id e d w rest :
  0 ≤ id < 2 ^ 32 → WriteContinuation id e d = inl w →
  ReadFrame maxFrameSize (w ++ rest) =
    Ok (inl (ContinuationFrame (mkHeader FrameContinuation (flag e FlagEndHeaders) (sizeZ d) id) d, rest)).
Proof.
  intros Hi. unfold WriteContinuation. destruct (validStreamID id) eqn:Ev; [|done]. apply valid_id in Ev; [|done].
  cbn [negb]. intros Hw. read_frame; [|done|by destruct e|done]. unfold parseContinuationFrame.
  by rewrite (mask31 id) by lia.
Qed.

Lemma read_push_promise p w rest :
  0 ≤ pp_StreamID p < 2 ^ 32 → 0 ≤ PromiseID p < 2 ^ 32 → 0 ≤ pp_PadLength p < 256 → WritePushPromise p = inl w →
  ∃ fh, ReadFrame maxFrameSize (w ++ rest) = Ok (inl (PushPromiseFrame fh (PromiseID p) (pp_BlockFragment p), rest)) ∧
    StreamID fh = pp_StreamID p ∧ Has (Flags fh) FlagEndHeaders = pp_EndHeaders p.
Proof.
  intros Hi Hq Hp. unfold WritePushPromise. destruct (validStreamID (pp_StreamID p)) eqn:Ev; [|done].
  destruct (validStreamID (PromiseID p)) eqn:Eq; [|done]. apply valid_id in Ev; [|done]. apply valid_id in Eq; [|done].
  cbn [negb]. set (fl := Z.lor _ _).
  assert (Has fl FlagPadded = negb (pp_PadLength p =? 0) ∧ Has fl FlagEndHeaders = pp_EndHeaders p ∧ 0 ≤ fl < 256)
    as (F1 & F2 & F3) by (subst fl; by destruct (pp_PadLength p =? 0), (pp_EndHeaders p)).
  set (pl := pad_byte (pp_PadLength p) ++ _). intros Hw.
  exists (mkHeader FramePushPromise fl (sizeZ pl) (pp_StreamID p)). split; [|by split].
  read_frame; [|by split|done|lia]. unfold parsePushPromise. rewrite (mask31 (pp_StreamID p)) by lia.
  generalize (sizeZ pl). intros len. subst pl. cbn [StreamID Flags].
  rewrite (proj2 (Z.eqb_neq (pp_StreamID p) 0)) by lia. rewrite read_pad by done. cbn [rbind].
  rewrite readUint32_word by done. cbn [rbind].
  pose proof (sizeZ_nonneg (pp_BlockFragment p)). pose proof (pad_length (pp_PadLength p) ltac:(lia)).
  rewrite (proj2 (Z.ltb_ge _ _)) by (rewrite sizeZ_fold, sizeZ_app; lia).
  by rewrite chop_pad, mask31 by lia.
Qed.

(** ** No bytes break the reader *)

(** What the parsers guarantee of a frame of each type. *)
Definition prio_ok (p : PriorityParam) : Prop := 0 ≤ StreamDep p < 2 ^ 31 ∧ 0 ≤ Weight p < 256.

Definition frame_wf (f : Frame) : Prop :=
  let fh := frame_header f in
  0 ≤ Type_ fh < 256 ∧ 0 ≤ Flags fh < 256 ∧ 0 ≤ StreamID fh < 2 ^ 31 ∧
  match f with
  | DataFrame _ d => Type_ fh = FrameData ∧ StreamID fh ≠ 0 ∧ sizeZ d ≤ Length fh
  | HeadersFrame _ p d => Type_ fh = FrameHeaders ∧ StreamID fh ≠ 0 ∧ d ≠ [] ∧ sizeZ d ≤ Length fh ∧ prio_ok p
  | PriorityFrame _ p => Type_ fh = FramePriority ∧ StreamID fh ≠ 0 ∧ prio_ok p
  | RSTStreamFrame _ c => Type_ fh = FrameRSTStream ∧ StreamID fh ≠ 0 ∧ 0 ≤ c < 2 ^ 32
  | SettingsFrame _ p =>
      Type_ fh = FrameSettings ∧ StreamID fh = 0 ∧ (Has (Flags fh) FlagAck = true → p = []) ∧
      ∃ ss, settings p = Ok ss ∧ Forall setting_ok ss ∧ window_ok ss
  | PushPromiseFrame _ i d => Type_ fh = FramePushPromise ∧ StreamID fh ≠ 0 ∧ 0 ≤ i < 2 ^ 31 ∧ sizeZ d ≤ Length fh
  | PingFrame _ d => Type_ fh = FramePing ∧ StreamID fh = 0 ∧ length d = 8%nat
  | GoAwayFrame _ l c _ => Type_ fh = FrameGoAway ∧ StreamID fh = 0 ∧ 0 ≤ l < 2 ^ 31 ∧ 0 ≤ c < 2 ^ 32
  | WindowUpdateFrame _ i => Type_ fh = FrameWindowUpdate ∧ 1 ≤ i < 2 ^ 31
  | ContinuationFrame _ d => Type_ fh = FrameContinuation ∧ sizeZ d = Length fh
  | UnknownFrame _ d => FrameContinuation < Type_ fh ∧ sizeZ d = Length fh
  end.

Lemma Uint32_bound b : 0 ≤ Uint32 b < 2 ^ 32.
Proof.
  unfold Uint32.
  assert (∀ l a n, (length l ≤ n)%nat → 0 ≤ a → 0 ≤ foldl (fun acc c => Z.lor (Z.shiftl acc 8) (byte_val c)) a l < (a + 1) * 256 ^ Z.of_nat n) as H.
  { induction l as [|c l IH]; intros a n Hn Ha; cbn [foldl length] in *.
    - assert (1 ≤ 256 ^ Z.of_nat n); [|nia]. pose proof (Z.pow_pos_nonneg 256 (Z.of_nat n)). lia.
    - destruct n as [|n]; [lia|]. pose proof (byte_val_range c). rewrite be_step by done.
      destruct (IH (a * 256 + byte_val c) n ltac:(lia) ltac:(lia)) as [H1 H2]. split; [done|].
      rewrite Nat2Z.inj_succ, Z.pow_succ_r by lia. assert (0 < 256 ^ Z.of_nat n) by (apply Z.pow_pos_nonneg; lia). nia. }
  specialize (H (take 4 b) 0 4%nat ltac:(rewrite length_take; lia) ltac:(lia)). change ((0 + 1) * 256 ^ Z.of_nat 4) with (2 ^ 32) in H. done.
Qed.

Lemma Uint16_bound a b : 0 ≤ Uint16 [a; b] < 2 ^ 16.
Proof.
  pose proof (byte_val_range a). pose proof (byte_val_range b). unfold Uint16. cbn [take foldl].
  rewrite !be_step by done. change (2 ^ 16) with 65536. lia.
Qed.

Lemma settings_total p : (length p mod 6 = 0)%nat → ∃ ss, settings p = Ok ss ∧ Forall setting_ok ss.
Proof.
  remember (length p) as n eqn:En. revert p En. induction n as [n IH] using lt_wf_ind. intros p -> Hm.
  destruct p as [|a [|b [|c [|d [|e [|f p]]]]]]; try done; [by exists []|].
  destruct (IH (length p)) with (p := p) as (ss & E & Hss); [simpl; lia|done| |].
  { cbn [length] in Hm. replace (S (S (S (S (S (S (length p))))))) with (length p + 1 * 6)%nat in Hm by lia.
    by rewrite Nat.Div0.mod_add in Hm. }
  exists ((Uint16 [a; b], Uint32 [c; d; e; f]) :: ss). cbn [settings]. rewrite E. split; [done|]. constructor; [|done].
  split; [apply Uint16_bound|apply Uint32_bound].
Qed.

Lemma mask31_range x : 0 ≤ Z.land x (2 ^ 31 - 1) < 2 ^ 31.
Proof. rewrite land_mask by lia. by apply Z.mod_pos_bound. Qed.

Lemma chop_size n p : sizeZ (chop n p) ≤ sizeZ p.
Proof. unfold sizeZ, chop. rewrite length_take. lia. Qed.

Lemma readByte_size p q v : readByte p = inl (q, v) → sizeZ q < sizeZ p ∧ 0 ≤ v < 256.
Proof. unfold readByte. destruct p as [|c p]; [done|]. intros [= <- <-]. pose proof (byte_val_range c). unfold sizeZ. cbn [length]. lia. Qed.

Lemma readUint32_size p q v : readUint32 p = inl (q, v) → sizeZ q < sizeZ p ∧ 0 ≤ v < 2 ^ 32.
Proof.
  unfold readUint32. destruct (Nat.ltb_spec (length p) 4); [done|]. intros [= <- <-]. pose proof (Uint32_bound p).
  unfold sizeZ. rewrite length_drop. lia.
Qed.

Lemma pad_size (b : bool) p q v :
  (if b then readByte p else inl (p, 0)) = inl (q, v) → sizeZ q ≤ sizeZ p ∧ 0 ≤ v < 256.
Proof. destruct b; [intros H%readByte_size; lia|intros [= <- <-]; lia]. Qed.

Lemma priority_of_ok v w : 0 ≤ w < 256 → prio_ok (priority_of v w).
Proof. intros Hw. split; [|done]. cbn [StreamDep priority_of]. apply mask31_range. Qed.

(** The header of a frame as it is read. *)
Definition header_wf (fh : FrameHeader) : Prop :=
  0 ≤ Type_ fh < 256 ∧ 0 ≤ Flags fh < 256 ∧ 0 ≤ StreamID fh < 2 ^ 31.

Definition parse_ok (fh : FrameHeader) (r : result Frame) : Prop :=
  match r with inl f => frame_header f = fh ∧ frame_wf f | inr _ => True end.

Lemma parse_data_ok fh p :
  header_wf fh → Type_ fh = FrameData → sizeZ p = Length fh → parse_ok fh (parseDataFrame fh p).
Proof.
  intros (? & ? & ?) Ht Hl. unfold parseDataFrame. destruct (Z.eqb_spec (StreamID fh) 0); [done|].
  destruct (if Has _ _ then _ else _) as [[q v]|] eqn:E; [|done]. apply pad_size in E as [E _]. cbn [rbind].
  destruct (Z.of_nat (length q) <? v); [done|]. pose proof (chop_size v q). split; [done|].
  repeat split; try done; cbn [frame_header]; lia.
Qed.

Lemma parse_headers_ok fh p :
  header_wf fh → Type_ fh = FrameHeaders → sizeZ p = Length fh → parse_ok fh (parseHeadersFrame fh p).
Proof.
  intros (? & ? & ?) Ht Hl. unfold parseHeadersFrame. destruct (Z.eqb_spec (StreamID fh) 0); [done|].
  destruct (if Has (Flags fh) FlagPadded then _ else _) as [[q v]|] eqn:E; [|done]. apply pad_size in E as [E Hv]. cbn [rbind].
  destruct (if Has (Flags fh) FlagHeadersPriority then _ else _) as [[q' pr]|] eqn:E'; [|done]. cbn [rbind].
  assert (sizeZ q' ≤ sizeZ q ∧ prio_ok pr) as [Hq Hpr].
  { destruct (Has (Flags fh) FlagHeadersPriority); [|injection E' as <- <-; split; [lia|by split; simpl]].
    destruct (readUint32 q) as [[r w]|] eqn:E1; [|done]. cbn [rbind] in E'. destruct (readByte r) as [[r' w']|] eqn:E2; [|done].
    cbn [rbind] in E'. injection E' as <- <-. apply readUint32_size in E1. apply readByte_size in E2.
    split; [lia|]. apply priority_of_ok. lia. }
  destruct (Z.leb_spec (Z.of_nat (length q') - v) 0) as [|Hlen]; [done|]. pose proof (chop_size v q').
  split; [done|]. repeat split; try done; try apply Hpr; cbn [frame_header]; try lia.
  intros Hn. apply (f_equal length) in Hn. unfold chop in Hn. rewrite length_take in Hn. simpl in Hn. lia.
Qed.

Lemma parse_promise_ok fh p :
  header_wf fh → Type_ fh = FramePushPromise → sizeZ p = Length fh → parse_ok fh (parsePushPromise fh p).
Proof.
  intros (? & ? & ?) Ht Hl. unfold parsePushPromise. destruct (Z.eqb_spec (StreamID fh) 0); [done|].
  destruct (if Has _ _ then _ else _) as [[q v]|] eqn:E; [|done]. apply pad_size in E as [E _]. cbn [rbind].
  destruct (readUint32 q) as [[r w]|] eqn:E1; [|done]. apply readUint32_size in E1 as [E1 _]. cbn [rbind].
  destruct (Z.of_nat (length r) <? v); [done|]. pose proof (chop_size v r). pose proof (mask31_range w).
  split; [done|]. repeat split; try done; cbn [frame_header]; lia.
Qed.

Lemma parse_settings_ok fh p :
  header_wf fh → Type_ fh = FrameSettings → sizeZ p = Length fh → ∃ r, parseSettingsFrame fh p = Ok r ∧ parse_ok fh r.
Proof.
  intros (? & ? & ?) Ht Hl. unfold parseSettingsFrame.
  destruct (Has (Flags fh) FlagAck && (0 <? Length fh)) eqn:Ea; [by eexists|].
  destruct (Z.eqb_spec (StreamID fh) 0) as [Ei|]; [|by eexists]. cbn [negb].
  destruct (Nat.eqb_spec (length p mod 6) 0) as [Em|]; [|by eexists]. cbn [negb].
  destruct (settings_total p Em) as (ss & Es & Hss). unfold Value. rewrite Es. cbn [mbind outcome_bind].
  assert (∀ b : bool, (b = false → window_ok ss) → parse_ok fh (if b then inr (ConnError ErrCodeFlowControl) else inl (SettingsFrame fh p))) as HW.
  { intros [] Hw; [done|]. split; [done|]. split; [done|]. split; [done|]. split; [done|]. cbn [frame_header]. split; [done|].
    split; [done|]. split; [|by exists ss; auto].
    intros Hk. rewrite Hk in Ea. apply Z.ltb_ge in Ea. destruct p; [done|]. unfold sizeZ in Hl. simpl in Hl. lia. }
  unfold window_ok in HW. destruct (find _ ss) as [[i v]|]; cbn [fmap option_fmap option_map snd] in *.
  - eexists. split; [reflexivity|]. apply HW. intros Hv%Z.ltb_ge. cbn [snd]. lia.
  - eexists. split; [reflexivity|]. by apply (HW false).
Qed.

Lemma parse_fixed_ok fh p :
  header_wf fh → sizeZ p = Length fh →
  (Type_ fh = FramePriority → parse_ok fh (parsePriorityFrame fh p)) ∧
  (Type_ fh = FrameRSTStream → parse_ok fh (parseRSTStreamFrame fh p)) ∧
  (Type_ fh = FramePing → parse_ok fh (parsePingFrame fh p)) ∧
  (Type_ fh = FrameGoAway → parse_ok fh (parseGoAwayFrame fh p)) ∧
  (Type_ fh = FrameWindowUpdate → parse_ok fh (parseWindowUpdateFrame fh p)).
Proof.
  intros (H1 & H2 & H3) Hl. split_and!; intros Ht.
  - unfold parsePriorityFrame. destruct (Z.eqb_spec (StreamID fh) 0); [done|]. destruct (negb _); [done|].
    destruct (priority_of_ok (Uint32 p) (byte_val (nth 4 p zero)) (byte_val_range _)) as [[??] [??]]. repeat split; try done; cbn [frame_header]; lia.
  - unfold parseRSTStreamFrame. destruct (negb _); [done|]. destruct (Z.eqb_spec (StreamID fh) 0); [done|].
    pose proof (Uint32_bound p). repeat split; try done; cbn [frame_header]; lia.
  - unfold parsePingFrame. destruct (Nat.eqb_spec (length p) 8); [|done]. destruct (Z.eqb_spec (StreamID fh) 0); [|done].
    repeat split; try done; cbn [frame_header]; lia.
  - unfold parseGoAwayFrame. destruct (Z.eqb_spec (StreamID fh) 0); [|done]. cbn [negb]. destruct (length p <? 8)%nat; [done|].
    destruct (mask31_range (Uint32 p)), (Uint32_bound (drop 4 p)). repeat split; try done; cbn [frame_header]; lia.
  - unfold parseWindowUpdateFrame. destruct (negb _); [done|]. destruct (Z.eqb_spec (Z.land (Uint32 p) 2147483647) 0).
    + by destruct (StreamID fh =? 0).
    + destruct (mask31_range (Uint32 p)). change (2 ^ 31 - 1) with 2147483647 in *. repeat split; try done; cbn [frame_header]; lia.
Qed.

Lemma parse_frame_ok fh p :
  header_wf fh → sizeZ p = Length fh → ∃ r, parseFrame fh p = Ok r ∧ parse_ok fh r.
Proof.
  intros Hw Hl. destruct (parse_fixed_ok fh p Hw Hl) as (F1 & F2 & F3 & F4 & F5). unfold parseFrame.
  destruct (Z.eqb_spec (Type_ fh) FrameData); [eexists; split; [done|]; by apply parse_data_ok|].
  destruct (Z.eqb_spec (Type_ fh) FrameHeaders); [eexists; split; [done|]; by apply parse_headers_ok|].
  destruct (Z.eqb_spec (Type_ fh) FramePriority); [eexists; by split; [|apply F1]|].
  destruct (Z.eqb_spec (Type_ fh) FrameRSTStream); [eexists; by split; [|apply F2]|].
  destruct (Z.eqb_spec (Type_ fh) FrameSettings); [by apply parse_settings_ok|].
  destruct (Z.eqb_spec (Type_ fh) FramePushPromise); [eexists; split; [done|]; by apply parse_promise_ok|].
  destruct (Z.eqb_spec (Type_ fh) FramePing); [eexists; by split; [|apply F3]|].
  destruct (Z.eqb_spec (Type_ fh) FrameGoAway); [eexists; by split; [|apply F4]|].
  destruct (Z.eqb_spec (Type_ fh) FrameWindowUpdate); [eexists; by split; [|apply F5]|].
  pose proof Hw as (H1 & H2 & H3).
  destruct (Z.eqb_spec (Type_ fh) FrameContinuation); (eexists; split; [done|]; split; [done|]; repeat split; try done; cbn [frame_header]; try lia).
  unfold FrameContinuation, FrameData, FrameHeaders, FramePriority, FrameRSTStream, FrameSettings,
    FramePushPromise, FramePing, FrameGoAway, FrameWindowUpdate in *. lia.
Qed.

(** ** Properties *)

(** C16: whatever bytes arrive, [ReadFrame] does not panic. A frame that it returns obeys
    the rules of its type: data, headers and promises belong to a stream, settings, pings
    and goodbyes to none, identifiers have 31 bits, increments are positive, the settings
    can be listed and announce no window beyond [2^31 - 1]. It has taken exactly
    the frame off the connection, and no frame beyond the configured size is accepted. *)
Theorem ReadFrame_safe (maxReadSize : Z) (buf : bytes) :
  match ReadFrame maxReadSize buf with
  | Ok (inl (f, rest)) =>
      frame_wf f ∧ Length (frame_header f) ≤ maxReadSize ∧
      sizeZ buf = Z.of_nat frameHeaderLen + Length (frame_header f) + sizeZ rest
  | Ok (inr _) => True
  | Err _ | Panic _ => False
  end.
Proof.
  unfold ReadFrame, readFrameHeader, readFull. destruct (Nat.ltb_spec (length buf) frameHeaderLen) as [|Hb]; [done|].
  cbn [rbind]. set (h := take frameHeaderLen buf).
  assert (length h = 9%nat) as Hh by (unfold h; rewrite length_take; unfold frameHeaderLen in *; lia).
  set (len := Z.lor _ _). set (fh := mkHeader _ _ len _). cbn [Length].
  destruct (Z.ltb_spec maxReadSize (Length fh)) as [|Hm]; [done|].
  destruct (Nat.ltb_spec (length (drop frameHeaderLen buf)) (Z.to_nat (Length fh))) as [|Hr]; [done|].
  assert (0 ≤ Length fh) as Hpos.
  { subst fh len. cbn [Length]. pose proof (byte_val_range (nth 0 h zero)). pose proof (byte_val_range (nth 1 h zero)).
    pose proof (byte_val_range (nth 2 h zero)). rewrite !Z.lor_nonneg, !Z.shiftl_nonneg. lia. }
  set (p := take _ (drop frameHeaderLen buf)).
  assert (sizeZ p = Length fh) as Hp by (unfold sizeZ, p; rewrite length_take; lia).
  destruct (parse_frame_ok fh p) as (r & -> & Hok).
  { split; [apply byte_val_range|]. split; [apply byte_val_range|apply mask31_range]. }
  { done. }
  cbn [mbind outcome_bind]. destruct r as [f|]; [|done]. cbn [rbind]. destruct Hok as [-> Hwf].
  split; [done|]. split; [done|]. unfold sizeZ in *. rewrite !length_drop in *. lia.
Qed.


(** ** The frames of a stream *)

(** The data frames and the window updates of a connection, in every state that its two
    ends can reach, are frames that the [Framer] of their sender accepts and that of the
    receiver reads back: what is transferred as values in the model of a stream is
    what its bytes say. *)
Theorem stream_frames_readable (id : Z) (cs : list (bytes * bool)) (ls : list xlabel) (s : xfer) :
  0 < id < 2 ^ 31 → run xfer_rel (xfer_start cs) ls s →
  (∀ f, f ∈ wire s → ∃ w, WriteData id (endStream f) (Data f) = inl w ∧
     ∀ rest, ∃ fh, ReadFrame maxFrameSize (w ++ rest) = Ok (inl (DataFrame fh (Data f), rest)) ∧
       StreamID fh = id ∧ Has (Flags fh) FlagEndStream = endStream f) ∧
  (∀ u, u ∈ updates s → let uid := if of_stream u then id else 0 in
     ∃ w, WriteWindowUpdate uid (increment u) = inl w ∧
     ∀ rest, ∃ fh, ReadFrame maxFrameSize (w ++ rest) = Ok (inl (WindowUpdateFrame fh (increment u), rest)) ∧
       StreamID fh = uid).
Proof.
  intros Hid Hr. assert (0 ≤ id < 2 ^ 32) as Hid' by lia. destruct (xfer_reachable_inv _ _ _ Hr) as [HQ HS]. destruct (reachable_fit _ _ _ Hr) as [HF _]. split.
  - intros f Hf. rewrite Forall_forall in HF. specialize (HF f Hf).
    assert (∃ w, WriteData id (endStream f) (Data f) = inl w) as [w Hw].
    { unfold WriteData. rewrite valid_id_intro by lia. cbn [negb]. unfold write_frame. rewrite sizeZ_fold.
      rewrite (proj2 (Z.leb_gt _ _)); [by eexists|]. unfold http2MaxFrameLen in HF. lia. }
    exists w. split; [done|]. intros rest. eexists. split; [by apply read_data|]. split; [done|].
    by destruct (endStream f).
  - intros u Hu uid. pose proof (qi_updates _ HQ) as HU. pose proof (quota_bounds s HQ (si_writer _ HS)) as HB.
    pose proof (qi_stream _ HQ) as Es. pose proof (qi_conn _ HQ) as Ec. pose proof (qi_flows _ HQ) as [(? & ? & _) (? & ? & _)].
    apply Forall_app in HU as [HU1 HU2].
    assert (0 < increment u ≤ returning (of_stream u) s) as Hi.
    { split; [by eapply Forall_forall in HU2|]. unfold returning. pose proof (updates_nonneg (of_stream u) _ HU1).
      apply list_elem_of_lookup in Hu as [i Hu].
      assert (∀ l i, l !! i = Some u → Forall (fun u => 0 < increment u) l → increment u ≤ sumZ (update_size (of_stream u)) l) as Hl.
      { induction l as [|v l IH]; intros j Hj HFl; [done|]. apply Forall_cons in HFl as [Hv HFl]. rewrite sumZ_cons.
        pose proof (updates_nonneg (of_stream u) _ HFl). destruct j as [|j]; simplify_eq/=.
        - unfold update_size at 1. rewrite eqb_reflx. lia.
        - specialize (IH j Hj HFl). unfold update_size at 1. destruct (Bool.eqb _ _); lia. }
      specialize (Hl _ _ Hu HU2). lia. }
    unfold initialWindowSize, initialConnWindowSize, defaultWindowSize in *.
    assert (∃ w, WriteWindowUpdate uid (increment u) = inl w) as [w Hw].
    { unfold WriteWindowUpdate. destruct (Z.ltb_spec (increment u) 1); [lia|].
      destruct (Z.ltb_spec 2147483647 (increment u)); [destruct (of_stream u); lia|]. by eexists. }
    exists w. split; [done|]. intros rest. eexists. split; [apply read_window_update; [|done]|done].
    subst uid. destruct (of_stream u); lia.
Qed.

Lemma stream_frames_readable_witness :
  ∃ s, xfer_exec (take 7 nine_schedule) (xfer_start (stream_calls nine true)) = Some s ∧ length (wire s) = 1%nat ∧
    ∀ f, f ∈ wire s → ∃ w, WriteData 1 (endStream f) (Data f) = inl w.
Proof.
  eexists. split; [vm_compute; reflexivity|]. split; [vm_compute; reflexivity|]. intros f Hf.
  edestruct (stream_frames_readable 1 (stream_calls nine true) (take 7 nine_schedule)) as [H _];
    [done|apply xfer_exec_run; vm_compute; reflexivity|].
  destruct (H f Hf) as (w & Hw & _). by exists w.
Defined.
