(* ===== verification/Huffman.v ===== *)
(** * Huffman coding of header strings (golang.org/x/net/http2/hpack, tables.go and huffman.go)

    The code table, the decoding tree as [init] builds it, and the two directions.  The
    accumulator [cur] is a 64-bit word of which the low [nbits] bits are still to decode;
    [nbits] stays below 16. *)
From Stdlib Require Import ZArith Lia Ascii.
From stdpp Require Import base option list.
From S2P Require Import Prelude GoNum GoFmt Strconv Proto.

(** ** The code *)

(** The codes of the bytes below 128, and of the others. *)
Definition codes_low : list Z :=
  [0x1ff8; 0x7fffd8; 0xfffffe2; 0xfffffe3; 0xfffffe4; 0xfffffe5; 0xfffffe6; 0xfffffe7;
   0xfffffe8; 0xffffea; 0x3ffffffc; 0xfffffe9; 0xfffffea; 0x3ffffffd; 0xfffffeb; 0xfffffec;
   0xfffffed; 0xfffffee; 0xfffffef; 0xffffff0; 0xffffff1; 0xffffff2; 0x3ffffffe; 0xffffff3;
   0xffffff4; 0xffffff5; 0xffffff6; 0xffffff7; 0xffffff8; 0xffffff9; 0xffffffa; 0xffffffb;
   0x14; 0x3f8; 0x3f9; 0xffa; 0x1ff9; 0x15; 0xf8; 0x7fa;
   0x3fa; 0x3fb; 0xf9; 0x7fb; 0xfa; 0x16; 0x17; 0x18;
   0x0; 0x1; 0x2; 0x19; 0x1a; 0x1b; 0x1c; 0x1d;
   0x1e; 0x1f; 0x5c; 0xfb; 0x7ffc; 0x20; 0xffb; 0x3fc;
   0x1ffa; 0x21; 0x5d; 0x5e; 0x5f; 0x60; 0x61; 0x62;
   0x63; 0x64; 0x65; 0x66; 0x67; 0x68; 0x69; 0x6a;
   0x6b; 0x6c; 0x6d; 0x6e; 0x6f; 0x70; 0x71; 0x72;
   0xfc; 0x73; 0xfd; 0x1ffb; 0x7fff0; 0x1ffc; 0x3ffc; 0x22;
   0x7ffd; 0x3; 0x23; 0x4; 0x24; 0x5; 0x25; 0x26;
   0x27; 0x6; 0x74; 0x75; 0x28; 0x29; 0x2a; 0x7;
   0x2b; 0x76; 0x2c; 0x8; 0x9; 0x2d; 0x77; 0x78;
   0x79; 0x7a; 0x7b; 0x7ffe; 0x7fc; 0x3ffd; 0x1ffd; 0xffffffc].

Definition codes_high : list Z :=
  [0xfffe6; 0x3fffd2; 0xfffe7; 0xfffe8; 0x3fffd3; 0x3fffd4; 0x3fffd5; 0x7fffd9;
   0x3fffd6; 0x7fffda; 0x7fffdb; 0x7fffdc; 0x7fffdd; 0x7fffde; 0xffffeb; 0x7fffdf;
   0xffffec; 0xffffed; 0x3fffd7; 0x7fffe0; 0xffffee; 0x7fffe1; 0x7fffe2; 0x7fffe3;
   0x7fffe4; 0x1fffdc; 0x3fffd8; 0x7fffe5; 0x3fffd9; 0x7fffe6; 0x7fffe7; 0xffffef;
   0x3fffda; 0x1fffdd; 0xfffe9; 0x3fffdb; 0x3fffdc; 0x7fffe8; 0x7fffe9; 0x1fffde;
   0x7fffea; 0x3fffdd; 0x3fffde; 0xfffff0; 0x1fffdf; 0x3fffdf; 0x7fffeb; 0x7fffec;
   0x1fffe0; 0x1fffe1; 0x3fffe0; 0x1fffe2; 0x7fffed; 0x3fffe1; 0x7fffee; 0x7fffef;
   0xfffea; 0x3fffe2; 0x3fffe3; 0x3fffe4; 0x7ffff0; 0x3fffe5; 0x3fffe6; 0x7ffff1;
   0x3ffffe0; 0x3ffffe1; 0xfffeb; 0x7fff1; 0x3fffe7; 0x7ffff2; 0x3fffe8; 0x1ffffec;
   0x3ffffe2; 0x3ffffe3; 0x3ffffe4; 0x7ffffde; 0x7ffffdf; 0x3ffffe5; 0xfffff1; 0x1ffffed;
   0x7fff2; 0x1fffe3; 0x3ffffe6; 0x7ffffe0; 0x7ffffe1; 0x3ffffe7; 0x7ffffe2; 0xfffff2;
   0x1fffe4; 0x1fffe5; 0x3ffffe8; 0x3ffffe9; 0xffffffd; 0x7ffffe3; 0x7ffffe4; 0x7ffffe5;
   0xfffec; 0xfffff3; 0xfffed; 0x1fffe6; 0x3fffe9; 0x1fffe7; 0x1fffe8; 0x7ffff3;
   0x3fffea; 0x3fffeb; 0x1ffffee; 0x1ffffef; 0xfffff4; 0xfffff5; 0x3ffffea; 0x7ffff4;
   0x3ffffeb; 0x7ffffe6; 0x3ffffec; 0x3ffffed; 0x7ffffe7; 0x7ffffe8; 0x7ffffe9; 0x7ffffea;
   0x7ffffeb; 0xffffffe; 0x7ffffec; 0x7ffffed; 0x7ffffee; 0x7ffffef; 0x7fffff0; 0x3ffffee].

Definition huffmanCodes : list Z := codes_low ++ codes_high.

Definition huffmanCodeLen : list Z :=
  [13; 23; 28; 28; 28; 28; 28; 28; 28; 24; 30; 28; 28; 30; 28; 28;
   28; 28; 28; 28; 28; 28; 30; 28; 28; 28; 28; 28; 28; 28; 28; 28;
   6; 10; 10; 12; 13; 6; 8; 11; 10; 10; 8; 11; 8; 6; 6; 6;
   5; 5; 5; 6; 6; 6; 6; 6; 6; 6; 7; 8; 15; 6; 12; 10;
   13; 6; 7; 7; 7; 7; 7; 7; 7; 7; 7; 7; 7; 7; 7; 7;
   7; 7; 7; 7; 7; 7; 7; 7; 8; 7; 8; 13; 19; 13; 14; 6;
   15; 5; 6; 5; 6; 5; 6; 6; 6; 5; 7; 7; 6; 6; 6; 5;
   6; 7; 6; 5; 5; 6; 7; 7; 7; 7; 7; 15; 11; 14; 13; 28;
   20; 22; 20; 20; 22; 22; 22; 23; 22; 23; 23; 23; 23; 23; 24; 23;
   24; 24; 22; 23; 24; 23; 23; 23; 23; 21; 22; 23; 22; 23; 23; 24;
   22; 21; 20; 22; 22; 23; 23; 21; 23; 22; 22; 24; 21; 22; 23; 23;
   21; 21; 22; 21; 23; 22; 23; 23; 20; 22; 22; 22; 23; 22; 22; 23;
   26; 26; 20; 19; 22; 23; 22; 25; 26; 26; 26; 27; 27; 26; 24; 25;
   19; 21; 26; 27; 27; 26; 27; 24; 21; 21; 26; 26; 28; 27; 27; 27;
   20; 24; 20; 21; 22; 21; 21; 23; 22; 22; 25; 25; 24; 24; 26; 23;
   26; 27; 26; 26; 27; 27; 27; 27; 27; 28; 27; 27; 27; 27; 27; 26].

Definition code_of (c : ascii) : Z := nth (Z.to_nat (byte_val c)) huffmanCodes 0.
Definition len_of (c : ascii) : Z := nth (Z.to_nat (byte_val c)) huffmanCodeLen 0.

(** ** The decoding tree *)

Inductive node := Internal (children : list (option node)) | Leaf (codeLen : Z) (sym : ascii).

Definition newInternalNode : node := Internal (replicate 256 None).

(** The slots from [start] on, [n] of them. *)
Definition fill (start n : nat) (leaf : node) (ch : list (option node)) : list (option node) :=
  foldr (fun i ch => <[i:=Some leaf]> ch) ch (seq start n).

(** [addDecoderNode]; each level takes eight bits of [codeLen], which bounds the depth. *)
Fixpoint addDecoderNode (fuel : nat) (sym : ascii) (code codeLen : Z) (cur : node) : outcome node :=
  match fuel, cur with
  | S fuel, Internal ch =>
      if 8 <? codeLen then
        let codeLen := codeLen - 8 in
        let i := Z.to_nat (byte_val (uint8 (Z.shiftr code codeLen))) in
        child ← addDecoderNode fuel sym code codeLen (default newInternalNode (default None (ch !! i)));
        Ok (Internal (<[i:=Some child]> ch))
      else
        let shift := 8 - codeLen in
        let start := Z.to_nat (byte_val (uint8 (Z.shiftl code shift))) in
        Ok (Internal (fill start (Z.to_nat (Z.shiftl 1 shift)) (Leaf codeLen sym) ch))
  | _, _ => Panic "runtime error: index out of range"
  end.

Definition symbols : list ascii := map (fun n => ascii_of_nat n) (seq 0 256).

(** The tree after [init]. *)
Definition init_tree : outcome node :=
  foldl (fun t c => n ← t; addDecoderNode 8 c (code_of c) (len_of c) n) (Ok newInternalNode) symbols.

Definition rootHuffmanNode : node :=
  match init_tree with Ok n => n | _ => newInternalNode end.

(** [n.children[idx]]. *)
Definition child (n : node) (idx : ascii) : option node :=
  match n with
  | Internal ch => default None (ch !! Z.to_nat (byte_val idx))
  | Leaf _ _ => None
  end.

(** ** Decoding *)

Definition ErrInvalidHuffman : error := Errorf "hpack: invalid Huffman-encoded data".
Definition ErrStringLength : error := Errorf "hpack: string too long".

(** The variables of [huffmanDecode]. *)
Record hstate := mkH { h_n : node; cur : Z; nbits : Z; h_buf : bytes }.

(** The loop [for nbits >= 8]; every round takes at least a bit. *)
Fixpoint decode_symbols (fuel : nat) (maxLen : Z) (s : hstate) : outcome hstate :=
  if 8 <=? nbits s then
    match fuel with
    | O => Panic "out of fuel"
    | S fuel =>
        match child (h_n s) (uint8 (Z.shiftr (cur s) (nbits s - 8))) with
        | None => Err ErrInvalidHuffman
        | Some (Leaf codeLen sym) =>
            if negb (maxLen =? 0) && (Z.of_nat (length (h_buf s)) =? maxLen) then Err ErrStringLength else
            decode_symbols fuel maxLen (mkH rootHuffmanNode (cur s) (nbits s - codeLen) (h_buf s ++ [sym]))
        | Some m => decode_symbols fuel maxLen (mkH m (cur s) (nbits s - 8) (h_buf s))
        end
    end
  else Ok s.

Definition decode_byte (maxLen : Z) (s : hstate) (b : ascii) : outcome hstate :=
  decode_symbols 16 maxLen
    (mkH (h_n s) (uint64 (Z.lor (Z.shiftl (cur s) 8) (byte_val b))) (nbits s + 8) (h_buf s)).

(** The loop [for nbits > 0] at the end. *)
Fixpoint decode_rest (fuel : nat) (s : hstate) : outcome bytes :=
  if 0 <? nbits s then
    match fuel with
    | O => Panic "out of fuel"
    | S fuel =>
        match child (h_n s) (uint8 (Z.shiftl (cur s) (8 - nbits s))) with
        | None => Panic "runtime error: invalid memory address or nil pointer dereference"
        | Some (Leaf codeLen sym) =>
            if nbits s <? codeLen then Ok (h_buf s) else
            decode_rest fuel (mkH rootHuffmanNode (cur s) (nbits s - codeLen) (h_buf s ++ [sym]))
        | Some (Internal _) => Ok (h_buf s)
        end
    end
  else Ok (h_buf s).

(** [huffmanDecode]: the decoded string, or an error. *)
Definition huffmanDecode (maxLen : Z) (v : bytes) : outcome bytes :=
  s ← foldl (fun o b => s ← o; decode_byte maxLen s b) (Ok (mkH rootHuffmanNode 0 0 [])) v;
  decode_rest 8 s.

(** ** Encoding *)

(** [dst[len(dst)-1] |= t]. *)
Definition or_last (t : Z) (dst : bytes) : bytes :=
  alter (fun b => uint8 (Z.lor (byte_val b) (byte_val (uint8 t)))) (pred (length dst)) dst.

(** The loop of [appendByteToHuffmanCode]; each round but the last takes a bit at least. *)
Fixpoint append_code (fuel : nat) (code nbits : Z) (dst : bytes) (rembits : Z) : bytes * Z :=
  if nbits <? rembits then (or_last (Z.shiftl code (rembits - nbits)) dst, rembits - nbits) else
  let dst := or_last (Z.shiftr code (nbits - rembits)) dst in
  let nbits := nbits - rembits in
  if nbits =? 0 then (dst, 8) else
  match fuel with
  | S fuel => append_code fuel code nbits (dst ++ [zero]) 8
  | O => (dst, 8)
  end.

Definition appendByteToHuffmanCode (dst : bytes) (rembits : Z) (c : ascii) : bytes * Z :=
  append_code 32 (code_of c) (len_of c) dst rembits.

(** The special symbol that ends a string: 30 ones. *)
Definition eos_code : Z := 0x3fffffff.
Definition eos_len : Z := 30.

(** A round of its loop: [dst] and [rembits]. *)
Definition encode_step (x : bytes * Z) (c : ascii) : bytes * Z :=
  let '(dst, rembits) := x in appendByteToHuffmanCode (if rembits =? 8 then dst ++ [zero] else dst) rembits c.

Definition AppendHuffmanString (dst s : bytes) : bytes :=
  let '(dst, rembits) := foldl encode_step (dst, 8) s in
  if rembits <? 8 then or_last (Z.shiftr eos_code (eos_len - rembits)) dst else dst.

Definition HuffmanEncodeLength (s : bytes) : Z :=
  uint64 (foldl (fun n c => uint64 (n + len_of c)) 0 s + 7) / 8.

(** ** Examples *)

Lemma init_tree_ok : init_tree = Ok rootHuffmanNode.
Proof. by vm_compute. Qed.

Example huffman_examples :
  let s := to_bytes "www.example.com" in
  huffmanDecode 0 (AppendHuffmanString [] s) = Ok s ∧
  length (AppendHuffmanString [] s) = 12%nat ∧ HuffmanEncodeLength s = 12.
Proof. by vm_compute. Qed.

(** Ten zeros are two letters, thirty ones the end symbol. *)
Example huffman_panics :
  panics (huffmanDecode 0 (map uint8 [0x00; 0x3f; 0xff; 0xff; 0xff])) = true.
Proof. by vm_compute. Qed.
