(* ===== verification/HuffmanFacts.v ===== *)
(** * The Huffman coder is that of its code

    Bits of a word, the tree of [init] as a table of the code, and the two directions as
    functions on lists of bits. *)
From Stdlib Require Import ZArith Lia Ascii.
From stdpp Require Import base option list.
From S2P Require Import Prelude GoNum GoFmt Strconv Proto GrpcFacts Huffman.

(** ** Bits, the highest first *)

Fixpoint bits_of (n : nat) (x : Z) : list bool :=
  match n with O => [] | S n => Z.testbit x (Z.of_nat n) :: bits_of n x end.

Definition byte_bits (c : ascii) : list bool := bits_of 8 (byte_val c).
Definition bits (v : bytes) : list bool := concat (map byte_bits v).

Lemma bits_of_length n x : length (bits_of n x) = n.
Proof. induction n; simpl; congruence. Qed.

Lemma bits_of_ext n x y :
  (∀ i, 0 ≤ i < Z.of_nat n → Z.testbit x i = Z.testbit y i) → bits_of n x = bits_of n y.
Proof.
  induction n as [|n IH]; intros H; [done|]. cbn [bits_of]. f_equal; [apply H; lia|]. apply IH. intros i Hi. apply H. lia.
Qed.

Lemma bits_of_app n m x : bits_of (n + m) x = bits_of n (Z.shiftr x (Z.of_nat m)) ++ bits_of m x.
Proof.
  induction n as [|n IH]; [done|]. cbn [bits_of Nat.add app]. rewrite IH, Z.shiftr_spec by lia. do 2 f_equal. lia.
Qed.

Lemma bits_of_mod n k x : (n ≤ k)%nat → bits_of n (x mod 2 ^ Z.of_nat k) = bits_of n x.
Proof. intros. apply bits_of_ext. intros i Hi. by rewrite Z.mod_pow2_bits_low by lia. Qed.

Lemma bits_of_zero n x : 0 ≤ x < 1 → bits_of n x = replicate n false.
Proof. intros. assert (x = 0) as -> by lia. induction n as [|n IH]; [done|]. cbn [bits_of replicate]. by rewrite IH, Z.bits_0. Qed.

Lemma bits_of_small n k x : 0 ≤ x < 2 ^ Z.of_nat k → bits_of (n + k) x = replicate n false ++ bits_of k x.
Proof.
  intros Hx. rewrite bits_of_app. f_equal. apply bits_of_zero. rewrite Z.shiftr_div_pow2, Z.div_small by lia. lia.
Qed.

Lemma bits_of_shiftl n k x : bits_of (n + k) (Z.shiftl x (Z.of_nat k)) = bits_of n x ++ replicate k false.
Proof.
  rewrite bits_of_app. f_equal.
  - apply bits_of_ext. intros i Hi. rewrite Z.shiftr_spec, Z.shiftl_spec by lia. f_equal. lia.
  - rewrite <- (bits_of_zero k 0) by lia. apply bits_of_ext. intros i Hi. by rewrite Z.shiftl_spec_low, Z.bits_0 by lia.
Qed.

Lemma bits_of_lor n x y : bits_of n (Z.lor x y) = zip_with orb (bits_of n x) (bits_of n y).
Proof. induction n as [|n IH]; [done|]. cbn [bits_of zip_with]. by rewrite IH, Z.lor_spec. Qed.

Lemma zip_orb_false_r (l : list bool) : zip_with orb l (replicate (length l) false) = l.
Proof. induction l as [|b l IH]; [done|]. cbn. by rewrite IH, orb_false_r. Qed.

Lemma zip_orb_false_l (l : list bool) : zip_with orb (replicate (length l) false) l = l.
Proof. induction l as [|b l IH]; [done|]. cbn. by rewrite IH. Qed.

Lemma byte_bits_uint8 x : byte_bits (uint8 x) = bits_of 8 x.
Proof. unfold byte_bits. rewrite byte_val_uint8. apply (bits_of_mod 8 8); lia. Qed.

Lemma byte_bits_length c : length (byte_bits c) = 8%nat.
Proof. apply bits_of_length. Qed.

Lemma bits_app a b : bits (a ++ b) = bits a ++ bits b.
Proof. unfold bits. by rewrite map_app, concat_app. Qed.

Lemma bits_length v : length (bits v) = (8 * length v)%nat.
Proof. unfold bits. induction v as [|c v IH]; [done|]. cbn [map concat length]. rewrite length_app, byte_bits_length, IH. lia. Qed.

(** ** The code *)

Definition code_bits (c : ascii) : list bool := bits_of (Z.to_nat (len_of c)) (code_of c).
Definition codes (s : bytes) : list bool := concat (map code_bits s).
Definition eos : list bool := bits_of (Z.to_nat eos_len) eos_code.

Fixpoint prefixb (l k : list bool) : bool :=
  match l, k with
  | [], _ => true
  | a :: l, b :: k => Bool.eqb a b && prefixb l k
  | _ :: _, [] => false
  end.

Lemma prefixb_spec l k : prefixb l k = true ↔ l `prefix_of` k.
Proof.
  revert k. induction l as [|a l IH]; intros [|b k]; cbn [prefixb].
  - done.
  - split; [intros _; apply prefix_nil|done].
  - split; [done|]. by intros H%prefix_nil_inv.
  - rewrite andb_true_iff, eqb_true_iff, IH. split.
    + intros [-> H]. by apply prefix_cons.
    + intros H. split; [by apply prefix_cons_inv_1 in H|by apply prefix_cons_inv_2 in H].
Qed.

Lemma prefixb_false l k : prefixb l k = false ↔ ¬ l `prefix_of` k.
Proof. rewrite <- prefixb_spec. by destruct (prefixb l k). Qed.

Definition no_code (w : list bool) : bool := forallb (fun c => negb (prefixb (code_bits c) w)) symbols.

Lemma codes_app a b : codes (a ++ b) = codes a ++ codes b.
Proof. unfold codes. by rewrite map_app, concat_app. Qed.

Lemma symbols_in c : In c symbols.
Proof.
  unfold symbols. apply in_map_iff.
  exists (nat_of_ascii c). split; [apply ascii_nat_embedding|]. apply in_seq. pose proof (nat_ascii_bounded c). lia.
Qed.

Lemma symbols_all (P : ascii → bool) : forallb P symbols = true → ∀ c, P c = true.
Proof. intros H c. rewrite forallb_forall in H. apply H, symbols_in. Qed.

Lemma no_code_spec w c : no_code w = true → ¬ code_bits c `prefix_of` w.
Proof. intros H. pose proof (symbols_all _ H c) as Hc. by rewrite negb_true_iff, prefixb_false in Hc. Qed.

Lemma no_code_intro w : (∀ c, ¬ code_bits c `prefix_of` w) → no_code w = true.
Proof. intros H. apply forallb_forall. intros c _. by apply negb_true_iff, prefixb_false. Qed.

Definition code_table : list (ascii * list bool) := map (fun c => (c, code_bits c)) symbols.

Lemma code_table_in c : In (c, code_bits c) code_table.
Proof. apply in_map_iff. exists c. split; [done|apply symbols_in]. Qed.

(** No code is the start of another one, nor of the end symbol. *)
Lemma code_prefix_free c d : code_bits c `prefix_of` code_bits d → c = d.
Proof.
  intros H. assert (forallb (fun x => forallb (fun y => Ascii.eqb (fst x) (fst y) || negb (prefixb (snd x) (snd y))) code_table)
    code_table = true) as E by (vm_compute; reflexivity).
  rewrite forallb_forall in E. pose proof (E _ (code_table_in c)) as Ec. rewrite forallb_forall in Ec.
  pose proof (Ec _ (code_table_in d)) as Hc. cbn [fst snd] in Hc.
  apply orb_true_iff in Hc as [Hc|Hc]; [by apply Ascii.eqb_eq|].
  by rewrite negb_true_iff, prefixb_false in Hc.
Qed.

Lemma code_not_eos c : ¬ code_bits c `prefix_of` eos ∧ ¬ eos `prefix_of` code_bits c.
Proof.
  assert (forallb (fun c => negb (prefixb (code_bits c) eos) && negb (prefixb eos (code_bits c))) symbols = true)
    as E by (vm_compute; reflexivity).
  pose proof (symbols_all _ E c) as Hc. by rewrite andb_true_iff, !negb_true_iff, !prefixb_false in Hc.
Qed.

Lemma code_range c : 5 ≤ len_of c ≤ 30 ∧ 0 ≤ code_of c < 2 ^ len_of c.
Proof.
  assert (forallb (fun c => (5 <=? len_of c) && (len_of c <=? 30) && (0 <=? code_of c) && (code_of c <? 2 ^ len_of c)) symbols = true)
    as E by (vm_compute; reflexivity).
  pose proof (symbols_all _ E c) as Hc. rewrite !andb_true_iff, !Z.leb_le, Z.ltb_lt in Hc. tauto.
Qed.

Lemma prefixes_comparable (a b l : list bool) : a `prefix_of` l → b `prefix_of` l → a `prefix_of` b ∨ b `prefix_of` a.
Proof. intros. by apply prefix_weak_total with l. Qed.

Lemma code_unique c d w : code_bits c `prefix_of` w → code_bits d `prefix_of` w → c = d.
Proof.
  intros H1 H2. destruct (prefixes_comparable _ _ _ H1 H2) as [H|H]; [by apply code_prefix_free|]. symmetry. by apply code_prefix_free.
Qed.

Lemma eos_no_code w : eos `prefix_of` w → no_code w = true.
Proof.
  intros H. apply no_code_intro. intros c Hc. destruct (code_not_eos c).
  destruct (prefixes_comparable _ _ _ H Hc); done.
Qed.

(** A sequence of bits begins with one sequence of codes only. *)
Lemma codes_unique s t q r : codes s ++ q = codes t ++ r → no_code q = true → no_code r = true → s = t ∧ q = r.
Proof.
  intros E Hq Hr. revert t E. induction s as [|c s IH]; intros [|d t] E.
  - done.
  - destruct (no_code_spec q d Hq). cbn in E. rewrite E. exists (codes t ++ r). by rewrite <- app_assoc.
  - destruct (no_code_spec r c Hr). cbn in E. rewrite <- E. exists (codes s ++ q). by rewrite <- app_assoc.
  - cbn [codes map concat] in E. rewrite <- !app_assoc in E.
    assert (c = d) as ->.
    { apply (code_unique c d (code_bits c ++ codes s ++ q)); [by eexists|]. unfold codes in *. rewrite E. by eexists. }
    apply app_inv_head in E. destruct (IH t E) as [-> ->]. done.
Qed.

(** ** The tree

    A node at a path, the bits that lead to it: every slot holds the symbol whose code
    follows, or the node eight bits further, or nothing where only the end symbol can. *)
Fixpoint tree_ok (fuel : nat) (p : list bool) (n : node) : bool :=
  match fuel with
  | O => false
  | S fuel =>
      forallb (fun i =>
        let w := p ++ byte_bits i in
        match child n i with
        | Some (Leaf l s) =>
            (1 <=? l) && (l <=? 8) && bool_decide (code_bits s = p ++ take (Z.to_nat l) (byte_bits i))
        | Some m => no_code w && negb (prefixb eos w) && tree_ok fuel w m
        | None => (length p =? 24)%nat && prefixb eos w
        end) symbols
  end.

Definition node_at (p : list bool) (n : node) : Prop :=
  no_code p = true ∧ (¬ eos `prefix_of` p) ∧ ∃ fuel, tree_ok fuel p n = true.

Lemma root_at : node_at [] rootHuffmanNode.
Proof. split_and!; [by vm_compute|by rewrite <- prefixb_false|]. exists 4%nat. vm_compute. reflexivity. Qed.

Lemma node_at_child p n i :
  node_at p n →
  match child n i with
  | Some (Leaf l s) => 1 ≤ l ≤ 8 ∧ code_bits s = p ++ take (Z.to_nat l) (byte_bits i)
  | Some m => node_at (p ++ byte_bits i) m
  | None => length p = 24%nat ∧ eos `prefix_of` p ++ byte_bits i
  end.
Proof.
  intros (_ & _ & fuel & H). destruct fuel as [|fuel]; [done|]. cbn [tree_ok] in H. pose proof (symbols_all _ H i) as Hi. clear H.
  cbn beta zeta in Hi. destruct (child n i) as [[ch|l s]|].
  - rewrite !andb_true_iff, negb_true_iff, prefixb_false in Hi. destruct Hi as [[? ?] ?]. split_and!; [done..|]. by exists fuel.
  - rewrite !andb_true_iff, !Z.leb_le, bool_decide_eq_true in Hi. tauto.
  - by rewrite andb_true_iff, Nat.eqb_eq, prefixb_spec in Hi.
Qed.

(** ** Decoding *)

Abbreviation nil_deref := "runtime error: invalid memory address or nil pointer dereference"%string.

Definition pending (s : hstate) : list bool := bits_of (Z.to_nat (nbits s)) (cur s).

(** The end symbol and two more bits. *)
Definition ends (r : list bool) : Prop := eos `prefix_of` r ∧ (32 ≤ length r)%nat.

Lemma pending_split s k : 0 ≤ k ≤ nbits s →
  pending s = bits_of (Z.to_nat k) (Z.shiftr (cur s) (nbits s - k)) ++ bits_of (Z.to_nat (nbits s - k)) (cur s).
Proof.
  intros Hk. unfold pending. replace (Z.to_nat (nbits s)) with (Z.to_nat k + Z.to_nat (nbits s - k))%nat by lia.
  rewrite bits_of_app. by rewrite Z2Nat.id by lia.
Qed.

Lemma take_bits_of k n x : (k ≤ n)%nat → take k (bits_of n x) = bits_of k (Z.shiftr x (Z.of_nat (n - k))).
Proof.
  intros. replace n with (k + (n - k))%nat at 1 by lia. rewrite bits_of_app, take_app_length'; [done|]. by rewrite bits_of_length.
Qed.

(** The next [k] bits of a byte that holds the next eight. *)
Lemma pending_symbol s l : 8 ≤ nbits s → 1 ≤ l ≤ 8 →
  pending s = take (Z.to_nat l) (byte_bits (uint8 (Z.shiftr (cur s) (nbits s - 8)))) ++ bits_of (Z.to_nat (nbits s - l)) (cur s).
Proof.
  intros H8 Hl. rewrite (pending_split s l) by lia. f_equal. rewrite byte_bits_uint8, take_bits_of by lia.
  rewrite Z.shiftr_shiftr by lia. do 2 f_equal. lia.
Qed.

Lemma decode_symbols_spec fuel s p :
  node_at p (h_n s) → 0 ≤ nbits s < Z.of_nat fuel →
  match decode_symbols fuel 0 s with
  | Ok t => ∃ cs p', node_at p' (h_n t) ∧ 0 ≤ nbits t < 8 ∧ h_buf t = h_buf s ++ cs ∧
              p ++ pending s = codes cs ++ p' ++ pending t
  | Err e => e = ErrInvalidHuffman ∧ ∃ cs r, p ++ pending s = codes cs ++ r ∧ ends r
  | Panic _ => False
  end.
Proof.
  revert s p. induction fuel as [|fuel IH]; intros s p Hn Hb; [lia|]. cbn [decode_symbols].
  destruct (Z.leb_spec 8 (nbits s)) as [H8|H8]; [|exists [], p; rewrite app_nil_r; split_and!; done || lia].
  set (i := uint8 _). pose proof (node_at_child p (h_n s) i Hn) as Hc.
  destruct (child (h_n s) i) as [[ch|l c]|] eqn:Ec.
  - assert (p ++ pending s = (p ++ byte_bits i) ++ bits_of (Z.to_nat (nbits s - 8)) (cur s)) as E.
    { rewrite (pending_symbol s 8) by lia. fold i. rewrite (take_ge (byte_bits i)); [by rewrite app_assoc|]. by rewrite byte_bits_length. }
    specialize (IH (mkH (Internal ch) (cur s) (nbits s - 8) (h_buf s)) _ Hc ltac:(cbn [nbits]; lia)).
    rewrite E. exact IH.
  - destruct Hc as (Hl & Hcode). cbn [Z.eqb negb andb].
    assert (p ++ pending s = code_bits c ++ bits_of (Z.to_nat (nbits s - l)) (cur s)) as E.
    { rewrite (pending_symbol s l) by lia. fold i. by rewrite Hcode, app_assoc. }
    specialize (IH (mkH rootHuffmanNode (cur s) (nbits s - l) (h_buf s ++ [c])) [] root_at ltac:(cbn [nbits]; lia)).
    rewrite E. destruct (decode_symbols _ _ _) as [t|e|pn]; [|destruct IH as (-> & cs & r & E' & Hr)|done].
    + destruct IH as (cs & p' & Hn' & Hb' & Hbuf & E'). exists (c :: cs), p'. cbn [h_buf] in Hbuf.
      rewrite Hbuf, <- app_assoc. split_and!; try done; try lia. cbn [codes map concat]. rewrite <- app_assoc. f_equal. exact E'.
    + split; [done|]. exists (c :: cs), r. split; [|done]. cbn [codes map concat]. rewrite <- app_assoc. f_equal. exact E'.
  - destruct Hc as (H24 & He). split; [done|]. exists [], (p ++ pending s). split; [done|].
    assert (p ++ pending s = (p ++ byte_bits i) ++ bits_of (Z.to_nat (nbits s - 8)) (cur s)) as E.
    { rewrite (pending_symbol s 8) by lia. fold i. rewrite (take_ge (byte_bits i)); [by rewrite app_assoc|]. by rewrite byte_bits_length. }
    split.
    + rewrite E. by apply prefix_app_r.
    + rewrite length_app. unfold pending. rewrite bits_of_length. lia.
Qed.

Lemma push_byte s b : 0 ≤ nbits s < 16 →
  pending (mkH (h_n s) (uint64 (Z.lor (Z.shiftl (cur s) 8) (byte_val b))) (nbits s + 8) (h_buf s)) = pending s ++ byte_bits b.
Proof.
  intros Hb. unfold pending. cbn [nbits cur]. replace (Z.to_nat (nbits s + 8)) with (Z.to_nat (nbits s) + 8)%nat by lia.
  rewrite uint64_mod. change (2 ^ 64) with (2 ^ Z.of_nat 64). rewrite bits_of_mod by lia.
  pose proof (byte_val_range b). rewrite bits_of_app. f_equal.
  - apply bits_of_ext. intros i Hi. rewrite Z.shiftr_spec, Z.lor_spec, Z.shiftl_spec by lia.
    rewrite (Z.bits_above_log2 (byte_val b)); [|lia|].
    + rewrite orb_false_r. f_equal. lia.
    + destruct (Z.eq_dec (byte_val b) 0) as [->|]; [simpl; lia|]. apply Z.log2_lt_pow2; [lia|].
      apply Z.lt_le_trans with (2 ^ 8); [lia|]. apply Z.pow_le_mono_r; lia.
  - apply bits_of_ext. intros i Hi. by rewrite Z.lor_spec, Z.shiftl_spec_low by lia.
Qed.

Definition decode_bytes (s : hstate) (v : bytes) : outcome hstate :=
  foldl (fun o b => s ← o; decode_byte 0 s b) (Ok s) v.

Lemma decode_bytes_cons s b v :
  decode_bytes s (b :: v) = match decode_byte 0 s b with Ok t => decode_bytes t v | Err e => Err e | Panic p => Panic p end.
Proof.
  unfold decode_bytes. cbn [foldl mbind outcome_bind]. destruct (decode_byte 0 s b); [done| |].
  - induction v as [|c v IH]; [done|]. exact IH.
  - induction v as [|c v IH]; [done|]. exact IH.
Qed.

Lemma ends_app r w : ends r → ends (r ++ w).
Proof. intros [H1 H2]. split; [by apply prefix_app_r|]. rewrite length_app. lia. Qed.

Lemma decode_bytes_spec v s p :
  node_at p (h_n s) → 0 ≤ nbits s < 8 →
  match decode_bytes s v with
  | Ok t => ∃ cs p', node_at p' (h_n t) ∧ 0 ≤ nbits t < 8 ∧ h_buf t = h_buf s ++ cs ∧
              p ++ pending s ++ bits v = codes cs ++ p' ++ pending t
  | Err e => e = ErrInvalidHuffman ∧ ∃ cs r, p ++ pending s ++ bits v = codes cs ++ r ∧ ends r
  | Panic _ => False
  end.
Proof.
  revert s p. induction v as [|b v IH]; intros s p Hn Hb.
  - exists [], p. rewrite !app_nil_r. split_and!; done || lia.
  - rewrite decode_bytes_cons. unfold decode_byte. set (t := mkH _ _ _ _).
    pose proof (decode_symbols_spec 16 t p Hn ltac:(cbn [nbits t]; lia)) as H.
    assert (p ++ pending s ++ bits (b :: v) = (p ++ pending t) ++ bits v) as ->.
    { unfold t. rewrite push_byte by lia. by rewrite <- !app_assoc. }
    destruct (decode_symbols 16 0 t) as [u|e|pn]; [|destruct H as (-> & cs & r & E & Hr)|done].
    + destruct H as (cs & p' & Hn' & Hb' & Hbuf & ->). specialize (IH u p' Hn' Hb').
      destruct (decode_bytes u v) as [x|e|pn]; [|destruct IH as (-> & ds & r & E & Hr)|done].
      * destruct IH as (ds & p'' & Hn'' & Hb'' & Hbuf' & E). exists (cs ++ ds), p''.
        rewrite Hbuf', Hbuf, codes_app, <- !app_assoc. split_and!; try done; try lia. by rewrite <- E.
      * split; [done|]. exists (cs ++ ds), r. split; [|done]. by rewrite codes_app, <- !app_assoc, <- E.
    + split; [done|]. exists cs, (r ++ bits v). split; [by rewrite E, <- app_assoc|by apply ends_app].
Qed.

Lemma rest_byte s : 0 ≤ nbits s < 8 →
  byte_bits (uint8 (Z.shiftl (cur s) (8 - nbits s))) = pending s ++ replicate (Z.to_nat (8 - nbits s)) false.
Proof.
  intros Hb. rewrite byte_bits_uint8. unfold pending. rewrite <- bits_of_shiftl, Z2Nat.id by lia. f_equal. lia.
Qed.

Lemma no_code_prefix w v : no_code (w ++ v) = true → no_code w = true.
Proof. intros H. apply no_code_intro. intros c Hc. apply (no_code_spec _ c H). by apply prefix_app_r. Qed.

Lemma eos_ones i : (i < 30)%nat → eos !! i = Some true.
Proof.
  intros Hi. assert (eos = replicate 30 true) as -> by (by vm_compute). by rewrite lookup_replicate_2.
Qed.

(** The end symbol is not completed by zeros. *)
Lemma eos_rest p s : 0 ≤ nbits s < 8 → length p = 24%nat →
  eos `prefix_of` p ++ pending s ++ replicate (Z.to_nat (8 - nbits s)) false → eos `prefix_of` p ++ pending s.
Proof.
  intros Hb Hp [w E].
  assert (6 ≤ nbits s) as H6.
  { destruct (Z_lt_le_dec (nbits s) 6) as [Hlt|]; [|done]. exfalso.
    assert ((eos ++ w) !! (24 + Z.to_nat (nbits s))%nat = Some true) as Ht.
    { apply lookup_app_l_Some, eos_ones. lia. }
    rewrite <- E, lookup_app_r in Ht by lia. unfold pending in Ht. rewrite lookup_app_r in Ht by (rewrite bits_of_length; lia).
    apply lookup_replicate in Ht as [Ht _]. done. }
  destruct (prefix_weak_total eos (p ++ pending s) (eos ++ w)) as [H|H].
  - by eexists.
  - rewrite <- E. rewrite app_assoc. by eexists.
  - done.
  - apply prefix_length_eq in H as ->; [done|]. rewrite length_app. unfold pending. rewrite bits_of_length.
    assert (length eos = 30%nat) as -> by (by vm_compute). lia.
Qed.

Lemma decode_rest_spec fuel s p :
  node_at p (h_n s) → 0 ≤ nbits s < 8 → nbits s ≤ Z.of_nat fuel →
  match decode_rest fuel s with
  | Ok out => ∃ cs q, out = h_buf s ++ cs ∧ p ++ pending s = codes cs ++ q ∧ no_code q = true ∧ ¬ eos `prefix_of` q
  | Panic m => m = nil_deref ∧ ∃ cs q, p ++ pending s = codes cs ++ q ∧ eos `prefix_of` q ∧ (length q < 32)%nat
  | Err _ => False
  end.
Proof.
  revert s p. induction fuel as [|fuel IH]; intros s p Hn Hb Hf; cbn [decode_rest].
  - destruct (Z.ltb_spec 0 (nbits s)); [lia|]. destruct Hn as (H1 & H2 & _). exists [], p.
    unfold pending. replace (nbits s) with 0 by lia. by rewrite !app_nil_r.
  - destruct (Z.ltb_spec 0 (nbits s)) as [H0|H0].
    2: { destruct Hn as (H1 & H2 & _). exists [], p. unfold pending. replace (nbits s) with 0 by lia. by rewrite !app_nil_r. }
    set (i := uint8 _). pose proof (node_at_child p (h_n s) i Hn) as Hc. pose proof (rest_byte s Hb) as Hi. fold i in Hi.
    destruct (child (h_n s) i) as [[ch|l c]|] eqn:Ec.
    + destruct Hc as (H1 & H2 & _). rewrite Hi, app_assoc in H1, H2. exists [], (p ++ pending s).
      rewrite app_nil_r. split_and!; [done..|by eapply no_code_prefix|]. intros H. by apply H2, prefix_app_r.
    + destruct Hc as (Hl & Hcode). destruct (Z.ltb_spec (nbits s) l) as [Hs|Hs].
      * assert (code_bits c `prefix_of` p ++ byte_bits i) as Hp.
        { rewrite Hcode. apply prefix_app. apply prefix_take. }
        rewrite Hi, app_assoc in Hp. exists [], (p ++ pending s). rewrite app_nil_r. split_and!; [done..| |].
        -- apply no_code_intro. intros d Hd.
           assert (c = d) as <- by (eapply code_unique; [exact Hp|by apply prefix_app_r]).
           apply prefix_length in Hd. rewrite Hcode, !length_app, length_take, byte_bits_length in Hd.
           unfold pending in Hd. rewrite bits_of_length in Hd. lia.
        -- intros He. destruct (code_not_eos c) as [N1 N2].
           destruct (prefixes_comparable _ _ _ Hp (prefix_app_r _ _ (replicate (Z.to_nat (8 - nbits s)) false) He)); done.
      * assert (p ++ pending s = code_bits c ++ bits_of (Z.to_nat (nbits s - l)) (cur s)) as E.
        { rewrite Hcode, <- app_assoc, Hi. f_equal. rewrite take_app_le.
          2: { unfold pending. rewrite bits_of_length. lia. }
          rewrite (pending_split s l) at 1 2 by lia. rewrite take_app_length'; [done|]. by rewrite bits_of_length. }
        specialize (IH (mkH rootHuffmanNode (cur s) (nbits s - l) (h_buf s ++ [c])) [] root_at
          ltac:(cbn [nbits]; lia) ltac:(cbn [nbits]; lia)).
        rewrite E. destruct (decode_rest _ _) as [out|e|pn]; [|done|].
        -- destruct IH as (cs & q & -> & E' & H1 & H2). exists (c :: cs), q. cbn [h_buf]. rewrite <- app_assoc.
           split_and!; [done| |done..]. cbn [codes map concat]. rewrite <- app_assoc. f_equal. exact E'.
        -- destruct IH as (-> & cs & q & E' & H1 & H2). split; [done|]. exists (c :: cs), q. split_and!; [|done..].
           cbn [codes map concat]. rewrite <- app_assoc. f_equal. exact E'.
    + destruct Hc as (H24 & He). split; [done|]. exists [], (p ++ pending s). split_and!; [done| |].
      * rewrite Hi in He. by apply eos_rest.
      * rewrite length_app. unfold pending. rewrite bits_of_length. lia.
Qed.

(** What is left after the symbols, and what the decoder makes of it. *)
Definition finish (cs : bytes) (q : list bool) : outcome bytes :=
  if prefixb eos q then
    if (32 <=? length q)%nat then Err ErrInvalidHuffman
    else Panic nil_deref
  else Ok cs.

(** The decoder on any bytes: they begin with the codes of some symbols, no other code
    follows, and the rest decides. *)
Lemma huffmanDecode_finish v :
  ∃ cs q, bits v = codes cs ++ q ∧ no_code q = true ∧ huffmanDecode 0 v = finish cs q.
Proof.
  unfold huffmanDecode. set (s := mkH rootHuffmanNode 0 0 []). fold (decode_bytes s v).
  pose proof (decode_bytes_spec v s [] root_at ltac:(cbn [nbits s]; lia)) as H.
  destruct (decode_bytes s v) as [t|e|pn]; [|destruct H as (-> & cs & r & E & [He Hl])|done]; cbn [mbind outcome_bind].
  - destruct H as (cs & p & Hn & Hb & Hbuf & E). cbn [h_buf s app] in Hbuf.
    pose proof (decode_rest_spec 8 t p Hn Hb ltac:(lia)) as H. unfold finish.
    destruct (decode_rest 8 t) as [out|e|pn]; [|done|].
    + destruct H as (ds & q & -> & E' & H1 & H2). exists (cs ++ ds), q. rewrite <- prefixb_false in H2.
      rewrite H2, Hbuf, codes_app, <- app_assoc, <- E'. by split_and!.
    + destruct H as (-> & ds & q & E' & H1 & H2). exists (cs ++ ds), q. rewrite (proj2 (prefixb_spec _ _) H1).
      rewrite (proj2 (Nat.leb_gt _ _) H2), codes_app, <- app_assoc, <- E'. split_and!; [done|by apply eos_no_code|done].
  - exists cs, r. unfold finish. rewrite (proj2 (prefixb_spec _ _) He), (proj2 (Nat.leb_le _ _) Hl).
    split_and!; [done|by apply eos_no_code|done].
Qed.

Lemma huffmanDecode_codes v cs q : bits v = codes cs ++ q → no_code q = true → huffmanDecode 0 v = finish cs q.
Proof.
  intros E Hq. destruct (huffmanDecode_finish v) as (ds & r & E' & Hr & ->). rewrite E in E'.
  by destruct (codes_unique _ _ _ _ E' Hq Hr) as [-> ->].
Qed.

(** ** Encoding *)

Definition padding (rembits : Z) : list bool := if rembits =? 8 then [] else replicate (Z.to_nat rembits) false.

Lemma or_last_snoc t d b : or_last t (d ++ [b]) = d ++ [uint8 (Z.lor (byte_val b) (byte_val (uint8 t)))].
Proof.
  unfold or_last. rewrite length_app. cbn [length]. rewrite Nat.add_1_r. cbn [pred].
  rewrite alter_app_r_alt by lia. by rewrite Nat.sub_diag.
Qed.

(** The free bits of the last byte are set. *)
Lemma or_last_bits dst w r t x :
  dst ≠ [] → bits dst = w ++ replicate r false → (r ≤ 8)%nat → length x = r →
  bits_of 8 (byte_val (uint8 t)) = replicate (8 - r) false ++ x →
  bits (or_last t dst) = w ++ x.
Proof.
  intros Hd Hw Hr Hx Ht. destruct (exists_last Hd) as (d & b & ->). rewrite or_last_snoc, !bits_app in *.
  unfold bits at 2 in Hw. unfold bits at 2. cbn [map concat] in *. rewrite app_nil_r in *.
  assert (∃ u, w = bits d ++ u ∧ byte_bits b = u ++ replicate r false ∧ length u = (8 - r)%nat) as (u & -> & Hb & Hu).
  { exists (take (8 - r) (byte_bits b)). pose proof (byte_bits_length b) as Hl.
    assert (length w = (length (bits d) + (8 - r))%nat) as Hlw.
    { apply (f_equal length) in Hw. rewrite !length_app, length_replicate, Hl in Hw. lia. }
    assert (drop (8 - r) (byte_bits b) = replicate r false) as Hdr.
    { apply (f_equal (drop (length w))) in Hw. rewrite drop_app_length in Hw. rewrite <- Hw, Hlw, drop_app_add. done. }
    split_and!.
    - apply (f_equal (take (length w))) in Hw. rewrite take_app_length in Hw. by rewrite <- Hw, Hlw, take_app_add.
    - by rewrite <- Hdr, take_drop.
    - rewrite length_take. lia. }
  rewrite byte_bits_uint8, bits_of_lor. fold (byte_bits b). rewrite Hb, Ht, <- app_assoc. f_equal.
  rewrite zip_with_app by (by rewrite length_replicate). f_equal.
  - rewrite <- Hu. apply zip_orb_false_r.
  - rewrite <- Hx. apply zip_orb_false_l.
Qed.

Lemma bits_of_top n k x : (n = 0%nat ∨ 0 ≤ x < 2 ^ Z.of_nat k) → bits_of (n + k) x = replicate n false ++ bits_of k x.
Proof. intros [->|H]; [done|]. by apply bits_of_small. Qed.

Lemma or_last_nonempty t dst : dst ≠ [] → or_last t dst ≠ [].
Proof. intros Hd H%(f_equal length). unfold or_last in H. rewrite length_alter in H. by destruct dst. Qed.

(** The code ends within the byte. *)
Lemma fill_part code nbits dst r w :
  dst ≠ [] → 1 ≤ nbits < r → r ≤ 8 → (r = 8 ∨ 0 ≤ code < 2 ^ nbits) → bits dst = w ++ replicate (Z.to_nat r) false →
  bits (or_last (Z.shiftl code (r - nbits)) dst) =
    w ++ bits_of (Z.to_nat nbits) code ++ replicate (Z.to_nat (r - nbits)) false.
Proof.
  intros Hd Hn Hr Hc Hw. apply (or_last_bits _ _ (Z.to_nat r)); [done..|lia| |].
  - rewrite length_app, bits_of_length, length_replicate. lia.
  - fold (byte_bits (uint8 (Z.shiftl code (r - nbits)))). rewrite byte_bits_uint8, app_assoc.
    rewrite <- bits_of_top by (rewrite Z2Nat.id by lia; destruct Hc as [->|Hc]; [left; lia|by right]).
    rewrite <- bits_of_shiftl. rewrite Z2Nat.id by lia. f_equal. lia.
Qed.

(** The code fills the byte. *)
Lemma fill_whole code nbits dst r w :
  dst ≠ [] → 1 ≤ r ≤ nbits → r ≤ 8 → (r = 8 ∨ 0 ≤ code < 2 ^ nbits) → bits dst = w ++ replicate (Z.to_nat r) false →
  bits (or_last (Z.shiftr code (nbits - r)) dst) = w ++ bits_of (Z.to_nat r) (Z.shiftr code (nbits - r)).
Proof.
  intros Hd Hn Hr Hc Hw. apply (or_last_bits _ _ (Z.to_nat r)); [done..|lia|apply bits_of_length|].
  fold (byte_bits (uint8 (Z.shiftr code (nbits - r)))). rewrite byte_bits_uint8.
  rewrite <- bits_of_top; [f_equal; lia|]. destruct Hc as [->|Hc]; [left; lia|right].
  rewrite Z2Nat.id, Z.shiftr_div_pow2 by lia. split; [apply Z.div_pos; lia|]. apply Z.div_lt_upper_bound; [lia|].
  rewrite <- Z.pow_add_r by lia. replace (nbits - r + r) with nbits by lia. lia.
Qed.

Lemma append_code_spec fuel code nbits dst r w :
  dst ≠ [] → 1 ≤ r ≤ 8 → 1 ≤ nbits ≤ r + 8 * Z.of_nat fuel → (r = 8 ∨ 0 ≤ code < 2 ^ nbits) →
  bits dst = w ++ replicate (Z.to_nat r) false →
  let '(dst', r') := append_code fuel code nbits dst r in
  dst' ≠ [] ∧ 1 ≤ r' ≤ 8 ∧ bits dst' = w ++ bits_of (Z.to_nat nbits) code ++ padding r'.
Proof.
  revert nbits dst r w. induction fuel as [|fuel IH]; intros nbits dst r w Hd Hr Hn Hc Hw; cbn [append_code];
    (destruct (Z.ltb_spec nbits r) as [Hlt|Hge];
     [split_and!; [by apply or_last_nonempty|lia..|]; unfold padding; replace (r - nbits =? 8) with false by lia;
      apply fill_part; done || lia|]);
    (destruct (Z.eqb_spec (nbits - r) 0) as [E0|E0];
     [split_and!; [by apply or_last_nonempty|lia..|]; rewrite (fill_whole _ _ _ _ w) by (done || lia);
      unfold padding; rewrite Z.eqb_refl, app_nil_r, E0, Z.shiftr_0_r; do 2 f_equal; lia|]); [lia|].
  set (t := Z.shiftr code (nbits - r)).
  pose proof (fill_whole code nbits dst r w Hd ltac:(lia) ltac:(lia) Hc Hw) as Hw'. fold t in Hw'.
  specialize (IH (nbits - r) (or_last t dst ++ [zero]) 8 (w ++ bits_of (Z.to_nat r) t)
    ltac:(intros [_ Hx]%app_nil; done) ltac:(lia) ltac:(lia) ltac:(by left)).
  destruct (append_code fuel code (nbits - r) _ 8) as [dst' r'].
  destruct IH as (H1 & H2 & H3); [by rewrite bits_app, Hw'|].
  split_and!; [done|lia..|]. replace (Z.to_nat nbits) with (Z.to_nat r + Z.to_nat (nbits - r))%nat by lia.
  rewrite bits_of_app, Z2Nat.id by lia. fold t. by rewrite H3, <- !app_assoc.
Qed.

(** A string on the way: what has been written and the free bits of its last byte. *)
Definition written (dst : bytes) (r : Z) (w : list bool) : Prop :=
  1 ≤ r ≤ 8 ∧ (r = 8 ∨ dst ≠ []) ∧ bits dst = w ++ padding r.

Lemma encode_step_written dst r w c : written dst r w →
  let '(dst', r') := encode_step (dst, r) c in written dst' r' (w ++ code_bits c).
Proof.
  intros (Hr & Hd & Hw). pose proof (code_range c) as [Hl Hc]. cbn [encode_step]. unfold appendByteToHuffmanCode.
  assert (∃ d, d = (if r =? 8 then dst ++ [zero] else dst) ∧ d ≠ [] ∧ bits d = w ++ replicate (Z.to_nat r) false) as (d & <- & Hd' & Hb).
  { eexists. split; [done|]. unfold padding in Hw. destruct (Z.eqb_spec r 8) as [->|].
    - split; [by intros [_ ?]%app_nil|]. by rewrite bits_app, Hw, app_nil_r.
    - destruct Hd; [done|]. by split. }
  pose proof (append_code_spec 32 (code_of c) (len_of c) d r w Hd' Hr ltac:(lia) ltac:(by right) Hb) as H.
  destruct (append_code _ _ _ _ _) as [dst' r']. destruct H as (H1 & H2 & H3).
  split_and!; [lia..|by right|]. by rewrite H3, <- app_assoc.
Qed.

Lemma encode_written s dst r w : written dst r w →
  let '(dst', r') := foldl encode_step (dst, r) s in written dst' r' (w ++ codes s).
Proof.
  revert dst r w. induction s as [|c s IH]; intros dst r w H; cbn [foldl].
  - by rewrite app_nil_r.
  - pose proof (encode_step_written dst r w c H) as Hs. destruct (encode_step (dst, r) c) as [d q].
    specialize (IH _ _ _ Hs). destruct (foldl encode_step (d, q) s) as [d' q'].
    cbn [codes map concat]. by rewrite app_assoc.
Qed.

Lemma eos_bits r : 1 ≤ r < 8 →
  bits_of 8 (byte_val (uint8 (Z.shiftr eos_code (eos_len - r)))) =
    replicate (8 - Z.to_nat r) false ++ replicate (Z.to_nat r) true.
Proof.
  intros Hr. assert (r = 1 ∨ r = 2 ∨ r = 3 ∨ r = 4 ∨ r = 5 ∨ r = 6 ∨ r = 7) as Hc by lia.
  destruct_or! Hc; subst r; by vm_compute.
Qed.

(** The bits of an encoded string: its codes, and less than a byte of ones. *)
Lemma AppendHuffmanString_bits dst s :
  ∃ k, (k < 8)%nat ∧ bits (AppendHuffmanString dst s) = bits dst ++ codes s ++ replicate k true.
Proof.
  unfold AppendHuffmanString.
  pose proof (encode_written s dst 8 (bits dst)) as H.
  destruct (foldl encode_step (dst, 8) s) as [d r].
  destruct H as (Hr & Hd & Hw). { split_and!; [lia..|by left|]. unfold padding. by rewrite app_nil_r. }
  unfold padding in Hw. destruct (Z.ltb_spec r 8) as [Hlt|Hge].
  - destruct (Z.eqb_spec r 8); [lia|]. destruct Hd; [lia|]. exists (Z.to_nat r). split; [lia|]. rewrite app_assoc.
    apply (or_last_bits _ _ (Z.to_nat r)); [done..|lia|by rewrite length_replicate|]. apply eos_bits. lia.
  - destruct (Z.eqb_spec r 8); [|lia]. exists 0%nat. split; [lia|]. by rewrite Hw, <- app_assoc.
Qed.

Lemma no_code_ones k : (k < 8)%nat → no_code (replicate k true) = true ∧ ¬ eos `prefix_of` replicate k true.
Proof.
  intros Hk. split.
  - do 8 (destruct k as [|k]; [by vm_compute|]). lia.
  - intros H%prefix_length. rewrite length_replicate in H. assert (length eos = 30%nat) by (by vm_compute). lia.
Qed.

Lemma decode_encode_huffman s : huffmanDecode 0 (AppendHuffmanString [] s) = Ok s.
Proof.
  destruct (AppendHuffmanString_bits [] s) as (k & Hk & E). destruct (no_code_ones k Hk) as [Hn He].
  rewrite (huffmanDecode_codes _ _ _ E Hn). unfold finish. by rewrite (proj2 (prefixb_false _ _) He).
Qed.

(** ** Length *)

Lemma codes_length s : Z.of_nat (length (codes s)) = sumZ len_of s.
Proof.
  induction s as [|c s IH]; [done|]. pose proof (code_range c). cbn [codes map concat sumZ]. rewrite length_app.
  unfold codes in IH. rewrite Nat2Z.inj_add, IH. unfold code_bits. rewrite bits_of_length.
  rewrite Z2Nat.id by lia. done.
Qed.

Lemma length_sum s a : 0 ≤ a → a + 30 * Z.of_nat (length s) < 2 ^ 64 →
  foldl (fun n c => uint64 (n + len_of c)) a s = a + sumZ len_of s ∧ 0 ≤ sumZ len_of s ≤ 30 * Z.of_nat (length s).
Proof.
  revert a. induction s as [|c s IH]; intros a Ha H; cbn [foldl];
    [change (sumZ len_of []) with 0; cbn [length]; lia|].
  pose proof (code_range c). change (sumZ len_of (c :: s)) with (len_of c + sumZ len_of s). cbn [length] in *.
  rewrite uint64_id by lia. destruct (IH (a + len_of c)) as [-> ?]; lia.
Qed.

Lemma HuffmanEncodeLength_spec s : 30 * Z.of_nat (length s) + 8 < 2 ^ 64 →
  HuffmanEncodeLength s = Z.of_nat (length (AppendHuffmanString [] s)).
Proof.
  intros H. unfold HuffmanEncodeLength. destruct (length_sum s 0) as [-> Hs]; [lia..|].
  destruct (AppendHuffmanString_bits [] s) as (k & Hk & E). apply (f_equal length) in E.
  cbn [app bits map concat] in E. rewrite bits_length, length_app, length_replicate in E.
  apply (f_equal Z.of_nat) in E. rewrite Nat2Z.inj_add, codes_length in E. rewrite uint64_id by lia.
  symmetry. apply (Z.div_unique _ 8 _ (7 - Z.of_nat k)); lia.
Qed.

(** Encoding appends. *)
Lemma byte_bits_inj c d : byte_bits c = byte_bits d → c = d.
Proof.
  intros E. rewrite <- (uint8_byte_val c), <- (uint8_byte_val d). unfold uint8. do 2 f_equal.
  change 255 with (Z.ones 8). apply Z.bits_inj'. intros i Hi. rewrite !Z.land_spec.
  destruct (Z_lt_le_dec i 8); [|by rewrite Z.ones_spec_high, !andb_false_r by lia]. f_equal.
  assert (∀ x, byte_bits x !! Z.to_nat (7 - i) = Some (Z.testbit (byte_val x) i)) as L.
  { intros x. unfold byte_bits. assert (i = 0 ∨ i = 1 ∨ i = 2 ∨ i = 3 ∨ i = 4 ∨ i = 5 ∨ i = 6 ∨ i = 7) as Hc by lia.
    destruct_or! Hc; subst i; done. }
  apply (inj Some). by rewrite <- !L, E.
Qed.

Lemma bits_inj a b : bits a = bits b → a = b.
Proof.
  revert b. induction a as [|c a IH]; intros [|d b] E; [done|by apply (f_equal length) in E|by apply (f_equal length) in E|].
  cbn [bits map concat] in E. apply app_inj_1 in E as [E1 E2]; [|by rewrite !byte_bits_length].
  f_equal; [by apply byte_bits_inj|by apply IH].
Qed.

Lemma AppendHuffmanString_app dst s : AppendHuffmanString dst s = dst ++ AppendHuffmanString [] s.
Proof.
  destruct (AppendHuffmanString_bits dst s) as (k & Hk & E), (AppendHuffmanString_bits [] s) as (j & Hj & F).
  cbn [bits map concat app] in F. apply bits_inj. rewrite bits_app, E, F. do 2 f_equal.
  apply (f_equal length) in E, F. rewrite bits_length, !length_app, length_replicate in *. rewrite bits_length in E.
  assert (j = k) as -> by lia. done.
Qed.
