(* ===== verification/Hpack.v ===== *)
(** * Header compression (golang.org/x/net/http2/hpack, encode.go, hpack.go and tables.go)

    The encoder and the decoder of header blocks with their dynamic tables.  [ents] has the
    newest entry at its end, as the slice does.  What the decoder emits is a list; an error
    comes with the decoder as it is left, since the transports go on to use it. *)
From Stdlib Require Import ZArith Lia Ascii.
From stdpp Require Import base option list strings.
From S2P Require Import Prelude GoNum GoFmt Strconv Flow Proto Huffman.

(** ** Fields and tables *)

Record HeaderField := mkField { hf_Name : bytes; hf_Value : bytes; Sensitive : bool }.

Definition pair (name value : string) : HeaderField := mkField (to_bytes name) (to_bytes value) false.

Definition hf_size (hf : HeaderField) : Z :=
  uint32 (Z.of_nat (length (hf_Name hf)) + Z.of_nat (length (hf_Value hf)) + 32).

Definition staticTable : list HeaderField := map (fun '(n, v) => pair n v)
  [(":authority", ""); (":method", "GET"); (":method", "POST"); (":path", "/"); (":path", "/index.html");
   (":scheme", "http"); (":scheme", "https"); (":status", "200"); (":status", "204"); (":status", "206");
   (":status", "304"); (":status", "400"); (":status", "404"); (":status", "500"); ("accept-charset", "");
   ("accept-encoding", "gzip, deflate"); ("accept-language", ""); ("accept-ranges", ""); ("accept", "");
   ("access-control-allow-origin", ""); ("age", ""); ("allow", ""); ("authorization", "");
   ("cache-control", ""); ("content-disposition", ""); ("content-encoding", ""); ("content-language", "");
   ("content-length", ""); ("content-location", ""); ("content-range", ""); ("content-type", "");
   ("cookie", ""); ("date", ""); ("etag", ""); ("expect", ""); ("expires", ""); ("from", ""); ("host", "");
   ("if-match", ""); ("if-modified-since", ""); ("if-none-match", ""); ("if-range", "");
   ("if-unmodified-since", ""); ("last-modified", ""); ("link", ""); ("location", ""); ("max-forwards", "");
   ("proxy-authenticate", ""); ("proxy-authorization", ""); ("range", ""); ("referer", ""); ("refresh", "");
   ("retry-after", ""); ("server", ""); ("set-cookie", ""); ("strict-transport-security", "");
   ("transfer-encoding", ""); ("user-agent", ""); ("vary", ""); ("via", ""); ("www-authenticate", "")].

Definition static_len : Z := Z.of_nat (length staticTable).

Record dynamicTable := mkTable { ents : list HeaderField; size : Z; maxSize : Z; allowedMaxSize : Z }.

(** The loop of [evict]. *)
Fixpoint evict_loop (es : list HeaderField) (size maxSize : Z) : outcome (list HeaderField * Z) :=
  if maxSize <? size then
    match es with
    | [] => Panic "runtime error: index out of range"
    | e :: es => evict_loop es (uint32 (size - hf_size e)) maxSize
    end
  else Ok (es, size).

Definition evict (dt : dynamicTable) : outcome dynamicTable :=
  '(es, n) ← evict_loop (ents dt) (size dt) (maxSize dt); Ok (mkTable es n (maxSize dt) (allowedMaxSize dt)).

Definition setMaxSize (v : Z) (dt : dynamicTable) : outcome dynamicTable :=
  evict (mkTable (ents dt) (size dt) v (allowedMaxSize dt)).

Definition table_add (f : HeaderField) (dt : dynamicTable) : outcome dynamicTable :=
  evict (mkTable (ents dt ++ [f]) (uint32 (size dt + hf_size f)) (maxSize dt) (allowedMaxSize dt)).

(** [constantTimeStringCompare]. *)
Definition constantTimeStringCompare (a b : bytes) : bool :=
  if negb (length a =? length b)%nat then false else
  foldl (fun c '(x, y) => Z.lor c (Z.lxor (byte_val x) (byte_val y))) 0 (zip a b) =? 0.

(** The search of [f] in a table, whose first entry has the index [k]; [i] is the first
    entry of that name so far. *)
Fixpoint search_loop (f : HeaderField) (es : list HeaderField) (k i : Z) : Z * bool :=
  match es with
  | [] => (i, false)
  | ent :: es =>
      if negb (constantTimeStringCompare (hf_Name ent) (hf_Name f)) then search_loop f es (k + 1) i else
      let i := if i =? 0 then k else i in
      if Sensitive f then search_loop f es (k + 1) i else
      if negb (constantTimeStringCompare (hf_Value ent) (hf_Value f)) then search_loop f es (k + 1) i else
      (k, true)
  end.

(** [search], from the newest entry. *)
Definition search (f : HeaderField) (dt : dynamicTable) : Z * bool := search_loop f (rev (ents dt)) 1 0.

(** ** The encoder *)

Definition uint32Max : Z := 2 ^ 32 - 1.
Definition initialHeaderTableSize : Z := 4096.

Record Encoder := mkEncoder { e_dynTab : dynamicTable; minSize : Z; maxSizeLimit : Z; tableSizeUpdate : bool }.

Definition NewEncoder : outcome Encoder :=
  dt ← setMaxSize initialHeaderTableSize (mkTable [] 0 0 0);
  Ok (mkEncoder dt uint32Max initialHeaderTableSize false).

Definition searchTable (f : HeaderField) (e : Encoder) : Z * bool :=
  let '(i, nameValueMatch) := search_loop f staticTable 1 0 in
  if nameValueMatch then (i, true) else
  let '(j, nameValueMatch) := search f (e_dynTab e) in
  (if nameValueMatch || ((i =? 0) && negb (j =? 0)) then j + static_len else i, nameValueMatch).

Definition SetMaxDynamicTableSize (v : Z) (e : Encoder) : outcome Encoder :=
  let v := if maxSizeLimit e <? v then maxSizeLimit e else v in
  let m := if v <? minSize e then v else minSize e in
  dt ← setMaxSize v (e_dynTab e); Ok (mkEncoder dt m (maxSizeLimit e) true).

Definition SetMaxDynamicTableSizeLimit (v : Z) (e : Encoder) : outcome Encoder :=
  if v <? maxSize (e_dynTab e) then
    dt ← setMaxSize v (e_dynTab e); Ok (mkEncoder dt (minSize e) v true)
  else Ok (mkEncoder (e_dynTab e) (minSize e) v (tableSizeUpdate e)).

Definition shouldIndex (f : HeaderField) (e : Encoder) : bool :=
  negb (Sensitive f) && (hf_size f <=? maxSize (e_dynTab e)).

(** [dst[first] |= t]. *)
Definition or_at (first : nat) (t : Z) (dst : bytes) : bytes := alter (fun b => uint8 (Z.lor (byte_val b) t)) first dst.

(** The bytes after the prefix, seven bits in each. *)
Fixpoint varint_tail (fuel : nat) (i : Z) : bytes :=
  match fuel with
  | S fuel => if 128 <=? i then uint8 (Z.lor 128 (Z.land i 127)) :: varint_tail fuel (Z.shiftr i 7) else [uint8 i]
  | O => [uint8 i]
  end.

Definition appendVarInt (dst : bytes) (n : Z) (i : Z) : bytes :=
  let k := Z.shiftl 1 n - 1 in
  if i <? k then dst ++ [uint8 i] else dst ++ uint8 k :: varint_tail 10 (i - k).

Definition encodeTypeByte (indexing sensitive : bool) : Z :=
  if sensitive then 0x10 else if indexing then 0x40 else 0.

Definition appendIndexed (dst : bytes) (i : Z) : bytes := or_at (length dst) 0x80 (appendVarInt dst 7 i).

Definition appendHpackString (dst s : bytes) : bytes :=
  let huffmanLength := HuffmanEncodeLength s in
  if huffmanLength <? Z.of_nat (length s)
  then or_at (length dst) 0x80 (AppendHuffmanString (appendVarInt dst 7 huffmanLength) s)
  else appendVarInt dst 7 (Z.of_nat (length s)) ++ s.

Definition appendNewName (dst : bytes) (f : HeaderField) (indexing : bool) : bytes :=
  let dst := dst ++ [uint8 (encodeTypeByte indexing (Sensitive f))] in
  appendHpackString (appendHpackString dst (hf_Name f)) (hf_Value f).

Definition appendIndexedName (dst : bytes) (f : HeaderField) (i : Z) (indexing : bool) : bytes :=
  let n := if indexing then 6 else 4 in
  appendHpackString (or_at (length dst) (encodeTypeByte indexing (Sensitive f)) (appendVarInt dst n i)) (hf_Value f).

Definition appendTableSize (dst : bytes) (v : Z) : bytes := or_at (length dst) 0x20 (appendVarInt dst 5 v).

(** The updates of the table size that a field is preceded by. *)
Definition write_update (e : Encoder) : bytes * Encoder :=
  if tableSizeUpdate e then
    let buf := if minSize e <? maxSize (e_dynTab e) then appendTableSize [] (minSize e) else [] in
    (appendTableSize buf (maxSize (e_dynTab e)), mkEncoder (e_dynTab e) uint32Max (maxSizeLimit e) false)
  else ([], e).

(** [WriteField]: what it writes, and the encoder after it. *)
Definition WriteField (f : HeaderField) (e : Encoder) : outcome (bytes * Encoder) :=
  let '(buf, e) := write_update e in
  let '(idx, nameValueMatch) := searchTable f e in
  if nameValueMatch then Ok (appendIndexed buf idx, e) else
  let indexing := shouldIndex f e in
  dt ← (if indexing then table_add f (e_dynTab e) else Ok (e_dynTab e));
  Ok (if idx =? 0 then appendNewName buf f indexing else appendIndexedName buf f idx indexing,
      mkEncoder dt (minSize e) (maxSizeLimit e) (tableSizeUpdate e)).

(** ** The decoder *)

Record Decoder := mkDecoder { d_dynTab : dynamicTable; emitEnabled : bool; maxStrLen : Z; saveBuf : bytes }.

Definition set_table (dt : dynamicTable) (d : Decoder) : Decoder := mkDecoder dt (emitEnabled d) (maxStrLen d) (saveBuf d).
Definition set_saveBuf (b : bytes) (d : Decoder) : Decoder := mkDecoder (d_dynTab d) (emitEnabled d) (maxStrLen d) b.

Definition NewDecoder (maxDynamicTableSize : Z) : outcome Decoder :=
  dt ← setMaxSize maxDynamicTableSize (mkTable [] 0 0 maxDynamicTableSize); Ok (mkDecoder dt true 0 []).

Definition SetMaxStringLength (n : Z) (d : Decoder) : Decoder := mkDecoder (d_dynTab d) (emitEnabled d) n (saveBuf d).
Definition SetEmitEnabled (v : bool) (d : Decoder) : Decoder := mkDecoder (d_dynTab d) v (maxStrLen d) (saveBuf d).

Definition DecodingError (text : string) : error := Errorf ("decoding error: " +:+ text).
Definition InvalidIndexError (i : Z) : string := "invalid indexed representation index " +:+ fmt_d (int64_of i).
Definition errNeedMore : error := Errorf "need more data".
Definition errVarintOverflow : error := DecodingError "varint integer overflow".

Definition maxTableIndex (d : Decoder) : Z := Z.of_nat (length (ents (d_dynTab d))) + static_len.

Definition field_at (i : Z) (d : Decoder) : option HeaderField :=
  if i <? 1 then None else
  if maxTableIndex d <? i then None else
  if i <=? static_len then staticTable !! Z.to_nat (i - 1) else
  let dents := ents (d_dynTab d) in dents !! Z.to_nat (Z.of_nat (length dents) - (i - static_len)).

(** The bytes of an integer after its prefix. *)
Fixpoint varint_rest (p : bytes) (i m : Z) : outcome (Z * bytes) :=
  match p with
  | [] => Err errNeedMore
  | b :: p =>
      let i := uint64 (i + uint64 (Z.shiftl (Z.land (byte_val b) 127) m)) in
      if Z.land (byte_val b) 128 =? 0 then Ok (i, p) else
      let m := m + 7 in
      if 63 <=? m then Err errVarintOverflow else varint_rest p i m
  end.

Definition readVarInt (n : Z) (p : bytes) : outcome (Z * bytes) :=
  if (n <? 1) || (8 <? n) then Panic "bad n" else
  match p with
  | [] => Err errNeedMore
  | b :: p =>
      let i := if n <? 8 then Z.land (byte_val b) (Z.shiftl 1 n - 1) else byte_val b in
      if i <? Z.shiftl 1 n - 1 then Ok (i, p) else varint_rest p i 0
  end.

(** [readString] with [maxStrLen]. *)
Definition readString (maxStrLen : Z) (p : bytes) (wantStr : bool) : outcome (bytes * bytes) :=
  match p with
  | [] => Err errNeedMore
  | b :: _ =>
      let isHuff := negb (Z.land (byte_val b) 128 =? 0) in
      '(strLen, p) ← readVarInt 7 p;
      if negb (maxStrLen =? 0) && (uint64 maxStrLen <? strLen) then Err ErrStringLength else
      if Z.of_nat (length p) <? strLen then Err errNeedMore else
      let str := take (Z.to_nat strLen) p in
      let rest := drop (Z.to_nat strLen) p in
      if negb wantStr then Ok ([], rest) else
      if isHuff then s ← huffmanDecode maxStrLen str; Ok (s, rest) else Ok (str, rest)
  end.

Inductive indexType := indexedTrue | indexedFalse | indexedNever.
Definition indexed (it : indexType) : bool := match it with indexedTrue => true | _ => false end.
Definition sensitive (it : indexType) : bool := match it with indexedNever => true | _ => false end.

(** A parser leaves the decoder, the rest of its buffer, what it has emitted and an error. *)
Record parsed := mkParsed { p_dec : Decoder; p_buf : bytes; p_emit : list HeaderField; p_err : option error }.

Definition callEmit (hf : HeaderField) (buf : bytes) (d : Decoder) : parsed :=
  let tooLong (s : bytes) := maxStrLen d <? Z.of_nat (length s) in
  if negb (maxStrLen d =? 0) && (tooLong (hf_Name hf) || tooLong (hf_Value hf))
  then mkParsed d buf [] (Some ErrStringLength)
  else mkParsed d buf (if emitEnabled d then [hf] else []) None.

(** The error of a reader leaves the decoder as it was. *)
Definition reading {A} (d : Decoder) (buf : bytes) (m : outcome A) (f : A → outcome parsed) : outcome parsed :=
  match m with Ok a => f a | Err e => Ok (mkParsed d buf [] (Some e)) | Panic p => Panic p end.

Definition parseFieldIndexed (buf : bytes) (d : Decoder) : outcome parsed :=
  reading d buf (readVarInt 7 buf) (fun '(idx, rest) =>
  match field_at idx d with
  | None => Ok (mkParsed d buf [] (Some (DecodingError (InvalidIndexError idx))))
  | Some hf => Ok (callEmit (mkField (hf_Name hf) (hf_Value hf) false) rest d)
  end).

(** The name of a literal: of a field of the tables, or its own. *)
Definition read_name (nameIdx : Z) (buf : bytes) (wantStr : bool) (d : Decoder) : outcome (bytes * bytes) :=
  if 0 <? nameIdx then
    match field_at nameIdx d with
    | None => Err (DecodingError (InvalidIndexError nameIdx))
    | Some ihf => Ok (hf_Name ihf, buf)
    end
  else readString (maxStrLen d) buf wantStr.

Definition parseFieldLiteral (n : Z) (it : indexType) (buf : bytes) (d : Decoder) : outcome parsed :=
  let wantStr := emitEnabled d || indexed it in
  reading d buf (readVarInt n buf) (fun '(nameIdx, rest) =>
  reading d buf (read_name nameIdx rest wantStr d) (fun '(name, rest) =>
  reading d buf (readString (maxStrLen d) rest wantStr) (fun '(value, rest) =>
  let hf := mkField name value false in
  dt ← (if indexed it then table_add hf (d_dynTab d) else Ok (d_dynTab d));
  Ok (callEmit (mkField name value (sensitive it)) rest (set_table dt d))))).

Definition parseDynamicTableSizeUpdate (buf : bytes) (d : Decoder) : outcome parsed :=
  reading d buf (readVarInt 5 buf) (fun '(size, rest) =>
  if allowedMaxSize (d_dynTab d) <? size
  then Ok (mkParsed d buf [] (Some (DecodingError "dynamic table size update too large")))
  else dt ← setMaxSize (uint32 size) (d_dynTab d); Ok (mkParsed (set_table dt d) rest [] None)).

Definition parseHeaderFieldRepr (buf : bytes) (d : Decoder) : outcome parsed :=
  match buf with
  | [] => Panic "runtime error: index out of range"
  | c :: _ =>
      let b := byte_val c in
      if negb (Z.land b 128 =? 0) then parseFieldIndexed buf d else
      if Z.land b 192 =? 64 then parseFieldLiteral 6 indexedTrue buf d else
      if Z.land b 240 =? 0 then parseFieldLiteral 4 indexedFalse buf d else
      if Z.land b 240 =? 16 then parseFieldLiteral 4 indexedNever buf d else
      if Z.land b 224 =? 32 then parseDynamicTableSizeUpdate buf d else
      Ok (mkParsed d buf [] (Some (DecodingError "invalid encoding")))
  end.

(** The loop of [Write]; every field takes a byte at least. *)
Fixpoint write_loop (fuel : nat) (buf : bytes) (d : Decoder) : outcome (Decoder * list HeaderField * option error) :=
  match buf with
  | [] => Ok (d, [], None)
  | _ =>
      match fuel with
      | O => Panic "out of fuel"
      | S fuel =>
          p ← parseHeaderFieldRepr buf d;
          match p_err p with
          | None => '(d, fs, e) ← write_loop fuel (p_buf p) (p_dec p); Ok (d, p_emit p ++ fs, e)
          | Some e =>
              if bool_decide (e = errNeedMore) then
                if negb (maxStrLen d =? 0) && (2 * (maxStrLen d + 8) <? Z.of_nat (length (p_buf p)))
                then Ok (p_dec p, p_emit p, Some ErrStringLength)
                else Ok (set_saveBuf (p_buf p) (p_dec p), p_emit p, None)
              else Ok (p_dec p, p_emit p, Some e)
          end
      end
  end.

(** [Write]: the decoder, what it has emitted, and its error. *)
Definition Decoder_Write (p : bytes) (d : Decoder) : outcome (Decoder * list HeaderField * option error) :=
  if (length p =? 0)%nat then Ok (d, [], None) else
  let buf := saveBuf d ++ p in
  write_loop (length buf) buf (set_saveBuf [] d).

Definition Decoder_Close (d : Decoder) : Decoder * option error :=
  if (0 <? length (saveBuf d))%nat then (set_saveBuf [] d, Some (DecodingError "truncated headers")) else (d, None).

(** [DecodeFull]; a decoder that has failed is dropped. *)
Definition DecodeFull (p : bytes) (d : Decoder) : outcome (Decoder * list HeaderField) :=
  '(d, hf, e) ← Decoder_Write p d;
  match e with
  | Some e => Err e
  | None => match Decoder_Close d with (d, None) => Ok (d, hf) | (_, Some e) => Err e end
  end.

(** Several calls of [Write]: the first error ends them. *)
Fixpoint writes (ps : list bytes) (d : Decoder) : outcome (Decoder * list HeaderField * option error) :=
  match ps with
  | [] => Ok (d, [], None)
  | p :: ps =>
      '(d, fs, e) ← Decoder_Write p d;
      match e with
      | Some e => Ok (d, fs, Some e)
      | None => '(d, gs, e) ← writes ps d; Ok (d, fs ++ gs, e)
      end
  end.

(** ** Examples *)

Definition demo_fields : list HeaderField :=
  [pair ":method" "POST"; pair ":path" "/scheduler.Scheduler/LoadTest"; pair "content-type" "application/grpc";
   mkField (to_bytes "secret") (to_bytes "x") true; pair ":path" "/scheduler.Scheduler/LoadTest"].

Fixpoint write_fields (fs : list HeaderField) (e : Encoder) : outcome (bytes * Encoder) :=
  match fs with
  | [] => Ok ([], e)
  | f :: fs => '(b, e) ← WriteField f e; '(bs, e) ← write_fields fs e; Ok (b ++ bs, e)
  end.

Example hpack_examples :
  match e ← NewEncoder; write_fields demo_fields e with
  | Ok (b, _) => (d ← NewDecoder 4096; '(_, fs) ← DecodeFull b d; Ok fs) = Ok demo_fields ∧ length b = 46%nat
  | _ => False
  end.
Proof. vm_compute. done. Qed.

(** A literal whose value is coded as two letters and the end symbol. *)
Example decoder_panics :
  panics (d ← NewDecoder 4096; Decoder_Write (map uint8 [0x00; 0x01; 0x61; 0x85; 0x00; 0x3f; 0xff; 0xff; 0xff]) d) = true.
Proof. by vm_compute. Qed.
