(* ===== verification/HpackFacts.v ===== *)
(** * Facts on header compression

    Integers and strings are read back, the readers do not depend on how their input is cut,
    and the dynamic table accounts for its entries. *)
From Stdlib Require Import ZArith Lia Ascii.
From stdpp Require Import base option list strings.
From S2P Require Import Prelude GoNum GoFmt Strconv Flow Proto GrpcFacts Huffman HuffmanFacts Hpack.

(** ** Integers *)

Definition varint (n i : Z) : bytes := appendVarInt [] n i.

Lemma appendVarInt_app dst n i : appendVarInt dst n i = dst ++ varint n i.
Proof. unfold varint, appendVarInt. by destruct (_ <? _). Qed.

Lemma varint_nonempty n i : varint n i ≠ [].
Proof. unfold varint, appendVarInt. by destruct (_ <? _). Qed.

Lemma or_at_app t dst l : l ≠ [] → or_at (length dst) t (dst ++ l) = dst ++ or_at 0 t l.
Proof. intros. unfold or_at. rewrite alter_app_r_alt by done. by rewrite Nat.sub_diag. Qed.

Lemma or_at_0_app t l r : l ≠ [] → or_at 0 t (l ++ r) = or_at 0 t l ++ r.
Proof. by destruct l. Qed.

Lemma or_at_length k t l : length (or_at k t l) = length l.
Proof. apply length_alter. Qed.

Lemma below (n : nat) (P : Z → bool) : forallb (fun k => P (Z.of_nat k)) (seq 0 n) = true → ∀ x, 0 ≤ x < Z.of_nat n → P x = true.
Proof.
  intros H x Hx. rewrite forallb_forall in H. rewrite <- (Z2Nat.id x) by lia. apply H, in_seq. lia.
Qed.

(** The two kinds of bytes of an integer. *)
Lemma cont_byte i : 0 ≤ i →
  let b := byte_val (uint8 (Z.lor 128 (Z.land i 127))) in Z.land b 127 = i mod 128 ∧ Z.land b 128 = 128.
Proof.
  intros Hi. change 127 with (Z.ones 7) at 1. rewrite Z.land_ones by lia. change (2 ^ 7) with 128.
  pose proof (below 128 (fun j => let b := byte_val (uint8 (Z.lor 128 j)) in (Z.land b 127 =? j) && (Z.land b 128 =? 128))
    ltac:(by vm_compute) (i mod 128) ltac:(apply Z.mod_pos_bound; lia)) as H.
  cbv zeta in *. by rewrite andb_true_iff, !Z.eqb_eq in H.
Qed.

Lemma last_byte i : 0 ≤ i < 128 → let b := byte_val (uint8 i) in Z.land b 127 = i ∧ Z.land b 128 = 0.
Proof.
  intros Hi. pose proof (below 128 (fun j => let b := byte_val (uint8 j) in (Z.land b 127 =? j) && (Z.land b 128 =? 0))
    ltac:(by vm_compute) i Hi) as H.
  cbv zeta in *. by rewrite andb_true_iff, !Z.eqb_eq in H.
Qed.

Lemma varint_rest_last i acc m rest : 0 ≤ m → 0 ≤ i < 128 → 0 ≤ acc → acc + i * 2 ^ m < 2 ^ 64 →
  varint_rest (uint8 i :: rest) acc m = Ok (acc + i * 2 ^ m, rest).
Proof.
  intros Hm Hi Ha Hs. destruct (last_byte i Hi) as [E1 E2]. cbn [varint_rest]. rewrite E1, E2, Z.shiftl_mul_pow2 by lia.
  assert (0 < 2 ^ m) by (apply Z.pow_pos_nonneg; lia).
  rewrite (uint64_id (i * 2 ^ m)) by nia. by rewrite uint64_id by nia.
Qed.

Lemma varint_rest_tail fuel i acc m rest :
  0 ≤ m < 63 → 0 ≤ i < 2 ^ (63 - m) → i < 2 ^ (7 * (Z.of_nat fuel + 1)) → 0 ≤ acc → acc + i * 2 ^ m < 2 ^ 64 →
  varint_rest (varint_tail fuel i ++ rest) acc m = Ok (acc + i * 2 ^ m, rest).
Proof.
  revert i acc m. induction fuel as [|fuel IH]; intros i acc m Hm Hi Hf Ha Hs; cbn [varint_tail].
  - apply varint_rest_last; lia.
  - destruct (Z.leb_spec 128 i) as [H|H]; [|apply varint_rest_last; lia].
    destruct (cont_byte i ltac:(lia)) as [E1 E2]. cbn [app varint_rest]. rewrite E1, E2.
    assert (7 < 63 - m) as H7. { assert (2 ^ 7 ≤ i) by (change (2 ^ 7) with 128; lia). apply (Z.pow_lt_mono_r_iff 2); lia. }
    change (128 =? 0) with false. cbn [negb]. destruct (Z.leb_spec 63 (m + 7)); [lia|].
    rewrite Z.shiftl_mul_pow2, Z.shiftr_div_pow2 by lia. change (2 ^ 7) with 128.
    assert (i = 128 * (i / 128) + i mod 128) as Ei by (apply Z.div_mod; lia).
    pose proof (Z.mod_pos_bound i 128 ltac:(lia)).
    assert (2 ^ (m + 7) = 128 * 2 ^ m) as Ep by (rewrite Z.pow_add_r by lia; change (2 ^ 7) with 128; lia).
    assert (0 < 2 ^ m) by (apply Z.pow_pos_nonneg; lia).
    assert (0 ≤ i mod 128 * 2 ^ m ≤ i * 2 ^ m) by nia.
    rewrite (uint64_id (i mod 128 * 2 ^ m)) by lia. rewrite uint64_id by lia.
    assert (acc + i mod 128 * 2 ^ m + i / 128 * 2 ^ (m + 7) = acc + i * 2 ^ m) as Et by (rewrite Ep; nia).
    assert (0 ≤ i / 128) by (apply Z.div_pos; lia).
    rewrite <- Et in Hs. rewrite <- Et. apply IH; try lia.
    + split; [done|]. apply Z.div_lt_upper_bound; [lia|]. change 128 with (2 ^ 7). rewrite <- Z.pow_add_r by lia.
      replace (7 + (63 - (m + 7))) with (63 - m) by lia. lia.
    + apply Z.div_lt_upper_bound; [lia|]. change 128 with (2 ^ 7). rewrite <- Z.pow_add_r by lia.
      replace (7 + 7 * (Z.of_nat fuel + 1)) with (7 * (Z.of_nat (S fuel) + 1)) by lia. lia.
Qed.

(** The first byte of an integer, with the bits of its representation. *)
Lemma tagged_byte n x t : 1 ≤ n ≤ 7 → 0 ≤ x < 2 ^ n → t mod 2 ^ n = 0 →
  Z.land (byte_val (uint8 (Z.lor (byte_val (uint8 x)) t))) (Z.shiftl 1 n - 1) = x.
Proof.
  intros Hn Hx Ht. rewrite Z.shiftl_1_l. replace (2 ^ n - 1) with (Z.ones n) by (rewrite Z.ones_equiv; lia).
  rewrite Z.land_ones, !byte_val_uint8 by lia. apply Z.bits_inj'. intros j Hj. change 256 with (2 ^ 8).
  destruct (Z_lt_le_dec j n).
  - rewrite !Z.mod_pow2_bits_low, Z.lor_spec, Z.mod_pow2_bits_low by lia.
    replace (Z.testbit t j) with false; [by rewrite orb_false_r|].
    rewrite <- (Z.mod_pow2_bits_low t n j), Ht by lia. by rewrite Z.bits_0.
  - rewrite Z.mod_pow2_bits_high by lia. symmetry.
    replace x with (x mod 2 ^ n) by (by rewrite Z.mod_small). by rewrite Z.mod_pow2_bits_high by lia.
Qed.

Lemma readVarInt_tagged n t i rest : 1 ≤ n ≤ 7 → t mod 2 ^ n = 0 → 0 ≤ i < 2 ^ 63 →
  readVarInt n (or_at 0 t (varint n i) ++ rest) = Ok (i, rest).
Proof.
  intros Hn Ht Hi. unfold readVarInt, varint, appendVarInt. cbn [app].
  destruct (Z.ltb_spec n 1); [lia|]. destruct (Z.ltb_spec 8 n); [lia|]. cbn [orb].
  assert (2 ^ 1 ≤ 2 ^ n ≤ 2 ^ 7) as Hp by (split; apply Z.pow_le_mono_r; lia).
  change (2 ^ 1) with 2 in Hp. change (2 ^ 7) with 128 in Hp.
  destruct (Z.ltb_spec i (Z.shiftl 1 n - 1)) as [Hs|Hs]; rewrite Z.shiftl_1_l in *; cbn [or_at alter list_alter app];
    (destruct (Z.ltb_spec n 8); [|lia]); rewrite <- Z.shiftl_1_l.
  - rewrite tagged_byte by lia. rewrite Z.shiftl_1_l. by destruct (Z.ltb_spec i (2 ^ n - 1)); [|lia].
  - rewrite (tagged_byte n (Z.shiftl 1 n - 1)) by (rewrite ?Z.shiftl_1_l; lia). rewrite Z.ltb_irrefl, Z.shiftl_1_l.
    rewrite varint_rest_tail by lia. f_equal. f_equal. lia.
Qed.

(** ** Strings *)

Definition hstring (s : bytes) : bytes := appendHpackString [] s.
Definition short (s : bytes) : Prop := Z.of_nat (length s) < 2 ^ 32.

Lemma appendHpackString_app dst s : appendHpackString dst s = dst ++ hstring s.
Proof.
  unfold hstring, appendHpackString. destruct (_ <? _).
  - rewrite (AppendHuffmanString_app (appendVarInt dst _ _)), (AppendHuffmanString_app (appendVarInt [] _ _)).
    rewrite (appendVarInt_app dst), <- app_assoc. fold (varint 7 (HuffmanEncodeLength s)).
    rewrite or_at_app; [done|]. intros [H _]%app_nil. by apply varint_nonempty in H.
  - by rewrite (appendVarInt_app dst), <- app_assoc.
Qed.

Lemma readVarInt_plain n i rest : 1 ≤ n ≤ 7 → 0 ≤ i < 2 ^ 63 → readVarInt n (varint n i ++ rest) = Ok (i, rest).
Proof.
  intros. rewrite <- (readVarInt_tagged n 0 i rest) by (done || lia). f_equal. f_equal.
  unfold varint, appendVarInt. destruct (_ <? _); cbn [app or_at alter list_alter]; rewrite Z.lor_0_r; by rewrite uint8_byte_val.
Qed.

(** The flag of the coding in the first byte. *)
Definition is_huff (p : bytes) : bool := match p with b :: _ => negb (Z.land (byte_val b) 128 =? 0) | [] => false end.

Lemma varint_first n i : 1 ≤ n ≤ 7 → 0 ≤ i → ∃ b r, varint n i = b :: r ∧ 0 ≤ byte_val b < 2 ^ n.
Proof.
  intros Hn Hi. unfold varint, appendVarInt. cbn [app].
  assert (2 ^ 1 ≤ 2 ^ n ≤ 2 ^ 7) as Hp by (split; apply Z.pow_le_mono_r; lia).
  change (2 ^ 1) with 2 in Hp. change (2 ^ 7) with 128 in Hp. rewrite Z.shiftl_1_l.
  destruct (Z.ltb_spec i (2 ^ n - 1)); eexists _, _; (split; [done|]); rewrite byte_val_uint8, Z.mod_small; lia.
Qed.

Lemma byte_flag x : 0 ≤ x < 128 →
  Z.land x 128 = 0 ∧ Z.land (byte_val (uint8 (Z.lor x 128))) 128 = 128.
Proof.
  intros Hx. pose proof (below 128 (fun x => (Z.land x 128 =? 0) && (Z.land (byte_val (uint8 (Z.lor x 128))) 128 =? 128))
    ltac:(by vm_compute) x Hx) as H. by rewrite andb_true_iff, !Z.eqb_eq in H.
Qed.

Lemma varint_flag i rest : 0 ≤ i →
  is_huff (varint 7 i ++ rest) = false ∧ is_huff (or_at 0 128 (varint 7 i) ++ rest) = true.
Proof.
  intros Hi. destruct (varint_first 7 i) as (b & r & -> & Hb); [lia..|]. change (2 ^ 7) with 128 in Hb.
  destruct (byte_flag _ Hb) as [E1 E2]. cbn [app or_at alter list_alter is_huff]. by rewrite E1, E2.
Qed.

Lemma readString_eq m p w : p ≠ [] →
  readString m p w =
    '(strLen, r) ← readVarInt 7 p;
    if negb (m =? 0) && (uint64 m <? strLen) then Err ErrStringLength else
    if Z.of_nat (length r) <? strLen then Err errNeedMore else
    let str := take (Z.to_nat strLen) r in
    let rest := drop (Z.to_nat strLen) r in
    if negb w then Ok ([], rest) else
    if is_huff p then s ← huffmanDecode m str; Ok (s, rest) else Ok (str, rest).
Proof. by destruct p. Qed.

Lemma hstring_nonempty s : hstring s ≠ [].
Proof.
  unfold hstring, appendHpackString. destruct (_ <? _).
  - intros H%(f_equal length). rewrite or_at_length, AppendHuffmanString_app, length_app in H.
    pose proof (varint_nonempty 7 (HuffmanEncodeLength s)). unfold varint in *. destruct (appendVarInt [] 7 _); done.
  - intros [H _]%app_nil. by apply varint_nonempty in H.
Qed.

Lemma readString_hstring s rest : short s → readString 0 (hstring s ++ rest) true = Ok (s, rest).
Proof.
  intros Hs. unfold short in Hs.
  rewrite readString_eq by (intros [H _]%app_nil; by apply hstring_nonempty in H).
  assert (30 * Z.of_nat (length s) + 8 < 2 ^ 64) as Hl by lia.
  unfold hstring, appendHpackString. fold (varint 7 (HuffmanEncodeLength s)) (varint 7 (Z.of_nat (length s))).
  destruct (Z.ltb_spec (HuffmanEncodeLength s) (Z.of_nat (length s))) as [H|H].
  - assert (HuffmanEncodeLength s = Z.of_nat (length (AppendHuffmanString [] s))) as EL by (by apply HuffmanEncodeLength_spec).
    rewrite (AppendHuffmanString_app (varint 7 _)). cbn [length]. rewrite or_at_0_app by apply varint_nonempty.
    rewrite <- app_assoc, readVarInt_tagged by (done || lia). cbn [mbind outcome_bind Z.eqb negb andb].
    rewrite EL, length_app, Nat2Z.id, take_app_length, drop_app_length.
    destruct (Z.ltb_spec (Z.of_nat (length (AppendHuffmanString [] s) + length rest)) (Z.of_nat (length (AppendHuffmanString [] s)))); [lia|].
    rewrite <- EL. destruct (varint_flag (HuffmanEncodeLength s) (AppendHuffmanString [] s ++ rest)) as [_ ->]; [lia|].
    by rewrite decode_encode_huffman.
  - rewrite <- app_assoc, readVarInt_plain by lia. cbn [mbind outcome_bind Z.eqb negb andb].
    rewrite length_app, Nat2Z.id, take_app_length, drop_app_length.
    destruct (Z.ltb_spec (Z.of_nat (length s + length rest)) (Z.of_nat (length s))); [lia|].
    by destruct (varint_flag (Z.of_nat (length s)) (s ++ rest)) as [-> _]; [lia|].
Qed.

(** ** More input

    A reader that does not ask for more gives the same result on a longer input. *)
Definition extend {A} (q : bytes) (o : outcome (A * bytes)) : outcome (A * bytes) :=
  match o with Ok (a, r) => Ok (a, r ++ q) | _ => o end.

Lemma varint_rest_stable p q i m :
  varint_rest p i m ≠ Err errNeedMore → varint_rest (p ++ q) i m = extend q (varint_rest p i m).
Proof.
  revert i m. induction p as [|b p IH]; intros i m H; [done|]. cbn [app varint_rest] in *. cbv zeta in *.
  destruct (_ =? 0); [done|]. destruct (63 <=? m + 7); [done|]. by apply IH.
Qed.

Lemma readVarInt_stable n p q :
  readVarInt n p ≠ Err errNeedMore → readVarInt n (p ++ q) = extend q (readVarInt n p).
Proof.
  unfold readVarInt. destruct (_ || _); [done|]. destruct p as [|b p]; [done|]. intros H. cbn [app]. cbv zeta in *.
  destruct (_ <? Z.shiftl 1 n - 1); [done|]. by apply varint_rest_stable.
Qed.

Lemma errors_distinct : ErrStringLength ≠ errNeedMore ∧ ErrInvalidHuffman ≠ errNeedMore.
Proof. done. Qed.

Lemma readString_stable m p q w :
  readString m p w ≠ Err errNeedMore → readString m (p ++ q) w = extend q (readString m p w).
Proof.
  destruct p as [|b p]; [done|]. intros H.
  assert (readVarInt 7 (b :: p) ≠ Err errNeedMore) as Hv by (intros E; apply H; cbn [readString]; by rewrite E).
  rewrite !readString_eq in * by done. rewrite readVarInt_stable by done.
  destruct (readVarInt 7 (b :: p)) as [[n r]|e|e]; [|done..]. cbn [extend mbind outcome_bind] in *.
  destruct (_ && _); [done|]. rewrite length_app. destruct (Z.ltb_spec (Z.of_nat (length r)) n) as [|Hn]; [done|].
  destruct (Z.ltb_spec (Z.of_nat (length r + length q)) n); [lia|]. cbv zeta in *.
  rewrite take_app_le, drop_app_le by lia. destruct (negb w); [done|]. cbn [is_huff app].
  destruct (negb _); [|done]. by destruct (huffmanDecode m _).
Qed.

Definition extend_parsed (q : bytes) (o : outcome parsed) : outcome parsed :=
  match o with Ok p => Ok (mkParsed (p_dec p) (p_buf p ++ q) (p_emit p) (p_err p)) | _ => o end.

Definition settled (o : outcome parsed) : Prop :=
  match o with Ok p => p_err p ≠ Some errNeedMore | _ => True end.

Lemma reading_stable {A} d buf q (m m' : outcome (A * bytes)) f f' :
  (m ≠ Err errNeedMore → m' = extend q m) →
  (∀ a r, m = Ok (a, r) → settled (f (a, r)) → f' (a, r ++ q) = extend_parsed q (f (a, r))) →
  settled (reading d buf m f) → reading d (buf ++ q) m' f' = extend_parsed q (reading d buf m f).
Proof.
  intros Hm Hf Hs. destruct m as [[a r]|e|e]; cbn [reading] in *.
  - rewrite Hm by done. cbn [extend reading]. by apply Hf.
  - rewrite Hm; [done|]. intros [= ->]. done.
  - by rewrite Hm.
Qed.

Lemma read_name_stable i p q w d :
  read_name i p w d ≠ Err errNeedMore → read_name i (p ++ q) w d = extend q (read_name i p w d).
Proof.
  unfold read_name. destruct (0 <? i); [|apply readString_stable]. by destruct (field_at i d).
Qed.

Lemma callEmit_stable hf r q d : Ok (callEmit hf (r ++ q) d) = extend_parsed q (Ok (callEmit hf r d)).
Proof. unfold callEmit. cbv zeta. by destruct (_ && _). Qed.

Lemma parse_stable buf q d :
  buf ≠ [] → settled (parseHeaderFieldRepr buf d) →
  parseHeaderFieldRepr (buf ++ q) d = extend_parsed q (parseHeaderFieldRepr buf d).
Proof.
  destruct buf as [|c buf]; [done|]. intros _. cbn [parseHeaderFieldRepr app]. cbv zeta.
  assert (∀ n it, settled (parseFieldLiteral n it (c :: buf) d) →
    parseFieldLiteral n it (c :: buf ++ q) d = extend_parsed q (parseFieldLiteral n it (c :: buf) d)) as Hlit.
  { intros n it. unfold parseFieldLiteral. cbv zeta. apply (reading_stable _ (c :: buf)); [apply (readVarInt_stable n (c :: buf))|].
    intros i r _. apply (reading_stable _ (c :: buf)); [apply read_name_stable|].
    intros s r' _. apply (reading_stable _ (c :: buf)); [apply readString_stable|].
    intros v r'' _ _. destruct (if indexed it then _ else _) as [dt|e|e]; [|done..]. apply callEmit_stable. }
  destruct (negb _).
  { apply (reading_stable _ (c :: buf)); [apply (readVarInt_stable 7 (c :: buf))|].
    intros i r _ _. destruct (field_at i d); [apply callEmit_stable|done]. }
  destruct (_ =? 64); [apply Hlit|]. destruct (_ =? 0); [apply Hlit|]. destruct (_ =? 16); [apply Hlit|].
  destruct (_ =? 32); [|done].
  apply (reading_stable _ (c :: buf)); [apply (readVarInt_stable 5 (c :: buf))|].
  intros i r _ _. destruct (_ <? i); [done|]. by destruct (setMaxSize _ _).
Qed.

(** ** Progress *)

Definition shrinks {A} (n : nat) (o : outcome (A * bytes)) : Prop :=
  match o with Ok (_, r) => (length r < n)%nat | _ => True end.

Lemma varint_rest_shrinks p i m : shrinks (length p) (varint_rest p i m).
Proof.
  revert i m. induction p as [|b p IH]; intros i m; [done|]. cbn [varint_rest length]. cbv zeta.
  destruct (_ =? 0); [cbn; lia|]. destruct (63 <=? m + 7); [done|].
  specialize (IH (uint64 (i + uint64 (Z.shiftl (Z.land (byte_val b) 127) m))) (m + 7)).
  destruct (varint_rest p _ _) as [[? ?]|?|?]; cbn in *; lia.
Qed.

Lemma readVarInt_shrinks n p : shrinks (length p) (readVarInt n p).
Proof.
  unfold readVarInt. destruct (_ || _); [done|]. destruct p as [|b p]; [done|]. cbv zeta.
  destruct (_ <? Z.shiftl 1 n - 1); [cbn; lia|].
  pose proof (varint_rest_shrinks p (if n <? 8 then Z.land (byte_val b) (Z.shiftl 1 n - 1) else byte_val b) 0) as H.
  destruct (varint_rest p _ _) as [[? ?]|?|?]; cbn in *; lia.
Qed.

Lemma readString_shrinks m p w : shrinks (length p) (readString m p w).
Proof.
  destruct p as [|b p]; [done|]. rewrite readString_eq by done. pose proof (readVarInt_shrinks 7 (b :: p)) as H.
  destruct (readVarInt 7 (b :: p)) as [[n r]|e|e]; [|done..]. cbn [mbind outcome_bind shrinks] in *.
  destruct (_ && _); [done|]. destruct (_ <? n); [done|]. cbv zeta.
  assert (length (drop (Z.to_nat n) r) < length (b :: p))%nat by (rewrite length_drop; lia).
  destruct (negb w); [done|]. destruct (is_huff _); [|done]. by destruct (huffmanDecode m _).
Qed.

(** What a parser does to its decoder and its buffer, the table apart. *)
Definition parse_effect (buf : bytes) (d : Decoder) (o : outcome parsed) : Prop :=
  match o with
  | Ok p => (∃ dt, p_dec p = set_table dt d) ∧ (p_err p = None → (length (p_buf p) < length buf)%nat) ∧
            (p_err p = Some errNeedMore → p_buf p = buf ∧ p_emit p = [] ∧ p_dec p = d)
  | Err _ => False
  | Panic _ => True
  end.

Lemma set_table_same d : set_table (d_dynTab d) d = d.
Proof. by destruct d. Qed.

Lemma fail_effect buf d e : parse_effect buf d (Ok (mkParsed d buf [] (Some e))).
Proof. split; [exists (d_dynTab d); by rewrite set_table_same|done]. Qed.

Lemma callEmit_effect hf r buf d dt : (length r < length buf)%nat → parse_effect buf d (Ok (callEmit hf r (set_table dt d))).
Proof. intros Hr. unfold callEmit. cbv zeta. destruct (_ && _); (split; [by exists dt|done]). Qed.

Lemma reading_effect {A} d buf (m : outcome (A * bytes)) f n :
  shrinks n m → (∀ a r, m = Ok (a, r) → (length r < n)%nat → parse_effect buf d (f (a, r))) → parse_effect buf d (reading d buf m f).
Proof. intros Hs Hf. destruct m as [[a r]|e|e]; cbn [reading shrinks] in *; [by apply Hf|apply fail_effect|done]. Qed.

Lemma evict_loop_noerr es n m : match evict_loop es n m with Err _ => False | _ => True end.
Proof. revert n. induction es as [|e es IH]; intros n; cbn [evict_loop]; destruct (m <? n); done || apply IH. Qed.

Lemma evict_noerr dt : match evict dt with Err _ => False | _ => True end.
Proof.
  unfold evict. pose proof (evict_loop_noerr (ents dt) (size dt) (maxSize dt)) as H.
  by destruct (evict_loop _ _ _) as [[? ?]|?|?].
Qed.

Lemma parse_literal_effect n it buf d : parse_effect buf d (parseFieldLiteral n it buf d).
Proof.
  unfold parseFieldLiteral. cbv zeta. eapply reading_effect; [apply readVarInt_shrinks|]. intros i r _ Hr.
  eapply (reading_effect _ _ _ _ (S (length r))).
  { unfold read_name. destruct (0 <? i); [destruct (field_at i d); cbn; done || lia|].
    pose proof (readString_shrinks (maxStrLen d) r (emitEnabled d || indexed it)) as H.
    destruct (readString _ _ _) as [[? ?]|?|?]; cbn in *; done || lia. }
  intros s r' _ Hr'. eapply reading_effect; [apply readString_shrinks|]. intros v r'' _ Hr''.
  assert (match (if indexed it then table_add (mkField s v false) (d_dynTab d) else Ok (d_dynTab d)) with Err _ => False | _ => True end) as Hn.
  { destruct (indexed it); [apply evict_noerr|done]. }
  destruct (if indexed it then _ else _) as [dt|e|e]; [|done..]. apply callEmit_effect. lia.
Qed.

Lemma parse_repr_effect buf d : parse_effect buf d (parseHeaderFieldRepr buf d).
Proof.
  destruct buf as [|c buf]; [done|]. cbn [parseHeaderFieldRepr]. cbv zeta.
  destruct (negb _).
  { eapply reading_effect; [apply readVarInt_shrinks|]. intros i r _ Hr.
    destruct (field_at i d); [|apply fail_effect]. rewrite <- (set_table_same d) at 2. by apply callEmit_effect. }
  destruct (_ =? 64); [apply parse_literal_effect|]. destruct (_ =? 0); [apply parse_literal_effect|].
  destruct (_ =? 16); [apply parse_literal_effect|]. destruct (_ =? 32); [|apply fail_effect].
  eapply reading_effect; [apply readVarInt_shrinks|]. intros i r _ Hr. destruct (_ <? i); [apply fail_effect|].
  pose proof (evict_noerr (mkTable (ents (d_dynTab d)) (size (d_dynTab d)) (uint32 i) (allowedMaxSize (d_dynTab d)))) as H.
  unfold setMaxSize. destruct (evict _) as [dt|e|e]; [|done..]. split; [by exists dt|done].
Qed.

(** ** The loop of [Write] *)

Definition decoding : Type := outcome (Decoder * list HeaderField * option error).

(** [Write] of the fields of a decoder that has no limit on its strings. *)
Definition write_all (buf : bytes) (d : Decoder) : decoding := write_loop (length buf) buf d.

Definition emitting (fs : list HeaderField) (o : decoding) : decoding :=
  match o with Ok (d, gs, e) => Ok (d, fs ++ gs, e) | _ => o end.

Lemma emitting_bind fs (o : decoding) : ('(d, gs, e) ← o; Ok (d, fs ++ gs, e)) = emitting fs o.
Proof. by destruct o as [[[? ?] ?]|?|?]. Qed.

Lemma write_loop_fuel n fuel buf d :
  (length buf ≤ n)%nat → (length buf ≤ fuel)%nat → write_loop fuel buf d = write_all buf d.
Proof.
  unfold write_all. revert fuel buf d. induction n as [|n IH]; intros fuel buf d Hn Hf.
  - destruct buf; [by destruct fuel|cbn in Hn; lia].
  - destruct buf as [|c buf]; [by destruct fuel|]. destruct fuel as [|fuel]; [cbn in Hf; lia|].
    cbn [write_loop length] in *. pose proof (parse_repr_effect (c :: buf) d) as He.
    destruct (parseHeaderFieldRepr (c :: buf) d) as [p|e|e]; [|done..]. cbn [mbind outcome_bind].
    destruct He as (_ & Hl & _). destruct (p_err p); [done|]. specialize (Hl eq_refl). cbn [length] in Hl.
    rewrite (IH fuel), (IH (length buf)) by lia. done.
Qed.

(** What [Write] does, a field at a time. *)
Lemma write_all_eq buf d : buf ≠ [] → maxStrLen d = 0 →
  write_all buf d =
    p ← parseHeaderFieldRepr buf d;
    match p_err p with
    | None => emitting (p_emit p) (write_all (p_buf p) (p_dec p))
    | Some e =>
        if bool_decide (e = errNeedMore) then Ok (set_saveBuf (p_buf p) (p_dec p), p_emit p, None)
        else Ok (p_dec p, p_emit p, Some e)
    end.
Proof.
  intros Hb Hm. destruct buf as [|c buf]; [done|]. unfold write_all. cbn [length write_loop].
  pose proof (parse_repr_effect (c :: buf) d) as He.
  destruct (parseHeaderFieldRepr (c :: buf) d) as [p|e|e]; [|done..]. cbn [mbind outcome_bind].
  destruct He as (_ & Hl & _). rewrite Hm. destruct (p_err p); [done|]. specialize (Hl eq_refl). cbn [length] in Hl.
  rewrite (write_loop_fuel (length buf)) by lia. apply emitting_bind.
Qed.

(** A decoder between two calls: without limit, and what it has saved asks for more. *)
Definition waiting (d : Decoder) : Prop :=
  maxStrLen d = 0 ∧ (saveBuf d = [] ∨ ∃ p, parseHeaderFieldRepr (saveBuf d) (set_saveBuf [] d) = Ok p ∧ p_err p = Some errNeedMore).

Lemma set_saveBuf_twice a b d : set_saveBuf a (set_saveBuf b d) = set_saveBuf a d.
Proof. done. Qed.

Lemma emitting_app fs gs o : emitting fs (emitting gs o) = emitting (fs ++ gs) o.
Proof. destruct o as [[[? ?] ?]|?|?]; [|done..]. cbn. by rewrite app_assoc. Qed.

Lemma emitting_nil o : emitting [] o = o.
Proof. by destruct o as [[[? ?] ?]|?|?]. Qed.

(** [Write] of a longer buffer goes on where [Write] of its beginning has stopped. *)
Lemma write_all_app n buf q d :
  (length buf ≤ n)%nat → maxStrLen d = 0 → saveBuf d = [] →
  match write_all buf d with
  | Ok (d1, fs, None) => waiting d1 ∧ write_all (buf ++ q) d = emitting fs (write_all (saveBuf d1 ++ q) (set_saveBuf [] d1))
  | o => match o with Ok (d1, _, _) => maxStrLen d1 = 0 ∧ saveBuf d1 = [] | _ => True end ∧ write_all (buf ++ q) d = o
  end.
Proof.
  revert buf d. induction n as [|n IH]; intros buf d Hn Hm Hs.
  all: destruct buf as [|c buf]; [cbn; split; [by split; [|left]|]; rewrite emitting_nil, Hs; by destruct d; cbn in *; subst|].
  - cbn in Hn. lia.
  - rewrite write_all_eq by done. pose proof (parse_repr_effect (c :: buf) d) as He.
    assert (settled (parseHeaderFieldRepr (c :: buf) d) → write_all ((c :: buf) ++ q) d =
      (p ← extend_parsed q (parseHeaderFieldRepr (c :: buf) d);
       match p_err p with
       | None => emitting (p_emit p) (write_all (p_buf p) (p_dec p))
       | Some e => if bool_decide (e = errNeedMore) then Ok (set_saveBuf (p_buf p) (p_dec p), p_emit p, None)
                   else Ok (p_dec p, p_emit p, Some e)
       end)) as Hq.
    { intros Hst. rewrite write_all_eq by done. by rewrite parse_stable. }
    destruct (parseHeaderFieldRepr (c :: buf) d) as [p|e|e] eqn:Ep; [|done|by split; [|apply Hq]].
    cbn [mbind outcome_bind extend_parsed p_err p_emit p_buf p_dec] in *.
    destruct He as ((dt & Hd) & Hl & Hneed). destruct (p_err p) as [e|] eqn:Ee.
    + destruct (bool_decide_reflect (e = errNeedMore)) as [->|Hne].
      * destruct (Hneed eq_refl) as (Hb & Hem & Hdec). rewrite Hb, Hem, Hdec. split.
        -- split; [done|]. right. exists p. cbn [saveBuf set_saveBuf]. split; [|done]. rewrite <- Ep. f_equal.
           destruct d; cbn in *; by subst.
        -- rewrite emitting_nil. cbn [saveBuf set_saveBuf]. rewrite set_saveBuf_twice. f_equal. destruct d; cbn in *; by subst.
      * split; [rewrite Hd; by split|]. rewrite Hq by (cbn; congruence). by rewrite ?(bool_decide_false (e = errNeedMore)) by done.
    + specialize (Hl eq_refl). cbn [length] in Hl. specialize (IH (p_buf p) (p_dec p) ltac:(cbn in Hn; lia)).
      rewrite Hd in IH at 1 2. specialize (IH Hm Hs). rewrite Hq by (cbn; congruence).
      destruct (write_all (p_buf p) (p_dec p)) as [[[d1 fs] [e|]]|e|e]; cbn [emitting] in *.
      * destruct IH as [H1 ->]. done.
      * destruct IH as [H1 ->]. split; [done|]. by rewrite emitting_app.
      * destruct IH as [H1 ->]. done.
      * destruct IH as [H1 ->]. done.
Qed.

(** [Write] in terms of its loop. *)
Lemma Decoder_Write_all p d : waiting d → Decoder_Write p d = write_all (saveBuf d ++ p) (set_saveBuf [] d).
Proof.
  intros [Hm Hw]. unfold Decoder_Write. destruct p as [|c p]; [|done]. cbn [length Nat.eqb]. rewrite app_nil_r.
  destruct Hw as [Hs|(p & Hp & He)].
  - rewrite Hs. unfold write_all. cbn [length write_loop]. f_equal. f_equal. f_equal. destruct d; cbn in *; by subst.
  - destruct (decide (saveBuf d = [])) as [Hs|Hs].
    { rewrite Hs. unfold write_all. cbn [length write_loop]. f_equal. f_equal. f_equal. destruct d; cbn in *; by subst. }
    rewrite write_all_eq by done. pose proof (parse_repr_effect (saveBuf d) (set_saveBuf [] d)) as Hf.
    rewrite Hp in Hf |- *. cbn [mbind outcome_bind]. rewrite He. rewrite bool_decide_true by done.
    destruct Hf as (_ & _ & Hn). destruct (Hn He) as (-> & -> & ->). f_equal. f_equal. f_equal. by destruct d.
Qed.

Lemma Decoder_Write_waiting p d : waiting d →
  match Decoder_Write p d with Ok (d', _, _) => waiting d' | Err _ => False | Panic _ => True end.
Proof.
  intros Hw. rewrite Decoder_Write_all by done. destruct Hw as [Hm Hw].
  pose proof (write_all_app (length (saveBuf d ++ p)) (saveBuf d ++ p) [] (set_saveBuf [] d) ltac:(lia) Hm eq_refl) as H.
  destruct (write_all _ (set_saveBuf [] d)) as [[[d1 fs] [e|]]|e|e] eqn:E.
  - destruct H as [[? ?] _]. by split; [|left].
  - by destruct H.
  - clear -E. revert E. unfold write_all. generalize (length (saveBuf d ++ p)), (set_saveBuf [] d) as d'.
    generalize (saveBuf d ++ p). intros b n. revert b. induction n as [|n IH]; intros [|c b] d' E; try done.
    cbn [write_loop] in E. pose proof (parse_repr_effect (c :: b) d') as He.
    destruct (parseHeaderFieldRepr (c :: b) d') as [q|?|?]; [|done..]. cbn [mbind outcome_bind] in E.
    destruct (p_err q); [by repeat case_match|]. pose proof (IH (p_buf q) (p_dec q)) as IH'.
    destruct (write_loop n _ _) as [[[? ?] ?]|?|?]; [done|by apply IH'|done].
  - done.
Qed.

Lemma writes_concat_waiting ps d : waiting d → writes ps d = Decoder_Write (concat ps) d.
Proof.
  revert d. induction ps as [|p ps IH]; intros d Hw; [done|]. cbn [writes concat].
  pose proof (Decoder_Write_waiting p d Hw) as Hw'. rewrite (Decoder_Write_all (p ++ _)) by done.
  rewrite Decoder_Write_all in * by done. destruct Hw as [Hm _]. rewrite app_assoc.
  pose proof (write_all_app (length (saveBuf d ++ p)) (saveBuf d ++ p) (concat ps) (set_saveBuf [] d) ltac:(lia) Hm eq_refl) as H.
  destruct (write_all _ (set_saveBuf [] d)) as [[[d1 fs] [e|]]|e|e]; cbn [mbind outcome_bind].
  - by destruct H as [_ ->].
  - destruct H as [_ ->]. rewrite IH by done. rewrite (Decoder_Write_all (concat ps)) by done. by rewrite emitting_bind.
  - done.
  - by destruct H as [_ ->].
Qed.

(** ** The dynamic table *)

Definition table_sum (es : list HeaderField) : Z := sumZ hf_size es.

Lemma hf_size_range f : 0 ≤ hf_size f < 2 ^ 32.
Proof. unfold hf_size, uint32. apply Z.mod_pos_bound. lia. Qed.

Lemma table_sum_cons e es : table_sum (e :: es) = hf_size e + table_sum es.
Proof. done. Qed.

Lemma table_sum_nonneg es : 0 ≤ table_sum es.
Proof. apply sumZ_nonneg. intros f. pose proof (hf_size_range f). lia. Qed.

Lemma table_sum_suffix k es : k `suffix_of` es → table_sum k ≤ table_sum es.
Proof. intros [l ->]. unfold table_sum. rewrite sumZ_app. pose proof (table_sum_nonneg l). unfold table_sum in *. lia. Qed.

Lemma uint32_sub a b : uint32 (uint32 (a + b) - a) = uint32 b.
Proof. unfold uint32. rewrite Zminus_mod_idemp_l. f_equal. lia. Qed.

(** What [evict] leaves is the longest end of the table that fits. *)
Lemma evict_loop_spec es m : 0 ≤ m →
  ∃ es', evict_loop es (uint32 (table_sum es)) m = Ok (es', uint32 (table_sum es')) ∧ es' `suffix_of` es ∧
    uint32 (table_sum es') ≤ m ∧
    (table_sum es < 2 ^ 32 → ∀ k, k `suffix_of` es → table_sum k ≤ m → k `suffix_of` es').
Proof.
  intros Hm. induction es as [|e es IH]; cbn [evict_loop].
  - destruct (Z.ltb_spec m (uint32 (table_sum []))) as [H|H]; [change (uint32 (table_sum [])) with 0 in H; lia|].
    by exists [].
  - destruct (Z.ltb_spec m (uint32 (table_sum (e :: es)))) as [H|H]; [|by exists (e :: es)].
    rewrite table_sum_cons, uint32_sub. destruct IH as (es' & -> & Hs & Hle & Hk). exists es'. split_and!; [done|by apply suffix_cons_r|done|].
    intros Hb k Hsuf Hkm. pose proof (hf_size_range e). destruct k as [|x k]; [apply suffix_nil|]. apply Hk; [lia| |done].
    apply suffix_cons_inv in Hsuf as [Ek|]; [|done]. rewrite Ek in Hkm.
    rewrite table_sum_cons in *. rewrite uint32_id in H; [lia|]. pose proof (table_sum_nonneg es). lia.
Qed.

(** The size of a table is that of its entries and within its maximum. *)
Definition exact (dt : dynamicTable) : Prop :=
  size dt = table_sum (ents dt) ∧ table_sum (ents dt) ≤ maxSize dt < 2 ^ 31.

Definition counted (dt : dynamicTable) : Prop := size dt = uint32 (table_sum (ents dt)).

Lemma evict_exact dt : size dt = table_sum (ents dt) → table_sum (ents dt) < 2 ^ 32 → 0 ≤ maxSize dt < 2 ^ 31 →
  ∃ dt', evict dt = Ok dt' ∧ exact dt' ∧ maxSize dt' = maxSize dt ∧ allowedMaxSize dt' = allowedMaxSize dt ∧
    ents dt' `suffix_of` ents dt ∧ ∀ k, k `suffix_of` ents dt → table_sum k ≤ maxSize dt → k `suffix_of` ents dt'.
Proof.
  intros Hs Hb Hm. unfold evict. pose proof (table_sum_nonneg (ents dt)).
  destruct (evict_loop_spec (ents dt) (maxSize dt)) as (es & E & Hsuf & Hle & Hk); [lia|].
  rewrite uint32_id in E by lia. rewrite Hs, E. cbn [mbind outcome_bind]. eexists. split; [done|].
  pose proof (table_sum_suffix _ _ Hsuf). pose proof (table_sum_nonneg es). rewrite uint32_id in * by lia.
  split_and!; [split; [done|cbn [ents maxSize]; lia]|done..|]. by apply Hk.
Qed.

(** A table never runs empty in [evict], even when its size wraps around. *)
Lemma evict_counted dt : counted dt → 0 ≤ maxSize dt →
  ∃ dt', evict dt = Ok dt' ∧ counted dt' ∧ maxSize dt' = maxSize dt ∧ allowedMaxSize dt' = allowedMaxSize dt ∧ size dt' ≤ maxSize dt.
Proof.
  intros Hc Hm. unfold evict. destruct (evict_loop_spec (ents dt) (maxSize dt) Hm) as (es & E & _ & Hle & _).
  rewrite Hc, E. cbn [mbind outcome_bind]. eexists. split; [done|]. by split_and!.
Qed.

Lemma add_counted f dt : counted dt → counted (mkTable (ents dt ++ [f]) (uint32 (size dt + hf_size f)) (maxSize dt) (allowedMaxSize dt)).
Proof.
  intros Hc. unfold counted in *. cbn [ents size]. rewrite Hc. unfold table_sum, uint32. rewrite sumZ_app. cbn [sumZ foldr].
  rewrite Zplus_mod_idemp_l. f_equal. unfold sumZ. cbn. lia.
Qed.
