(* ===== verification/HpackProps.v ===== *)
(** * Properties of header compression

    The decoder, fed the blocks of the encoder in any pieces, emits the fields that were
    encoded, although the two change their tables on their own; the Huffman coder is that
    of its code; and how the decoder fails on other bytes. *)
From Stdlib Require Import ZArith Lia Ascii.
From stdpp Require Import base option list strings.
From S2P Require Import Prelude GoNum GoFmt Strconv Flow Proto GrpcFacts Huffman HuffmanFacts Hpack HpackFacts.

(** ** Search *)

Lemma lxor_fold_zero l c : 0 ≤ c →
  (foldl (fun c '(x, y) => Z.lor c (Z.lxor (byte_val x) (byte_val y))) c l =? 0) =
  (c =? 0) && forallb (fun '(x, y) => Ascii.eqb x y) l.
Proof.
  revert c. induction l as [|[x y] l IH]; intros c Hc; cbn [foldl forallb]; [by rewrite andb_true_r|].
  pose proof (byte_val_range x). pose proof (byte_val_range y).
  rewrite IH by (apply Z.lor_nonneg; split; [done|]; apply Z.lxor_nonneg; lia).
  rewrite andb_assoc. f_equal. apply eq_true_iff_eq. rewrite andb_true_iff, !Z.eqb_eq, Z.lor_eq_0_iff, Z.lxor_eq_0_iff, Ascii.eqb_eq.
  split; intros [-> E]; (split; [done|]); [|by subst].
  by rewrite <- (uint8_byte_val x), <- (uint8_byte_val y), E.
Qed.

Lemma constantTimeStringCompare_eq a b : constantTimeStringCompare a b = true ↔ a = b.
Proof.
  unfold constantTimeStringCompare. destruct (Nat.eqb_spec (length a) (length b)) as [Hl|Hl]; cbn [negb].
  - rewrite lxor_fold_zero by done. rewrite Z.eqb_refl. cbn [andb]. revert b Hl.
    induction a as [|x a IH]; intros [|y b] Hl; try done. cbn [zip zip_with forallb]. rewrite andb_true_iff, Ascii.eqb_eq.
    cbn [length] in Hl. rewrite IH by lia. split; [by intros [-> ->]|by intros [= -> ->]].
  - split; [done|]. by intros ->.
Qed.

Lemma search_loop_spec f es k i r m : 1 ≤ k → search_loop f es k i = (r, m) →
  if m then Sensitive f = false ∧ ∃ j ent, es !! j = Some ent ∧ r = k + Z.of_nat j ∧ hf_Name ent = hf_Name f ∧ hf_Value ent = hf_Value f
  else r = i ∨ i = 0 ∧ ∃ j ent, es !! j = Some ent ∧ r = k + Z.of_nat j ∧ hf_Name ent = hf_Name f.
Proof.
  revert k i. induction es as [|ent es IH]; intros k i Hk H; cbn [search_loop] in H.
  - injection H as <- <-. by left.
  - assert (∀ i', search_loop f es (k + 1) i' = (r, m) →
      if m then Sensitive f = false ∧ ∃ j ent', (ent :: es) !! j = Some ent' ∧ r = k + Z.of_nat j ∧ hf_Name ent' = hf_Name f ∧ hf_Value ent' = hf_Value f
      else r = i' ∨ i' = 0 ∧ ∃ j ent', (ent :: es) !! j = Some ent' ∧ r = k + Z.of_nat j ∧ hf_Name ent' = hf_Name f) as Hrec.
    { intros i' H'. apply IH in H'; [|lia]. destruct m.
      - destruct H' as (? & j & e & ? & -> & ? & ?). split; [done|]. exists (S j), e. split_and!; try done. lia.
      - destruct H' as [->|(-> & j & e & ? & -> & ?)]; [by left|right]. split; [done|]. exists (S j), e. split_and!; try done. lia. }
    destruct (constantTimeStringCompare (hf_Name ent) (hf_Name f)) eqn:En; cbn [negb] in H; [|by apply Hrec].
    apply constantTimeStringCompare_eq in En.
    assert (∀ i', i' = (if i =? 0 then k else i) → r = i' ∨ i' = 0 ∧ (∃ j ent', (ent :: es) !! j = Some ent' ∧ r = k + Z.of_nat j ∧ hf_Name ent' = hf_Name f) →
      r = i ∨ i = 0 ∧ ∃ j ent', (ent :: es) !! j = Some ent' ∧ r = k + Z.of_nat j ∧ hf_Name ent' = hf_Name f) as Hname.
    { intros i' ->. destruct (Z.eqb_spec i 0) as [->|]; [|by intros [?|[? _]]; [left|lia]].
      intros [->|[? _]]; [|lia]. right. split; [done|]. exists 0%nat, ent. split_and!; try done. lia. }
    cbv zeta in H. destruct (Sensitive f) eqn:Es.
    + pose proof (Hrec _ H) as H'. destruct m; [done|]. by apply (Hname _ eq_refl).
    + destruct (constantTimeStringCompare (hf_Value ent) (hf_Value f)) eqn:Ev; cbn [negb] in H.
      * injection H as <- <-. apply constantTimeStringCompare_eq in Ev. split; [done|]. exists 0%nat, ent. split_and!; try done. lia.
      * pose proof (Hrec _ H) as H'. destruct m; [done|]. by apply (Hname _ eq_refl).
Qed.

Lemma static_len_61 : static_len = 61.
Proof. by vm_compute. Qed.

Lemma static_len_eq : static_len = Z.of_nat (length staticTable).
Proof. done. Qed.

#[local] Opaque static_len staticTable.

Lemma static_lookup_lt j ent : staticTable !! j = Some ent → Z.of_nat j < static_len.
Proof. intros H%lookup_lt_Some. rewrite static_len_eq. lia. Qed.

Lemma field_at_static d j ent : staticTable !! j = Some ent → field_at (1 + Z.of_nat j) d = Some ent.
Proof.
  intros H. pose proof (static_lookup_lt _ _ H) as Hl. unfold field_at, maxTableIndex.
  destruct (Z.ltb_spec (1 + Z.of_nat j) 1); [lia|].
  destruct (Z.ltb_spec (Z.of_nat (length (ents (d_dynTab d))) + static_len) (1 + Z.of_nat j)); [lia|].
  destruct (Z.leb_spec (1 + Z.of_nat j) static_len); [|lia]. rewrite <- H. f_equal. lia.
Qed.

(** An index into the encoder's table means the same entry in a longer table. *)
Lemma field_at_dynamic d es j ent : es `suffix_of` ents (d_dynTab d) → rev es !! j = Some ent →
  field_at (1 + Z.of_nat j + static_len) d = Some ent.
Proof.
  intros [l Hl] H. pose proof static_len_61. pose proof (lookup_lt_Some _ _ _ H) as Hj. rewrite length_rev in Hj.
  assert (es !! (length es - S j)%nat = Some ent) as He.
  { rewrite rev_alt in H. by apply (reverse_lookup_Some es) in H as [? _]. }
  unfold field_at, maxTableIndex. cbv zeta. rewrite Hl, length_app.
  destruct (Z.ltb_spec (1 + Z.of_nat j + static_len) 1); [lia|].
  destruct (Z.ltb_spec (Z.of_nat (length l + length es) + static_len) (1 + Z.of_nat j + static_len)); [lia|].
  destruct (Z.leb_spec (1 + Z.of_nat j + static_len) static_len); [lia|].
  rewrite lookup_app_r by lia. rewrite <- He. f_equal. lia.
Qed.

(** What the encoder finds, the decoder finds. *)
Lemma searchTable_spec f e d i m :
  ents (e_dynTab e) `suffix_of` ents (d_dynTab d) → searchTable f e = (i, m) →
  0 ≤ i < static_len + Z.of_nat (length (ents (e_dynTab e))) + 1 ∧
  if m then Sensitive f = false ∧ ∃ ent, field_at i d = Some ent ∧ hf_Name ent = hf_Name f ∧ hf_Value ent = hf_Value f
  else i = 0 ∨ ∃ ent, field_at i d = Some ent ∧ hf_Name ent = hf_Name f.
Proof.
  intros Hs H. unfold searchTable, search in H. pose proof static_len_61 as Hst.
  destruct (search_loop f staticTable 1 0) as [i1 m1] eqn:E1. apply search_loop_spec in E1; [|lia]. destruct m1.
  - injection H as <- <-. destruct E1 as (? & j & ent & Hj & -> & ? & ?). pose proof (static_lookup_lt _ _ Hj) as Hl.
    split; [lia|]. split; [done|]. exists ent. split; [by apply field_at_static|done].
  - destruct (search_loop f (rev (ents (e_dynTab e))) 1 0) as [j m2] eqn:E2. apply search_loop_spec in E2; [|lia].
    assert (i1 = 0 ∨ 0 < i1 ≤ static_len ∧ ∃ ent, field_at i1 d = Some ent ∧ hf_Name ent = hf_Name f) as H1.
    { destruct E1 as [->|(_ & j' & ent & Hj & -> & ?)]; [by left|right]. pose proof (static_lookup_lt _ _ Hj) as Hl.
      split; [lia|]. exists ent. split; [by apply field_at_static|done]. }
    destruct m2; injection H as <- <-.
    + destruct E2 as (? & j' & ent & Hj & -> & ? & ?). pose proof (lookup_lt_Some _ _ _ Hj) as Hl. rewrite length_rev in Hl.
      cbn [orb]. split; [lia|]. split; [done|]. exists ent. split; [by eapply field_at_dynamic|done].
    + cbn [orb]. destruct E2 as [->|(_ & j' & ent & Hj & -> & ?)].
      * rewrite andb_false_r. split; [lia|]. destruct H1 as [->|[_ ?]]; [by left|by right].
      * pose proof (lookup_lt_Some _ _ _ Hj) as Hl. rewrite length_rev in Hl.
        destruct (Z.eqb_spec i1 0) as [->|]; cbn [andb].
        -- destruct (Z.eqb_spec (1 + Z.of_nat j') 0); [lia|]. cbn [negb]. split; [lia|]. right. exists ent.
           split; [by eapply field_at_dynamic|done].
        -- split; [lia|]. destruct H1 as [?|[_ ?]]; [done|by right].
Qed.

(** ** Representations

    Each begins with an integer whose first byte has the bits of its kind. *)
Definition rep (t n i : Z) : bytes := or_at 0 t (varint n i).

Definition kind (t : Z) (b : Z) : bool :=
  if t =? 128 then negb (Z.land b 128 =? 0)
  else (Z.land b 128 =? 0) &&
    if t =? 64 then Z.land b 192 =? 64
    else negb (Z.land b 192 =? 64) &&
      if t =? 0 then Z.land b 240 =? 0
      else negb (Z.land b 240 =? 0) &&
        if t =? 16 then Z.land b 240 =? 16 else negb (Z.land b 240 =? 16) && (Z.land b 224 =? 32).

Lemma kind_check t n : (t, n) ∈ [(128, 7); (64, 6); (0, 4); (16, 4); (32, 5)] →
  ∀ x, 0 ≤ x < 2 ^ n → kind t (byte_val (uint8 (Z.lor x t))) = true.
Proof.
  intros H x Hx. repeat (apply elem_of_cons in H as [[= -> ->]|H];
    [revert x Hx; match goal with |- ∀ x, 0 ≤ x < 2 ^ ?n → kind ?t _ = true =>
      refine (below (Z.to_nat (2 ^ n)) (fun x => kind t (byte_val (uint8 (Z.lor x t)))) _); by vm_compute end|]).
  by apply elem_of_nil in H.
Qed.

Lemma rep_first t n i rest : (t, n) ∈ [(128, 7); (64, 6); (0, 4); (16, 4); (32, 5)] → 0 ≤ i →
  ∃ b r, rep t n i ++ rest = b :: r ∧ kind t (byte_val b) = true.
Proof.
  intros H Hi. assert (1 ≤ n ≤ 7) as Hn.
  { repeat (apply elem_of_cons in H as [[= -> ->]|H]; [lia|]). by apply elem_of_nil in H. }
  unfold rep. destruct (varint_first n i Hn Hi) as (b & r & -> & Hb). cbn [or_at alter list_alter app].
  eexists _, _. split; [done|]. by apply (kind_check t n).
Qed.

Lemma rep_read t n i rest : (t, n) ∈ [(128, 7); (64, 6); (0, 4); (16, 4); (32, 5)] → 0 ≤ i < 2 ^ 63 →
  readVarInt n (rep t n i ++ rest) = Ok (i, rest).
Proof.
  intros H Hi. apply readVarInt_tagged; [|by repeat (apply elem_of_cons in H as [[= -> ->]|H]; [done|]); apply elem_of_nil in H|done].
  repeat (apply elem_of_cons in H as [[= -> ->]|H]; [lia|]). by apply elem_of_nil in H.
Qed.

(** The parser that a representation goes to. *)
Definition parser_of (t : Z) (buf : bytes) (d : Decoder) : outcome parsed :=
  if t =? 128 then parseFieldIndexed buf d
  else if t =? 64 then parseFieldLiteral 6 indexedTrue buf d
  else if t =? 0 then parseFieldLiteral 4 indexedFalse buf d
  else if t =? 16 then parseFieldLiteral 4 indexedNever buf d
  else parseDynamicTableSizeUpdate buf d.

Lemma rep_parse t n i rest d : (t, n) ∈ [(128, 7); (64, 6); (0, 4); (16, 4); (32, 5)] → 0 ≤ i →
  parseHeaderFieldRepr (rep t n i ++ rest) d = parser_of t (rep t n i ++ rest) d.
Proof.
  intros H Hi. destruct (rep_first t n i rest H Hi) as (b & r & -> & Hk). cbn [parseHeaderFieldRepr]. cbv zeta.
  unfold kind, parser_of in *.
  destruct (t =? 128); [by rewrite Hk|]. apply andb_true_iff in Hk as [-> Hk]. cbn [negb].
  destruct (t =? 64); [by rewrite Hk|]. apply andb_true_iff in Hk as [Hk1%negb_true_iff Hk]. rewrite Hk1.
  destruct (t =? 0); [by rewrite Hk|]. apply andb_true_iff in Hk as [Hk2%negb_true_iff Hk]. rewrite Hk2.
  destruct (t =? 16); [by rewrite Hk|]. apply andb_true_iff in Hk as [Hk3%negb_true_iff Hk]. by rewrite Hk3, Hk.
Qed.

Ltac in_reps := repeat (first [apply list_elem_of_here | apply list_elem_of_further]).

(** ** The encoder's output *)

Lemma appendIndexed_eq dst i : appendIndexed dst i = dst ++ rep 128 7 i.
Proof. unfold appendIndexed, rep. rewrite appendVarInt_app, or_at_app by apply varint_nonempty. done. Qed.

Lemma appendTableSize_eq dst v : appendTableSize dst v = dst ++ rep 32 5 v.
Proof. unfold appendTableSize, rep. rewrite appendVarInt_app, or_at_app by apply varint_nonempty. done. Qed.

(** The kind of a literal, and how long its prefix is. *)
Definition tag (f : HeaderField) (indexing : bool) : Z := encodeTypeByte indexing (Sensitive f).
Definition prefix_len (indexing : bool) : Z := if indexing then 6 else 4.

Lemma appendIndexedName_eq dst f i x :
  appendIndexedName dst f i x = dst ++ rep (tag f x) (prefix_len x) i ++ hstring (hf_Value f).
Proof.
  unfold appendIndexedName, rep. rewrite appendHpackString_app, appendVarInt_app, or_at_app by apply varint_nonempty.
  by rewrite <- app_assoc.
Qed.

Lemma appendNewName_eq dst f x :
  appendNewName dst f x = dst ++ rep (tag f x) (prefix_len x) 0 ++ hstring (hf_Name f) ++ hstring (hf_Value f).
Proof.
  unfold appendNewName. rewrite !appendHpackString_app, <- !app_assoc. f_equal. f_equal.
  unfold rep, tag. by destruct x, (Sensitive f).
Qed.

(** ** Reading the encoder's output *)

Definition small_field (f : HeaderField) : Prop :=
  Z.of_nat (length (hf_Name f)) + Z.of_nat (length (hf_Value f)) < 2 ^ 30.

Lemma small_short f : small_field f → short (hf_Name f) ∧ short (hf_Value f).
Proof. unfold small_field, short. lia. Qed.

Definition plain (d : Decoder) : Prop := maxStrLen d = 0 ∧ emitEnabled d = true ∧ saveBuf d = [].

Lemma callEmit_plain hf r d dt : plain d → callEmit hf r (set_table dt d) = mkParsed (set_table dt d) r [hf] None.
Proof. intros (Hm & He & _). unfold callEmit. cbn [set_table maxStrLen emitEnabled]. by rewrite Hm, He. Qed.

Lemma parse_indexed i rest d ent : plain d → 0 ≤ i < 2 ^ 63 → field_at i d = Some ent →
  parseHeaderFieldRepr (rep 128 7 i ++ rest) d = Ok (mkParsed d rest [mkField (hf_Name ent) (hf_Value ent) false] None).
Proof.
  intros Hd Hi Hf. rewrite (rep_parse 128 7) by (in_reps || lia). unfold parser_of, parseFieldIndexed. cbn [Z.eqb Pos.eqb].
  rewrite (rep_read 128 7) by (in_reps || lia). cbn [reading]. rewrite Hf. rewrite <- (set_table_same d) at 1.
  rewrite callEmit_plain by done. by rewrite set_table_same.
Qed.

(** The kinds of literals. *)
Definition literal_type (f : HeaderField) (x : bool) : indexType :=
  if x then indexedTrue else if Sensitive f then indexedNever else indexedFalse.

Lemma literal_kind f x : (x = true → Sensitive f = false) →
  (tag f x, prefix_len x) ∈ [(128, 7); (64, 6); (0, 4); (16, 4); (32, 5)] ∧
  (∀ buf d, parser_of (tag f x) buf d = parseFieldLiteral (prefix_len x) (literal_type f x) buf d) ∧
  indexed (literal_type f x) = x ∧ sensitive (literal_type f x) = Sensitive f.
Proof.
  intros H. unfold tag, prefix_len, literal_type, encodeTypeByte.
  destruct x; [rewrite H by done|destruct (Sensitive f)]; (split; [in_reps|done]).
Qed.

Lemma parse_literal f x i name rest d :
  plain d → small_field f → (x = true → Sensitive f = false) → 0 ≤ i < 2 ^ 63 →
  (i = 0 ∧ name = hstring (hf_Name f) ∨ 0 < i ∧ name = [] ∧ ∃ ent, field_at i d = Some ent ∧ hf_Name ent = hf_Name f) →
  parseHeaderFieldRepr (rep (tag f x) (prefix_len x) i ++ name ++ hstring (hf_Value f) ++ rest) d =
    dt ← (if x then table_add f (d_dynTab d) else Ok (d_dynTab d)); Ok (mkParsed (set_table dt d) rest [f] None).
Proof.
  intros Hd Hsm Hx Hi Hname. destruct (literal_kind f x Hx) as (Hin & Hp & Hix & Hse). destruct (small_short f Hsm) as [Hn Hv].
  destruct Hd as (Hm & He & Hs). rewrite (rep_parse _ _ _ _ _ Hin) by lia. rewrite Hp. unfold parseFieldLiteral. cbv zeta.
  rewrite (rep_read _ _ _ _ Hin) by lia. cbn [reading]. rewrite Hix, Hse, He. cbn [orb].
  assert (read_name i (name ++ hstring (hf_Value f) ++ rest) true d = Ok (hf_Name f, hstring (hf_Value f) ++ rest)) as ->.
  { unfold read_name. destruct Hname as [[-> ->]|(H0 & -> & ent & Hent & Hne)].
    - cbn [Z.ltb Z.compare]. rewrite Hm. by apply readString_hstring.
    - destruct (Z.ltb_spec 0 i); [|lia]. by rewrite Hent, Hne. }
  cbn [reading]. rewrite Hm, readString_hstring by done. cbn [reading].
  assert ((if x then table_add (mkField (hf_Name f) (hf_Value f) false) (d_dynTab d) else Ok (d_dynTab d)) =
    (if x then table_add f (d_dynTab d) else Ok (d_dynTab d))) as ->.
  { destruct x; [|done]. f_equal. specialize (Hx eq_refl). destruct f; cbn in *; by subst. }
  destruct (if x then _ else _) as [dt|e|e]; [|done..]. cbn [mbind outcome_bind]. rewrite callEmit_plain by done.
  do 3 f_equal. by destruct f.
Qed.

Lemma parse_update v rest d : 0 ≤ v ≤ allowedMaxSize (d_dynTab d) → v < 2 ^ 32 →
  parseHeaderFieldRepr (rep 32 5 v ++ rest) d =
    dt ← setMaxSize v (d_dynTab d); Ok (mkParsed (set_table dt d) rest [] None).
Proof.
  intros Hv Hb. rewrite (rep_parse 32 5) by (in_reps || lia). unfold parser_of, parseDynamicTableSizeUpdate. cbn [Z.eqb Pos.eqb].
  rewrite (rep_read 32 5) by (in_reps || lia). cbn [reading]. destruct (Z.ltb_spec (allowedMaxSize (d_dynTab d)) v); [lia|].
  by rewrite uint32_id by lia.
Qed.

(** ** The two tables *)

(** [A] is the table size that the decoder allows. *)
Record in_sync (A : Z) (e : Encoder) (d : Decoder) : Prop := {
  sy_enc : exact (e_dynTab e);
  sy_dec : exact (d_dynTab d);
  sy_ents : ents (e_dynTab e) `suffix_of` ents (d_dynTab d);
  sy_limit : 0 ≤ maxSize (e_dynTab e) ≤ maxSizeLimit e ∧ maxSizeLimit e ≤ A < 2 ^ 30;
  sy_allowed : allowedMaxSize (d_dynTab d) = A;
  sy_update : if tableSizeUpdate e then table_sum (ents (e_dynTab e)) ≤ minSize e ∧ 0 ≤ minSize e
              else maxSize (e_dynTab e) ≤ maxSize (d_dynTab d) ∧ minSize e = uint32Max;
  sy_plain : plain d;
  sy_small : Forall small_field (ents (e_dynTab e))
}.

(** What a decoder makes of a buffer that holds whole fields. *)
Definition reads_as (buf : bytes) (d : Decoder) (fs : list HeaderField) (d' : Decoder) : Prop :=
  write_all buf d = Ok (d', fs, None) ∧ plain d'.

Lemma reads_nil d : plain d → reads_as [] d [] d.
Proof. by intros. Qed.

Lemma reads_app a b d d1 d2 fs gs : plain d → reads_as a d fs d1 → reads_as b d1 gs d2 → reads_as (a ++ b) d (fs ++ gs) d2.
Proof.
  intros (Hm & He & Hs) [Ha Hd1] [Hb Hd2]. split; [|done].
  pose proof (write_all_app (length a) a b d ltac:(lia) Hm Hs) as H. rewrite Ha in H. destruct H as [_ ->].
  destruct Hd1 as (_ & _ & Hs1). rewrite Hs1. cbn [app].
  assert (set_saveBuf [] d1 = d1) as -> by (destruct d1; cbn in *; by subst). by rewrite Hb.
Qed.

Lemma reads_one buf d d' fs : plain d → buf ≠ [] → plain d' → parseHeaderFieldRepr buf d = Ok (mkParsed d' [] fs None) → reads_as buf d fs d'.
Proof.
  intros Hd Hb Hd' Hp. split; [|done]. destruct Hd as (Hm & _ & _). rewrite write_all_eq by done. rewrite Hp. cbn. by rewrite app_nil_r.
Qed.

Lemma rep_nonempty t n i : rep t n i ≠ [].
Proof. unfold rep. intros H%(f_equal length). rewrite or_at_length in H. pose proof (varint_nonempty n i). by destruct (varint n i). Qed.

Lemma setMaxSize_exact v dt : exact dt → 0 ≤ v < 2 ^ 31 →
  ∃ dt', setMaxSize v dt = Ok dt' ∧ exact dt' ∧ maxSize dt' = v ∧ allowedMaxSize dt' = allowedMaxSize dt ∧
    ents dt' `suffix_of` ents dt ∧ ∀ k, k `suffix_of` ents dt → table_sum k ≤ v → k `suffix_of` ents dt'.
Proof.
  intros [Hs Hm] Hv. unfold setMaxSize. apply (evict_exact (mkTable (ents dt) (size dt) v (allowedMaxSize dt))); cbn [ents size maxSize]; [done|lia|lia].
Qed.

(** A size update takes the decoder to that size without what the encoder has dropped. *)
Lemma update_reads v d es : plain d → exact (d_dynTab d) → 0 ≤ v ≤ allowedMaxSize (d_dynTab d) → v < 2 ^ 31 →
  es `suffix_of` ents (d_dynTab d) → table_sum es ≤ v →
  ∃ d', reads_as (rep 32 5 v) d [] d' ∧ exact (d_dynTab d') ∧ maxSize (d_dynTab d') = v ∧
    allowedMaxSize (d_dynTab d') = allowedMaxSize (d_dynTab d) ∧ es `suffix_of` ents (d_dynTab d').
Proof.
  intros Hd Hx Hv Hb Hes Hsum. destruct (setMaxSize_exact v _ Hx) as (dt & E & Hx' & Hm & Ha & _ & Hk); [lia|].
  exists (set_table dt d). split; [|cbn [d_dynTab set_table]; split_and!; [done..|by apply Hk]].
  apply reads_one; [done|apply rep_nonempty|done|]. rewrite <- (app_nil_r (rep 32 5 v)).
  rewrite parse_update by lia. by rewrite E.
Qed.

(** The updates that precede a field bring the decoder to the size of the encoder. *)
Lemma updates_sync A e d b e' : in_sync A e d → write_update e = (b, e') →
  ∃ d', reads_as b d [] d' ∧ in_sync A e' d' ∧ tableSizeUpdate e' = false ∧ e_dynTab e' = e_dynTab e.
Proof.
  intros [Hex Hdx Hes Hl Ha Hu Hp Hsm] H. unfold write_update in H. destruct (tableSizeUpdate e) eqn:Et.
  - injection H as <- <-. destruct Hu as [Hm H0]. rewrite appendTableSize_eq. destruct Hex as [Hs1 Hs2].
    assert (∃ d1, reads_as (if minSize e <? maxSize (e_dynTab e) then appendTableSize [] (minSize e) else []) d [] d1 ∧
      exact (d_dynTab d1) ∧ allowedMaxSize (d_dynTab d1) = allowedMaxSize (d_dynTab d) ∧
      ents (e_dynTab e) `suffix_of` ents (d_dynTab d1)) as (d1 & Hr & Hx1 & Ha1 & He1).
    { destruct (Z.ltb_spec (minSize e) (maxSize (e_dynTab e))); [|by exists d; split_and!; [apply reads_nil|..]].
      rewrite appendTableSize_eq. destruct (update_reads (minSize e) d (ents (e_dynTab e))) as (d1 & ? & ? & _ & ? & ?);
        [done|done|lia|lia|done|lia|]. by exists d1. }
    destruct Hr as [Hr Hp1].
    destruct (update_reads (maxSize (e_dynTab e)) d1 (ents (e_dynTab e))) as (d2 & Hr2 & Hx2 & Hm2 & Ha2 & He2);
      [done|done|lia|lia|done|lia|].
    exists d2. split; [by eapply (reads_app _ _ _ _ _ [] [])|]. destruct Hr2 as [_ Hp2].
    split; [|done].
    split; cbn [e_dynTab maxSizeLimit tableSizeUpdate minSize]; [by split|done|done|lia|by rewrite Ha2, Ha1|by rewrite Hm2|done|done].
  - injection H as <- <-. exists d. split; [by apply reads_nil|]. split; [|done]. split; try done. by rewrite Et.
Qed.


Lemma small_size f : small_field f →
  hf_size f = Z.of_nat (length (hf_Name f)) + Z.of_nat (length (hf_Value f)) + 32 ∧ 32 ≤ hf_size f < 2 ^ 31.
Proof. unfold small_field. intros H. unfold hf_size. rewrite uint32_id by lia. lia. Qed.

Lemma table_length es : Forall small_field es → Z.of_nat (length es) ≤ table_sum es.
Proof.
  induction 1 as [|f es Hf _ IH]; [done|]. rewrite table_sum_cons. cbn [length]. pose proof (small_size f Hf). lia.
Qed.

Lemma small_suffix k es : k `suffix_of` es → Forall small_field es → Forall small_field k.
Proof. intros [l ->] H. by apply Forall_app in H as [_ H]. Qed.

Lemma add_exact f dt : exact dt → 0 ≤ maxSize dt → hf_size f < 2 ^ 31 →
  ∃ dt', table_add f dt = Ok dt' ∧ exact dt' ∧ maxSize dt' = maxSize dt ∧ allowedMaxSize dt' = allowedMaxSize dt ∧
    ents dt' `suffix_of` ents dt ++ [f] ∧ ∀ k, k `suffix_of` ents dt ++ [f] → table_sum k ≤ maxSize dt → k `suffix_of` ents dt'.
Proof.
  intros [Hs Hm] H0 Hf. unfold table_add. pose proof (hf_size_range f). pose proof (table_sum_nonneg (ents dt)).
  assert (table_sum (ents dt ++ [f]) = table_sum (ents dt) + hf_size f) as Ef.
  { unfold table_sum. rewrite sumZ_app. change (sumZ hf_size [f]) with (hf_size f + 0). lia. }
  apply (evict_exact (mkTable (ents dt ++ [f]) (uint32 (size dt + hf_size f)) (maxSize dt) (allowedMaxSize dt)));
    cbn [ents size maxSize]; rewrite ?Ef, ?Hs; [by rewrite uint32_id by lia|lia|lia].
Qed.

(** One field: what the encoder writes for it, and that the decoder reads it. *)
Lemma field_sync A e d f : in_sync A e d → small_field f →
  ∃ b e' d', WriteField f e = Ok (b, e') ∧ reads_as b d [f] d' ∧ in_sync A e' d'.
Proof.
  intros Hsync Hf. unfold WriteField. destruct (write_update e) as [b0 e0] eqn:E0.
  destruct (updates_sync A e d b0 e0 Hsync E0) as (d0 & Hr0 & Hs0 & Hu0 & _). pose proof (sy_plain _ _ _ Hsync) as Hp.
  clear E0 Hsync. destruct (searchTable f e0) as [i m] eqn:Es.
  pose proof Hs0 as [Hex Hdx Hes Hl Ha Hu Hp0 Hsm]. rewrite Hu0 in Hu. destruct Hu as [Hmax Hmin].
  destruct (searchTable_spec f e0 d0 i m Hes Es) as [Hi Hfound].
  assert (0 ≤ i < 2 ^ 63) as Hi'.
  { pose proof (table_length _ Hsm). destruct Hex as [_ Hb]. rewrite static_len_61 in Hi. lia. }
  destruct m.
  - destruct Hfound as (Hns & ent & Hent & Hn & Hv). exists (appendIndexed b0 i), e0, d0. split; [done|]. split; [|done].
    rewrite appendIndexed_eq. apply (reads_app _ _ _ d0 _ [] [f]); [done..|].
    apply reads_one; [done|apply rep_nonempty|done|]. rewrite <- (app_nil_r (rep _ _ _)).
    rewrite (parse_indexed i [] d0 ent) by done. do 2 f_equal. rewrite Hn, Hv, <- Hns. by destruct f.
  - set (x := shouldIndex f e0).
    assert (x = true → Sensitive f = false ∧ hf_size f ≤ maxSize (e_dynTab e0)) as Hx.
    { unfold x, shouldIndex. intros H. apply andb_true_iff in H as [H1%negb_true_iff H2%Z.leb_le]. done. }
    pose proof (small_size f Hf) as [_ Hsz].
    (* the tables after the field *)
    assert (∃ dte dtd, (if x then table_add f (e_dynTab e0) else Ok (e_dynTab e0)) = Ok dte ∧
      (if x then table_add f (d_dynTab d0) else Ok (d_dynTab d0)) = Ok dtd ∧
      in_sync A (mkEncoder dte (minSize e0) (maxSizeLimit e0) (tableSizeUpdate e0)) (set_table dtd d0)) as (dte & dtd & Ee & Ed & Hsync').
    { destruct x; [|by exists (e_dynTab e0), (d_dynTab d0); rewrite set_table_same; split_and!; destruct e0].
      destruct (add_exact f _ Hex) as (dte & Ee & Hxe & Hme & Hae & Hse & Hke); [lia..|].
      destruct (add_exact f _ Hdx) as (dtd & Ed & Hxd & Hmd & Had & _ & Hkd); [lia..|].
      exists dte, dtd. split; [done|]. split; [done|].
      split; cbn [e_dynTab d_dynTab set_table maxSizeLimit tableSizeUpdate minSize]; [done|done| |lia|by rewrite Had| |done|].
      - apply Hkd; [|destruct Hxe; lia]. etrans; [exact Hse|]. destruct Hes as [l ->]. exists l. by rewrite app_assoc.
      - rewrite Hu0, Hme, Hmd. done.
      - eapply small_suffix; [exact Hse|]. apply Forall_app. by split; [|constructor]. }
    rewrite Ee. cbn [mbind outcome_bind]. eexists _, _, (set_table dtd d0). split; [done|]. split; [|done].
    assert (∀ name, (i = 0 ∧ name = hstring (hf_Name f) ∨ 0 < i ∧ name = [] ∧ ∃ ent, field_at i d0 = Some ent ∧ hf_Name ent = hf_Name f) →
      reads_as (b0 ++ rep (tag f x) (prefix_len x) i ++ name ++ hstring (hf_Value f)) d [f] (set_table dtd d0)) as Hread.
    { intros name Hname. apply (reads_app _ _ _ d0 _ [] [f]); [done..|].
      apply reads_one; [done|by intros [H _]%app_nil; apply rep_nonempty in H|by destruct Hp0|].
      rewrite <- (app_nil_r (hstring (hf_Value f))).
      rewrite (parse_literal f x i name [] d0) by (done || by apply Hx). by rewrite Ed. }
    destruct (Z.eqb_spec i 0) as [H0|H0].
    + rewrite appendNewName_eq, <- H0. apply Hread. by left.
    + rewrite appendIndexedName_eq. apply (Hread []). right. split; [lia|]. split; [done|]. by destruct Hfound.
Qed.

(** ** Sequences of operations *)

Inductive encoder_op := OpField (f : HeaderField) | OpMaxSize (v : Z) | OpLimit (v : Z).

Definition op_fields (o : encoder_op) : list HeaderField := match o with OpField f => [f] | _ => [] end.

(** The fields are of a reasonable size, and the limits those that the decoder allows. *)
Definition op_ok (A : Z) (o : encoder_op) : Prop :=
  match o with OpField f => small_field f | OpMaxSize v => 0 ≤ v | OpLimit v => 0 ≤ v ≤ A end.

Definition encoder_step (o : encoder_op) (e : Encoder) : outcome (bytes * Encoder) :=
  match o with
  | OpField f => WriteField f e
  | OpMaxSize v => e ← SetMaxDynamicTableSize v e; Ok ([], e)
  | OpLimit v => e ← SetMaxDynamicTableSizeLimit v e; Ok ([], e)
  end.

(** What an encoder writes for a sequence of operations. *)
Fixpoint encode_ops (os : list encoder_op) (e : Encoder) : outcome (bytes * Encoder) :=
  match os with
  | [] => Ok ([], e)
  | o :: os => '(b, e) ← encoder_step o e; '(bs, e) ← encode_ops os e; Ok (b ++ bs, e)
  end.

(** Setting the size of the encoder's table. *)
Lemma resize_sync A e d v l m : in_sync A e d → 0 ≤ v ≤ l → l ≤ A → (m = minSize e ∨ m = v) → (m ≤ minSize e) →
  ∃ dt, setMaxSize v (e_dynTab e) = Ok dt ∧ in_sync A (mkEncoder dt m l true) d.
Proof.
  intros [Hex Hdx Hes Hl Ha Hu Hp Hsm] Hv Hle Hm Hmin.
  destruct (setMaxSize_exact v _ Hex) as (dt & E & Hx & Hms & _ & Hs & _); [lia|]. exists dt. split; [done|].
  assert (table_sum (ents dt) ≤ table_sum (ents (e_dynTab e))) by (by apply table_sum_suffix).
  assert (table_sum (ents (e_dynTab e)) ≤ minSize e ∧ 0 ≤ minSize e) as [Hm1 Hm2].
  { destruct (tableSizeUpdate e); [done|]. destruct Hu as [_ ->]. destruct Hex. unfold uint32Max. lia. }
  split; cbn [e_dynTab maxSizeLimit tableSizeUpdate minSize]; [done|done|by etrans|lia|done| |done|by eapply small_suffix].
  destruct Hx. destruct Hm as [->| ->]; lia.
Qed.

Lemma step_sync A e d o : in_sync A e d → op_ok A o →
  ∃ b e' d', encoder_step o e = Ok (b, e') ∧ reads_as b d (op_fields o) d' ∧ in_sync A e' d'.
Proof.
  intros Hs Ho. pose proof (sy_limit _ _ _ Hs) as Hl. pose proof (sy_plain _ _ _ Hs) as Hp. destruct o as [f|v|v]; cbn [encoder_step op_fields op_ok] in *.
  - by apply field_sync.
  - unfold SetMaxDynamicTableSize. cbv zeta. set (w := if maxSizeLimit e <? v then maxSizeLimit e else v).
    assert (0 ≤ w ≤ maxSizeLimit e) as Hw by (subst w; destruct (Z.ltb_spec (maxSizeLimit e) v); lia).
    destruct (resize_sync A e d w (maxSizeLimit e) (if w <? minSize e then w else minSize e) Hs) as (dt & -> & Hs'); [lia|lia| | |].
    + destruct (w <? minSize e); [by right|by left].
    + destruct (Z.ltb_spec w (minSize e)); lia.
    + eexists _, _, d. split; [done|]. split; [by apply reads_nil|done].
  - unfold SetMaxDynamicTableSizeLimit. destruct (Z.ltb_spec v (maxSize (e_dynTab e))) as [Hv|Hv].
    + destruct (resize_sync A e d v v (minSize e) Hs) as (dt & -> & Hs'); [lia|lia|by left|done|].
      eexists _, _, d. split; [done|]. split; [by apply reads_nil|done].
    + eexists _, _, d. split; [done|]. split; [by apply reads_nil|]. destruct Hs. split; try done. cbn [e_dynTab maxSizeLimit]. lia.
Qed.

Lemma ops_sync A os e d : in_sync A e d → Forall (op_ok A) os →
  ∃ b e' d', encode_ops os e = Ok (b, e') ∧ reads_as b d (concat (map op_fields os)) d' ∧ in_sync A e' d'.
Proof.
  intros Hs Ho. revert e d Hs. induction Ho as [|o os Ho _ IH]; intros e d Hs.
  - exists [], e, d. split; [done|]. split; [apply reads_nil, Hs|done].
  - destruct (step_sync A e d o Hs Ho) as (b & e1 & d1 & E1 & Hr1 & Hs1). destruct (IH e1 d1 Hs1) as (bs & e2 & d2 & E2 & Hr2 & Hs2).
    exists (b ++ bs), e2, d2. cbn [encode_ops map concat]. rewrite E1. cbn [mbind outcome_bind]. rewrite E2. split; [done|].
    split; [|done]. eapply reads_app; [apply Hs|done..].
Qed.

(** A new encoder and a new decoder. *)
Lemma new_sync A : 4096 ≤ A < 2 ^ 30 → ∃ e d, NewEncoder = Ok e ∧ NewDecoder A = Ok d ∧ in_sync A e d.
Proof.
  intros HA. exists (mkEncoder (mkTable [] 0 4096 0) uint32Max 4096 false), (mkDecoder (mkTable [] 0 A A) true 0 []).
  split; [done|]. split.
  - unfold NewDecoder, setMaxSize, evict. cbn [ents size maxSize allowedMaxSize evict_loop]. destruct (Z.ltb_spec A 0); [lia|done].
  - split; cbn [e_dynTab d_dynTab maxSizeLimit tableSizeUpdate minSize maxSize allowedMaxSize];
      [by split|split; [done|change (table_sum _) with 0; cbn [maxSize]; lia]|done|lia|done|by split; [lia|]|by split|constructor].
Qed.

(** ** Properties *)

(** C13: the encoder of a connection and the decoder at its other end stay together: whatever
    fields are encoded, with whatever changes of the table size between them, and however
    the blocks are cut on the way, the decoder emits exactly these fields, in order,
    with their names, values and sensitivity, without an error, and is ready for more. *)
Theorem hpack_roundtrip (A : Z) (os : list encoder_op) (ps : list bytes) :
  4096 ≤ A < 2 ^ 30 → Forall (op_ok A) os →
  ∃ e d b e' d', NewEncoder = Ok e ∧ NewDecoder A = Ok d ∧ encode_ops os e = Ok (b, e') ∧
    (concat ps = b → writes ps d = Ok (d', concat (map op_fields os), None) ∧ Decoder_Close d' = (d', None)) ∧
    ents (e_dynTab e') `suffix_of` ents (d_dynTab d').
Proof.
  intros HA Ho. destruct (new_sync A HA) as (e & d & He & Hd & Hs).
  destruct (ops_sync A os e d Hs Ho) as (b & e' & d' & E & [Hr (Hm & Hem & Hsv)] & Hs').
  exists e, d, b, e', d'. split_and!; [done..| |apply Hs']. intros Hps. pose proof (sy_plain _ _ _ Hs) as (Hdm & _ & Hds).
  split; [|unfold Decoder_Close; by rewrite Hsv].
  assert (waiting d) as Hw by (split; [done|by left]). rewrite writes_concat_waiting, Hps, Decoder_Write_all by done.
  rewrite Hds. cbn [app]. replace (set_saveBuf [] d) with d by (destruct d; cbn in *; by subst). done.
Qed.

(** The decoder does not depend on how its input is cut: after any earlier calls, several
    calls of [Write] do what one call with all of their bytes does, to the table, the
    fields emitted, the bytes kept for later and the error. *)
Theorem hpack_cuts (A : Z) (d0 d : Decoder) (earlier ps : list bytes) (fs : list HeaderField) (e : option error) :
  NewDecoder A = Ok d0 → writes earlier d0 = Ok (d, fs, e) → writes ps d = Decoder_Write (concat ps) d.
Proof.
  intros Hd Hw. apply writes_concat_waiting.
  assert (waiting d0) as H0.
  { unfold NewDecoder in Hd. destruct (setMaxSize A _) as [dt|?|?]; [|done..]. injection Hd as <-. split; [done|by left]. }
  clear Hd. revert d0 fs H0 Hw. induction earlier as [|p earlier IH]; intros d0 fs H0 Hw; cbn [writes] in Hw.
  - by injection Hw as <- _ _.
  - pose proof (Decoder_Write_waiting p d0 H0) as H1. destruct (Decoder_Write p d0) as [[[d1 gs] [e1|]]|?|?]; [|..|done|done]; cbn [mbind outcome_bind] in Hw.
    + by injection Hw as <- _ _.
    + destruct (writes earlier d1) as [[[d2 hs] e2]|?|?] eqn:E; [|done..]. cbn [mbind outcome_bind] in Hw. injection Hw as <- _ <-. by eapply IH.
Qed.

(** ** Safety *)

(** The size of the table is counted modulo [2^32] and within its maximum. *)
Definition table_ok (dt : dynamicTable) : Prop :=
  counted dt ∧ 0 ≤ size dt ≤ maxSize dt ∧ maxSize dt ≤ allowedMaxSize dt < 2 ^ 32.

Definition panics_nil {A} (P : A → Prop) (o : outcome A) : Prop :=
  match o with Ok a => P a | Err _ => True | Panic m => m = nil_deref end.

Lemma evict_table_ok dt : counted dt → 0 ≤ maxSize dt ≤ allowedMaxSize dt → allowedMaxSize dt < 2 ^ 32 →
  ∃ dt', evict dt = Ok dt' ∧ table_ok dt'.
Proof.
  intros Hc Hm Ha. destruct (evict_counted dt Hc) as (dt' & E & Hc' & Hmx & Hal & Hs); [lia|]. exists dt'. split; [done|].
  split; [done|]. rewrite Hmx, Hal. split; [|lia]. split; [|done]. rewrite Hc'. unfold uint32. apply Z.mod_pos_bound. lia.
Qed.

Lemma huffmanDecode_panics m v : m = 0 → panics_nil (fun _ => True) (huffmanDecode m v).
Proof.
  intros ->. destruct (huffmanDecode_finish v) as (cs & q & _ & _ & ->). unfold finish. destruct (prefixb eos q); [|done].
  by destruct (32 <=? length q)%nat.
Qed.

Lemma varint_rest_panics p i m : panics_nil (fun x => 0 ≤ fst x) (varint_rest p i m).
Proof.
  revert i m. induction p as [|b p IH]; intros i m; [done|]. cbn [varint_rest]. cbv zeta.
  destruct (_ =? 0); [cbn [panics_nil fst]; rewrite uint64_mod; apply Z.mod_pos_bound; lia|].
  destruct (63 <=? m + 7); [done|]. apply IH.
Qed.

Lemma readVarInt_panics n p : 1 ≤ n ≤ 8 → panics_nil (fun x => 0 ≤ fst x) (readVarInt n p).
Proof.
  intros Hn. unfold readVarInt. destruct (Z.ltb_spec n 1); [lia|]. destruct (Z.ltb_spec 8 n); [lia|]. cbn [orb].
  destruct p as [|b p]; [done|]. cbv zeta. pose proof (byte_val_range b).
  destruct (_ <? Z.shiftl 1 n - 1); [|apply varint_rest_panics]. cbn [panics_nil fst].
  destruct (n <? 8); [|lia]. apply Z.land_nonneg. lia.
Qed.

Lemma readString_panics p w : panics_nil (fun _ => True) (readString 0 p w).
Proof.
  destruct p as [|b p]; [done|]. rewrite readString_eq by done. pose proof (readVarInt_panics 7 (b :: p) ltac:(lia)) as H.
  destruct (readVarInt 7 (b :: p)) as [[n r]|e|e]; [|done..]. cbn [mbind outcome_bind]. destruct (_ && _); [done|].
  destruct (_ <? n); [done|]. cbv zeta. destruct (negb w); [done|]. destruct (is_huff _); [|done].
  pose proof (huffmanDecode_panics 0 (take (Z.to_nat n) r) eq_refl) as H'. by destruct (huffmanDecode 0 _).
Qed.

Definition dec_ok (d : Decoder) : Prop := maxStrLen d = 0 ∧ table_ok (d_dynTab d).

Definition parsed_ok (o : outcome parsed) : Prop := panics_nil (fun p => dec_ok (p_dec p)) o.

Lemma reading_ok {A} d buf (m : outcome (A * bytes)) f : dec_ok d →
  ∀ Q, panics_nil Q m → (∀ a, Q a → parsed_ok (f a)) → parsed_ok (reading d buf m f).
Proof. intros Hd Q Hm Hf. destruct m; cbn [reading panics_nil] in *; [by apply Hf|done|done]. Qed.

Lemma callEmit_dec hf r d : p_dec (callEmit hf r d) = d.
Proof. unfold callEmit. cbv zeta. by destruct (_ && _). Qed.

Lemma parse_literal_ok n it buf d : 1 ≤ n ≤ 8 → dec_ok d → parsed_ok (parseFieldLiteral n it buf d).
Proof.
  intros Hn Hd. unfold parseFieldLiteral. cbv zeta. eapply reading_ok; [done|by apply readVarInt_panics|]. intros [i r] _.
  eapply (reading_ok _ _ _ _ Hd (fun _ => True)).
  { unfold read_name. destruct (0 <? i); [by destruct (field_at i d)|]. destruct Hd as [-> _]. apply readString_panics. }
  intros [name r'] _. eapply (reading_ok _ _ _ _ Hd (fun _ => True)); [destruct Hd as [-> _]; apply readString_panics|].
  intros [value r''] _.
  destruct Hd as [Hm (Hc & Hs & Ha)]. destruct (indexed it).
  - unfold table_add. destruct (evict_table_ok (mkTable (ents (d_dynTab d) ++ [mkField name value false])
      (uint32 (size (d_dynTab d) + hf_size (mkField name value false))) (maxSize (d_dynTab d)) (allowedMaxSize (d_dynTab d)))) as (dt & -> & Ht).
    + by apply add_counted.
    + cbn [maxSize allowedMaxSize]. lia.
    + cbn [allowedMaxSize]. lia.
    + cbn [mbind outcome_bind]. unfold parsed_ok. cbn [panics_nil]. rewrite callEmit_dec. by split.
  - cbn [mbind outcome_bind]. unfold parsed_ok. cbn [panics_nil]. rewrite callEmit_dec. by split.
Qed.

Lemma parse_ok buf d : buf ≠ [] → dec_ok d → parsed_ok (parseHeaderFieldRepr buf d).
Proof.
  intros Hb Hd. destruct buf as [|c buf]; [done|]. cbn [parseHeaderFieldRepr]. cbv zeta.
  destruct (negb _).
  { eapply reading_ok; [done|by apply readVarInt_panics|]. intros [i r] _. destruct (field_at i d); [|done].
    unfold parsed_ok. cbn [panics_nil]. by rewrite callEmit_dec. }
  destruct (_ =? 64); [by apply parse_literal_ok|]. destruct (_ =? 0); [by apply parse_literal_ok|].
  destruct (_ =? 16); [by apply parse_literal_ok|]. destruct (_ =? 32); [|done].
  eapply reading_ok; [done|by apply readVarInt_panics|]. intros [v r] H0. cbn [fst] in H0. destruct Hd as [Hm (Hc & Hs & Ha)].
  destruct (Z.ltb_spec (allowedMaxSize (d_dynTab d)) v) as [|Hv]; [by split|]. unfold setMaxSize.
  destruct (evict_table_ok (mkTable (ents (d_dynTab d)) (size (d_dynTab d)) (uint32 v) (allowedMaxSize (d_dynTab d)))) as (dt & -> & Ht).
  - done.
  - cbn [maxSize allowedMaxSize]. unfold uint32. pose proof (Z.mod_pos_bound v (2 ^ 32) ltac:(lia)).
    rewrite Z.mod_small by lia. lia.
  - cbn [allowedMaxSize]. lia.
  - by split.
Qed.

Lemma write_all_ok buf d : dec_ok d → panics_nil (fun x => dec_ok (fst (fst x))) (write_all buf d) ∧ ∀ e, write_all buf d ≠ Err e.
Proof.
  intros Hd. remember (length buf) as n eqn:En. assert (length buf ≤ n)%nat as Hn by lia. clear En.
  revert buf d Hn Hd. induction n as [|n IH]; intros buf d Hn Hd.
  - destruct buf; [by split|cbn in Hn; lia].
  - destruct (decide (buf = [])) as [->|Hb]; [by split|]. pose proof Hd as [Hm _]. rewrite write_all_eq by done.
    pose proof (parse_ok buf d Hb Hd) as Hp. pose proof (parse_repr_effect buf d) as He.
    destruct (parseHeaderFieldRepr buf d) as [p|e|e]; [|done|by split]. cbn [mbind outcome_bind]. unfold parsed_ok in Hp. cbn [panics_nil] in Hp.
    destruct He as (_ & Hl & _). destruct (p_err p) as [e|].
    + by destruct (bool_decide (e = errNeedMore)).
    + specialize (Hl eq_refl). destruct (IH (p_buf p) (p_dec p) ltac:(lia) Hp) as [H1 H2].
      destruct (write_all (p_buf p) (p_dec p)) as [[[d1 fs] e]|e|e]; [by split|by destruct (H2 e)|by split].
Qed.

(** A literal whose value is, in Huffman coding, two letters and the end symbol. *)
Definition deadly_block : bytes := map uint8 [0x00; 0x01; 0x61; 0x85; 0x00; 0x3f; 0xff; 0xff; 0xff].

(** C17: on any bytes, in any pieces, the table of the decoder stays within its maximum, and
    that within what is allowed; [evict] never runs off the table, even if its size
    wraps around. The decoder can panic in one way only, by the missing node of the end
    symbol in the Huffman tree, and nine bytes are enough for it. *)
Theorem decoder_safe (A : Z) (ps : list bytes) :
  0 ≤ A < 2 ^ 32 →
  ∃ d0, NewDecoder A = Ok d0 ∧ Decoder_Write deadly_block d0 = Panic nil_deref ∧
  match writes ps d0 with
  | Ok (d, _, _) => table_ok (d_dynTab d)
  | Err _ => False
  | Panic m => m = nil_deref
  end.
Proof.
  intros HA. exists (mkDecoder (mkTable [] 0 A A) true 0 []). split.
  { unfold NewDecoder, setMaxSize, evict. cbn [ents size maxSize allowedMaxSize evict_loop]. destruct (Z.ltb_spec A 0); [lia|done]. }
  split; [by vm_compute|]. set (d0 := mkDecoder _ _ _ _).
  assert (waiting d0) as Hw by (split; [done|by left]). rewrite writes_concat_waiting, Decoder_Write_all by done.
  destruct (write_all_ok (saveBuf d0 ++ concat ps) (set_saveBuf [] d0)) as [H1 H2].
  { split; [done|]. split; [done|]. cbn. lia. }
  destruct (write_all _ _) as [[[d fs] e]|e|e]; [by destruct H1|by destruct (H2 e)|done].
Qed.

(** C14: the Huffman decoder is that of its code. On any bytes it gives the symbols whose codes
    the bits begin with, in order, up to a rest in which no code starts; the rest is ignored,
    however long, unless it begins with the 30 ones of the end symbol: then the bytes are
    invalid, except that they make the decoder panic when at most one bit follows. What
    the encoder writes is read back, and is as long as announced. *)
Theorem huffman_code (v s : bytes) :
  (∃ cs q, bits v = codes cs ++ q ∧ (∀ c, ¬ code_bits c `prefix_of` q) ∧
    huffmanDecode 0 v =
      if bool_decide (replicate 30 true `prefix_of` q) then
        if (32 <=? length q)%nat then Err ErrInvalidHuffman else Panic nil_deref
      else Ok cs) ∧
  huffmanDecode 0 (AppendHuffmanString [] s) = Ok s ∧
  (Z.of_nat (length s) < 2 ^ 56 → HuffmanEncodeLength s = Z.of_nat (length (AppendHuffmanString [] s))).
Proof.
  split_and!.
  - destruct (huffmanDecode_finish v) as (cs & q & E & Hq & ->). exists cs, q. split; [done|].
    split; [intros c; by apply no_code_spec|]. unfold finish. replace (replicate 30 true) with eos by (by vm_compute).
    destruct (prefixb eos q) eqn:Ep.
    + rewrite bool_decide_true by (by apply prefixb_spec). done.
    + rewrite bool_decide_false by (by apply prefixb_false). done.
  - apply decode_encode_huffman.
  - intros H. apply HuffmanEncodeLength_spec. lia.
Qed.

(** ** Witnesses *)

#[local] Transparent static_len staticTable.

Definition demo_ops : list encoder_op :=
  [OpField (pair ":path" "/scheduler.Scheduler/LoadTest"); OpMaxSize 64; OpField (mkField (to_bytes "secret") (to_bytes "x") true);
   OpLimit 100; OpLimit 4096; OpMaxSize 4096; OpField (pair "user-agent" "grpc-go/0.11")].

Lemma hpack_roundtrip_witness :
  Forall (op_ok 4096) demo_ops ∧ ∃ b, length b = 47%nat ∧
  ∃ d d', NewDecoder 4096 = Ok d ∧ writes [take 7 b; drop 7 b] d = Ok (d', concat (map op_fields demo_ops), None).
Proof.
  assert (Forall (op_ok 4096) demo_ops) as Ho.
  { unfold demo_ops. repeat constructor; cbn; try lia; by vm_compute. }
  split; [done|]. pose (b := match (e ← NewEncoder; encode_ops demo_ops e) with Ok (b, _) => b | _ => [] end).
  exists b. split; [by vm_compute|].
  destruct (hpack_roundtrip 4096 demo_ops [take 7 b; drop 7 b]) as (e & d & b' & e' & d' & He & Hd & E & H & _); [lia|done|].
  exists d, d'. split; [done|]. apply H. cbn [concat]. rewrite app_nil_r, take_drop. subst b. rewrite He. cbn [mbind outcome_bind].
  by rewrite E.
Defined.

Lemma hpack_cuts_witness :
  ∃ d, NewDecoder 4096 = Ok d ∧
  writes [map uint8 [0x40; 0x01]; map uint8 [0x61; 0x01; 0x62]] d = Decoder_Write (map uint8 [0x40; 0x01; 0x61; 0x01; 0x62]) d.
Proof.
  eexists. split; [vm_compute; reflexivity|].
  exact (hpack_cuts 4096 _ _ [] [map uint8 [0x40; 0x01]; map uint8 [0x61; 0x01; 0x62]] [] None eq_refl eq_refl).
Defined.

Lemma decoder_safe_witness :
  ∃ d0, NewDecoder 4096 = Ok d0 ∧ Decoder_Write deadly_block d0 = Panic nil_deref.
Proof. destruct (decoder_safe 4096 []) as (d0 & H1 & H2 & _); [lia|]. by exists d0. Defined.
