(* ===== verification/Metadata.v ===== *)
(** * Metadata of a call (grpc/metadata/metadata.go)

    Keys and values as they are sent: values that are not ASCII in base64, under a key
    with the suffix [-bin].  The alphabet and the padding are those of
    [base64.StdEncoding], whose errors are only logged. *)
From Stdlib Require Import ZArith Lia Ascii.
From stdpp Require Import base option list strings gmap.
From S2P Require Import Prelude GoNum GoFmt Strconv Proto GrpcFacts.

(** ** [base64.StdEncoding] *)

Definition base64_alphabet : bytes := to_bytes "ABCDEFGHIJKLMNOPQRSTUVWXYZabcdefghijklmnopqrstuvwxyz0123456789+/".

Definition padChar : ascii := "="%char.
Definition digit64 (n : Z) : ascii := nth (Z.to_nat n) base64_alphabet zero.

Fixpoint index_of (c : ascii) (l : bytes) (i : Z) : option Z :=
  match l with
  | [] => None
  | d :: l => if Ascii.eqb c d then Some i else index_of c l (i + 1)
  end.

Definition value64 (c : ascii) : option Z := index_of c base64_alphabet 0.

Fixpoint EncodeToString (s : bytes) : bytes :=
  match s with
  | [] => []
  | [a] => let a := byte_val a in [digit64 (a / 4); digit64 (a mod 4 * 16); padChar; padChar]
  | [a; b] =>
      let a := byte_val a in let b := byte_val b in
      [digit64 (a / 4); digit64 (a mod 4 * 16 + b / 16); digit64 (b mod 16 * 4); padChar]
  | a :: b :: c :: s =>
      let a := byte_val a in let b := byte_val b in let c := byte_val c in
      digit64 (a / 4) :: digit64 (a mod 4 * 16 + b / 16) :: digit64 (b mod 16 * 4 + c / 64) :: digit64 (c mod 64) :: EncodeToString s
  end.

(** The quanta of four characters; padding ends the text. *)
Fixpoint decode_quanta (s : bytes) : option bytes :=
  match s with
  | [] => Some []
  | a :: b :: c :: d :: s =>
      a ← value64 a; b ← value64 b;
      let x := uint8 (a * 4 + b / 16) in
      if Ascii.eqb c padChar then
        if Ascii.eqb d padChar && (length s =? 0)%nat then Some [x] else None
      else
        c ← value64 c;
        let y := uint8 (b mod 16 * 16 + c / 4) in
        if Ascii.eqb d padChar then
          if (length s =? 0)%nat then Some [x; y] else None
        else
          d ← value64 d; rest ← decode_quanta s; Some (x :: y :: uint8 (c mod 4 * 64 + d) :: rest)
  | _ => None
  end.

Definition newline (c : ascii) : bool := Ascii.eqb c "010"%char || Ascii.eqb c "013"%char.

Definition DecodeString (s : bytes) : option bytes := decode_quanta (List.filter (fun c => negb (newline c)) s).

(** ** Keys and values *)

Definition binHdrSuffix : bytes := to_bytes "-bin".

Definition isASCII (s : bytes) : bool := forallb (fun c => byte_val c <=? 127) s.

(** [strings.ToLower] of an ASCII string. *)
Definition ToLower (s : bytes) : bytes := map lower s.

Definition HasSuffix (s suffix : bytes) : bool :=
  (length suffix <=? length s)%nat && bool_decide (drop (length s - length suffix) s = suffix).

Definition encodeKeyValue (k v : bytes) : bytes * bytes :=
  if isASCII v then (k, v) else (ToLower (k ++ binHdrSuffix), EncodeToString v).

(** [None] for an error. *)
Definition DecodeKeyValue (k v : bytes) : option (bytes * bytes) :=
  if negb (HasSuffix k binHdrSuffix) then Some (k, v) else
  let key := take (length k - length binHdrSuffix) k in
  val ← DecodeString v; Some (key, val).

(** [md[k] = append(md[k], v)]. *)
Definition md_add (m : gmap bytes (list bytes)) (kv : bytes * bytes) : gmap bytes (list bytes) :=
  <[fst kv := default [] (m !! fst kv) ++ [snd kv]]> m.

(** The loop of [Pairs], by two. *)
Fixpoint Pairs_loop (kv : list bytes) (md : gmap bytes (list bytes)) : gmap bytes (list bytes) :=
  match kv with
  | k :: v :: kv => Pairs_loop kv (md_add md (encodeKeyValue k v))
  | _ => md
  end.

Definition Pairs (kv : list bytes) : outcome (gmap bytes (list bytes)) :=
  if (length kv mod 2 =? 1)%nat
  then Panic ("metadata: Pairs got the odd number of input pairs for metadata: " +:+ fmt_d (Z.of_nat (length kv)))
  else Ok (Pairs_loop kv ∅).

(** [New], with the entries of the map in the order in which it is iterated. *)
Definition New (m : list (bytes * bytes)) : gmap bytes (list bytes) :=
  foldl (fun md kv => md_add md (encodeKeyValue (fst kv) (snd kv))) ∅ m.

(** [Copy]: a key without values is not copied. *)
Definition Copy (md : gmap bytes (list bytes)) : gmap bytes (list bytes) :=
  omap (fun v => match v with [] => None | _ => Some v end) md.

(** ** Round trips *)

Lemma value64_digit64 n : 0 ≤ n < 64 →
  value64 (digit64 n) = Some n ∧ Ascii.eqb (digit64 n) padChar = false ∧ newline (digit64 n) = false.
Proof.
  intros Hn. assert (forallb (fun i => let c := digit64 (Z.of_nat i) in
    bool_decide (value64 c = Some (Z.of_nat i)) && negb (Ascii.eqb c padChar) && negb (newline c)) (seq 0 64) = true) as H by (by vm_compute).
  rewrite forallb_forall in H. assert (In (Z.to_nat n) (seq 0 64)) as Hin by (apply in_seq; lia). specialize (H _ Hin).
  cbv zeta in H. rewrite Z2Nat.id in H by lia. rewrite !andb_true_iff, bool_decide_eq_true, !negb_true_iff in H. tauto.
Qed.

Lemma value64_ok n : 0 ≤ n < 64 → value64 (digit64 n) = Some n.
Proof. apply value64_digit64. Qed.
Lemma digit64_no_pad n : 0 ≤ n < 64 → Ascii.eqb (digit64 n) padChar = false.
Proof. apply value64_digit64. Qed.
Lemma digit64_no_newline n : 0 ≤ n < 64 → newline (digit64 n) = false.
Proof. apply value64_digit64. Qed.

Lemma uint8_is x c : x = byte_val c → uint8 x = c.
Proof. intros ->. apply uint8_byte_val. Qed.

Lemma bytes_ind3 (P : bytes → Prop) :
  P [] → (∀ a, P [a]) → (∀ a b, P [a; b]) → (∀ a b c s, P s → P (a :: b :: c :: s)) → ∀ s, P s.
Proof.
  intros H0 H1 H2 H3. assert (∀ n s, (length s ≤ n)%nat → P s) as H; [|intros s; by apply (H (length s))].
  induction n as [|n IH]; intros s Hs; [destruct s; [done|cbn in Hs; lia]|].
  destruct s as [|a [|b [|c s]]]; [apply H0|apply H1|apply H2|]. apply H3, IH. cbn [length] in Hs. lia.
Qed.

Lemma decode_encode_quanta s : decode_quanta (EncodeToString s) = Some s.
Proof.
  induction s as [|a|a b|a b c s IH] using bytes_ind3; [done|..]; cbn [EncodeToString decode_quanta]; cbv zeta;
    pose proof (byte_val_range a); try pose proof (byte_val_range b); try pose proof (byte_val_range c);
    rewrite !value64_ok by div_lia; cbn [mbind option_bind]; rewrite ?digit64_no_pad by div_lia; cbn [mbind option_bind].
  - cbn. do 2 f_equal. apply uint8_is. div_lia.
  - cbn [Ascii.eqb Bool.eqb length Nat.eqb padChar]. f_equal. f_equal; [apply uint8_is; div_lia|]. f_equal. apply uint8_is. div_lia.
  - rewrite IH. cbn [mbind option_bind]. f_equal.
    f_equal; [apply uint8_is; div_lia|]. f_equal; [apply uint8_is; div_lia|]. f_equal. apply uint8_is. div_lia.
Qed.

Lemma encoded_no_newline s : List.filter (fun c => negb (newline c)) (EncodeToString s) = EncodeToString s.
Proof.
  induction s as [|a|a b|a b c s IH] using bytes_ind3; [done|..]; cbn [EncodeToString]; cbv zeta; cbn [List.filter];
    pose proof (byte_val_range a); try pose proof (byte_val_range b); try pose proof (byte_val_range c);
    rewrite !digit64_no_newline by div_lia; [done..|]. cbn [negb]. by rewrite IH.
Qed.

Lemma DecodeString_EncodeToString s : DecodeString (EncodeToString s) = Some s.
Proof. unfold DecodeString. rewrite encoded_no_newline. apply decode_encode_quanta. Qed.

Lemma HasSuffix_app k s : HasSuffix (k ++ s) s = true.
Proof.
  unfold HasSuffix. rewrite length_app. apply andb_true_iff. split; [apply Nat.leb_le; lia|].
  apply bool_decide_eq_true. replace (length k + length s - length s)%nat with (length k) by lia. apply drop_app_length.
Qed.

Lemma ToLower_length s : length (ToLower s) = length s.
Proof. apply length_map. Qed.

(** Metadata survives the way to the peer: a value of ASCII under a key without the suffix as
    it is, any other value under the key in lower case. A value of ASCII under a key that
    already has the suffix does not: it is sent as it is and decoded. *)
Lemma decode_key_value (k v : bytes) :
  let '(k', v') := encodeKeyValue k v in
  DecodeKeyValue k' v' =
    if isASCII v then
      if HasSuffix k binHdrSuffix
      then val ← DecodeString v; Some (take (length k - 4) k, val)
      else Some (k, v)
    else Some (ToLower k, v).
Proof.
  unfold encodeKeyValue. destruct (isASCII v).
  - unfold DecodeKeyValue. by destruct (HasSuffix k binHdrSuffix).
  - unfold DecodeKeyValue, ToLower. rewrite map_app. change (map lower binHdrSuffix) with binHdrSuffix.
    rewrite HasSuffix_app. cbn [negb]. cbv zeta. rewrite length_app, DecodeString_EncodeToString. cbn [mbind option_bind].
    replace (length (map lower k) + length binHdrSuffix - length binHdrSuffix)%nat with (length (map lower k)) by lia.
    by rewrite take_app_length.
Qed.

(** [Pairs] and [New] agree. *)
Lemma Pairs_New m : Pairs (concat (map (fun kv => [fst kv; snd kv]) m)) = Ok (New m).
Proof.
  unfold Pairs, New. assert (length (concat (map (fun kv : bytes * bytes => [fst kv; snd kv]) m)) = length m * 2)%nat as ->.
  { induction m as [|kv m IH]; [done|]. cbn [map concat]. rewrite length_app, IH. done. }
  rewrite Nat.Div0.mod_mul. cbn [Nat.eqb]. f_equal. generalize (∅ : gmap bytes (list bytes)).
  induction m as [|kv m IH]; intros md; [done|]. cbn [map concat app Pairs_loop foldl]. apply IH.
Qed.
