(* ===== verification/Headers.v ===== *)
(** * Headers of a call (grpc/transport, http_util.go)

    The timeouts in headers, and what either side makes of the fields of a block that its
    decoder emits.  The writing of headers is in Calls.v. *)
From Stdlib Require Import ZArith Lia Ascii.
From stdpp Require Import base option list strings gmap.
From S2P Require Import Prelude GoNum GoFmt Strconv Flow Transfer Proto Grpc Frames Huffman Hpack Metadata.

(** ** Timeouts *)

Definition Microsecond : Z := 1000.
Definition Minute : Z := 60 * Second.
Definition Hour : Z := 60 * Minute.

Definition timeoutUnitToDuration (u : ascii) : option Z :=
  if Ascii.eqb u "H"%char then Some Hour else if Ascii.eqb u "M"%char then Some Minute
  else if Ascii.eqb u "S"%char then Some Second else if Ascii.eqb u "m"%char then Some Millisecond
  else if Ascii.eqb u "u"%char then Some Microsecond else if Ascii.eqb u "n"%char then Some 1 else None.

Definition maxTimeoutValue : Z := 100000000 - 1.

(** [div]: division that rounds up; [d % r] has the sign of [d]. *)
Definition duration_div (d r : Z) : Z := if 0 <? Z.rem d r then int64_of (Z.quot d r + 1) else Z.quot d r.

Definition timeoutEncode (t : Z) : bytes :=
  let text (d : Z) (unit : ascii) := FormatInt d ++ [unit] in
  if duration_div t 1 <=? maxTimeoutValue then text (duration_div t 1) "n"%char else
  if duration_div t Microsecond <=? maxTimeoutValue then text (duration_div t Microsecond) "u"%char else
  if duration_div t Millisecond <=? maxTimeoutValue then text (duration_div t Millisecond) "m"%char else
  if duration_div t Second <=? maxTimeoutValue then text (duration_div t Second) "S"%char else
  if duration_div t Minute <=? maxTimeoutValue then text (duration_div t Minute) "M"%char else
  text (duration_div t Hour) "H"%char.

Definition quoted (s : bytes) : string := to_string (dquote :: s ++ [dquote]).

Definition timeoutDecode (s : bytes) : outcome Z :=
  let size := length s in
  if (size <? 2)%nat then Err (Errorf ("transport: timeout string is too short: " +:+ quoted s)) else
  match timeoutUnitToDuration (List.last s zero) with
  | None => Err (Errorf ("transport: timeout unit is not recognized: " +:+ quoted s))
  | Some d => t ← ParseInt (take (size - 1) s); Ok (int64_of (d * t))
  end.

(** ** The fields of a block *)

Record decodeState := mkState {
  statusCode : Z; statusDesc : bytes; timeoutSet : bool; timeout : Z; method : bytes; mdata : gmap bytes (list bytes)
}.

Definition empty_state : decodeState := mkState 0 [] false 0 [] ∅.

Record hpackDecoder := mkHpackDecoder { hd_h : Decoder; hd_state : decodeState }.

Definition reserved : list bytes :=
  map to_bytes ["content-type"; "grpc-message-type"; "grpc-encoding"; "grpc-message"; "grpc-status"; "grpc-timeout"; "te"].

Definition isReservedHeader (hdr : bytes) : outcome bool :=
  match hdr with
  | [] => Panic "runtime error: index out of range"
  | c :: _ => Ok (Ascii.eqb c ":"%char || bool_decide (hdr ∈ reserved))
  end.

(** [strings.Contains(s, sub)]. *)
Fixpoint Contains (s sub : bytes) : bool :=
  bool_decide (sub `prefix_of` s) || match s with [] => false | _ :: s => Contains s sub end.

(** What precedes the last space. *)
Fixpoint before_last_space (s : bytes) : option bytes :=
  match s with
  | [] => None
  | c :: s =>
      match before_last_space s with
      | Some p => Some (c :: p)
      | None => if Ascii.eqb c " "%char then Some [] else None
      end
  end.

(** An entry of the peer's metadata; one that does not decode is only logged. *)
Definition add_metadata (name value : bytes) (s : decodeState) : decodeState :=
  match DecodeKeyValue name value with
  | Some kv => mkState (statusCode s) (statusDesc s) (timeoutSet s) (timeout s) (method s) (md_add (mdata s) kv)
  | None => s
  end.

Definition is_name (name : bytes) (s : string) : bool := bool_decide (name = to_bytes s).

(** The function that [newHPACKDecoder] gives to the decoder: the state and [d.err]. *)
Definition emit (x : decodeState * option rerror) (f : HeaderField) : outcome (decodeState * option rerror) :=
  let '(s, err) := x in
  let name := hf_Name f in
  let value := hf_Value f in
  if is_name name "content-type" then
    Ok (s, if Contains value (to_bytes "application/grpc") then err
           else Some (StreamError FailedPrecondition "transport: received the unexpected header"))
  else if is_name name "grpc-status" then
    match ParseInt value with
    | Ok code => Ok (mkState (uint32 code) (statusDesc s) (timeoutSet s) (timeout s) (method s) (mdata s), err)
    | Err e => Ok (s, Some (StreamError Grpc.Internal ("transport: malformed grpc-status: " +:+ Error e)))
    | Panic p => Panic p
    end
  else if is_name name "grpc-message" then
    Ok (mkState (statusCode s) value (timeoutSet s) (timeout s) (method s) (mdata s), err)
  else if is_name name "grpc-timeout" then
    match timeoutDecode value with
    | Ok t => Ok (mkState (statusCode s) (statusDesc s) true t (method s) (mdata s), err)
    | Err e => Ok (mkState (statusCode s) (statusDesc s) true 0 (method s) (mdata s),
                   Some (StreamError Grpc.Internal ("transport: malformed time-out: " +:+ Error e)))
    | Panic p => Panic p
    end
  else if is_name name ":path" then
    Ok (mkState (statusCode s) (statusDesc s) (timeoutSet s) (timeout s) value (mdata s), err)
  else
    r ← isReservedHeader name;
    if r : bool then Ok (s, err) else
    if is_name name "user-agent" then
      Ok (match before_last_space value with Some ua => add_metadata name ua s | None => s end, err)
    else Ok (add_metadata name value s, err).

Fixpoint emit_all (x : decodeState * option rerror) (fs : list HeaderField) : outcome (decodeState * option rerror) :=
  match fs with [] => Ok x | f :: fs => x ← emit x f; emit_all x fs end.

(** The fragment of a headers or continuation frame, and whether it is the last. *)
Record headerFrame := mkHeaderFrame { fragment : bytes; headersEnded : bool }.

(** [decodeServerHTTP2Headers], which is also [decodeClientHTTP2Headers]: the decoder, the
    error, and whether the headers have ended. *)
Definition decodeHTTP2Headers (frame : headerFrame) (d : hpackDecoder) : outcome (hpackDecoder * option rerror * bool) :=
  '(h, fs, we) ← Decoder_Write (fragment frame) (hd_h d);
  '(s, derr) ← emit_all (hd_state d, None) fs;
  let err := match we with
             | Some e => Some (StreamError Grpc.Internal ("transport: HPACK header decode error: " +:+ Error e))
             | None => None
             end in
  let '(h, err) :=
    if headersEnded frame then
      match Decoder_Close h, err with
      | (h, Some e), None => (h, Some (StreamError Grpc.Internal ("transport: HPACK decoder close error: " +:+ Error e)))
      | (h, _), _ => (h, err)
      end
    else (h, err) in
  Ok (mkHpackDecoder h s, match err with None => derr | _ => err end, headersEnded frame).

Definition http2InitHeaderTableSize : Z := 4096.

Definition newHPACKDecoder : outcome hpackDecoder :=
  h ← NewDecoder http2InitHeaderTableSize; Ok (mkHpackDecoder h empty_state).

(** * Properties of timeouts and of the fields of a block

    What a deadline becomes on its way to the server, and what the entries of the metadata
    add to the state of the decoder. *)

(** ** Timeouts *)

Lemma unit_byte s c : List.last (s ++ [c]) zero = c.
Proof. by rewrite List.last_last. Qed.

Lemma timeoutDecode_text k c u : timeoutUnitToDuration c = Some u → is_int64 k →
  timeoutDecode (FormatInt k ++ [c]) = Ok (int64_of (u * k)).
Proof.
  intros Hc Hk. unfold timeoutDecode. cbv zeta. rewrite length_app. cbn [length].
  destruct (FormatInt_shape k) as (x & xs & E & _). rewrite (proj2 (Nat.ltb_ge _ _)) by (rewrite E; cbn [length]; lia).
  rewrite unit_byte, Hc. replace (length (FormatInt k) + 1 - 1)%nat with (length (FormatInt k)) by lia.
  rewrite take_app_length, ParseInt_FormatInt by done. done.
Qed.

(** [div] rounds up. *)
Lemma duration_div_up t u : 0 < t < 2 ^ 63 → 0 < u → u * (duration_div t u - 1) < t ≤ u * duration_div t u ∧ 0 < duration_div t u ≤ t.
Proof.
  intros Ht Hu. unfold duration_div. rewrite Z.rem_mod_nonneg, Z.quot_div_nonneg by lia.
  pose proof (Z.div_mod t u ltac:(lia)). pose proof (Z.mod_pos_bound t u ltac:(lia)).
  assert (0 ≤ t / u) by (apply Z.div_pos; lia).
  assert (t / u ≤ t) by (apply Z.div_le_upper_bound; nia).
  destruct (Z.ltb_spec 0 (t mod u)).
  - assert (t / u + 1 ≤ t) by nia. rewrite int64_id by (unfold is_int64; lia). nia.
  - nia.
Qed.

(** The unit in which a timeout is sent: the finest that takes eight digits at most. *)
Definition timeout_unit (t : Z) : Z :=
  if duration_div t 1 <=? maxTimeoutValue then 1 else
  if duration_div t Microsecond <=? maxTimeoutValue then Microsecond else
  if duration_div t Millisecond <=? maxTimeoutValue then Millisecond else
  if duration_div t Second <=? maxTimeoutValue then Second else
  if duration_div t Minute <=? maxTimeoutValue then Minute else Hour.

Lemma timeout_unit_pos t : 0 < timeout_unit t.
Proof. unfold timeout_unit. by repeat case_match. Qed.

Lemma timeout_decodes t : 0 < t < 2 ^ 63 →
  timeoutDecode (timeoutEncode t) = Ok (int64_of (timeout_unit t * duration_div t (timeout_unit t))).
Proof.
  intros Ht. pose proof (timeout_unit_pos t) as Hu. pose proof (duration_div_up t (timeout_unit t) Ht Hu) as [_ Hd].
  unfold timeoutEncode. cbv zeta. unfold timeout_unit in *.
  repeat case_match; apply timeoutDecode_text; first [done|unfold is_int64; lia].
Qed.

(** The unit is not coarse: it is the nanosecond, or a hundred thousandth of the timeout. *)
Lemma timeout_unit_fine t : 0 < t < 2 ^ 63 → timeout_unit t = 1 ∨ 99999 * timeout_unit t < t.
Proof.
  intros Ht. unfold timeout_unit. change maxTimeoutValue with 99999999. change Hour with 3600000000000. change Minute with 60000000000.
  change Second with 1000000000. change Millisecond with 1000000. change Microsecond with 1000.
  assert (∀ u, 0 < u → 99999999 < duration_div t u → u * 99999999 < t) as H.
  { intros u Hu Hd. pose proof (duration_div_up t u Ht Hu). nia. }
  pose proof (H 1 ltac:(lia)) as H1. pose proof (H 1000 ltac:(lia)) as H2. pose proof (H 1000000 ltac:(lia)) as H3.
  pose proof (H 1000000000 ltac:(lia)) as H4. pose proof (H 60000000000 ltac:(lia)) as H5.
  repeat (match goal with |- context [?a <=? ?b] => destruct (Z.leb_spec a b) end; [lia|]). lia.
Qed.

Lemma timeout_unit_long t : 0 < t < 2 ^ 63 → timeout_unit t = Hour ∨ timeout_unit t ≤ Minute ∧ timeout_unit t * duration_div t (timeout_unit t) ≤ 99999999 * Minute.
Proof.
  intros Ht. unfold timeout_unit. change maxTimeoutValue with 99999999. change Minute with 60000000000.
  change Second with 1000000000. change Millisecond with 1000000. change Microsecond with 1000.
  repeat (match goal with |- context [?a <=? ?b] => destruct (Z.leb_spec a b) end; [right; lia|]). by left.
Qed.

Lemma timeout_unit_short t : 0 < t < 100000000 → timeout_unit t = 1.
Proof.
  intros Ht. unfold timeout_unit. pose proof (duration_div_up t 1 ltac:(lia) ltac:(lia)).
  change maxTimeoutValue with 99999999. by rewrite (proj2 (Z.leb_le _ _)) by lia.
Qed.

(** The timeout that the server gives a call is at least what the client had left, and
    longer by less than a hundred thousandth, and exact below a tenth of a second; but
    beyond 2562047 hours rounding up to the hour overflows, and the server's timeout is
    negative: the call expires when it arrives. *)
Theorem timeout_roundtrip (t : Z) :
  0 < t < 2 ^ 63 →
  ∃ t', timeoutDecode (timeoutEncode t) = Ok t' ∧
    if t <=? 2562047 * Hour then t ≤ t' ∧ 99999 * (t' - t) < t ∧ (t < 100 * Millisecond → t' = t)
    else t' = - 9223371273709551616.
Proof.
  intros Ht. eexists. split; [by apply timeout_decodes|]. pose proof (timeout_unit_pos t) as Hu.
  pose proof (duration_div_up t (timeout_unit t) Ht Hu) as [Hd _]. pose proof (timeout_unit_fine t Ht) as Hf.
  pose proof (timeout_unit_long t Ht) as Hl. change Hour with 3600000000000 in *. change Minute with 60000000000 in *. change Millisecond with 1000000 in *.
  set (d := duration_div t (timeout_unit t)) in *. destruct (Z.leb_spec t (2562047 * 3600000000000)) as [Hs|Hs].
  - assert (timeout_unit t * d < 2 ^ 63) as Hb.
    { destruct Hl as [Hl|[_ Hl]]; [|lia]. rewrite Hl in *. assert (d ≤ 2562047) by lia. lia. }
    rewrite int64_id by (unfold is_int64; lia). split; [lia|]. split; [lia|]. intros Hshort. rewrite (timeout_unit_short t) in Hd |- * by lia. lia.
  - destruct Hl as [Hl|[_ Hl]]; [|lia]. rewrite Hl in *. assert (d = 2562048) as -> by lia. by vm_compute.
Qed.

Lemma timeout_roundtrip_witness :
  timeoutEncode (5 * Second) = to_bytes "5000000u" ∧ timeoutDecode (to_bytes "5000000u") = Ok (5 * Second) ∧
  ∃ t', timeoutDecode (timeoutEncode (2562047 * Hour + 1)) = Ok t' ∧ t' = - 9223371273709551616.
Proof.
  split_and!; [by vm_compute..|]. destruct (timeout_roundtrip (2562047 * Hour + 1)) as (t' & E & H); [unfold Hour, Minute, Second; lia|].
  rewrite (proj2 (Z.leb_gt _ _)) in H by lia. exists t'. split; [exact E|exact H].
Defined.

(** ** Fields *)

(** A name that goes to the metadata as it is. *)
Definition key_ok (k : bytes) : Prop :=
  match k with [] => False | c :: _ => c ≠ ":"%char end ∧ k ∉ reserved ∧ k ≠ to_bytes "user-agent".

Lemma is_name_false k s : k ≠ to_bytes s → is_name k s = false.
Proof. intros H. unfold is_name. by apply bool_decide_eq_false. Qed.

Lemma emit_entry s k v : key_ok k → emit (s, None) (mkField k v false) = Ok (add_metadata k v s, None).
Proof.
  intros (Hc & Hr & Hu). unfold emit. cbn [hf_Name hf_Value].
  assert (∀ n, to_bytes n ∈ reserved → is_name k n = false) as Hn.
  { intros n Hn. apply is_name_false. by intros ->. }
  rewrite !Hn by (apply list_elem_of_In; vm_compute; tauto).
  rewrite (is_name_false k ":path") by (by intros ->). rewrite (is_name_false k "user-agent") by done.
  destruct k as [|c k]; [done|]. cbn [isReservedHeader]. rewrite (bool_decide_eq_false_2 _ Hr).
  rewrite (proj2 (Ascii.eqb_neq _ _) Hc). done.
Qed.

(** What the entries of the metadata add. *)
Definition received_md (m : gmap bytes (list bytes)) (md : list (bytes * bytes)) : gmap bytes (list bytes) := foldl md_add m md.

Definition set_mdata (m : gmap bytes (list bytes)) (s : decodeState) : decodeState :=
  mkState (statusCode s) (statusDesc s) (timeoutSet s) (timeout s) (method s) m.

(** The pair that the peer has for a pair of the application. *)
Definition peer_pair (kv : bytes * bytes) : bytes * bytes := if isASCII (snd kv) then kv else (ToLower (fst kv), snd kv).

(** A pair of the application whose key survives. *)
Definition pair_ok (kv : bytes * bytes) : Prop :=
  key_ok (fst (encodeKeyValue (fst kv) (snd kv))) ∧ (isASCII (snd kv) = true → HasSuffix (fst kv) binHdrSuffix = false).

Definition encode_pair (kv : bytes * bytes) : bytes * bytes := encodeKeyValue (fst kv) (snd kv).

Lemma DecodeKeyValue_pair kv : pair_ok kv → DecodeKeyValue (fst (encode_pair kv)) (snd (encode_pair kv)) = Some (peer_pair kv).
Proof.
  destruct kv as [k v]. intros [_ Hs]. unfold encode_pair, peer_pair. cbn [fst snd] in *. pose proof (decode_key_value k v) as H.
  destruct (encodeKeyValue k v) as [k' v']. cbn [fst snd]. rewrite H. destruct (isASCII v); [by rewrite Hs|done].
Qed.

Lemma emit_all_entries s md : Forall pair_ok md →
  emit_all (s, None) (map (fun kv => mkField (fst kv) (snd kv) false) (map encode_pair md)) = Ok (set_mdata (received_md (mdata s) (map peer_pair md)) s, None).
Proof.
  intros H. revert s. induction H as [|kv md Hkv _ IH]; intros s; cbn [map emit_all]; [by destruct s|].
  rewrite emit_entry by apply Hkv. cbn [mbind outcome_bind]. rewrite IH. unfold add_metadata. rewrite DecodeKeyValue_pair by done.
  destruct s as [? ? ? ? ? m]. cbn [mdata set_mdata]. done.
Qed.
