(* ===== verification/Calls.v ===== *)
(** * Opening and ending a call (grpc/transport, http2_client.go and http2_server.go)

    What a client writes to open a stream and a server to answer or end it, how blocks are
    cut into frames, and what either side does with the frames of headers.  The metadata
    of a call is the list of its entries, in the order in which the map is iterated;
    credentials are not used.  The waits for the transport are over. *)
From Stdlib Require Import ZArith Lia Ascii.
From stdpp Require Import base option list strings gmap.
From S2P Require Import Prelude GoNum GoFmt Strconv Flow Transfer Proto Grpc Frames Huffman Hpack Metadata Headers.

(** ** Writing headers *)

(** The pieces that a block is cut into, and whether each is the last. *)
Fixpoint cut (fuel : nat) (buf : bytes) : list (bytes * bool) :=
  match fuel with
  | S fuel =>
      if (Z.to_nat http2MaxFrameLen <? length buf)%nat
      then (take (Z.to_nat http2MaxFrameLen) buf, false) :: cut fuel (drop (Z.to_nat http2MaxFrameLen) buf)
      else [(buf, true)]
  | O => [(buf, true)]
  end.

Fixpoint write_continuations (id : Z) (ps : list (bytes * bool)) : result bytes :=
  match ps with
  | [] => inl []
  | (p, endHeaders) :: ps =>
      rbind (WriteContinuation id endHeaders p) (fun w => rbind (write_continuations id ps) (fun ws => inl (w ++ ws)))
  end.

(** [writeHeaders] of the server, and the loop of [NewStream]. *)
Definition writeHeaders (id : Z) (b : bytes) (endStream : bool) : result bytes :=
  match cut (length b) b with
  | [] => inl []
  | (p, endHeaders) :: ps =>
      rbind (WriteHeaders (mkHeadersParam id p endStream endHeaders 0 (mkPriority 0 false 0))) (fun w =>
      rbind (write_continuations id ps) (fun ws => inl (w ++ ws)))
  end.

Definition header (name : string) (value : bytes) : HeaderField := mkField (to_bytes name) value false.
Definition md_fields (md : list (bytes * bytes)) : list HeaderField := map (fun kv => mkField (fst kv) (snd kv) false) md.

(** ** The client *)

Definition primaryUA : bytes := to_bytes "grpc-go/0.11".

(** The user agent of a transport, given that of the application. *)
Definition user_agent (ua : bytes) : bytes := if (length ua =? 0)%nat then primaryUA else ua ++ " "%char :: primaryUA.

Record CallHdr := mkCallHdr { Host : bytes; Method : bytes }.

(** The headers of [NewStream]: [timeout] is what is left to the deadline, or zero. *)
Definition request_fields (scheme ua : bytes) (timeout : Z) (callHdr : CallHdr) (md : list (bytes * bytes)) : list HeaderField :=
  [pair ":method" "POST"; header ":scheme" scheme; header ":path" (Method callHdr); header ":authority" (Host callHdr);
   pair "content-type" "application/grpc"; header "user-agent" (user_agent ua); pair "te" "trailers"]
  ++ (if 0 <? timeout then [header "grpc-timeout" (timeoutEncode timeout)] else [])
  ++ md_fields md.

(** The part of [NewStream] that writes, on the stream [id]. *)
Definition NewStream_headers (id : Z) (scheme ua : bytes) (timeout : Z) (callHdr : CallHdr) (md : list (bytes * bytes)) (e : Encoder)
  : outcome (result bytes * Encoder) :=
  '(b, e) ← write_fields (request_fields scheme ua timeout callHdr md) e; Ok (writeHeaders id b false, e).

(** [t.streams] has every stream that was opened, [active] those of [activeStreams]. *)
Record clientStream := mkClientStream {
  headerDone : bool; cs_header : gmap bytes (list bytes); cs_done : bool; cs_trailer : gmap bytes (list bytes);
  cs_code : Z; cs_desc : bytes; cs_buf : recvBuffer Transfer.recvMsg
}.

Definition newStream : clientStream := mkClientStream false ∅ false ∅ 0 [] newRecvBuffer.

Record http2Client := mkClient { cl_streams : gmap Z clientStream; active : gset Z; cl_dec : hpackDecoder; cl_cur : option Z }.

Definition stream_write (m : Transfer.recvMsg) (s : clientStream) : clientStream :=
  mkClientStream (headerDone s) (cs_header s) (cs_done s) (cs_trailer s) (cs_code s) (cs_desc s) (put m (cs_buf s)).

(** The part of [operateHeaders] on a stream whose headers have ended. *)
Definition take_headers (st : decodeState) (endStream : bool) (s : clientStream) : clientStream :=
  let s := if headerDone s then s else
           mkClientStream true (if endStream then cs_header s else if bool_decide (mdata st = ∅) then cs_header s else mdata st)
             (cs_done s) (cs_trailer s) (cs_code s) (cs_desc s) (cs_buf s) in
  if negb endStream || cs_done s then s else
  stream_write (RErr EOF) (mkClientStream (headerDone s) (cs_header s) true
    (if bool_decide (mdata st = ∅) then cs_trailer s else mdata st) (statusCode st) (statusDesc st) (cs_buf s)).

Definition hd_reset (d : hpackDecoder) : hpackDecoder := mkHpackDecoder (hd_h d) empty_state.

(** [operateHeaders] of the client on [s], which becomes the current stream if more is to come. *)
Definition client_operateHeaders (s : option Z) (frame : headerFrame) (endStream : bool) (t : http2Client) : outcome http2Client :=
  '(d, err, endHeaders) ← decodeHTTP2Headers frame (cl_dec t);
  let finish ss := mkClient ss (active t) (hd_reset d) None in
  match s with
  | None => Ok (finish (cl_streams t))
  | Some id =>
      match err with
      | Some e => Ok (finish (alter (stream_write (RErr e)) id (cl_streams t)))
      | None =>
          if negb endHeaders then Ok (mkClient (cl_streams t) (active t) d (Some id))
          else Ok (finish (alter (take_headers (hd_state d) endStream) id (cl_streams t)))
      end
  end.

(** The cases of [reader] for headers. *)
Definition client_frame (f : Frame) (t : http2Client) : outcome http2Client :=
  match f with
  | HeadersFrame fh _ frag =>
      client_operateHeaders (if bool_decide (StreamID fh ∈ active t) then Some (StreamID fh) else None)
        (mkHeaderFrame frag (Has (Flags fh) FlagEndHeaders)) (Has (Flags fh) FlagEndStream) t
  | ContinuationFrame fh frag =>
      let ended := Has (Flags fh) FlagEndHeaders in client_operateHeaders (cl_cur t) (mkHeaderFrame frag ended) ended t
  | _ => Ok t
  end.

(** ** The server *)

(** [statusCodeConvTab], which has no code for the others. *)
Definition Unavailable : Z := 14.
Definition ResourceExhausted : Z := 8.
Definition statusCodeConvTab (c : Z) : Z :=
  if c =? Grpc.Internal then 0x2 else if c =? Canceled then 0x8 else if c =? Unavailable then 0x7
  else if c =? ResourceExhausted then 0xb else if c =? PermissionDenied then 0xc else 0x0.
Definition ErrCodeRefusedStream : Z := 0x7.

(** A stream: its context has a timeout or none, and the metadata unless it is empty. *)
Record serverStream := mkServerStream { ss_id : Z; readDone : bool; ss_method : bytes; ss_timeout : option Z; ss_md : gmap bytes (list bytes) }.

Record http2Server := mkServer {
  reachable : bool; maxStreamID : Z; maxStreams : Z; activeStreams : gmap Z serverStream; sv_dec : hpackDecoder; curStream : option serverStream
}.

Inductive server_event := PutReset (id code : Z) | Handle (s : serverStream).

Definition Server_Close (t : http2Server) : http2Server :=
  if reachable t then mkServer false (maxStreamID t) (maxStreams t) ∅ (sv_dec t) (curStream t) else t.

(** [operateHeaders] of the server on the stream [s]. *)
Definition server_operateHeaders (s : option serverStream) (frame : headerFrame) (endStream : bool) (t : http2Server)
  : outcome (http2Server * list server_event) :=
  '(d, err, endHeaders) ← decodeHTTP2Headers frame (sv_dec t);
  let finish ss := mkServer (reachable t) (maxStreamID t) (maxStreams t) ss (hd_reset d) None in
  match s with
  | None => Ok (finish (activeStreams t), [])
  | Some s =>
      match err with
      | Some (StreamError code _) => Ok (finish (activeStreams t), [PutReset (ss_id s) (statusCodeConvTab code)])
      | Some _ => Ok (finish (activeStreams t), [])
      | None =>
          let s := if endStream then mkServerStream (ss_id s) true (ss_method s) (ss_timeout s) (ss_md s) else s in
          if negb endHeaders then
            Ok (mkServer (reachable t) (maxStreamID t) (maxStreams t) (activeStreams t) d (Some s), [])
          else
            let st := hd_state d in
            let s := mkServerStream (ss_id s) (readDone s) (method st) (if timeoutSet st then Some (timeout st) else None) (mdata st) in
            if negb (reachable t) then Ok (finish (activeStreams t), []) else
            if maxStreams t <=? uint32 (Z.of_nat (base.size (activeStreams t))) then
              Ok (finish (activeStreams t), [PutReset (ss_id s) ErrCodeRefusedStream])
            else Ok (finish (<[ss_id s := s]> (activeStreams t)), [Handle s])
      end
  end.

(** The cases of [HandleStreams] for headers. *)
Definition server_frame (f : Frame) (t : http2Server) : outcome (http2Server * list server_event) :=
  match f with
  | HeadersFrame fh _ frag =>
      let id := StreamID fh in
      if negb (id mod 2 =? 1) || (id <=? maxStreamID t) then Ok (Server_Close t, []) else
      server_operateHeaders (Some (mkServerStream id false [] None ∅)) (mkHeaderFrame frag (Has (Flags fh) FlagEndHeaders))
        (Has (Flags fh) FlagEndStream)
        (mkServer (reachable t) id (maxStreams t) (activeStreams t) (sv_dec t) (curStream t))
  | ContinuationFrame fh frag =>
      let ended := Has (Flags fh) FlagEndHeaders in server_operateHeaders (curStream t) (mkHeaderFrame frag ended) ended t
  | _ => Ok (t, [])
  end.

(** What the server sends of a stream. *)
Record outStream := mkOut { headerOk : bool; streamDone : bool; trailer : list (bytes * bytes) }.

Inductive writeError := ErrIllegalHeaderWrite | WriteFailed (e : frameError).

Definition response_fields : list HeaderField := [pair ":status" "200"; pair "content-type" "application/grpc"].

Definition WriteHeader (id : Z) (md : list (bytes * bytes)) (s : outStream) (e : Encoder)
  : outcome ((bytes + writeError) * outStream * Encoder) :=
  if headerOk s || streamDone s then Ok (inr ErrIllegalHeaderWrite, s, e) else
  let s := mkOut true (streamDone s) (trailer s) in
  '(b, e) ← write_fields (response_fields ++ md_fields md) e;
  match writeHeaders id b false with
  | inl w => Ok (inl w, s, e)
  | inr x => Ok (inr (WriteFailed x), s, e)
  end.

(** [WriteStatus]; nothing is written for a stream that is done. *)
Definition status_fields (s : outStream) (code : Z) (desc : bytes) : list HeaderField :=
  (if headerOk s then [] else response_fields)
  ++ [header "grpc-status" (FormatInt code); header "grpc-message" desc] ++ md_fields (trailer s).

Definition WriteStatus (id : Z) (code : Z) (desc : bytes) (s : outStream) (e : Encoder)
  : outcome ((bytes + writeError) * outStream * Encoder) :=
  if streamDone s then Ok (inl [], s, e) else
  '(b, e) ← write_fields (status_fields s code desc) e;
  match writeHeaders id b true with
  | inl w => Ok (inl w, mkOut (headerOk s) true (trailer s), e)
  | inr x => Ok (inr (WriteFailed x), s, e)
  end.

(** ** The loops of the readers

    The frames that [buf] holds, taken one after the other; the loop has used up [buf]
    or failed to read a frame when it returns. *)
Fixpoint conn_loop {S} (step : Frame → S → outcome S) (fuel : nat) (buf : bytes) (s : S) : outcome S :=
  match fuel with
  | O => Ok s
  | Datatypes.S fuel =>
      match ReadFrame maxFrameSize buf with
      | Ok (inl (f, rest)) => s ← step f s; conn_loop step fuel rest s
      | Ok (inr _) => Ok s
      | Err e => Err e
      | Panic p => Panic p
      end
  end.

Definition server_step (f : Frame) (x : http2Server * list server_event) : outcome (http2Server * list server_event) :=
  '(t, es) ← server_frame f (fst x); Ok (t, snd x ++ es).

Definition server_loop (buf : bytes) (t : http2Server) : outcome (http2Server * list server_event) :=
  conn_loop server_step (length buf) buf (t, []).

Definition client_loop (buf : bytes) (t : http2Client) : outcome http2Client := conn_loop client_frame (length buf) buf t.
