(* ===== verification/CallsProps.v ===== *)
(** * Properties of the headers of a call

    A request reaches the handler with its method, timeout and metadata, and the status of
    a call its client, through compression, the cutting into frames and the reading of
    them; and what goes wrong on the way. *)
From Stdlib Require Import ZArith Lia Ascii.
From stdpp Require Import base option list strings gmap.
From S2P Require Import Prelude GoNum GoFmt Strconv Flow Transfer TransferProps Proto Grpc GrpcFacts Frames FramesProps.
From S2P Require Import Huffman HuffmanFacts Hpack HpackFacts HpackProps Metadata Headers Calls.

#[local] Opaque static_len staticTable.

(** ** Blocks and fields *)

Lemma fields_sync A fs e d : in_sync A e d → Forall small_field fs →
  ∃ b e' d', write_fields fs e = Ok (b, e') ∧ reads_as b d fs d' ∧ in_sync A e' d'.
Proof.
  intros Hs Hf. revert e d Hs. induction Hf as [|f fs Hf _ IH]; intros e d Hs.
  - exists [], e, d. split; [done|]. split; [apply reads_nil, Hs|done].
  - destruct (field_sync A e d f Hs Hf) as (b & e1 & d1 & E1 & Hr1 & Hs1). destruct (IH e1 d1 Hs1) as (bs & e2 & d2 & E2 & Hr2 & Hs2).
    exists (b ++ bs), e2, d2. cbn [write_fields]. rewrite E1. cbn [mbind outcome_bind]. rewrite E2. split; [done|].
    split; [|done]. eapply (reads_app _ _ _ _ _ [f]); [apply Hs|done..].
Qed.

Lemma reads_nonempty b d f fs d' : reads_as b d (f :: fs) d' → b ≠ [].
Proof. by intros [H _] ->. Qed.

(** However a block is cut, the decoder emits its fields. *)
Lemma reads_writes b d fs d' ps : plain d → reads_as b d fs d' → concat ps = b → writes ps d = Ok (d', fs, None).
Proof.
  intros (Hm & _ & Hs) [Hr _] Hps. assert (waiting d) as Hw by (split; [done|by left]).
  rewrite writes_concat_waiting, Hps, Decoder_Write_all by done. rewrite Hs. cbn [app].
  by replace (set_saveBuf [] d) with d by (destruct d; cbn in *; by subst).
Qed.

Lemma writes_cons p ps d d' fs : writes (p :: ps) d = Ok (d', fs, None) →
  ∃ d1 fs1 fs2, Decoder_Write p d = Ok (d1, fs1, None) ∧ writes ps d1 = Ok (d', fs2, None) ∧ fs = fs1 ++ fs2.
Proof.
  cbn [writes]. destruct (Decoder_Write p d) as [[[d1 fs1] [e|]]|e|e]; [done| |done..]. cbn [mbind outcome_bind].
  destruct (writes ps d1) as [[[d2 fs2] e2]|e|e] eqn:E; [|done..]. cbn [mbind outcome_bind]. intros [= ? ? ?]. subst. by exists d1, fs1, fs2.
Qed.

(** An error stays until the next frame. *)
Lemma emit_error s e f x : emit (s, Some e) f = Ok x → snd x ≠ None.
Proof.
  unfold emit. destruct (is_name (hf_Name f) "content-type"); [intros Hx; injection Hx as <-; cbn [snd]; by case_match|].
  destruct (is_name (hf_Name f) "grpc-status"); [destruct (ParseInt _); by intros [= <-]|].
  destruct (is_name (hf_Name f) "grpc-message"); [by intros [= <-]|].
  destruct (is_name (hf_Name f) "grpc-timeout"); [destruct (timeoutDecode _); by intros [= <-]|].
  destruct (is_name (hf_Name f) ":path"); [by intros [= <-]|].
  destruct (isReservedHeader _) as [[|]|?|?]; [by intros [= <-]| |done..]. cbn [mbind outcome_bind].
  destruct (is_name _ _); by intros [= <-].
Qed.

Lemma emit_all_error fs s e x : emit_all (s, Some e) fs = Ok x → snd x ≠ None.
Proof.
  revert s e. induction fs as [|f fs IH]; intros s e; cbn [emit_all]; [by intros [= <-]|].
  destruct (emit (s, Some e) f) as [[s' [e'|]]|?|?] eqn:E; [|by apply emit_error in E|done..]. apply IH.
Qed.

Lemma emit_all_app fs gs s s' : emit_all (s, None) (fs ++ gs) = Ok (s', None) →
  ∃ s1, emit_all (s, None) fs = Ok (s1, None) ∧ emit_all (s1, None) gs = Ok (s', None).
Proof.
  revert s. induction fs as [|f fs IH]; intros s; cbn [emit_all app]; [intros H; by exists s|].
  destruct (emit (s, None) f) as [[s1 [e|]]|?|?]; [| |done..]; cbn [mbind outcome_bind].
  - intros H%emit_all_error. done.
  - apply IH.
Qed.

Lemma decode_ok p ended D d1 fs st : Decoder_Write p (hd_h D) = Ok (d1, fs, None) → emit_all (hd_state D, None) fs = Ok (st, None) →
  (ended = true → saveBuf d1 = []) →
  decodeHTTP2Headers (mkHeaderFrame p ended) D = Ok (mkHpackDecoder d1 st, None, ended).
Proof.
  intros Hw He Hs. unfold decodeHTTP2Headers. cbn [fragment headersEnded]. rewrite Hw. cbn [mbind outcome_bind]. rewrite He. cbn [mbind outcome_bind].
  destruct ended; [|done]. unfold Decoder_Close. by rewrite Hs by done.
Qed.

(** ** Cutting *)

Lemma cut_concat n b : concat (map fst (cut n b)) = b.
Proof.
  revert b. induction n as [|n IH]; intros b; cbn [cut]; [apply app_nil_r|].
  destruct (_ <? _)%nat; cbn [map concat fst]; [by rewrite IH, take_drop|apply app_nil_r].
Qed.

(** All pieces but the last say that more is to come. *)
Inductive pieces : list (bytes * bool) → Prop :=
  | pieces_last p : sizeZ p ≤ http2MaxFrameLen → pieces [(p, true)]
  | pieces_more p ps : sizeZ p = http2MaxFrameLen → pieces ps → pieces ((p, false) :: ps).

Lemma cut_pieces n b : (length b ≤ n)%nat → pieces (cut n b).
Proof.
  revert b. induction n as [|n IH]; intros b Hn; cbn [cut].
  - destruct b; [by constructor|cbn in Hn; lia].
  - unfold http2MaxFrameLen in *. destruct (Nat.ltb_spec (Z.to_nat 16384) (length b)) as [Hl|Hl].
    + constructor; [|apply IH; rewrite length_drop; lia]. unfold sizeZ, http2MaxFrameLen. rewrite length_take. lia.
    + constructor. unfold sizeZ, http2MaxFrameLen. lia.
Qed.

(** ** Frames on a connection *)

(** [w] is, whatever follows it, read as the frames [fs]. *)
Inductive carries : bytes → list Frame → Prop :=
  | carries_nil : carries [] []
  | carries_cons w f ws fs : w ≠ [] → (∀ rest, ReadFrame maxFrameSize (w ++ rest) = Ok (inl (f, rest))) →
      carries ws fs → carries (w ++ ws) (f :: fs).

Lemma carries_app v w fs gs : carries v fs → carries w gs → carries (v ++ w) (fs ++ gs).
Proof. intros H Hw. induction H as [|v f vs fs Hv Hr _ IH]; [done|]. rewrite <- app_assoc. by constructor. Qed.

Fixpoint feed {S} (step : Frame → S → outcome S) (fs : list Frame) (s : S) : outcome S :=
  match fs with [] => Ok s | f :: fs => s ← step f s; feed step fs s end.

Lemma feed_app {S} (step : Frame → S → outcome S) fs gs s : feed step (fs ++ gs) s = (s ← feed step fs s; feed step gs s).
Proof.
  revert s. induction fs as [|f fs IH]; intros s; [done|]. cbn [feed app]. destruct (step f s); [|done..]. cbn [mbind outcome_bind]. apply IH.
Qed.

(** With as much fuel as there are bytes, the loop takes all frames. *)
Lemma conn_loop_carries {S} (step : Frame → S → outcome S) w fs n s :
  carries w fs → (length w ≤ n)%nat → conn_loop step n w s = feed step fs s.
Proof.
  intros H. revert n s. induction H as [|w f ws fs Hw Hr Hc IH]; intros n s Hn.
  - by destruct n.
  - rewrite length_app in Hn. destruct n as [|n]; [destruct w; [done|cbn in Hn; lia]|]. cbn [conn_loop feed]. rewrite Hr.
    destruct (step f s) as [s'|?|?]; [|done..]. cbn [mbind outcome_bind]. apply IH. destruct w; [done|]. cbn [length] in Hn. lia.
Qed.

Definition cont_frame (id : Z) (pe : bytes * bool) : Frame :=
  ContinuationFrame (mkHeader FrameContinuation (flag (snd pe) FlagEndHeaders) (sizeZ (fst pe)) id) (fst pe).

Lemma write_frame_ok t fl id p : sizeZ p < 2 ^ 24 → ∃ w, write_frame t fl id p = inl w ∧ w ≠ [] ∧ sizeZ w = 9 + sizeZ p.
Proof.
  intros Hp. unfold write_frame. unfold sizeZ in *. destruct (Z.leb_spec (2 ^ 24) (Z.of_nat (length p))) as [|_]; [lia|].
  eexists. split; [done|]. split; [done|]. rewrite !length_app. cbn [length]. unfold PutUint32. cbn [length]. lia.
Qed.

Lemma write_continuations_carries id ps : 0 < id < 2 ^ 31 → pieces ps →
  ∃ w, write_continuations id ps = inl w ∧ carries w (map (cont_frame id) ps) ∧ 9 ≤ sizeZ w.
Proof.
  intros Hid Hps. assert (∀ p e ps', sizeZ p ≤ http2MaxFrameLen → (ps' = [] ∨ ∃ w, write_continuations id ps' = inl w ∧ carries w (map (cont_frame id) ps') ∧ 9 ≤ sizeZ w) →
    ∃ w, write_continuations id ((p, e) :: ps') = inl w ∧ carries w (map (cont_frame id) ((p, e) :: ps')) ∧ 9 ≤ sizeZ w) as Hstep.
  { intros p e ps' Hp H. cbn [write_continuations map]. unfold http2MaxFrameLen in Hp.
    destruct (write_frame_ok FrameContinuation (flag e FlagEndHeaders) id p) as (w & Hw & Hne & Hl); [lia|].
    assert (WriteContinuation id e p = inl w) as HW by (unfold WriteContinuation; by rewrite valid_id_intro by done).
    rewrite HW. cbn [rbind]. pose proof (sizeZ_nonneg p) as Hp0.
    assert (∃ ws, write_continuations id ps' = inl ws ∧ carries ws (map (cont_frame id) ps') ∧ 0 ≤ sizeZ ws) as (ws & -> & Hc & Hs0).
    { destruct H as [->|(ws & ? & ? & ?)]; [exists []; split_and!; [done|apply carries_nil|done]|exists ws; by split_and!; [..|lia]]. }
    cbn [rbind]. eexists. split; [done|]. split; [|rewrite sizeZ_app; lia]. constructor; [done| |done].
    intros rest. by apply read_continuation; [lia|]. }
  induction Hps as [p Hp|p ps Hp _ IH]; apply Hstep; [done|by left|by rewrite Hp|by right].
Qed.

(** What [writeHeaders] writes, and how long it is. *)
Lemma writeHeaders_carries id b es : 0 < id < 2 ^ 31 → b ≠ [] →
  ∃ w fh p eh ps, writeHeaders id b es = inl w ∧ concat (p :: map fst ps) = b ∧
    carries w (HeadersFrame fh (mkPriority 0 false 0) p :: map (cont_frame id) ps) ∧
    StreamID fh = id ∧ Has (Flags fh) FlagEndStream = es ∧ Has (Flags fh) FlagEndHeaders = eh ∧
    (if eh then ps = [] ∧ sizeZ w ≤ 9 + http2MaxFrameLen else pieces ps ∧ 9 + http2MaxFrameLen < sizeZ w).
Proof.
  intros Hid Hb. unfold writeHeaders. pose proof (cut_concat (length b) b) as Hc. pose proof (cut_pieces (length b) b ltac:(lia)) as Hp.
  revert Hc Hp. generalize (cut (length b) b). intros c Hc Hp.
  assert (∀ p eh, p ≠ [] → sizeZ p ≤ http2MaxFrameLen → ∃ w fh, WriteHeaders (mkHeadersParam id p es eh 0 (mkPriority 0 false 0)) = inl w ∧
    w ≠ [] ∧ sizeZ w = 9 + sizeZ p ∧ (∀ rest, ReadFrame maxFrameSize (w ++ rest) = Ok (inl (HeadersFrame fh (mkPriority 0 false 0) p, rest))) ∧
    StreamID fh = id ∧ Has (Flags fh) FlagEndStream = es ∧ Has (Flags fh) FlagEndHeaders = eh) as Hfirst.
  { intros p eh Hne Hsz. unfold http2MaxFrameLen in Hsz.
    set (hp := mkHeadersParam id p es eh 0 (mkPriority 0 false 0)).
    assert (∃ fl, WriteHeaders hp = write_frame FrameHeaders fl id p) as [fl HW].
    { unfold WriteHeaders. cbn [hp_StreamID hp Priority PadLength BlockFragment]. rewrite valid_id_intro by done. cbn [negb IsZero StreamDep Exclusive Weight Z.eqb andb].
      eexists. unfold pad_byte, padZeros. cbn [Z.eqb Z.to_nat replicate app]. by rewrite app_nil_r. }
    destruct (write_frame_ok FrameHeaders fl id p) as (w & Hw & Hwn & Hl); [lia|]. rewrite <- HW in Hw.
    destruct (read_headers hp w) as (fh & Hr & Hsid & Hes & Heh); cbn [hp hp_StreamID PadLength Priority StreamDep Weight BlockFragment]; [lia..|done|done|].
    exists w, fh. by split_and!. }
  destruct Hp as [p Hsz|p ps Hsz Hps]; cbn [map fst concat] in Hc.
  - rewrite app_nil_r in Hc. subst p. destruct (Hfirst b true Hb Hsz) as (w & fh & -> & Hwn & Hl & Hr & ? & ? & ?). cbn [rbind write_continuations].
    exists (w ++ []), fh, b, true, []. rewrite app_nil_r. cbn [map concat]. rewrite app_nil_r. split_and!; [done..| |done|done|done|done|lia].
    rewrite <- (app_nil_r w). constructor; [done..|constructor].
  - destruct (Hfirst p false) as (w & fh & -> & Hwn & Hl & Hr & ? & ? & ?); [by intros ->|by rewrite Hsz|]. cbn [rbind].
    destruct (write_continuations_carries id ps Hid Hps) as (ws & -> & Hcs & H9). cbn [rbind].
    exists (w ++ ws), fh, p, false, ps. split_and!; [done|done|by constructor|done..|]. rewrite sizeZ_app. lia.
Qed.

(** ** The server *)

(** A new stream whose headers were read. *)
Definition opened (id : Z) (rd : bool) (st : decodeState) : serverStream :=
  mkServerStream id rd (method st) (if timeoutSet st then Some (timeout st) else None) (mdata st).

Definition accepts (t : http2Server) : Prop := reachable t = true ∧ uint32 (Z.of_nat (base.size (activeStreams t))) < maxStreams t.

Definition with_stream (s : serverStream) (d : Decoder) (t : http2Server) : http2Server :=
  mkServer true (maxStreamID t) (maxStreams t) (<[ss_id s := s]> (activeStreams t)) (mkHpackDecoder d empty_state) None.

Lemma flag_has e : Has (flag e FlagEndHeaders) FlagEndHeaders = e.
Proof. by destruct e. Qed.

Lemma server_last s p d1 fs st es t : accepts t → Decoder_Write p (hd_h (sv_dec t)) = Ok (d1, fs, None) →
  emit_all (hd_state (sv_dec t), None) fs = Ok (st, None) → saveBuf d1 = [] →
  server_operateHeaders (Some s) (mkHeaderFrame p true) es t =
    let s' := opened (ss_id s) (readDone s || es) st in Ok (with_stream s' d1 t, [Handle s']).
Proof.
  intros [Hr Ha] Hw He Hs. unfold server_operateHeaders. rewrite (decode_ok p true (sv_dec t) d1 fs st) by done.
  cbn [mbind outcome_bind negb]. rewrite Hr. cbn [negb hd_state hd_reset hd_h]. destruct (Z.leb_spec (maxStreams t) (uint32 (Z.of_nat (base.size (activeStreams t))))); [lia|].
  unfold with_stream, opened, hd_reset. by destruct es; cbn [ss_id readDone hd_h]; rewrite ?orb_true_r, ?orb_false_r.
Qed.

Lemma server_more s p d1 fs st t : Decoder_Write p (hd_h (sv_dec t)) = Ok (d1, fs, None) →
  emit_all (hd_state (sv_dec t), None) fs = Ok (st, None) →
  server_operateHeaders (Some s) (mkHeaderFrame p false) false t =
    Ok (mkServer (reachable t) (maxStreamID t) (maxStreams t) (activeStreams t) (mkHpackDecoder d1 st) (Some s), []).
Proof. intros Hw He. unfold server_operateHeaders. by rewrite (decode_ok p false (sv_dec t) d1 fs st). Qed.

Lemma server_cont id p e t evs : server_step (cont_frame id (p, e)) (t, evs) =
  ('(t, es) ← server_operateHeaders (curStream t) (mkHeaderFrame p e) e t; Ok (t, evs ++ es)).
Proof. unfold server_step, cont_frame, server_frame. cbn [fst snd Flags]. cbv zeta. by rewrite flag_has. Qed.

Lemma server_head fh pr p es eh t evs : StreamID fh mod 2 = 1 → maxStreamID t < StreamID fh →
  Has (Flags fh) FlagEndStream = es → Has (Flags fh) FlagEndHeaders = eh →
  server_step (HeadersFrame fh pr p) (t, evs) =
  ('(t, es) ← server_operateHeaders (Some (mkServerStream (StreamID fh) false [] None ∅)) (mkHeaderFrame p eh) es
     (mkServer (reachable t) (StreamID fh) (maxStreams t) (activeStreams t) (sv_dec t) (curStream t)); Ok (t, evs ++ es)).
Proof.
  intros Hodd Hmax <- <-. unfold server_step, server_frame. cbn [fst snd]. cbv zeta. rewrite Hodd. cbn [Z.eqb Pos.eqb negb orb].
  by rewrite (proj2 (Z.leb_gt _ _)) by lia.
Qed.

Lemma server_continuations id ps t s evs fs st d' : pieces ps → accepts t → curStream t = Some s →
  writes (map fst ps) (hd_h (sv_dec t)) = Ok (d', fs, None) → emit_all (hd_state (sv_dec t), None) fs = Ok (st, None) → saveBuf d' = [] →
  feed server_step (map (cont_frame id) ps) (t, evs) =
    let s' := opened (ss_id s) true st in Ok (with_stream s' d' t, evs ++ [Handle s']).
Proof.
  intros Hp. revert t fs. induction Hp as [p Hsz|p ps Hsz Hps IH]; intros t fs Ha Hc Hw He Hs; cbn [map] in Hw |- *.
  - apply writes_cons in Hw as (d1 & fs1 & fs2 & Hw & H2 & ->). cbn [writes] in H2. injection H2 as <- <-. rewrite app_nil_r in He.
    cbn [feed]. rewrite server_cont, Hc.
    rewrite (server_last s p d1 fs1 st) by done. cbn [mbind outcome_bind]. by rewrite orb_true_r.
  - apply writes_cons in Hw as (d1 & fs1 & fs2 & Hw & H2 & ->). apply emit_all_app in He as (st1 & He1 & He2).
    cbn [feed]. rewrite server_cont, Hc.
    rewrite (server_more s p d1 fs1 st1) by done. cbn [mbind outcome_bind]. rewrite app_nil_r.
    by rewrite (IH _ fs2).
Qed.

(** The headers of a request, whose block is [b]. *)
Lemma server_block t id b fs st d' :
  accepts t → 0 < id < 2 ^ 31 → id mod 2 = 1 → maxStreamID t < id → hd_state (sv_dec t) = empty_state →
  plain (hd_h (sv_dec t)) → b ≠ [] → reads_as b (hd_h (sv_dec t)) fs d' → emit_all (empty_state, None) fs = Ok (st, None) →
  ∃ w frs, writeHeaders id b false = inl w ∧ carries w frs ∧
    let s := opened id (bool_decide (9 + http2MaxFrameLen < sizeZ w)) st in
    ∀ evs, feed server_step frs (t, evs) =
      Ok (mkServer true id (maxStreams t) (<[id := s]> (activeStreams t)) (mkHpackDecoder d' empty_state) None, evs ++ [Handle s]).
Proof.
  intros Ha Hid Hodd Hmax Hst Hpl Hb Hr He. destruct (writeHeaders_carries id b false Hid Hb) as (w & fh & p & eh & ps & Hw & Hcat & Hc & Hsid & Hes & Heh & Hend).
  exists w, (HeadersFrame fh (mkPriority 0 false 0) p :: map (cont_frame id) ps). split; [done|]. split; [done|]. cbv zeta. intros evs.
  pose proof (reads_writes b _ fs d' (p :: map fst ps) Hpl Hr Hcat) as Hws. apply writes_cons in Hws as (d1 & fs1 & fs2 & Hw1 & Hw2 & ->).
  apply emit_all_app in He as (st1 & He1 & He2). destruct Hr as [_ (_ & _ & Hsave)].
  cbn [feed]. rewrite (server_head fh _ p false eh), Hsid by (by rewrite ?Hsid). set (t0 := mkServer _ id _ _ _ _). assert (accepts t0) as Ha0 by done.
  assert (Decoder_Write p (hd_h (sv_dec t0)) = Ok (d1, fs1, None)) as Hw0 by done.
  assert (emit_all (hd_state (sv_dec t0), None) fs1 = Ok (st1, None)) as He0 by (cbn [sv_dec t0]; by rewrite Hst).
  destruct eh.
  - destruct Hend as [-> Hl]. cbn [map writes] in Hw2. injection Hw2 as -> <-. cbn [emit_all] in He2. injection He2 as ->.
    rewrite (server_last _ p d' fs1 st) by done. cbn [mbind outcome_bind feed map]. rewrite bool_decide_false by lia. done.
  - destruct Hend as [Hps Hl]. rewrite (server_more _ p d1 fs1 st1) by done. cbn [mbind outcome_bind]. rewrite app_nil_r.
    rewrite bool_decide_true by done.
    by rewrite (server_continuations id ps _ (mkServerStream id false [] None ∅) evs fs2 st d').
Qed.

(** ** The client *)

Definition with_headers (id : Z) (st : decodeState) (endStream : bool) (d : Decoder) (t : http2Client) : http2Client :=
  mkClient (alter (take_headers st endStream) id (cl_streams t)) (active t) (mkHpackDecoder d empty_state) None.

Lemma client_last id p d1 fs st es t : Decoder_Write p (hd_h (cl_dec t)) = Ok (d1, fs, None) →
  emit_all (hd_state (cl_dec t), None) fs = Ok (st, None) → saveBuf d1 = [] →
  client_operateHeaders (Some id) (mkHeaderFrame p true) es t = Ok (with_headers id st es d1 t).
Proof. intros Hw He Hs. unfold client_operateHeaders. by rewrite (decode_ok p true (cl_dec t) d1 fs st). Qed.

Lemma client_more id p d1 fs st es t : Decoder_Write p (hd_h (cl_dec t)) = Ok (d1, fs, None) →
  emit_all (hd_state (cl_dec t), None) fs = Ok (st, None) →
  client_operateHeaders (Some id) (mkHeaderFrame p false) es t =
    Ok (mkClient (cl_streams t) (active t) (mkHpackDecoder d1 st) (Some id)).
Proof. intros Hw He. unfold client_operateHeaders. by rewrite (decode_ok p false (cl_dec t) d1 fs st). Qed.

Lemma client_cont id p e t : client_frame (cont_frame id (p, e)) t = client_operateHeaders (cl_cur t) (mkHeaderFrame p e) e t.
Proof. unfold cont_frame, client_frame. cbn [fst snd Flags]. cbv zeta. by rewrite flag_has. Qed.

Lemma client_continuations id ps t fs st d' : pieces ps → cl_cur t = Some id →
  writes (map fst ps) (hd_h (cl_dec t)) = Ok (d', fs, None) → emit_all (hd_state (cl_dec t), None) fs = Ok (st, None) → saveBuf d' = [] →
  feed client_frame (map (cont_frame id) ps) t = Ok (with_headers id st true d' t).
Proof.
  intros Hp. revert t fs. induction Hp as [p Hsz|p ps Hsz Hps IH]; intros t fs Hc Hw He Hs; cbn [map] in Hw |- *.
  - apply writes_cons in Hw as (d1 & fs1 & fs2 & Hw & H2 & ->). cbn [writes] in H2. injection H2 as <- <-. rewrite app_nil_r in He.
    cbn [feed]. rewrite client_cont, Hc. by rewrite (client_last id p d1 fs1 st).
  - apply writes_cons in Hw as (d1 & fs1 & fs2 & Hw & H2 & ->). apply emit_all_app in He as (st1 & He1 & He2).
    cbn [feed]. rewrite client_cont, Hc. rewrite (client_more id p d1 fs1 st1) by done. cbn [mbind outcome_bind].
    by rewrite (IH _ fs2).
Qed.

(** The headers of a stream that is active; more than one frame ends the stream. *)
Lemma client_block t id b es fs st d' :
  0 < id < 2 ^ 31 → id ∈ active t → hd_state (cl_dec t) = empty_state →
  plain (hd_h (cl_dec t)) → b ≠ [] → reads_as b (hd_h (cl_dec t)) fs d' → emit_all (empty_state, None) fs = Ok (st, None) →
  ∃ w frs, writeHeaders id b es = inl w ∧ carries w frs ∧
    feed client_frame frs t = Ok (with_headers id st (es || bool_decide (9 + http2MaxFrameLen < sizeZ w)) d' t).
Proof.
  intros Hid Hact Hst Hpl Hb Hr He. destruct (writeHeaders_carries id b es Hid Hb) as (w & fh & p & eh & ps & Hw & Hcat & Hc & Hsid & Hes & Heh & Hend).
  exists w, (HeadersFrame fh (mkPriority 0 false 0) p :: map (cont_frame id) ps). split; [done|]. split; [done|].
  pose proof (reads_writes b _ fs d' (p :: map fst ps) Hpl Hr Hcat) as Hws. apply writes_cons in Hws as (d1 & fs1 & fs2 & Hw1 & Hw2 & ->).
  apply emit_all_app in He as (st1 & He1 & He2). destruct Hr as [_ (_ & _ & Hsave)]. rewrite <- Hst in He1.
  cbn [feed client_frame]. rewrite Hsid, Hes, Heh, bool_decide_true by done. destruct eh.
  - destruct Hend as [-> Hl]. cbn [map writes] in Hw2. injection Hw2 as -> <-. cbn [emit_all] in He2. injection He2 as ->.
    rewrite (client_last id p d' fs1 st) by done. cbn [mbind outcome_bind feed map]. rewrite bool_decide_false by lia. by rewrite orb_false_r.
  - destruct Hend as [Hps Hl]. rewrite (client_more id p d1 fs1 st1) by done. cbn [mbind outcome_bind].
    rewrite bool_decide_true by done. rewrite orb_true_r. by rewrite (client_continuations id ps _ fs2 st d').
Qed.

(** ** Requests *)

Lemma emit_pseudo n v s : head (to_bytes n) = Some ":"%char → n ≠ ":path" → emit (s, None) (header n v) = Ok (s, None).
Proof.
  intros Hc Hn. unfold emit. cbn [hf_Name hf_Value header].
  assert (∀ m, m ≠ n → is_name (to_bytes n) m = false) as H.
  { intros m Hm. apply is_name_false. intros E%to_bytes_inj. by subst. }
  assert (∀ m, head (to_bytes m) ≠ Some ":"%char → is_name (to_bytes n) m = false) as H'.
  { intros m Hm. apply H. by intros ->. }
  rewrite !H' by done. rewrite H by done. unfold isReservedHeader. destruct (to_bytes n) as [|c k]; [done|].
  injection Hc as ->. done.
Qed.

Lemma emit_te s : emit (s, None) (pair "te" "trailers") = Ok (s, None).
Proof. by vm_compute. Qed.
Lemma emit_content_type s : emit (s, None) (pair "content-type" "application/grpc") = Ok (s, None).
Proof. by vm_compute. Qed.

Lemma before_last_space_app a b : before_last_space b = None → before_last_space (a ++ " "%char :: b) = Some a.
Proof.
  intros Hb. induction a as [|c a IH]; cbn [app before_last_space]; [by rewrite Hb|by rewrite IH].
Qed.

(** The entry that the server has for the user agent of the application. *)
Definition ua_md (ua : bytes) : gmap bytes (list bytes) := if (length ua =? 0)%nat then ∅ else md_add ∅ (to_bytes "user-agent", ua).

Lemma emit_user_agent s ua : mdata s = ∅ → emit (s, None) (header "user-agent" (user_agent ua)) = Ok (set_mdata (ua_md ua) s, None).
Proof.
  intros Hm. unfold emit. cbn [hf_Name hf_Value header]. rewrite !is_name_false by (intros E%to_bytes_inj; done).
  assert (isReservedHeader (to_bytes "user-agent") = Ok false) as -> by (by vm_compute). cbn [mbind outcome_bind].
  unfold is_name. rewrite bool_decide_eq_true_2 by done. unfold user_agent, ua_md. destruct (length ua =? 0)%nat.
  - change (before_last_space primaryUA) with (@None bytes). destruct s as [? ? ? ? ? m]. cbn [mdata] in Hm. by rewrite Hm.
  - rewrite before_last_space_app by (by vm_compute). unfold add_metadata.
    assert (∀ v, DecodeKeyValue (to_bytes "user-agent") v = Some (to_bytes "user-agent", v)) as -> by (intros v; by vm_compute).
    by rewrite Hm.
Qed.

Lemma emit_path s v : emit (s, None) (header ":path" v) = Ok (mkState (statusCode s) (statusDesc s) (timeoutSet s) (timeout s) v (mdata s), None).
Proof. unfold emit. cbn [hf_Name hf_Value header]. rewrite !is_name_false by (intros E%to_bytes_inj; done). unfold is_name. by rewrite bool_decide_eq_true_2. Qed.

Lemma emit_timeout s v t : timeoutDecode v = Ok t →
  emit (s, None) (header "grpc-timeout" v) = Ok (mkState (statusCode s) (statusDesc s) true t (method s) (mdata s), None).
Proof.
  intros H. unfold emit. cbn [hf_Name hf_Value header]. rewrite !is_name_false by (intros E%to_bytes_inj; done).
  unfold is_name. rewrite bool_decide_eq_true_2 by done. by rewrite H.
Qed.

(** What the server reads of a timeout; zero stands for none. *)
Definition received_timeout (t : Z) : option Z :=
  if 0 <? t then match timeoutDecode (timeoutEncode t) with Ok t => Some t | _ => None end else None.

Lemma emit_request scheme ua t hdr md : Forall pair_ok md → t < 2 ^ 63 →
  ∃ st, emit_all (empty_state, None) (request_fields scheme ua t hdr (map encode_pair md)) = Ok (st, None) ∧
    method st = Method hdr ∧ (if timeoutSet st then Some (timeout st) else None) = received_timeout t ∧
    mdata st = received_md (ua_md ua) (map peer_pair md).
Proof.
  intros Hmd Ht. unfold request_fields. cbn [app emit_all].
  change (pair ":method" "POST") with (header ":method" (to_bytes "POST")). rewrite emit_pseudo by done. cbn [mbind outcome_bind]. rewrite emit_pseudo by done. cbn [mbind outcome_bind].
  rewrite emit_path. cbn [mbind outcome_bind]. rewrite emit_pseudo by done. cbn [mbind outcome_bind].
  rewrite emit_content_type. cbn [mbind outcome_bind]. rewrite emit_user_agent by done. cbn [mbind outcome_bind].
  rewrite emit_te. cbn [mbind outcome_bind]. unfold received_timeout, md_fields. destruct (Z.ltb_spec 0 t).
  - rewrite timeout_decodes by lia. cbn [app emit_all]. rewrite (emit_timeout _ _ _ (timeout_decodes t ltac:(lia))). cbn [mbind outcome_bind].
    rewrite emit_all_entries by done. eexists. split; [done|]. by split_and!.
  - rewrite app_nil_l, emit_all_entries by done. eexists. split; [done|]. by split_and!.
Qed.

Record request := mkRequest { rq_hdr : CallHdr; rq_timeout : Z; rq_md : list (bytes * bytes) }.

(** The fields of a request, from the pairs of the application. *)
Definition rq_fields (scheme ua : bytes) (r : request) : list HeaderField :=
  request_fields scheme ua (rq_timeout r) (rq_hdr r) (map encode_pair (rq_md r)).

Definition request_ok (scheme ua : bytes) (r : request) : Prop :=
  rq_timeout r < 2 ^ 63 ∧ Forall pair_ok (rq_md r) ∧ Forall small_field (rq_fields scheme ua r).

(** The headers of several calls of [NewStream], from the stream [id] on. *)
Fixpoint NewStreams (id : Z) (scheme ua : bytes) (rs : list request) (e : Encoder) : outcome (result bytes * Encoder) :=
  match rs with
  | [] => Ok (inl [], e)
  | r :: rs =>
      '(w, e) ← NewStream_headers id scheme ua (rq_timeout r) (rq_hdr r) (map encode_pair (rq_md r)) e;
      '(ws, e) ← NewStreams (id + 2) scheme ua rs e;
      Ok (rbind w (fun w => rbind ws (fun ws => inl (w ++ ws))), e)
  end.

(** The streams that the server makes of them. *)
Fixpoint handled (ua : bytes) (id : Z) (rs : list request) (ss : list serverStream) : Prop :=
  match rs, ss with
  | [], [] => True
  | r :: rs, s :: ss =>
      ss_id s = id ∧ ss_method s = Method (rq_hdr r) ∧ ss_timeout s = received_timeout (rq_timeout r) ∧
      ss_md s = received_md (ua_md ua) (map peer_pair (rq_md r)) ∧ handled ua (id + 2) rs ss
  | _, _ => False
  end.

Lemma one_request scheme ua r id e t :
  in_sync 4096 e (hd_h (sv_dec t)) → hd_state (sv_dec t) = empty_state → accepts t → 0 < id < 2 ^ 31 → id mod 2 = 1 →
  maxStreamID t < id → request_ok scheme ua r →
  ∃ w e' d' frs s, NewStream_headers id scheme ua (rq_timeout r) (rq_hdr r) (map encode_pair (rq_md r)) e = Ok (inl w, e') ∧
    carries w frs ∧ in_sync 4096 e' d' ∧ handled ua id [r] [s] ∧
    ∀ evs, feed server_step frs (t, evs) =
      Ok (mkServer true id (maxStreams t) (<[id := s]> (activeStreams t)) (mkHpackDecoder d' empty_state) None, evs ++ [Handle s]).
Proof.
  intros Hs Hst Ha Hid Hodd Hmax (Ht & Hmd & Hsm). unfold NewStream_headers.
  destruct (fields_sync 4096 _ e _ Hs Hsm) as (b & e' & d' & Hb & Hr & Hs').
  unfold rq_fields in Hb, Hr. rewrite Hb. cbn [mbind outcome_bind].
  destruct (emit_request scheme ua _ (rq_hdr r) _ Hmd Ht) as (st & He & Hm & Htm & Hmda).
  destruct (server_block t id b _ st d' Ha Hid Hodd Hmax Hst (sy_plain _ _ _ Hs) (reads_nonempty _ _ _ _ _ Hr) Hr He) as (w & frs & -> & Hc & Hf).
  exists w, e', d', frs. eexists. split; [done|]. split; [done|]. split; [done|]. split; [|exact Hf].
  cbn [handled opened ss_id ss_method ss_timeout ss_md]. by split_and!.
Qed.

Lemma requests_run scheme ua rs : Forall (request_ok scheme ua) rs → ∀ id e t,
  in_sync 4096 e (hd_h (sv_dec t)) → hd_state (sv_dec t) = empty_state → reachable t = true →
  0 < id → id + 2 * Z.of_nat (length rs) ≤ 2 ^ 31 → id mod 2 = 1 → maxStreamID t < id →
  Z.of_nat (base.size (activeStreams t)) + Z.of_nat (length rs) ≤ maxStreams t < 2 ^ 32 →
  ∃ w e' t' frs ss, NewStreams id scheme ua rs e = Ok (inl w, e') ∧ carries w frs ∧
    (∀ evs, feed server_step frs (t, evs) = Ok (t', evs ++ map Handle ss)) ∧ handled ua id rs ss ∧
    activeStreams t' = foldl (fun m s => <[ss_id s := s]> m) (activeStreams t) ss ∧
    in_sync 4096 e' (hd_h (sv_dec t')) ∧ hd_state (sv_dec t') = empty_state.
Proof.
  induction 1 as [|r rs Hr _ IH]; intros id e t Hs Hst Hre H0 Hid Hodd Hmax Hsz.
  - exists [], e, t, [], []. cbn [NewStreams handled feed map foldl]. split_and!; try done; [constructor|]. intros evs. by rewrite app_nil_r.
  - cbn [length] in *. destruct (one_request scheme ua r id e t Hs Hst) as (w & e1 & d1 & frs & s & E1 & Hc & Hs1 & Hh & Hf); [|lia|done..|].
    { split; [done|]. rewrite uint32_id by lia. lia. }
    assert (base.size (<[id := s]> (activeStreams t)) ≤ Datatypes.S (base.size (activeStreams t)))%nat as Hle.
    { rewrite map_size_insert. destruct (_ !! id); simpl; lia. }
    destruct (IH (id + 2) e1 (mkServer true id (maxStreams t) (<[id := s]> (activeStreams t)) (mkHpackDecoder d1 empty_state) None))
      as (ws & e2 & t2 & frs2 & ss & E2 & Hc2 & Hf2 & Hh2 & Hact & Hs2 & Hst2); cbn [sv_dec hd_h hd_state reachable maxStreamID maxStreams activeStreams]; try done; try lia.
    { rewrite <- Hodd. replace (id + 2) with (id + 1 * 2) by lia. apply Z.mod_add. lia. }
    exists (w ++ ws), e2, t2, (frs ++ frs2), (s :: ss). cbn [NewStreams]. rewrite E1. cbn [mbind outcome_bind]. rewrite E2.
    cbn [handled] in *. destruct Hh as (Hi & ? & ? & ? & _). split_and!; try done; [by apply carries_app| |by rewrite Hact, <- Hi].
    intros evs. rewrite feed_app, Hf. cbn [mbind outcome_bind]. rewrite Hf2, <- app_assoc. done.
Qed.


(** ** Responses *)

Lemma client_fields t id es f fs st e :
  in_sync 4096 e (hd_h (cl_dec t)) → hd_state (cl_dec t) = empty_state → 0 < id < 2 ^ 31 → id ∈ active t →
  Forall small_field (f :: fs) → emit_all (empty_state, None) (f :: fs) = Ok (st, None) →
  ∃ b e' d' w frs, write_fields (f :: fs) e = Ok (b, e') ∧ writeHeaders id b es = inl w ∧ carries w frs ∧ in_sync 4096 e' d' ∧
    feed client_frame frs t = Ok (with_headers id st (es || bool_decide (9 + http2MaxFrameLen < sizeZ w)) d' t).
Proof.
  intros Hs Hst Hid Hact Hsm He. destruct (fields_sync 4096 _ e _ Hs Hsm) as (b & e' & d' & Hb & Hr & Hs').
  destruct (client_block t id b es _ st d' Hid Hact Hst (sy_plain _ _ _ Hs) (reads_nonempty _ _ _ _ _ Hr) Hr He) as (w & frs & Hw & Hc & Hf).
  by exists b, e', d', w, frs.
Qed.

Lemma emit_status s code : 0 ≤ code < 2 ^ 32 →
  emit (s, None) (header "grpc-status" (FormatInt code)) =
    Ok (mkState code (statusDesc s) (timeoutSet s) (timeout s) (method s) (mdata s), None).
Proof.
  intros Hc. unfold emit. cbn [hf_Name hf_Value header]. rewrite !is_name_false by (intros E%to_bytes_inj; done).
  unfold is_name. rewrite bool_decide_eq_true_2 by done. rewrite ParseInt_FormatInt by (unfold is_int64; lia). by rewrite uint32_id.
Qed.

Lemma emit_message s v : emit (s, None) (header "grpc-message" v) =
  Ok (mkState (statusCode s) v (timeoutSet s) (timeout s) (method s) (mdata s), None).
Proof.
  unfold emit. cbn [hf_Name hf_Value header]. rewrite !is_name_false by (intros E%to_bytes_inj; done).
  unfold is_name. by rewrite bool_decide_eq_true_2.
Qed.

Lemma emit_response s fs : emit_all (s, None) (response_fields ++ fs) = emit_all (s, None) fs.
Proof.
  unfold response_fields. cbn [app emit_all]. change (pair ":status" "200") with (header ":status" (to_bytes "200")).
  rewrite emit_pseudo by done. cbn [mbind outcome_bind]. by rewrite emit_content_type.
Qed.

Lemma emit_status_fields h dn md code desc : 0 ≤ code < 2 ^ 32 → Forall pair_ok md →
  emit_all (empty_state, None) (status_fields (mkOut h dn (map encode_pair md)) code desc) =
    Ok (mkState code desc false 0 [] (received_md ∅ (map peer_pair md)), None).
Proof.
  intros Hc Hmd. unfold status_fields. cbn [headerOk trailer].
  assert (∀ st (fs : list HeaderField), emit_all (st, None) ((if h then [] else response_fields) ++ fs) = emit_all (st, None) fs) as ->.
  { intros st fs. destruct h; [done|apply emit_response]. }
  cbn [app emit_all]. rewrite emit_status by done. cbn [mbind outcome_bind]. rewrite emit_message. cbn [mbind outcome_bind].
  unfold md_fields. by rewrite emit_all_entries.
Qed.

(** The state of a client in the middle of a connection, with the stream [id] at [cs]. *)
Record expects (e : Encoder) (t : http2Client) (id : Z) (cs : clientStream) : Prop := {
  ex_sync : in_sync 4096 e (hd_h (cl_dec t));
  ex_state : hd_state (cl_dec t) = empty_state;
  ex_id : 0 < id < 2 ^ 31;
  ex_active : id ∈ active t;
  ex_stream : cl_streams t !! id = Some cs
}.

Definition status_ok (h : bool) (tmd : list (bytes * bytes)) (code : Z) (desc : bytes) : Prop :=
  0 ≤ code < 2 ^ 32 ∧ Forall pair_ok tmd ∧ Forall small_field (status_fields (mkOut h false (map encode_pair tmd)) code desc).

Lemma with_headers_expects e' id st es d' t cs e : expects e t id cs → in_sync 4096 e' d' →
  expects e' (with_headers id st es d' t) id (take_headers st es cs).
Proof. intros [] Hs. split; try done. cbn [with_headers cl_streams]. rewrite lookup_alter_eq. by rewrite ex_stream0. Qed.

Lemma status_run h tmd code desc id e t cs : expects e t id cs → status_ok h tmd code desc →
  ∃ w e' d' frs, WriteStatus id code desc (mkOut h false (map encode_pair tmd)) e = Ok (inl w, mkOut h true (map encode_pair tmd), e') ∧
    carries w frs ∧ in_sync 4096 e' d' ∧
    feed client_frame frs t = Ok (with_headers id (mkState code desc false 0 [] (received_md ∅ (map peer_pair tmd))) true d' t).
Proof.
  intros [Hs Hst Hid Hact Hcs] (Hc & Hmd & Hsm). pose proof (emit_status_fields h false tmd code desc Hc Hmd) as He.
  unfold WriteStatus. cbn [streamDone headerOk trailer]. destruct (status_fields _ code desc) as [|f fs] eqn:Ef; [by destruct h|].
  destruct (client_fields t id true f fs _ e Hs Hst Hid Hact Hsm He) as (b & e' & d' & w & frs & -> & Hw & Hca & Hs' & Hf).
  cbn [mbind outcome_bind]. rewrite Hw. by exists w, e', d', frs.
Qed.

(** The metadata that a stream keeps is the new one unless it is empty. *)
Definition kept (old new : gmap bytes (list bytes)) : gmap bytes (list bytes) := if bool_decide (new = ∅) then old else new.

(** The status with which the server ends a call is the one that the client has when the
    stream ends: code, description and trailer, whether or not headers were sent before
    and however long the trailer is; the client's reader is told the end, once, after all
    that has arrived before, and no other stream is touched. *)
Theorem status_received (h : bool) (tmd : list (bytes * bytes)) (code : Z) (desc : bytes) (id : Z) (e : Encoder) (t : http2Client) (cs : clientStream) :
  expects e t id cs → cs_done cs = false → status_ok h tmd code desc →
  ∃ w e' t' cs', WriteStatus id code desc (mkOut h false (map encode_pair tmd)) e = Ok (inl w, mkOut h true (map encode_pair tmd), e') ∧
    client_loop w t = Ok t' ∧ expects e' t' id cs' ∧ (∀ j, j ≠ id → cl_streams t' !! j = cl_streams t !! j) ∧
    cs_done cs' = true ∧ cs_code cs' = code ∧ cs_desc cs' = desc ∧ headerDone cs' = true ∧ cs_header cs' = cs_header cs ∧
    cs_trailer cs' = kept (cs_trailer cs) (received_md ∅ (map peer_pair tmd)) ∧
    queued (cs_buf cs') = queued (cs_buf cs) ++ [RErr EOF].
Proof.
  intros Hex Hd Hok. destruct (status_run h tmd code desc id e t cs Hex Hok) as (w & e' & d' & frs & -> & Hc & Hs & Hf).
  exists w, e'. eexists _, _. split; [done|]. split; [unfold client_loop; by rewrite (conn_loop_carries _ _ _ _ _ Hc), Hf by lia|].
  split; [by apply with_headers_expects with e|]. split; [intros j Hj; by apply lookup_alter_ne|].
  unfold take_headers. cbn [negb orb]. destruct (headerDone cs) eqn:Eh; cbn [cs_done]; rewrite Hd; unfold stream_write;
    cbn [cs_done cs_code cs_desc headerDone cs_header cs_trailer cs_buf mdata statusCode statusDesc]; by rewrite put_queued.
Qed.

Definition header_ok (hmd : list (bytes * bytes)) : Prop :=
  Forall pair_ok hmd ∧ Forall small_field (response_fields ++ md_fields (map encode_pair hmd)).

Lemma header_run hmd tr id e t cs : expects e t id cs → header_ok hmd →
  ∃ w e' d' frs, WriteHeader id (map encode_pair hmd) (mkOut false false tr) e = Ok (inl w, mkOut true false tr, e') ∧
    carries w frs ∧ in_sync 4096 e' d' ∧
    feed client_frame frs t = Ok (with_headers id (set_mdata (received_md ∅ (map peer_pair hmd)) empty_state) (bool_decide (9 + http2MaxFrameLen < sizeZ w)) d' t).
Proof.
  intros [Hs Hst Hid Hact Hcs] (Hmd & Hsm). unfold WriteHeader. cbn [streamDone headerOk trailer orb].
  assert (emit_all (empty_state, None) (response_fields ++ md_fields (map encode_pair hmd)) =
    Ok (set_mdata (received_md ∅ (map peer_pair hmd)) empty_state, None)) as He by (rewrite emit_response; by apply emit_all_entries).
  destruct (response_fields ++ md_fields _) as [|f fs] eqn:Ef; [done|].
  destruct (client_fields t id false f fs _ e Hs Hst Hid Hact Hsm He) as (b & e' & d' & w & frs & -> & Hw & Hca & Hs' & Hf).
  cbn [mbind outcome_bind]. rewrite Hw. by exists w, e', d', frs.
Qed.

Lemma kept_empty m : (if bool_decide (m = ∅) then ∅ else m) = (m : gmap bytes (list bytes)).
Proof. destruct (bool_decide_reflect (m = ∅)) as [->|]; done. Qed.

(** C19: headers that the server sends before the status reach the client, and the status
    after them, if they fit into one frame. Otherwise the client takes the last of the
    continuation frames for the end of the stream: the call is over for it with the code
    OK and no description, the headers are its trailer, and the status with which
    the server ends the call is ignored. *)
Theorem headers_received (hmd tmd : list (bytes * bytes)) (code : Z) (desc : bytes) (id : Z) (e : Encoder) (t : http2Client) :
  expects e t id newStream → header_ok hmd → status_ok true tmd code desc →
  ∃ w1 e1 w2 e2 t' cs, let tr := map encode_pair tmd in
    WriteHeader id (map encode_pair hmd) (mkOut false false tr) e = Ok (inl w1, mkOut true false tr, e1) ∧
    WriteStatus id code desc (mkOut true false tr) e1 = Ok (inl w2, mkOut true true tr, e2) ∧
    client_loop (w1 ++ w2) t = Ok t' ∧ expects e2 t' id cs ∧ cs_done cs = true ∧ queued (cs_buf cs) = [RErr EOF] ∧
    let hmd := received_md ∅ (map peer_pair hmd) in
    if sizeZ w1 <=? 9 + http2MaxFrameLen
    then cs_code cs = code ∧ cs_desc cs = desc ∧ cs_header cs = hmd ∧ cs_trailer cs = received_md ∅ (map peer_pair tmd)
    else cs_code cs = OK ∧ cs_desc cs = [] ∧ cs_header cs = ∅ ∧ cs_trailer cs = hmd.
Proof.
  intros Hex Hh Hok. destruct (header_run hmd (map encode_pair tmd) id e t newStream Hex Hh) as (w1 & e1 & d1 & frs1 & E1 & Hc1 & Hs1 & Hf1).
  pose proof (with_headers_expects e1 id (set_mdata (received_md ∅ (map peer_pair hmd)) empty_state) (bool_decide (9 + http2MaxFrameLen < sizeZ w1)) d1 t newStream e Hex Hs1) as Hex1.
  destruct (status_run true tmd code desc id e1 _ _ Hex1 Hok) as (w2 & e2 & d2 & frs2 & E2 & Hc2 & Hs2 & Hf2).
  exists w1, e1, w2, e2. eexists _, _. cbv zeta. split; [done|]. split; [done|].
  split; [unfold client_loop; by rewrite (conn_loop_carries _ _ _ _ _ (carries_app _ _ _ _ Hc1 Hc2)), feed_app, Hf1 by lia|].
  split; [by apply with_headers_expects with e1|].
  destruct (Z.leb_spec (sizeZ w1) (9 + http2MaxFrameLen)); [rewrite bool_decide_false by lia|rewrite bool_decide_true by lia];
    cbn [take_headers newStream headerDone negb orb cs_done stream_write mdata set_mdata cs_buf cs_code cs_desc cs_header cs_trailer statusCode statusDesc];
    rewrite !kept_empty; by split_and!.
Qed.

(** A block with a literal whose name and value are empty. *)
Definition empty_name_block : bytes := map uint8 [0x00; 0x00; 0x00].

(** Three bytes of a header block end the process at either side: a field whose name is
    empty is well formed for the decoder, and the first byte of its name is looked at. *)
Theorem empty_name_panics (id : Z) :
  0 < id < 2 ^ 31 →
  ∃ w, writeHeaders id empty_name_block false = inl w ∧
    (∀ t, plain (hd_h (sv_dec t)) → id mod 2 = 1 → maxStreamID t < id → server_loop w t = Panic "runtime error: index out of range") ∧
    (∀ t, plain (hd_h (cl_dec t)) → client_loop w t = Panic "runtime error: index out of range").
Proof.
  intros Hid. destruct (writeHeaders_carries id empty_name_block false Hid) as (w & fh & p & eh & ps & Hw & Hcat & Hc & Hsid & Hes & Heh & Hend); [by vm_compute|].
  exists w. split; [done|].
  assert (∀ e D, plain (hd_h D) → decodeHTTP2Headers (mkHeaderFrame empty_name_block e) D = Panic "runtime error: index out of range") as Hdec.
  { intros e [[dt em ms sb] st] (Hm & He & Hs). cbn [hd_h maxStrLen emitEnabled saveBuf] in *. subst. by vm_compute. }
  assert (eh = true) as ->.
  { destruct eh; [done|]. destruct Hend as [_ Hl]. unfold writeHeaders in Hw.
    assert (cut (length empty_name_block) empty_name_block = [(empty_name_block, true)]) as E by (by vm_compute). rewrite E in Hw.
    unfold WriteHeaders in Hw. cbn [hp_StreamID] in Hw. rewrite valid_id_intro in Hw by done. cbn in Hw. by injection Hw as <-. }
  destruct Hend as [-> _]. cbn [map concat] in Hcat. rewrite app_nil_r in Hcat. subst p.
  split; intros t; [intros Hp Hodd Hmax|intros Hp].
  - unfold server_loop. rewrite (conn_loop_carries _ _ _ _ _ Hc) by lia. cbn [feed]. rewrite (server_head fh _ _ false true), Hsid by (by rewrite ?Hsid).
    unfold server_operateHeaders. by rewrite Hdec.
  - unfold client_loop. rewrite (conn_loop_carries _ _ _ _ _ Hc) by lia. cbn [feed client_frame]. unfold client_operateHeaders. by rewrite Hdec.
Qed.

(** ** Witnesses *)

#[local] Transparent static_len staticTable.

Ltac small_fields := repeat constructor; unfold small_field; by vm_compute.
Ltac key_ok := split_and!; [by vm_compute|apply (bool_decide_unpack _); by vm_compute|apply (bool_decide_unpack _); by vm_compute].
Ltac pair_ok := split; [key_ok|by vm_compute].

Definition two_requests : list request :=
  [mkRequest (mkCallHdr (to_bytes "localhost:50053") (to_bytes "/scheduler.Scheduler/LoadTest")) 0 [(to_bytes "token", to_bytes "abc")];
   mkRequest (mkCallHdr (to_bytes "localhost:50053") (to_bytes "/scheduler.Scheduler/RegisterExecutor")) (5 * Second) [(to_bytes "Blob", [uint8 200])]].


Definition demo_client (d : Decoder) : http2Client := mkClient {[1 := newStream]} {[1]} (mkHpackDecoder d empty_state) None.

Lemma demo_expects : ∃ e d, NewEncoder = Ok e ∧ expects e (demo_client d) 1 newStream.
Proof.
  destruct (new_sync 4096 ltac:(lia)) as (e & d & He & Hd & Hs). exists e, d. split; [done|]. split; try done.
Qed.

Lemma status_received_witness :
  ∃ w t t' cs, client_loop w t = Ok t' ∧ cl_streams t' !! 1 = Some cs ∧ cs_code cs = DeadlineExceeded ∧ cs_desc cs = to_bytes "too late" ∧
    cs_trailer cs !! to_bytes "k" = Some [to_bytes "v"].
Proof.
  destruct demo_expects as (e & d & He & Hex).
  destruct (status_received false [(to_bytes "k", to_bytes "v")] DeadlineExceeded (to_bytes "too late") 1 e (demo_client d) newStream Hex)
    as (w & e' & t' & cs & _ & Hl & [_ _ _ _ Hs] & _ & _ & Hc & Hd & _ & _ & Ht & _); [done| |].
  { split_and!; [done|done|constructor; [pair_ok|constructor]|small_fields]. }
  exists w, (demo_client d), t', cs. split; [done|]. split; [done|]. split; [done|]. split; [done|]. rewrite Ht. by vm_compute.
Defined.

(** Headers of seventeen thousand bytes before a failure. *)
Definition long_headers : list (bytes * bytes) := [(to_bytes "k", replicate 17000 "X"%char)].

Lemma headers_received_witness :
  ∃ t1 t2 cs1 cs2 w1 w2, client_loop w1 t1 = Ok t2 ∧ cl_streams t2 !! 1 = Some cs1 ∧ cs_code cs1 = Unknown ∧ cs_desc cs1 = to_bytes "no" ∧
    (∃ t2', client_loop w2 t1 = Ok t2' ∧ cl_streams t2' !! 1 = Some cs2 ∧ cs_code cs2 = OK ∧ cs_desc cs2 = []).
Proof.
  destruct demo_expects as (e & d & He & Hex). exists (demo_client d).
  assert (header_ok [] ∧ header_ok long_headers) as [Hh1 Hh2].
  { split; (split; [|small_fields]); [constructor|constructor; [pair_ok|constructor]]. }
  assert (status_ok true [] Unknown (to_bytes "no")) as Hs by (split_and!; [done|done|constructor|small_fields]).
  destruct (headers_received [] [] Unknown (to_bytes "no") 1 e (demo_client d) Hex Hh1 Hs) as (w1 & e1 & w2 & e2 & t2 & cs1 & E1 & E2 & Hl & [_ _ _ _ Hs1] & _ & _ & Hif).
  destruct (headers_received long_headers [] Unknown (to_bytes "no") 1 e (demo_client d) Hex Hh2 Hs) as (w1' & e1' & w2' & e2' & t2' & cs2 & E1' & E2' & Hl' & [_ _ _ _ Hs2] & _ & _ & Hif').
  assert (NewEncoder = Ok (mkEncoder (mkTable [] 0 4096 0) uint32Max 4096 false)) as HN by done. rewrite HN in He. injection He as <-.
  exists t2, cs1, cs2, (w1 ++ w2), (w1' ++ w2'). split; [done|]. split; [done|].
  assert (sizeZ w1 <=? 9 + http2MaxFrameLen = true) as El.
  { clear -E1. vm_compute in E1. by injection E1 as <- _. }
  assert (sizeZ w1' <=? 9 + http2MaxFrameLen = false) as El'.
  { clear -E1'. set (x := WriteHeader _ _ _ _) in E1'.
    assert (match x with Ok (inl w, _, _) => sizeZ w <=? 9 + http2MaxFrameLen | _ => true end = false) as H by (by vm_compute).
    by rewrite E1' in H. }
  rewrite El in Hif. rewrite El' in Hif'. destruct Hif as (-> & -> & _). split; [done|]. split; [done|]. exists t2'.
  destruct Hif' as (-> & -> & _). by split_and!.
Defined.

Lemma empty_name_panics_witness :
  ∃ w d, writeHeaders 1 empty_name_block false = inl w ∧ client_loop w (demo_client d) = Panic "runtime error: index out of range".
Proof.
  destruct (empty_name_panics 1) as (w & Hw & _ & H); [lia|]. exists w, (mkDecoder (mkTable [] 0 4096 4096) true 0 []). split; [done|].
  by apply H.
Defined.
