(* ===== verification/Ctx.v ===== *)
(** * Contexts (golang.org/x/net/context, context.go)

    The tree of contexts in a store: a context is its index, and a parent comes before its
    children.  The calls of all goroutines are interleaved: an action is what one of them
    does under the lock of a context, and a goroutine is the list of the actions it has
    left.  All contexts are of this package, so [propagateCancel] never starts a
    goroutine.  Channels and timers are flags. *)
From Stdlib Require Import ZArith Lia.
From stdpp Require Import base option list gmap.
From S2P Require Import Prelude GoNum.

Inductive ctxError := Canceled | DeadlineExceeded.
#[export] Instance ctxError_eq_dec : EqDecision ctxError.
Proof. solve_decision. Defined.

(** [done]: the channel is closed.  A nil map of children is empty. *)
Record cancelCtx := mkCancel { done : bool; children : gset nat; err : option ctxError }.

Definition newCancelCtx : cancelCtx := mkCancel false ∅ None.

Section Contexts.
Context {K V : Type} `{EqDecision K}.

(** [timer]: there is a timer that has not been stopped. *)
Inductive context :=
  | emptyCtx
  | CancelCtx (parent : nat) (c : cancelCtx)
  | TimerCtx (parent : nat) (c : cancelCtx) (timer : bool) (deadline : Z)
  | ValueCtx (parent : nat) (key : K) (val : V).

(** ** The methods of a context

    Each delegates to the embedded context, which comes before it in the store. *)
Fixpoint Deadline_fuel (fuel : nat) (st : list context) (i : nat) : option Z :=
  match fuel with
  | O => None
  | S fuel =>
      match st !! i with
      | Some (TimerCtx _ _ _ d) => Some d
      | Some (CancelCtx p _) | Some (ValueCtx p _ _) => Deadline_fuel fuel st p
      | _ => None
      end
  end.
Definition Deadline (st : list context) (i : nat) : option Z := Deadline_fuel (S i) st i.

(** The context whose channel it is; [None] is a nil channel. *)
Fixpoint Done_fuel (fuel : nat) (st : list context) (i : nat) : option nat :=
  match fuel with
  | O => None
  | S fuel =>
      match st !! i with
      | Some (CancelCtx _ _) | Some (TimerCtx _ _ _ _) => Some i
      | Some (ValueCtx p _ _) => Done_fuel fuel st p
      | _ => None
      end
  end.
Definition Done (st : list context) (i : nat) : option nat := Done_fuel (S i) st i.

Fixpoint Err_fuel (fuel : nat) (st : list context) (i : nat) : option ctxError :=
  match fuel with
  | O => None
  | S fuel =>
      match st !! i with
      | Some (CancelCtx _ c) | Some (TimerCtx _ c _ _) => err c
      | Some (ValueCtx p _ _) => Err_fuel fuel st p
      | _ => None
      end
  end.
Definition ctx_Err (st : list context) (i : nat) : option ctxError := Err_fuel (S i) st i.

Fixpoint Value_fuel (fuel : nat) (st : list context) (i : nat) (k : K) : option V :=
  match fuel with
  | O => None
  | S fuel =>
      match st !! i with
      | Some (ValueCtx p key val) => if decide (key = k) then Some val else Value_fuel fuel st p k
      | Some (CancelCtx p _) | Some (TimerCtx p _ _ _) => Value_fuel fuel st p k
      | _ => None
      end
  end.
Definition ctx_Value (st : list context) (i : nat) (k : K) : option V := Value_fuel (S i) st i k.

(** [parentCancelCtx] of a parent. *)
Fixpoint parentCancel_fuel (fuel : nat) (st : list context) (i : nat) : option nat :=
  match fuel with
  | O => None
  | S fuel =>
      match st !! i with
      | Some (CancelCtx _ _) | Some (TimerCtx _ _ _ _) => Some i
      | Some (ValueCtx p _ _) => parentCancel_fuel fuel st p
      | _ => None
      end
  end.
Definition parentCancelCtx (st : list context) (i : nat) : option nat := parentCancel_fuel (S i) st i.

(** ** Cancellation *)

Definition cancel_of (x : context) : option cancelCtx :=
  match x with CancelCtx _ c | TimerCtx _ c _ _ => Some c | _ => None end.

Definition set_cancel (c : cancelCtx) (x : context) : context :=
  match x with
  | CancelCtx p _ => CancelCtx p c
  | TimerCtx p _ t d => TimerCtx p c t d
  | x => x
  end.

Definition set_timer (t : bool) (x : context) : context :=
  match x with TimerCtx p c _ d => TimerCtx p c t d | x => x end.

Definition stop_timer (i : nat) (st : list context) : list context := alter (set_timer false) i st.

(** [c.children = f c.children]. *)
Definition alter_children (f : gset nat → gset nat) (i : nat) (st : list context) : list context :=
  alter (fun x => match cancel_of x with Some c => set_cancel (mkCancel (done c) (f (children c)) (err c)) x | None => x end) i st.

Fixpoint cancel_each (f : nat → list context → outcome (list context)) (l : list nat) (st : list context) : outcome (list context) :=
  match l with [] => Ok st | i :: l => st ← f i st; cancel_each f l st end.

(** [ctx_cancel] of a [cancelCtx] up to the unlocking, with [rec] for the children. *)
Definition cancelCtx_cancel (rec : nat → list context → outcome (list context)) (i : nat) (e : ctxError) (st : list context)
  : outcome (list context) :=
  match st !! i with
  | Some x =>
      match cancel_of x with
      | Some c =>
          if bool_decide (err c ≠ None) then Ok st else
          if done c then Panic "close of closed channel" else
          st ← cancel_each rec (elements (children c)) (<[i := set_cancel (mkCancel true (children c) (Some e)) x]> st);
          Ok (alter_children (fun _ => ∅) i st)
      | None => Ok st
      end
  | None => Ok st
  end.

(** [child.cancel(false, e)] of either type. *)
Fixpoint ctx_cancel (fuel : nat) (e : ctxError) (i : nat) (st : list context) : outcome (list context) :=
  match fuel with
  | O => Panic "out of fuel"
  | S fuel => st ← cancelCtx_cancel (ctx_cancel fuel e) i e st; Ok (stop_timer i st)
  end.

Definition removeChild (parent child : nat) (st : list context) : list context :=
  match parentCancelCtx st parent with
  | Some p => alter_children (fun cs => cs ∖ {[child]}) p st
  | None => st
  end.

Definition err_at (st : list context) (i : nat) : option ctxError := x ← st !! i; c ← cancel_of x; err c.

Definition propagateCancel (parent child : nat) (st : list context) : outcome (list context) :=
  match Done st parent with
  | None => Ok st
  | Some _ =>
      match parentCancelCtx st parent with
      | Some p =>
          match err_at st p with
          | Some e => ctx_cancel (length st) e child st
          | None => Ok (alter_children (fun cs => {[child]} ∪ cs) p st)
          end
      | None => Ok st
      end
  end.

(** ** Goroutines *)

Inductive action :=
  | ACancel (i : nat) (e : ctxError)      (** [i.cancel(true, e)] *)
  | ARemove (i : nat)                     (** its [removeChild] *)
  | AStop (i : nat)                       (** its stopping of the timer *)
  | ADeadline (i : nat) (d : Z).          (** the rest of [WithDeadline] *)

Definition parent_of (x : context) : option nat :=
  match x with emptyCtx => None | CancelCtx p _ | TimerCtx p _ _ _ | ValueCtx p _ _ => Some p end.

(** An action at the time [now]: the store, and what its goroutine does next. *)
Definition run_action (now : Z) (a : action) (st : list context) : outcome (list context * list action) :=
  match a with
  | ACancel i e =>
      st' ← cancelCtx_cancel (ctx_cancel (length st) e) i e st;
      match st !! i with
      | Some (CancelCtx _ c) => Ok (st', if bool_decide (err c ≠ None) then [] else [ARemove i])
      | Some (TimerCtx _ _ _ _) => Ok (st', [ARemove i; AStop i])
      | _ => Ok (st', [])
      end
  | ARemove i => Ok (match st !! i ≫= parent_of with Some p => removeChild p i st | None => st end, [])
  | AStop i => Ok (stop_timer i st, [])
  | ADeadline i d =>
      if d - now <=? 0 then Ok (st, [ACancel i DeadlineExceeded]) else
      Ok (match err_at st i with None => alter (set_timer true) i st | Some _ => st end, [])
  end.

(** ** The system *)

Record cstate := mkC { ctxs : list context; goroutines : list (list action) }.

Inductive ctx_label :=
  | LWithCancel (parent : nat)
  | LWithDeadline (parent : nat) (d : Z)
  | LWithValue (parent : nat) (k : K) (v : V)
  | LCancelFunc (i : nat)                 (** a call of the function returned with [i] *)
  | LFire (i : nat) (now : Z)             (** the timer of [i] *)
  | LRun (g : nat) (now : Z).             (** the next action of a goroutine *)

Definition WithCancel (parent : nat) (s : cstate) : outcome cstate :=
  let st := ctxs s in
  st' ← propagateCancel parent (length st) (st ++ [CancelCtx parent newCancelCtx]);
  Ok (mkC st' (goroutines s)).

Definition WithDeadline (parent : nat) (d : Z) (s : cstate) : outcome cstate :=
  let st := ctxs s in
  let new :=
    st' ← propagateCancel parent (length st) (st ++ [TimerCtx parent newCancelCtx false d]);
    Ok (mkC st' (goroutines s ++ [[ADeadline (length st) d]])) in
  match Deadline st parent with
  | Some cur => if cur <? d then WithCancel parent s else new
  | None => new
  end.

(** [None]: there is no such step. *)
Definition ctx_step (l : ctx_label) (s : cstate) : option (outcome cstate) :=
  match l with
  | LWithCancel p => if decide (p < length (ctxs s))%nat then Some (WithCancel p s) else None
  | LWithDeadline p d => if decide (p < length (ctxs s))%nat then Some (WithDeadline p d s) else None
  | LWithValue p k v =>
      if decide (p < length (ctxs s))%nat then Some (Ok (mkC (ctxs s ++ [ValueCtx p k v]) (goroutines s))) else None
  | LCancelFunc i =>
      match ctxs s !! i ≫= cancel_of with
      | Some _ => Some (Ok (mkC (ctxs s) (goroutines s ++ [[ACancel i Canceled]])))
      | None => None
      end
  | LFire i now =>
      match ctxs s !! i with
      | Some (TimerCtx _ _ true d) =>
          if d <=? now then Some (Ok (mkC (ctxs s) (goroutines s ++ [[ACancel i DeadlineExceeded]]))) else None
      | _ => None
      end
  | LRun g now =>
      match goroutines s !! g with
      | Some (a :: k) =>
          Some ('(st, next) ← run_action now a (ctxs s); Ok (mkC st (<[g := next ++ k]> (goroutines s))))
      | _ => None
      end
  end.

Definition ctx_rel (s : cstate) (l : ctx_label) (t : cstate) : Prop := ctx_step l s = Some (Ok t).

(** [Background] and [TODO]. *)
Definition background : cstate := mkC [emptyCtx; emptyCtx] [].

Fixpoint ctx_exec (ls : list ctx_label) (s : cstate) : option (outcome cstate) :=
  match ls with
  | [] => Some (Ok s)
  | l :: ls => match ctx_step l s with Some (Ok s) => ctx_exec ls s | r => r end
  end.

End Contexts.
Arguments context : clear implicits.
Arguments cstate : clear implicits.
Arguments ctx_label : clear implicits.

(** A call with a timeout below a cancelled parent, and one whose timer fires. *)
Example ctx_example :
  match ctx_exec (K:=nat) (V:=nat) [LWithCancel 0; LWithValue 2 7%nat 8%nat; LWithDeadline 3 100; LRun 0 50; LWithDeadline 4 200; LCancelFunc 2; LRun 1 60] background with
  | Some (Ok s) => map (ctx_Err (ctxs s)) (seq 0 6) = [None; None; Some Canceled; Some Canceled; Some Canceled; Some Canceled] ∧
                   ctx_Value (ctxs s) 5 7%nat = Some 8%nat ∧ Deadline (ctxs s) 5 = Some 100 ∧ goroutines s = [[]; [ARemove 2]]
  | _ => False
  end.
Proof. vm_compute. auto. Qed.
