(* ===== verification/CtxFacts.v ===== *)
(** * Facts on contexts

    What a cancellation does to the store: it ends the live contexts below it, and no
    other. *)
From Stdlib Require Import ZArith Lia.
From stdpp Require Import base option list gmap.
From S2P Require Import Prelude GoNum Ctx.

Section Facts.
Context {K V : Type} `{EqDecision K}.
Implicit Types (st : list (context K V)) (i j p q : nat).

(** ** Reading the store *)

Definition cc st i : option cancelCtx := st !! i ≫= cancel_of.
Definition kids st i : gset nat := default ∅ (children <$> cc st i).
Definition timer_at st i : bool := match st !! i with Some (TimerCtx _ _ t _) => t | _ => false end.

(** What does not change: types, parents, deadlines and values. *)
Definition strip (x : context K V) : context K V :=
  match x with
  | CancelCtx p _ => CancelCtx p newCancelCtx
  | TimerCtx p _ _ d => TimerCtx p newCancelCtx false d
  | x => x
  end.
Definition shape st : list (context K V) := map strip st.

Definition parent st i : option nat := st !! i ≫= parent_of.

(** The context that cancels [i]. *)
Definition near st i : option nat := match cc st i with Some _ => p ← parent st i; parentCancelCtx st p | None => None end.

Lemma err_at_cc st i : err_at st i = cc st i ≫= err.
Proof. unfold err_at, cc. by destruct (st !! i). Qed.

Lemma shape_lookup st st' i : shape st = shape st' → strip <$> st !! i = strip <$> st' !! i.
Proof. intros H. rewrite <- !list_lookup_fmap. by change (shape st !! i = shape st' !! i); rewrite H. Qed.

Lemma shape_length st st' : shape st = shape st' → length st = length st'.
Proof. intros H. apply (f_equal length) in H. unfold shape in H. by rewrite !length_map in H. Qed.

Ltac shape_at H i :=
  let E := fresh "E" in pose proof (shape_lookup _ _ i H) as E;
  match type of E with strip <$> ?a = strip <$> ?b =>
    revert E; destruct a as [[]|], b as [[]|]; intros E; cbn in E; try discriminate E;
    try (injection E as E); simplify_eq; cbn in *
  end.

Lemma parentCancel_shape st st' n i : shape st = shape st' → parentCancel_fuel n st i = parentCancel_fuel n st' i.
Proof. intros H. revert i. induction n as [|n IH]; intros i; [done|]. cbn [parentCancel_fuel]. shape_at H i; auto. Qed.

Lemma Done_shape st st' n i : shape st = shape st' → Done_fuel n st i = Done_fuel n st' i.
Proof. intros H. revert i. induction n as [|n IH]; intros i; [done|]. cbn [Done_fuel]. shape_at H i; auto. Qed.

Lemma parent_shape st st' i : shape st = shape st' → parent st i = parent st' i.
Proof. intros H. unfold parent. shape_at H i; done. Qed.

Lemma shape_cc st st' i : shape st = shape st' → is_Some (cc st i) ↔ is_Some (cc st' i).
Proof. intros H. unfold cc. shape_at H i; cbn; done || (split; intros; by eexists). Qed.

Lemma near_shape st st' i : shape st = shape st' → near st i = near st' i.
Proof.
  intros H. unfold near. rewrite (parent_shape st st' i H). pose proof (shape_cc st st' i H) as [H1 H2].
  assert (∀ p, parentCancelCtx st p = parentCancelCtx st' p) as Hp by (intros p; by apply parentCancel_shape).
  destruct (cc st i) as [c|], (cc st' i) as [c'|]; [|destruct H1; [by eexists|done]|destruct H2; [by eexists|done]|done].
  destruct (parent st' i) as [p|]; [apply Hp|done].
Qed.

(** ** Well-formed stores *)

Record wf st : Prop := {
  wf_parent : ∀ i p, parent st i = Some p → (p < i)%nat;
  wf_done : ∀ i c, cc st i = Some c → done c = bool_decide (err c ≠ None);
  wf_kids : ∀ q j, j ∈ kids st q → near st j = Some q;
  wf_live : ∀ q j, near st j = Some q → err_at st q = None → err_at st j = None → j ∈ kids st q
}.

Lemma parentCancel_le st n i q : wf st → parentCancel_fuel n st i = Some q → (q ≤ i)%nat ∧ is_Some (cc st q).
Proof.
  intros Hw. revert i. induction n as [|n IH]; intros i; [done|]. cbn [parentCancel_fuel].
  destruct (st !! i) as [[]|] eqn:E; try done.
  - intros [= <-]. split; [done|]. unfold cc. by rewrite E.
  - intros [= <-]. split; [done|]. unfold cc. by rewrite E.
  - intros H. assert (parent0 < i)%nat by (apply (wf_parent _ Hw); unfold parent; by rewrite E).
    destruct (IH _ H). split; [lia|done].
Qed.

Lemma near_lt st j q : wf st → near st j = Some q → (q < j < length st)%nat ∧ is_Some (cc st j) ∧ is_Some (cc st q).
Proof.
  intros Hw. unfold near. destruct (cc st j) as [c|] eqn:Ec; [|done].
  destruct (parent st j) as [p|] eqn:Ep; [|done]. intros H. apply (parentCancel_le _ _ _ _ Hw) in H as [Hq ?].
  pose proof (wf_parent _ Hw _ _ Ep). unfold cc in Ec. destruct (st !! j) eqn:E; [|done]. apply lookup_lt_Some in E.
  split; [lia|]. by split.
Qed.

(** ** What a cancellation does

    [R] are the contexts that it is called on. *)
Record kills (e : ctxError) (R : gset nat) st st' : Prop := {
  k_shape : shape st = shape st';
  k_node : ∀ i c, cc st i = Some c → ∃ c', cc st' i = Some c' ∧ (c' = c ∨ err c = None ∧ c' = mkCancel true ∅ (Some e));
  k_timer : ∀ i, timer_at st' i = true → timer_at st i = true ∧ (err_at st i = None → err_at st' i = None);
  k_down : ∀ p j, near st j = Some p → err_at st p = None → err_at st' p ≠ None → err_at st' j ≠ None;
  k_up : ∀ j, err_at st j = None → err_at st' j ≠ None → j ∈ R ∨ ∃ p, near st j = Some p ∧ err_at st' p ≠ None
}.

Lemma kills_refl e R st : kills e R st st.
Proof. split; [done|intros i c Hc; exists c; auto|auto|by intros p j _ H1 H2|done]. Qed.

Lemma kills_dead e R st st' i : kills e R st st' → err_at st i ≠ None → err_at st' i = err_at st i.
Proof.
  intros Hk. rewrite !err_at_cc. destruct (cc st i) as [c|] eqn:E; [|done]. cbn. intros Hd.
  destruct (k_node _ _ _ _ Hk i c E) as (c' & -> & [->|[? _]]); done.
Qed.

Lemma kills_alive e R st st' i : kills e R st st' → err_at st' i = None → err_at st i = None ∧ cc st' i = cc st i.
Proof.
  intros Hk Hn. destruct (decide (err_at st i = None)) as [Hi|Hi]; [|by rewrite (kills_dead _ _ _ _ _ Hk Hi) in Hn].
  split; [done|]. rewrite err_at_cc in Hn. destruct (cc st i) as [c|] eqn:E.
  - destruct (k_node _ _ _ _ Hk i c E) as (c' & E' & [->|[? ->]]); [done|]. by rewrite E' in Hn.
  - destruct (cc st' i) as [c'|] eqn:E'; [|done]. pose proof (shape_cc st st' i (k_shape _ _ _ _ Hk)) as [_ H].
    rewrite E, E' in H. destruct H; [by eexists|done].
Qed.

Lemma kills_trans e R R' st1 st2 st3 : kills e R st1 st2 → kills e R' st2 st3 → kills e (R ∪ R') st1 st3.
Proof.
  intros H12 H23. split.
  - by rewrite (k_shape _ _ _ _ H12), (k_shape _ _ _ _ H23).
  - intros i c Hc. destruct (k_node _ _ _ _ H12 i c Hc) as (c2 & E2 & Hc2). destruct (k_node _ _ _ _ H23 i c2 E2) as (c3 & E3 & Hc3).
    exists c3. split; [done|]. destruct Hc2 as [->|[Hn ->]]; [done|]. destruct Hc3 as [->|[? _]]; [by right|done].
  - intros i Ht. destruct (k_timer _ _ _ _ H23 i Ht) as [Ht2 Hn2]. destruct (k_timer _ _ _ _ H12 i Ht2) as [Ht1 Hn1]. auto.
  - intros p j Hn Hp Hd. destruct (decide (err_at st2 p = None)) as [Hp2|Hp2].
    + apply (k_down _ _ _ _ H23 p j); [|done..]. by rewrite <- (near_shape _ _ j (k_shape _ _ _ _ H12)).
    + pose proof (k_down _ _ _ _ H12 p j Hn Hp Hp2) as Hj. by rewrite (kills_dead _ _ _ _ _ H23 Hj).
  - intros j Hj Hd. destruct (decide (err_at st2 j = None)) as [Hj2|Hj2].
    + destruct (k_up _ _ _ _ H23 j Hj2 Hd) as [?|(p & Hp & ?)]; [left; set_solver|right]. exists p.
      by rewrite (near_shape _ _ j (k_shape _ _ _ _ H12)).
    + destruct (k_up _ _ _ _ H12 j Hj Hj2) as [?|(p & Hp & Hd2)]; [left; set_solver|right]. exists p.
      split; [done|]. by rewrite (kills_dead _ _ _ _ _ H23 Hd2).
Qed.

Lemma kills_kids e R st st' q : kills e R st st' → kids st' q ⊆ kids st q.
Proof.
  intros Hk. unfold kids. destruct (cc st q) as [c|] eqn:E.
  - destruct (k_node _ _ _ _ Hk q c E) as (c' & -> & [->|[_ ->]]); cbn; set_solver.
  - pose proof (shape_cc st st' q (k_shape _ _ _ _ Hk)) as [_ H]. rewrite E in H.
    destruct (cc st' q); [destruct H; [by eexists|done]|done].
Qed.

Lemma kills_wf e R st st' : wf st → kills e R st st' → wf st'.
Proof.
  intros Hw Hk. pose proof (k_shape _ _ _ _ Hk) as Hs. split.
  - intros i p. rewrite <- (parent_shape _ _ i Hs). apply (wf_parent _ Hw).
  - intros i c' Hc'. pose proof (shape_cc st st' i Hs) as [_ H]. rewrite Hc' in H. destruct H as [c Hc]; [by eexists|].
    destruct (k_node _ _ _ _ Hk i c Hc) as (c2 & E2 & Hc2). rewrite Hc' in E2. injection E2 as ->.
    destruct Hc2 as [->|[_ ->]]; [by apply (wf_done _ Hw i)|done].
  - intros q j Hj. rewrite <- (near_shape _ _ j Hs). apply (wf_kids _ Hw). by apply (kills_kids _ _ _ _ q Hk).
  - intros q j Hn Hq Hj. rewrite <- (near_shape _ _ j Hs) in Hn. destruct (kills_alive _ _ _ _ _ Hk Hq) as [Hq0 Hc].
    destruct (kills_alive _ _ _ _ _ Hk Hj) as [Hj0 _]. pose proof (wf_live _ Hw q j Hn Hq0 Hj0) as Hin.
    unfold kids in *. by rewrite Hc.
Qed.

(** ** The changes of the store *)

Lemma alter_shape (f : context K V → context K V) i st : (∀ x, strip (f x) = strip x) → shape (alter f i st) = shape st.
Proof.
  intros Hf. apply list_eq. intros j. unfold shape. change (map strip ?l) with (strip <$> l). rewrite !list_lookup_fmap.
  destruct (decide (j = i)) as [->|Hj]; [|by rewrite list_lookup_alter_ne].
  rewrite list_lookup_alter_eq. destruct (st !! i) as [x|]; [|done]. cbn. by rewrite Hf.
Qed.

Lemma cc_alter (f : context K V → context K V) i j st :
  cc (alter f i st) j = if decide (j = i) then x ← st !! i; cancel_of (f x) else cc st j.
Proof.
  unfold cc. destruct (decide (j = i)) as [->|Hj]; [|by rewrite list_lookup_alter_ne].
  rewrite list_lookup_alter_eq. by destruct (st !! i).
Qed.

Lemma timer_alter (f : context K V → context K V) i j st :
  timer_at (alter f i st) j = if decide (j = i) then match st !! i with Some x => timer_at [f x] 0 | None => false end else timer_at st j.
Proof.
  unfold timer_at. destruct (decide (j = i)) as [->|Hj]; [|by rewrite list_lookup_alter_ne].
  rewrite list_lookup_alter_eq. by destruct (st !! i).
Qed.

Lemma strip_set_cancel c (x : context K V) : strip (set_cancel c x) = strip x.
Proof. by destruct x. Qed.
Lemma strip_set_timer t (x : context K V) : strip (set_timer t x) = strip x.
Proof. by destruct x. Qed.
Lemma cancel_set_timer t (x : context K V) : cancel_of (set_timer t x) = cancel_of x.
Proof. by destruct x. Qed.
Lemma cancel_set_cancel c (x : context K V) : is_Some (cancel_of x) → cancel_of (set_cancel c x) = Some c.
Proof. destruct x; [by intros []|done|done|by intros []]. Qed.

(** Setting the cancellation state of a context. *)
Definition put_cancel (c : cancelCtx) i st : list (context K V) := alter (set_cancel c) i st.

Lemma insert_put_cancel c i x st : st !! i = Some x → <[i := set_cancel c x]> st = put_cancel c i st.
Proof.
  intros Hx. unfold put_cancel. apply list_eq. intros j. destruct (decide (j = i)) as [->|Hj].
  - rewrite list_lookup_alter_eq, Hx. by rewrite list_lookup_insert_eq by (by eapply lookup_lt_Some).
  - by rewrite list_lookup_alter_ne, list_lookup_insert_ne.
Qed.

Lemma put_cancel_shape c i st : shape (put_cancel c i st) = shape st.
Proof. apply alter_shape, strip_set_cancel. Qed.
Lemma put_cancel_cc c i j st : is_Some (cc st i) → cc (put_cancel c i st) j = if decide (j = i) then Some c else cc st j.
Proof.
  intros Hi. unfold put_cancel. rewrite cc_alter. destruct (decide (j = i)) as [->|]; [|done].
  unfold cc in Hi. destruct (st !! i) as [x|]; [|by destruct Hi]. cbn in *. by apply cancel_set_cancel.
Qed.
Lemma put_cancel_timer c i j st : timer_at (put_cancel c i st) j = timer_at st j.
Proof.
  unfold put_cancel. rewrite timer_alter. destruct (decide (j = i)) as [->|]; [|done]. unfold timer_at. by destruct (st !! i) as [[]|].
Qed.

Lemma alter_children_put f i st c : cc st i = Some c → alter_children f i st = put_cancel (mkCancel (done c) (f (children c)) (err c)) i st.
Proof.
  intros Hc. unfold alter_children, put_cancel, cc in *. apply list_eq. intros j.
  destruct (decide (j = i)) as [->|Hj]; [|by rewrite !list_lookup_alter_ne].
  rewrite !list_lookup_alter_eq. destruct (st !! i) as [x|]; [|done]. cbn in *. by rewrite Hc.
Qed.

Lemma stop_shape i st : shape (stop_timer i st) = shape st.
Proof. apply alter_shape, strip_set_timer. Qed.
Lemma stop_cc i j st : cc (stop_timer i st) j = cc st j.
Proof.
  unfold stop_timer. rewrite cc_alter. destruct (decide (j = i)) as [->|]; [|done]. unfold cc.
  destruct (st !! i) as [x|]; [|done]. apply cancel_set_timer.
Qed.
Lemma stop_timer_at i j st : timer_at (stop_timer i st) j = if decide (j = i) then false else timer_at st j.
Proof.
  unfold stop_timer. rewrite timer_alter. destruct (decide (j = i)) as [->|]; [|done]. by destruct (st !! i) as [[]|].
Qed.
Lemma stop_err i j st : err_at (stop_timer i st) j = err_at st j.
Proof. by rewrite !err_at_cc, stop_cc. Qed.

Lemma stop_kills e R i st : err_at st i ≠ None → kills e R st (stop_timer i st).
Proof.
  intros Hd. split.
  - by rewrite stop_shape.
  - intros j c Hc. exists c. rewrite stop_cc. auto.
  - intros j. rewrite stop_timer_at, stop_err. destruct (decide (j = i)); [done|auto].
  - intros p j _ Hp. by rewrite stop_err.
  - intros j Hj. by rewrite stop_err.
Qed.

(** ** Cancellation *)

(** Marking a live context keeps the store well-formed. *)
Lemma mark_wf e i c st : wf st → cc st i = Some c → err c = None → wf (put_cancel (mkCancel true (children c) (Some e)) i st).
Proof.
  intros Hw Hc Hn. set (st1 := put_cancel _ i st). assert (shape st1 = shape st) as Hs by apply put_cancel_shape.
  assert (∀ j, cc st1 j = if decide (j = i) then Some (mkCancel true (children c) (Some e)) else cc st j) as Hcc by (intros j; by apply put_cancel_cc).
  assert (∀ q, kids st1 q = kids st q) as Hk.
  { intros q. unfold kids. rewrite Hcc. destruct (decide (q = i)) as [->|]; [by rewrite Hc|done]. }
  split.
  - intros j p. rewrite (parent_shape _ _ j Hs). apply (wf_parent _ Hw).
  - intros j c'. rewrite Hcc. destruct (decide (j = i)); [by intros [= <-]|apply (wf_done _ Hw)].
  - intros q j. rewrite Hk, (near_shape _ _ j Hs). apply (wf_kids _ Hw).
  - intros q j. rewrite Hk, (near_shape _ _ j Hs), !err_at_cc, !Hcc.
    destruct (decide (q = i)); [done|]. destruct (decide (j = i)); [done|]. rewrite <- !err_at_cc. apply (wf_live _ Hw).
Qed.

(** What the cancellation of the child [i] has to do, in any store of the shape of [st]. *)
Definition cancels (e : ctxError) (f : nat → list (context K V) → outcome (list (context K V))) st i : Prop :=
  ∀ st', shape st' = shape st → wf st' → ∃ st'', f i st' = Ok st'' ∧ kills e {[i]} st' st'' ∧ err_at st'' i ≠ None.

Lemma each_cancels e f l st0 st : shape st = shape st0 → wf st → (∀ i, i ∈ l → cancels e f st0 i) →
  ∃ st', cancel_each f l st = Ok st' ∧ kills e (list_to_set l) st st' ∧ ∀ i, i ∈ l → err_at st' i ≠ None.
Proof.
  revert st. induction l as [|i l IH]; intros st Hs Hw Hf.
  - exists st. split; [done|]. split; [apply kills_refl|]. intros i Hi. by apply elem_of_nil in Hi.
  - destruct (Hf i ltac:(apply list_elem_of_here) st Hs Hw) as (st1 & E1 & Hk1 & Hd1).
    destruct (IH st1) as (st2 & E2 & Hk2 & Hd2); [by rewrite <- (k_shape _ _ _ _ Hk1)|by apply (kills_wf e {[i]} st)| |].
    { intros j Hj. apply Hf. by apply list_elem_of_further. }
    exists st2. cbn [cancel_each]. rewrite E1. cbn [mbind outcome_bind]. split; [done|]. split; [by eapply kills_trans|].
    intros j [->|Hj]%elem_of_cons; [by rewrite (kills_dead _ _ _ _ _ Hk2 Hd1)|auto].
Qed.

(** The body of [cancel]: the timer of [i] itself is not stopped yet. *)
Lemma body_spec e rec i st : wf st → is_Some (cc st i) → (∀ j, j ∈ kids st i → cancels e rec st j) →
  ∃ st', cancelCtx_cancel rec i e st = Ok st' ∧ kills e {[i]} st (stop_timer i st') ∧
    err_at st' i ≠ None.
Proof.
  intros Hw [c Hc] Hrec. unfold cancelCtx_cancel. pose proof Hc as Hc'. unfold cc in Hc'. destruct (st !! i) as [x|] eqn:Ex; [|done].
  cbn in Hc'. rewrite Hc'. destruct (bool_decide_reflect (err c ≠ None)) as [Hd|Hd].
  { assert (err_at st i ≠ None) by (by rewrite err_at_cc, Hc). exists st. split; [done|]. split; [by apply stop_kills|done]. }
  apply dec_stable in Hd. rewrite (wf_done _ Hw _ _ Hc), bool_decide_false by (by intros []).
  rewrite (insert_put_cancel _ _ _ _ Ex). set (c1 := mkCancel true (children c) (Some e)). set (st1 := put_cancel c1 i st).
  pose proof (mark_wf e i c st Hw Hc Hd) as Hw1. assert (shape st1 = shape st) as Hs1 by apply put_cancel_shape.
  assert (∀ j, cc st1 j = if decide (j = i) then Some c1 else cc st j) as Hcc1 by (intros j; by apply put_cancel_cc).
  destruct (each_cancels e rec (elements (children c)) st st1 Hs1 Hw1) as (st2 & -> & Hk & Hdead).
  { intros j Hj. apply Hrec. unfold kids. rewrite Hc. by apply elem_of_elements. }
  cbn [mbind outcome_bind]. assert (err_at st1 i ≠ None) as Hi1 by (by rewrite err_at_cc, Hcc1, decide_True).
  assert (is_Some (cc st2 i) ∧ err_at st2 i = Some e) as [[c2 Hc2] Hi2].
  { rewrite (kills_dead _ _ _ _ _ Hk Hi1). split; [|by rewrite err_at_cc, Hcc1, decide_True].
    apply (shape_cc _ _ _ (k_shape _ _ _ _ Hk)). rewrite Hcc1, decide_True by done. by eexists. }
  assert (c2 = c1 ∨ c2 = mkCancel true ∅ (Some e)) as Hc2'.
  { destruct (k_node _ _ _ _ Hk i c1) as (c' & E & Hor); [by rewrite Hcc1, decide_True|]. rewrite Hc2 in E. injection E as ->. destruct Hor as [->|[? ->]]; auto. }
  eexists. split; [done|]. rewrite (alter_children_put _ _ _ c2 Hc2). set (c3 := mkCancel _ ∅ _). assert (c3 = mkCancel true ∅ (Some e)) as Hc3 by (subst c3; by destruct Hc2' as [->| ->]).
  assert (∀ j, cc (put_cancel c3 i st2) j = if decide (j = i) then Some c3 else cc st2 j) as Hcc3 by (intros j; apply put_cancel_cc; by eexists).
  assert (∀ j, j ≠ i → err_at st1 j = err_at st j) as He1 by (intros j Hj; by rewrite !err_at_cc, Hcc1, decide_False).
  assert (∀ j, err_at (put_cancel c3 i st2) j = err_at st2 j) as He3.
  { intros j. rewrite !err_at_cc, Hcc3. destruct (decide (j = i)) as [->|]; [|done]. rewrite <- err_at_cc, Hi2, Hc3. done. }
  split; [split|].
  - by rewrite stop_shape, put_cancel_shape, <- (k_shape _ _ _ _ Hk).
  - intros j cj Hj. rewrite stop_cc, Hcc3. destruct (decide (j = i)) as [->|Hne].
    + exists c3. split; [done|]. rewrite Hc in Hj. injection Hj as ->. by right.
    + apply (k_node _ _ _ _ Hk). by rewrite Hcc1, decide_False.
  - intros j. rewrite stop_timer_at, stop_err, put_cancel_timer. destruct (decide (j = i)) as [|Hne]; [done|].
    intros Ht. destruct (k_timer _ _ _ _ Hk j Ht) as [Ht1 Hn1]. unfold st1 in Ht1. rewrite put_cancel_timer in Ht1.
    split; [done|]. intros Hj. rewrite He3. apply Hn1. by rewrite He1.
  - intros p j Hn Hp Hd'. rewrite stop_err, He3 in Hd' |- *. destruct (decide (p = i)) as [->|Hne].
    + destruct (decide (err_at st j = None)) as [Hj|Hj].
      * apply Hdead, elem_of_elements. pose proof (wf_live _ Hw i j Hn Hp Hj) as Hin. unfold kids in Hin. by rewrite Hc in Hin.
      * assert (j ≠ i) as Hji by (intros ->; done). rewrite <- (He1 j Hji) in Hj. by rewrite (kills_dead _ _ _ _ _ Hk Hj).
    + apply (k_down _ _ _ _ Hk p j); [by rewrite (near_shape _ _ j Hs1)|by rewrite He1|done].
  - intros j Hj Hd'. rewrite stop_err, He3 in Hd'. destruct (decide (j = i)) as [->|Hne]; [left; set_solver|right].
    rewrite <- (He1 j Hne) in Hj. destruct (k_up _ _ _ _ Hk j Hj Hd') as [Hin|(p & Hp & Hdp)].
    + exists i. apply elem_of_list_to_set, elem_of_elements in Hin. split; [|by rewrite stop_err, He3, Hi2].
      apply (wf_kids _ Hw). unfold kids. by rewrite Hc.
    + exists p. rewrite stop_err, He3. split; [|done]. by rewrite <- (near_shape _ _ j Hs1).
  - by rewrite He3, Hi2.
Qed.

(** [cancel] ends the live contexts below [i], and nothing else. *)
Lemma cancel_spec e n i st : wf st → is_Some (cc st i) → (length st < n + i)%nat → 
  ∃ st', ctx_cancel n e i st = Ok st' ∧ kills e {[i]} st st' ∧ err_at st' i ≠ None.
Proof.
  revert i st. induction n as [|n IH]; intros i st Hw Hi Hn.
  - destruct Hi as [c Hc]. unfold cc in Hc. destruct (st !! i) eqn:E; [|done]. apply lookup_lt_Some in E. lia.
  - cbn [ctx_cancel]. destruct (body_spec e (ctx_cancel n e) i st Hw Hi) as (st' & -> & Hk & Hd).
    { intros j Hj st1 Hs1 Hw1. pose proof (wf_kids _ Hw i j Hj) as Hnear. pose proof (near_lt _ _ _ Hw Hnear) as (Hlt & Hcj & _).
      apply IH; [done|by apply (shape_cc _ _ j Hs1)|rewrite (shape_length _ _ Hs1); lia]. }
    cbn [mbind outcome_bind]. exists (stop_timer i st'). split; [done|]. split; [done|]. by rewrite stop_err.
Qed.

(** ** Other changes of the store *)

Lemma wf_ext st st' : shape st' = shape st → (∀ i, cc st' i = cc st i) → wf st → wf st'.
Proof.
  intros Hs Hc Hw. assert (∀ i, err_at st' i = err_at st i) as He by (intros i; by rewrite !err_at_cc, Hc).
  assert (∀ q, kids st' q = kids st q) as Hk by (intros q; unfold kids; by rewrite Hc). split.
  - intros i p. rewrite (parent_shape _ _ i Hs). apply (wf_parent _ Hw).
  - intros i c. rewrite Hc. apply (wf_done _ Hw).
  - intros q j. rewrite Hk, (near_shape _ _ j Hs). apply (wf_kids _ Hw).
  - intros q j. rewrite Hk, (near_shape _ _ j Hs), !He. apply (wf_live _ Hw).
Qed.

(** A set of children is changed. *)
Lemma alter_children_cc f i j st :
  cc (alter_children f i st) j = if decide (j = i) then (fun c => mkCancel (done c) (f (children c)) (err c)) <$> cc st i else cc st j.
Proof.
  destruct (cc st i) as [c|] eqn:Hc.
  - rewrite (alter_children_put _ _ _ _ Hc). rewrite put_cancel_cc by (by eexists). done.
  - unfold alter_children. rewrite cc_alter. destruct (decide (j = i)) as [->|]; [|done].
    unfold cc in Hc. destruct (st !! i) as [x|]; [|done]. cbn in *. by rewrite Hc.
Qed.
Lemma alter_children_shape f i st : shape (alter_children f i st) = shape st.
Proof. unfold alter_children. apply alter_shape. intros x. destruct (cancel_of x); [apply strip_set_cancel|done]. Qed.
Lemma alter_children_err f i j st : err_at (alter_children f i st) j = err_at st j.
Proof. rewrite !err_at_cc, alter_children_cc. destruct (decide (j = i)) as [->|]; [|done]. by destruct (cc st i). Qed.
Lemma alter_children_kids f i j st : kids (alter_children f i st) j = if decide (j = i) then match cc st i with Some c => f (children c) | None => ∅ end else kids st j.
Proof. unfold kids. rewrite alter_children_cc. destruct (decide (j = i)) as [->|]; [|done]. by destruct (cc st i). Qed.
Lemma alter_children_timer f i j st : timer_at (alter_children f i st) j = timer_at st j.
Proof.
  unfold alter_children. rewrite timer_alter. destruct (decide (j = i)) as [->|]; [|done]. unfold timer_at. by destruct (st !! i) as [[]|].
Qed.

(** A context without a near canceler is the child of none. *)
Lemma Done_parentCancel st n i : Done_fuel n st i = parentCancel_fuel n st i.
Proof. revert i. induction n as [|n IH]; intros i; [done|]. cbn. by destruct (st !! i) as [[]|]. Qed.

Lemma parentCancel_enough st n i : wf st → (i < n)%nat → parentCancel_fuel n st i = parentCancelCtx st i.
Proof.
  intros Hw. revert i. assert (∀ m i, (i < n)%nat → (i < m)%nat → parentCancel_fuel n st i = parentCancel_fuel m st i) as H; [|intros i Hi; apply H; lia].
  induction n as [|n IH]; intros m i Hn Hm; [lia|]. destruct m as [|m]; [lia|]. cbn [parentCancel_fuel].
  destruct (st !! i) as [[]|] eqn:E; try done. assert (parent0 < i)%nat by (apply (wf_parent _ Hw); unfold parent; by rewrite E).
  apply IH; lia.
Qed.

Lemma parentCancel_value st i p k v : wf st → st !! i = Some (ValueCtx p k v) → parentCancelCtx st i = parentCancelCtx st p.
Proof.
  intros Hw E. assert (p < i)%nat by (apply (wf_parent _ Hw); unfold parent; by rewrite E).
  unfold parentCancelCtx at 1. cbn [parentCancel_fuel]. rewrite E. by apply parentCancel_enough.
Qed.

(** [Err] is that of the context that cancels it. *)
Lemma Err_parentCancel st n i : Err_fuel n st i = parentCancel_fuel n st i ≫= err_at st.
Proof.
  revert i. induction n as [|n IH]; intros i; [done|]. cbn. destruct (st !! i) as [[]|] eqn:E; cbn; try done.
  - unfold err_at. by rewrite E.
  - unfold err_at. by rewrite E.
Qed.

(** ** A new context *)

Lemma app_old st x i : (i < length st)%nat → (st ++ [x]) !! i = st !! i.
Proof. intros. by apply lookup_app_l. Qed.
Lemma app_new st x : (st ++ [x]) !! length st = Some x.
Proof. rewrite lookup_app_r by lia. by rewrite Nat.sub_diag. Qed.

Lemma parentCancel_app st x n i : wf st → (i < length st)%nat → parentCancel_fuel n (st ++ [x]) i = parentCancel_fuel n st i.
Proof.
  intros Hw. revert i. induction n as [|n IH]; intros i Hi; [done|]. cbn [parentCancel_fuel]. rewrite app_old by done.
  destruct (st !! i) as [[]|] eqn:E; try done. apply IH.
  assert (parent0 < i)%nat by (apply (wf_parent _ Hw); unfold parent; by rewrite E). lia.
Qed.

Lemma app_cc st x i : cc (st ++ [x]) i = if decide (i = length st) then cancel_of x else cc st i.
Proof.
  unfold cc. destruct (decide (i = length st)) as [->|Hi]; [by rewrite app_new|].
  destruct (decide (i < length st)%nat); [by rewrite app_old|]. rewrite (lookup_ge_None_2 st) by lia.
  rewrite lookup_ge_None_2; [done|]. rewrite length_app. cbn. lia.
Qed.

Lemma app_parent st x i : parent (st ++ [x]) i = if decide (i = length st) then parent_of x else parent st i.
Proof.
  unfold parent. destruct (decide (i = length st)) as [->|Hi]; [by rewrite app_new|].
  destruct (decide (i < length st)%nat); [by rewrite app_old|]. rewrite (lookup_ge_None_2 st) by lia.
  rewrite lookup_ge_None_2; [done|]. rewrite length_app. cbn. lia.
Qed.

Lemma app_timer st x i : timer_at (st ++ [x]) i = if decide (i = length st) then timer_at [x] 0 else timer_at st i.
Proof.
  unfold timer_at. destruct (decide (i = length st)) as [->|Hi]; [by rewrite app_new|].
  destruct (decide (i < length st)%nat); [by rewrite app_old|]. rewrite (lookup_ge_None_2 st) by lia.
  rewrite lookup_ge_None_2; [done|]. rewrite length_app. cbn. lia.
Qed.

Lemma app_near st x i : wf st → (∀ p, parent_of x = Some p → (p < length st)%nat) →
  near (st ++ [x]) i = if decide (i = length st) then match cancel_of x with Some _ => p ← parent_of x; parentCancelCtx st p | None => None end else near st i.
Proof.
  intros Hw Hp. unfold near. rewrite app_cc, app_parent. destruct (decide (i = length st)) as [->|Hi].
  - destruct (cancel_of x); [|done]. destruct (parent_of x) as [p|] eqn:E; [|done]. by apply parentCancel_app; [|apply Hp].
  - destruct (cc st i) eqn:Ec; [|done]. destruct (parent st i) as [p|] eqn:Ep; [|done]. apply parentCancel_app; [done|].
    pose proof (wf_parent _ Hw _ _ Ep). unfold cc in Ec. destruct (st !! i) eqn:E; [|done]. apply lookup_lt_Some in E. lia.
Qed.

(** A new context keeps the store well-formed if it need not be the child of a live one. *)
Lemma app_wf st x p : wf st → parent_of x = Some p → (p < length st)%nat → (cancel_of x = None ∨ cancel_of x = Some newCancelCtx) →
  (∀ q, cancel_of x ≠ None → parentCancelCtx st p = Some q → err_at st q ≠ None) → wf (st ++ [x]).
Proof.
  intros Hw Hp Hlt Hx Hq. assert (∀ p', parent_of x = Some p' → (p' < length st)%nat) as Hp' by (intros p'; rewrite Hp; by intros [= <-]).
  assert (∀ q, kids (st ++ [x]) q = kids st q) as Hk.
  { intros q. unfold kids. rewrite app_cc. destruct (decide (q = length st)) as [->|]; [|done].
    assert (cc st (length st) = None) as -> by (unfold cc; by rewrite lookup_ge_None_2). by destruct Hx as [->| ->]. }
  split.
  - intros i p'. rewrite app_parent. destruct (decide (i = length st)) as [->|]; [apply Hp'|apply (wf_parent _ Hw)].
  - intros i c. rewrite app_cc. destruct (decide (i = length st)); [|apply (wf_done _ Hw)]. destruct Hx as [->| ->]; [done|by intros [= <-]].
  - intros q j. rewrite Hk, app_near by done. intros Hj. apply (wf_kids _ Hw) in Hj. pose proof (near_lt _ _ _ Hw Hj). rewrite decide_False by lia. done.
  - intros q j. rewrite Hk, app_near, !err_at_cc, !app_cc by done. destruct (decide (j = length st)) as [->|].
    + rewrite Hp. cbn. destruct (cancel_of x) as [c|] eqn:Ec; [|done]. intros Hn Hqn _. pose proof (Hq q ltac:(done) Hn) as Hd.
      pose proof (parentCancel_le st (S p) p q Hw Hn) as [? _]. rewrite decide_False in Hqn by lia. by rewrite <- err_at_cc in Hqn.
    + intros Hn. pose proof (near_lt _ _ _ Hw Hn). rewrite decide_False by lia. rewrite <- !err_at_cc. by apply (wf_live _ Hw).
Qed.
End Facts.
