(* ===== verification/CtxInv.v ===== *)
(** * The invariant of contexts

    What holds of the store and of the actions that goroutines have left, between any two
    steps: no live context hangs below a done one, and whatever a done context still has is
    waited for by an action. *)
From Stdlib Require Import ZArith Lia.
From stdpp Require Import base option list gmap.
From S2P Require Import Prelude GoNum Ctx CtxFacts.

Section Inv.
Context {K V : Type} `{EqDecision K}.
Implicit Types (st : list (context K V)) (i j p q : nat).

(** ** The invariant

    [P] are the actions that goroutines have left, and [X] the contexts that have yet to
    follow their parents. *)
Definition action_ok st (a : action) : Prop :=
  match a with
  | ACancel i _ => is_Some (cc st i)
  | ARemove i | AStop i => err_at st i ≠ None
  | ADeadline i d => ∃ p c t, st !! i = Some (TimerCtx p c t d)
  end.

Record inv (X : gset nat) st (P : action → Prop) : Prop := {
  i_wf : wf st;
  i_down : ∀ q j, j ∉ X → near st j = Some q → err_at st q ≠ None → err_at st j ≠ None;
  i_kids : ∀ q j, j ∈ kids st q → err_at st q = None ∧ (err_at st j = None ∨ P (ARemove j));
  i_timer : ∀ j, timer_at st j = true → err_at st j = None ∨ P (AStop j);
  i_actions : ∀ a, P a → action_ok st a
}.

Lemma inv_actions st (P P' : action → Prop) : inv ∅ st P → (∀ j, P (ARemove j) → P' (ARemove j)) → (∀ j, P (AStop j) → P' (AStop j)) → (∀ a, P' a → P a ∨ action_ok st a) → inv ∅ st P'.
Proof.
  intros [Hw Hd Hk Ht Ha] H1 H1' H2. split; [done|done| | |].
  - intros q j Hj. destruct (Hk q j Hj) as [? [?|?]]; auto.
  - intros j Hj. destruct (Ht j Hj); auto.
  - intros a Ha'. destruct (H2 a Ha'); auto.
Qed.

Lemma shape_deadline st st' i d : shape st = shape st' → (∃ p c t, st !! i = Some (TimerCtx p c t d)) → ∃ p c t, st' !! i = Some (TimerCtx p c t d).
Proof.
  intros Hs (p & c & t & E). pose proof (shape_lookup _ _ i Hs) as H. rewrite E in H.
  destruct (st' !! i) as [[]|]; cbn in H; try done. injection H as <- <-. by eexists _, _, _.
Qed.

(** ** Cancellation *)

Lemma action_ok_kills e R st st' a : kills e R st st' → action_ok st a → action_ok st' a.
Proof.
  intros Hk. destruct a; cbn.
  - by apply (shape_cc _ _ _ (k_shape _ _ _ _ Hk)).
  - intros H. by rewrite (kills_dead _ _ _ _ _ Hk H).
  - intros H. by rewrite (kills_dead _ _ _ _ _ Hk H).
  - apply (shape_deadline _ _ _ _ (k_shape _ _ _ _ Hk)).
Qed.

(** The cancellation of [i], with what is then left to do for it. *)
Lemma inv_kills e i st st' (P P' : action → Prop) :
  inv {[i]} st P → kills e {[i]} st (stop_timer i st') → err_at st' i ≠ None →
  (∀ j, P (ARemove j) → P' (ARemove j)) → (∀ j, P (AStop j) → P' (AStop j)) → (∀ a, P' a → P a ∨ action_ok st' a) →
  (∀ q, i ∈ kids st q → err_at st i = None → P' (ARemove i)) → (timer_at st' i = true → P' (AStop i)) → inv ∅ st' P'.
Proof.
  intros [Hw Hd Hki Ht Ha] Hk Hi H1 H1' H2 Hrem Hstop.
  assert (∀ j, err_at (stop_timer i st') j = err_at st' j) as He by (intros j; apply stop_err).
  assert (∀ q, kids (stop_timer i st') q = kids st' q) as Hkk by (intros q; unfold kids; by rewrite stop_cc).
  assert (shape st' = shape st) as Hs by (by rewrite (k_shape _ _ _ _ Hk), stop_shape).
  assert (wf st') as Hw'.
  { apply (wf_ext (stop_timer i st')); [by rewrite stop_shape|intros j; by rewrite stop_cc|]. by apply (kills_wf e {[i]} st). }
  assert (∀ j, err_at st j ≠ None → err_at st' j ≠ None) as Hmono.
  { intros j Hj. rewrite <- He, (kills_dead _ _ _ _ _ Hk Hj). done. }
  split; [done| | | |].
  - intros q j _. rewrite (near_shape _ _ j Hs). intros Hn Hq. destruct (decide (j = i)) as [->|Hji]; [done|]. destruct (decide (err_at st q = None)) as [Hq0|Hq0].
    + rewrite <- He. apply (k_down _ _ _ _ Hk q j); [done|done|]. by rewrite He.
    + apply Hmono, (Hd q); [set_solver|done|done].
  - intros q j Hj. rewrite <- Hkk in Hj. pose proof (kills_kids _ _ _ _ q Hk j Hj) as Hj0. destruct (Hki q j Hj0) as [Hq0 Hor].
    assert (err_at st' q = None) as Hq.
    { rewrite <- He. destruct (cc st q) as [c|] eqn:Ec; [|unfold kids in Hj0; rewrite Ec in Hj0; set_solver].
      destruct (k_node _ _ _ _ Hk q c Ec) as (c' & Ec' & [->|[_ ->]]).
      - rewrite err_at_cc, Ec'. rewrite err_at_cc, Ec in Hq0. done.
      - unfold kids in Hj. rewrite Ec' in Hj. cbn in Hj. set_solver. }
    split; [done|]. destruct Hor as [Hj1|Hj1]; [|right; auto]. destruct (decide (err_at st' j = None)) as [|Hj2]; [by left|right].
    rewrite <- He in Hj2. destruct (k_up _ _ _ _ Hk j Hj1 Hj2) as [->%elem_of_singleton|(p & Hp & Hdp)]; [by apply (Hrem q)|].
    rewrite (wf_kids _ Hw _ _ Hj0) in Hp. injection Hp as <-. by rewrite He in Hdp.
  - intros j Hj. destruct (decide (j = i)) as [->|Hne]; [right; auto|].
    assert (timer_at (stop_timer i st') j = true) as Hj' by (by rewrite stop_timer_at, decide_False).
    destruct (k_timer _ _ _ _ Hk j Hj') as [Hj0 Hn]. destruct (Ht j Hj0) as [Hl|Hl]; [left|right; auto]. rewrite <- He. auto.
  - intros a Ha'. destruct (H2 a Ha') as [HP|]; [|done]. pose proof (action_ok_kills _ _ _ _ a Hk (Ha a HP)) as Hok.
    destruct a; cbn in *; [|by rewrite He in Hok|by rewrite He in Hok|].
    + by rewrite stop_cc in Hok.
    + eapply shape_deadline; [|exact Hok]. apply stop_shape.
Qed.

(** ** New contexts *)

Lemma app_err st x j : (j < length st)%nat → err_at (st ++ [x]) j = err_at st j.
Proof. intros Hj. rewrite !err_at_cc, app_cc. by rewrite decide_False by lia. Qed.

Lemma kids_lt st q j : wf st → j ∈ kids st q → (q < j < length st)%nat.
Proof. intros Hw Hj. apply (wf_kids _ Hw) in Hj. apply (near_lt _ _ _ Hw Hj). Qed.

Lemma timer_lt st j : timer_at st j = true → (j < length st)%nat.
Proof. unfold timer_at. destruct (st !! j) eqn:E; [|done]. intros _. by apply lookup_lt_Some in E. Qed.

Lemma err_lt st j : err_at st j ≠ None → (j < length st)%nat.
Proof. rewrite err_at_cc. unfold cc. destruct (st !! j) eqn:E; [|done]. intros _. by apply lookup_lt_Some in E. Qed.

Lemma action_ok_app st x a : action_ok st a → action_ok (st ++ [x]) a.
Proof.
  destruct a; cbn.
  - intros [c Hc]. rewrite app_cc. destruct (decide (i = length st)) as [->|]; [|by eexists].
    unfold cc in Hc. by rewrite lookup_ge_None_2 in Hc.
  - intros Hd. pose proof (err_lt _ _ Hd). by rewrite app_err.
  - intros Hd. pose proof (err_lt _ _ Hd). by rewrite app_err.
  - intros (p & c & t & E). exists p, c, t. rewrite app_old; [done|by apply lookup_lt_Some in E].
Qed.

(** A context is appended; it may have to follow a parent that is done. *)
Lemma inv_app st P x p : inv ∅ st P → parent_of x = Some p → (p < length st)%nat →
  (cancel_of x = None ∨ cancel_of x = Some newCancelCtx) → timer_at [x] 0 = false →
  (∀ q, cancel_of x ≠ None → parentCancelCtx st p = Some q → err_at st q ≠ None) →
  inv (if decide (cancel_of x ≠ None ∧ parentCancelCtx st p ≠ None) then {[length st]} else ∅) (st ++ [x]) P.
Proof.
  intros [Hw Hd Hk Ht Ha] Hp Hlt Hx Htx Hq. pose proof (app_wf st x p Hw Hp Hlt Hx Hq) as Hw'.
  assert (∀ p', parent_of x = Some p' → (p' < length st)%nat) as Hp' by (intros p'; rewrite Hp; by intros [= <-]).
  assert (∀ q, kids (st ++ [x]) q = kids st q) as Hkk.
  { intros q. unfold kids. rewrite app_cc. destruct (decide (q = length st)) as [->|]; [|done].
    assert (cc st (length st) = None) as -> by (unfold cc; by rewrite lookup_ge_None_2). by destruct Hx as [->| ->]. }
  split; [done| | | |].
  - intros q j HX. rewrite app_near by done. destruct (decide (j = length st)) as [->|Hj].
    + rewrite Hp. cbn [mbind option_bind]. destruct (cancel_of x); [|done]. intros Hn. rewrite Hn in HX. rewrite decide_True in HX by done. set_solver.
    + intros Hn. pose proof (near_lt _ _ _ Hw Hn). rewrite !app_err by lia. apply Hd; [set_solver|done].
  - intros q j. rewrite Hkk. intros Hj. pose proof (kids_lt _ _ _ Hw Hj). rewrite !app_err by lia. by apply Hk.
  - intros j. rewrite app_timer. destruct (decide (j = length st)); [by rewrite Htx|]. intros Hj. pose proof (timer_lt _ _ Hj). rewrite app_err by lia. by apply Ht.
  - intros a HP. by apply action_ok_app, Ha.
Qed.

(** Killing a context without live contexts below it changes no other. *)
Lemma kills_alone e i st st' P : inv {[i]} st P → kills e {[i]} st st' → (∀ j, near st j ≠ Some i) → ∀ j, j ≠ i → err_at st' j = err_at st j.
Proof.
  intros Hi Hk Hn j. induction (lt_wf j) as [j _ IH]. intros Hj.
  destruct (decide (err_at st j = None)) as [E|E]; [|by rewrite (kills_dead _ _ _ _ _ Hk E)]. rewrite E.
  destruct (decide (err_at st' j = None)) as [|E']; [done|]. exfalso.
  destruct (k_up _ _ _ _ Hk j E E') as [?%elem_of_singleton|(p & Hp & Hd)]; [done|].
  pose proof (near_lt _ _ _ (i_wf _ _ _ Hi) Hp) as [[Hlt _] _]. assert (p ≠ i) as Hpi by (intros ->; by apply (Hn j)).
  rewrite (IH p Hlt Hpi) in Hd. by apply (i_down _ _ _ Hi p j); [set_solver|..].
Qed.

Lemma kills_stop e i st st' : kills e {[i]} st st' → err_at st' i ≠ None → kills e {[i]} st (stop_timer i st').
Proof. intros Hk Hd. pose proof (kills_trans _ _ _ _ _ _ Hk (stop_kills e {[i]} i st' Hd)) as H'. by rewrite union_idemp_L in H'. Qed.

(** A context becomes the child of a live one. *)
Lemma inv_adopt st P x p q : inv ∅ st P → parent_of x = Some p → (p < length st)%nat →
  cancel_of x = Some newCancelCtx → timer_at [x] 0 = false → parentCancelCtx st p = Some q → err_at st q = None →
  inv ∅ (alter_children (fun cs => {[length st]} ∪ cs) q (st ++ [x])) P.
Proof.
  intros [Hw Hd Hk Ht Ha] Hp Hlt Hx Htx Eq Hq. set (st1 := alter_children _ q _).
  pose proof (parentCancel_le st (S p) p q Hw Eq) as [Hqp [cq Hcq]].
  assert (∀ p', parent_of x = Some p' → (p' < length st)%nat) as Hp' by (intros p'; rewrite Hp; by intros [= <-]).
  assert (shape st1 = shape (st ++ [x])) as Hs by apply alter_children_shape.
  assert (∀ j, cc (st ++ [x]) j = if decide (j = length st) then Some newCancelCtx else cc st j) as Hcc by (intros j; by rewrite app_cc, Hx).
  assert (∀ j, err_at st1 j = if decide (j = length st) then None else err_at st j) as He.
  { intros j. unfold st1. rewrite alter_children_err, !err_at_cc, Hcc. by destruct (decide (j = length st)). }
  assert (∀ j, near st1 j = if decide (j = length st) then Some q else near st j) as Hn.
  { intros j. rewrite (near_shape _ _ j Hs), app_near, Hx, Hp by done. cbn [mbind option_bind]. by rewrite Eq. }
  assert (∀ j, kids st1 j = if decide (j = q) then {[length st]} ∪ kids st q else kids st j) as Hkk.
  { intros j. unfold st1. rewrite alter_children_kids, Hcc. rewrite (decide_False (P := q = length st)) by lia. rewrite Hcq. unfold kids. rewrite Hcq, Hcc.
    destruct (decide (j = q)); [done|]. destruct (decide (j = length st)) as [->|]; [|done]. unfold cc. by rewrite lookup_ge_None_2. }
  split; [split| | | |].
  - intros j p'. rewrite (parent_shape _ _ j Hs), app_parent. destruct (decide (j = length st)) as [->|]; [apply Hp'|apply (wf_parent _ Hw)].
  - intros j c. unfold st1. rewrite alter_children_cc, !Hcc. rewrite (decide_False (P := q = length st)) by lia.
    destruct (decide (j = q)) as [->|]; [rewrite Hcq; cbn [fmap option_fmap option_map]; intros [= <-]; exact (wf_done _ Hw q cq Hcq)|].
    destruct (decide (j = length st)); [by intros [= <-]|apply (wf_done _ Hw)].
  - intros q' j. rewrite Hkk, Hn. destruct (decide (q' = q)) as [->|].
    + intros [->%elem_of_singleton|Hj]%elem_of_union; [by rewrite decide_True|]. pose proof (kids_lt _ _ _ Hw Hj).
      rewrite decide_False by lia. by apply (wf_kids _ Hw).
    + intros Hj. pose proof (kids_lt _ _ _ Hw Hj). rewrite decide_False by lia. by apply (wf_kids _ Hw).
  - intros q' j. rewrite Hkk, Hn, !He. destruct (decide (j = length st)) as [->|].
    + intros [= <-] _ _. rewrite decide_True by done. set_solver.
    + intros Hnj. pose proof (near_lt _ _ _ Hw Hnj). rewrite decide_False by lia. intros H1 H2. pose proof (wf_live _ Hw q' j Hnj H1 H2).
      destruct (decide (q' = q)) as [->|]; set_solver.
  - intros q' j _. rewrite Hn, !He. destruct (decide (j = length st)) as [->|].
    + intros [= <-]. rewrite decide_False by lia. by rewrite Hq.
    + intros Hnj. pose proof (near_lt _ _ _ Hw Hnj). rewrite decide_False by lia. apply Hd; [set_solver|done].
  - intros q' j. rewrite Hkk, !He. intros Hj. assert (j = length st ∧ q' = q ∨ j ∈ kids st q') as [[-> ->]|Hj'].
    { destruct (decide (q' = q)) as [->|]; [|by right]. apply elem_of_union in Hj as [->%elem_of_singleton|?]; auto. }
    + rewrite (decide_False (P := q = length st)), decide_True by lia. auto.
    + pose proof (kids_lt _ _ _ Hw Hj'). rewrite !decide_False by lia. by apply Hk.
  - intros j. unfold st1. rewrite alter_children_timer, app_timer. fold st1. rewrite He. destruct (decide (j = length st)); [by left|]. apply Ht.
  - intros a HP. pose proof (action_ok_app st x a (Ha a HP)) as Hok. destruct a; cbn in *.
    + unfold st1. by apply (shape_cc _ _ _ Hs).
    + unfold st1. by rewrite alter_children_err.
    + unfold st1. by rewrite alter_children_err.
    + eapply shape_deadline; [|exact Hok]. by rewrite Hs.
Qed.

(** What [propagateCancel] does for a new context. *)
Lemma propagate_spec st P x p : inv ∅ st P → parent_of x = Some p → (p < length st)%nat →
  cancel_of x = Some newCancelCtx → timer_at [x] 0 = false →
  ∃ st', propagateCancel p (length st) (st ++ [x]) = Ok st' ∧ inv ∅ st' P ∧ shape st' = shape (st ++ [x]) ∧
    err_at st' (length st) = parentCancelCtx st p ≫= err_at st ∧ ∀ j, j ≠ length st → err_at st' j = err_at st j.
Proof.
  intros Hi Hp Hlt Hx Htx. pose proof (i_wf _ _ _ Hi) as Hw. unfold propagateCancel.
  assert (parentCancelCtx (st ++ [x]) p = parentCancelCtx st p) as Epc by (by apply parentCancel_app).
  assert (Done (st ++ [x]) p = parentCancelCtx st p) as -> by (rewrite <- Epc; apply Done_parentCancel). rewrite Epc.
  pose proof (inv_app st P x p Hi Hp Hlt ltac:(by right) Htx) as Happ. rewrite Hx in Happ.
  assert (err_at (st ++ [x]) (length st) = None) as Hnew by (by rewrite err_at_cc, app_cc, decide_True, Hx).
  assert (∀ j, j ≠ length st → err_at (st ++ [x]) j = err_at st j) as Hold by (intros j Hj; by rewrite !err_at_cc, app_cc, decide_False).
  destruct (parentCancelCtx st p) as [q|] eqn:Eq.
  - pose proof (parentCancel_le st (S p) p q Hw Eq) as [Hqp Hcq]. rewrite Hold by lia. cbn [mbind option_bind].
    destruct (err_at st q) as [e|] eqn:Ee.
    + rewrite decide_True in Happ by done. specialize (Happ ltac:(intros q' _ [= <-]; by rewrite Ee)).
      destruct (cancel_spec e (length (st ++ [x])) (length st) (st ++ [x]) (i_wf _ _ _ Happ)) as (st' & -> & Hk & Hd).
      { rewrite app_cc, decide_True, Hx by done. by eexists. }
      { lia. }
      assert (∀ j, near (st ++ [x]) j ≠ Some (length st)) as Hnn.
      { intros j. rewrite app_near by (done || (intros ?; rewrite Hp; by intros [= <-])). destruct (decide (j = length st)); [|intros Hn; apply (near_lt _ _ _ Hw) in Hn; lia].
        rewrite Hp, Hx. cbn [mbind option_bind]. rewrite Eq. intros [= ->]. lia. }
      pose proof (kills_alone _ _ _ _ _ Happ Hk Hnn) as Hsame.
      exists st'. split; [done|]. split; [|split; [by rewrite <- (k_shape _ _ _ _ Hk)|split]].
      * apply (inv_kills e (length st) (st ++ [x]) st' P P Happ); [by apply kills_stop|done|auto|auto|auto| |].
        -- intros q' Hq'. apply (wf_kids _ (i_wf _ _ _ Happ)) in Hq' as Hn.
           destruct (i_kids _ _ _ Happ q' _ Hq') as [Hal _]. rewrite app_near in Hn by (done || (intros ?; rewrite Hp; by intros [= <-])).
           rewrite decide_True, Hx, Hp in Hn by done. cbn [mbind option_bind] in Hn. rewrite Eq in Hn. injection Hn as <-. by rewrite Hold, Ee in Hal by lia.
        -- intros Ht. destruct (k_timer _ _ _ _ Hk _ Ht) as [Ht' _]. by rewrite app_timer, decide_True, Htx in Ht'.
      * destruct (k_node _ _ _ _ Hk (length st) newCancelCtx) as (c' & Ec' & Hc'); [by rewrite app_cc, decide_True|].
        rewrite err_at_cc, Ec' in Hd |- *. destruct Hc' as [->|[_ ->]]; [done|]. done.
      * intros j Hj. by rewrite Hsame, Hold.
    + eexists. split; [done|]. rewrite alter_children_shape. split; [by apply (inv_adopt st P x p q)|]. split; [done|].
      split; [by rewrite alter_children_err, Hnew|]. intros j Hj. by rewrite alter_children_err, Hold.
  - rewrite decide_False in Happ by tauto. exists (st ++ [x]). split; [done|]. split; [by apply Happ|]. split; [done|]. split; [by rewrite Hnew|done].
Qed.

(** ** Goroutines *)

Definition pending (s : cstate K V) (a : action) : Prop := ∃ g l, goroutines s !! g = Some l ∧ a ∈ l.

Lemma pending_go st gs l a : pending (mkC st (gs ++ [l])) a ↔ pending (mkC st gs) a ∨ a ∈ l.
Proof.
  unfold pending. cbn [goroutines]. split.
  - intros (g & l' & Hg & Ha). apply lookup_app_Some in Hg as [?|[_ Hg]]; [left; by exists g, l'|right].
    destruct (g - length gs)%nat as [|?]; [by injection Hg as ->|done].
  - intros [(g & l' & Hg & Ha)|Ha].
    + exists g, l'. split; [|done]. by apply lookup_app_l_Some.
    + exists (length gs), l. split; [|done]. rewrite lookup_app_r by lia. by rewrite Nat.sub_diag.
Qed.

Lemma pending_store st st' gs a : pending (mkC st gs) a ↔ pending (mkC st' gs) a.
Proof. done. Qed.

Lemma pending_run st gs g a0 k next a : gs !! g = Some (a0 :: k) →
  (pending (mkC st gs) a → a ≠ a0 → pending (mkC st (<[g := next ++ k]> gs)) a) ∧
  (a ∈ next → pending (mkC st (<[g := next ++ k]> gs)) a) ∧
  (pending (mkC st (<[g := next ++ k]> gs)) a → a ∈ next ∨ pending (mkC st gs) a).
Proof.
  intros Hg. unfold pending. cbn [goroutines]. assert (g < length gs)%nat as Hlt by (by apply lookup_lt_Some in Hg).
  split_and!.
  - intros (g' & l' & Hg' & Ha) Hne. destruct (decide (g' = g)) as [->|Hd].
    + rewrite Hg in Hg'. injection Hg' as <-. exists g, (next ++ k). rewrite list_lookup_insert_eq by done. split; [done|]. set_solver.
    + exists g', l'. by rewrite list_lookup_insert_ne.
  - intros Ha. exists g, (next ++ k). rewrite list_lookup_insert_eq by done. set_solver.
  - intros (g' & l' & Hg' & Ha). destruct (decide (g' = g)) as [->|Hd].
    + rewrite list_lookup_insert_eq in Hg' by done. injection Hg' as <-. apply elem_of_app in Ha as [?|?]; [by left|right].
      exists g, (a0 :: k). split; [done|]. set_solver.
    + rewrite list_lookup_insert_ne in Hg' by done. right. by exists g', l'.
Qed.

Definition ctx_sys (s : cstate K V) : Prop := inv ∅ (ctxs s) (pending s).

(** [i] is [j], or cancels it through the contexts between them. *)
Definition above st : nat → nat → Prop := rtc (fun a b => near st b = Some a).

(** Where errors and cancellations come from. *)
Definition err_source (s t : cstate K V) : Prop := ∀ j e, err_at (ctxs t) j = Some e →
  err_at (ctxs s) j = Some e ∨
  (∃ q, near (ctxs t) j = Some q ∧ err_at (ctxs s) q = Some e) ∨
  (∃ i, pending s (ACancel i e) ∧ above (ctxs t) i j).

Definition deadline_of st i (d : Z) : Prop := ∃ p c t, st !! i = Some (TimerCtx p c t d).

Definition action_source (l : ctx_label K V) (s t : cstate K V) : Prop := ∀ a, pending t a →
  pending s a ∨
  match a with
  | ACancel i Canceled => l = LCancelFunc i
  | ACancel i DeadlineExceeded => ∃ d now, deadline_of (ctxs s) i d ∧ d ≤ now ∧ (l = LFire i now ∨ ∃ g, l = LRun g now)
  | _ => True
  end.

Definition grows st st' : Prop :=
  shape st `prefix_of` shape st' ∧ (∀ j q, near st j = Some q → near st' j = Some q) ∧ (∀ i d, deadline_of st i d → deadline_of st' i d).

Lemma grows_shape st st' : shape st = shape st' → grows st st'.
Proof.
  intros Hs. split; [by rewrite Hs|]. split; [intros j q; by rewrite (near_shape _ _ j Hs)|].
  intros i d. by apply shape_deadline.
Qed.

Lemma grows_app st x p : wf st → parent_of x = Some p → (p < length st)%nat → grows st (st ++ [x]).
Proof.
  intros Hw Hp Hlt. split; [unfold shape; rewrite map_app; by eexists|]. split.
  - intros j q Hn. pose proof (near_lt _ _ _ Hw Hn). rewrite app_near by (done || (intros ?; rewrite Hp; by intros [= <-])).
    by rewrite decide_False by lia.
  - intros i d (p' & c & t & E). exists p', c, t. rewrite app_old; [done|by apply lookup_lt_Some in E].
Qed.

Lemma grows_trans st1 st2 st3 : grows st1 st2 → grows st2 st3 → grows st1 st3.
Proof. intros (? & ? & ?) (? & ? & ?). split_and!; [by etrans|auto..]. Qed.

(** The newly ended contexts are below the one that was cancelled. *)
Lemma kills_above e i st st' P : inv ∅ st P → kills e {[i]} st st' → ∀ j, err_at st j = None → err_at st' j ≠ None → above st' i j.
Proof.
  intros Hi Hk j. induction (lt_wf j) as [j _ IH]. intros Hj Hd.
  destruct (k_up _ _ _ _ Hk j Hj Hd) as [->%elem_of_singleton|(p & Hp & Hdp)]; [apply rtc_refl|].
  pose proof (near_lt _ _ _ (i_wf _ _ _ Hi) Hp) as [[Hlt _] _].
  apply rtc_r with p; [|by rewrite <- (near_shape _ _ j (k_shape _ _ _ _ Hk))].
  apply (IH p Hlt); [|done]. destruct (decide (err_at st p = None)) as [|E]; [done|]. exfalso. by apply (i_down _ _ _ Hi p j); [set_solver|..].
Qed.

(** ** Steps *)

Definition step_good (l : ctx_label K V) (s : cstate K V) (r : outcome (cstate K V)) : Prop :=
  ∃ t, r = Ok t ∧ ctx_sys t ∧ err_source s t ∧ action_source l s t ∧ grows (ctxs s) (ctxs t).

Lemma new_good l s x p gs : ctx_sys s → parent_of x = Some p → (p < length (ctxs s))%nat → cancel_of x = Some newCancelCtx → timer_at [x] 0 = false →
  (∀ a, a ∈ concat gs → ∃ d, x = TimerCtx p newCancelCtx false d ∧ a = ADeadline (length (ctxs s)) d) → (length gs ≤ 1)%nat →
  step_good l s (st' ← propagateCancel p (length (ctxs s)) (ctxs s ++ [x]); Ok (mkC st' (goroutines s ++ gs))).
Proof.
  intros Hs Hp Hlt Hx Htx Hgs Hlen. destruct (propagate_spec _ _ x p Hs Hp Hlt Hx Htx) as (st' & -> & Hi & Hsh & Hn & Ho).
  cbn [mbind outcome_bind]. eexists. split; [done|].
  assert (∀ a, pending (mkC st' (goroutines s ++ gs)) a ↔ pending s a ∨ a ∈ concat gs) as Hpe.
  { intros a. destruct gs as [|g1 [|g2 gs]]; cbn [length] in Hlen; [|rewrite pending_go; cbn [concat]; by rewrite app_nil_r|lia].
    rewrite app_nil_r. cbn [concat]. destruct s. split; [by left|]. intros [?|?%elem_of_nil]; done. }
  split_and!.
  - apply (inv_actions _ (pending s) _ Hi); intros a; rewrite Hpe; [by left|by left|]. intros [?|Ha]; [by left|right].
    destruct (Hgs a Ha) as (d & -> & ->). cbn [ctxs action_ok]. apply (shape_deadline (ctxs s ++ [TimerCtx p newCancelCtx false d])); [done|].
    exists p, newCancelCtx, false. apply app_new.
  - intros j e He. cbn [ctxs] in *. destruct (decide (j = length (ctxs s))) as [->|Hj]; [|left; by rewrite Ho in He].
    rewrite Hn in He. destruct (parentCancelCtx (ctxs s) p) as [q|] eqn:Eq; [|done]. cbn in He. right. left. exists q. split; [|done].
    rewrite (near_shape _ _ _ Hsh), app_near by (apply Hs || (intros ?; rewrite Hp; by intros [= <-])). rewrite decide_True, Hx, Hp by done. done.
  - intros a. rewrite Hpe. intros [?|Ha]; [by left|right]. by destruct (Hgs a Ha) as (d & _ & ->).
  - eapply grows_trans; [by eapply (grows_app _ x p); [apply Hs|..]|by apply grows_shape].
Qed.

Lemma WithCancel_good l p s : ctx_sys s → (p < length (ctxs s))%nat → step_good l s (WithCancel p s).
Proof.
  intros Hs Hp. unfold WithCancel. rewrite <- (app_nil_r (goroutines s)). apply new_good; try done; [|cbn; lia].
  intros a Ha. by apply elem_of_nil in Ha.
Qed.

Lemma WithDeadline_good l p d s : ctx_sys s → (p < length (ctxs s))%nat → step_good l s (WithDeadline p d s).
Proof.
  intros Hs Hp. unfold WithDeadline.
  assert (step_good l s (st' ← propagateCancel p (length (ctxs s)) (ctxs s ++ [TimerCtx p newCancelCtx false d]); Ok (mkC st' (goroutines s ++ [[ADeadline (length (ctxs s)) d]])))) as H.
  { apply new_good; try done. intros a Ha. cbn in Ha. exists d. split; [done|]. set_solver. }
  destruct (Deadline _ _) as [cur|]; [|done]. destruct (cur <? d); [by apply WithCancel_good|done].
Qed.

(** A step that leaves the store as it is. *)
Lemma same_store_good l s gs : ctx_sys s → (∀ a, pending (mkC (ctxs s) gs) a ↔ pending s a) ∨
  (∃ a0, gs = goroutines s ++ [[a0]] ∧ action_ok (ctxs s) a0 ∧ match a0 with
    | ACancel i Canceled => l = LCancelFunc i
    | ACancel i DeadlineExceeded => ∃ d now, deadline_of (ctxs s) i d ∧ d ≤ now ∧ (l = LFire i now ∨ ∃ g, l = LRun g now)
    | _ => True end) → step_good l s (Ok (mkC (ctxs s) gs)).
Proof.
  intros Hs Hg. eexists. split; [done|].
  assert (∀ a, pending (mkC (ctxs s) gs) a → pending s a ∨ action_ok (ctxs s) a) as Ha.
  { intros a. destruct Hg as [Hg|(a0 & -> & Hok & _)]; [rewrite Hg; by left|]. rewrite pending_go.
    intros [?| ->%list_elem_of_singleton]; [left; by destruct s|by right]. }
  assert (∀ a, pending s a → pending (mkC (ctxs s) gs) a) as Hb.
  { intros a. destruct Hg as [Hg|(a0 & -> & Hok & _)]; [by rewrite Hg|]. rewrite pending_go. left. by destruct s. }
  split_and!.
  - apply (inv_actions _ (pending s)); auto.
  - intros j e He. by left.
  - intros a Hp. destruct Hg as [Hg|(a0 & -> & Hok & Hsrc)]; [left; by apply Hg|]. apply pending_go in Hp as [?| ->%list_elem_of_singleton]; [left; by destruct s|].
    right. destruct a0 as [i e|i|i|i d]; [by destruct e|done..].
  - by apply grows_shape.
Qed.

Lemma above_shape st st' i j : shape st = shape st' → above st i j → above st' i j.
Proof. intros Hs. unfold above. apply rtc_subrel. intros a b. by rewrite (near_shape _ _ b Hs). Qed.

(** What a goroutine that takes the action [a0] does to the actions that are left. *)
Lemma pending_next s st g a0 k next : goroutines s !! g = Some (a0 :: k) →
  let t := mkC st (<[g := next ++ k]> (goroutines s)) in
  (∀ a, pending s a → a ≠ a0 → pending t a) ∧ (∀ a, a ∈ next → pending t a) ∧ (∀ a, pending t a → a ∈ next ∨ pending s a) ∧ pending s a0.
Proof.
  intros Hg. cbv zeta. split_and!.
  - intros a. by apply (pending_run st _ g a0 k next a).
  - intros a. by apply (pending_run st _ g a0 k next a).
  - intros a. by apply (pending_run st _ g a0 k next a).
  - exists g, (a0 :: k). split; [done|]. apply list_elem_of_here.
Qed.

Lemma cancel_run s i e : ctx_sys s → pending s (ACancel i e) →
  is_Some (cc (ctxs s) i) ∧ ∃ st', cancelCtx_cancel (ctx_cancel (length (ctxs s)) e) i e (ctxs s) = Ok st' ∧
    kills e {[i]} (ctxs s) (stop_timer i st') ∧ err_at st' i ≠ None.
Proof.
  intros Hs Hpa. pose proof (i_actions _ _ _ Hs _ Hpa) as Hcc. pose proof (i_wf _ _ _ Hs) as Hw. split; [done|].
  apply body_spec; [done|done|]. intros j Hj st1 Hs1 Hw1. pose proof (kids_lt _ _ _ Hw Hj).
  apply cancel_spec; [done| |rewrite (shape_length _ _ Hs1); lia].
  apply (shape_cc _ _ j Hs1), (near_lt _ _ _ Hw (wf_kids _ Hw _ _ Hj)).
Qed.

Lemma cancel_good g now i e k s : ctx_sys s → goroutines s !! g = Some (ACancel i e :: k) →
  step_good (LRun g now) s ('(st, next) ← run_action now (ACancel i e) (ctxs s); Ok (mkC st (<[g := next ++ k]> (goroutines s)))).
Proof.
  intros Hs Hg. assert (pending s (ACancel i e)) as Hpa by (exists g, (ACancel i e :: k); split; [done|apply list_elem_of_here]).
  destruct (cancel_run s i e Hs Hpa) as (Hcc & st' & Hb & Hk & Hd).
  cbn [run_action]. rewrite Hb. cbn [mbind outcome_bind].
  assert (shape (ctxs s) = shape st') as Hsh by (by rewrite (k_shape _ _ _ _ Hk), stop_shape).
  assert (∃ next, (match ctxs s !! i with Some (CancelCtx _ c) => Ok (st', if bool_decide (err c ≠ None) then [] else [ARemove i])
      | Some (TimerCtx _ _ _ _) => Ok (st', [ARemove i; AStop i]) | _ => Ok (st', []) end) = Ok (st', next) ∧
    (∀ a, a ∈ next → a = ARemove i ∨ a = AStop i) ∧ (err_at (ctxs s) i = None → ARemove i ∈ next) ∧ (timer_at st' i = true → AStop i ∈ next)) as (next & -> & Hn1 & Hn2 & Hn3).
  { pose proof (shape_lookup _ _ i Hsh) as E. unfold timer_at, err_at. destruct Hcc as [c Hc]. unfold cc in Hc.
    destruct (ctxs s !! i) as [[|p c0|p c0 t d|]|]; try done; cbn in E |- *; destruct (st' !! i) as [[]|]; try done;
      (eexists; split; [done|split; [|split]]); try (case_bool_decide); try set_solver. }
  cbn [mbind outcome_bind]. destruct (pending_next s st' g _ k next Hg) as (Hp1 & Hp2 & Hp3 & _). eexists. split; [done|]. split_and!.
  - unfold ctx_sys. cbn [ctxs]. apply (inv_kills e i (ctxs s) st' (pending s)); [|done..| | | | |].
    + destruct Hs as [? Hdn ? ? ?]. split; [done| |done..]. intros q j Hj. apply Hdn. set_solver.
    + intros j Hj. by apply Hp1.
    + intros j Hj. by apply Hp1.
    + intros a Ha. destruct (Hp3 a Ha) as [Hin|?]; [right|by left]. by destruct (Hn1 a Hin) as [->| ->].
    + intros q _ Hn. by apply Hp2, Hn2.
    + intros Ht. by apply Hp2, Hn3.
  - intros j e' He. cbn [ctxs] in *. destruct (decide (err_at (ctxs s) j = None)) as [E|E].
    + right. right. exists i. assert (e' = e) as ->.
      { destruct (cc (ctxs s) j) as [c|] eqn:Ec.
        - destruct (k_node _ _ _ _ Hk j c Ec) as (c' & Ec' & Hc'). rewrite stop_cc in Ec'. rewrite err_at_cc, Ec' in He. rewrite err_at_cc, Ec in E.
          destruct Hc' as [->|[_ ->]]; cbn in *; congruence.
        - pose proof (shape_cc _ _ j Hsh) as [_ H]. rewrite err_at_cc in He. destruct (cc st' j); [|done]. rewrite Ec in H. destruct H; [by eexists|done]. }
      split; [done|]. apply (above_shape (stop_timer i st')); [by rewrite stop_shape|]. apply (kills_above e i _ _ _ Hs Hk j E). rewrite stop_err. by rewrite He.
    + left. pose proof (kills_dead _ _ _ _ _ Hk E) as E'. rewrite stop_err in E'. by rewrite <- E'.
  - intros a Ha. destruct (Hp3 a Ha) as [Hin|?]; [right|by left]. by destruct (Hn1 a Hin) as [->| ->].
  - by apply grows_shape.
Qed.

(** An action that ends no context. *)
Lemma quiet_good g now a0 k next st' s : ctx_sys s → goroutines s !! g = Some (a0 :: k) → run_action now a0 (ctxs s) = Ok (st', next) →
  shape st' = shape (ctxs s) → (∀ j, err_at st' j = err_at (ctxs s) j) →
  ctx_sys (mkC st' (<[g := next ++ k]> (goroutines s))) →
  (∀ a, a ∈ next → ∃ i d, a = ACancel i DeadlineExceeded ∧ a0 = ADeadline i d ∧ d ≤ now) →
  step_good (LRun g now) s ('(st, next) ← run_action now a0 (ctxs s); Ok (mkC st (<[g := next ++ k]> (goroutines s)))).
Proof.
  intros Hs Hg -> Hsh He Hsys Hnext. cbn [mbind outcome_bind].
  destruct (pending_next s st' g a0 k next Hg) as (_ & _ & Hp3 & Hp0). eexists. split; [done|]. split; [done|]. split_and!.
  - intros j e. cbn [ctxs]. rewrite He. by left.
  - intros a Ha. destruct (Hp3 a Ha) as [Hin|?]; [right|by left]. destruct (Hnext a Hin) as (i & d & -> & -> & Hd).
    exists d, now. split; [|by eauto]. by apply (i_actions _ _ _ Hs (ADeadline i d)).
  - by apply grows_shape.
Qed.

(** Where a context was removed from its parent's children. *)
Lemma inv_remove st (P P' : action → Prop) i q : inv ∅ st P → near st i = Some q → err_at st i ≠ None →
  (∀ j, j ≠ i → P (ARemove j) → P' (ARemove j)) → (∀ j, P (AStop j) → P' (AStop j)) → (∀ a, P' a → P a) →
  inv ∅ (alter_children (fun cs => cs ∖ {[i]}) q st) P'.
Proof.
  intros [Hw Hd Hk Ht Ha] Hn Hdead H1 H2 H3. set (st1 := alter_children _ q st).
  assert (shape st1 = shape st) as Hs by apply alter_children_shape.
  assert (∀ j, err_at st1 j = err_at st j) as He by (intros j; apply alter_children_err).
  assert (∀ j, kids st1 j = if decide (j = q) then kids st q ∖ {[i]} else kids st j) as Hkk.
  { intros j. unfold st1. rewrite alter_children_kids. destruct (decide (j = q)); [|done]. unfold kids. destruct (cc st q); cbn; set_solver. }
  assert (∀ j q', j ∈ kids st1 q' → j ∈ kids st q' ∧ j ≠ i) as Hkid.
  { intros j q'. rewrite Hkk. destruct (decide (q' = q)) as [->|Hq]; [set_solver|]. intros Hj. split; [done|]. intros ->.
    apply (wf_kids _ Hw) in Hj. rewrite Hn in Hj. by injection Hj as ->. }
  split; [split| | | |].
  - intros j p. rewrite (parent_shape _ _ j Hs). apply (wf_parent _ Hw).
  - intros j c. unfold st1. rewrite alter_children_cc. destruct (decide (j = q)) as [->|]; [|apply (wf_done _ Hw)].
    destruct (cc st q) as [cq|] eqn:E; [|done]. cbn [fmap option_fmap option_map]. intros [= <-]. exact (wf_done _ Hw q cq E).
  - intros q' j Hj. rewrite (near_shape _ _ j Hs). by apply (wf_kids _ Hw), Hkid.
  - intros q' j. rewrite (near_shape _ _ j Hs), !He, Hkk. intros Hnj Hq Hj. pose proof (wf_live _ Hw q' j Hnj Hq Hj).
    destruct (decide (q' = q)) as [->|]; [|done]. apply elem_of_difference. split; [done|]. intros ->%elem_of_singleton. done.
  - intros q' j HX. rewrite (near_shape _ _ j Hs), !He. by apply Hd.
  - intros q' j Hj. destruct (Hkid j q' Hj) as [Hj' Hne]. rewrite !He. destruct (Hk q' j Hj') as [? [?|?]]; auto.
  - intros j. unfold st1. rewrite alter_children_timer. fold st1. rewrite He. intros Hj. destruct (Ht j Hj); auto.
  - intros a HP. pose proof (Ha a (H3 a HP)) as Hok. destruct a; cbn in *; rewrite ?He; try done.
    + by apply (shape_cc _ _ _ Hs).
    + eapply shape_deadline; [|exact Hok]. by rewrite Hs.
Qed.

(** Where only a timer was changed, to one that is allowed. *)
Lemma inv_timer st (P P' : action → Prop) f i : inv ∅ st P → (∀ x, strip (f x) = strip x) → (∀ x, cancel_of (f x) = cancel_of x) →
  (timer_at (alter f i st) i = true → err_at st i = None) →
  (∀ j, P (ARemove j) → P' (ARemove j)) → (∀ j, j ≠ i → P (AStop j) → P' (AStop j)) → (∀ a, P' a → P a ∨ action_ok st a) →
  inv ∅ (alter f i st) P'.
Proof.
  intros [Hw Hd Hk Ht Ha] Hf Hc Hti H1 H2 H3. set (st1 := alter f i st). assert (shape st1 = shape st) as Hs by (by apply alter_shape).
  assert (∀ j, cc st1 j = cc st j) as Hcc.
  { intros j. unfold st1. rewrite cc_alter. destruct (decide (j = i)) as [->|]; [|done]. unfold cc. destruct (st !! i); [apply Hc|done]. }
  assert (∀ j, err_at st1 j = err_at st j) as He by (intros j; by rewrite !err_at_cc, Hcc).
  assert (∀ q, kids st1 q = kids st q) as Hkk by (intros q; unfold kids; by rewrite Hcc).
  split; [by apply (wf_ext st)| | | |].
  - intros q j HX. rewrite (near_shape _ _ j Hs), !He. by apply Hd.
  - intros q j. rewrite Hkk, !He. intros Hj. destruct (Hk q j Hj) as [? [?|?]]; auto.
  - intros j Hj. rewrite He. destruct (decide (j = i)) as [->|Hne]; [left; auto|].
    unfold st1 in Hj. rewrite timer_alter, decide_False in Hj by done. destruct (Ht j Hj); auto.
  - intros a HP. assert (action_ok st a) as Hok by (destruct (H3 a HP); auto). destruct a; cbn in *; rewrite ?He; try done.
    + by apply (shape_cc _ _ _ Hs).
    + eapply shape_deadline; [|exact Hok]. by rewrite Hs.
Qed.

Lemma remove_good g now i k s : ctx_sys s → goroutines s !! g = Some (ARemove i :: k) →
  step_good (LRun g now) s ('(st, next) ← run_action now (ARemove i) (ctxs s); Ok (mkC st (<[g := next ++ k]> (goroutines s)))).
Proof.
  intros Hs Hg.
  pose proof (i_actions _ _ _ Hs (ARemove i)) as Hok. destruct (pending_next s (ctxs s) g _ k [] Hg) as (Hp1 & Hp2 & Hp3 & Hp0). specialize (Hok Hp0). cbn in Hok.
  pose proof (pending_next s) as Hnx.
  set (st' := match ctxs s !! i ≫= parent_of with Some p => removeChild p i (ctxs s) | None => ctxs s end).
  assert (inv ∅ st' (pending (mkC st' (<[g := [] ++ k]> (goroutines s)))) ∧ shape st' = shape (ctxs s) ∧ ∀ j, err_at st' j = err_at (ctxs s) j) as (Hi & Hsh & He).
  { assert (near (ctxs s) i = p ← parent (ctxs s) i; parentCancelCtx (ctxs s) p) as Hn.
    { unfold near. rewrite err_at_cc in Hok. by destruct (cc (ctxs s) i). }
    assert ((st' = ctxs s ∧ near (ctxs s) i = None) ∨ ∃ q, near (ctxs s) i = Some q ∧ st' = alter_children (fun cs => cs ∖ {[i]}) q (ctxs s)) as [[-> Hnn]|(q & Hq & ->)].
    { subst st'. rewrite Hn. fold (parent (ctxs s) i). destruct (parent (ctxs s) i) as [p|]; [|by left]. cbn [mbind option_bind]. unfold removeChild.
      destruct (parentCancelCtx (ctxs s) p) as [q|]; [right; by exists q|by left]. }
    - split; [|done]. destruct Hs as [Hw Hd Hk Ht Ha]. split; [done|done| | |].
      + intros q j Hj. destruct (Hk q j Hj) as [? [?|Hr]]; [by auto|]. split; [done|]. right. apply Hp1; [done|]. intros [= ->].
        apply (wf_kids _ Hw) in Hj. by rewrite Hnn in Hj.
      + intros j Hj. destruct (Ht j Hj) as [?|Hr]; [by left|right]. by apply Hp1.
      + intros a HP. destruct (Hp3 a HP) as [?%elem_of_nil|?]; [done|auto].
    - rewrite alter_children_shape. split; [|split; [done|intros j; apply alter_children_err]].
      apply (inv_remove (ctxs s) (pending s)); [done..| | |].
      + intros j Hj Hr. apply Hp1; [done|]. by intros [= ->].
      + intros j Hr. by apply Hp1.
      + intros a HP. by destruct (Hp3 a HP) as [?%elem_of_nil|?]. }
  eapply quiet_good; [done..|by intros a ?%elem_of_nil].
Qed.

Lemma stop_good g now i k s : ctx_sys s → goroutines s !! g = Some (AStop i :: k) →
  step_good (LRun g now) s ('(st, next) ← run_action now (AStop i) (ctxs s); Ok (mkC st (<[g := next ++ k]> (goroutines s)))).
Proof.
  intros Hs Hg.
  destruct (pending_next s (stop_timer i (ctxs s)) g _ k [] Hg) as (Hp1 & Hp2 & Hp3 & Hp0).
  apply (quiet_good g now (AStop i) k [] (stop_timer i (ctxs s))); [done|done|done|apply stop_shape|intros j; apply stop_err| |by intros a ?%elem_of_nil].
  unfold ctx_sys. cbn [ctxs]. apply (inv_timer (ctxs s) (pending s)); [done|apply strip_set_timer|apply cancel_set_timer| | | |].
  + change (alter (set_timer false) i (ctxs s)) with (stop_timer i (ctxs s)). by rewrite stop_timer_at, decide_True.
  + intros j Hr. by apply Hp1.
  + intros j Hne Hr. apply Hp1; [done|]. by intros [= ->].
  + intros a HP. destruct (Hp3 a HP) as [?%elem_of_nil|?]; [done|by left].
Qed.

Lemma deadline_good g now i d k s : ctx_sys s → goroutines s !! g = Some (ADeadline i d :: k) →
  step_good (LRun g now) s ('(st, next) ← run_action now (ADeadline i d) (ctxs s); Ok (mkC st (<[g := next ++ k]> (goroutines s)))).
Proof.
  intros Hs Hg.
  destruct (Z.leb_spec (d - now) 0) as [Hle|Hle].
  - destruct (pending_next s (ctxs s) g _ k [ACancel i DeadlineExceeded] Hg) as (Hp1 & Hp2 & Hp3 & Hp0).
    apply (quiet_good g now (ADeadline i d) k [ACancel i DeadlineExceeded] (ctxs s)); [done|done| |done|done| |].
    + cbn [run_action]. by rewrite (proj2 (Z.leb_le _ _)).
    + unfold ctx_sys. cbn [ctxs]. apply (inv_actions _ (pending s)); [done|intros j Hr; by apply Hp1|intros j Hr; by apply Hp1|].
      intros a HP. destruct (Hp3 a HP) as [->%list_elem_of_singleton|?]; [right|by left].
      destruct (i_actions _ _ _ Hs _ Hp0) as (p & c & t & E). cbn. unfold cc. rewrite E. by eexists.
    + intros a ->%list_elem_of_singleton. exists i, d. split; [done|]. split; [done|lia].
  - set (st' := match err_at (ctxs s) i with None => alter (set_timer true) i (ctxs s) | Some _ => ctxs s end).
    destruct (pending_next s st' g _ k [] Hg) as (Hp1 & Hp2 & Hp3 & Hp0).
    apply (quiet_good g now (ADeadline i d) k [] st'); [done|done| | | | |by intros a ?%elem_of_nil].
    + cbn [run_action]. by rewrite (proj2 (Z.leb_gt _ _)).
    + subst st'. destruct (err_at _ _); [done|]. apply alter_shape, strip_set_timer.
    + intros j. subst st'. destruct (err_at (ctxs s) i); [done|]. rewrite !err_at_cc, cc_alter. destruct (decide (j = i)) as [->|]; [|done].
      unfold cc. destruct (ctxs s !! i); [|done]. cbn. by rewrite cancel_set_timer.
    + unfold ctx_sys. cbn [ctxs]. subst st'. destruct (err_at (ctxs s) i) eqn:E.
      * apply (inv_actions _ (pending s)); [done|intros j Hr; by apply Hp1|intros j Hr; by apply Hp1|].
         intros a HP. destruct (Hp3 a HP) as [?%elem_of_nil|?]; [done|by left].
      * apply (inv_timer (ctxs s) (pending s)); [done|apply strip_set_timer|apply cancel_set_timer|done| | |].
         -- intros j Hr. by apply Hp1.
         -- intros j _ Hr. by apply Hp1.
         -- intros a HP. destruct (Hp3 a HP) as [?%elem_of_nil|?]; [done|by left].
Qed.

Lemma step_all l s r : ctx_sys s → ctx_step l s = Some r → step_good l s r.
Proof.
  intros Hs. destruct l as [p|p d|p k v|i|i now|g now]; cbn [ctx_step].
  - destruct (decide _); [|done]. intros [= <-]. by apply WithCancel_good.
  - destruct (decide _); [|done]. intros [= <-]. by apply WithDeadline_good.
  - destruct (decide _) as [Hlt|]; [|done]. intros [= <-].
    pose proof (inv_app (ctxs s) (pending s) (ValueCtx p k v) p Hs eq_refl Hlt ltac:(by left) eq_refl) as Hi.
    rewrite decide_False in Hi by (cbn; tauto). eexists. split; [done|]. split_and!.
    + apply Hi. done.
    + intros j e. cbn [ctxs]. rewrite !err_at_cc, app_cc. destruct (decide (j = _)); [done|by left].
    + intros a. by left.
    + by apply (grows_app _ _ p); [apply Hs|..].
  - destruct (ctxs s !! i ≫= cancel_of) eqn:E; [|done]. intros [= <-]. apply same_store_good; [done|]. right.
    exists (ACancel i Canceled). split; [done|]. split; [|done]. cbn. unfold cc. by eexists.
  - destruct (ctxs s !! i) as [[| |p c [|] d|]|] eqn:E; try done. destruct (Z.leb_spec d now); [|done]. intros [= <-].
    apply same_store_good; [done|]. right. exists (ACancel i DeadlineExceeded). split; [done|]. split.
    + cbn. unfold cc. rewrite E. by eexists.
    + exists d, now. split; [by exists p, c, true|]. auto.
  - destruct (goroutines s !! g) as [[|a0 k]|] eqn:E; try done. intros [= <-].
    destruct a0; [by apply cancel_good|by apply remove_good|by apply stop_good|by apply deadline_good].
Qed.

Lemma sys_start : ctx_sys (background (K:=K) (V:=V)).
Proof.
  assert (∀ i, cc (ctxs (background (K:=K) (V:=V))) i = None) as Hc by (by intros [|[|i]]).
  split; [split| | | |].
  - by intros [|[|i]].
  - intros i c. by rewrite Hc.
  - intros q j. unfold kids. rewrite Hc. set_solver.
  - intros q j. unfold near. by rewrite Hc.
  - intros q j _. unfold near. by rewrite Hc.
  - intros q j. unfold kids. rewrite Hc. set_solver.
  - by intros [|[|i]].
  - intros a (g & l & Hg & _). done.
Qed.

Lemma ctx_reachable ls s : run ctx_rel (background (K:=K) (V:=V)) ls s → ctx_sys s.
Proof.
  intros Hr. eapply (run_invariant _ ctx_sys); [|exact Hr|apply sys_start].
  intros s0 l t Hs Hl. by destruct (step_all l s0 _ Hs Hl) as (t' & [= <-] & ? & _).
Qed.
End Inv.
