(* ===== verification/CtxProps.v ===== *)
(** * Properties of contexts

    In every interleaving of goroutines that make contexts, cancel them and run into their
    deadlines: a context that is done takes all contexts below it with it, for one of
    their reasons only, and leaves neither a child nor a timer behind. *)
From Stdlib Require Import ZArith Lia.
From stdpp Require Import base option list gmap.
From S2P Require Import Prelude GoNum Ctx CtxFacts CtxInv.

Section Props.
Context {K V : Type} `{EqDecision K}.
Implicit Types (st : list (context K V)) (i j p q : nat).

(** ** Ancestors and errors *)

Definition ancestor st : nat → nat → Prop := rtc (fun a b => parent st b = Some a).

Lemma parentCancel_ancestor st n i q : parentCancel_fuel n st i = Some q → ancestor st q i.
Proof.
  revert i. induction n as [|n IH]; intros i; [done|]. cbn [parentCancel_fuel]. destruct (st !! i) as [[|? ?|? ? ? ?|p ? ?]|] eqn:E; try done.
  - intros [= <-]. apply rtc_refl.
  - intros [= <-]. apply rtc_refl.
  - intros H. apply rtc_r with p; [by apply IH|]. unfold parent. by rewrite E.
Qed.

Lemma above_ancestor st i j : above st i j → ancestor st i j.
Proof.
  induction 1 as [a|a b c Hab _ IH]; [apply rtc_refl|]. etrans; [|exact IH].
  unfold near in Hab. destruct (cc st b); [|done]. destruct (parent st b) as [p|] eqn:Ep; [|done].
  apply rtc_r with p; [|done]. by eapply parentCancel_ancestor.
Qed.

Lemma ctx_Err_near st i : ctx_Err st i = parentCancelCtx st i ≫= err_at st.
Proof. apply Err_parentCancel. Qed.

Lemma parentCancel_self st i : is_Some (cc st i) → parentCancelCtx st i = Some i.
Proof. intros [c Hc]. unfold cc in Hc. unfold parentCancelCtx. cbn. by destruct (st !! i) as [[]|]. Qed.

Lemma Err_child st P i p : inv ∅ st P → parent st i = Some p → ctx_Err st p ≠ None → ctx_Err st i ≠ None.
Proof.
  intros Hi Hp. rewrite !ctx_Err_near. destruct (parentCancelCtx st p) as [q|] eqn:Eq; [|done]. cbn [mbind option_bind]. intros Hq.
  destruct (cc st i) as [c|] eqn:Ec.
  - rewrite parentCancel_self by (by eexists). cbn [mbind option_bind]. apply (i_down _ _ _ Hi q i); [set_solver| |done].
    unfold near. by rewrite Ec, Hp.
  - assert (∃ k v, st !! i = Some (ValueCtx p k v)) as (k & v & E).
    { unfold parent in Hp. unfold cc in Ec. destruct (st !! i) as [[]|]; try done. injection Hp as ->. eauto. }
    rewrite (parentCancel_value _ _ _ _ _ (i_wf _ _ _ Hi) E), Eq. done.
Qed.

Lemma Err_descendant st P i j : inv ∅ st P → ancestor st i j → ctx_Err st i ≠ None → ctx_Err st j ≠ None.
Proof. intros Hi. induction 1 as [a|a b c Hab _ IH]; [done|]. intros Ha. apply IH. by eapply Err_child. Qed.

(** C37: contexts, in every interleaving of the goroutines that make, cancel and time out
    contexts: no step panics, in particular no channel is closed twice; a channel is closed
    exactly when there is an error; a context whose parent is done is done, whether it
    was there before or made afterwards; and a cancellation, when it has its turn, ends
    its context and all that descend from it at once. *)
Theorem cancellation_reaches (ls : list (ctx_label K V)) (s : cstate K V) :
  run ctx_rel background ls s →
  (∀ l r, ctx_step l s = Some r → ∃ t, r = Ok t) ∧
  (∀ i c, cc (ctxs s) i = Some c → done c = true ↔ err c ≠ None) ∧
  (∀ i j, ancestor (ctxs s) i j → ctx_Err (ctxs s) i ≠ None → ctx_Err (ctxs s) j ≠ None) ∧
  (∀ g now i e k, goroutines s !! g = Some (ACancel i e :: k) →
     ∃ t, ctx_step (LRun g now) s = Some (Ok t) ∧ ∀ j, ancestor (ctxs t) i j → ctx_Err (ctxs t) j ≠ None).
Proof.
  intros Hr%ctx_reachable. split_and!.
  - intros l r Hl. destruct (step_all l s r Hr Hl) as (t & -> & _). by exists t.
  - intros i c Hc. rewrite (wf_done _ (i_wf _ _ _ Hr) i c Hc). by rewrite bool_decide_eq_true.
  - intros i j. by eapply Err_descendant.
  - intros g now i e k Hg. destruct (ctx_step (LRun g now) s) as [r|] eqn:El; [|cbn [ctx_step] in El; by rewrite Hg in El].
    destruct (step_all _ s r Hr El) as (t & -> & Ht & _ & _ & _). exists t. split; [done|]. intros j Hj.
    eapply Err_descendant; [exact Ht|exact Hj|]. cbn [ctx_step] in El. rewrite Hg in El. injection El as El.
    destruct (cancel_run s i e Hr) as (_ & st' & Hb & _ & Hd); [exists g, (ACancel i e :: k); split; [done|apply list_elem_of_here]|].
    cbn [run_action] in El. rewrite Hb in El. assert (ctxs t = st') as ->.
    { cbn [mbind outcome_bind] in El. by destruct (ctxs s !! i) as [[]|]; injection El as <-. }
    rewrite ctx_Err_near, parentCancel_self; [done|]. rewrite err_at_cc in Hd. destruct (cc st' i); [by eexists|done].
Qed.

(** ** Causes *)

(** [i] was itself cancelled: by its function, or after its own deadline. *)
Definition caused (ls : list (ctx_label K V)) st i (e : ctxError) : Prop :=
  match e with
  | Canceled => LCancelFunc i ∈ ls
  | DeadlineExceeded => ∃ d now, deadline_of st i d ∧ d ≤ now ∧ (LFire i now ∈ ls ∨ ∃ g, LRun g now ∈ ls)
  end.

Lemma caused_grows ls l st st' i e : grows st st' → caused ls st i e → caused (ls ++ [l]) st' i e.
Proof.
  intros (_ & _ & Hg). destruct e; cbn; [set_solver|]. intros (d & now & Hd & Hle & H). exists d, now.
  split; [auto|]. split; [done|]. destruct H as [?|[g ?]]; [left; set_solver|right; exists g; set_solver].
Qed.

Lemma above_grows st st' i j : grows st st' → above st i j → above st' i j.
Proof. intros (_ & Hg & _). unfold above. apply rtc_subrel. auto. Qed.

Definition history (ls : list (ctx_label K V)) (s : cstate K V) : Prop :=
  ctx_sys s ∧ (∀ j e, err_at (ctxs s) j = Some e → ∃ i, above (ctxs s) i j ∧ caused ls (ctxs s) i e) ∧
  (∀ i e, pending s (ACancel i e) → caused ls (ctxs s) i e).

Lemma history_run ls s : run ctx_rel (background (K:=K) (V:=V)) ls s → history ls s.
Proof.
  revert s. apply (run_history_invariant _ history).
  - split; [apply sys_start|]. split; [by intros [|[|j]] e|]. intros i e (g & l & Hg & _). done.
  - intros h s l t (Hs & He & Ha) Hl. destruct (step_all l s _ Hs Hl) as (t' & [= <-] & Ht & Herr & Hact & Hg).
    split; [done|]. split.
    + intros j e Hj. destruct (Herr j e Hj) as [Hj'|[(q & Hq & Hq')|(i & Hp & Hab)]].
      * destruct (He j e Hj') as (i & Hab & Hc). exists i. split; [by eapply above_grows|by eapply caused_grows].
      * destruct (He q e Hq') as (i & Hab & Hc). exists i. split; [|by eapply caused_grows].
        apply rtc_r with q; [by eapply above_grows|done].
      * exists i. split; [done|]. eapply caused_grows; [done|]. by apply Ha.
    + intros i e Hp. destruct (Hact _ Hp) as [Hp'|Hsrc]; [eapply caused_grows; [done|]; by apply Ha|].
      destruct e; cbn in *; [subst l; set_solver|]. destruct Hsrc as (d & now & Hd & Hle & Hor). exists d, now.
      split; [by apply Hg|]. split; [done|]. destruct Hor as [->|[g ->]]; [left; set_solver|right; exists g; set_solver].
Qed.

(** No context ends without a reason: when one is done with the error Canceled then the
    function of it or of an ancestor was called, and when with DeadlineExceeded then the
    deadline of it or of an ancestor had passed. *)
Theorem cancellation_cause (ls : list (ctx_label K V)) (s : cstate K V) (j : nat) (e : ctxError) :
  run ctx_rel background ls s → ctx_Err (ctxs s) j = Some e →
  ∃ i, ancestor (ctxs s) i j ∧
    match e with
    | Canceled => LCancelFunc i ∈ ls
    | DeadlineExceeded => ∃ d now, Deadline (ctxs s) i = Some d ∧ d ≤ now ∧ (LFire i now ∈ ls ∨ ∃ g, LRun g now ∈ ls)
    end.
Proof.
  intros (Hs & He & _)%history_run Hj. rewrite ctx_Err_near in Hj. destruct (parentCancelCtx (ctxs s) j) as [q|] eqn:Eq; [|done].
  destruct (He q e Hj) as (i & Hab & Hc). exists i. split.
  - etrans; [by apply above_ancestor|]. by eapply parentCancel_ancestor.
  - destruct e; [done|]. destruct Hc as (d & now & (p & c & t & E) & Hle & Hor). exists d, now. split; [|done].
    unfold Deadline. cbn. by rewrite E.
Qed.

(** ** Settling *)

Definition weight (a : action) : nat := match a with ACancel _ _ => 3 | ADeadline _ _ => 4 | _ => 1 end.
Definition left_of (l : list action) : nat := sum_list_with weight l.
Definition work (s : cstate K V) : nat := sum_list_with left_of (goroutines s).

Lemma work_insert (gs : list (list action)) g l l' : gs !! g = Some l →
  (sum_list_with left_of (<[g := l']> gs) + left_of l = sum_list_with left_of gs + left_of l')%nat.
Proof.
  revert g. induction gs as [|l0 gs IH]; intros [|g] Hg; try done.
  - injection Hg as ->. cbn [insert list_insert sum_list_with]. lia.
  - specialize (IH g Hg). change (<[S g:=l']> (l0 :: gs)) with (l0 :: <[g:=l']> gs). cbn [sum_list_with]. lia.
Qed.

Lemma run_action_work now a st st' next : run_action now a st = Ok (st', next) → (left_of next < weight a)%nat.
Proof.
  destruct a; cbn [run_action].
  - destruct (cancelCtx_cancel _ _ _ _); [|done..]. cbn [mbind outcome_bind].
    destruct (st !! i) as [[]|]; intros [= _ <-]; cbn; try lia. case_bool_decide; cbn; lia.
  - intros [= _ <-]. cbn. lia.
  - intros [= _ <-]. cbn. lia.
  - destruct (_ <=? 0); intros [= _ <-]; cbn; lia.
Qed.

Lemma run_work g now s t : ctx_step (LRun g now) s = Some (Ok t) → (work t < work s)%nat.
Proof.
  cbn [ctx_step]. destruct (goroutines s !! g) as [[|a k]|] eqn:E; [done| |done]. intros H. injection H as H.
  destruct (run_action now a (ctxs s)) as [[st next]|?|?] eqn:Ea; [|done..]. cbn [mbind outcome_bind] in H. injection H as <-.
  apply run_action_work in Ea. unfold work. cbn [goroutines]. pose proof (work_insert _ _ _ (next ++ k) E) as Hw.
  assert (left_of (a :: k) = weight a + left_of k)%nat as E1 by done.
  assert (left_of (next ++ k) = left_of next + left_of k)%nat as E2 by apply sum_list_with_app. lia.
Qed.


(** ** Deadlines and values *)

Lemma prefix_lookup st st' i : shape st `prefix_of` shape st' → (i < length st)%nat → strip <$> st' !! i = strip <$> st !! i.
Proof.
  intros [l Hl] Hi. rewrite <- !list_lookup_fmap. change (shape st' !! i = shape st !! i). rewrite Hl.
  apply lookup_app_l. unfold shape. by rewrite length_map.
Qed.

Lemma Deadline_prefix st st' n i : wf st → shape st `prefix_of` shape st' → (i < length st)%nat → Deadline_fuel n st' i = Deadline_fuel n st i.
Proof.
  intros Hw Hs. revert i. induction n as [|n IH]; intros i Hi; [done|]. cbn [Deadline_fuel]. pose proof (prefix_lookup _ _ i Hs Hi) as E.
  assert (∀ p, parent st i = Some p → (p < length st)%nat) as Hp by (intros p Hp; pose proof (wf_parent _ Hw _ _ Hp); lia). unfold parent in Hp.
  destruct (st !! i) as [[]|], (st' !! i) as [[]|]; cbn in E, Hp; try discriminate E; try (injection E as E); simplify_eq; auto.
Qed.

Lemma Value_prefix st st' n i k : wf st → shape st `prefix_of` shape st' → (i < length st)%nat → Value_fuel n st' i k = Value_fuel n st i k.
Proof.
  intros Hw Hs. revert i. induction n as [|n IH]; intros i Hi; [done|]. cbn [Value_fuel]. pose proof (prefix_lookup _ _ i Hs Hi) as E.
  assert (∀ p, parent st i = Some p → (p < length st)%nat) as Hp by (intros p Hp; pose proof (wf_parent _ Hw _ _ Hp); lia). unfold parent in Hp.
  destruct (st !! i) as [[]|], (st' !! i) as [[]|]; cbn in E, Hp; try discriminate E; try (injection E as E); simplify_eq; try done; try (case_decide; [done|]); auto.
Qed.

Lemma Deadline_enough st n i : wf st → (i < n)%nat → Deadline_fuel n st i = Deadline st i.
Proof.
  intros Hw. revert i. assert (∀ m i, (i < n)%nat → (i < m)%nat → Deadline_fuel n st i = Deadline_fuel m st i) as H; [|intros i Hi; apply H; lia].
  induction n as [|n IH]; intros m i Hn Hm; [lia|]. destruct m as [|m]; [lia|]. cbn [Deadline_fuel].
  assert (∀ p, parent st i = Some p → (p < i)%nat) as Hp by apply (wf_parent _ Hw). unfold parent in Hp.
  destruct (st !! i) as [[]|]; cbn in Hp; try done; apply IH; pose proof (Hp _ eq_refl); lia.
Qed.

Lemma Value_enough st n i k : wf st → (i < n)%nat → Value_fuel n st i k = ctx_Value st i k.
Proof.
  intros Hw. revert i. assert (∀ m i, (i < n)%nat → (i < m)%nat → Value_fuel n st i k = Value_fuel m st i k) as H; [|intros i Hi; apply H; lia].
  induction n as [|n IH]; intros m i Hn Hm; [lia|]. destruct m as [|m]; [lia|]. cbn [Value_fuel].
  assert (∀ p, parent st i = Some p → (p < i)%nat) as Hp by apply (wf_parent _ Hw). unfold parent in Hp.
  destruct (st !! i) as [[]|]; cbn in Hp; try done; try (case_decide; [done|]); apply IH; pose proof (Hp _ eq_refl); lia.
Qed.

(** What a new context reads of its parent. *)
Lemma new_reads st st' x p : wf st → parent_of x = Some p → (p < length st)%nat → shape st' = shape (st ++ [x]) →
  Deadline st' (length st) = (match x with TimerCtx _ _ _ d => Some d | _ => Deadline st p end) ∧
  ∀ k, ctx_Value st' (length st) k = match x with ValueCtx _ k' v => if decide (k' = k) then Some v else ctx_Value st p k | _ => ctx_Value st p k end.
Proof.
  intros Hw Hp Hlt Hs. assert (shape st `prefix_of` shape st') as Hpre by (rewrite Hs; unfold shape; rewrite map_app; by eexists).
  pose proof (shape_lookup _ _ (length st) Hs) as E. rewrite app_new in E.
  split; [|intros k].
  - unfold Deadline at 1. cbn [Deadline_fuel].
    rewrite <- (Deadline_enough st (length st) p Hw Hlt), <- (Deadline_prefix st st' (length st) p Hw Hpre Hlt).
    destruct (st' !! length st) as [[]|], x; cbn in E, Hp |- *; try discriminate E; try (injection E as E); simplify_eq; done.
  - unfold ctx_Value at 1. cbn [Value_fuel].
    rewrite <- (Value_enough st (length st) p k Hw Hlt), <- (Value_prefix st st' (length st) p k Hw Hpre Hlt).
    destruct (st' !! length st) as [[]|], x; cbn in E, Hp |- *; try discriminate E; try (injection E as E); simplify_eq; done.
Qed.

(** What a context has from its parent: a deadline is the earliest of those above it and its
    own, a value that of the nearest context that sets the key, and what a context has
    never changes. *)
Theorem context_inherits (ls : list (ctx_label K V)) (s : cstate K V) (p : nat) :
  run ctx_rel background ls s → (p < length (ctxs s))%nat →
  let n := length (ctxs s) in
  (∀ d, ∃ t, ctx_step (LWithDeadline p d) s = Some (Ok t) ∧
     Deadline (ctxs t) n = Some (match Deadline (ctxs s) p with Some c => Z.min c d | None => d end) ∧
     ∀ k, ctx_Value (ctxs t) n k = ctx_Value (ctxs s) p k) ∧
  (∃ t, ctx_step (LWithCancel p) s = Some (Ok t) ∧ Deadline (ctxs t) n = Deadline (ctxs s) p ∧ ∀ k, ctx_Value (ctxs t) n k = ctx_Value (ctxs s) p k) ∧
  (∀ k v, ∃ t, ctx_step (LWithValue p k v) s = Some (Ok t) ∧ Deadline (ctxs t) n = Deadline (ctxs s) p ∧
     ∀ k', ctx_Value (ctxs t) n k' = if decide (k = k') then Some v else ctx_Value (ctxs s) p k') ∧
  (∀ l t, ctx_step l s = Some (Ok t) → Deadline (ctxs t) p = Deadline (ctxs s) p ∧ ∀ k, ctx_Value (ctxs t) p k = ctx_Value (ctxs s) p k).
Proof.
  intros Hs%ctx_reachable Hp n. pose proof (i_wf _ _ _ Hs) as Hw.
  assert (∀ x gs, parent_of x = Some p → cancel_of x = Some newCancelCtx → timer_at [x] 0 = false →
    ∃ st', (st' ← propagateCancel p n (ctxs s ++ [x]); Ok (mkC st' gs)) = Ok (mkC st' gs) ∧ shape st' = shape (ctxs s ++ [x])) as Hnew.
  { intros x gs Hx Hc Ht. destruct (propagate_spec _ _ x p Hs Hx Hp Hc Ht) as (st' & E & _ & Hsh & _). subst n. rewrite E. by exists st'. }
  assert (∃ t, ctx_step (LWithCancel p) s = Some (Ok t) ∧ Deadline (ctxs t) n = Deadline (ctxs s) p ∧ ∀ k, ctx_Value (ctxs t) n k = ctx_Value (ctxs s) p k) as Hc.
  { destruct (Hnew (CancelCtx p newCancelCtx) (goroutines s)) as (st' & E & Hsh); [done..|]. cbn [ctx_step]. rewrite decide_True by done.
    unfold WithCancel. fold n. rewrite E. eexists. split; [done|]. by apply (new_reads _ _ (CancelCtx p newCancelCtx) p Hw eq_refl Hp Hsh). }
  split_and!.
  - intros d. destruct (Hnew (TimerCtx p newCancelCtx false d) (goroutines s ++ [[ADeadline n d]])) as (st' & E & Hsh); [done..|].
    pose proof (new_reads _ _ (TimerCtx p newCancelCtx false d) p Hw eq_refl Hp Hsh) as [Hd Hv]. cbn [ctx_step] in *. rewrite decide_True in Hc |- * by done. unfold WithDeadline. fold n.
    destruct (Deadline (ctxs s) p) as [cur|] eqn:Ed.
    + destruct (Z.ltb_spec cur d).
      * destruct Hc as (t & Et & Hdt & Hvt). exists t. split; [done|]. split; [by rewrite Hdt, Z.min_l by lia|done].
      * rewrite E. eexists. split; [done|]. split; [by rewrite Z.min_r by lia|done].
    + rewrite E. eexists. split; [done|]. by split.
  - done.
  - intros k v. cbn [ctx_step]. rewrite decide_True by done. eexists. split; [done|]. cbn [ctxs].
    by apply (new_reads (ctxs s) (ctxs s ++ [ValueCtx p k v]) (ValueCtx p k v) p Hw eq_refl Hp eq_refl).
  - intros l t Hl. destruct (step_all l s _ Hs Hl) as (t' & [= <-] & _ & _ & _ & (Hpre & _)).
    split; [by apply Deadline_prefix|intros k; by apply Value_prefix].
Qed.

Lemma ctx_exec_run (ls : list (ctx_label K V)) (s t : cstate K V) : ctx_exec ls s = Some (Ok t) → run ctx_rel s ls t.
Proof.
  revert s. induction ls as [|l ls IH]; intros s; cbn [ctx_exec]; [intros [= ->]; apply run_nil|].
  destruct (ctx_step l s) as [[s'|?|?]|] eqn:E; try done. intros H. eapply run_cons; [exact E|auto].
Qed.
End Props.

(** ** Witnesses

    A context, a value and a timeout below it; the context is cancelled. *)
Definition demo_labels : list (ctx_label nat nat) :=
  [LWithCancel 0; LWithValue 2 7%nat 8%nat; LWithDeadline 3 100; LRun 0 50; LCancelFunc 2].

Definition demo_state : cstate nat nat :=
  match ctx_exec demo_labels background with Some (Ok s) => s | _ => background end.

Lemma demo_run : run ctx_rel background demo_labels demo_state.
Proof. apply ctx_exec_run. by vm_compute. Qed.

Lemma demo_ancestor : ancestor (ctxs demo_state) 2 4.
Proof. apply rtc_l with 3%nat; [by vm_compute|]. apply rtc_once. by vm_compute. Qed.

Lemma cancellation_reaches_witness :
  ∃ t, ctx_step (LRun 1 60) demo_state = Some (Ok t) ∧ ctx_Err (ctxs t) 4 ≠ None ∧ timer_at (ctxs demo_state) 4 = true.
Proof.
  destruct (cancellation_reaches demo_labels demo_state demo_run) as (_ & _ & _ & H).
  destruct (H 1%nat 60 2%nat Canceled []) as (t & Ht & Hd); [by vm_compute|]. exists t. split; [done|].
  split; [|by vm_compute]. apply Hd. vm_compute in Ht. injection Ht as <-.
  apply rtc_l with 3%nat; [by vm_compute|]. apply rtc_once. by vm_compute.
Defined.

(** The same with the deadline passed. *)
Definition late_labels : list (ctx_label nat nat) := take 4 demo_labels ++ [LFire 4 120; LRun 1 120].
Definition late_state : cstate nat nat := match ctx_exec late_labels background with Some (Ok s) => s | _ => background end.

Lemma cancellation_cause_witness :
  ctx_Err (ctxs late_state) 4 = Some DeadlineExceeded ∧ ctx_Err (ctxs late_state) 3 = None ∧
  ∃ i d now, ancestor (ctxs late_state) i 4 ∧ Deadline (ctxs late_state) i = Some d ∧ d ≤ now.
Proof.
  split; [by vm_compute|]. split; [by vm_compute|].
  destruct (cancellation_cause late_labels late_state 4 DeadlineExceeded) as (i & Ha & d & now & Hd & Hle & _).
  - apply ctx_exec_run. by vm_compute.
  - by vm_compute.
  - by exists i, d, now.
Defined.


Lemma context_inherits_witness :
  ∃ t, ctx_step (LWithDeadline 4 200) demo_state = Some (Ok t) ∧ Deadline (ctxs t) 5 = Some 100 ∧ ctx_Value (ctxs t) 5 7%nat = Some 8%nat.
Proof.
  destruct (context_inherits demo_labels demo_state 4 demo_run) as (H & _); [vm_compute; lia|].
  destruct (H 200) as (t & Ht & Hd & Hv). exists t. split; [done|]. split; [exact Hd|]. etrans; [exact (Hv 7%nat)|]. by vm_compute.
Defined.
