(* ===== verification/ClientConn.v ===== *)
(** * The client's connection and its unary calls (Godeps .../grpc: clientconn.go, picker.go, call.go)

    A [Conn] keeps one transport to its target: a goroutine dials, watches the transport and
    dials again when it breaks ([resetTransport], [transportMonitor]).  [Invoke] waits for a
    transport, sends its request and reads the response, and starts again when the
    connection breaks.  Both, [Close], and the transports as far as they are reachable
    (http2_client.go) are a labelled transition system: what runs under [cc.mu] is one step.
    A label carries what the world answers: whether a dial succeeds, what clocks and
    [rand] say, when a network breaks, what a stream reads.

    The unary call of the program is RegisterExecutor.  Blocking and no_options dials differ
    in who waits, not in their steps.  [Sprintf] is [fmt.Sprintf] of a format alone. *)
From Stdlib Require Import ZArith Lia Ascii.
From stdpp Require Import base option list strings.
From S2P Require Import Prelude GoNum GoFmt Strconv Messages Flow Transfer Proto ProtoFacts Wire Grpc.
From Stdlib Require Import SpecFloat.

(** ** Transports *)

Inductive transportState := reachable | unreachable | closing.
#[export] Instance transportState_eq_dec : EqDecision transportState.
Proof. solve_decision. Defined.

(** [errorChan] and [shutdownChan]: the channel is closed. *)
Record clientTransport := mkTransport { t_state : transportState; errorChan : bool; t_shutdownChan : bool }.
Definition newHTTP2Client : clientTransport := mkTransport reachable false false.

Definition closed_twice : string := "close of closed channel".

Definition notifyError (t : clientTransport) : outcome clientTransport :=
  match t_state t with
  | reachable => if errorChan t then Panic closed_twice else Ok (mkTransport unreachable true (t_shutdownChan t))
  | _ => Ok t
  end.

(** The streams that are active then read [ErrConnClosing]. *)
Definition transport_Close (t : clientTransport) : outcome clientTransport :=
  match t_state t with
  | closing => Ok t
  | _ => if t_shutdownChan t then Panic closed_twice else Ok (mkTransport closing (errorChan t) true)
  end.

Definition ErrConnClosing : rerror := ConnectionError "transport is closing".

Inductive ctxErr := CtxDeadlineExceeded | CtxCanceled.
Definition ContextErr (e : ctxErr) : rerror :=
  match e with
  | CtxDeadlineExceeded => StreamError DeadlineExceeded "context deadline exceeded"
  | CtxCanceled => StreamError Canceled "context canceled"
  end.

(** ** Options and delays *)

(** [authenticates]: a [TransportAuthenticator]; [requires]: [RequireTransportSecurity]. *)
Record credential := mkCredential { authenticates : bool; requires : bool }.
Record dialOptions := mkDialOptions { insecure : bool; Timeout : Z; AuthOptions : list credential }.

Definition ErrUnspecTarget : error := Errorf "grpc: target is unspecified".
Definition ErrNoTransportSecurity : error :=
  Errorf "grpc: no transport security set (use grpc.WithInsecure() explicitly or set credentials)".
Definition ErrCredentialsMisuse : error :=
  Errorf "grpc: the credentials require transport level security (use grpc.WithTransportAuthenticator() to set)".

(** The tests of [NewConn]. *)
Definition NewConn_check (target : string) (o : dialOptions) : option error :=
  if bool_decide (target = ""%string) then Some ErrUnspecTarget
  else if negb (insecure o) then
    if existsb authenticates (AuthOptions o) then None else Some ErrNoTransportSecurity
  else if existsb requires (AuthOptions o) then Some ErrCredentialsMisuse else None.

(** The text before the last colon. *)
Fixpoint before_colon (b : bytes) : option bytes :=
  match b with
  | [] => None
  | c :: b =>
      match before_colon b with
      | Some x => Some (c :: x)
      | None => if bool_decide (c = ":"%char) then Some [] else None
      end
  end.
Definition authority (target : string) : string := to_string (default (to_bytes target) (before_colon (to_bytes target))).

Definition baseDelay : Z := 1000000000.
Definition maxDelay : Z := 120 * 1000000000.
Definition minConnectTimeout : Z := 20 * 1000000000.

(** [backoff]; [r] is the answer of [rand.Float64]. *)
Fixpoint backoff_loop (retries : nat) (b : float64) : float64 :=
  match retries with
  | O => b
  | S retries => if flt b (float_of_int maxDelay) then backoff_loop retries (fmul b (float_lit 16 10)) else b
  end.
Definition backoff (retries : nat) (r : float64) : Z :=
  match retries with
  | O => baseDelay
  | _ =>
      let b := backoff_loop retries (float_of_int baseDelay) in
      let b := if flt (float_of_int maxDelay) b then float_of_int maxDelay else b in
      let b := fmul b (fadd (float_of_int 1) (fmul (float_lit 2 10) (fsub (fmul r (float_of_int 2)) (float_of_int 1)))) in
      if flt b zero64 then 0 else int_of_float b
  end.

(** The timeout of one dial; [None] for [ErrClientConnTimeout]. *)
Definition dial_timeout (timeout elapsed sleepTime : Z) : option Z :=
  let limit := Z.max sleepTime minConnectTimeout in
  if timeout <? 0 then None
  else if timeout =? 0 then Some limit
  else
    let rest := timeout - elapsed in
    if rest <=? 0 then None else Some (Z.min rest limit).

Lemma dial_timeout_bounds timeout elapsed sleepTime d : 0 ≤ elapsed → dial_timeout timeout elapsed sleepTime = Some d →
  0 < d ≤ Z.max sleepTime minConnectTimeout ∧ (timeout ≠ 0 → d ≤ timeout - elapsed).
Proof.
  unfold dial_timeout, minConnectTimeout. intros He H. repeat case_test; zify_bool; simplify_eq; lia.
Qed.

(** ** The connection *)

Inductive ConnectivityState := Idle | Connecting | Ready | TransientFailure | Shutdown.
#[export] Instance ConnectivityState_eq_dec : EqDecision ConnectivityState.
Proof. solve_decision. Defined.

(** Where the goroutine of a [Conn] is: in [resetTransport] (with [retries], the delay
    before the next dial), on its way out of it, or in [transportMonitor]. *)
Inductive mstate :=
  | MLock (closeTransport : bool) (retries : nat)
  | MClose (closeTransport : bool) (retries : nat)
  | MDial (retries : nat) (sleepTime timeout : Z)
  | MFailed (retries : nat) (sleepTime : Z)
  | MAfter (retries : nat) (sleepTime : Z)
  | MSleep (retries : nat)
  | MInstall (t : nat)
  | MDiscard (t : nat)
  | MShut
  | MReturn
  | MWatch
  | MBroken
  | MDead.

(** [ready] is the channel of that number in [chans], which keeps for each channel made so
    far whether it is closed; [transport] one of the transports made so far. *)
Record Conn := mkConn {
  c_opts : dialOptions;
  c_state : ConnectivityState;
  ready : option nat;
  chans : list bool;
  transport : option nat;
  transports : list clientTransport;
  shutdownChan : bool;
  monitor : mstate;
  connected : bool           (** the first [resetTransport] has succeeded *)
}.

Definition set_state (x : ConnectivityState) (s : Conn) : Conn :=
  mkConn (c_opts s) x (ready s) (chans s) (transport s) (transports s) (shutdownChan s) (monitor s) (connected s).
Definition set_monitor (m : mstate) (s : Conn) : Conn :=
  mkConn (c_opts s) (c_state s) (ready s) (chans s) (transport s) (transports s) (shutdownChan s) m (connected s).
Definition set_transports (l : list clientTransport) (s : Conn) : Conn :=
  mkConn (c_opts s) (c_state s) (ready s) (chans s) (transport s) l (shutdownChan s) (monitor s) (connected s).
Definition set_ready (r : option nat) (l : list bool) (s : Conn) : Conn :=
  mkConn (c_opts s) (c_state s) r l (transport s) (transports s) (shutdownChan s) (monitor s) (connected s).
Definition set_connected (t : nat) (s : Conn) : Conn :=
  mkConn (c_opts s) (c_state s) (ready s) (chans s) (Some t) (transports s) (shutdownChan s) (monitor s) true.
Definition set_shutdown (s : Conn) : Conn :=
  mkConn (c_opts s) (c_state s) (ready s) (chans s) (transport s) (transports s) true (monitor s) (connected s).

Definition newConn (o : dialOptions) : Conn := mkConn o Idle None [] None [] false (MLock false 0) false.

Definition nil_pointer : string := "runtime error: invalid memory address or nil pointer dereference".

(** [f] of a transport of the connection. *)
Definition on_transport (f : clientTransport → outcome clientTransport) (i : nat) (s : Conn) : outcome Conn :=
  match transports s !! i with
  | Some t => t' ← f t; Ok (set_transports (<[i := t']> (transports s)) s)
  | None => Panic nil_pointer
  end.
(** [if cc.ready != nil { close(cc.ready); cc.ready = nil }] *)
Definition close_ready (s : Conn) : outcome Conn :=
  match ready s with
  | None => Ok s
  | Some ch =>
      match chans s !! ch with
      | Some false => Ok (set_ready None (<[ch := true]> (chans s)) s)
      | _ => Panic closed_twice
      end
  end.
Definition close_current (s : Conn) : outcome Conn :=
  match transport s with Some t => on_transport transport_Close t s | None => Panic nil_pointer end.

(** [Close]; the second result is its error. *)
Definition ErrClientConnClosing : string := "grpc: the client connection is closing".
Definition Conn_Close (s : Conn) : outcome (Conn * option string) :=
  match c_state s with
  | Shutdown => Ok (s, Some ErrClientConnClosing)
  | _ =>
      s ← close_ready (set_state Shutdown s);
      s ← match transport s with Some _ => close_current s | None => Ok s end;
      if shutdownChan s then Panic closed_twice else Ok (set_shutdown s, None)
  end.
Definition just_Close (s : Conn) : outcome Conn := '(s, _) ← Conn_Close s; Ok s.

(** What the world answers to a step of the goroutine: the time since the start of
    [resetTransport] and since the dial, a random number, whether the dial succeeds, and
    which channel a [select] takes. *)
Record tick := mkTick { elapsed : Z; since_dial : Z; random : float64; up : bool; takes_error : bool }.

Definition is_shutdown (s : Conn) : bool := bool_decide (c_state s = Shutdown).

Definition monitor_step (x : tick) (s : Conn) : option (outcome Conn) :=
  match monitor s with
  | MLock closeTransport retries =>
      Some (Ok (if is_shutdown s then set_monitor MReturn s
                else set_monitor (MClose closeTransport retries) (set_state Connecting s)))
  | MClose closeTransport retries =>
      Some (s ← (if closeTransport then close_current s else Ok s);
            let sleepTime := backoff retries (random x) in
            Ok (set_monitor match dial_timeout (Timeout (c_opts s)) (elapsed x) sleepTime with
                            | None => MShut
                            | Some d => MDial retries sleepTime d
                            end s))
  | MDial retries sleepTime _ =>
      Some (Ok (if up x
                then set_monitor (MInstall (length (transports s))) (set_transports (transports s ++ [newHTTP2Client]) s)
                else set_monitor (MFailed retries sleepTime) s))
  | MFailed retries sleepTime =>
      Some (if is_shutdown s then Ok (set_monitor MReturn s)
            else s ← close_ready (set_state TransientFailure s); Ok (set_monitor (MAfter retries sleepTime) s))
  | MAfter retries sleepTime =>
      let sleepTime := Z.max 0 (sleepTime - since_dial x) in
      let timeout := Timeout (c_opts s) in
      Some (Ok (set_monitor (if (0 <? timeout) && (timeout <? sleepTime + elapsed x) then MShut else MSleep retries) s))
  | MSleep retries => Some (Ok (set_monitor (MLock false (S retries)) s))
  | MInstall t =>
      Some (if is_shutdown s then Ok (set_monitor (MDiscard t) s)
            else s ← close_ready (set_connected t (set_state Ready s)); Ok (set_monitor MWatch s))
  | MDiscard t => Some (s ← on_transport transport_Close t s; Ok (set_monitor MReturn s))
  | MShut => Some (s ← just_Close s; Ok (set_monitor MReturn s))
  | MReturn => Some (s ← (if connected s then Ok s else just_Close s); Ok (set_monitor MDead s))
  | MWatch =>
      if takes_error x then
        match transport s with
        | None => Some (Panic nil_pointer)
        | Some i =>
            match transports s !! i with
            | Some t => if errorChan t then Some (Ok (set_monitor MBroken s)) else None
            | None => Some (Panic nil_pointer)
            end
        end
      else if shutdownChan s then Some (Ok (set_monitor MDead s)) else None
  | MBroken =>
      Some (Ok (if is_shutdown s then set_monitor MDead s else set_monitor (MLock true 0) (set_state TransientFailure s)))
  | MDead => None
  end.

(** ** Unary calls *)

Section calls.
Context (Sprintf : string → string).

(** An error inside [Invoke]: one of the transport, or another one. *)
Inductive callErr := CErr (e : rerror) | CPlain (desc : string).
(** [toRPCErr]: code and description. *)
Definition toRPCErr (e : callErr) : Z * string :=
  match e with
  | CErr (rpcError code desc) | CErr (StreamError code desc) => (code, desc)
  | CErr (ConnectionError desc) => (Internal, desc)
  | CErr EOF => (Unknown, "EOF"%string)
  | CErr UnexpectedEOF => (Unknown, "unexpected EOF"%string)
  | CPlain desc => (Unknown, desc)
  end.
(** [Errorf] with a format alone. *)
Definition rpc_Errorf (code : Z) (format : string) : option (Z * string) :=
  if code =? OK then None else Some (code, Sprintf format).

(** [recvResponse] once the headers are there: messages are read until an error; [None] blocks. *)
Fixpoint recv_loop (fuel : nat) (reply : RegisterExecutorResp) (rs : list (bytes + rerror))
  : option (outcome (RegisterExecutorResp + rerror)) :=
  match fuel with
  | O => None
  | S fuel =>
      match Grpc.recvMsg rs with
      | Blocked _ => None
      | Failed EOF _ => Some (Ok (inl reply))
      | Failed e _ => Some (Ok (inr e))
      | Done m rs =>
          match decode (M:=RegisterExecutorResp) m with
          | Ok (inl v) => recv_loop fuel v rs
          | Ok (inr e) => Some (Ok (inr e))
          | Err e => Some (Err e)
          | Panic p => Some (Panic p)
          end
      end
  end.
Definition recvResponse (reply : RegisterExecutorResp) (rs : list (bytes + rerror)) : option (outcome (RegisterExecutorResp + rerror)) :=
  recv_loop (S (length rs)) reply rs.

(** Where a call is: at the head of the loop of [Invoke], in [Wait] (at its lock, parked on a
    channel, or about to read [cc.transport]), in [NewStream], in [Write], in
    [recvResponse], or back with an error or none. *)
Inductive cpc :=
  | CLoop
  | CPick
  | CWait (ch : nat)
  | CTake
  | CNew (t : nat)
  | CSend (t : nat)
  | CRecv (t : nat)
  | CReturned (err : option (Z * string)).

(** [c_streams]: the transports on which it has opened a stream, the last one first;
    [c_ctx]: its context is done. *)
Record call := mkCall {
  c_pc : cpc;
  args : bytes;
  reply : RegisterExecutorResp;
  failFast : bool;
  c_ctx : option ctxErr;
  lastErr : option rerror;
  c_streams : list nat
}.
Definition set_pc (pc : cpc) (c : call) : call := mkCall pc (args c) (reply c) (failFast c) (c_ctx c) (lastErr c) (c_streams c).
Definition set_reply (r : RegisterExecutorResp) (c : call) : call := mkCall (c_pc c) (args c) r (failFast c) (c_ctx c) (lastErr c) (c_streams c).
Definition again (e : rerror) (c : call) : call := mkCall CLoop (args c) (reply c) (failFast c) (c_ctx c) (Some e) (c_streams c).
Definition open_stream (t : nat) (c : call) : call := mkCall (CSend t) (args c) (reply c) (failFast c) (c_ctx c) (lastErr c) (t :: c_streams c).
Definition set_ctx (e : ctxErr) (c : call) : call := mkCall (c_pc c) (args c) (reply c) (failFast c) (Some e) (lastErr c) (c_streams c).

Definition newCall (args : bytes) (failFast : bool) : call :=
  mkCall CLoop args (mkRegisterExecutorResp "" "" "" "" false) failFast None None [].

(** An error that ends the call: that of the last attempt, if there was one. *)
Definition return_last (e : callErr) (c : call) : call :=
  set_pc (CReturned (Some (toRPCErr match lastErr c with Some l => CErr l | None => e end))) c.

(** What is under the lock in [Wait]. *)
Inductive wait_result := WClosing | WReady | WPark (ch : nat).
Definition Wait_lock (s : Conn) : wait_result * Conn :=
  match c_state s with
  | Shutdown => (WClosing, s)
  | Ready => (WReady, s)
  | _ =>
      match ready s with
      | Some ch => (WPark ch, s)
      | None => (WPark (length (chans s)), set_ready (Some (length (chans s))) (chans s ++ [false]) s)
      end
  end.

(** What the world answers to a step of a call. *)
Inductive answer :=
  | AGo
  | ACtx                                     (** the context is done *)
  | AOpen                                    (** [NewStream] succeeds *)
  | ASent                                    (** [Write] succeeds *)
  | AClosing                                 (** the transport is closing *)
  | AFail (desc : string)                    (** the network refuses a frame *)
  | ARefuse (code : Z) (desc : string)       (** [NewStream] refuses credentials or a deadline *)
  | AReply (rs : list (bytes + rerror)) (code : Z) (desc : string).

Definition write_failed (desc : string) : rerror := ConnectionError ("transport: " +:+ desc).
Definition is_reachable (t : nat) (s : Conn) : bool := bool_decide (t_state <$> transports s !! t = Some reachable).
Definition is_closed (t : nat) (s : Conn) : bool := bool_decide (t_shutdownChan <$> transports s !! t = Some true).

(** [fmt.Errorf] of an [rpcError] inside the error of [sendRequest]. *)
Definition encode_failed (e : rerror) : rerror :=
  match e with
  | rpcError code desc =>
      StreamError Internal ("grpc: rpc error: code = " +:+ fmt_d code +:+ " desc = " +:+ String dquote desc +:+ String dquote EmptyString)
  | e => e
  end.

Definition sendRequest (t : nat) (a : answer) (c : call) (s : Conn) : option (outcome (call * Conn)) :=
  match encode (Some (args c)) 0, a with
  | inr e, AGo => Some (Ok (return_last (CErr (encode_failed e)) c, s))
  | inl _, ASent => Some (Ok (set_pc (CRecv t) c, s))
  | inl _, AClosing => if is_closed t s then Some (Ok (again ErrConnClosing c, s)) else None
  | inl _, AFail desc => Some (s ← on_transport notifyError t s; Ok (again (write_failed desc) c, s))
  | inl _, ACtx => e ← c_ctx c; Some (Ok (return_last (CErr (ContextErr e)) c, s))
  | _, _ => None
  end.

(** The end of an attempt whose response has been read. *)
Definition received (t : nat) (r : RegisterExecutorResp + rerror) (code : Z) (desc : string) (c : call) (s : Conn)
  : option (outcome (call * Conn)) :=
  match r with
  | inl v => Some (Ok (set_pc (CReturned (rpc_Errorf code desc)) (set_reply v c), s))
  | inr (ConnectionError d) => if is_closed t s then Some (Ok (again (ConnectionError d) c, s)) else None
  | inr e => Some (Ok (set_pc (CReturned (Some (toRPCErr (CErr e)))) c, s))
  end.

Definition Invoke_step (a : answer) (c : call) (s : Conn) : option (outcome (call * Conn)) :=
  match c_pc c, a with
  | CLoop, AGo =>
      Some (Ok (match lastErr c with
                | Some e => if failFast c then set_pc (CReturned (Some (toRPCErr (CErr e)))) c else set_pc CPick c
                | None => set_pc CPick c
                end, s))
  | CPick, AGo =>
      Some (Ok (match Wait_lock s with
                | (WClosing, s) => (return_last (CPlain ErrClientConnClosing) c, s)
                | (WReady, s) => (set_pc CTake c, s)
                | (WPark ch, s) => (set_pc (CWait ch) c, s)
                end))
  | CWait ch, AGo => if bool_decide (chans s !! ch = Some true) then Some (Ok (set_pc CPick c, s)) else None
  | CWait _, ACtx | CNew _, ACtx => e ← c_ctx c; Some (Ok (return_last (CErr (ContextErr e)) c, s))
  | CTake, AGo => Some (match transport s with Some t => Ok (set_pc (CNew t) c, s) | None => Panic nil_pointer end)
  | CNew t, AOpen => if is_reachable t s then Some (Ok (open_stream t c, s)) else None
  | CNew t, AClosing => if is_reachable t s then None else Some (Ok (again ErrConnClosing c, s))
  | CNew t, AFail desc =>
      if is_reachable t s then Some (s ← on_transport notifyError t s; Ok (again (write_failed desc) c, s)) else None
  | CNew _, ARefuse code desc => Some (Ok (return_last (CErr (StreamError code desc)) c, s))
  | CSend t, a => sendRequest t a c s
  | CRecv _, ACtx => e ← c_ctx c; Some (Ok (set_pc (CReturned (Some (toRPCErr (CErr (ContextErr e))))) c, s))
  | CRecv t, AReply rs code desc =>
      match recvResponse (reply c) rs with
      | None => None
      | Some (Ok r) => received t r code desc c s
      | Some (Err e) => Some (Err e)
      | Some (Panic p) => Some (Panic p)
      end
  | _, _ => None
  end.

(** ** The system *)

Record clientSys := mkSys { cc : Conn; calls : list call }.

Inductive label :=
  | LMonitor (x : tick)
  | LClose                                     (** a call of [Close] *)
  | LBreak (t : nat)                           (** the reader of a transport finds an error *)
  | LInvoke (args : bytes) (failFast : bool)
  | LDone (i : nat) (e : ctxErr)               (** the context of a call is done *)
  | LCall (i : nat) (a : answer).

Definition sys_step (l : label) (s : clientSys) : option (outcome clientSys) :=
  match l with
  | LMonitor x => r ← monitor_step x (cc s); Some (k ← r; Ok (mkSys k (calls s)))
  | LClose => Some (k ← just_Close (cc s); Ok (mkSys k (calls s)))
  | LBreak t =>
      if is_reachable t (cc s) then Some (k ← on_transport notifyError t (cc s); Ok (mkSys k (calls s))) else None
  | LInvoke args failFast => Some (Ok (mkSys (cc s) (calls s ++ [newCall args failFast])))
  | LDone i e =>
      c ← calls s !! i;
      match c_ctx c with None => Some (Ok (mkSys (cc s) (<[i := set_ctx e c]> (calls s)))) | Some _ => None end
  | LCall i a =>
      c ← calls s !! i;
      r ← Invoke_step a c (cc s);
      Some ('(c, k) ← r; Ok (mkSys k (<[i := c]> (calls s))))
  end.

Definition sys_rel (s : clientSys) (l : label) (t : clientSys) : Prop := sys_step l s = Some (Ok t).
Definition dialed (o : dialOptions) : clientSys := mkSys (newConn o) [].

Fixpoint sys_exec (ls : list label) (s : clientSys) : option (outcome clientSys) :=
  match ls with
  | [] => Some (Ok s)
  | l :: ls => match sys_step l s with Some (Ok s) => sys_exec ls s | r => r end
  end.
End calls.
