(* ===== verification/ClientConnProps.v ===== *)
(** * Properties of the client's connection and its unary calls

    No channel is closed twice and no transport is leaked in any interleaving; a call sends
    its request at most once on each transport; after [Close] all comes to rest. *)
From Stdlib Require Import ZArith Lia Ascii.
From stdpp Require Import base option list strings.
From S2P Require Import Prelude GoNum GoFmt Strconv Messages Flow Transfer Proto ProtoFacts Wire Grpc ClientConn.

Section props.
Context (Sprintf : string → string).

(** ** What holds of a connection *)

Definition transport_ok (t : clientTransport) : Prop :=
  t_shutdownChan t = bool_decide (t_state t = closing) ∧
  match t_state t with reachable => errorChan t = false | unreachable => errorChan t = true | closing => True end.

(** A transport that the goroutine has dialed and not yet handed over. *)
Definition pending (m : mstate) (i : nat) : Prop := m = MInstall i ∨ m = MDiscard i.

Definition current_closed (s : Conn) : Prop :=
  ∀ i t, transport s = Some i → transports s !! i = Some t → t_state t = closing.

Definition monitor_ok (s : Conn) : Prop :=
  match monitor s with
  | MLock close _ | MClose close _ => (if close then is_Some (transport s) else current_closed s) ∧ c_state s ≠ Ready
  | MDial _ _ _ | MFailed _ _ | MAfter _ _ | MSleep _ | MShut => current_closed s ∧ c_state s ≠ Ready
  | MInstall t => current_closed s ∧ c_state s ≠ Ready ∧ transport s ≠ Some t ∧ is_Some (transports s !! t)
  | MDiscard t => c_state s = Shutdown ∧ transport s ≠ Some t ∧ is_Some (transports s !! t)
  | MReturn | MDead => c_state s = Shutdown
  | MWatch | MBroken => is_Some (transport s) ∧ (c_state s = Ready ∨ c_state s = Shutdown)
  end.

Record conn_ok (s : Conn) : Prop := {
  co_ready : ∀ ch, chans s !! ch = Some false ↔ ready s = Some ch;
  co_awake : c_state s = Ready ∨ c_state s = Shutdown → ready s = None;
  co_shut : shutdownChan s = is_shutdown s;
  co_transports : Forall transport_ok (transports s);
  co_current : ∀ i, transport s = Some i → is_Some (transports s !! i);
  co_others : ∀ i t, transports s !! i = Some t → transport s ≠ Some i → ¬ pending (monitor s) i → t_state t = closing;
  co_closed : c_state s = Shutdown → current_closed s;
  co_monitor : monitor_ok s
}.

(** What a step keeps for the calls. *)
Record conn_le (s s' : Conn) : Prop := {
  le_shutdown : c_state s = Shutdown → c_state s' = Shutdown;
  le_chans : (length (chans s) ≤ length (chans s'))%nat;
  le_transport : is_Some (transport s) → is_Some (transport s');
  le_transports : ∀ i t, transports s !! i = Some t →
    ∃ t', transports s' !! i = Some t' ∧ (t_state t' = reachable → t_state t = reachable);
  le_pending : ∀ i, is_Some (transports s !! i) → pending (monitor s') i → pending (monitor s) i
}.

#[export] Instance conn_le_refl : Reflexive conn_le.
Proof. intros s. split; naive_solver. Qed.
#[export] Instance conn_le_trans : Transitive conn_le.
Proof.
  intros s1 s2 s3 H1 H2. split.
  - intros. by apply H2, H1.
  - etrans; [apply H1|apply H2].
  - intros. by apply H2, H1.
  - intros i t Hi. destruct (le_transports _ _ H1 _ _ Hi) as (t' & Hi' & Ht). destruct (le_transports _ _ H2 _ _ Hi') as (t'' & ? & ?). eauto.
  - intros i [t Hi] Hp. destruct (le_transports _ _ H1 _ _ Hi) as (t' & Hi' & _). apply H1; [by eexists|]. apply H2; [by eexists|done].
Qed.

Definition goes_well (s : Conn) (r : outcome Conn) : Prop := ∃ s', r = Ok s' ∧ conn_ok s' ∧ conn_le s s'.

Ltac unfold_conn :=
  cbn [c_opts c_state ready chans transport transports shutdownChan monitor connected
       set_state set_monitor set_transports set_ready set_connected set_shutdown] in *.

(** ** The parts of a step *)

Definition as_closed (t : clientTransport) : clientTransport := mkTransport closing (errorChan t) true.

Lemma transport_Close_done t : transport_ok t → transport_Close t = Ok (as_closed t).
Proof. destruct t as [[] e d]; unfold transport_ok, transport_Close, as_closed; cbn; intros [-> ?]; by cbn. Qed.

Lemma close_transport_done s i : Forall transport_ok (transports s) → is_Some (transports s !! i) →
  on_transport transport_Close i s = Ok (set_transports (alter as_closed i (transports s)) s).
Proof.
  intros Hall [t Ht]. unfold on_transport. rewrite Ht. assert (transport_ok t) as Hok by (by eapply Forall_lookup_1).
  rewrite (transport_Close_done _ Hok). cbn. do 2 f_equal.
  rewrite list_insert_alter. apply list_alter_ext; [congruence|done].
Qed.

Definition closed_ready (s : Conn) : Conn :=
  set_ready None (match ready s with Some ch => <[ch := true]> (chans s) | None => chans s end) s.
Lemma close_ready_done s : (∀ ch, chans s !! ch = Some false ↔ ready s = Some ch) → close_ready s = Ok (closed_ready s).
Proof.
  intros Hr. unfold close_ready, closed_ready. destruct (ready s) as [ch|] eqn:E; [by rewrite (proj2 (Hr ch) eq_refl)|].
  by destruct s; cbn in *; subst.
Qed.
Lemma closed_ready_open s ch : (∀ ch, chans s !! ch = Some false ↔ ready s = Some ch) → chans (closed_ready s) !! ch ≠ Some false.
Proof.
  intros Hr. cbn. destruct (ready s) as [c|] eqn:E; intros H.
  - destruct (decide (ch = c)) as [->|Hne]; [by rewrite list_lookup_insert_eq in H by (by eapply lookup_lt_Some, Hr)|].
    rewrite list_lookup_insert_ne in H by done. apply Hr in H. congruence.
  - apply Hr in H. congruence.
Qed.
Lemma closed_ready_length s : length (chans (closed_ready s)) = length (chans s).
Proof. cbn. destruct (ready s); [by rewrite length_insert|done]. Qed.

Lemma as_closed_ok l i : Forall transport_ok l → Forall transport_ok (alter as_closed i l).
Proof. intros H. apply Forall_alter; [done|]. by intros. Qed.
Lemma alter_closed_lookup (l : list clientTransport) i j t : alter as_closed i l !! j = Some t →
  ∃ t0, l !! j = Some t0 ∧ (t_state t = t_state t0 ∨ t_state t = closing) ∧ (i = j → t_state t = closing).
Proof.
  destruct (decide (i = j)) as [->|Hne]; [rewrite list_lookup_alter_eq|rewrite list_lookup_alter_ne by done].
  - intros (t0 & E & ->)%fmap_Some. exists t0. split_and!; [done|by right|done].
  - intros H. exists t. split_and!; [done|by left|by intros ->].
Qed.
Lemma alter_closed_le (l : list clientTransport) i j t : l !! j = Some t →
  ∃ t', alter as_closed i l !! j = Some t' ∧ (t_state t' = reachable → t_state t = reachable).
Proof.
  intros Hj. destruct (decide (i = j)) as [->|Hne]; [rewrite list_lookup_alter_eq|rewrite list_lookup_alter_ne by done]; rewrite Hj; eauto.
  eexists. split; [done|]. done.
Qed.

(** ** Close *)

(** What [Close] leaves of an open connection. *)
Definition shut (s : Conn) : Conn :=
  let s := closed_ready (set_state Shutdown s) in
  set_shutdown (set_transports (match transport s with Some i => alter as_closed i (transports s) | None => transports s end) s).

Lemma Close_done s : conn_ok s → just_Close s = Ok (if is_shutdown s then s else shut s).
Proof.
  intros [Hr Ha Hs Ht Hc Ho Hcl Hm]. unfold just_Close, Conn_Close, is_shutdown in *. case_bool_decide as E; [by rewrite E|].
  assert (close_ready (set_state Shutdown s) = Ok (closed_ready (set_state Shutdown s))) as Hcr by (by apply close_ready_done).
  assert (close_ready (set_state Shutdown s) ≫= (λ s, s ← match transport s with Some _ => close_current s | None => Ok s end;
            if shutdownChan s then Panic closed_twice else Ok (set_shutdown s, None)) = Ok (shut s, None : option string)) as Hbody.
  { rewrite Hcr. unfold shut, close_current, closed_ready. cbn [mbind outcome_bind]. unfold_conn.
    destruct (transport s) as [i|] eqn:Ei; [rewrite close_transport_done by (by auto)|]; cbn [mbind outcome_bind]; unfold_conn; by rewrite Hs. }
  destruct (c_state s); [rewrite Hbody..|done]; done.
Qed.

Lemma shut_le s : conn_le s (shut s).
Proof.
  split; unfold shut; unfold_conn.
  - done.
  - by rewrite (closed_ready_length (set_state Shutdown s)).
  - done.
  - intros j t Hj. unfold closed_ready. unfold_conn. destruct (transport s) as [i|]; [by apply alter_closed_le|eauto].
  - done.
Qed.

Lemma shut_current s : current_closed (shut s).
Proof.
  intros i t. unfold shut, closed_ready. unfold_conn. intros Hi Hl. rewrite Hi in Hl.
  by apply alter_closed_lookup in Hl as (? & ? & ? & ?); auto.
Qed.
Lemma shut_lookup s i : is_Some (transports (shut s) !! i) ↔ is_Some (transports s !! i).
Proof.
  unfold shut, closed_ready. unfold_conn. destruct (transport s) as [j|]; [|done].
  destruct (decide (j = i)) as [->|]; [rewrite list_lookup_alter_eq; by rewrite fmap_is_Some|by rewrite list_lookup_alter_ne].
Qed.

Lemma shut_ok s : conn_ok s → conn_ok (shut s).
Proof.
  intros [Hr Ha Hs Ht Hc Ho Hcl Hm]. pose proof (shut_current s) as Hcur. pose proof (shut_lookup s) as Hlk. split.
  - intros ch. split; [|done]. intros H. by apply (closed_ready_open (set_state Shutdown s) ch) in H.
  - done.
  - done.
  - unfold shut, closed_ready. unfold_conn. destruct (transport s); [by apply as_closed_ok|done].
  - intros i Hi. apply Hlk. by apply Hc.
  - unfold shut, closed_ready. unfold_conn. intros i t Hi Hne Hp. destruct (transport s) as [j|]; [|by eapply Ho].
    apply alter_closed_lookup in Hi as (t0 & H0 & [Ht'|Ht'] & _); [|done]. rewrite Ht'. by eapply Ho.
  - done.
  - unfold monitor_ok in *. change (monitor (shut s)) with (monitor s). change (transport (shut s)) with (transport s).
    change (c_state (shut s)) with Shutdown.
    destruct (monitor s) as [[]?|[]?| | | | |t|t| | | | |]; naive_solver.
Qed.

Lemma Close_well s : conn_ok s → ∃ s', just_Close s = Ok s' ∧ conn_ok s' ∧ conn_le s s' ∧ c_state s' = Shutdown ∧ monitor s' = monitor s.
Proof.
  intros Hok. rewrite Close_done by done. unfold is_shutdown. case_bool_decide; eexists; (split; [done|]);
    (split_and!; [by try apply shut_ok|by try apply shut_le|done|done]).
Qed.

(** ** The steps of the goroutine *)

Lemma not_pending m i : (∀ t, m ≠ MInstall t) → (∀ t, m ≠ MDiscard t) → ¬ pending m i.
Proof. intros ? ? [->| ->]; naive_solver. Qed.

(** The goroutine moves on, perhaps with another state of the connection. *)
Lemma move_well m x s :
  conn_ok s → (c_state s = Shutdown → x = Shutdown) → (x = Shutdown → c_state s = Shutdown) → (x = Ready → ready s = None) →
  (∀ i, pending (monitor s) i ↔ pending m i) → monitor_ok (set_monitor m (set_state x s)) → goes_well s (Ok (set_monitor m (set_state x s))).
Proof.
  intros [Hr Ha Hs Ht Hc Ho Hcl Hm] Hx1 Hx2 Hx3 Hp Hm'. eexists. split; [done|]. split; [split|split]; unfold_conn; try done.
  - intros [->|Hx]; auto.
  - rewrite Hs. unfold is_shutdown. unfold_conn. apply bool_decide_ext. naive_solver.
  - intros i t Hi Hne Hp'. eapply Ho; [done..|]. by rewrite Hp.
  - intros Hx i t. unfold_conn. by apply Hcl, Hx2.
  - intros i t Hi. eauto.
  - intros i _. by rewrite Hp.
Qed.
Lemma same_state s : set_state (c_state s) s = s.
Proof. by destruct s. Qed.
Lemma step_well m s : conn_ok s → (∀ i, pending (monitor s) i ↔ pending m i) → monitor_ok (set_monitor m s) → goes_well s (Ok (set_monitor m s)).
Proof.
  intros Hok Hp Hm. rewrite <- (same_state s) at 2. apply move_well; try done.
  intros. apply Hok. by left.
Qed.

(** The same with [cc.ready] closed. *)
Lemma wake_well m x s :
  conn_ok s → c_state s ≠ Shutdown → x ≠ Shutdown →
  (∀ i, ¬ pending (monitor s) i) → (∀ i, ¬ pending m i) → monitor_ok (set_monitor m (closed_ready (set_state x s))) →
  goes_well s (Ok (set_monitor m (closed_ready (set_state x s)))).
Proof.
  intros [Hr Ha Hs Ht Hc Ho Hcl Hm] Hn Hx Hp Hp' Hm'. eexists. split; [done|]. split; [split|split]; unfold closed_ready; unfold_conn; try done.
  - intros ch. split; [|done]. intros H. by apply (closed_ready_open (set_state x s) ch) in H.
  - rewrite Hs. unfold is_shutdown. unfold_conn. by rewrite !bool_decide_eq_false_2.
  - intros i t Hi Hne _. eapply Ho; [done..|]. apply Hp.
  - destruct (ready s); by rewrite ?length_insert.
  - intros i t Hi. eauto.
  - intros i _ H. by apply Hp' in H.
Qed.

Lemma current_closed_alter s i : transport s = Some i → current_closed (set_transports (alter as_closed i (transports s)) s).
Proof. intros Hi j t. unfold_conn. rewrite Hi. intros [= <-] Hj. apply alter_closed_lookup in Hj as (? & ? & ? & H). by apply H. Qed.

(** A transport is closed by the goroutine. *)
Lemma close_well m i s :
  conn_ok s → is_Some (transports s !! i) → (∀ j, pending m j → pending (monitor s) j) → (∀ j, pending (monitor s) j → pending m j ∨ j = i) →
  monitor_ok (set_monitor m (set_transports (alter as_closed i (transports s)) s)) →
  goes_well s (Ok (set_monitor m (set_transports (alter as_closed i (transports s)) s))).
Proof.
  intros [Hr Ha Hs Ht Hc Ho Hcl Hm] Hi Hp Hp' Hm'. eexists. split; [done|]. split; [split|split]; unfold_conn; try done.
  - by apply as_closed_ok.
  - intros j Hj. apply Hc in Hj as [t Hj]. destruct (alter_closed_le _ i _ _ Hj) as (t' & ? & _). by exists t'.
  - intros j t Hj Hne Hq. apply alter_closed_lookup in Hj as (t0 & Hj & [Hst|Hst] & Heq); [|done].
    destruct (decide (i = j)) as [->|]; [by apply Heq|]. rewrite Hst. eapply Ho; [done..|]. intros [?| ->]%Hp'; done.
  - intros Hsh j t. unfold_conn. intros Hj Hl. apply alter_closed_lookup in Hl as (t0 & Hl & [Hst|Hst] & _); [|done]. rewrite Hst. by eapply Hcl.
  - intros j t Hj. by apply alter_closed_le.
  - intros j _. apply Hp.
Qed.

(** A new transport is dialed, and handed over. *)
Lemma dial_well s : conn_ok s → (∀ i, ¬ pending (monitor s) i) → current_closed s → c_state s ≠ Ready →
  goes_well s (Ok (set_monitor (MInstall (length (transports s))) (set_transports (transports s ++ [newHTTP2Client]) s))).
Proof.
  intros [Hr Ha Hs Ht Hc Ho Hcl Hm] Hp Hcc Hst.
  assert (∀ i t, transport s = Some i → (transports s ++ [newHTTP2Client]) !! i = Some t → transports s !! i = Some t) as Hold.
  { intros i t Hi. apply Hc in Hi as [t' Hi]. by rewrite (lookup_app_l_Some _ _ _ _ Hi), Hi. }
  assert (∀ P, (∀ i t, transport s = Some i → transports s !! i = Some t → P t) → ∀ i t, transport s = Some i →
    (transports s ++ [newHTTP2Client]) !! i = Some t → P t) as Hcur by eauto.
  eexists. split; [done|]. split; [split|split]; unfold_conn; try done.
  - rewrite Forall_app. split; [done|]. by repeat constructor.
  - intros i Hi. apply Hc in Hi as [t Hi]. exists t. by apply lookup_app_l_Some.
  - intros i t [Hi|[Hi He]]%lookup_app_Some Hne Hq; [by eapply Ho|].
    apply list_lookup_singleton_Some in He as [He _]. destruct Hq. left. f_equal. lia.
  - intros Hsh i t. unfold_conn. apply (Hcur (λ t, t_state t = closing)), Hcl, Hsh.
  - split_and!; unfold_conn; [intros i t; unfold_conn; by apply (Hcur (λ t, t_state t = closing))|done| |].
    + intros Hi%Hc. apply lookup_lt_is_Some in Hi. lia.
    + rewrite list_lookup_middle by done. by eexists.
  - intros i t Hi. exists t. split; [by apply lookup_app_l_Some|done].
  - intros i Hi [[= <-]|?]; [|done]. apply lookup_lt_is_Some in Hi. lia.
Qed.

Lemma install_well t s : conn_ok s → monitor s = MInstall t → c_state s ≠ Shutdown →
  goes_well s (Ok (set_monitor MWatch (closed_ready (set_connected t (set_state Ready s))))).
Proof.
  intros [Hr Ha Hs Ht Hc Ho Hcl Hm] Em Hn. unfold monitor_ok in Hm. rewrite Em in Hm. destruct Hm as (Hcc & _ & Hne & Hl).
  eexists. split; [done|]. split; [split|split]; unfold closed_ready; unfold_conn; try done.
  - intros ch. split; [|done]. intros H. by apply (closed_ready_open (set_connected t (set_state Ready s)) ch) in H.
  - rewrite Hs. unfold is_shutdown. unfold_conn. by rewrite !bool_decide_eq_false_2.
  - by intros i [= <-].
  - intros i u Hi Hnt _. destruct (transport s) as [j|] eqn:Ej.
    + destruct (decide (i = j)) as [->|]; [by eapply Hcc|]. eapply Ho; [done|congruence|]. rewrite Em. intros [|]; naive_solver.
    + eapply Ho; [done|done|]. rewrite Em. intros [|]; naive_solver.
  - split; [by eexists|by left].
  - destruct (ready s); by rewrite ?length_insert.
  - intros i u Hi. by exists u.
  - intros i _ [|]; done.
Qed.

Lemma then_well s s' r : conn_le s s' → goes_well s' r → goes_well s r.
Proof. intros Hle (s'' & ? & ? & ?). exists s''. split_and!; [done|done|by etrans]. Qed.

(** [Close] by the goroutine itself. *)
Lemma close_then_well m s : conn_ok s → (∀ i, ¬ pending (monitor s) i) → m = MReturn ∨ m = MDead → goes_well s (s ← just_Close s; Ok (set_monitor m s)).
Proof.
  intros Hok Hp Hm. destruct (Close_well s Hok) as (s' & -> & Hok' & Hle & Hst & Em). cbn. eapply then_well; [exact Hle|]. apply step_well; [done| |].
  - rewrite Em. intros i. split; [by intros ?%Hp|]. by destruct Hm as [-> | ->]; intros [|].
  - by destruct Hm as [-> | ->].
Qed.

(** Program counters that hold no transport. *)
Ltac none_pending Em :=
  let i := fresh "i" in intros i; rewrite ?Em; first [by split; intros [|] | by intros [|]].
Ltac settle Em := try done; first [by split | none_pending Em].

Lemma shutdown_dec s : is_shutdown s = true ∧ c_state s = Shutdown ∨ is_shutdown s = false ∧ c_state s ≠ Shutdown.
Proof. unfold is_shutdown. case_bool_decide; auto. Qed.

Lemma lock_well s ct n : conn_ok s → monitor s = MLock ct n →
  goes_well s (Ok (if is_shutdown s then set_monitor MReturn s else set_monitor (MClose ct n) (set_state Connecting s))).
Proof.
  intros Hok Em. pose proof (co_monitor _ Hok) as Hm. unfold monitor_ok in Hm. rewrite Em in Hm.
  destruct (shutdown_dec s) as [[-> Hs]|[-> Hs]].
  - apply step_well; [done|none_pending Em|done].
  - apply move_well; try done; [none_pending Em|]. by destruct ct; destruct Hm.
Qed.

Lemma closing_well s ct n (m : Conn → mstate) : conn_ok s → monitor s = MClose ct n → (∀ k, m k = MShut ∨ ∃ a b c, m k = MDial a b c) →
  goes_well s (s ← (if ct then close_current s else Ok s); Ok (set_monitor (m s) s)).
Proof.
  intros Hok Em Hm'. pose proof (co_monitor _ Hok) as Hm. unfold monitor_ok in Hm. rewrite Em in Hm. destruct Hm as [Hct Hst].
  assert (∀ k i, ¬ pending (m k) i) as Hp by (intros k i; destruct (Hm' k) as [->|(?&?&?&->)]; by intros [|]).
  assert (∀ k k', monitor_ok (set_monitor (m k) k') ↔ current_closed k' ∧ c_state k' ≠ Ready) as Hmk
    by (intros k k'; by destruct (Hm' k) as [->|(?&?&?&->)]).
  destruct ct; cbn [mbind outcome_bind].
  - destruct Hct as [i Hi]. unfold close_current. rewrite Hi, close_transport_done by (by apply Hok). cbn [mbind outcome_bind].
    apply close_well; [done|by apply Hok|intros j ?%Hp; done|rewrite Em; intros j [|]; done|].
    apply Hmk. split; [by apply current_closed_alter|done].
  - apply step_well; [done| |by apply Hmk]. intros j. rewrite Em. split; [by intros [|]|by intros ?%Hp].
Qed.

Lemma failed_well s n d : conn_ok s → monitor s = MFailed n d →
  goes_well s (if is_shutdown s then Ok (set_monitor MReturn s)
               else s ← close_ready (set_state TransientFailure s); Ok (set_monitor (MAfter n d) s)).
Proof.
  intros Hok Em. pose proof (co_monitor _ Hok) as Hm. unfold monitor_ok in Hm. rewrite Em in Hm. destruct (shutdown_dec s) as [[-> Hs]|[-> Hs]].
  - apply step_well; [done|none_pending Em|done].
  - rewrite close_ready_done by apply Hok. cbn [mbind outcome_bind]. apply wake_well; try done; [none_pending Em|none_pending Em|].
    split; [apply Hm|done].
Qed.

Lemma discard_well s t : conn_ok s → monitor s = MDiscard t →
  goes_well s (s ← on_transport transport_Close t s; Ok (set_monitor MReturn s)).
Proof.
  intros Hok Em. pose proof (co_monitor _ Hok) as Hm. unfold monitor_ok in Hm. rewrite Em in Hm. destruct Hm as (Hs & Hne & Hl).
  rewrite close_transport_done by (first [done|by apply Hok]). cbn [mbind outcome_bind].
  apply close_well; [done|done|intros j [|]; done|rewrite Em; intros j [|]; [done|right; congruence]|done].
Qed.

Lemma monitor_well x s r : conn_ok s → monitor_step x s = Some r → goes_well s r.
Proof.
  intros Hok. pose proof (co_monitor _ Hok) as Hm. unfold monitor_ok in Hm. unfold monitor_step.
  destruct (monitor s) as [ct n|ct n|n d to|n d|n d|n|t|t| | | | |] eqn:Em; intros H; simplify_eq.
  - by apply lock_well.
  - apply (closing_well _ _ n (λ k, match dial_timeout (Timeout (c_opts k)) (elapsed x) (backoff n (random x)) with
                                    | Some d => MDial n (backoff n (random x)) d | None => MShut end)); [done|done|].
    intros k. destruct (dial_timeout _ _ _); eauto.
  - destruct Hm as [Hcc Hst]. destruct (up x); [apply dial_well|apply step_well]; settle Em.
  - by apply failed_well.
  - case_match; apply step_well; settle Em.
  - apply step_well; settle Em.
  - destruct Hm as (Hcc & Hst & Hne & Hl). destruct (shutdown_dec s) as [[-> Hs]|[-> Hs]].
    + apply step_well; [done| |by split_and!]. intros i. rewrite Em. unfold pending. naive_solver.
    + rewrite close_ready_done by apply Hok. by apply install_well.
  - by apply discard_well.
  - apply close_then_well; [done|none_pending Em|by left].
  - destruct (connected s); [apply step_well; settle Em|].
    apply close_then_well; [done|none_pending Em|by right].
  - destruct Hm as [[i Hi] Hst]. rewrite Hi in H. destruct (co_current _ Hok _ Hi) as [t Ht]. rewrite Ht in H.
    pose proof (co_shut _ Hok) as Hsh. destruct (takes_error x).
    + destruct (errorChan t); simplify_eq. apply step_well; [done|none_pending Em|by split; [eexists|]].
    + destruct (shutdownChan s); simplify_eq. apply step_well; [done|none_pending Em|]. symmetry in Hsh. by apply bool_decide_eq_true in Hsh.
  - destruct Hm as [Hi Hst]. destruct (shutdown_dec s) as [[-> Hs]|[-> Hs]]; [apply step_well|apply move_well]; settle Em.
Qed.

(** ** Breaking transports, and calls that wait *)

Lemma break_well t s : conn_ok s → is_reachable t s = true → goes_well s (on_transport notifyError t s).
Proof.
  intros [Hr Ha Hs Ht Hc Ho Hcl Hm] (u & Hu & Hst)%bool_decide_eq_true%fmap_Some. unfold on_transport. rewrite Hu.
  assert (transport_ok u) as [Hsd Her] by (by eapply Forall_lookup_1). unfold notifyError. rewrite <- Hst in *. cbn in Hsd. rewrite Her.
  cbn [mbind outcome_bind]. set (b := mkTransport unreachable true (t_shutdownChan u)).
  assert (∀ P : Prop, current_closed s → transport s = Some t → P) as Hnot.
  { intros P Hcc Htr. specialize (Hcc _ _ Htr Hu). congruence. }
  assert (current_closed s → current_closed (set_transports (<[t:=b]> (transports s)) s)) as Hcc.
  { intros H i v. unfold_conn. intros Hi Hv%list_lookup_insert_Some. destruct Hv as [(-> & ? & ?)|[? ?]]; [by apply (Hnot _ H)|by eapply H]. }
  assert (∀ i, is_Some (<[t:=b]> (transports s) !! i) ↔ is_Some (transports s !! i)) as Hsome by (intros i; apply list_lookup_insert_is_Some).
  eexists. split; [done|]. split; [split|split]; unfold_conn; try done.
  - apply Forall_insert; [done|]. split; [exact Hsd|exact eq_refl].
  - intros i Hi. by apply Hsome, Hc.
  - intros i v Hv%list_lookup_insert_Some Hne Hp. destruct Hv as [(-> & ? & ?)|[? ?]]; [|by eapply Ho].
    specialize (Ho _ _ Hu Hne Hp). congruence.
  - intros H. by apply Hcc, Hcl.
  - unfold monitor_ok in *. unfold_conn. destruct (monitor s) as [[]?|[]?| | | | | | | | | | |]; rewrite ?Hsome; naive_solver.
  - intros i v Hv. destruct (decide (i = t)) as [->|Hne].
    + exists b. rewrite list_lookup_insert_eq by (by eapply lookup_lt_Some). by split.
    + exists v. by rewrite list_lookup_insert_ne.
Qed.

Lemma same_transports s : set_transports (transports s) s = s.
Proof. by destruct s. Qed.
Lemma notify_same t s : is_Some (transports s !! t) → is_reachable t s = false → on_transport notifyError t s = Ok s.
Proof.
  intros [u Hu] Hre. unfold on_transport, notifyError. rewrite Hu. unfold is_reachable in Hre. apply bool_decide_eq_false in Hre.
  rewrite Hu in Hre. cbn in Hre. destruct (t_state u); [done|..]; cbn [mbind outcome_bind]; by rewrite list_insert_id, same_transports.
Qed.
Lemma notify_well t s : conn_ok s → is_Some (transports s !! t) →
  ∃ s', on_transport notifyError t s = Ok s' ∧ conn_ok s' ∧ conn_le s s' ∧ is_reachable t s' = false.
Proof.
  intros Hok [u Hu]. destruct (is_reachable t s) eqn:Hre.
  - destruct (break_well t s Hok Hre) as (s' & E & Hok' & Hle). exists s'. split_and!; [done..|].
    apply bool_decide_eq_true in Hre. rewrite Hu in Hre. injection Hre as Hst. unfold on_transport, notifyError in E. rewrite Hu, Hst in E.
    destruct (errorChan u); [done|]. injection E as <-. unfold is_reachable. apply bool_decide_eq_false. unfold_conn.
    by rewrite list_lookup_insert_eq by (by eapply lookup_lt_Some).
  - exists s. split_and!; [by apply notify_same|done..].
Qed.

Lemma Wait_well s : conn_ok s → let (w, s') := Wait_lock s in conn_ok s' ∧ conn_le s s' ∧
  match w with
  | WClosing => c_state s = Shutdown
  | WReady => is_Some (transport s')
  | WPark ch => (ch < length (chans s'))%nat ∧ c_state s ≠ Shutdown
  end.
Proof.
  intros Hok. pose proof Hok as [Hr Ha Hs Ht Hc Ho Hcl Hm]. unfold Wait_lock.
  assert (c_state s = Ready → is_Some (transport s)) as Hready.
  { intros E. unfold monitor_ok in Hm. rewrite E in Hm. destruct (monitor s) as [[]?|[]?| | | | | | | | | | |]; naive_solver. }
  assert (c_state s ≠ Ready → c_state s ≠ Shutdown → let (w, s') :=
      match ready s with Some ch => (WPark ch, s) | None => (WPark (length (chans s)), set_ready (Some (length (chans s))) (chans s ++ [false]) s) end in
    conn_ok s' ∧ conn_le s s' ∧ match w with WPark ch => (ch < length (chans s'))%nat ∧ c_state s ≠ Shutdown | _ => True end) as Hpark.
  { intros Hn Hn'. destruct (ready s) as [ch|] eqn:Er.
    - split_and!; [done..| |done]. by eapply lookup_lt_Some, Hr.
    - split_and!; [split|split| |done]; unfold_conn; try done.
      + intros ch. split.
        * intros [H|[H He]]%lookup_app_Some; [apply Hr in H; congruence|]. apply list_lookup_singleton_Some in He as [? _]. f_equal. lia.
        * intros [= <-]. by apply list_lookup_middle.
      + naive_solver.
      + rewrite length_app. lia.
      + intros i t Hi. by exists t.
      + rewrite length_app. cbn. lia. }
  destruct (c_state s) eqn:Es; [| |split_and!; [done|done|by apply Hready]| |by split_and!]; (destruct (ready s) as [ch|]; (destruct Hpark as (? & ? & ?); [done..|]; done)).
Qed.

(** ** Calls *)

Definition installed (s : Conn) (t : nat) : Prop := is_Some (transports s !! t) ∧ ¬ pending (monitor s) t.

(** The streams of the attempts that have failed. *)
Definition used (c : call) : list nat :=
  match c_pc c with CSend _ | CRecv _ | CReturned _ => tail (c_streams c) | _ => c_streams c end.

Record call_ok (s : Conn) (c : call) : Prop := {
  ca_pc : match c_pc c with
          | CWait ch => (ch < length (chans s))%nat
          | CTake => is_Some (transport s)
          | CNew t => installed s t
          | CSend t | CRecv t => installed s t ∧ head (c_streams c) = Some t
          | _ => True
          end;
  ca_streams : NoDup (c_streams c);
  ca_used : ∀ t, t ∈ used c → ∃ u, transports s !! t = Some u ∧ t_state u ≠ reachable;
  ca_first : lastErr c = None → (length (c_streams c) ≤ 1)%nat ∧ used c = [];
  ca_fast : failFast c = true → (length (c_streams c) ≤ 1)%nat ∧
    (lastErr c ≠ None → c_pc c = CLoop ∨ ∃ r, c_pc c = CReturned r)
}.

Lemma installed_le s s' t : conn_le s s' → installed s t → installed s' t.
Proof.
  intros Hle [Hi Hp]. split.
  - destruct Hi as [u Hu]. destruct (le_transports _ _ Hle _ _ Hu) as (u' & ? & _). by exists u'.
  - intros H. by apply Hp, Hle.
Qed.
Lemma call_ok_le s s' c : conn_le s s' → call_ok s c → call_ok s' c.
Proof.
  intros Hle [Hpc Hnd Hu Hf Hff]. split; try done.
  - destruct (c_pc c); try done; [|by apply Hle|by eapply installed_le|..].
    + eapply Nat.lt_le_trans; [exact Hpc|apply Hle].
    + destruct Hpc; split; [by eapply installed_le|done].
    + destruct Hpc; split; [by eapply installed_le|done].
  - intros t Ht. destruct (Hu t Ht) as (u & Hl & Hst). destruct (le_transports _ _ Hle _ _ Hl) as (u' & ? & ?). exists u'. split; [done|]. tauto.
Qed.
Lemma installed_current s t : conn_ok s → transport s = Some t → installed s t.
Proof.
  intros Hok Ht. split; [by apply Hok|]. pose proof (co_monitor _ Hok) as Hm. unfold monitor_ok in Hm.
  intros [E|E]; rewrite E in Hm; naive_solver.
Qed.

Lemma parse_safe d p : Parse (M:=RegisterExecutorResp) d ≠ Panic p.
Proof.
  assert (safe (typed (M:=RegisterExecutorResp)) (Parse d)) as H.
  { unfold Parse, Unmarshal. apply unmarshal_safe; [|done|by repeat split]. apply RegisterExecutorResp_safe. }
  intros E. by rewrite E in H.
Qed.
Lemma recv_loop_ok fuel r rs o : recv_loop fuel r rs = Some o → ∃ v, o = Ok v.
Proof.
  revert r rs. induction fuel as [|fuel IH]; intros r rs; [done|]. cbn [recv_loop]. destruct (Grpc.recvMsg rs) as [[pf d] rs'|e rs'|k]; [| |done].
  - unfold decode. destruct (pf =? 0); [|intros [= <-]; eauto]. pose proof (parse_safe d) as Hp.
    destruct (Parse d) as [v|e|p]; [apply IH|intros [= <-]; eauto|by destruct (Hp p)].
  - destruct e; intros [= <-]; eauto.
Qed.

Lemma tail_used c t : t ∈ tail (c_streams c) → t ∈ used c.
Proof. unfold used. intros H. assert (t ∈ c_streams c) by (by destruct (c_streams c); [|right]). by destruct (c_pc c). Qed.
Lemma tail_short {A} (l : list A) : (length l ≤ 1)%nat → tail l = [].
Proof. destruct l as [|? [|]]; cbn; [done|done|lia]. Qed.

Lemma returned_ok s c r : call_ok s c → call_ok s (set_pc (CReturned r) c).
Proof.
  intros [Hpc Hnd Hu Hf Hff]. split; try done; unfold used in *; cbn.
  - intros t Ht. apply Hu. by apply tail_used.
  - intros Hl. destruct (Hf Hl). split; [done|by apply tail_short].
  - intros H. destruct (Hff H). split; [done|]. right. by eexists.
Qed.
Lemma reply_ok s c v : call_ok s c → call_ok s (set_reply v c).
Proof. intros [Hpc Hnd Hu Hf Hff]. by split. Qed.
Lemma return_last_ok s c e : call_ok s c → call_ok s (return_last e c).
Proof. apply returned_ok. Qed.

Definition attempt (c : call) (t : nat) : Prop := c_pc c = CNew t ∨ c_pc c = CSend t ∨ c_pc c = CRecv t.
Lemma attempt_installed s c t : call_ok s c → attempt c t → installed s t.
Proof. intros [Hpc _ _ _ _] [E|[E|E]]; rewrite E in Hpc; [done|apply Hpc..]. Qed.

(** An attempt fails because its transport is broken. *)
Lemma again_ok s c t e : call_ok s c → attempt c t → is_reachable t s = false → call_ok s (again e c).
Proof.
  intros Hok Hat Hre. pose proof Hok as [Hpc Hnd Hu Hf Hff]. destruct (attempt_installed _ _ _ Hok Hat) as [[u Hl] _].
  assert (t_state u ≠ reachable) as Hst.
  { apply bool_decide_eq_false in Hre. rewrite Hl in Hre. cbn in Hre. congruence. }
  split; try done; cbn.
  - intros t' Ht'. unfold used in *. cbn in Ht'. destruct Hat as [E|[E|E]]; rewrite E in *; [by apply Hu|..];
      destruct Hpc as [_ Hh]; destruct (c_streams c) as [|t0 l]; cbn in Hh; simplify_eq; (apply elem_of_cons in Ht' as [->|Ht']; [by exists u|by apply Hu]).
  - intros H. destruct (Hff H). split; [done|by left].
Qed.

(** Steps before a stream is opened. *)
Definition before (pc : cpc) : bool := match pc with CLoop | CPick | CWait _ | CTake | CNew _ => true | _ => false end.
Lemma waits_ok s c pc : call_ok s c → before (c_pc c) = true → before pc = true → (failFast c = true → lastErr c = None) →
  match pc with CWait ch => (ch < length (chans s))%nat | CTake => is_Some (transport s) | CNew t => installed s t | _ => True end →
  call_ok s (set_pc pc c).
Proof.
  intros [Hpc Hnd Hu Hf Hff] Hb Hb' Hfast Hpc'.
  assert (used (set_pc pc c) = used c) as Hused by (unfold used; cbn; by destruct pc, (c_pc c)).
  split; rewrite ?Hused; try done; cbn.
  - by destruct pc.
  - intros H. destruct (Hff H). split; [done|]. intros Hn. by rewrite Hfast in Hn.
Qed.
Lemma still_first s c : call_ok s c → (c_pc c ≠ CLoop) → (∀ r, c_pc c ≠ CReturned r) → failFast c = true → lastErr c = None.
Proof.
  intros [_ _ _ _ Hff] Hn Hn' H. destruct (Hff H) as [_ Hl]. destruct (lastErr c); [|done]. destruct Hl as [|[r' ?]]; [done|done|by destruct (Hn' r')].
Qed.

Lemma open_ok s c t : call_ok s c → c_pc c = CNew t → is_reachable t s = true → call_ok s (open_stream t c).
Proof.
  intros Hok E Hre. pose proof Hok as [Hpc Hnd Hu Hf Hff]. rewrite E in Hpc. unfold used in Hu, Hf. rewrite E in Hu, Hf.
  apply bool_decide_eq_true in Hre.
  pose proof (still_first _ _ Hok ltac:(congruence) ltac:(congruence)) as Hfirst.
  split; cbn; try done.
  - constructor; [|done]. intros Ht. destruct (Hu _ Ht) as (u & Hl & Hst). rewrite Hl in Hre. cbn in Hre. congruence.
  - intros Hl. destruct (Hf Hl) as [_ ->]. cbn. split; [lia|done].
  - intros H. specialize (Hfirst H). destruct (Hf Hfirst) as [_ ->]. cbn. split; [lia|by rewrite Hfirst].
Qed.
Lemma sent_ok s c t : call_ok s c → c_pc c = CSend t → call_ok s (set_pc (CRecv t) c).
Proof.
  intros Hok E. pose proof Hok as [Hpc Hnd Hu Hf Hff]. unfold used in *. rewrite E in *.
  pose proof (still_first _ _ Hok ltac:(congruence) ltac:(congruence)) as Hfirst.
  split; try done. cbn. intros H. destruct (Hff H). split; [done|]. by rewrite Hfirst.
Qed.

(** ** A step of a call *)

Definition call_well (s : Conn) (r : outcome (call * Conn)) : Prop :=
  ∃ c' s', r = Ok (c', s') ∧ conn_ok s' ∧ conn_le s s' ∧ call_ok s' c'.
Lemma same_conn s c' : conn_ok s → call_ok s c' → call_well s (Ok (c', s)).
Proof. intros. by exists c', s. Qed.

Lemma closed_unreachable s t : conn_ok s → is_closed t s = true → is_reachable t s = false.
Proof.
  intros Hok (u & Hl & Hc)%bool_decide_eq_true%fmap_Some. apply bool_decide_eq_false. rewrite Hl. cbn. intros [= E].
  assert (transport_ok u) as [Hsd _] by (eapply Forall_lookup_1; [apply Hok|done]). by rewrite E, <- Hc in Hsd.
Qed.

Lemma fail_well s c t e : conn_ok s → call_ok s c → attempt c t → call_well s (s ← on_transport notifyError t s; Ok (again e c, s)).
Proof.
  intros Hs Hc Hat. destruct (notify_well t s Hs) as (s' & -> & Hs' & Hle & Hre); [by apply (attempt_installed _ c)|].
  cbn. exists (again e c), s'. split_and!; [done..|]. eapply again_ok; [by eapply call_ok_le|done|done].
Qed.

Lemma sendRequest_well t a c s r : conn_ok s → call_ok s c → c_pc c = CSend t → sendRequest t a c s = Some r → call_well s r.
Proof.
  intros Hs Hc E. assert (attempt c t) as Hat by (right; by left). unfold sendRequest. destruct (encode _ 0), a; try done.
  - destruct (c_ctx c); [|done]. intros [= <-]. apply same_conn, return_last_ok; done.
  - intros [= <-]. apply same_conn; [done|by apply sent_ok].
  - destruct (is_closed t s) eqn:Hcl; [|done]. intros [= <-]. apply same_conn; [done|].
    eapply again_ok; [done|done|by apply closed_unreachable].
  - intros [= <-]. by apply fail_well.
  - intros [= <-]. apply same_conn, return_last_ok; done.
Qed.

Lemma received_well t v code desc c s r : conn_ok s → call_ok s c → c_pc c = CRecv t → received Sprintf t v code desc c s = Some r → call_well s r.
Proof.
  intros Hs Hc E. unfold received. destruct v as [v|e].
  - intros [= <-]. by apply same_conn, returned_ok, reply_ok.
  - destruct e; try (intros [= <-]; by apply same_conn, returned_ok).
    destruct (is_closed t s) eqn:Hcl; [|done]. intros [= <-]. apply same_conn; [done|].
    eapply again_ok; [done|right; by right|by apply closed_unreachable].
Qed.

Lemma pick_well c s : conn_ok s → call_ok s c → c_pc c = CPick →
  call_well s (Ok match Wait_lock s with
                  | (WClosing, s) => (return_last (CPlain ErrClientConnClosing) c, s)
                  | (WReady, s) => (set_pc CTake c, s)
                  | (WPark ch, s) => (set_pc (CWait ch) c, s)
                  end).
Proof.
  intros Hs Hc E. pose proof (Wait_well s Hs) as H. destruct (Wait_lock s) as [w s']. destruct H as (Hs' & Hle & Hw).
  pose proof (call_ok_le _ _ _ Hle Hc) as Hc'.
  pose proof (still_first _ _ Hc ltac:(congruence) ltac:(congruence)) as Hfirst.
  destruct w as [| |ch]; eexists _, s'; (split_and!; [done|done|done|]);
    [by apply return_last_ok|apply waits_ok; rewrite ?E; done..|apply waits_ok; rewrite ?E; try done; apply Hw].
Qed.

Lemma Invoke_well a c s r : conn_ok s → call_ok s c → Invoke_step Sprintf a c s = Some r → call_well s r.
Proof.
  intros Hs Hc. pose proof (ca_pc _ _ Hc) as Hpc. unfold Invoke_step.
  destruct (c_pc c) as [| |ch| |t|t|t|r'] eqn:E, a; try done; try apply sendRequest_well; try done.
  - intros [= <-]. apply same_conn; [done|]. destruct (lastErr c) eqn:El; [destruct (failFast c) eqn:Ef|].
    + by apply returned_ok.
    + apply waits_ok; rewrite ?E; try done; congruence.
    + apply waits_ok; rewrite ?E; done.
  - intros [= <-]. by apply pick_well.
  - case_bool_decide; [|done]. intros [= <-]. apply same_conn; [done|]. apply waits_ok; rewrite ?E; try done.
    by apply (still_first s); [|congruence..].
  - destruct (c_ctx c); [|done]. intros [= <-]. by apply same_conn, return_last_ok.
  - destruct Hpc as [t Ht]. rewrite Ht. intros [= <-]. apply same_conn; [done|]. apply waits_ok; rewrite ?E; try done; [|by apply installed_current].
    by apply (still_first s); [|congruence..].
  - destruct (c_ctx c); [|done]. intros [= <-]. by apply same_conn, return_last_ok.
  - destruct (is_reachable t s) eqn:Hre; [|done]. intros [= <-]. apply same_conn; [done|]. by apply open_ok.
  - destruct (is_reachable t s) eqn:Hre; [done|]. intros [= <-]. apply same_conn; [done|]. eapply again_ok; [done|by left|done].
  - destruct (is_reachable t s) eqn:Hre; [|done]. intros [= <-]. apply fail_well; [done|done|by left].
  - intros [= <-]. by apply same_conn, return_last_ok.
  - destruct (c_ctx c); [|done]. intros [= <-]. by apply same_conn, returned_ok.
  - destruct (recvResponse (reply c) rs) as [o|] eqn:Ho; [|done]. destruct (recv_loop_ok _ _ _ _ Ho) as [v ->]. by apply received_well.
Qed.

(** ** All steps *)

Definition sys_ok (s : clientSys) : Prop := conn_ok (cc s) ∧ Forall (call_ok (cc s)) (calls s).

Lemma calls_le s s' l : conn_le s s' → Forall (call_ok s) l → Forall (call_ok s') l.
Proof. intros Hle H. eapply Forall_impl; [exact H|]. intros c. by apply call_ok_le. Qed.

Lemma sys_well l s r : sys_ok s → sys_step Sprintf l s = Some r → ∃ s', r = Ok s' ∧ sys_ok s' ∧ conn_le (cc s) (cc s').
Proof.
  intros [Hs Hc].
  assert (∀ r : outcome Conn, goes_well (cc s) r → ∃ s', (k ← r; Ok (mkSys k (calls s))) = Ok s' ∧ sys_ok s' ∧ conn_le (cc s) (cc s')) as Hconn.
  { intros o (k & -> & Hk & Hle). eexists. split; [done|]. split; [|done]. split; [done|by eapply calls_le]. }
  destruct l as [x| |t|b ff|i e|i a]; cbn [sys_step].
  - destruct (monitor_step x (cc s)) eqn:E; [|done]. intros [= <-]. by apply Hconn, (monitor_well x).
  - intros [= <-]. apply Hconn. destruct (Close_well _ Hs) as (k & ? & ? & ? & _). by exists k.
  - destruct (is_reachable t (cc s)) eqn:E; [|done]. intros [= <-]. by apply Hconn, break_well.
  - intros [= <-]. eexists. split; [done|]. split; [|done]. split; [done|]. cbn. apply Forall_app. split; [done|]. constructor; [|done].
    split; cbn; try done; [constructor|by intros ? ?%elem_of_nil|intros _; split; [lia|done]|intros _; split; [lia|done]].
  - destruct (calls s !! i) as [c|] eqn:Ei; [|done]. cbn. destruct (c_ctx c); [done|]. intros [= <-]. eexists. split; [done|]. split; [|done].
    split; [done|]. cbn. assert (call_ok (cc s) c) as [? ? ? ? ?] by (by eapply Forall_lookup_1). apply Forall_insert; [done|by split].
  - destruct (calls s !! i) as [c|] eqn:Ei; [|done]. cbn. destruct (Invoke_step Sprintf a c (cc s)) as [o|] eqn:E; [|done]. intros [= <-].
    destruct (Invoke_well a c (cc s) o Hs) as (c' & k & -> & Hk & Hle & Hc'); [by eapply Forall_lookup_1|done|].
    eexists. split; [done|]. split; [|done]. split; [done|]. cbn. apply Forall_insert; [by eapply calls_le|done].
Qed.

Lemma dialed_ok o : sys_ok (dialed o).
Proof. split; [|constructor]. by repeat split; cbn; try done; intros ? ?. Qed.

Lemma reachable_ok o ls s : run (sys_rel Sprintf) (dialed o) ls s → sys_ok s.
Proof.
  intros Hr. eapply (run_invariant _ sys_ok); [|exact Hr|apply dialed_ok]. intros u l v Hu Hst.
  destruct (sys_well l u _ Hu Hst) as (v' & [= <-] & ? & _). done.
Qed.

(** C34: in every interleaving of the goroutine of a connection, of [Close], of calls and of
    what the network does, no channel is closed twice and no nil transport is used.  Once
    shut down the connection stays so.  A transport that is not closed is the current one of
    an open connection, or has just been dialed: none is leaked.  A call that waits is woken:
    its channel is closed, or it is the one that the next transport, the next failure or
    [Close] will close. *)
Theorem connection_safe o ls s : run (sys_rel Sprintf) (dialed o) ls s →
  (∀ l r, sys_step Sprintf l s = Some r → ∃ s', r = Ok s' ∧ (c_state (cc s) = Shutdown → c_state (cc s') = Shutdown)) ∧
  (∀ i t, transports (cc s) !! i = Some t → t_state t ≠ closing →
    transport (cc s) = Some i ∧ c_state (cc s) ≠ Shutdown ∨ pending (monitor (cc s)) i) ∧
  (∀ c ch, c ∈ calls s → c_pc c = CWait ch → chans (cc s) !! ch = Some true ∨
    ready (cc s) = Some ch ∧ c_state (cc s) ≠ Ready ∧ c_state (cc s) ≠ Shutdown).
Proof.
  intros Hr. pose proof (reachable_ok _ _ _ Hr) as Hok. pose proof Hok as [Hc Hcalls]. split_and!.
  - intros l r Hst. destruct (sys_well l s r Hok Hst) as (s' & -> & _ & Hle). exists s'. split; [done|apply Hle].
  - intros i t Hi Hn. destruct (decide (transport (cc s) = Some i)) as [E|E].
    + left. split; [done|]. intros Hs. apply Hn. by apply (co_closed _ Hc Hs i).
    + assert (Decision (pending (monitor (cc s)) i)) as Hdec.
      { unfold pending. destruct (monitor (cc s)) as [| | | | | |j|j| | | | |]; try (by right; intros [|]);
          (destruct (decide (j = i)) as [->|Hne]; [left; auto|right; naive_solver]). }
      destruct (decide (pending (monitor (cc s)) i)); [by right|]. destruct Hn. by eapply (co_others _ Hc).
  - intros c ch Hin E. rewrite Forall_forall in Hcalls. pose proof (ca_pc _ _ (Hcalls _ Hin)) as Hpc. rewrite E in Hpc.
    apply lookup_lt_is_Some in Hpc as [[] Hb]; [by left|right]. pose proof (proj1 (co_ready _ Hc ch) Hb) as Hre.
    split_and!; [done|intros Hs; rewrite (co_awake _ Hc) in Hre by auto; done..].
Qed.

#[local] Arguments recvResponse : simpl never.
(** A call succeeds only by reading. *)
Lemma success_read a c k c' k' : Invoke_step Sprintf a c k = Some (Ok (c', k')) → c_pc c' = CReturned None → c_pc c ≠ CReturned None →
  ∃ t rs desc, a = AReply rs OK desc ∧ c_pc c = CRecv t ∧ recvResponse (reply c) rs = Some (Ok (inl (reply c'))).
Proof.
  intros Ei E Hn. unfold Invoke_step in Ei.
  assert (∀ e, Some (Ok (return_last e c, k)) = Some (Ok (c', k')) → False) as Hgive by (intros e [= <- <-]; by cbn in E).
  assert (∀ t d, Some (s ← on_transport notifyError t k; Ok (again (write_failed d) c, s)) = Some (Ok (c', k')) → False) as Hfail.
  { intros t d. destruct (on_transport _ t k); cbn; [intros [= <- <-]; by cbn in E|done..]. }
  destruct (c_pc c) as [| |ch| |t|t|t|r'] eqn:Epc, a; try done; cbn in Ei;
    try (unfold sendRequest in Ei; destruct (encode _ 0); try done);
    repeat match type of Ei with
    | context [match c_ctx c with _ => _ end] => destruct (c_ctx c); cbn in Ei; [|done]
    | context [c_ctx c ≫= _] => destruct (c_ctx c); cbn in Ei; [|done]
    | context [if ?b then _ else _] => destruct b; try done
    | context [match lastErr c with _ => _ end] => destruct (lastErr c)
    | context [match transport k with _ => _ end] => destruct (transport k); try done
    | context [Wait_lock k] => destruct (Wait_lock k) as [[] ?]
    end; try (by destruct (Hgive _ Ei)); try (by destruct (Hfail _ _ Ei)); try (injection Ei as <- <-; by cbn in E).
  destruct (recvResponse (reply c) rs) as [[v|?|?]|] eqn:Hr; try done. unfold received in Ei. destruct v as [v|e].
  - injection Ei as <- <-. cbn in E. unfold rpc_Errorf in E. destruct (code =? OK) eqn:Hc; [|done]. apply Z.eqb_eq in Hc as ->. eauto 10.
  - destruct e; try (injection Ei as <- <-; by cbn in E). destruct (is_closed t k); [|done]. injection Ei as <- <-. by cbn in E.
Qed.

(** C35: a call sends its request at most once on each transport, and on another one only
    after all before have broken; a call with [failFast] sends it once.  It succeeds only by
    reading a response with the code OK, and returns what it has read. *)
Theorem requests_once o ls s : run (sys_rel Sprintf) (dialed o) ls s →
  (∀ c, c ∈ calls s → NoDup (c_streams c) ∧
    (∀ t, t ∈ tail (c_streams c) → ∃ u, transports (cc s) !! t = Some u ∧ t_state u ≠ reachable) ∧
    (failFast c = true → (length (c_streams c) ≤ 1)%nat) ∧
    (∀ t, c_pc c = CRecv t → head (c_streams c) = Some t)) ∧
  (∀ i a c s', calls s !! i = Some c → c_pc c ≠ CReturned None → sys_step Sprintf (LCall i a) s = Some (Ok s') →
    ∀ c', calls s' !! i = Some c' → c_pc c' = CReturned None →
    ∃ t rs desc, a = AReply rs OK desc ∧ c_pc c = CRecv t ∧ recvResponse (reply c) rs = Some (Ok (inl (reply c')))).
Proof.
  intros Hr. destruct (reachable_ok _ _ _ Hr) as [_ Hcalls]. split.
  - intros c Hc. rewrite Forall_forall in Hcalls. destruct (Hcalls _ Hc) as [Hpc Hnd Hu Hf Hff]. split_and!; [done| | |].
    + intros t Ht. by apply Hu, tail_used.
    + intros H. by apply Hff.
    + intros t E. rewrite E in Hpc. apply Hpc.
  - intros i a c s' Hi Hn Hst c' Hi' E. cbn [sys_step] in Hst. rewrite Hi in Hst. cbn in Hst.
    destruct (Invoke_step Sprintf a c (cc s)) as [[[c1 k]|?|?]|] eqn:Ei; try done. cbn in Hst. injection Hst as <-. cbn in Hi'.
    rewrite list_lookup_insert_eq in Hi' by (by eapply lookup_lt_Some). injection Hi' as ->. by eapply success_read.
Qed.

(** ** After [Close] *)

Definition pc_weight (pc : cpc) : nat :=
  match pc with CLoop => 2 | CPick => 1 | CWait _ => 2 | CTake => 4 | CNew _ => 3 | CSend _ => 4 | CRecv _ => 3 | CReturned _ => 0 end.
Definition call_weight (c : call) : nat := pc_weight (c_pc c) + match c_ctx c with None => 1 | Some _ => 0 end.
Definition monitor_weight (m : mstate) : nat :=
  match m with
  | MDead => 0 | MReturn => 1 | MShut => 2 | MLock _ _ => 2 | MSleep _ => 3 | MAfter _ _ => 4 | MDiscard _ => 2 | MFailed _ _ => 5
  | MInstall _ => 3 | MDial _ _ _ => 6 | MClose _ _ => 7 | MWatch => 2 | MBroken => 1
  end.
Definition transport_weight (t : clientTransport) : nat := match t_state t with reachable => 1 | _ => 0 end.
Definition weight (s : clientSys) : nat :=
  sum_list_with call_weight (calls s) + monitor_weight (monitor (cc s)) + sum_list_with transport_weight (transports (cc s)).

(** New calls, and further calls of [Close], are not counted. *)
Definition settles (l : label) : Prop := match l with LInvoke _ _ | LClose => False | _ => True end.

Lemma sum_insert {A} (f : A → nat) l i x y : l !! i = Some x →
  (sum_list_with f (<[i := y]> l) + f x = sum_list_with f l + f y)%nat.
Proof.
  revert i. induction l as [|z l IH]; intros [|i] H; cbn in H; simplify_eq; [cbn; lia|]. specialize (IH _ H).
  change (<[S i := y]> (z :: l)) with (z :: <[i := y]> l). cbn [sum_list_with]. lia.
Qed.
Lemma sum_alter_closed l i : (sum_list_with transport_weight (alter as_closed i l) ≤ sum_list_with transport_weight l)%nat.
Proof.
  revert i. induction l as [|t l IH]; intros [|i]; [done|done| |].
  - change (alter as_closed 0%nat (t :: l)) with (as_closed t :: l). cbn [sum_list_with]. unfold transport_weight at 1. cbn. lia.
  - specialize (IH i). change (alter as_closed (S i) (t :: l)) with (t :: alter as_closed i l). cbn [sum_list_with]. lia.
Qed.

Lemma Close_again s : c_state s = Shutdown → just_Close s = Ok s.
Proof. intros E. unfold just_Close, Conn_Close. by rewrite E. Qed.

Definition conn_weight (s : Conn) : nat := monitor_weight (monitor s) + sum_list_with transport_weight (transports s).

Lemma on_close_weight i s s' : conn_ok s → on_transport transport_Close i s = Ok s' →
  monitor s' = monitor s ∧ (sum_list_with transport_weight (transports s') ≤ sum_list_with transport_weight (transports s))%nat.
Proof.
  intros Hok H. destruct (transports s !! i) as [t|] eqn:E; [|unfold on_transport in H; by rewrite E in H].
  rewrite close_transport_done in H by (first [by apply Hok|by exists t]). injection H as <-. split; [done|]. apply sum_alter_closed.
Qed.

Lemma monitor_settles x s s' : conn_ok s → c_state s = Shutdown → monitor_step x s = Some (Ok s') → (conn_weight s' < conn_weight s)%nat.
Proof.
  intros Hok Hs. assert (is_shutdown s = true) as Hsh by (by apply bool_decide_eq_true). unfold conn_weight, monitor_step.
  destruct (monitor s) as [ct n|ct n|n d to|n d|n d|n|t|t| | | | |] eqn:Em; rewrite ?Hsh, ?(Close_again s Hs); cbn [mbind outcome_bind].
  - intros [= <-]. cbn. lia.
  - destruct (if ct then close_current s else Ok s) as [k|?|?] eqn:Ek; [|done..]. intros [= <-]. cbn [mbind outcome_bind].
    assert (sum_list_with transport_weight (transports k) ≤ sum_list_with transport_weight (transports s))%nat as Hk.
    { destruct ct; [|injection Ek as ->; lia]. unfold close_current in Ek. destruct (transport s); [|done]. by eapply on_close_weight. }
    unfold_conn. destruct (dial_timeout _ _ _); cbn; lia.
  - intros [= <-]. destruct (up x); unfold_conn; [rewrite sum_list_with_app|]; cbn; lia.
  - intros [= <-]. cbn. lia.
  - intros [= <-]. unfold_conn. case_match; cbn; lia.
  - intros [= <-]. cbn. lia.
  - intros [= <-]. cbn. lia.
  - destruct (on_transport transport_Close t s) as [k|?|?] eqn:Ek; [|done..]. intros [= <-]. destruct (on_close_weight _ _ _ Hok Ek). unfold_conn. cbn. lia.
  - intros [= <-]. cbn. lia.
  - destruct (connected s); intros [= <-]; cbn; lia.
  - destruct (takes_error x).
    + destruct (transport s) as [i|]; [|done]. destruct (transports s !! i) as [t|]; [|done]. destruct (errorChan t); [|done]. intros [= <-]. cbn. lia.
    + destruct (shutdownChan s); [|done]. intros [= <-]. cbn. lia.
  - intros [= <-]. cbn. lia.
  - done.
Qed.

Lemma break_settles t s s' : is_reachable t s = true → on_transport notifyError t s = Ok s' → (conn_weight s' < conn_weight s)%nat.
Proof.
  intros (u & Hu & Hst)%bool_decide_eq_true%fmap_Some. unfold on_transport, notifyError. rewrite Hu, <- Hst.
  destruct (errorChan u); [done|]. intros [= <-]. unfold conn_weight. unfold_conn.
  pose proof (sum_insert transport_weight _ _ _ (mkTransport unreachable true (t_shutdownChan u)) Hu) as H.
  unfold transport_weight at 2 4 in H. rewrite <- Hst in H. cbn in H. lia.
Qed.

Lemma shut_installed s t : conn_ok s → c_state s = Shutdown → installed s t → is_reachable t s = false ∧ is_closed t s = true.
Proof.
  intros Hok Hs [[u Hu] Hp].
  assert (t_state u = closing) as E.
  { destruct (decide (transport s = Some t)); [by apply (co_closed _ Hok Hs t)|by eapply (co_others _ Hok)]. }
  assert (transport_ok u) as [Hsd _] by (eapply Forall_lookup_1; [apply Hok|done]).
  split; [apply bool_decide_eq_false|apply bool_decide_eq_true]; rewrite Hu; cbn; [by rewrite E|by rewrite Hsd, E].
Qed.

Lemma call_settles a c s c' s' : conn_ok s → c_state s = Shutdown → call_ok s c → Invoke_step Sprintf a c s = Some (Ok (c', s')) →
  s' = s ∧ (call_weight c' < call_weight c)%nat.
Proof.
  intros Hok Hs Hc. unfold call_weight, Invoke_step.
  assert (∀ t, attempt c t → on_transport notifyError t s = Ok s ∧ is_reachable t s = false) as Hbroken.
  { intros t Hat. pose proof (attempt_installed _ _ _ Hc Hat) as Hi. destruct (shut_installed _ _ Hok Hs Hi) as [Hre _].
    split; [by apply notify_same; [apply Hi|]|done]. }
  assert (∀ t, CNew t = c_pc c ∨ CSend t = c_pc c → on_transport notifyError t s = Ok s ∧ is_reachable t s = false) as Hb.
  { intros t H. apply Hbroken. unfold attempt. destruct H; auto. }
  destruct (c_pc c) as [| |ch| |t|t|t|r'] eqn:Epc, a; try done; unfold sendRequest;
    try (destruct (Hb t) as [Hn Hr]; [auto; fail|]; rewrite ?Hn, ?Hr);
    cbn [mbind outcome_bind option_bind];
    repeat match goal with
    | |- context [match encode ?x ?y with _ => _ end] => destruct (encode x y)
    | |- context [c_ctx c ≫= _] => destruct (c_ctx c); cbn [mbind option_bind]
    | |- context [if is_closed t s then _ else _] => destruct (is_closed t s)
    | |- context [if bool_decide ?b then _ else _] => case_bool_decide
    end; try done; try (by intros [= <- <-]; split; [|cbn; destruct (c_ctx c); lia]).
  - destruct (lastErr c); [destruct (failFast c)|]; intros [= <- <-]; (split; [done|cbn; destruct (c_ctx c); lia]).
  - unfold Wait_lock. rewrite Hs. intros [= <- <-]. split; [done|cbn; destruct (c_ctx c); lia].
  - destruct (transport s); [|done]. intros [= <- <-]. split; [done|cbn; destruct (c_ctx c); lia].
  - destruct (recvResponse _ _) as [[v|?|?]|]; [|done..]. unfold received. destruct v as [v|[]]; try destruct (is_closed t s); try done;
      intros [= <- <-]; (split; [done|cbn; destruct (c_ctx c); lia]).
Qed.

Lemma sum_insert_lt {A} (f : A → nat) l i x y : l !! i = Some x → (f y < f x)%nat → (sum_list_with f (<[i := y]> l) < sum_list_with f l)%nat.
Proof. intros H Hlt. pose proof (sum_insert f l i x y H). lia. Qed.

Lemma weight_conn s k : (conn_weight k < conn_weight (cc s))%nat → (weight (mkSys k (calls s)) < weight s)%nat.
Proof. unfold weight, conn_weight. cbn. lia. Qed.

Lemma sys_settles l s s' : sys_ok s → c_state (cc s) = Shutdown → settles l → sys_rel Sprintf s l s' → (weight s' < weight s)%nat.
Proof.
  intros [Hok Hc] Hs Hl H. unfold sys_rel in H. destruct l as [x| |t|b ff|i e|i a]; cbn [sys_step] in H; try done.
  - destruct (monitor_step x (cc s)) as [[k|?|?]|] eqn:E; try done. injection H as <-. eapply weight_conn, monitor_settles; done.
  - destruct (is_reachable t (cc s)) eqn:E; [|done]. destruct (on_transport notifyError t (cc s)) as [k|?|?] eqn:Ek; try done.
    injection H as <-. by eapply weight_conn, break_settles.
  - destruct (calls s !! i) as [c|] eqn:Ei; [|done]. cbn in H. destruct (c_ctx c) eqn:Ec; [done|]. injection H as <-. unfold weight. cbn.
    assert (call_weight (set_ctx e c) < call_weight c)%nat as Hlt by (unfold call_weight; cbn; rewrite Ec; lia).
    pose proof (sum_insert_lt call_weight _ _ _ _ Ei Hlt). lia.
  - destruct (calls s !! i) as [c|] eqn:Ei; [|done]. cbn in H. destruct (Invoke_step Sprintf a c (cc s)) as [[[c' k]|?|?]|] eqn:E; try done.
    injection H as <-. destruct (call_settles _ _ _ _ _ Hok Hs (Forall_lookup_1 _ _ _ _ Hc Ei) E) as [-> Hlt]. unfold weight. cbn.
    pose proof (sum_insert_lt call_weight _ _ _ _ Ei Hlt). lia.
Qed.

(** Who is not at rest can move. *)
Lemma monitor_moves s : conn_ok s → c_state s = Shutdown → monitor s ≠ MDead → ∃ x r, monitor_step x s = Some r.
Proof.
  intros Hok Hs Hn. exists (mkTick 0 0 zero64 false false). unfold monitor_step.
  destruct (monitor s) eqn:Em; try (eexists; reflexivity); [|done]. cbn.
  rewrite (co_shut _ Hok). unfold is_shutdown. rewrite Hs. eexists. reflexivity.
Qed.
Lemma call_moves s c : conn_ok s → c_state s = Shutdown → call_ok s c → (∀ r, c_pc c ≠ CReturned r) → ∃ a r, Invoke_step Sprintf a c s = Some r.
Proof.
  intros Hok Hs Hc Hn. pose proof (ca_pc _ _ Hc) as Hpc. unfold Invoke_step. destruct (c_pc c) as [| |ch| |t|t|t|r'] eqn:E.
  - exists AGo. by eexists.
  - exists AGo. by eexists.
  - exists AGo. apply lookup_lt_is_Some in Hpc as [[] Hb]; [rewrite Hb; cbn; by eexists|].
    apply (co_ready _ Hok) in Hb. by rewrite (co_awake _ Hok) in Hb by auto.
  - exists AGo. by eexists.
  - exists AClosing. destruct (shut_installed _ _ Hok Hs Hpc) as [-> _]. by eexists.
  - destruct Hpc as [Hi _]. destruct (shut_installed _ _ Hok Hs Hi) as [_ Hcl]. unfold sendRequest.
    destruct (encode (Some (args c)) 0); [exists AClosing; rewrite Hcl|exists AGo]; by eexists.
  - destruct Hpc as [Hi _]. destruct (shut_installed _ _ Hok Hs Hi) as [_ Hcl].
    exists (AReply [inr ErrConnClosing] 0 ""). unfold recvResponse. cbn. rewrite Hcl. by eexists.
  - by destruct (Hn r').
Qed.

Definition at_rest (s : clientSys) : Prop :=
  monitor (cc s) = MDead ∧ (∀ c, c ∈ calls s → ∃ r, c_pc c = CReturned r) ∧ ∀ t, t ∈ transports (cc s) → t_state t = closing.

Definition is_returned (c : call) : bool := match c_pc c with CReturned _ => true | _ => false end.
Lemma rest_or_move s : sys_ok s → c_state (cc s) = Shutdown →
  at_rest s ∨ ∃ l t, sys_rel Sprintf s l t ∧ ((∃ x, l = LMonitor x) ∨ ∃ i a, l = LCall i a).
Proof.
  intros Hok Hs. pose proof Hok as [Hc Hcalls].
  assert (∀ l r, sys_step Sprintf l s = Some r → ∃ t, sys_rel Sprintf s l t) as Hgo.
  { intros l r E. destruct (sys_well l s r Hok E) as (t & -> & _). by exists t. }
  assert (monitor (cc s) = MDead ∨ monitor (cc s) ≠ MDead) as [Hm|Hm] by (destruct (monitor (cc s)); auto).
  - destruct (decide (Forall is_returned (calls s))) as [Hall|Hsome].
    + left. split_and!; [done| |].
      * intros c Hin. rewrite Forall_forall in Hall. specialize (Hall c Hin). unfold is_returned in Hall. destruct (c_pc c); try done. by eexists.
      * intros t [i Hi]%list_elem_of_lookup. destruct (decide (transport (cc s) = Some i)); [by apply (co_closed _ Hc Hs i)|].
        eapply (co_others _ Hc); [done|done|]. rewrite Hm. by intros [|].
    + right. apply not_Forall_Exists, Exists_exists in Hsome as (c & [i Hi]%list_elem_of_lookup & Hn); [|apply _].
      destruct (call_moves (cc s) c) as (a & r & E); [done|done|by eapply Forall_lookup_1|intros r E; apply Hn; unfold is_returned; by rewrite E|].
      destruct (Hgo (LCall i a) (r ≫= λ '(c, k), Ok (mkSys k (<[i:=c]> (calls s))))) as [t Ht]; [cbn; rewrite Hi; cbn; by rewrite E|].
      exists (LCall i a), t. split; [done|right]. by exists i, a.
  - right. destruct (monitor_moves (cc s) Hc Hs Hm) as (x & r & E).
    destruct (Hgo (LMonitor x) (r ≫= λ k, Ok (mkSys k (calls s)))) as [t Ht]; [cbn; by rewrite E|].
    exists (LMonitor x), t. split; [done|left]. by exists x.
Qed.

(** C36: after [Close], whoever has called it, all comes to rest.  Without new calls every
    sequence of steps is bounded, whatever the network, contexts and clocks do; as long as
    the goroutine runs or a call has not returned, one of them can move; and when none is
    left all transports are closed. *)
Theorem close_settles o ls s : run (sys_rel Sprintf) (dialed o) ls s → c_state (cc s) = Shutdown →
  (∀ ms t, run (sys_rel Sprintf) s ms t → Forall settles ms → (length ms + weight t ≤ weight s)%nat) ∧
  (at_rest s ∨ ∃ l t, sys_rel Sprintf s l t ∧ ((∃ x, l = LMonitor x) ∨ ∃ i a, l = LCall i a)).
Proof.
  intros Hr Hs. pose proof (reachable_ok _ _ _ Hr) as Hok. clear Hr. split.
  - intros ms t Hm. revert Hok Hs. induction Hm as [u|u l v ms t Hst Hm IH]; intros Hok Hs HF; [cbn; lia|]. inversion HF; subst.
    destruct (sys_well l u _ Hok Hst) as (v' & [= <-] & Hok' & Hle). pose proof (sys_settles l u v Hok Hs ltac:(done) Hst).
    specialize (IH Hok' (le_shutdown _ _ Hle Hs) ltac:(done)). cbn [length]. lia.
  - by apply rest_or_move.
Qed.
End props.

(** ** Runs *)

Definition plain : string → string := λ s, s.
Definition any_tick : tick := mkTick 0 0 zero64 true true.
Definition no_options : dialOptions := mkDialOptions true 0 [].

(** A call waits for the first transport and sends its request; the transport breaks, another
    one is dialed, and the call sends its request again. *)
Definition retried : list label :=
  [LInvoke [] false; LMonitor any_tick; LCall 0 AGo; LCall 0 AGo; LMonitor any_tick; LMonitor any_tick; LMonitor any_tick;
   LCall 0 AGo; LCall 0 AGo; LCall 0 AGo; LCall 0 AOpen; LCall 0 ASent; LBreak 0;
   LMonitor any_tick; LMonitor any_tick; LMonitor any_tick; LMonitor any_tick; LMonitor any_tick; LMonitor any_tick;
   LCall 0 (AReply [inr ErrConnClosing] 0 ""); LCall 0 AGo; LCall 0 AGo; LCall 0 AGo; LCall 0 AOpen; LCall 0 ASent].
Definition after (ls : list label) : clientSys :=
  match sys_exec plain ls (dialed no_options) with Some (Ok s) => s | _ => dialed no_options end.

Lemma client_exec_run f ls s t : sys_exec f ls s = Some (Ok t) → run (sys_rel f) s ls t.
Proof.
  revert s. induction ls as [|l ls IH]; intros s H; [by injection H as ->|]. cbn [sys_exec] in H.
  destruct (sys_step f l s) as [[u|?|?]|] eqn:E; try done. eapply run_cons; [exact E|by apply IH].
Qed.

Definition twice : clientSys := after retried.
Lemma retried_run : run (sys_rel plain) (dialed no_options) retried twice.
Proof. apply client_exec_run. by vm_compute. Qed.

Example sent_twice : map c_streams (calls (after retried)) = [[1%nat; 0%nat]] ∧ map c_pc (calls (after retried)) = [CRecv 1].
Proof. split; by vm_compute. Qed.

(** Between the failure of a transport and the reaction of the goroutine a call spins. *)
Example spinning :
  let l := take 12 retried ++ [LBreak 0; LInvoke [] false; LCall 1 AGo] in
  let turn := [LCall 1 AGo; LCall 1 AGo; LCall 1 AClosing; LCall 1 AGo] in
  map c_pc (calls (after l)) = [CRecv 0; CPick] ∧ map c_pc (calls (after (l ++ turn))) = [CRecv 0; CPick] ∧
  cc (after (l ++ turn)) = cc (after l).
Proof. split_and!; by vm_compute. Qed.

Lemma connection_safe_witness :
  (∀ i t, transports (cc twice) !! i = Some t → t_state t ≠ closing →
    transport (cc twice) = Some i ∧ c_state (cc twice) ≠ Shutdown ∨ pending (monitor (cc twice)) i) ∧
  transport (cc twice) = Some 1%nat.
Proof. split; [|by vm_compute]. pose proof (connection_safe plain no_options _ _ retried_run) as (_ & H & _). exact H. Defined.

Lemma twice_call : ∃ c, calls twice = [c] ∧ c_streams c = [1%nat; 0%nat].
Proof. eexists. split; by vm_compute. Qed.
Lemma requests_once_witness :
  NoDup [1%nat; 0%nat] ∧ ∃ u, transports (cc twice) !! 0%nat = Some u ∧ t_state u ≠ reachable.
Proof.
  pose proof (requests_once plain no_options _ _ retried_run) as [H _]. destruct twice_call as (c & Hc & Hs).
  destruct (H c) as (H1 & H2 & _); [rewrite Hc; by apply list_elem_of_singleton|]. rewrite Hs in H1, H2. split; [exact H1|].
  apply H2. by apply list_elem_of_singleton.
Defined.

Definition closed_after : clientSys := after (retried ++ [LClose]).
Lemma closed_run : run (sys_rel plain) (dialed no_options) (retried ++ [LClose]) closed_after.
Proof. apply client_exec_run. by vm_compute. Qed.
Lemma closed_state : c_state (cc closed_after) = Shutdown.
Proof. by vm_compute. Qed.
Lemma closed_weight : weight closed_after = 6%nat.
Proof. by vm_compute. Qed.

Lemma close_settles_witness :
  (∀ ms t, run (sys_rel plain) closed_after ms t → Forall settles ms → (length ms + weight t ≤ 6)%nat) ∧ weight closed_after = 6%nat.
Proof.
  split; [|exact closed_weight]. pose proof (close_settles plain no_options _ _ closed_run closed_state) as [H _].
  rewrite closed_weight in H. exact H.
Defined.
