(* ===== verification/LuaInstr.v ===== *)
(** * Instructions of the Lua machine (Shopify/go-lua/instructions.go, types.go)

    A script is compiled to 32-bit words: an opcode of 6 bits, [A] of 8, and either [C] and
    [B] of 9 bits each, [Bx] of 18 bits, or [Ax] of 26.  An [instruction] is a [Z] below
    [2^32]; Go's shifts and complements on [uint32] are written out.  Each field is read
    back as it was written and writing one leaves the others; sizes of tables travel as
    "floating point bytes", which never come out smaller than they went in. *)
From Stdlib Require Import ZArith Lia.
From stdpp Require Import base option list.
From S2P Require Import Prelude.

(** ** Opcodes *)

Inductive opCode :=
  | opMove | opLoadConstant | opLoadConstantEx | opLoadBool | opLoadNil | opGetUpValue | opGetTableUp | opGetTable
  | opSetTableUp | opSetUpValue | opSetTable | opNewTable | opSelf | opAdd | opSub | opMul | opDiv | opMod | opPow
  | opUnaryMinus | opNot | opLength | opConcat | opJump | opEqual | opLessThan | opLessOrEqual | opTest | opTestSet
  | opCall | opTailCall | opReturn | opForLoop | opForPrep | opTForCall | opTForLoop | opSetList | opClosure
  | opVarArg | opExtraArg.

#[export] Instance opCode_eq_dec : EqDecision opCode.
Proof. solve_decision. Defined.

Definition opcodes : list opCode :=
  [opMove; opLoadConstant; opLoadConstantEx; opLoadBool; opLoadNil; opGetUpValue; opGetTableUp; opGetTable;
   opSetTableUp; opSetUpValue; opSetTable; opNewTable; opSelf; opAdd; opSub; opMul; opDiv; opMod; opPow;
   opUnaryMinus; opNot; opLength; opConcat; opJump; opEqual; opLessThan; opLessOrEqual; opTest; opTestSet;
   opCall; opTailCall; opReturn; opForLoop; opForPrep; opTForCall; opTForLoop; opSetList; opClosure;
   opVarArg; opExtraArg].

(** The number of an opcode, its place in the [iota]. *)
Fixpoint index_of (o : opCode) (l : list opCode) : Z :=
  match l with [] => 0 | x :: l => if decide (o = x) then 0 else 1 + index_of o l end.
Definition op_num (o : opCode) : Z := index_of o opcodes.
(** The opcode of a number; an index past the tables of opcodes panics. *)
Definition op_of (n : Z) : option opCode := if n <? 0 then None else opcodes !! Z.to_nat n.

Lemma op_of_num o : op_of (op_num o) = Some o.
Proof. by destruct o. Qed.

Lemma op_of_inj n o : op_of n = Some o → n = op_num o.
Proof.
  unfold op_of. destruct (Z.ltb_spec n 0); [done|]. intros H1. rewrite <- (Z2Nat.id n) by done.
  revert H1. generalize (Z.to_nat n). clear. intros n H.
  do 40 (destruct n as [|n]; [by injection H as <-|]). by destruct n.
Qed.

Lemma op_num_range o : 0 ≤ op_num o < 40.
Proof. by destruct o. Qed.

(** ** Fields *)

Definition sizeC : Z := 9.
Definition sizeB : Z := 9.
Definition sizeBx : Z := sizeC + sizeB.
Definition sizeA : Z := 8.
Definition sizeAx : Z := sizeC + sizeB + sizeA.
Definition sizeOp : Z := 6.
Definition posOp : Z := 0.
Definition posA : Z := posOp + sizeOp.
Definition posC : Z := posA + sizeA.
Definition posB : Z := posC + sizeC.
Definition posBx : Z := posC.
Definition posAx : Z := posA.
Definition bitRK : Z := Z.shiftl 1 (sizeB - 1).
Definition maxIndexRK : Z := bitRK - 1.
Definition maxArgAx : Z := Z.shiftl 1 sizeAx - 1.
Definition maxArgBx : Z := Z.shiftl 1 sizeBx - 1.
Definition maxArgSBx : Z := Z.shiftr maxArgBx 1.
Definition maxArgA : Z := Z.shiftl 1 sizeA - 1.
Definition maxArgB : Z := Z.shiftl 1 sizeB - 1.
Definition maxArgC : Z := Z.shiftl 1 sizeC - 1.
Definition listItemsPerFlush : Z := 50.

(** [instruction(z)], [i << n] and [^i] on [uint32]. *)
Definition instr (z : Z) : Z := z mod 2 ^ 32.
Definition shl (i n : Z) : Z := instr (Z.shiftl i n).
Definition compl (i : Z) : Z := 2 ^ 32 - 1 - i.

Definition isConstant (x : Z) : bool := negb (Z.land x bitRK =? 0).
Definition constantIndex (r : Z) : Z := Z.ldiff r bitRK.
Definition asConstant (r : Z) : Z := Z.lor r bitRK.

Definition mask1 (n p : Z) : Z := shl (compl (shl (compl 0) n)) p.
Definition mask0 (n p : Z) : Z := compl (mask1 n p).

Definition arg (i pos size : Z) : Z := Z.land (Z.shiftr i pos) (mask1 size 0).
Definition setArg (i pos size a : Z) : Z :=
  Z.lor (Z.land i (mask0 size pos)) (Z.land (shl (instr a) pos) (mask1 size pos)).

Definition opField (i : Z) : Z := Z.land (Z.shiftr i posOp) (Z.shiftl 1 sizeOp - 1).
Definition getA (i : Z) : Z := Z.land (Z.shiftr i posA) maxArgA.
Definition getB (i : Z) : Z := Z.land (Z.shiftr i posB) maxArgB.
Definition getC (i : Z) : Z := Z.land (Z.shiftr i posC) maxArgC.
Definition getBx (i : Z) : Z := Z.land (Z.shiftr i posBx) maxArgBx.
Definition getAx (i : Z) : Z := Z.land (Z.shiftr i posAx) maxArgAx.
Definition getSBx (i : Z) : Z := getBx i - maxArgSBx.

Definition setOpCode (i : Z) (o : opCode) : Z := setArg i posOp sizeOp (op_num o).
Definition setA (i a : Z) : Z := setArg i posA sizeA a.
Definition setB (i b : Z) : Z := setArg i posB sizeB b.
Definition setC (i c : Z) : Z := setArg i posC sizeC c.
Definition setBx (i bx : Z) : Z := setArg i posBx sizeBx bx.
Definition setAx (i ax : Z) : Z := setArg i posAx sizeAx ax.
Definition setSBx (i sbx : Z) : Z := setArg i posBx sizeBx (sbx + maxArgSBx).

Definition createABC (o : opCode) (a b c : Z) : Z :=
  Z.lor (Z.lor (Z.lor (shl (op_num o) posOp) (shl (instr a) posA)) (shl (instr b) posB)) (shl (instr c) posC).
Definition createABx (o : opCode) (a bx : Z) : Z :=
  Z.lor (Z.lor (shl (op_num o) posOp) (shl (instr a) posA)) (shl (instr bx) posBx).
Definition createAx (o : opCode) (a : Z) : Z := Z.lor (shl (op_num o) posOp) (shl (instr a) posAx).

(** ** Modes of the opcodes *)

Inductive op_mode := iABC | iABx | iAsBx | iAx.
Definition mode_num (m : op_mode) : Z := match m with iABC => 0 | iABx => 1 | iAsBx => 2 | iAx => 3 end.
Inductive op_arg := opArgN | opArgU | opArgR | opArgK.
Definition arg_num (a : op_arg) : Z := match a with opArgN => 0 | opArgU => 1 | opArgR => 2 | opArgK => 3 end.

Definition opmode (t a : Z) (b c : op_arg) (m : op_mode) : Z :=
  Z.lor (Z.lor (Z.lor (Z.lor (Z.shiftl t 7) (Z.shiftl a 6)) (Z.shiftl (arg_num b) 4)) (Z.shiftl (arg_num c) 2)) (mode_num m) mod 256.

Definition opModes (o : opCode) : Z :=
  match o with
  | opMove => opmode 0 1 opArgR opArgN iABC
  | opLoadConstant => opmode 0 1 opArgK opArgN iABx
  | opLoadConstantEx => opmode 0 1 opArgN opArgN iABx
  | opLoadBool => opmode 0 1 opArgU opArgU iABC
  | opLoadNil => opmode 0 1 opArgU opArgN iABC
  | opGetUpValue => opmode 0 1 opArgU opArgN iABC
  | opGetTableUp => opmode 0 1 opArgU opArgK iABC
  | opGetTable => opmode 0 1 opArgR opArgK iABC
  | opSetTableUp => opmode 0 0 opArgK opArgK iABC
  | opSetUpValue => opmode 0 0 opArgU opArgN iABC
  | opSetTable => opmode 0 0 opArgK opArgK iABC
  | opNewTable => opmode 0 1 opArgU opArgU iABC
  | opSelf => opmode 0 1 opArgR opArgK iABC
  | opAdd => opmode 0 1 opArgK opArgK iABC
  | opSub => opmode 0 1 opArgK opArgK iABC
  | opMul => opmode 0 1 opArgK opArgK iABC
  | opDiv => opmode 0 1 opArgK opArgK iABC
  | opMod => opmode 0 1 opArgK opArgK iABC
  | opPow => opmode 0 1 opArgK opArgK iABC
  | opUnaryMinus => opmode 0 1 opArgR opArgN iABC
  | opNot => opmode 0 1 opArgR opArgN iABC
  | opLength => opmode 0 1 opArgR opArgN iABC
  | opConcat => opmode 0 1 opArgR opArgR iABC
  | opJump => opmode 0 0 opArgR opArgN iAsBx
  | opEqual => opmode 1 0 opArgK opArgK iABC
  | opLessThan => opmode 1 0 opArgK opArgK iABC
  | opLessOrEqual => opmode 1 0 opArgK opArgK iABC
  | opTest => opmode 1 0 opArgN opArgU iABC
  | opTestSet => opmode 1 1 opArgR opArgU iABC
  | opCall => opmode 0 1 opArgU opArgU iABC
  | opTailCall => opmode 0 1 opArgU opArgU iABC
  | opReturn => opmode 0 0 opArgU opArgN iABC
  | opForLoop => opmode 0 1 opArgR opArgN iAsBx
  | opForPrep => opmode 0 1 opArgR opArgN iAsBx
  | opTForCall => opmode 0 0 opArgN opArgU iABC
  | opTForLoop => opmode 0 1 opArgR opArgN iAsBx
  | opSetList => opmode 0 0 opArgU opArgU iABC
  | opClosure => opmode 0 1 opArgU opArgN iABx
  | opVarArg => opmode 0 1 opArgU opArgN iABC
  | opExtraArg => opmode 0 0 opArgU opArgU iAx
  end.

Definition opMode (o : opCode) : Z := Z.land (opModes o) 3.
Definition bMode (o : opCode) : Z := Z.land (Z.shiftr (opModes o) 4) 3.
Definition cMode (o : opCode) : Z := Z.land (Z.shiftr (opModes o) 2) 3.
Definition testAMode (o : opCode) : bool := negb (Z.land (opModes o) (Z.shiftl 1 6) =? 0).
Definition testTMode (o : opCode) : bool := negb (Z.land (opModes o) (Z.shiftl 1 7) =? 0).

(** ** Floating point bytes *)

Fixpoint float8_loop (fuel : nat) (x e : Z) : Z * Z :=
  match fuel with
  | O => (x, e)
  | S n => if 16 <=? x then float8_loop n (Z.shiftr (x + 1) 1) (e + 1) else (x, e)
  end.
(** An [int] has 63 bits, so that 64 rounds end the loop. *)
Definition float8FromInt (x : Z) : Z :=
  if x <? 8 then x
  else let '(x, e) := float8_loop 64 x 0 in Z.lor (Z.shiftl (e + 1) 3) (x - 8).

Definition intFromFloat8 (x : Z) : Z :=
  let e := Z.land (Z.shiftr x 3) 31 in
  if e =? 0 then x else Z.shiftl (Z.land x 7 + 8) (e - 1).

(** ** Bits *)

Lemma mask1_ones n p : 0 ≤ n → 0 ≤ p → n + p ≤ 32 → mask1 n p = Z.shiftl (Z.ones n) p.
Proof.
  intros Hn Hp H. unfold mask1.
  assert (shl (compl 0) n = 2 ^ 32 - 2 ^ n) as ->.
  { unfold shl, compl, instr. rewrite Z.shiftl_mul_pow2 by done. pose proof (pow2_pos n Hn).
    assert (2 ^ n ≤ 2 ^ 32) by (apply Z.pow_le_mono_r; lia).
    replace ((2 ^ 32 - 1 - 0) * 2 ^ n) with ((2 ^ 32 - 2 ^ n) + (2 ^ n - 1) * 2 ^ 32) by lia.
    rewrite Z.mod_add by lia. apply Z.mod_small. lia. }
  unfold shl, compl, instr. replace (2 ^ 32 - 1 - (2 ^ 32 - 2 ^ n)) with (Z.ones n) by (rewrite Z.ones_equiv; lia).
  apply Z.mod_small. rewrite Z.shiftl_mul_pow2, Z.ones_equiv by done.
  pose proof (pow2_pos n Hn). pose proof (pow2_pos p Hp).
  assert (2 ^ n * 2 ^ p ≤ 2 ^ 32) by (rewrite <- pow2_add by done; apply Z.pow_le_mono_r; lia). nia.
Qed.

Lemma mask1_bit n p k : 0 ≤ n → 0 ≤ p → n + p ≤ 32 → 0 ≤ k →
  Z.testbit (mask1 n p) k = (p <=? k) && (k <? p + n).
Proof.
  intros Hn Hp H Hk. rewrite mask1_ones by done. rewrite Z.shiftl_spec by done.
  destruct (Z.leb_spec p k).
  - destruct (Z.ltb_spec k (p + n)); [apply Z.ones_spec_low|apply Z.ones_spec_high]; lia.
  - simpl. apply Z.testbit_neg_r. lia.
Qed.

Lemma instr_bit z k : 0 ≤ k → Z.testbit (instr z) k = (k <? 32) && Z.testbit z k.
Proof.
  intros Hk. unfold instr. destruct (Z.ltb_spec k 32); [by apply Z.mod_pow2_bits_low|].
  simpl. apply Z.mod_pow2_bits_high. lia.
Qed.

Lemma shl_bit z n k : 0 ≤ n → 0 ≤ k → Z.testbit (shl z n) k = (k <? 32) && Z.testbit z (k - n).
Proof. intros Hn Hk. unfold shl. rewrite instr_bit by done. by rewrite Z.shiftl_spec. Qed.

Lemma compl_bit z k : 0 ≤ z < 2 ^ 32 → 0 ≤ k → Z.testbit (compl z) k = (k <? 32) && negb (Z.testbit z k).
Proof.
  intros Hz Hk. unfold compl. replace (2 ^ 32 - 1 - z) with (2 ^ 32 + Z.lnot z) by (unfold Z.lnot; lia).
  destruct (Z.ltb_spec k 32) as [Hlt|Hge]; simpl.
  - rewrite <- (Z.mod_pow2_bits_low _ 32) by lia. replace (2 ^ 32 + Z.lnot z) with (Z.lnot z + 1 * 2 ^ 32) by lia.
    rewrite Z.mod_add by lia. rewrite Z.mod_pow2_bits_low by lia. by apply Z.lnot_spec.
  - apply Z.bits_above_log2; [unfold Z.lnot; lia|].
    destruct (Z.eq_dec (2 ^ 32 + Z.lnot z) 0) as [->|]; [simpl; lia|].
    apply Z.log2_lt_pow2; [unfold Z.lnot in *; lia|].
    apply (Z.lt_le_trans _ (2 ^ 32)); [unfold Z.lnot; lia|apply Z.pow_le_mono_r; lia].
Qed.

Lemma instr_range z : 0 ≤ instr z < 2 ^ 32.
Proof. apply Z.mod_pos_bound. lia. Qed.

(** The bits of a word after [setArg]. *)
Lemma setArg_bit i p s a k : 0 ≤ p → 0 ≤ s → s + p ≤ 32 → 0 ≤ k < 32 →
  Z.testbit (setArg i p s a) k = if (p <=? k) && (k <? p + s) then Z.testbit a (k - p) else Z.testbit i k.
Proof.
  intros Hp Hs H Hk. unfold setArg, mask0. rewrite Z.lor_spec, !Z.land_spec.
  rewrite compl_bit by (first [apply instr_range|lia]). rewrite mask1_bit, shl_bit by lia.
  assert ((k <? 32) = true) as -> by lia.
  destruct (Z.leb_spec p k), (Z.ltb_spec k (p + s)); simpl; rewrite ?andb_false_r, ?andb_true_r, ?orb_false_r, ?orb_false_l; try done.
  rewrite instr_bit by lia. by assert ((k - p <? 32) = true) as -> by lia.
Qed.

Lemma bits_small n z : 0 ≤ n → 0 ≤ z → (∀ k, n ≤ k → Z.testbit z k = false) → z < 2 ^ n.
Proof.
  intros Hn Hz Hb. destruct (Z.lt_ge_cases z (2 ^ n)) as [|Hge]; [done|exfalso].
  pose proof (pow2_pos n Hn). assert (n ≤ Z.log2 z) as Hl by (rewrite <- (Z.log2_pow2 n) by lia; by apply Z.log2_le_mono).
  specialize (Hb _ Hl). rewrite Z.bit_log2 in Hb by lia. done.
Qed.

Lemma small_bits n z k : 0 ≤ z < 2 ^ n → n ≤ k → Z.testbit z k = false.
Proof.
  intros Hz Hk. destruct (Z.lt_ge_cases n 0) as [Hn|Hn]; [rewrite Z.pow_neg_r in Hz by done; lia|].
  rewrite <- (Z.mod_small z (2 ^ n)) by done. apply Z.mod_pow2_bits_high. lia.
Qed.

Lemma setArg_range i p s a : 0 ≤ i < 2 ^ 32 → 0 ≤ p → 0 ≤ s → s + p ≤ 32 → 0 ≤ setArg i p s a < 2 ^ 32.
Proof.
  intros Hi Hp Hs H. assert (0 ≤ mask1 s p) as Hm by apply instr_range.
  assert (0 ≤ setArg i p s a) as H0.
  { unfold setArg. apply Z.lor_nonneg. split; apply Z.land_nonneg; lia. }
  split; [done|]. apply bits_small; [lia|done|]. intros k Hk. unfold setArg.
  rewrite Z.lor_spec, !Z.land_spec, mask1_bit, (small_bits 32 i) by lia.
  assert ((k <? p + s) = false) as -> by lia. by rewrite !andb_false_r.
Qed.

(** ** Reading the fields *)

(** The [s] bits from [p]. *)
Definition field (i p s : Z) : Z := Z.land (Z.shiftr i p) (Z.ones s).

Lemma arg_field i p s : 0 ≤ s ≤ 32 → arg i p s = field i p s.
Proof. intros H. unfold arg, field. by rewrite mask1_ones, Z.shiftl_0_r by lia. Qed.

Lemma field_bit i p s k : 0 ≤ p → 0 ≤ s → 0 ≤ k → Z.testbit (field i p s) k = (k <? s) && Z.testbit i (k + p).
Proof.
  intros Hp Hs Hk. unfold field. rewrite Z.land_spec, Z.shiftr_spec by done.
  destruct (Z.ltb_spec k s); [rewrite Z.ones_spec_low by lia|rewrite Z.ones_spec_high by lia]; by rewrite ?andb_true_r, ?andb_false_r.
Qed.

Lemma field_range i p s : 0 ≤ s → 0 ≤ field i p s < 2 ^ s.
Proof. intros Hs. unfold field. rewrite Z.land_ones by done. apply Z.mod_pos_bound. by apply pow2_pos. Qed.

(** The field that is set, and a field beside it. *)
Lemma field_set i p s a : 0 ≤ p → 0 ≤ s → s + p ≤ 32 → field (setArg i p s a) p s = a mod 2 ^ s.
Proof.
  intros Hp Hs H. apply Z.bits_inj'. intros k Hk. rewrite field_bit by done.
  destruct (Z.ltb_spec k s); simpl; [|by rewrite Z.mod_pow2_bits_high by lia].
  rewrite setArg_bit, Z.mod_pow2_bits_low by lia.
  assert ((p <=? k + p) && (k + p <? p + s) = true) as -> by lia. f_equal. lia.
Qed.

Lemma field_other i p s a q t : 0 ≤ p → 0 ≤ s → s + p ≤ 32 → 0 ≤ q → 0 ≤ t → t + q ≤ 32 → q + t ≤ p ∨ p + s ≤ q →
  field (setArg i p s a) q t = field i q t.
Proof.
  intros Hp Hs H Hq Ht H' Hd. apply Z.bits_inj'. intros k Hk. rewrite !field_bit by done.
  destruct (Z.ltb_spec k t); simpl; [|done]. rewrite setArg_bit by lia.
  assert ((p <=? k + q) && (k + q <? p + s) = false) as -> by lia. done.
Qed.

(** A field of a word that is put together of parts. *)
Lemma field_lor i j p s : field (Z.lor i j) p s = Z.lor (field i p s) (field j p s).
Proof. unfold field. by rewrite Z.shiftr_lor, Z.land_lor_distr_l. Qed.

Lemma field_shl v n m p s : 0 ≤ v < 2 ^ m → 0 ≤ n → 0 ≤ m → n + m ≤ 32 → 0 ≤ p → 0 ≤ s → p + s ≤ 32 →
  n + m ≤ p ∨ p + s ≤ n → field (shl v n) p s = 0.
Proof.
  intros Hv Hn Hm H Hp Hs H' Hd. apply Z.bits_inj'. intros k Hk. rewrite field_bit, Z.bits_0 by done.
  destruct (Z.ltb_spec k s); [|done]. rewrite shl_bit by lia.
  destruct Hd; [rewrite (small_bits m) by lia|rewrite (Z.testbit_neg_r v) by lia]; by rewrite andb_false_r.
Qed.

Lemma field_shl_eq v n s : 0 ≤ v < 2 ^ s → 0 ≤ n → 0 ≤ s → n + s ≤ 32 → field (shl v n) n s = v.
Proof.
  intros Hv Hn Hs H. apply Z.bits_inj'. intros k Hk. rewrite field_bit by done.
  destruct (Z.ltb_spec k s); simpl; [|by rewrite (small_bits s) by lia].
  rewrite shl_bit by lia. assert ((k + n <? 32) = true) as -> by lia. simpl. f_equal. lia.
Qed.

Lemma instr_id z n : 0 ≤ z < 2 ^ n → n ≤ 32 → instr z = z.
Proof. intros Hz Hn. apply Z.mod_small. assert (2 ^ n ≤ 2 ^ 32) by (apply Z.pow_le_mono_r; lia). lia. Qed.

Lemma getters i :
  opField i = field i posOp sizeOp ∧ getA i = field i posA sizeA ∧ getB i = field i posB sizeB ∧
  getC i = field i posC sizeC ∧ getBx i = field i posBx sizeBx ∧ getAx i = field i posAx sizeAx.
Proof. done. Qed.

Ltac sizes := unfold posBx, posAx, posB, posC, posA, posOp, sizeBx, sizeAx, sizeOp, sizeA, sizeB, sizeC in *; lia.

(** The parts of a word that [createABC] and its kin make. *)
Ltac fields :=
  rewrite ?field_lor;
  repeat match goal with
  | H : 0 ≤ ?v < 2 ^ ?m |- context [field (shl ?v ?n) ?p ?s] =>
      first [rewrite (field_shl_eq v n s) by (first [exact H|sizes]) | rewrite (field_shl v n m p s) by (first [exact H|sizes])]
  end;
  rewrite ?Z.lor_0_r, ?Z.lor_0_l; try done.

Definition fits (n x : Z) : Prop := 0 ≤ x < 2 ^ n.

Lemma op_fits o : fits sizeOp (op_num o).
Proof. pose proof (op_num_range o). unfold fits, sizeOp. simpl. lia. Qed.

Lemma createABC_fields o a b c : fits sizeA a → fits sizeB b → fits sizeC c →
  let i := createABC o a b c in op_of (opField i) = Some o ∧ getA i = a ∧ getB i = b ∧ getC i = c.
Proof.
  intros Ha Hb Hc. pose proof (op_fits o) as Ho. unfold fits in *. cbv zeta. unfold createABC.
  rewrite (instr_id a sizeA), (instr_id b sizeB), (instr_id c sizeC) by (first [done|unfold sizeA, sizeB, sizeC; lia]).
  destruct (getters (Z.lor (Z.lor (Z.lor (shl (op_num o) posOp) (shl a posA)) (shl b posB)) (shl c posC))) as (-> & -> & -> & -> & _).
  split; [|split; [|split]]; fields. apply op_of_num.
Qed.

Lemma createABx_fields o a bx : fits sizeA a → fits sizeBx bx →
  let i := createABx o a bx in op_of (opField i) = Some o ∧ getA i = a ∧ getBx i = bx.
Proof.
  intros Ha Hb. pose proof (op_fits o) as Ho. unfold fits in *. cbv zeta. unfold createABx.
  rewrite (instr_id a sizeA), (instr_id bx sizeBx) by (first [done|unfold sizeA, sizeBx, sizeB, sizeC; lia]).
  destruct (getters (Z.lor (Z.lor (shl (op_num o) posOp) (shl a posA)) (shl bx posBx))) as (-> & -> & _ & _ & -> & _).
  split; [|split]; fields. apply op_of_num.
Qed.

Lemma createAx_fields o a : fits sizeAx a → let i := createAx o a in op_of (opField i) = Some o ∧ getAx i = a.
Proof.
  intros Ha. pose proof (op_fits o) as Ho. unfold fits in *. cbv zeta. unfold createAx.
  rewrite (instr_id a sizeAx) by (first [done|unfold sizeAx, sizeA, sizeB, sizeC; lia]).
  destruct (getters (Z.lor (shl (op_num o) posOp) (shl a posAx))) as (-> & _ & _ & _ & _ & ->).
  split; fields. apply op_of_num.
Qed.

(** Every word is its fields. *)
Lemma word_fields i : fits 32 i → i = Z.lor (Z.lor (Z.lor (shl (opField i) posOp) (shl (getA i) posA)) (shl (getB i) posB)) (shl (getC i) posC).
Proof.
  intros Hi. destruct (getters i) as (-> & -> & -> & -> & _). apply Z.bits_inj'. intros k Hk.
  rewrite !Z.lor_spec, !shl_bit by (first [done|unfold posOp, posA, posB, posC; simpl; lia]).
  destruct (Z.ltb_spec k 32); simpl; [|by apply (small_bits 32)].
  unfold posB, posC, posA, posOp, sizeOp, sizeA, sizeB, sizeC.
  assert (∀ p s, 0 ≤ p → 0 ≤ s → Z.testbit (field i p s) (k - p) = (p <=? k) && (k <? p + s) && Z.testbit i k) as Hf.
  { intros p s Hp Hs. destruct (Z.leb_spec p k) as [Hle|Hgt]; simpl; [|apply Z.testbit_neg_r; lia].
    rewrite field_bit by lia. replace (k - p + p) with k by lia. f_equal.
    destruct (Z.ltb_spec (k - p) s), (Z.ltb_spec k (p + s)); lia || done. }
  rewrite !Hf by lia. destruct (Z.testbit i k); rewrite ?andb_true_r, ?andb_false_r; [|done].
  lia.
Qed.

Lemma word_inj i j : fits 32 i → fits 32 j → opField i = opField j → getA i = getA j → getB i = getB j → getC i = getC j → i = j.
Proof. intros Hi Hj Ho Ha Hb Hc. rewrite (word_fields i Hi), (word_fields j Hj). by rewrite Ho, Ha, Hb, Hc. Qed.

(** The constants' bit. *)
Lemma constant_index x : fits 8 x → isConstant (asConstant x) = true ∧ constantIndex (asConstant x) = x ∧ isConstant x = false ∧ fits sizeB (asConstant x).
Proof.
  unfold fits, isConstant, asConstant, constantIndex. intros Hx. change bitRK with (2 ^ 8).
  assert (Z.land x (2 ^ 8) = 0) as H0.
  { apply Z.bits_inj'. intros k Hk. rewrite Z.land_spec, Z.pow2_bits_eqb, Z.bits_0 by lia.
    destruct (Z.eqb_spec 8 k); [rewrite (small_bits 8) by lia|]; by rewrite ?andb_false_r. }
  assert (Z.lor x (2 ^ 8) = x + 2 ^ 8) as Hadd by (symmetry; rewrite Z.add_nocarry_lxor, Z.lxor_lor by done; done).
  split; [|split; [|split]].
  - apply negb_true_iff, Z.eqb_neq. rewrite Z.land_lor_distr_l, H0, Z.land_diag. done.
  - rewrite Hadd. rewrite <- Z.add_nocarry_lxor || idtac. apply Z.bits_inj'. intros k Hk.
    rewrite Z.ldiff_spec, <- Hadd, Z.lor_spec, Z.pow2_bits_eqb by lia.
    destruct (Z.eqb_spec 8 k); simpl; [rewrite (small_bits 8 x) by lia; by rewrite andb_false_r|by rewrite orb_false_r, andb_true_r].
  - by rewrite H0.
  - rewrite Hadd. unfold sizeB. lia.
Qed.

(** ** The words of the machine *)

(** What writing one field does to the fields: [upd] says which one has become [x]. *)
Definition fields_of (i : Z) : Z * Z * Z * Z := (opField i, getA i, getB i, getC i).

Lemma set_fields i x : fits 32 i →
  (∀ o, fields_of (setOpCode i o) = (op_num o, getA i, getB i, getC i)) ∧
  (fits sizeA x → fields_of (setA i x) = (opField i, x, getB i, getC i)) ∧
  (fits sizeB x → fields_of (setB i x) = (opField i, getA i, x, getC i)) ∧
  (fits sizeC x → fields_of (setC i x) = (opField i, getA i, getB i, x)) ∧
  (fits sizeBx (x + maxArgSBx) → opField (setSBx i x) = opField i ∧ getA (setSBx i x) = getA i ∧ getSBx (setSBx i x) = x) ∧
  (fits sizeAx x → opField (setAx i x) = opField i ∧ getAx (setAx i x) = x).
Proof.
  intros Hi. unfold fields_of, setOpCode, setA, setB, setC, setSBx, setAx, getSBx, getBx, getAx, opField, getA, getB, getC.
  assert (∀ i p s, Z.land (Z.shiftr i p) (Z.shiftl 1 s - 1) = field i p s) as Hg.
  { done. }
  unfold maxArgA, maxArgB, maxArgC, maxArgBx, maxArgAx.
  assert (∀ s, fits s x → x mod 2 ^ s = x) as Hm by exact (fun s Hs => Z.mod_small x (2 ^ s) Hs).
  split; [intros o|split; [intros H|split; [intros H|split; [intros H|split; intros H]]]].
  all: rewrite !Hg. all: rewrite field_set by sizes.
  all: rewrite ?field_other by sizes.
  - pose proof (op_fits o). by rewrite Z.mod_small.
  - by rewrite (Hm sizeA).
  - by rewrite (Hm sizeB).
  - by rewrite (Hm sizeC).
  - rewrite Z.mod_small by done. split; [done|]. split; [done|lia].
  - by rewrite (Hm sizeAx).
Qed.

(** An instruction is read as it was made, a field that is set is the only one that
    changes, and every 32-bit word is made of its four fields, so that two words with the
    same fields are one.  Constants and registers are told apart by their bit. *)
Theorem instruction_codec :
  (∀ o a b c, fits sizeA a → fits sizeB b → fits sizeC c →
    op_of (opField (createABC o a b c)) = Some o ∧ fields_of (createABC o a b c) = (op_num o, a, b, c)) ∧
  (∀ o a bx, fits sizeA a → fits sizeBx bx →
    op_of (opField (createABx o a bx)) = Some o ∧ getA (createABx o a bx) = a ∧ getBx (createABx o a bx) = bx) ∧
  (∀ o ax, fits sizeAx ax → op_of (opField (createAx o ax)) = Some o ∧ getAx (createAx o ax) = ax) ∧
  (∀ i x, fits 32 i →
    (∀ o, fields_of (setOpCode i o) = (op_num o, getA i, getB i, getC i)) ∧
    (fits sizeA x → fields_of (setA i x) = (opField i, x, getB i, getC i)) ∧
    (fits sizeB x → fields_of (setB i x) = (opField i, getA i, x, getC i)) ∧
    (fits sizeC x → fields_of (setC i x) = (opField i, getA i, getB i, x)) ∧
    (fits sizeBx (x + maxArgSBx) → opField (setSBx i x) = opField i ∧ getA (setSBx i x) = getA i ∧ getSBx (setSBx i x) = x) ∧
    (fits sizeAx x → opField (setAx i x) = opField i ∧ getAx (setAx i x) = x)) ∧
  (∀ i j, fits 32 i → fits 32 j → fields_of i = fields_of j → i = j) ∧
  (∀ x, fits 8 x → isConstant x = false ∧ isConstant (asConstant x) = true ∧ constantIndex (asConstant x) = x ∧ fits sizeB (asConstant x)).
Proof.
  split_and!.
  - intros o a b c Ha Hb Hc. destruct (createABC_fields o a b c Ha Hb Hc) as (H1 & H2 & H3 & H4).
    split; [done|]. unfold fields_of. rewrite H2, H3, H4. do 3 f_equal.
    by apply op_of_inj.
  - intros. by apply createABx_fields.
  - intros. by apply createAx_fields.
  - intros i x Hi. by apply set_fields.
  - intros i j Hi Hj [= ????]. by apply word_inj.
  - intros x Hx. by destruct (constant_index x Hx) as (? & ? & ? & ?).
Qed.

Lemma instruction_codec_witness :
  fits sizeA 3 ∧ fits sizeB 257 ∧ fits sizeC 511 ∧ fields_of (createABC opAdd 3 257 511) = (op_num opAdd, 3, 257, 511) ∧
  getSBx (setSBx 5 (-7)) = -7.
Proof.
  assert (fits sizeA 3 ∧ fits sizeB 257 ∧ fits sizeC 511 ∧ fits 32 5 ∧ fits sizeBx (-7 + maxArgSBx)) as (HA & HB & HC & HI & HX) by (unfold fits; by vm_compute).
  destruct instruction_codec as (H1 & _ & _ & H4 & _). destruct (H1 opAdd 3 257 511 HA HB HC) as [_ E].
  destruct (H4 5 (-7) HI) as (_ & _ & _ & _ & Hx & _). split; [done|]. split; [done|]. split; [done|]. split; [exact E|by apply Hx].
Defined.

(** ** Floating point bytes *)

Lemma float8_loop_spec n x e : 8 ≤ x ≤ 15 * 2 ^ Z.of_nat n →
  ∃ m d, float8_loop n x e = (m, e + d) ∧ 0 ≤ d ≤ Z.of_nat n ∧ 8 ≤ m ≤ 15 ∧ (m - 1) * 2 ^ d < x ≤ m * 2 ^ d ∧
    (d = 0 ∨ 15 * 2 ^ d < 2 * x).
Proof.
  revert x e. induction n as [|n IH]; intros x e Hx.
  - exists x, 0. rewrite Z.add_0_r. change (2 ^ Z.of_nat 0) with 1 in Hx. change (2 ^ 0) with 1. split; [done|lia].
  - cbn [float8_loop]. destruct (Z.leb_spec 16 x) as [Hge|Hlt]; [|exists x, 0; rewrite Z.add_0_r; change (2 ^ 0) with 1; split; [done|lia]].
    rewrite Nat2Z.inj_succ, Z.pow_succ_r in Hx by lia. rewrite Z.shiftr_div_pow2 by lia. change (2 ^ 1) with 2.
    set (y := (x + 1) / 2). assert (2 * y - 1 ≤ x ≤ 2 * y) as Hy by (unfold y; div_lia).
    destruct (IH y (e + 1)) as (m & d & -> & Hd & Hm & Hb & Hc); [lia|].
    exists m, (1 + d). rewrite !Z.pow_add_r, Z.pow_1_r by lia. split; [f_equal; lia|].
    split; [lia|]. split; [done|]. split; [lia|]. right.
    destruct (Z.eq_dec d 0) as [->|Hd0]; [change (2 ^ 0) with 1; lia|]. destruct Hc as [->|Hc]; [lia|].
    assert (2 ^ d = 2 * 2 ^ (d - 1)) as Hp by (rewrite <- Z.pow_succ_r by lia; f_equal; lia). lia.
Qed.

Lemma float8_small x : 0 ≤ x < 8 → float8FromInt x = x ∧ intFromFloat8 x = x.
Proof.
  intros Hx. assert (∀ k, 0 ≤ k < 8 → float8FromInt k = k ∧ intFromFloat8 k = k) as H; [|by apply H].
  clear. intros k Hk. assert (k ∈ [0; 1; 2; 3; 4; 5; 6; 7]) as Hin by (rewrite !elem_of_cons; lia).
  revert k Hin Hk. by apply (Forall_forall (λ k, 0 ≤ k < 8 → float8FromInt k = k ∧ intFromFloat8 k = k)); repeat constructor.
Qed.

(** A mantissa below 16 and an exponent make a byte and come back. *)
Lemma float8_parts m d : 8 ≤ m ≤ 15 → 0 ≤ d ≤ 30 →
  let b := Z.lor (Z.shiftl (d + 1) 3) (m - 8) in b = (d + 1) * 8 + (m - 8) ∧ intFromFloat8 b = m * 2 ^ d.
Proof.
  intros Hm Hd b. assert (b = (d + 1) * 8 + (m - 8)) as Hb.
  { unfold b. rewrite Z.shiftl_mul_pow2 by lia. change (2 ^ 3) with 8.
    rewrite <- Z.lxor_lor, <- Z.add_nocarry_lxor; [done| |]; apply Z.bits_inj'; intros k Hk; rewrite Z.land_spec, Z.bits_0.
    all: change 8 with (2 ^ 3); destruct (Z.lt_ge_cases k 3).
    all: first [rewrite Z.mul_pow2_bits_low by lia; done | rewrite (small_bits 3 (m - 2 ^ 3)) by lia; apply andb_false_r]. }
  split; [done|]. clearbody b. subst b. unfold intFromFloat8.
  rewrite Z.shiftr_div_pow2 by lia. change (2 ^ 3) with 8. rewrite Z.div_add_l, (Z.div_small (m - 8)), Z.add_0_r by lia.
  change 31 with (Z.ones 5). change 7 with (Z.ones 3). rewrite !Z.land_ones by lia. change (2 ^ 5) with 32. change (2 ^ 3) with 8.
  rewrite (Z.mod_small (d + 1)) by lia. assert ((d + 1 =? 0) = false) as -> by lia.
  rewrite (Z.add_comm ((d + 1) * 8)), Z.mod_add, Z.mod_small by lia. rewrite Z.shiftl_mul_pow2 by lia.
  f_equal; [lia|f_equal; lia].
Qed.

Lemma float8_bytes b : 0 ≤ b < 256 → float8FromInt (intFromFloat8 b) = b.
Proof.
  intros Hb. assert (forallb (λ n, float8FromInt (intFromFloat8 (Z.of_nat n)) =? Z.of_nat n) (seq 0 256) = true) as H by by vm_compute.
  rewrite forallb_forall in H. specialize (H (Z.to_nat b)). rewrite Z2Nat.id in H by lia. apply Z.eqb_eq, H, in_seq. lia.
Qed.

(** The size of a table travels in a byte: what is read is the size or more, by less
    than two fifteenths, and every byte below 256 is read as the size it was made of. *)
Theorem float8_rounds_up x : 0 ≤ x ≤ 15 * 2 ^ 30 →
  0 ≤ float8FromInt x < 256 ∧ x ≤ intFromFloat8 (float8FromInt x) ∧ 15 * (intFromFloat8 (float8FromInt x) - x) ≤ 2 * x ∧
  (x < 16 → intFromFloat8 (float8FromInt x) = x) ∧ (∀ b, 0 ≤ b < 256 → float8FromInt (intFromFloat8 b) = b).
Proof.
  intros Hx. destruct (Z.lt_ge_cases x 8) as [Hlt|Hge].
  { destruct (float8_small x ltac:(lia)) as [-> H]. rewrite H. split_and!; try lia. apply float8_bytes. }
  unfold float8FromInt at 1 2 3 4 5. assert ((x <? 8) = false) as -> by lia.
  destruct (float8_loop_spec 64 x 0) as (m & d & -> & Hd & Hm & Hb & Hc); [simpl; lia|]. rewrite Z.add_0_l.
  assert (d ≤ 30) as Hd30.
  { destruct Hc as [->|Hc]; [lia|]. destruct (Z.le_gt_cases d 30); [done|].
    assert (2 ^ 31 ≤ 2 ^ d) by (apply Z.pow_le_mono_r; lia). lia. }
  destruct (float8_parts m d Hm ltac:(lia)) as [Hp ->]. rewrite Hp.
  split_and!; try lia; [| |apply float8_bytes].
  - destruct Hc as [->|Hc]; [simpl in *|]; lia.
  - intros H16. destruct Hc as [->|Hc]; [simpl in *; lia|]. assert (d < 1) as Hd1.
    { destruct (Z.lt_ge_cases d 1); [done|]. assert (2 ^ 1 ≤ 2 ^ d) by (apply Z.pow_le_mono_r; lia). lia. }
    assert (d = 0) as -> by lia. simpl in *. lia.
Qed.
