(* ===== verification/LuaTable.v ===== *)
(** * Values and tables of Lua (Shopify/go-lua/types.go, tables.go)

    A [value] is what a Go interface of the machine holds; objects are identities.  A
    [table] has an array part for the keys 1..n and a Go map for the rest.  A key of the
    map is a value up to Go's [==]: the two zeros are one key, and NaN equals no key, not
    even itself.  The machine's errors are [Err] with the message, without the position
    that [runtimeError] puts before it. *)
From Stdlib Require Import ZArith Lia.
From stdpp Require Import base option list strings gmap countable.
From S2P Require Import Prelude GoNum.
From Stdlib Require Import SpecFloat.

(** ** Values *)

Inductive value :=
  | VNil
  | VBool (b : bool)
  | VNumber (f : float64)
  | VString (s : string)
  | VTable (id : nat)
  | VUserData (id : nat)
  | VLua (id : nat)            (** [*luaClosure] *)
  | VGoClosure (id : nat)
  | VGoFunction (id : nat)
  | VThread                    (** the one [*State] *)
  | VLight (id : nat).         (** a Go value of another type; [VLight 0] is [none] *)

#[export] Instance float64_eq_dec : EqDecision float64.
Proof. solve_decision. Defined.

#[export] Instance value_eq_dec : EqDecision value.
Proof. solve_decision. Defined.

#[export] Instance float64_countable : Countable float64.
Proof.
  refine (inj_countable'
    (λ f, match f with
          | S754_zero s => inl (inl s) | S754_infinity s => inl (inr s)
          | S754_nan => inr (inl ()) | S754_finite s m e => inr (inr (s, m, e)) end)
    (λ c, match c with
          | inl (inl s) => S754_zero s | inl (inr s) => S754_infinity s
          | inr (inl _) => S754_nan | inr (inr (s, m, e)) => S754_finite s m e end) _).
  by intros [].
Defined.

#[export] Instance value_countable : Countable value.
Proof.
  refine (inj_countable'
    (λ v, match v with
          | VNil => inl (inl (inl ())) | VBool b => inl (inl (inr b))
          | VNumber f => inl (inr f) | VString s => inr (inl s)
          | VTable i => inr (inr (0%nat, i)) | VUserData i => inr (inr (1%nat, i)) | VLua i => inr (inr (2%nat, i))
          | VGoClosure i => inr (inr (3%nat, i)) | VGoFunction i => inr (inr (4%nat, i))
          | VThread => inr (inr (5%nat, 0%nat)) | VLight i => inr (inr (6%nat, i)) end)
    (λ c, match c with
          | inl (inl (inl _)) => VNil | inl (inl (inr b)) => VBool b
          | inl (inr f) => VNumber f | inr (inl s) => VString s
          | inr (inr (0%nat, i)) => VTable i | inr (inr (1%nat, i)) => VUserData i | inr (inr (2%nat, i)) => VLua i
          | inr (inr (3%nat, i)) => VGoClosure i | inr (inr (4%nat, i)) => VGoFunction i
          | inr (inr (5%nat, _)) => VThread | inr (inr (_, i)) => VLight i end) _).
  by intros [].
Defined.

Definition is_nil (v : value) : bool := match v with VNil => true | _ => false end.

Definition isFalse (v : value) : bool := match v with VNil | VBool false => true | _ => false end.

(** The key that a value is in a Go map. *)
Definition hkey (k : value) : option value :=
  match k with
  | VNumber S754_nan => None
  | VNumber (S754_zero _) => Some (VNumber (S754_zero false))
  | k => Some k
  end.

(** [h[k]] as a value, and as a statement; [delete(h, k)].  An entry stored under NaN could
    never be read: the code refuses it before. *)
Definition hget (h : gmap value value) (k : value) : value :=
  match hkey k with Some k => default VNil (h !! k) | None => VNil end.
Definition hset (h : gmap value value) (k v : value) : gmap value value :=
  match hkey k with Some k => <[k := v]> h | None => h end.
Definition hdel (h : gmap value value) (k : value) : gmap value value :=
  match hkey k with Some k => delete k h | None => h end.

(** ** Tables *)

Record table := mkTable {
  array : list value;
  hash : gmap value value;
  metaTable : option nat;
  flags : Z;
  iterationKeys : option (list value)
}.

Definition set_array (a : list value) (t : table) : table := mkTable a (hash t) (metaTable t) (flags t) (iterationKeys t).
Definition set_hash (h : gmap value value) (t : table) : table := mkTable (array t) h (metaTable t) (flags t) (iterationKeys t).
Definition set_keys (k : option (list value)) (t : table) : table := mkTable (array t) (hash t) (metaTable t) (flags t) k.

Definition newTable : table := mkTable [] ∅ None 0 None.
Definition newTableWithSize (arraySize hashSize : Z) : table :=
  mkTable (if 0 <? arraySize then replicate (Z.to_nat arraySize) VNil else []) ∅ None 0 None.
Definition invalidateTagMethodCache (t : table) : table := mkTable (array t) (hash t) (metaTable t) 0 (iterationKeys t).
Definition atString (k : string) (t : table) : value := hget (hash t) (VString k).

Definition len_ (t : table) : Z := Z.of_nat (length (array t)).

Definition index_panic : string := "runtime error: index out of range".

(** [l[i]] and [l[i] = v] of a slice. *)
Definition slice_at {A} (l : list A) (i : Z) : outcome A :=
  if i <? 0 then Panic index_panic else match l !! Z.to_nat i with Some x => Ok x | None => Panic index_panic end.
Definition slice_put {A} (l : list A) (i : Z) (x : A) : outcome (list A) :=
  if (i <? 0) || (Z.of_nat (length l) <=? i) then Panic index_panic else Ok (<[Z.to_nat i := x]> l).

(** [if f, ok := k.(float64); ok { if i := int(f); float64(i) == f { .. i .. } }] *)
Definition int_key (k : value) : option Z :=
  match k with
  | VNumber f => let i := int_of_float f in if feq (float_of_int i) f then Some i else None
  | _ => None
  end.

Definition in_array (i : Z) (a : list value) : bool := (0 <? i) && (i <=? Z.of_nat (length a)).

(** One round of the loop of [extendArray] over the map. *)
Definition move_entry (k v : value) (s : list value * gmap value value) : list value * gmap value value :=
  match int_key k with
  | Some i => if in_array i s.1 then (<[Z.to_nat (i - 1) := v]> s.1, delete k s.2) else s
  | None => s
  end.

Definition extendArray (last : Z) (t : table) : outcome table :=
  if last <? len_ t then Panic "runtime error: makeslice: len out of range"
  else
    let '(a, h) := map_fold move_entry (array t ++ replicate (Z.to_nat (last - len_ t)) VNil, hash t) (hash t) in
    Ok (set_hash h (set_array a t)).

Definition atInt (k : Z) (t : table) : outcome value :=
  if in_array k (array t) then slice_at (array t) (k - 1) else Ok (hget (hash t) (VNumber (float_of_int k))).

(** The entries that [maybeResizeArray] counts. *)
Definition occupied (key : Z) (k v : value) : bool :=
  match int_key k with Some i => negb (is_nil v) && (i <=? key) | None => false end.
Definition occupancy (key : Z) (t : table) : Z :=
  countb (λ v, negb (is_nil v)) (array t) + countb (λ kv, occupied key kv.1 kv.2) (map_to_list (hash t)).

Definition maybeResizeArray (key : Z) (t : table) : outcome (option table) :=
  if Z.shiftr key 1 <=? occupancy key t
  then t' ← extendArray (Z.max (occupancy key t * 2) key) t; Ok (Some t')
  else Ok None.

Definition putAtInt (k : Z) (v : value) (t : table) : outcome table :=
  let hashed := if is_nil v then set_hash (hdel (hash t) (VNumber (float_of_int k))) t
                else set_hash (hset (hash t) (VNumber (float_of_int k)) v) t in
  if in_array k (array t) then a ← slice_put (array t) (k - 1) v; Ok (set_array a t)
  else if (0 <? k) && negb (is_nil v) then
    r ← maybeResizeArray k t;
    match r with
    | Some t => a ← slice_put (array t) (k - 1) v; Ok (set_array a t)
    | None => Ok hashed
    end
  else Ok hashed.

Definition at_ (k : value) (t : table) : outcome value :=
  match k with
  | VNil => Ok VNil
  | VNumber f =>
      match int_key k with
      | Some i => if in_array i (array t) then slice_at (array t) (i - 1) else Ok (hget (hash t) k)
      | None => Ok (hget (hash t) k)
      end
  | k => Ok (hget (hash t) k)
  end.

Definition hash_put (k v : value) (t : table) : table :=
  if is_nil v then set_hash (hdel (hash t) k) t else set_hash (hset (hash t) k v) t.

Definition is_nan64 (f : float64) : bool := match f with S754_nan => true | _ => false end.

Definition put_ (k v : value) (t : table) : outcome table :=
  match k with
  | VNil => Err (Errorf "table index is nil")
  | VNumber f =>
      match int_key k with
      | Some i => putAtInt i v t
      | None => if is_nan64 f then Err (Errorf "table index is NaN") else Ok (hash_put k v t)
      end
  | k => Ok (hash_put k v t)
  end.

(** [tryPut]: [None] when it returns false. *)
Definition try_hash (k v : value) (t : table) : option table :=
  if negb (is_nil (hget (hash t) k)) && negb (is_nil v) then Some (set_hash (hset (hash t) k v) t) else None.
Definition tryPut (k v : value) (t : table) : outcome (option table) :=
  match k with
  | VNil => Ok None
  | VNumber f =>
      match int_key k with
      | Some i =>
          if in_array i (array t) then
            x ← slice_at (array t) (i - 1);
            if is_nil x then Ok (try_hash k v t)
            else a ← slice_put (array t) (i - 1) v; Ok (Some (set_array a t))
          else Ok (try_hash k v t)
      | None => if is_nan64 f then Ok None else Ok (try_hash k v t)
      end
  | k => Ok (try_hash k v t)
  end.

(** *** The length *)

Definition out_of_fuel {A} : outcome A := Panic "out of fuel".

(** [for j-i > 1 { m := (i + j) / 2; if empty(m) { j = m } else { i = m } }; return i] *)
Fixpoint halve (fuel : nat) (empty : Z → outcome bool) (i j : Z) : outcome Z :=
  match fuel with
  | O => out_of_fuel
  | S n =>
      if 1 <? int64_of (j - i) then
        let m := Z.quot (int64_of (i + j)) 2 in
        e ← empty m;
        if (e : bool) then halve n empty i m else halve n empty m j
      else Ok i
  end.

(** [for i = 1; nil != t.atInt(i); i++ {}; return i - 1] *)
Fixpoint linear (fuel : nat) (t : table) (i : Z) : outcome Z :=
  match fuel with
  | O => out_of_fuel
  | S n => v ← atInt i t; if is_nil v then Ok (i - 1) else linear n t (int64_of (i + 1))
  end.

Definition atInt_nil (t : table) (m : Z) : outcome bool := v ← atInt m t; Ok (is_nil v).
Definition array_nil (t : table) (m : Z) : outcome bool := v ← slice_at (array t) (m - 1); Ok (is_nil v).

Definition entries (t : table) : nat := (length (array t) + size (hash t))%nat.

(** The first loop of [unboundSearch], from [i] and [j]; an [int] is doubled less than 64
    times, and halved as often. *)
Fixpoint grow_search (fuel : nat) (t : table) (i j : Z) : outcome Z :=
  match fuel with
  | O => out_of_fuel
  | S n =>
      v ← atInt j t;
      if is_nil v then halve 65 (atInt_nil t) i j
      else
        let j2 := int64_of (j * 2) in
        if j2 <? 0 then linear (S (entries t)) t 1 else grow_search n t j j2
  end.
Definition unboundSearch (j : Z) (t : table) : outcome Z := grow_search 65 t j (int64_of (j + 1)).

Definition length_ (t : table) : outcome Z :=
  let j := len_ t in
  let short := x ← slice_at (array t) (j - 1); Ok (is_nil x) in
  b ← (if 0 <? j then short else Ok false);
  if (b : bool) then halve 65 (array_nil t) 0 j else unboundSearch j t.

(** *** Traversal *)

Definition arrayIndex (k : value) : Z := match int_key k with Some i => i | None => -1 end.

(** The first non-nil slot from [i] on. *)
Fixpoint first_slot (i : Z) (a : list value) : option (Z * value) :=
  match a with
  | [] => None
  | v :: a => if is_nil v then first_slot (i + 1) a else Some (i, v)
  end.

(** The loop over [iterationKeys]; [eqo] is [equalObjects], [order] the order in which Go
    walks the map. *)
Fixpoint next_key (eqo : value → value → outcome bool) (k : value) (found : bool) (keys : list value) : outcome (option value) :=
  match keys with
  | [] => Ok None
  | hk :: keys =>
      if found then Ok (Some hk)
      else b ← eqo hk k; next_key eqo k b keys
  end.

Definition next_start (k : value) (t : table) : outcome Z :=
  if is_nil k then Ok 0
  else if in_array (arrayIndex k) (array t) then Ok (arrayIndex k)
  else if bool_decide (is_Some (hkey k ≫= λ k, hash t !! k)) then Ok (len_ t)
  else Err (Errorf "invalid key to 'next'").

Definition next_ (eqo : value → value → outcome bool) (order : gmap value value → list value) (k : value) (t : table)
    : outcome (option (value * value) * table) :=
  start ← next_start k t;
  let t := if is_nil k then set_keys None t else t in
  match first_slot start (drop (Z.to_nat start) (array t)) with
  | Some (i, v) => Ok (Some (VNumber (float_of_int (i + 1)), v), t)
  | None =>
      let keys := match iterationKeys t with Some l => l | None => order (hash t) end in
      let t := set_keys (Some keys) t in
      r ← next_key eqo k (is_nil k) keys;
      match r with
      | Some hk => Ok (Some (hk, hget (hash t) hk), t)
      | None => Ok (None, set_keys None t)
      end
  end.
