(* ===== verification/LuaTableProps.v ===== *)
(** * Tables of Lua are maps

    [look] is the value of a key; [put_] and [tryPut] change it at one key and nowhere
    else, wherever the entries are kept and whenever they move from the map to the array. *)
From Stdlib Require Import ZArith Lia.
From stdpp Require Import base option list strings gmap.
From S2P Require Import Prelude GoNum FloatFacts LuaTable.
From Stdlib Require Import SpecFloat.

(** ** Keys *)

Lemma feq_cases f g : feq f g = true → f = g ∨ (∃ s s', f = S754_zero s ∧ g = S754_zero s').
Proof.
  unfold feq, SFeqb. destruct f as [s|s| |s m e], g as [s'|s'| |s' m' e']; simpl; try done.
  1: intros _; right; eauto.
  all: destruct s, s'; try done; try (intros _; by left).
  all: destruct (Z.compare_spec e e') as [->|?|?]; try done.
  all: fold (Pos.compare m m'); destruct (Pos.compare_spec m m') as [->|?|?]; try done; intros _; by left.
Qed.

Lemma hkey_idem k k' : hkey k = Some k' → hkey k' = Some k'.
Proof. destruct k as [| |[]| | | | | | | |]; simpl; try done; by intros [= <-]. Qed.

Lemma int_key_canon k k' : hkey k = Some k' → int_key k' = int_key k.
Proof. destruct k as [| |[]| | | | | | | |]; simpl; try done; by intros [= <-]. Qed.

Lemma int_key_number k i : int_key k = Some i → hkey k = hkey (VNumber (float_of_int i)) ∧ is_Some (hkey k).
Proof.
  destruct k as [| |f| | | | | | | |]; try done. unfold int_key. destruct (feq _ f) eqn:E; [|done]. intros [= <-].
  apply feq_cases in E as [Hf|(s & s' & -> & ->)]; [|done]. rewrite Hf. split; [done|].
  by destruct f.
Qed.

Lemma int_key_same k k' i : int_key k = Some i → int_key k' = Some i → hkey k = hkey k'.
Proof. intros [-> _]%int_key_number [-> _]%int_key_number. done. Qed.

Lemma int_key_diff k k' i j : int_key k = Some i → int_key k' = Some j → hkey k = hkey k' → i = j.
Proof.
  intros Hi Hj H. destruct (int_key_number k i Hi) as [_ [k0 Hk]].
  pose proof (int_key_canon k k0 Hk) as H1. rewrite Hk in H. pose proof (int_key_canon k' k0 (eq_sym H)) as H2. congruence.
Qed.

Lemma in_array_spec i a : in_array i a = true ↔ 0 < i ≤ Z.of_nat (length a).
Proof. unfold in_array. lia. Qed.

(** ** The map of a table *)

Definition slot (i : Z) (a : list value) : value := default VNil (a !! Z.to_nat (i - 1)).

Definition look (k : value) (t : table) : value :=
  match int_key k with
  | Some i => if in_array i (array t) then slot i (array t) else hget (hash t) k
  | None => hget (hash t) k
  end.

(** The map holds no nil, only keys as [hkey] makes them, and none that belongs to the
    array. *)
Definition entry_ok (a : list value) (k v : value) : Prop :=
  v ≠ VNil ∧ hkey k = Some k ∧ k ≠ VNil ∧ ∀ i, int_key k = Some i → in_array i a = false.
Definition table_ok (t : table) : Prop := ∀ k v, hash t !! k = Some v → entry_ok (array t) k v.

Lemma slice_slot a i : in_array i a = true → slice_at a (i - 1) = Ok (slot i a).
Proof.
  rewrite in_array_spec. intros H. unfold slice_at, slot. assert ((i - 1 <? 0) = false) as -> by lia.
  destruct (lookup_lt_is_Some_2 a (Z.to_nat (i - 1))) as [x Hx]; [lia|]. by rewrite Hx.
Qed.

Lemma slice_put_slot a i v : in_array i a = true → slice_put a (i - 1) v = Ok (<[Z.to_nat (i - 1) := v]> a).
Proof. rewrite in_array_spec. intros H. unfold slice_put. by assert ((i - 1 <? 0) || (Z.of_nat (length a) <=? i - 1) = false) as -> by lia. Qed.

Lemma slot_insert a i j v : in_array i a = true → in_array j a = true →
  slot j (<[Z.to_nat (i - 1) := v]> a) = if decide (i = j) then v else slot j a.
Proof.
  rewrite !in_array_spec. intros Hi Hj. unfold slot. case_decide as H; subst.
  - by rewrite list_lookup_insert_eq by lia.
  - by rewrite list_lookup_insert_ne by lia.
Qed.

Lemma hget_nil_key t : table_ok t → hget (hash t) VNil = VNil.
Proof. intros Ht. unfold hget. simpl. destruct (hash t !! VNil) eqn:E; [|done]. by destruct (Ht _ _ E) as (_ & _ & ? & _). Qed.

(** Reading is total, and gives [look]. *)
Lemma at_look k t : table_ok t → at_ k t = Ok (look k t).
Proof.
  intros Ht. unfold look. destruct k as [| |f| | | | | | | |]; try done.
  - simpl. by rewrite hget_nil_key.
  - unfold at_. destruct (int_key (VNumber f)); [|done]. case_match; [by apply slice_slot|done].
Qed.

Lemma atInt_look i t : ∃ v, atInt i t = Ok v.
Proof. unfold atInt. case_match; [eexists; by apply slice_slot|eauto]. Qed.

(** ** Writing into the map part *)

Lemma hget_hset h k k' v : is_Some (hkey k) → hget (hset h k v) k' = if decide (hkey k' = hkey k) then v else hget h k'.
Proof.
  intros [x Hx]. unfold hget, hset. rewrite Hx. destruct (hkey k') as [y|]; [|by rewrite decide_False].
  destruct (decide (Some y = Some x)) as [[= ->]|Hne]; [by rewrite lookup_insert_eq|].
  rewrite lookup_insert_ne by congruence. done.
Qed.

Lemma hget_hdel h k k' : is_Some (hkey k) → hget (hdel h k) k' = if decide (hkey k' = hkey k) then VNil else hget h k'.
Proof.
  intros [x Hx]. unfold hget, hdel. rewrite Hx. destruct (hkey k') as [y|]; [|by rewrite decide_False].
  destruct (decide (Some y = Some x)) as [[= ->]|Hne]; [by rewrite lookup_delete_eq|].
  rewrite lookup_delete_ne by congruence. done.
Qed.

Lemma hash_put_look k v t : is_Some (hkey k) → array (hash_put k v t) = array t ∧
  ∀ k', hget (hash (hash_put k v t)) k' = if decide (hkey k' = hkey k) then v else hget (hash t) k'.
Proof.
  intros Hk. unfold hash_put. destruct (is_nil v) eqn:E; (split; [done|]); intros k'; simpl.
  - rewrite hget_hdel by done. by destruct v.
  - by rewrite hget_hset.
Qed.

(** ** Moving entries into the array *)

(** Whether the entry under a key goes into the array [a]. *)
Definition moves (a : list value) (k : value) : bool := match int_key k with Some i => in_array i a | None => false end.

(** What the loop of [extendArray] has done when it has seen the entries [m]. *)
Record moved (a0 : list value) (h0 m : gmap value value) (s : list value * gmap value value) : Prop := {
  mv_len : length s.1 = length a0;
  mv_in : ∀ k v i, m !! k = Some v → int_key k = Some i → in_array i a0 = true → s.1 !! Z.to_nat (i - 1) = Some v;
  mv_out : ∀ j, (∀ k v i, m !! k = Some v → int_key k = Some i → in_array i a0 = true → Z.to_nat (i - 1) ≠ j) → s.1 !! j = a0 !! j;
  mv_hash : ∀ k, s.2 !! k = (if decide (is_Some (m !! k) ∧ moves a0 k = true) then None else h0 !! k)
}.

Lemma in_array_len i a a' : length a = length a' → in_array i a = in_array i a'.
Proof. unfold in_array. by intros ->. Qed.

Lemma move_all a0 h0 m : (∀ k v, m !! k = Some v → hkey k = Some k) → moved a0 h0 m (map_fold move_entry (a0, h0) m).
Proof.
  intros Hm. revert Hm. apply (map_fold_weak_ind (λ s m, (∀ k v, m !! k = Some v → hkey k = Some k) → moved a0 h0 m s)).
  { intros _. split; [done|set_solver|done|]. intros k. rewrite decide_False; [done|]. rewrite lookup_empty. by intros [[? ?] _]. }
  clear m. intros k v m [a h] Hk IH Hm. destruct IH as [H1 H2 H3 H4].
  { intros k' v' H'. apply (Hm k' v'). rewrite lookup_insert_ne; [done|congruence]. }
  simpl in H1, H2, H3, H4. unfold move_entry. simpl.
  assert (∀ k' i, int_key k = Some i → int_key k' = Some i → is_Some (m !! k') → False) as Hinj.
  { intros k' i Hi Hi' [v' Hv']. pose proof (int_key_same k k' i Hi Hi') as He.
    rewrite (Hm k v) in He by apply lookup_insert_eq. rewrite (Hm k' v') in He; [congruence|].
    rewrite lookup_insert_ne; [done|]. congruence. }
  assert (∀ s, (∀ i, int_key k = Some i → in_array i a0 = false) → moved a0 h0 m s → moved a0 h0 (<[k:=v]> m) s) as Hskip.
  { intros s Hno [G1 G2 G3 G4]. split; [done| | |].
    - intros k' v' i [[<- <-]|[? Hv']]%lookup_insert_Some Hi Hin; [rewrite Hno in Hin by done; done|eauto].
    - intros j Hj. apply G3. intros k' v' i Hv' Hi Hin. apply (Hj k' v' i); [|done..]. rewrite lookup_insert_ne; [done|congruence].
    - intros k'. rewrite G4. apply decide_ext. destruct (decide (k = k')) as [<-|Hne]; [|by rewrite lookup_insert_ne].
      assert (moves a0 k = false) as -> by (unfold moves; destruct (int_key k) eqn:E; auto). by split; intros [_ ?]. }
  destruct (int_key k) as [i|] eqn:Ei; [|by apply Hskip].
  rewrite (in_array_len i a a0) by done. destruct (in_array i a0) eqn:Ea; [|apply Hskip; [by intros i' [= <-]|done]].
  clear Hskip. apply in_array_spec in Ea as Hi. split; simpl.
  - by rewrite length_insert.
  - intros k' v' i' [[<- <-]|[? Hv']]%lookup_insert_Some Hi' Hin.
    + rewrite Ei in Hi'. injection Hi' as <-. apply list_lookup_insert_eq. lia.
    + rewrite list_lookup_insert_ne; [eauto|]. apply in_array_spec in Hin. intros Heq.
      assert (i' = i) as -> by lia. eapply Hinj; eauto.
  - intros j Hj. assert (Z.to_nat (i - 1) ≠ j) as Hne by (apply (Hj k v i); [apply lookup_insert_eq|done|by apply in_array_spec]).
    rewrite list_lookup_insert_ne by done. apply H3. intros k' v' i' Hv'. apply (Hj k' v' i'). rewrite lookup_insert_ne; [done|congruence].
  - intros k'. destruct (decide (k = k')) as [<-|Hne].
    + rewrite lookup_delete_eq, decide_True; [done|]. rewrite lookup_insert_eq. split; [done|]. unfold moves. rewrite Ei. by apply in_array_spec.
    + rewrite lookup_delete_ne, H4 by done. apply decide_ext. by rewrite lookup_insert_ne.
Qed.

(** The slot that a key has come to. *)
Lemma moved_slot a0 h0 a h i k0 : moved a0 h0 h0 (a, h) → in_array i a0 = true → int_key k0 = Some i →
  (∀ k v, h0 !! k = Some v → hkey k = Some k) → hkey k0 = Some k0 →
  slot i a = default VNil (match h0 !! k0 with Some v => Some v | None => a0 !! Z.to_nat (i - 1) end).
Proof.
  intros [_ H2 H3 _] Ea Hc Hk Hk0. simpl in *. unfold slot. destruct (h0 !! k0) as [v|] eqn:E; [by erewrite H2|].
  rewrite H3; [done|]. intros k' v' i' Hv' Hi' Hin Heq. apply in_array_spec in Hin. apply in_array_spec in Ea.
  assert (i' = i) as -> by lia. pose proof (int_key_same k' k0 i Hi' Hc) as He. rewrite (Hk k' v' Hv'), Hk0 in He. congruence.
Qed.

(** Growing the array changes no entry. *)
Lemma extendArray_look last t : table_ok t → len_ t ≤ last →
  ∃ t', extendArray last t = Ok t' ∧ table_ok t' ∧ len_ t' = last ∧ (∀ k, look k t' = look k t) ∧
    (metaTable t', flags t', iterationKeys t') = (metaTable t, flags t, iterationKeys t).
Proof.
  intros Ht Hl. unfold extendArray. assert ((last <? len_ t) = false) as -> by lia.
  set (a0 := array t ++ _). pose proof (move_all a0 (hash t) (hash t) (λ k v H, proj1 (proj2 (Ht k v H)))) as Hmv.
  destruct (map_fold _ _ _) as [a h]. assert (Hmv' := Hmv). destruct Hmv' as [H1 H2 H3 H4]; simpl in *.
  assert (length a0 = Z.to_nat last) as Hlen by (unfold a0, len_ in *; rewrite length_app, length_replicate; lia).
  assert (∀ k, moves a0 k = false → h !! k = hash t !! k) as Hh by (intros k Hk; rewrite H4, decide_False; [done|]; intros [_ ?]; congruence).
  eexists; split; [done|]. split; [|split; [unfold len_ in *; simpl; lia|split; [|done]]].
  - intros k v Hkv. simpl in Hkv. rewrite H4 in Hkv. case_decide as Hd; [done|].
    destruct (Ht k v Hkv) as (? & ? & ? & _). split_and!; try done.
    intros i Hi. simpl. rewrite (in_array_len i a a0) by done. apply not_true_iff_false. intros Hin. apply Hd. split; [eauto|]. unfold moves. by rewrite Hi.
  - intros k. unfold look. simpl. destruct (int_key k) as [i|] eqn:Ei.
    2: { unfold hget. destruct (hkey k) as [k0|] eqn:Ek; [|done]. rewrite Hh; [done|]. unfold moves. by rewrite (int_key_canon k k0), Ei. }
    rewrite (in_array_len i a a0) by done. destruct (int_key_number k i Ei) as [_ [k0 Hk0]].
    pose proof (int_key_canon k k0 Hk0) as Hc. rewrite Ei in Hc.
    destruct (in_array i a0) eqn:Ea.
    + rewrite (moved_slot a0 (hash t) a h i k0); [|done|done|done|intros k' v' Hv'; by destruct (Ht k' v' Hv') as (_ & ? & _)|by apply (hkey_idem k)].
      apply in_array_spec in Ea. destruct (in_array i (array t)) eqn:Et.
      * apply in_array_spec in Et as Hlt. assert (hash t !! k0 = None) as ->.
        { destruct (hash t !! k0) eqn:E; [|done]. destruct (Ht _ _ E) as (_ & _ & _ & Hn). by rewrite (Hn i Hc) in Et. }
        unfold slot, a0. by rewrite lookup_app_l by lia.
      * unfold hget. rewrite Hk0. destruct (hash t !! k0) eqn:E; [done|]. simpl.
        assert (¬ (0 < i ≤ Z.of_nat (length (array t)))) by (rewrite <- in_array_spec; congruence).
        unfold a0. rewrite lookup_app_r by lia. destruct (replicate _ _ !! _) as [w|] eqn:Er; [|done].
        by apply lookup_replicate in Er as [-> _].
    + assert (in_array i (array t) = false) as ->.
      { apply not_true_iff_false. rewrite in_array_spec. apply not_true_iff_false in Ea. rewrite in_array_spec in Ea. unfold len_ in Hl. lia. }
      unfold hget. rewrite Hk0. rewrite Hh; [done|]. unfold moves. by rewrite Hc.
Qed.

(** ** Writing *)

(** [t'] is [t] with [v] under [k]. *)
Definition updated (k v : value) (t t' : table) : Prop :=
  table_ok t' ∧ (∀ k', look k' t' = if decide (hkey k' = hkey k) then v else look k' t) ∧
  (metaTable t', flags t', iterationKeys t') = (metaTable t, flags t, iterationKeys t).

Lemma updated_trans k v t t1 t2 : (∀ k', look k' t1 = look k' t) →
  (metaTable t1, flags t1, iterationKeys t1) = (metaTable t, flags t, iterationKeys t) → updated k v t1 t2 → updated k v t t2.
Proof. intros H1 H2 (H3 & H4 & H5). split; [done|]. split; [|congruence]. intros k'. by rewrite H4, H1. Qed.

(** A slot of the array. *)
Lemma array_updated k i v t : table_ok t → int_key k = Some i → in_array i (array t) = true →
  updated k v t (set_array (<[Z.to_nat (i - 1) := v]> (array t)) t).
Proof.
  intros Ht Hi Ha. split; [|split; [|done]].
  - intros k' v' H. destruct (Ht k' v' H) as (? & ? & ? & Hn). split_and!; try done.
    intros i' Hi'. simpl. rewrite (in_array_len i' _ (array t)) by apply length_insert. eauto.
  - intros k'. unfold look. simpl.
    destruct (int_key k') as [i'|] eqn:Ei'.
    + rewrite (in_array_len i' (<[_:=_]> _) (array t)) by apply length_insert.
      destruct (in_array i' (array t)) eqn:Ea'.
      * rewrite slot_insert by done. apply decide_ext. split; [intros <-; by eapply int_key_same|intros; by eapply int_key_diff].
      * rewrite decide_False; [done|]. intros H. rewrite (int_key_diff k' k i' i) in Ea' by done. congruence.
    + rewrite decide_False; [done|]. intros H. destruct (int_key_number k i Hi) as [_ [k0 Hk0]].
      rewrite <- (int_key_canon k' k0), (int_key_canon k k0) in Ei' by congruence. congruence.
Qed.

(** An entry of the map. *)
Lemma hash_updated k v t : table_ok t → is_Some (hkey k) → k ≠ VNil →
  (∀ i, int_key k = Some i → in_array i (array t) = false) → updated k v t (hash_put k v t).
Proof.
  intros Ht [k0 Hk0] Hnil Hno. destruct (hash_put_look k v t) as [Ha Hl]; [by eexists|]. split; [|split].
  - intros k' v' H. rewrite Ha. unfold hash_put, hset, hdel in H. rewrite Hk0 in H. destruct (is_nil v) eqn:Ev; simpl in H.
    + apply lookup_delete_Some in H as [_ H]. by apply Ht.
    + apply lookup_insert_Some in H as [[<- <-]|[_ H]]; [|by apply Ht]. split; [by destruct v|].
      split; [by apply (hkey_idem k)|]. rewrite (int_key_canon k k0) by done. split; [|done].
      intros ->. by destruct k as [| |[]| | | | | | | |].
  - intros k'. unfold look. rewrite Ha, Hl. destruct (int_key k') as [i'|] eqn:Ei'; [|by case_decide].
    case_match eqn:Ea; [|by case_decide]. rewrite decide_False; [done|]. intros H.
    destruct (int_key k) as [i|] eqn:Ei.
    + rewrite (int_key_diff k' k i' i) in Ea by done. rewrite Hno in Ea; done.
    + rewrite <- (int_key_canon k k0), (int_key_canon k' k0) in Ei by congruence. congruence.
  - unfold hash_put. by case_match.
Qed.

Lemma occupancy_nonneg key t : 0 ≤ occupancy key t.
Proof. unfold occupancy. pose proof (countb_nonneg (λ v, negb (is_nil v)) (array t)). pose proof (countb_nonneg (λ kv, occupied key kv.1 kv.2) (map_to_list (hash t))). lia. Qed.

Lemma putAtInt_updated k i v t : table_ok t → int_key k = Some i → ∃ t', putAtInt i v t = Ok t' ∧ updated k v t t'.
Proof.
  intros Ht Hi. destruct (int_key_number k i Hi) as [He [k0 Hk0]]. unfold putAtInt.
  destruct (in_array i (array t)) eqn:Ea.
  { rewrite slice_put_slot by done. eexists; split; [done|]. by apply array_updated. }
  assert ((if is_nil v then set_hash (hdel (hash t) (VNumber (float_of_int i))) t
           else set_hash (hset (hash t) (VNumber (float_of_int i)) v) t) = hash_put k v t) as ->.
  { unfold hash_put, hset, hdel. by rewrite <- He. }
  assert (updated k v t (hash_put k v t)) as Hup.
  { apply hash_updated; [done|by eexists|by intros ->|]. intros j Hj. congruence. }
  destruct ((0 <? i) && negb (is_nil v)) eqn:Ec; [|eauto].
  unfold maybeResizeArray. case_match; [|eexists; split; [done|done]].
  assert (¬ (0 < i ≤ len_ t)) as Hout by (unfold len_; rewrite <- in_array_spec; congruence).
  apply andb_prop in Ec as [Ec _]. apply Z.ltb_lt in Ec.
  destruct (extendArray_look (Z.max (occupancy i t * 2) i) t Ht) as (t1 & -> & Ht1 & Hlen & Hlk & Hrest).
  { lia. }
  cbn [mbind outcome_bind].
  assert (in_array i (array t1) = true) as Ha1 by (apply in_array_spec; unfold len_ in Hlen; lia).
  rewrite slice_put_slot by done. eexists; split; [done|].
  eapply updated_trans; [done|done|]. by apply array_updated.
Qed.

Lemma put_updated k v t : table_ok t → is_Some (hkey k) → k ≠ VNil → ∃ t', put_ k v t = Ok t' ∧ updated k v t t'.
Proof.
  intros Ht Hk Hn. unfold put_. destruct k as [| |f| | | | | | | |]; try done.
  2: { destruct (int_key (VNumber f)) as [i|] eqn:Ei; [by apply putAtInt_updated|].
       destruct f; try (by destruct Hk). all: eexists; split; [done|]; apply hash_updated; try done; intros i Hi; congruence. }
  all: eexists; split; [done|]; by apply hash_updated.
Qed.

Lemma put_refused k v t : hkey k = None ∨ k = VNil → ∃ e, put_ k v t = Err e.
Proof. intros [H| ->]; [|by eexists]. destruct k as [| |[]| | | | | | | |]; try done. by eexists. Qed.

Lemma try_hash_updated k v t : table_ok t → is_Some (hkey k) → k ≠ VNil →
  (∀ i, int_key k = Some i → in_array i (array t) = false) →
  match try_hash k v t with
  | Some t' => look k t ≠ VNil ∧ updated k v t t'
  | None => look k t = VNil ∨ v = VNil
  end.
Proof.
  intros Ht Hk Hn Hno. assert (look k t = hget (hash t) k) as ->.
  { unfold look. destruct (int_key k); [|done]. by rewrite Hno. }
  unfold try_hash. destruct (is_nil (hget _ _)) eqn:E; simpl; [left; by destruct (hget _ _)|].
  destruct (is_nil v) eqn:Ev; simpl; [right; by destruct v|]. split; [by intros H; rewrite H in E|].
  pose proof (hash_updated k v t Ht Hk Hn Hno) as Hu. unfold hash_put in Hu. by rewrite Ev in Hu.
Qed.

Lemma try_hash_slot k v t i : table_ok t → int_key k = Some i → in_array i (array t) = true → try_hash k v t = None.
Proof.
  intros Ht Hi Ha. unfold try_hash, hget. destruct (int_key_number k i Hi) as [_ [k0 Hk0]]. rewrite Hk0.
  destruct (hash t !! k0) eqn:E; [|done]. destruct (Ht _ _ E) as (_ & _ & _ & Hn).
  rewrite (Hn i) in Ha; [done|]. by rewrite (int_key_canon k k0).
Qed.

Lemma tryPut_updated k v t : table_ok t → ∃ r, tryPut k v t = Ok r ∧
  match r with
  | Some t' => look k t ≠ VNil ∧ updated k v t t'
  | None => look k t = VNil ∨ v = VNil
  end.
Proof.
  intros Ht. assert (k = VNil ∨ hkey k = None ∨ (is_Some (hkey k) ∧ k ≠ VNil)) as [->|[Hk|[Hk Hn]]].
  { destruct (decide (k = VNil)); [by left|]. destruct (hkey k); [right; right; split; [by eexists|done]|by right; left]. }
  { exists None. split; [done|left; by apply hget_nil_key]. }
  { destruct k as [| |[]| | | | | | | |]; try done. exists None. by split; [|left]. }
  destruct (int_key k) as [i|] eqn:Ei.
  - destruct (in_array i (array t)) eqn:Ea.
    + assert (look k t = slot i (array t)) as Hlk by (unfold look; by rewrite Ei, Ea).
      pose proof (try_hash_slot k v t i Ht Ei Ea) as Hth.
      destruct k as [| |f| | | | | | | |]; try done. unfold tryPut. rewrite Ei, Ea, slice_slot by done. cbn [mbind outcome_bind].
      destruct (is_nil (slot i (array t))) eqn:E.
      * eexists; split; [done|]. rewrite Hth, Hlk. left. by destruct (slot i (array t)).
      * rewrite slice_put_slot by done. eexists; split; [done|]. split; [rewrite Hlk; by intros H; rewrite H in E|by apply array_updated].
    + exists (try_hash k v t). split; [|apply try_hash_updated; [done..|intros j Hj; congruence]].
      destruct k as [| |f| | | | | | | |]; try done. unfold tryPut. by rewrite Ei, Ea.
  - exists (try_hash k v t). split; [|apply try_hash_updated; [done..|intros j Hj; congruence]].
    destruct k as [| |f| | | | | | | |]; try done. unfold tryPut. rewrite Ei. destruct f; try done.
Qed.

(** C32: a table is a map.  Reading any key of a table that the operations have made never
    fails; [put_] refuses nil and NaN, and otherwise changes the value of its key (and of
    the keys that Go takes for equal) and of no other, whether the entry goes to the array,
    to the map, or makes the array grow and draw entries out of the map; [tryPut] does the
    same where it succeeds, which it does exactly for a key that has a value, but for
    writing nil to the map. *)
Theorem table_is_map :
  table_ok newTable ∧ (∀ a h, table_ok (newTableWithSize a h) ∧ ∀ k, look k (newTableWithSize a h) = VNil) ∧
  ∀ t, table_ok t →
    (∀ k, at_ k t = Ok (look k t)) ∧
    (∀ k v, hkey k = None ∨ k = VNil → ∃ e, put_ k v t = Err e) ∧
    (∀ k v, is_Some (hkey k) → k ≠ VNil → ∃ t', put_ k v t = Ok t' ∧ updated k v t t') ∧
    (∀ k v, ∃ r, tryPut k v t = Ok r ∧
      match r with
      | Some t' => look k t ≠ VNil ∧ updated k v t t'
      | None => look k t = VNil ∨ v = VNil
      end).
Proof.
  split; [done|]. split.
  { intros a h. split; [done|]. intros k. unfold look, newTableWithSize. simpl.
    assert (hget ∅ k = VNil) as -> by (unfold hget; by destruct (hkey k)).
    destruct (int_key k); [|done]. case_match; [|done]. unfold slot.
    destruct (_ !! _) as [x|] eqn:E; [|done]. destruct (0 <? a); [|done]. by apply lookup_replicate in E as [-> _]. }
  intros t Ht. split; [intros; by apply at_look|]. split; [intros; by apply put_refused|].
  split; [intros; by apply put_updated|intros; by apply tryPut_updated].
Qed.

Lemma table_is_map_witness :
  ∃ t, put_ (VNumber (float_of_int 1)) (VBool true) newTable = Ok t ∧ at_ (VNumber (float_of_int 1)) t = Ok (VBool true) ∧
    at_ (VNumber (S754_zero true)) t = Ok VNil.
Proof.
  destruct table_is_map as (Hok & _ & H). destruct (H newTable Hok) as (_ & _ & Hput & _).
  destruct (Hput (VNumber (float_of_int 1)) (VBool true)) as (t & Ht & Hok' & Hl & _); [by vm_compute; eexists|done|].
  exists t. destruct (H t Hok') as (Hat & _). split; [done|]. rewrite !Hat, !Hl. by vm_compute.
Defined.
