(* ===== verification/LuaLength.v ===== *)
(** * Length and traversal of tables of Lua

    [length_] finds a border: an index with a value whose successor has none.  The theorem
    is for integer keys below [2^52]; with larger ones the search overflows, and there is
    a table whose length is negative.  [next_] walks the array, and the map only when the
    array holds nothing. *)
From Stdlib Require Import ZArith Lia.
From stdpp Require Import base option list strings gmap.
From S2P Require Import Prelude GoNum FloatFacts LuaTable LuaTableProps.
From Stdlib Require Import SpecFloat.

Definition num (n : Z) : value := VNumber (float_of_int n).

Lemma feq_refl f : f ≠ S754_nan → feq f f = true.
Proof.
  unfold feq, SFeqb. destruct f as [s|s| |s m e]; try done; intros _; simpl; try by destruct s.
  rewrite Z.compare_refl. fold (Pos.compare m m). rewrite Pos.compare_refl. by destruct s.
Qed.

Lemma float_of_int_not_nan n : 0 ≤ n < 2 ^ 53 → float_of_int n ≠ S754_nan.
Proof.
  intros Hn. destruct n as [|p|p]; [done| |lia].
  destruct (float_of_int_pos p _ eq_refl ltac:(apply digits2_pos_le; lia)) as (m & -> & _). done.
Qed.

Lemma int_key_num n : 0 ≤ n < 2 ^ 53 → int_key (num n) = Some n.
Proof.
  intros Hn. unfold num, int_key. rewrite float_int_roundtrip by done.
  by rewrite feq_refl by by apply float_of_int_not_nan.
Qed.

(** Integer keys are small enough for the search. *)
Definition small (t : table) : Prop :=
  len_ t < 2 ^ 52 ∧ ∀ k v i, hash t !! k = Some v → int_key k = Some i → i < 2 ^ 52.

Lemma atInt_num n t : 0 ≤ n < 2 ^ 53 → atInt n t = Ok (look (num n) t).
Proof.
  intros Hn. unfold atInt, look. rewrite int_key_num by done. destruct (in_array n (array t)) eqn:E; [by apply slice_slot|done].
Qed.

Lemma look_large n t : small t → 2 ^ 52 ≤ n < 2 ^ 53 → look (num n) t = VNil.
Proof.
  intros [Hl Hs] Hn. unfold look. rewrite int_key_num by lia.
  assert (in_array n (array t) = false) as -> by (unfold in_array, len_ in *; lia).
  pose proof (int_key_num n ltac:(lia)) as Hi. destruct (int_key_number _ _ Hi) as [_ [k0 Hk0]].
  unfold hget. rewrite Hk0. destruct (hash t !! k0) as [v|] eqn:E; [|done].
  pose proof (Hs k0 v n E ltac:(by rewrite (int_key_canon _ _ Hk0))). lia.
Qed.

Lemma atInt_nil_num n t : 0 ≤ n < 2 ^ 53 → atInt_nil t n = Ok (is_nil (look (num n) t)).
Proof. intros Hn. unfold atInt_nil. by rewrite atInt_num. Qed.

Lemma is_nil_true v : is_nil v = true ↔ v = VNil.
Proof. by destruct v. Qed.
Lemma is_nil_false v : is_nil v = false ↔ v ≠ VNil.
Proof. by destruct v. Qed.

Lemma halve_S n empty i j : halve (S n) empty i j =
  if 1 <? int64_of (j - i) then e ← empty (Z.quot (int64_of (i + j)) 2);
    if (e : bool) then halve n empty i (Z.quot (int64_of (i + j)) 2) else halve n empty (Z.quot (int64_of (i + j)) 2) j
  else Ok i.
Proof. done. Qed.

Lemma grow_search_S n t i j : grow_search (S n) t i j =
  v ← atInt j t; if is_nil v then halve 65 (atInt_nil t) i j
    else if int64_of (j * 2) <? 0 then linear (S (entries t)) t 1 else grow_search n t j (int64_of (j * 2)).
Proof. done. Qed.

(** The bisection finds two neighbours. *)
Lemma halve_spec n empty (e : Z → bool) i j : (∀ m, i < m < j → empty m = Ok (e m)) →
  0 ≤ i < j → j < 2 ^ 62 → j - i ≤ 2 ^ Z.of_nat n →
  ∃ r, halve (S n) empty i j = Ok r ∧ i ≤ r < j ∧ (r = i ∨ e r = false) ∧ (r + 1 = j ∨ e (r + 1) = true).
Proof.
  revert i j. induction n as [|n IH]; intros i j He Hij Hj Hn; rewrite halve_S.
  - change (2 ^ Z.of_nat 0) with 1 in Hn. rewrite int64_id by (unfold is_int64; lia).
    assert ((1 <? j - i) = false) as -> by lia. exists i. split; [done|lia].
  - rewrite (int64_id (j - i)) by (unfold is_int64; lia). destruct (Z.ltb_spec 1 (j - i)) as [H|H]; [|exists i; split; [done|lia]].
    rewrite (int64_id (i + j)) by (unfold is_int64; lia). rewrite Nat2Z.inj_succ, Z.pow_succ_r in Hn by lia.
    set (m := Z.quot (i + j) 2). assert (i < m < j ∧ 2 * m ≤ i + j < 2 * m + 2) as [Hm Hm2] by (unfold m; div_lia).
    rewrite He by done. cbn [mbind outcome_bind]. destruct (e m) eqn:Em.
    + destruct (IH i m) as (r & Hr & H1 & H2 & H3); [intros; apply He; lia|lia..|].
      exists r. split; [done|]. split; [lia|]. split; [done|]. right. by destruct H3 as [->|].
    + destruct (IH m j) as (r & Hr & H1 & H2 & H3); [intros; apply He; lia|lia..|].
      exists r. split; [done|]. split; [lia|]. split; [|done]. right. by destruct H2 as [->|].
Qed.

(** A border: nothing follows [n], which has a value or is 0. *)
Definition border (n : Z) (t : table) : Prop :=
  0 ≤ n < 2 ^ 53 ∧ (n = 0 ∨ look (num n) t ≠ VNil) ∧ look (num (n + 1)) t = VNil.

Lemma grow_border n t i j : small t → 0 ≤ i < j → j < 2 ^ 53 → 2 ^ 52 ≤ j * 2 ^ Z.of_nat n → (i = 0 ∨ look (num i) t ≠ VNil) →
  ∃ r, grow_search (S n) t i j = Ok r ∧ border r t.
Proof.
  intros Hs. revert i j. induction n as [|n IH]; intros i j Hij Hj Hn Hi.
  all: rewrite grow_search_S, atInt_num by lia; cbn [mbind outcome_bind].
  all: assert (is_nil (look (num j) t) = true →
    ∃ r, halve 65 (atInt_nil t) i j = Ok r ∧ border r t) as Hh
    by (intros Hnil; destruct (halve_spec 64 (atInt_nil t) (λ m, is_nil (look (num m) t)) i j) as (r & -> & H1 & H2 & H3);
        [intros; apply atInt_nil_num; lia|lia..|]; exists r; split; [done|]; split; [lia|];
        split; [destruct H2 as [->|H2%is_nil_false]; tauto|]; by destruct H3 as [->|H3]; apply is_nil_true).
  - change (2 ^ Z.of_nat 0) with 1 in Hn. assert (is_nil (look (num j) t) = true) as E by (rewrite look_large by (try done; lia); done).
    rewrite E. by apply Hh.
  - destruct (is_nil (look (num j) t)) eqn:E; [by apply Hh|]. clear Hh. apply is_nil_false in E.
    assert (j < 2 ^ 52) as Hlt. { destruct (Z.lt_ge_cases j (2 ^ 52)); [done|]. by rewrite look_large in E by (try done; lia). }
    rewrite int64_id by (unfold is_int64; lia). assert ((j * 2 <? 0) = false) as -> by lia.
    apply IH; [lia..| |by right]. rewrite Nat2Z.inj_succ, Z.pow_succ_r in Hn by lia. lia.
Qed.

Lemma look_array i t : in_array i (array t) = true → len_ t < 2 ^ 52 → look (num i) t = slot i (array t).
Proof. intros Ha Hl. apply in_array_spec in Ha as Hi. unfold look, len_ in *. rewrite int_key_num by lia. by rewrite Ha. Qed.

Lemma length_border t : small t → ∃ n, length_ t = Ok n ∧ border n t.
Proof.
  intros Hs. assert (Hl := proj1 Hs). unfold length_. destruct (Z.ltb_spec 0 (len_ t)) as [H0|H0].
  - assert (in_array (len_ t) (array t) = true) as Ha by (apply in_array_spec; unfold len_ in *; lia).
    rewrite (slice_slot _ _ Ha). cbn [mbind outcome_bind]. pose proof (look_array _ _ Ha Hl) as Hlk.
    destruct (is_nil _) eqn:E.
    + apply is_nil_true in E.
      destruct (halve_spec 64 (array_nil t) (λ m, is_nil (look (num m) t)) 0 (len_ t)) as (r & -> & H1 & H2 & H3); [|lia..|].
      { intros m Hm. unfold array_nil. assert (in_array m (array t) = true) as Hm' by (apply in_array_spec; unfold len_ in *; lia).
        rewrite slice_slot, look_array by done. done. }
      exists r. split; [done|]. split; [lia|]. split; [destruct H2 as [->|?%is_nil_false]; tauto|].
      destruct H3 as [->|?%is_nil_true]; [congruence|done].
    + apply is_nil_false in E. unfold unboundSearch. rewrite int64_id by (unfold is_int64; lia).
      apply (grow_border 64); [done|lia|lia|lia|]. right. congruence.
  - assert (len_ t = 0) as -> by (unfold len_ in *; lia). cbn [mbind outcome_bind]. unfold unboundSearch.
    apply (grow_border 64); [done|by vm_compute|by vm_compute|by vm_compute|by left].
Qed.

(** The length of a table whose integer keys are below [2^52] is a border: its index has
    a value, or it is 0, and the next index has none.  The search ends and stays in the
    integers; for a sequence, a table whose values are at [1..m], the length is [m]. *)
Theorem length_is_border t : small t →
  ∃ n, length_ t = Ok n ∧ border n t ∧
    ∀ m, 0 ≤ m < 2 ^ 53 → (∀ i, 0 < i ≤ m → look (num i) t ≠ VNil) → (∀ i, m < i ≤ 2 ^ 53 → look (num i) t = VNil) → n = m.
Proof.
  intros Hs. destruct (length_border t Hs) as (n & Hn & Hb). exists n. split; [done|]. split; [done|].
  intros m Hm Hin Hout. destruct Hb as (H1 & H2 & H3). destruct (Z.lt_trichotomy n m) as [H|[H|H]]; [|done|].
  - by destruct (Hin (n + 1)); [lia|].
  - destruct H2 as [->|H2]; [lia|]. destruct H2. apply Hout. lia.
Qed.

Lemma length_is_border_witness :
  let t := mkTable [VBool true; VNil; VBool true; VNil] {[VNumber (float_of_int 9) := VBool true]} None 0 None in
  small t ∧ ∃ n, length_ t = Ok n ∧ border n t.
Proof.
  intros t. assert (small t) as Hs.
  { split; [by vm_compute|]. intros k v i H Hi. simpl in H. apply lookup_singleton_Some in H as [<- _].
    change (int_key (num 9) = Some i) in Hi. rewrite (int_key_num 9) in Hi by lia. injection Hi as <-. lia. }
  split; [done|]. destruct (length_is_border t Hs) as (n & ? & ? & _). eauto.
Defined.

(** ** The search overflows *)

Fixpoint put_all (l : list (value * value)) (t : table) : outcome table :=
  match l with [] => Ok t | (k, v) :: l => t ← put_ k v t; put_all l t end.

(** [t[3 * 2^k] = true] for k = 0 .. 60, [t[-7 * 2^59] = true], [t[1] = true], [t[2] = true]. *)
Definition doubling_keys : list Z :=
  map (λ k, 3 * 2 ^ Z.of_nat k) (seq 0 61) ++ [-7 * 2 ^ 59; 1; 2].

(** With these 64 entries the midpoint of the search overflows, and the length that a
    script reads is negative. *)
Theorem length_negative :
  (t ← put_all (map (λ i, (num i, VBool true)) doubling_keys) newTable; length_ t) = Ok (-7 * 2 ^ 59).
Proof. by vm_compute. Qed.

(** ** Traversal *)

(** A loop of [next_] from [k] on: the pairs that it yields. *)
Fixpoint traverse (fuel : nat) (eqo : value → value → outcome bool) (order : gmap value value → list value) (k : value) (t : table)
    : outcome (list (value * value)) :=
  match fuel with
  | O => out_of_fuel
  | S n =>
      r ← next_ eqo order k t;
      match r with
      | (None, _) => Ok []
      | (Some kv, t) => l ← traverse n eqo order kv.1 t; Ok (kv :: l)
      end
  end.

(** The values of the array with their indices, from [i] on. *)
Fixpoint array_items (i : Z) (a : list value) : list (value * value) :=
  match a with
  | [] => []
  | v :: a => if is_nil v then array_items (i + 1) a else (num i, v) :: array_items (i + 1) a
  end.

Lemma first_slot_items i a :
  match first_slot i a with
  | Some (j, v) => ∃ n, j = i + Z.of_nat n ∧ (n < length a)%nat ∧ v ≠ VNil ∧
      array_items (i + 1) a = (num (j + 1), v) :: array_items (j + 2) (drop (S n) a)
  | None => array_items (i + 1) a = []
  end.
Proof.
  revert i. induction a as [|v a IH]; intros i; [done|]. simpl. destruct (is_nil v) eqn:E.
  - specialize (IH (i + 1)). destruct (first_slot (i + 1) a) as [[j w]|]; [|done].
    destruct IH as (n & -> & Hn & Hw & He). exists (S n). split; [lia|]. split; [simpl; lia|]. split; [done|]. done.
  - exists 0%nat. split; [lia|]. split; [lia|]. split; [by destruct v|]. rewrite drop_0. f_equal. f_equal. lia.
Qed.

Section walk.
Context (eqo : value → value → outcome bool) (order : gmap value value → list value) (t0 : table).
Context (Hok : table_ok t0) (Hlen : len_ t0 < 2 ^ 52).
Context (Heq : ∀ k k', eqo k k' = Ok (bool_decide (hkey k = hkey k'))).
Context (Horder : order (hash t0) ≡ₚ map fst (map_to_list (hash t0))).

Lemma order_key k : k ∈ order (hash t0) ↔ is_Some (hash t0 !! k).
Proof.
  rewrite Horder. rewrite list_elem_of_fmap. split.
  - intros ([k' v] & -> & H%elem_of_map_to_list). by eexists.
  - intros [v H]. exists (k, v). split; [done|]. by apply elem_of_map_to_list.
Qed.

Lemma order_nodup : NoDup (order (hash t0)).
Proof. rewrite Horder. apply NoDup_fst_map_to_list. Qed.

(** The table during the loop. *)
Definition walking (t : table) : Prop := array t = array t0 ∧ hash t = hash t0.

Lemma next_key_hit k pre post : k ∉ pre → is_Some (hash t0 !! k) → (∀ x, x ∈ pre ++ k :: post → is_Some (hash t0 !! x)) →
  next_key eqo k false (pre ++ k :: post) = Ok (head post).
Proof.
  intros Hk Hin Hall. induction pre as [|x pre IH]; simpl; rewrite Heq; cbn [mbind outcome_bind].
  - rewrite bool_decide_eq_true_2 by done. by destruct post.
  - rewrite bool_decide_eq_false_2; [apply IH; set_solver|]. destruct Hin as [v Hv]. destruct (Hall x) as [w Hw]; [set_solver|].
    destruct (Hok _ _ Hv) as (_ & -> & _), (Hok _ _ Hw) as (_ & -> & _). set_solver.
Qed.

Lemma next_key_miss i keys : in_array i (array t0) = true → (∀ x, x ∈ keys → is_Some (hash t0 !! x)) →
  next_key eqo (num i) false keys = Ok None.
Proof.
  intros Hi Hall. induction keys as [|x keys IH]; [done|]. simpl. rewrite Heq. cbn [mbind outcome_bind].
  rewrite bool_decide_eq_false_2; [apply IH; set_solver|]. destruct (Hall x) as [w Hw]; [set_solver|].
  destruct (Hok _ _ Hw) as (_ & Hx & _ & Hn). intros He. apply in_array_spec in Hi as Hr.
  pose proof (int_key_num i ltac:(unfold len_ in Hlen; lia)) as Hk. rewrite (Hn i) in Hi; [done|].
  rewrite (int_key_canon (num i) x) by congruence. done.
Qed.

Lemma walk_array n i t : walking t → 0 < i ≤ len_ t0 → (length (array t0) - Z.to_nat i < n)%nat →
  (∀ l, iterationKeys t = Some l → ∀ x, x ∈ l → is_Some (hash t0 !! x)) →
  traverse n eqo order (num i) t = Ok (array_items (i + 1) (drop (Z.to_nat i) (array t0))).
Proof.
  revert i t. induction n as [|n IH]; intros i t [Ha Hh] Hi Hn Hkeys; [lia|]. cbn [traverse].
  assert (in_array i (array t0) = true) as Hin by (apply in_array_spec; unfold len_ in *; lia).
  unfold next_, next_start. cbn [is_nil num]. assert (arrayIndex (num i) = i) as Hai by (unfold arrayIndex; rewrite int_key_num by lia; done).
  change (VNumber (float_of_int i)) with (num i). rewrite Hai, Ha, Hh, Hin. cbn [mbind outcome_bind].
  pose proof (first_slot_items i (drop (Z.to_nat i) (array t0))) as Hf.
  destruct (first_slot i _) as [[j v]|] eqn:Ef.
  - destruct Hf as (m & -> & Hm & Hv & ->). change (VNumber (float_of_int ?x)) with (num x). cbn [mbind outcome_bind fst].
    rewrite length_drop in Hm. unfold len_ in *. rewrite (IH (i + Z.of_nat m + 1)) by (try done; lia). cbn [mbind outcome_bind].
    do 3 f_equal; [lia|]. rewrite drop_drop. f_equal. lia.
  - rewrite next_key_miss; [cbn [mbind outcome_bind]; by rewrite Hf|done|].
    intros x Hx. destruct (iterationKeys t) as [l|] eqn:El; [by eapply Hkeys|by apply order_key].
Qed.

Lemma walk_hash n k pre post t : walking t → iterationKeys t = Some (pre ++ k :: post) → order (hash t0) = pre ++ k :: post →
  (length post < n)%nat → traverse n eqo order k t = Ok (map (λ k, (k, hget (hash t0) k)) post).
Proof.
  revert k pre post t. induction n as [|n IH]; intros k pre post t [Ha Hh] Hk Hord Hn; [lia|]. cbn [traverse].
  assert (∀ x, x ∈ pre ++ k :: post → is_Some (hash t0 !! x)) as Hall by (intros x; rewrite <- Hord; apply order_key).
  destruct (Hall k ltac:(set_solver)) as [v Hv]. destruct (Hok _ _ Hv) as (_ & Hkk & Hnil & Hno).
  unfold next_, next_start. assert (is_nil k = false) as -> by by apply is_nil_false.
  assert (in_array (arrayIndex k) (array t) = false) as ->.
  { unfold arrayIndex. rewrite Ha. destruct (int_key k) eqn:E; [by apply Hno|done]. }
  rewrite Hkk, Hh. cbn [mbind option_bind]. rewrite bool_decide_eq_true_2 by (rewrite Hv; by eexists). cbn [mbind outcome_bind].
  unfold len_. rewrite drop_ge by lia. cbn [first_slot]. rewrite Hk. pose proof order_nodup as Hnd. rewrite Hord in Hnd.
  apply NoDup_app in Hnd as (_ & Hd & _). rewrite next_key_hit; [|by intros H; apply (Hd k H); left|by eexists|done].
  cbn [mbind outcome_bind]. destruct post as [|k' post]; [done|]. cbn [head map mbind outcome_bind fst].
  rewrite (IH k' (pre ++ [k]) post); [cbn [mbind outcome_bind]; by rewrite <- Hh|done|by rewrite <- app_assoc|by rewrite <- app_assoc|simpl in Hn; lia].
Qed.

Lemma walk_all n t : walking t → (entries t0 + 1 < n)%nat →
  traverse n eqo order VNil t =
    Ok (match array_items 1 (array t0) with [] => map (λ k, (k, hget (hash t0) k)) (order (hash t0)) | l => l end).
Proof.
  intros [Ha Hh] Hn. destruct n as [|n]; [lia|]. cbn [traverse]. unfold next_, next_start. cbn [is_nil mbind outcome_bind].
  unfold set_keys. cbn [array hash metaTable flags iterationKeys]. rewrite Ha, Hh. change (drop (Z.to_nat 0) (array t0)) with (array t0).
  pose proof (first_slot_items 0 (array t0)) as Hf. change (0 + 1) with 1 in Hf. destruct (first_slot 0 _) as [[j v]|] eqn:Ef.
  - destruct Hf as (m & -> & Hm & Hv & ->). change (VNumber (float_of_int ?x)) with (num x). cbn [mbind outcome_bind fst].
    rewrite walk_array; [|done|unfold len_; lia|unfold entries in Hn; lia|done]. cbn [mbind outcome_bind]. do 3 f_equal; [lia|]. f_equal. lia.
  - rewrite Hf. assert (length (order (hash t0)) = size (hash t0)) as Hsz by (rewrite Horder, length_map; apply length_map_to_list).
    assert (∃ o, order (hash t0) = o) as [o Eo] by eauto. rewrite Eo in Hsz |- *. destruct o as [|k post]; [done|]. cbn [next_key mbind outcome_bind map fst].
    rewrite (walk_hash n k [] post); [done|done|done|done|unfold entries in Hn; simpl in Hsz; lia].
Qed.
End walk.

(** What a loop of [next] over an unchanged table yields, for every order in which Go may
    walk the map: the values of the array in order; and the entries of the map, each once,
    only if the array holds no value at all.  As soon as it holds one, the loop ends after
    the array, and the entries of the map are never reached. *)
Theorem traversal eqo order t : table_ok t → len_ t < 2 ^ 52 →
  (∀ k k', eqo k k' = Ok (bool_decide (hkey k = hkey k'))) → order (hash t) ≡ₚ map fst (map_to_list (hash t)) →
  traverse (entries t + 2) eqo order VNil t =
    Ok (match array_items 1 (array t) with [] => map (λ k, (k, hget (hash t) k)) (order (hash t)) | l => l end) ∧
  (array_items 1 (array t) = [] → map (λ k, (k, hget (hash t) k)) (order (hash t)) ≡ₚ map_to_list (hash t)).
Proof.
  intros Ht Hl He Ho. split; [apply (walk_all eqo order t Ht Hl He Ho); [done|lia]|]. intros _. rewrite Ho, map_map.
  rewrite (map_ext_in _ id); [by rewrite map_id|]. intros [k v] Hin%list_elem_of_In%elem_of_map_to_list. simpl. unfold hget.
  destruct (Ht _ _ Hin) as (_ & -> & _). by rewrite Hin.
Qed.

(** The entry under ["x"] of [{true, x = true}] is not reached. *)
Lemma traversal_witness :
  let t := mkTable [VBool true] {[VString "x" := VBool true]} None 0 None in
  let eqo := λ k k', Ok (bool_decide (hkey k = hkey k')) in
  let order := λ h : gmap value value, map fst (map_to_list h) in
  table_ok t ∧ traverse (entries t + 2) eqo order VNil t = Ok [(num 1, VBool true)].
Proof.
  intros t eqo order. assert (table_ok t) as Ht.
  { intros k v H. simpl in H. apply lookup_singleton_Some in H as [<- <-]. by split_and!. }
  split; [done|]. destruct (traversal eqo order t Ht) as [H _]; [by vm_compute|done|done|]. exact H.
Defined.
