(* ===== verification/LuaScan.v ===== *)
(** * The scanner of Lua (Shopify/go-lua/scanner.go)

    A [scanner] reads bytes, keeps the current one as a rune (-1 at the end of the stream,
    0 before the first), collects a lexical element in its buffer, and makes one token per
    call of [scan].  An error is what [scanError] throws, the message that it pushes.  Each
    loop has fuel; an iteration reads a byte, so that the number of bytes left and one more
    is enough. *)
From Stdlib Require Import ZArith Lia Ascii.
From stdpp Require Import base option list strings.
From S2P Require Import Prelude GoNum GoFmt Strconv.
From Stdlib Require Import SpecFloat.

Definition firstReserved : Z := 257.
Definition endOfStream : Z := -1.
Definition maxInt : Z := 2 ^ 63 - 1.

Definition tkAnd : Z := 257.
Definition tkBreak : Z := 258.
Definition tkDo : Z := 259.
Definition tkElse : Z := 260.
Definition tkElseif : Z := 261.
Definition tkEnd : Z := 262.
Definition tkFalse : Z := 263.
Definition tkFor : Z := 264.
Definition tkFunction : Z := 265.
Definition tkGoto : Z := 266.
Definition tkIf : Z := 267.
Definition tkIn : Z := 268.
Definition tkLocal : Z := 269.
Definition tkNil : Z := 270.
Definition tkNot : Z := 271.
Definition tkOr : Z := 272.
Definition tkRepeat : Z := 273.
Definition tkReturn : Z := 274.
Definition tkThen : Z := 275.
Definition tkTrue : Z := 276.
Definition tkUntil : Z := 277.
Definition tkWhile : Z := 278.
Definition tkConcat : Z := 279.
Definition tkDots : Z := 280.
Definition tkEq : Z := 281.
Definition tkGE : Z := 282.
Definition tkLE : Z := 283.
Definition tkNE : Z := 284.
Definition tkDoubleColon : Z := 285.
Definition tkEOS : Z := 286.
Definition tkNumber : Z := 287.
Definition tkName : Z := 288.
Definition tkString : Z := 289.
Definition reservedCount : Z := tkWhile - firstReserved + 1.

Definition tokens : list string :=
  ["and"; "break"; "do"; "else"; "elseif";
   "end"; "false"; "for"; "function"; "goto"; "if";
   "in"; "local"; "nil"; "not"; "or"; "repeat";
   "return"; "then"; "true"; "until"; "while";
   ".."; "..."; "=="; ">="; "<="; "~="; "::"; "<eof>";
   "<number>"; "<name>"; "<string>"]%string.

(** A token: its kind, a number, a text. *)
Record token := mkToken { tk_t : Z; tk_n : float64; tk_s : bytes }.
Definition fzero : float64 := S754_zero false.
Definition plain (t : Z) : token := mkToken t fzero [].

Record scanner := mkScanner {
  input : bytes;                 (** what is left to read *)
  current : Z;
  sbuf : bytes;                  (** [buffer] *)
  lineNumber : Z;
  lastLine : Z;
  source : string;
  lookAheadToken : token;
  curToken : token               (** the embedded [token] *)
}.

Definition set_input (i : bytes) (c : Z) (s : scanner) : scanner :=
  mkScanner i c (sbuf s) (lineNumber s) (lastLine s) (source s) (lookAheadToken s) (curToken s).
Definition set_sbuf (b : bytes) (s : scanner) : scanner :=
  mkScanner (input s) (current s) b (lineNumber s) (lastLine s) (source s) (lookAheadToken s) (curToken s).
Definition set_lines (n l : Z) (s : scanner) : scanner :=
  mkScanner (input s) (current s) (sbuf s) n l (source s) (lookAheadToken s) (curToken s).
Definition set_tokens (look tok : token) (s : scanner) : scanner :=
  mkScanner (input s) (current s) (sbuf s) (lineNumber s) (lastLine s) (source s) look tok.

(** ** Scanning actions: they read and change the scanner, or fail *)

Definition scanning (A : Type) : Type := scanner → outcome (A * scanner).
#[export] Instance scanning_ret : MRet scanning := λ A a s, Ok (a, s).
#[export] Instance scanning_bind : MBind scanning := λ A B f m s, '(a, s) ← m s; f a s.

Definition get_ {A} (f : scanner → A) : scanning A := λ s, Ok (f s, s).
Definition modify (f : scanner → scanner) : scanning unit := λ s, Ok ((), f s).
Definition lift {A} (o : outcome A) : scanning A := λ s, a ← o; Ok (a, s).
Definition no_fuel {A} : scanning A := λ _, Panic "out of fuel".

Definition byte_rune (c : ascii) : Z := Z.of_N (N_of_ascii c).
(** [byte(r)]. *)
Definition rune_byte (r : Z) : ascii := ascii_of_N (Z.to_N (r mod 256)).

Definition isNewLine (c : Z) : bool := (c =? 10) || (c =? 13).
Definition isDecimal (c : Z) : bool := (48 <=? c) && (c <=? 57).
Definition isHexadecimal (c : Z) : bool :=
  isDecimal c || ((97 <=? c) && (c <=? 102)) || ((65 <=? c) && (c <=? 70)).
(** [unicode.IsDigit], [IsLetter] and [IsSpace] for the bytes of Latin-1, and -1. *)
Definition unicode_IsDigit (c : Z) : bool := isDecimal c.
Definition unicode_IsLetter (c : Z) : bool :=
  ((65 <=? c) && (c <=? 90)) || ((97 <=? c) && (c <=? 122)) || (c =? 170) || (c =? 181) || (c =? 186) ||
  ((192 <=? c) && (c <=? 255) && negb (c =? 215) && negb (c =? 247)).
Definition unicode_IsSpace (c : Z) : bool :=
  ((9 <=? c) && (c <=? 13)) || (c =? 32) || (c =? 133) || (c =? 160).

(** [string(r)] of a rune below [2^11]. *)
Definition rune_string (r : Z) : bytes :=
  if r <? 128 then [rune_byte r] else [rune_byte (192 + r / 64); rune_byte (128 + r mod 64)].

(** [%f]: six digits after the point, rounded to the nearest and to even. *)
Definition round_even (n d : Z) : Z :=
  let q := n / d in
  match 2 * (n mod d) ?= d with Lt => q | Gt => q + 1 | Eq => if Z.even q then q else q + 1 end.
Definition pad_left (n : nat) (s : string) : string := zeros (Z.of_nat n - Z.of_nat (String.length s)) +:+ s.
Definition fmt_f (f : float64) : string :=
  match f with
  | S754_nan => "NaN"
  | S754_infinity s => if s then "-Inf" else "+Inf"
  | S754_zero s => if s then "-0.000000" else "0.000000"
  | S754_finite s m e =>
      let '(n, d) := frac m e in
      let k := round_even (n * 1000000) d in
      (if s then "-" else "") +:+ fmt_d (k / 1000000) +:+ "." +:+ pad_left 6 (fmt_d (k mod 1000000))
  end.

Definition token_name (t : Z) : outcome string :=
  if t <? firstReserved then Panic "runtime error: index out of range"
  else match tokens !! Z.to_nat (t - firstReserved) with Some s => Ok s | None => Panic "runtime error: index out of range" end.

Definition tokenToString (t : Z) (s : scanner) : outcome bytes :=
  if (t =? tkName) || (t =? tkString) then Ok (tk_s (curToken s))
  else if t =? tkNumber then Ok (to_bytes (fmt_f (tk_n (curToken s))))
  else if t <? firstReserved then Ok (rune_string t)
  else if t <? tkEOS then n ← token_name t; Ok (to_bytes ("'" +:+ n +:+ "'"))
  else n ← token_name t; Ok (to_bytes n).

Definition scanError {A} (message : string) (t : Z) : scanning A := λ s,
  near ← (if t =? 0 then Ok [] else b ← tokenToString t s; Ok (to_bytes " near " ++ b));
  Err (Errorf (source s +:+ ":" +:+ fmt_d (lineNumber s) +:+ ": " +:+ message +:+ to_string near)).
Definition syntaxError {A} (message : string) : scanning A := λ s, scanError message (tk_t (curToken s)) s.
Definition errorExpected {A} (t : Z) : scanning A := λ s, n ← tokenToString t s; syntaxError (to_string n +:+ " expected") s.
Definition numberError {A} : scanning A := scanError "malformed number" tkNumber.
(** [l.assert]: a runtime error of the machine. *)
Definition assert_ (c : bool) : scanning unit := λ s, if c then Ok ((), s) else Err (Errorf "assertion failure").

Definition lex_advance : scanning unit := modify (λ s,
  match input s with [] => set_input [] endOfStream s | c :: i => set_input i (byte_rune c) s end).
Definition save (c : Z) : scanning unit := modify (λ s, set_sbuf (sbuf s ++ [rune_byte c]) s).
Definition saveAndAdvance : scanning unit := c ← get_ current; _ ← save c; lex_advance.
Definition advanceAndSave (c : Z) : scanning unit := _ ← lex_advance; save c.
Definition reset_buffer : scanning unit := modify (set_sbuf []).

Definition incrementLineNumber : scanning unit :=
  old ← get_ current;
  _ ← assert_ (isNewLine old);
  _ ← lex_advance;
  c ← get_ current;
  _ ← (if isNewLine c && negb (c =? old) then lex_advance else mret ());
  _ ← modify (λ s, set_lines (int64_of (lineNumber s + 1)) (lastLine s) s);
  n ← get_ lineNumber;
  if maxInt <=? n then syntaxError "chunk has too many lines" else mret ().

Definition checkNext (str : list Z) : scanning bool :=
  c ← get_ current;
  if (c =? 0) || negb (bool_decide (c ∈ str)) then mret false else _ ← saveAndAdvance; mret true.

(** Fuel for a loop from a scanner: what it has left to read, the current byte and one more. *)
Definition left (s : scanner) : nat := (length (input s) + 2)%nat.

Fixpoint skip_eq (fuel : nat) (i : Z) : scanning Z :=
  match fuel with
  | O => no_fuel
  | S n => c ← get_ current; if c =? 61 then _ ← saveAndAdvance; skip_eq n (i + 1) else mret i
  end.
Definition skipSeparator : scanning Z :=
  c ← get_ current;
  _ ← assert_ ((c =? 91) || (c =? 93));
  _ ← saveAndAdvance;
  n ← get_ left;
  i ← skip_eq n 0;
  c' ← get_ current;
  mret (if c' =? c then i else - i - 1).

(** [str[a:b]]. *)
Definition slice_of (b : bytes) (i j : Z) : outcome bytes :=
  if (0 <=? i) && (i <=? j) && (j <=? Z.of_nat (length b)) then Ok (take (Z.to_nat (j - i)) (drop (Z.to_nat i) b))
  else Panic "runtime error: slice bounds out of range".

Fixpoint multi_line (fuel : nat) (comment : bool) (sep : Z) : scanning bytes :=
  match fuel with
  | O => no_fuel
  | S n =>
      c ← get_ current;
      if c =? endOfStream then
        if comment then scanError "unfinished long comment" tkEOS else scanError "unfinished long string" tkEOS
      else if c =? 93 then
        k ← skipSeparator;
        if k =? sep then
          _ ← saveAndAdvance;
          str ← (if comment then mret []
                 else b ← get_ sbuf; lift (slice_of b (2 + sep) (Z.of_nat (length b) - (2 + sep))));
          _ ← reset_buffer;
          mret str
        else multi_line n comment sep
      else if (c =? 13) || (c =? 10) then
        _ ← modify (λ s, set_input (input s) 10 s);
        _ ← save 10;
        _ ← incrementLineNumber;
        multi_line n comment sep
      else
        _ ← (if comment then mret () else save c);
        _ ← lex_advance;
        multi_line n comment sep
  end.
Definition readMultiLine (comment : bool) (sep : Z) : scanning bytes :=
  _ ← saveAndAdvance;
  c ← get_ current;
  _ ← (if isNewLine c then incrementLineNumber else mret ());
  n ← get_ left;
  multi_line n comment sep.

Fixpoint digits_loop (fuel : nat) : scanning Z :=
  match fuel with
  | O => no_fuel
  | S n => c ← get_ current; if isDecimal c then _ ← saveAndAdvance; digits_loop n else mret c
  end.
Definition readDigits : scanning Z := n ← get_ left; digits_loop n.

(** The value of a hexadecimal digit. *)
Definition hex_value (c : Z) : option Z :=
  if isDecimal c then Some (c - 48)
  else if (97 <=? c) && (c <=? 102) then Some (c - 97 + 10)
  else if (65 <=? c) && (c <=? 70) then Some (c - 65 + 10)
  else None.

Fixpoint hex_loop (fuel : nat) (x : float64) (i : Z) : scanning (float64 * Z * Z) :=
  match fuel with
  | O => no_fuel
  | S n =>
      c ← get_ current;
      match hex_value c with
      | None => mret (x, c, i)
      | Some d => _ ← lex_advance; hex_loop n (fadd (fmul x (float_of_int 16)) (float_of_int d)) (i + 1)
      end
  end.
Definition readHexNumber (x : float64) : scanning (float64 * Z * Z) := n ← get_ left; hex_loop n x 0.

(** [math.Ldexp(f, k)]. *)
Definition Ldexp (f : float64) (k : Z) : float64 :=
  match f with
  | S754_finite s m e =>
      let exp := int64_of (k + e + Z.pos (digits2_pos m) - 1) in
      if exp <? -1074 then S754_zero s
      else if 1023 <? exp then S754_infinity s
      else binary_normalize prec64 emax64 (if s then Z.neg m else Z.pos m) (exp + 1 - Z.pos (digits2_pos m)) s
  | _ => f
  end.

Definition hex_number : scanning token :=
  prefix ← get_ sbuf;
  _ ← assert_ (bool_decide (prefix = to_bytes "0x" ∨ prefix = to_bytes "0X"));
  _ ← reset_buffer;
  r ← readHexNumber fzero;
  let '(fraction, c, i) := r in
  r ← (if c =? 46 then _ ← lex_advance; readHexNumber fraction else mret (fraction, c, 0));
  let '(fraction, c, exponent) := r in
  _ ← (if (i =? 0) && (exponent =? 0) then numberError else mret ());
  exponent ← (if (c =? 112) || (c =? 80) then
      _ ← lex_advance;
      c ← get_ current;
      _ ← (if (c =? 43) || (c =? 45) then lex_advance else mret ());
      d ← get_ current;
      _ ← (if isDecimal d then mret () else numberError);
      _ ← readDigits;
      b ← get_ sbuf;
      match ParseInt b with
      | Ok e => _ ← reset_buffer; mret (int64_of (int64_of (exponent * -4) + (if c =? 45 then int64_of (- e) else e)))
      | _ => numberError
      end
    else mret (int64_of (exponent * -4)));
  mret (mkToken tkNumber (Ldexp fraction exponent) []).

Fixpoint trim_zeros (b : bytes) : bytes :=
  match b with c :: b' => if bool_decide (c = "0"%char) then trim_zeros b' else b | [] => [] end.
(** The text that is parsed: leading zeros go, but one stays before a point. *)
Definition decimal_text (b : bytes) : bytes :=
  match b with
  | "0"%char :: _ =>
      match trim_zeros b with
      | [] => ["0"%char]
      | c :: r => if isDecimal (byte_rune c) then c :: r else "0"%char :: c :: r
      end
  | _ => b
  end.

Definition decimal_number : scanning token :=
  c ← readDigits;
  c ← (if c =? 46 then _ ← saveAndAdvance; readDigits else mret c);
  _ ← (if (c =? 101) || (c =? 69) then
         _ ← saveAndAdvance;
         c ← get_ current;
         _ ← (if (c =? 43) || (c =? 45) then saveAndAdvance else mret ());
         _ ← readDigits; mret ()
       else mret ());
  b ← get_ sbuf;
  match ParseFloat (decimal_text b) with
  | Ok f => _ ← reset_buffer; mret (mkToken tkNumber f [])
  | _ => numberError
  end.

Definition readNumber : scanning token :=
  c ← get_ current;
  _ ← assert_ (isDecimal c);
  _ ← saveAndAdvance;
  x ← (if c =? 48 then checkNext [88; 120] else mret false);
  if (x : bool) then hex_number else decimal_number.

(** ** Strings *)

Definition escapes (c : Z) : option Z :=
  if c =? 97 then Some 7 else if c =? 98 then Some 8 else if c =? 102 then Some 12 else if c =? 110 then Some 10
  else if c =? 114 then Some 13 else if c =? 116 then Some 9 else if c =? 118 then Some 11 else if c =? 92 then Some 92
  else if c =? 34 then Some 34 else if c =? 39 then Some 39 else None.

Fixpoint save_all (c : list Z) : scanning unit :=
  match c with
  | [] => mret ()
  | r :: c => if r =? endOfStream then mret () else _ ← save r; save_all c
  end.
Definition escapeError {A} (c : list Z) (message : string) : scanning A :=
  _ ← reset_buffer; _ ← save 92; _ ← save_all c; scanError message tkString.

(** One digit of the two. *)
Definition hex_digit (seen : list Z) (r : Z) : scanning (list Z * Z) :=
  c ← get_ current;
  match hex_value c with
  | None => escapeError (seen ++ [c]) "hexadecimal digit expected"
  | Some d => _ ← lex_advance; mret (seen ++ [c], r * 16 + d)
  end.
Definition readHexEscape : scanning Z :=
  _ ← lex_advance;
  r ← hex_digit [120] 0;
  r ← hex_digit r.1 r.2;
  mret r.2.

(** Up to [n] digits; the runes seen, and zeros for the rest. *)
Fixpoint decimal_digits (n : nat) (seen : list Z) (r : Z) : scanning (list Z * Z) :=
  match n with
  | O => mret (seen, r)
  | S n' =>
      c ← get_ current;
      if isDecimal c then _ ← lex_advance; decimal_digits n' (seen ++ [c]) (10 * r + c - 48)
      else mret (seen ++ replicate n 0, r)
  end.
Definition readDecimalEscape : scanning Z :=
  r ← decimal_digits 3 [] 0;
  if 255 <? r.2 then escapeError r.1 "decimal escape too large" else mret r.2.

Fixpoint skip_space (fuel : nat) : scanning unit :=
  match fuel with
  | O => no_fuel
  | S n =>
      c ← get_ current;
      if unicode_IsSpace c then
        _ ← (if isNewLine c then incrementLineNumber else lex_advance);
        skip_space n
      else mret ()
  end.

Definition read_escape : scanning unit :=
  _ ← lex_advance;
  c ← get_ current;
  match escapes c with
  | Some esc => advanceAndSave esc
  | None =>
      if isNewLine c then _ ← incrementLineNumber; save 10
      else if c =? endOfStream then mret ()
      else if c =? 120 then r ← readHexEscape; save r
      else if c =? 122 then _ ← lex_advance; n ← get_ left; skip_space n
      else if negb (isDecimal c) then escapeError [c] "invalid escape sequence"
      else r ← readDecimalEscape; save r
  end.

Fixpoint string_loop (fuel : nat) (delimiter : Z) : scanning unit :=
  match fuel with
  | O => no_fuel
  | S n =>
      c ← get_ current;
      if c =? delimiter then mret ()
      else if c =? endOfStream then scanError "unfinished string" tkEOS
      else if isNewLine c then scanError "unfinished string" tkString
      else if c =? 92 then _ ← read_escape; string_loop n delimiter
      else _ ← saveAndAdvance; string_loop n delimiter
  end.
Definition readQuoted : scanning token :=
  delimiter ← get_ current;
  _ ← saveAndAdvance;
  n ← get_ left;
  _ ← string_loop n delimiter;
  _ ← saveAndAdvance;
  str ← get_ sbuf;
  _ ← reset_buffer;
  b ← lift (slice_of str 1 (Z.of_nat (length str) - 1));
  mret (mkToken tkString fzero b).

(** ** Names *)

Definition reserved_words : list string := take (Z.to_nat reservedCount) tokens.
Definition isReserved (s : string) : bool := bool_decide (s ∈ reserved_words).

Fixpoint reserved_index (str : bytes) (i : Z) (l : list string) : option (Z * string) :=
  match l with
  | [] => None
  | r :: l => if bool_decide (str = to_bytes r) then Some (i, r) else reserved_index str (i + 1) l
  end.
Definition reservedOrName : scanning token :=
  str ← get_ sbuf;
  _ ← reset_buffer;
  mret (match reserved_index str 0 reserved_words with
        | Some (i, r) => mkToken (i + firstReserved) fzero (to_bytes r)
        | None => mkToken tkName fzero str
        end).

Definition is_name_char (c : Z) : bool := (c =? 95) || unicode_IsLetter c || unicode_IsDigit c.
Fixpoint name_loop (fuel : nat) : scanning unit :=
  match fuel with
  | O => no_fuel
  | S n => c ← get_ current; if is_name_char c then _ ← saveAndAdvance; name_loop n else mret ()
  end.

(** ** Tokens *)

Fixpoint skip_line (fuel : nat) : scanning unit :=
  match fuel with
  | O => no_fuel
  | S n => c ← get_ current; if negb (isNewLine c) && negb (c =? endOfStream) then _ ← lex_advance; skip_line n else mret ()
  end.

(** A character that may be followed by [next], which makes it the token [two]. *)
Definition one_or_two (c next two : Z) : scanning token :=
  _ ← lex_advance;
  c' ← get_ current;
  if c' =? next then _ ← lex_advance; mret (plain two) else mret (plain c).

(** What follows [--]: a comment. *)
Definition scan_comment : scanning unit :=
  _ ← lex_advance;
  c ← get_ current;
  long ← (if c =? 91 then
            sep ← skipSeparator;
            if 0 <=? sep then _ ← readMultiLine true sep; mret true else _ ← reset_buffer; mret false
          else mret false);
  if (long : bool) then mret () else n ← get_ left; skip_line n.

Fixpoint scan_loop (fuel : nat) : scanning token :=
  match fuel with
  | O => no_fuel
  | S n =>
      c ← get_ current;
      if isNewLine c then _ ← incrementLineNumber; scan_loop n
      else if (c =? 32) || (c =? 12) || (c =? 9) || (c =? 11) then _ ← lex_advance; scan_loop n
      else if c =? 45 then
        _ ← lex_advance;
        c' ← get_ current;
        if c' =? 45 then _ ← scan_comment; scan_loop n else mret (plain 45)
      else if c =? 91 then
        sep ← skipSeparator;
        if 0 <=? sep then str ← readMultiLine false sep; mret (mkToken tkString fzero str)
        else _ ← reset_buffer; if sep =? -1 then mret (plain 91) else scanError "invalid long string delimiter" tkString
      else if c =? 61 then one_or_two 61 61 tkEq
      else if c =? 60 then one_or_two 60 61 tkLE
      else if c =? 62 then one_or_two 62 61 tkGE
      else if c =? 126 then one_or_two 126 61 tkNE
      else if c =? 58 then one_or_two 58 58 tkDoubleColon
      else if (c =? 34) || (c =? 39) then readQuoted
      else if c =? endOfStream then mret (plain tkEOS)
      else if c =? 46 then
        _ ← saveAndAdvance;
        two ← checkNext [46];
        if (two : bool) then
          three ← checkNext [46];
          _ ← reset_buffer;
          mret (plain (if (three : bool) then tkDots else tkConcat))
        else
          d ← get_ current;
          if unicode_IsDigit d then readNumber else _ ← reset_buffer; mret (plain 46)
      else if c =? 0 then _ ← lex_advance; scan_loop n
      else if unicode_IsDigit c then readNumber
      else if (c =? 95) || unicode_IsLetter c then k ← get_ left; _ ← name_loop k; reservedOrName
      else _ ← lex_advance; mret (plain c)
  end.
Definition scan : scanning token := n ← get_ left; scan_loop n.

(** ** What the parser asks for *)

(** [l.next]. *)
Definition next_token : scanning unit :=
  _ ← modify (λ s, set_lines (lineNumber s) (lineNumber s) s);
  look ← get_ lookAheadToken;
  if negb (tk_t look =? tkEOS) then modify (λ s, set_tokens (mkToken tkEOS (tk_n look) (tk_s look)) look s)
  else t ← scan; modify (λ s, set_tokens (lookAheadToken s) t s).
Definition lookAhead : scanning Z :=
  look ← get_ lookAheadToken;
  _ ← assert_ (tk_t look =? tkEOS);
  t ← scan;
  _ ← modify (λ s, set_tokens t (curToken s) s);
  mret (tk_t t).
Definition testNext (t : Z) : scanning bool :=
  c ← get_ curToken;
  if tk_t c =? t then _ ← next_token; mret true else mret false.
Definition check (t : Z) : scanning unit := c ← get_ curToken; if tk_t c =? t then mret () else errorExpected t.
Definition checkMatch (what who where_ : Z) : scanning unit :=
  ok ← testNext what;
  if (ok : bool) then mret () else
  n ← get_ lineNumber;
  if where_ =? n then errorExpected what
  else λ s, a ← tokenToString what s; b ← tokenToString who s;
    syntaxError (to_string a +:+ " expected (to close " +:+ to_string b +:+ " at line " +:+ fmt_d where_ +:+ ")") s.

(** A scanner before the text [b]. *)
Definition new_scanner (name : string) (b : bytes) : scanner :=
  mkScanner b 0 [] 1 1 name (plain tkEOS) (plain 0).

(** All tokens of a text.  A token takes a byte, but for the last; the first byte is read
    after a current 0. *)
Fixpoint scan_all (fuel : nat) : scanning (list token) :=
  match fuel with
  | O => no_fuel
  | S n => t ← scan; if tk_t t =? tkEOS then mret [] else l ← scan_all n; mret (t :: l)
  end.
Definition tokenize (name : string) (b : bytes) : outcome (list token) :=
  '(l, _) ← scan_all (S (S (length b))) (new_scanner name b); Ok l.
