(* ===== verification/LuaScanProps.v ===== *)
(** * The scanner ends on every text

    [runs m s Q]: the action does not panic, and its results satisfy [Q].  Every loop reads
    a byte in each round, so that its fuel is enough; the buffer holds what is cut from it,
    and is empty between two tokens. *)
From Stdlib Require Import ZArith Lia Ascii.
From stdpp Require Import base option list strings.
From S2P Require Import Prelude GoNum GoFmt Strconv LuaScan.
From Stdlib Require Import SpecFloat.

Definition runs {A} (m : scanning A) (s : scanner) (Q : A → scanner → Prop) : Prop :=
  match m s with Ok (a, s') => Q a s' | Err _ => True | Panic _ => False end.

Lemma runs_bind {A B} (m : scanning A) (f : A → scanning B) s P Q :
  runs m s P → (∀ a s', P a s' → runs (f a) s' Q) → runs (m ≫= f) s Q.
Proof.
  unfold runs. unfold mbind, scanning_bind, mbind, outcome_bind. destruct (m s) as [[a s']|e|p]; [|done|done].
  intros HP Hf. by apply Hf.
Qed.

Lemma runs_ret {A} (a : A) s (Q : A → scanner → Prop) : Q a s → runs (mret a) s Q.
Proof. done. Qed.

Lemma runs_get {A} (f : scanner → A) s (Q : A → scanner → Prop) : Q (f s) s → runs (get_ f) s Q.
Proof. done. Qed.

Lemma runs_modify f s (Q : unit → scanner → Prop) : Q () (f s) → runs (modify f) s Q.
Proof. done. Qed.

Lemma runs_assert c s (Q : unit → scanner → Prop) : (c = true → Q () s) → runs (assert_ c) s Q.
Proof. unfold runs, assert_. destruct c; auto. Qed.

Lemma runs_weaken {A} (m : scanning A) s (P Q : A → scanner → Prop) : runs m s P → (∀ a s', P a s' → Q a s') → runs m s Q.
Proof. unfold runs. destruct (m s) as [[a s']|e|p]; auto. Qed.

(** Reading what an action begins with. *)
Lemma runs_bind_get {A B} (f : scanner → A) (g : A → scanning B) s Q : runs (g (f s)) s Q → runs (get_ f ≫= g) s Q.
Proof. done. Qed.

Lemma runs_bind_modify {B} (f : scanner → scanner) (g : unit → scanning B) s Q : runs (g ()) (f s) Q → runs (modify f ≫= g) s Q.
Proof. done. Qed.

Lemma runs_bind_assert {B} c (g : unit → scanning B) s Q : (c = true → runs (g ()) s Q) → runs (assert_ c ≫= g) s Q.
Proof. intros H. eapply runs_bind; [by apply (runs_assert c s (λ _ s', s' = s ∧ c = true))|]. intros [] s' [-> ->]. auto. Qed.

Lemma runs_bind_ret {A B} (a : A) (g : A → scanning B) s Q : runs (g a) s Q → runs (mret a ≫= g) s Q.
Proof. done. Qed.

Ltac step :=
  cbv beta;
  lazymatch goal with
  | |- runs (get_ _ ≫= _) _ _ => apply runs_bind_get
  | |- runs (mret _ ≫= _) _ _ => apply runs_bind_ret
  | |- runs (assert_ _ ≫= _) _ _ => apply runs_bind_assert; intros ?
  | |- runs (modify _ ≫= _) _ _ => apply runs_bind_modify
  end; cbv beta.

(** ** Where the scanner is *)

Record sc_ok (s : scanner) : Prop := {
  ok_end : current s = -1 → input s = [];
  ok_tok : tk_t (curToken s) < 290;
  ok_cur : current s < 256
}.

(** The bytes from the current one on. *)
Definition rest (s : scanner) : nat := if current s =? -1 then 0 else S (length (input s)).

(** [s'] is [s] or later, at the same token. *)
Record later (s s' : scanner) : Prop := {
  lt_ok : sc_ok s';
  lt_rest : (rest s' ≤ rest s)%nat;
  lt_tok : curToken s' = curToken s;
  lt_look : lookAheadToken s' = lookAheadToken s
}.

Lemma later_refl s : sc_ok s → later s s.
Proof. by split. Qed.

Lemma later_trans s1 s2 s3 : later s1 s2 → later s2 s3 → later s1 s3.
Proof. intros [] []. split; [done|lia|congruence|congruence]. Qed.

Lemma rest_left s : (rest s < left s)%nat.
Proof. unfold rest, left. destruct (_ =? _); lia. Qed.

(** At the current byte, which is consumed. *)
Definition consumed (s s' : scanner) : Prop := later s s' ∧ (current s ≠ -1 → (rest s' < rest s)%nat).

Lemma consumed_later s1 s2 s3 : consumed s1 s2 → later s2 s3 → consumed s1 s3.
Proof. intros [H1 H2] H. split; [by eapply later_trans|]. intros Hc. destruct H. specialize (H2 Hc). lia. Qed.

Lemma byte_rune_range c : 0 ≤ byte_rune c < 256.
Proof. unfold byte_rune. pose proof (N_ascii_bounded c). lia. Qed.

Lemma advance_runs s : sc_ok s → runs lex_advance s (λ _ s', consumed s s' ∧ sbuf s' = sbuf s).
Proof.
  intros [H1 H2 H3]. unfold lex_advance. apply runs_modify. unfold consumed. destruct (input s) as [|c i] eqn:E.
  - split; [|done]. split; [split; [by split|unfold rest; simpl; lia|done|done]|]. intros Hc. unfold rest. simpl. rewrite E.
    assert ((current s =? -1) = false) as -> by lia. lia.
  - assert (current s ≠ -1) as Hc by (intros Hc; by specialize (H1 Hc)). pose proof (byte_rune_range c).
    assert ((current s =? -1) = false) as Hf by lia. assert ((byte_rune c =? -1) = false) as Hb by lia.
    split; [|done]. split; [split; [split; simpl; [lia|done|lia]|unfold rest; simpl; rewrite Hf, Hb, E; simpl; lia|done|done]|].
    intros _. unfold rest. simpl. rewrite Hf, Hb, E. simpl. lia.
Qed.

Lemma save_runs c s : sc_ok s → runs (save c) s (λ _ s', later s s' ∧ rest s' = rest s ∧ current s' = current s ∧ sbuf s' = sbuf s ++ [rune_byte c]).
Proof. intros [H1 H2 H3]. apply runs_modify. split; [|done]. by repeat split. Qed.

Lemma reset_runs s : sc_ok s → runs reset_buffer s (λ _ s', later s s' ∧ rest s' = rest s ∧ current s' = current s ∧ sbuf s' = []).
Proof. intros [H1 H2 H3]. apply runs_modify. split; [|done]. by repeat split. Qed.

Lemma saveAndAdvance_runs s : sc_ok s → runs saveAndAdvance s (λ _ s', consumed s s' ∧ sbuf s' = sbuf s ++ [rune_byte (current s)]).
Proof.
  intros Hs. unfold saveAndAdvance. eapply runs_bind; [by apply runs_get with (Q := λ c s', s' = s ∧ c = current s)|]. intros c s1 [-> ->].
  eapply runs_bind; [by apply save_runs|]. intros _ s1 (H1 & Hr & Hc & Hb). eapply runs_weaken; [apply advance_runs; apply H1|].
  intros _ s2 [[H2 H3] Hb2]. rewrite Hb2, Hb. split; [|done]. split; [by eapply later_trans|]. rewrite Hc, Hr in *. done.
Qed.

(** [scanError] reports: a token's name is always found. *)
Lemma tokenToString_ok t s : t < 290 → ∃ b, tokenToString t s = Ok b.
Proof.
  intros Ht. unfold tokenToString, token_name, firstReserved, tkEOS. case_match; [eauto|]. case_match; [eauto|].
  destruct (Z.ltb_spec t 257); [eauto|]. destruct (lookup_lt_is_Some_2 tokens (Z.to_nat (t - 257))) as [x Hx].
  { change (length tokens) with 33%nat. lia. }
  rewrite Hx. case_match; eauto.
Qed.

Lemma scanError_runs {A} msg t s (Q : A → scanner → Prop) : t < 290 → runs (scanError msg t) s Q.
Proof.
  intros Ht. unfold runs, scanError. destruct (t =? 0); [done|]. destruct (tokenToString_ok t s Ht) as [b ->]. done.
Qed.

Lemma syntaxError_runs {A} msg s (Q : A → scanner → Prop) : sc_ok s → runs (syntaxError msg) s Q.
Proof. intros [_ H _]. by apply scanError_runs. Qed.

Lemma incrementLineNumber_runs s : sc_ok s → runs incrementLineNumber s (λ _ s', consumed s s' ∧ sbuf s' = sbuf s).
Proof.
  intros Hs. unfold incrementLineNumber. step. step.
  eapply runs_bind; [by apply advance_runs|]. intros _ s1 [H1 Hb1]. step.
  eapply (runs_bind _ _ _ (λ _ s', consumed s s' ∧ sbuf s' = sbuf s)).
  { case_match; [|done]. eapply runs_weaken; [apply advance_runs, H1|]. intros _ s2 [[H2 _] Hb2].
    split; [by eapply consumed_later|congruence]. }
  intros _ s2 [[H2 H2'] Hb2]. step. step.
  assert (consumed s (set_lines (int64_of (lineNumber s2 + 1)) (lastLine s2) s2)) as Hc.
  { split; [|done]. destruct H2 as [[]]. by split. }
  case_match; [apply syntaxError_runs, Hc|by apply runs_ret].
Qed.

Lemma checkNext_runs l s : sc_ok s → runs (checkNext l) s (λ b s', later s s' ∧ (if b then True else s' = s)).
Proof.
  intros Hs. unfold checkNext. step. case_match; [apply runs_ret; by split; [apply later_refl|]|].
  eapply runs_bind; [by apply saveAndAdvance_runs|]. intros _ s1 [[H1 _] _]. by apply runs_ret.
Qed.

(** ** The loops *)

(** What an action may do to the buffer: it adds. *)
Definition keeps (s s' : scanner) : Prop := (length (sbuf s) ≤ length (sbuf s'))%nat.

Lemma skip_eq_runs n i s : sc_ok s → (rest s < n)%nat →
  runs (skip_eq n i) s (λ j s', later s s' ∧ i ≤ j ∧ Z.of_nat (length (sbuf s')) = Z.of_nat (length (sbuf s)) + (j - i)).
Proof.
  revert i s. induction n as [|n IH]; intros i s Hs Hn; [lia|]. cbn [skip_eq]. step.
  destruct (Z.eqb_spec (current s) 61) as [Hc|Hc]; [|apply runs_ret; split; [by apply later_refl|lia]].
  eapply runs_bind; [by apply saveAndAdvance_runs|]. intros _ s1 [[H1 H2] Hb].
  eapply runs_weaken; [apply IH; [apply H1|specialize (H2 ltac:(lia)); lia]|]. intros j s2 (H3 & Hj & Hl).
  split; [by eapply later_trans|]. rewrite Hb, length_app in Hl. simpl in Hl. lia.
Qed.

Lemma skipSeparator_runs s : sc_ok s → runs skipSeparator s (λ k s', consumed s s' ∧ keeps s s' ∧
  (0 ≤ k → Z.of_nat (length (sbuf s')) = Z.of_nat (length (sbuf s)) + 1 + k)).
Proof.
  intros Hs. unfold skipSeparator. step. step. eapply runs_bind; [by apply saveAndAdvance_runs|]. intros _ s1 [[H1 H2] Hb]. step.
  eapply runs_bind; [apply skip_eq_runs; [apply H1|apply rest_left]|]. intros i s2 (H3 & Hi & Hl). step. apply runs_ret.
  rewrite Hb, length_app in Hl. simpl in Hl. split; [split; [by eapply later_trans|]|split; [unfold keeps; lia|]].
  - intros Hc. specialize (H2 Hc). destruct H3. lia.
  - case_match; lia.
Qed.

Lemma slice_of_runs b i j s (Q : bytes → scanner → Prop) : 0 ≤ i ≤ j → j ≤ Z.of_nat (length b) → (∀ x, Q x s) → runs (lift (slice_of b i j)) s Q.
Proof.
  intros Hi Hj HQ. unfold runs, lift, slice_of. assert ((0 <=? i) && (i <=? j) && (j <=? Z.of_nat (length b)) = true) as -> by lia. apply HQ.
Qed.

Lemma multi_line_runs n comment sep s : sc_ok s → (rest s < n)%nat → 0 ≤ sep →
  2 + sep ≤ Z.of_nat (length (sbuf s)) → runs (multi_line n comment sep) s (λ _ s', later s s' ∧ sbuf s' = []).
Proof.
  revert s. induction n as [|n IH]; intros s Hs Hn Hsep Hb; [lia|]. cbn [multi_line]. step.
  assert (∀ (m : scanning unit) s, runs m s (λ _ s', consumed s s' ∧ keeps s s') →
    current s ≠ -1 → sc_ok s → (rest s < S n)%nat → 2 + sep ≤ Z.of_nat (length (sbuf s)) →
    runs (_ ← m; multi_line n comment sep) s (λ _ s', later s s' ∧ sbuf s' = [])) as Hrest.
  { clear s Hs Hn Hb. intros m s Hm Hc Hs Hn Hb. eapply runs_bind; [exact Hm|]. intros _ s1 [[H1 H2] Hk].
    specialize (H2 Hc). unfold keeps in Hk. eapply runs_weaken; [apply IH; [apply H1|lia|done|lia]|].
    intros _ s2 [H3 Hb3]. split; [by eapply later_trans|done]. }
  unfold endOfStream. destruct (Z.eqb_spec (current s) (-1)) as [Hc|Hc]; [case_match; by apply scanError_runs|].
  destruct (current s =? 93).
  - eapply runs_bind; [by apply skipSeparator_runs|]. intros k s1 ([H1 H2] & Hk & Hl). specialize (H2 Hc). unfold keeps in Hk.
    destruct (Z.eqb_spec k sep) as [->|Hne].
    + eapply runs_bind; [apply saveAndAdvance_runs, H1|]. intros _ s2 [[H3 _] Hb3].
      eapply (runs_bind _ _ _ (λ _ s', s' = s2)).
      { destruct comment; [done|]. step. rewrite Hb3, length_app. simpl. apply slice_of_runs; [| |done]; rewrite ?length_app; simpl; lia. }
      intros str s3 ->. eapply runs_bind; [apply reset_runs, H3|]. intros _ s4 (H4 & _ & _ & Hb4). apply runs_ret.
      split; [|done]. eapply later_trans; [exact H1|]. by eapply later_trans.
    + eapply runs_weaken; [apply IH; [apply H1|lia|done|lia]|]. intros _ s2 [H3 Hb3]. split; [by eapply later_trans|done].
  - case_match eqn:E.
    + step. set (s1 := set_input (input s) 10 s). assert (sc_ok s1) as Hs1 by (destruct Hs; by split).
      assert (rest s1 = rest s) as Hr by (unfold rest; simpl; by assert ((current s =? -1) = false) as -> by lia).
      assert (∀ Q, runs (_ ← save 10; _ ← incrementLineNumber; multi_line n comment sep) s1 Q ↔
        runs (_ ← (_ ← save 10; incrementLineNumber); multi_line n comment sep) s1 Q) as ->.
      { intros Q. unfold runs, mbind, scanning_bind, mbind, outcome_bind. done. }
      assert (∀ s', later s1 s' → later s s') as Hl by (intros s' []; split; [done|lia|done|done]).
      eapply runs_weaken; [apply Hrest; [|done|done|lia|done]|intros _ s2 [? ?]; split; [by apply Hl|done]].
      eapply runs_bind; [by apply save_runs|]. intros _ s2 (H2 & Hr2 & Hc2 & Hb2).
      eapply runs_weaken; [apply incrementLineNumber_runs, H2|]. intros _ s3 [[H3 H4] Hb3]. split; [split|].
      * by eapply later_trans.
      * intros _. rewrite Hc2 in H4. specialize (H4 ltac:(done)). lia.
      * unfold keeps. rewrite Hb3, Hb2, length_app. lia.
    + assert (∀ Q, runs (_ ← (if comment then mret () else save (current s)); _ ← lex_advance; multi_line n comment sep) s Q ↔
        runs (_ ← (_ ← (if comment then mret () else save (current s)); lex_advance); multi_line n comment sep) s Q) as ->.
      { intros Q. destruct comment; unfold runs, mbind, scanning_bind, mbind, outcome_bind; done. }
      apply Hrest; [|done..]. destruct comment.
      * step. eapply runs_weaken; [by apply advance_runs|]. intros _ s1 [H1 Hb1]. split; [done|]. unfold keeps. by rewrite Hb1.
      * eapply runs_weaken; [by apply saveAndAdvance_runs|]. intros _ s1 [H1 Hb1]. split; [done|]. unfold keeps. rewrite Hb1, length_app. lia.
Qed.

Lemma readMultiLine_runs comment sep s : sc_ok s → 0 ≤ sep → 1 + sep ≤ Z.of_nat (length (sbuf s)) →
  runs (readMultiLine comment sep) s (λ _ s', later s s' ∧ sbuf s' = []).
Proof.
  intros Hs Hsep Hb. unfold readMultiLine. eapply runs_bind; [by apply saveAndAdvance_runs|]. intros _ s1 [[H1 _] Hb1]. step.
  eapply (runs_bind _ _ _ (λ _ s', later s1 s' ∧ sbuf s' = sbuf s1)).
  { case_match; [|split; [by apply later_refl, H1|done]].
    eapply runs_weaken; [apply incrementLineNumber_runs, H1|]. by intros _ s2 [[H2 _] ?]. }
  intros _ s2 [H2 Hb2]. step. eapply runs_weaken; [apply multi_line_runs; [apply H2|apply rest_left|done|]|].
  { rewrite Hb2, Hb1, length_app. simpl. lia. }
  intros _ s3 [H3 ?]. split; [|done]. eapply later_trans; [exact H1|]. by eapply later_trans.
Qed.

Lemma digits_loop_runs n s : sc_ok s → (rest s < n)%nat → runs (digits_loop n) s (λ c s', later s s' ∧ c = current s').
Proof.
  revert s. induction n as [|n IH]; intros s Hs Hn; [lia|]. cbn [digits_loop]. step. destruct (isDecimal (current s)) eqn:E.
  - eapply runs_bind; [by apply saveAndAdvance_runs|]. intros _ s1 [[H1 H2] _].
    assert (current s ≠ -1) as Hc by (intros Hc; by rewrite Hc in E). specialize (H2 Hc).
    eapply runs_weaken; [apply IH; [apply H1|lia]|]. intros c s2 [H3 ?]. split; [by eapply later_trans|done].
  - apply runs_ret. split; [by apply later_refl|done].
Qed.

Lemma readDigits_runs s : sc_ok s → runs readDigits s (λ c s', later s s' ∧ c = current s').
Proof. intros Hs. unfold readDigits. step. apply digits_loop_runs; [done|apply rest_left]. Qed.

Lemma hex_value_some c d : hex_value c = Some d → c ≠ -1.
Proof. intros H ->. done. Qed.

Lemma hex_loop_runs n x i s : sc_ok s → (rest s < n)%nat → runs (hex_loop n x i) s (λ r s', later s s' ∧ sbuf s' = sbuf s).
Proof.
  revert x i s. induction n as [|n IH]; intros x i s Hs Hn; [lia|]. cbn [hex_loop]. step.
  destruct (hex_value (current s)) as [d|] eqn:E; [|split; [by apply later_refl|done]].
  apply hex_value_some in E. eapply runs_bind; [by apply advance_runs|]. intros _ s1 [[H1 H2] Hb]. specialize (H2 E).
  eapply runs_weaken; [apply IH; [apply H1|lia]|]. intros r s2 [H3 ?]. split; [by eapply later_trans|congruence].
Qed.

Lemma readHexNumber_runs x s : sc_ok s → runs (readHexNumber x) s (λ r s', later s s' ∧ sbuf s' = sbuf s).
Proof. intros Hs. unfold readHexNumber. step. apply hex_loop_runs; [done|apply rest_left]. Qed.

(** A branch that may consume. *)
Lemma runs_if_advance {B} (b : bool) (g : unit → scanning B) s Q : sc_ok s →
  (∀ s', later s s' ∧ sbuf s' = sbuf s → runs (g ()) s' Q) → runs ((if b then lex_advance else mret ()) ≫= g) s Q.
Proof.
  intros Hs Hg. eapply (runs_bind _ _ _ (λ _ s', later s s' ∧ sbuf s' = sbuf s)); [|by intros [] s'; apply Hg].
  destruct b; [|split; [by apply later_refl|done]]. eapply runs_weaken; [by apply advance_runs|]. by intros _ s' [[]?].
Qed.

Lemma runs_guard {B} (b : bool) (g : unit → scanning B) s Q : (b = false → runs (g ()) s Q) →
  runs ((if b then numberError else mret ()) ≫= g) s Q.
Proof.
  intros Hg. destruct b; [|by apply Hg]. eapply (runs_bind _ _ _ (λ _ _, False)); [by apply scanError_runs|done].
Qed.

Lemma hex_exponent_runs c e s : sc_ok s → sbuf s = [] →
  runs (if (c =? 112) || (c =? 80) then
      _ ← lex_advance;
      c ← get_ current;
      _ ← (if (c =? 43) || (c =? 45) then lex_advance else mret ());
      d ← get_ current;
      _ ← (if isDecimal d then mret () else numberError);
      _ ← readDigits;
      b ← get_ sbuf;
      match ParseInt b with
      | Ok e' => _ ← reset_buffer; mret (int64_of (int64_of (e * -4) + (if c =? 45 then int64_of (- e') else e')))
      | _ => numberError
      end
    else mret (int64_of (e * -4))) s (λ _ s', later s s' ∧ sbuf s' = []).
Proof.
  intros Hs Hb. case_match; [|split; [by apply later_refl|done]].
  eapply runs_bind; [by apply advance_runs|]. intros _ s1 [[H1 _] Hb1]. step.
  apply runs_if_advance; [apply H1|]. intros s2 [H2 Hb2]. step.
  assert (∀ b : bool, (if b then mret () else numberError) = (if negb b then numberError else mret ()) :> scanning unit) as -> by by intros [].
  apply runs_guard. intros _. eapply runs_bind; [apply readDigits_runs, H2|]. intros _ s3 [H3 _]. step.
  destruct (ParseInt (sbuf s3)); [|by apply scanError_runs..].
  eapply runs_bind; [apply reset_runs, H3|]. intros _ s4 (H4 & _ & _ & Hb4). apply runs_ret. split; [|done].
  eapply later_trans; [exact H1|]. eapply later_trans; [exact H2|]. by eapply later_trans.
Qed.

(** A number token, after which the buffer is empty. *)
Definition tokened (s : scanner) (t : token) (s' : scanner) : Prop := later s s' ∧ sbuf s' = [] ∧ tk_t t < 290.

Lemma hex_number_runs s : sc_ok s → runs hex_number s (tokened s).
Proof.
  intros Hs. unfold hex_number. step. step. eapply runs_bind; [by apply reset_runs|]. intros _ s1 (H1 & _ & _ & Hb1).
  eapply runs_bind; [apply readHexNumber_runs, H1|]. intros [[f c] i] s2 [H2 Hb2].
  eapply (runs_bind _ _ _ (λ _ s', later s2 s' ∧ sbuf s' = sbuf s2)).
  { case_match; [|split; [by apply later_refl, H2|done]]. eapply runs_bind; [apply advance_runs, H2|]. intros _ s3 [[H3 _] Hb3].
    eapply runs_weaken; [apply readHexNumber_runs, H3|]. intros r s4 [H4 Hb4]. split; [by eapply later_trans|congruence]. }
  intros [[f' c'] e] s3 [H3 Hb3]. apply runs_guard. intros _.
  eapply runs_bind; [apply hex_exponent_runs; [apply H3|congruence]|]. intros e' s4 [H4 Hb4]. apply runs_ret.
  split; [|split; [done|by vm_compute]]. eapply later_trans; [exact H1|]. eapply later_trans; [exact H2|]. by eapply later_trans.
Qed.

Lemma runs_if_save {B} (b : bool) (g : unit → scanning B) s Q : sc_ok s →
  (∀ s', later s s' → runs (g ()) s' Q) → runs ((if b then saveAndAdvance else mret ()) ≫= g) s Q.
Proof.
  intros Hs Hg. eapply (runs_bind _ _ _ (λ _ s', later s s')); [|by intros [] s'; apply Hg].
  destruct b; [|by apply later_refl]. eapply runs_weaken; [by apply saveAndAdvance_runs|]. by intros _ s' [[]?].
Qed.

Lemma decimal_number_runs s : sc_ok s → runs decimal_number s (tokened s).
Proof.
  intros Hs. unfold decimal_number. eapply runs_bind; [by apply readDigits_runs|]. intros c s1 [H1 _].
  eapply (runs_bind _ _ _ (λ _ s', later s1 s')).
  { case_match; [|by apply later_refl, H1]. eapply runs_bind; [apply saveAndAdvance_runs, H1|]. intros _ s2 [[H2 _] _].
    eapply runs_weaken; [apply readDigits_runs, H2|]. intros _ s3 [H3 _]. by eapply later_trans. }
  intros c' s2 H2. eapply (runs_bind _ _ _ (λ _ s', later s2 s')).
  { case_match; [|by apply later_refl, H2]. eapply runs_bind; [apply saveAndAdvance_runs, H2|]. intros _ s3 [[H3 _] _]. step.
    apply runs_if_save; [apply H3|]. intros s4 H4. eapply runs_bind; [apply readDigits_runs, H4|]. intros _ s5 [H5 _]. apply runs_ret.
    eapply later_trans; [exact H3|]. by eapply later_trans. }
  intros _ s3 H3. step. destruct (ParseFloat _); [|by apply scanError_runs..].
  eapply runs_bind; [apply reset_runs, H3|]. intros _ s4 (H4 & _ & _ & Hb4). apply runs_ret.
  split; [|split; [done|by vm_compute]]. eapply later_trans; [exact H1|]. eapply later_trans; [exact H2|]. by eapply later_trans.
Qed.

Lemma readNumber_runs s : sc_ok s → runs readNumber s (λ t s', tokened s t s' ∧ (rest s' < rest s)%nat).
Proof.
  intros Hs. unfold readNumber. step. step. eapply runs_bind; [by apply saveAndAdvance_runs|]. intros _ s1 [[H1 H1'] _].
  assert (current s ≠ -1) as Hc by (intros Hc; by rewrite Hc in *). specialize (H1' Hc).
  eapply (runs_bind _ _ _ (λ _ s', later s1 s')).
  { case_match; [|by apply later_refl, H1]. eapply runs_weaken; [apply checkNext_runs, H1|]. by intros b s2 [? _]. }
  intros x s2 H2. assert (∀ m, runs m s2 (tokened s2) → runs m s2 (λ t s', tokened s t s' ∧ (rest s' < rest s)%nat)) as Hw.
  { intros m Hm. eapply runs_weaken; [exact Hm|]. intros t s3 (H3 & Hb & Ht). split.
    - split; [|done]. eapply later_trans; [exact H1|]. by eapply later_trans.
    - destruct H2, H3. lia. }
  destruct x; apply Hw; [apply hex_number_runs, H2|apply decimal_number_runs, H2].
Qed.

(** ** Strings and names *)

Lemma save_all_runs c s : sc_ok s → runs (save_all c) s (λ _ s', sc_ok s').
Proof.
  revert s. induction c as [|r c IH]; intros s Hs; [done|]. cbn [save_all]. case_match; [done|].
  eapply runs_bind; [by apply save_runs|]. intros ? s1 (H1 & _). apply IH, H1.
Qed.

Lemma escapeError_runs {A} c msg s (Q : A → scanner → Prop) : sc_ok s → runs (escapeError c msg) s Q.
Proof.
  intros Hs. unfold escapeError. eapply runs_bind; [by apply reset_runs|]. intros ? s1 (H1 & _).
  eapply runs_bind; [apply save_runs, H1|]. intros ? s2 (H2 & _). eapply runs_bind; [apply save_all_runs, H2|].
  intros [] s3 H3. by apply scanError_runs.
Qed.

(** What an escape does: it reads and only adds to the buffer. *)
Definition reads (s s' : scanner) : Prop := later s s' ∧ keeps s s'.

Lemma reads_refl s : sc_ok s → reads s s.
Proof. split; [by apply later_refl|unfold keeps; lia]. Qed.
Lemma reads_trans s1 s2 s3 : reads s1 s2 → reads s2 s3 → reads s1 s3.
Proof. intros [H1 K1] [H2 K2]. split; [by eapply later_trans|unfold keeps in *; lia]. Qed.

Ltac chain := cbv beta in *; eauto using reads_trans, later_trans.

Lemma advance_reads s : sc_ok s → runs lex_advance s (λ _ s', reads s s' ∧ (current s ≠ -1 → (rest s' < rest s)%nat)).
Proof. intros Hs. eapply runs_weaken; [by apply advance_runs|]. intros ? s' [[H1 H2] Hb]. split; [split; [done|unfold keeps; by rewrite Hb]|done]. Qed.
Lemma save_reads c s : sc_ok s → runs (save c) s (λ _ s', reads s s').
Proof. intros Hs. eapply runs_weaken; [by apply save_runs|]. intros ? s' (H1 & _ & _ & Hb). split; [done|unfold keeps; rewrite Hb, length_app; lia]. Qed.
Lemma saveAndAdvance_reads s : sc_ok s → runs saveAndAdvance s (λ _ s', reads s s' ∧ (current s ≠ -1 → (rest s' < rest s)%nat) ∧ (length (sbuf s) < length (sbuf s'))%nat).
Proof.
  intros Hs. eapply runs_weaken; [by apply saveAndAdvance_runs|]. intros ? s' [[H1 H2] Hb].
  split; [split; [done|]|split; [done|]]; unfold keeps; rewrite Hb, length_app; simpl; lia.
Qed.
Lemma incrementLineNumber_reads s : sc_ok s → runs incrementLineNumber s (λ _ s', reads s s' ∧ (current s ≠ -1 → (rest s' < rest s)%nat)).
Proof. intros Hs. eapply runs_weaken; [by apply incrementLineNumber_runs|]. intros ? s' [[H1 H2] Hb]. split; [split; [done|unfold keeps; by rewrite Hb]|done]. Qed.

Lemma hex_digit_runs seen r s : sc_ok s → runs (hex_digit seen r) s (λ _ s', reads s s').
Proof.
  intros Hs. unfold hex_digit. step. case_match; [|by apply escapeError_runs].
  eapply runs_bind; [by apply advance_reads|]. by intros ? s1 [? _].
Qed.

Lemma readHexEscape_runs s : sc_ok s → runs readHexEscape s (λ _ s', reads s s').
Proof.
  intros Hs. unfold readHexEscape. eapply runs_bind; [by apply advance_reads|]. intros ? s1 [H1 _].
  eapply runs_bind; [apply hex_digit_runs, H1|]. intros r s2 H2. eapply runs_bind; [apply hex_digit_runs, H2|].
  intros r' s3 H3. apply runs_ret. eapply reads_trans; [exact H1|]. eapply reads_trans; [exact H2|exact H3].
Qed.

Lemma decimal_digits_runs n seen r s : sc_ok s → runs (decimal_digits n seen r) s (λ _ s', reads s s').
Proof.
  revert seen r s. induction n as [|n IH]; intros seen r s Hs; [exact (reads_refl s Hs)|]. cbn [decimal_digits]. step.
  case_match; [|exact (reads_refl s Hs)]. eapply runs_bind; [by apply advance_reads|]. intros ? s1 [H1 _].
  eapply runs_weaken; [apply IH, H1|]. intros ? s2 H2. chain.
Qed.

Lemma skip_space_runs n s : sc_ok s → (rest s < n)%nat → runs (skip_space n) s (λ _ s', reads s s').
Proof.
  revert s. induction n as [|n IH]; intros s Hs Hn; [lia|]. cbn [skip_space]. step.
  destruct (unicode_IsSpace (current s)) eqn:E; [|exact (reads_refl s Hs)].
  assert (current s ≠ -1) as Hc by (intros Hc; by rewrite Hc in E).
  eapply (runs_bind _ _ _ (λ _ s', reads s s' ∧ (current s ≠ -1 → (rest s' < rest s)%nat))).
  { case_match; [by apply incrementLineNumber_reads|by apply advance_reads]. }
  intros ? s1 [H1 H2]. specialize (H2 Hc). eapply runs_weaken; [apply IH; [apply H1|lia]|]. intros ? s2 H3. chain.
Qed.

Lemma read_escape_runs s : sc_ok s → current s ≠ -1 → runs read_escape s (λ _ s', reads s s' ∧ (rest s' < rest s)%nat).
Proof.
  intros Hs Hc. unfold read_escape. eapply runs_bind; [by apply advance_reads|]. intros ? s1 [H1 Hr1]. specialize (Hr1 Hc). step.
  assert (∀ m : scanning unit, runs m s1 (λ _ s', reads s1 s') → runs m s1 (λ _ s', reads s s' ∧ (rest s' < rest s)%nat)) as Hw.
  { intros m Hm. eapply runs_weaken; [exact Hm|]. intros ? s2 H2. split; [chain|]. destruct H2 as [[] _]. lia. }
  assert (sc_ok s1) as Hs1 by apply H1. apply Hw. clear Hw.
  destruct (escapes (current s1)).
  { unfold advanceAndSave. eapply runs_bind; [by apply advance_reads|]. intros ? s2 [K2 _].
    eapply runs_weaken; [apply save_reads, K2|]. intros ? s3 K3. chain. }
  case_match.
  { eapply runs_bind; [by apply incrementLineNumber_reads|]. intros ? s2 [K2 _].
    eapply runs_weaken; [apply save_reads, K2|]. intros ? s3 K3. chain. }
  case_match; [exact (reads_refl s1 Hs1)|]. case_match.
  { eapply runs_bind; [by apply readHexEscape_runs|]. intros r s2 K2.
    eapply runs_weaken; [apply save_reads, K2|]. intros ? s3 K3. chain. }
  case_match.
  { eapply runs_bind; [by apply advance_reads|]. intros ? s2 [K2 _]. step.
    eapply runs_weaken; [apply skip_space_runs; [apply K2|apply rest_left]|]. intros ? s3 K3. chain. }
  case_match; [by apply escapeError_runs|]. unfold readDecimalEscape.
  eapply (runs_bind _ _ _ (λ _ s', reads s1 s')).
  { eapply runs_bind; [by apply decimal_digits_runs|]. intros r s2 K2. case_match; [apply escapeError_runs, K2|by apply runs_ret]. }
  intros r s2 K2. eapply runs_weaken; [apply save_reads, K2|]. intros ? s3 K3. chain.
Qed.

Lemma string_loop_runs n d s : sc_ok s → (rest s < n)%nat → runs (string_loop n d) s (λ _ s', reads s s').
Proof.
  revert s. induction n as [|n IH]; intros s Hs Hn; [lia|]. cbn [string_loop]. step.
  case_match; [exact (reads_refl s Hs)|]. unfold endOfStream. destruct (Z.eqb_spec (current s) (-1)) as [|Hc]; [by apply scanError_runs|].
  case_match; [by apply scanError_runs|].
  eapply (runs_weaken _ _ (λ _ s', reads s s')); [|done]. case_match.
  - eapply runs_bind; [by apply read_escape_runs|]. intros ? s1 [K1 Hr]. eapply runs_weaken; [apply IH; [apply K1|lia]|].
    intros ? s2 K2. chain.
  - eapply runs_bind; [by apply saveAndAdvance_reads|]. intros ? s1 (K1 & Hr & _). specialize (Hr Hc).
    eapply runs_weaken; [apply IH; [apply K1|lia]|]. intros ? s2 K2. chain.
Qed.

Lemma readString_runs s : sc_ok s → current s ≠ -1 → runs readQuoted s (λ t s', tokened s t s' ∧ (rest s' < rest s)%nat).
Proof.
  intros Hs Hc. unfold readQuoted. step. eapply runs_bind; [by apply saveAndAdvance_reads|]. intros ? s1 (H1 & Hr & Hb1). specialize (Hr Hc). step.
  eapply runs_bind; [apply string_loop_runs; [apply H1|apply rest_left]|]. intros ? s2 H2.
  eapply runs_bind; [apply saveAndAdvance_reads, H2|]. intros ? s3 (H3 & _ & Hb3). step.
  eapply runs_bind; [apply reset_runs, H3|]. intros ? s4 (H4 & _ & _ & Hb4).
  assert (reads s s3) as H03 by (eapply reads_trans; [exact H1|]; chain).
  assert (2 ≤ length (sbuf s3))%nat by (destruct H2 as [_ K]; unfold keeps in K; lia).
  eapply (runs_bind _ _ _ (λ _ s', s' = s4)); [apply slice_of_runs; [lia..|done]|]. intros b s5 ->. apply runs_ret.
  split; [split; [eapply later_trans; [apply H03|done]|split; [done|by vm_compute]]|].
  destruct H2 as [[] _], H3 as [[] _], H4. lia.
Qed.

Lemma name_loop_runs n s : sc_ok s → (rest s < n)%nat → runs (name_loop n) s (λ _ s', later s s' ∧ (is_name_char (current s) = true → (rest s' < rest s)%nat)).
Proof.
  revert s. induction n as [|n IH]; intros s Hs Hn; [lia|]. cbn [name_loop]. step. destruct (is_name_char (current s)) eqn:E.
  - assert (current s ≠ -1) as Hc by (intros Hc; by rewrite Hc in E).
    eapply runs_bind; [by apply saveAndAdvance_runs|]. intros ? s1 [[H1 Hr] _]. specialize (Hr Hc).
    eapply runs_weaken; [apply IH; [apply H1|lia]|]. intros ? s2 [H2 _]. split; [chain|]. destruct H2. lia.
  - by split; [apply later_refl|].
Qed.

Lemma reserved_index_range str i l j r : reserved_index str i l = Some (j, r) → i ≤ j < i + Z.of_nat (length l).
Proof.
  revert i. induction l as [|w l IH]; intros i; [done|]. cbn [reserved_index length]. case_match; [intros [= <- <-]; lia|]. intros H1%IH. lia.
Qed.

Lemma reservedOrName_runs s : sc_ok s → runs reservedOrName s (tokened s).
Proof.
  intros Hs. unfold reservedOrName. step. eapply runs_bind; [by apply reset_runs|]. intros ? s1 (H1 & _ & _ & Hb). apply runs_ret.
  split; [done|]. split; [done|]. destruct (reserved_index _ _ _) as [[i r]|] eqn:E; [|by vm_compute].
  apply reserved_index_range in E. change (length reserved_words) with 22%nat in E. simpl. unfold firstReserved. lia.
Qed.

(** ** Tokens *)

Lemma skip_line_runs n s : sc_ok s → (rest s < n)%nat → runs (skip_line n) s (λ _ s', later s s' ∧ sbuf s' = sbuf s).
Proof.
  revert s. induction n as [|n IH]; intros s Hs Hn; [lia|]. cbn [skip_line]. step.
  destruct (negb (isNewLine (current s)) && negb (current s =? endOfStream)) eqn:E; [|by split; [apply later_refl|]].
  eapply runs_bind; [by apply advance_runs|]. intros ? s1 [[H1 Hr] Hb]. unfold endOfStream in E. specialize (Hr ltac:(lia)).
  eapply runs_weaken; [apply IH; [apply H1|lia]|]. intros ? s2 [H2 ?]. split; [chain|congruence].
Qed.

Lemma scan_comment_runs s : sc_ok s → sbuf s = [] → runs scan_comment s (λ _ s', later s s' ∧ sbuf s' = []).
Proof.
  intros Hs Hb. unfold scan_comment. eapply runs_bind; [by apply advance_runs|]. intros ? s1 [[H1 _] Hb1]. step.
  eapply (runs_bind _ _ _ (λ _ s', later s1 s' ∧ sbuf s' = [])).
  { case_match; [|split; [by apply later_refl, H1|congruence]].
    eapply runs_bind; [apply skipSeparator_runs, H1|]. intros k s2 ([H2 _] & _ & Hk). destruct (Z.leb_spec 0 k).
    - eapply runs_bind; [apply readMultiLine_runs; [apply H2|done|specialize (Hk ltac:(done)); lia]|]. intros ? s3 [H3 Hb3]. apply runs_ret. split; [chain|done].
    - eapply runs_bind; [apply reset_runs, H2|]. intros ? s3 (H3 & _ & _ & Hb3). apply runs_ret. split; [chain|done]. }
  intros [] s2 [H2 Hb2]; [split; [chain|done]|]. step.
  eapply runs_weaken; [apply skip_line_runs; [apply H2|apply rest_left]|]. intros ? s3 [H3 Hb3].
  split; [|congruence]. eapply later_trans; [exact H1|]. chain.
Qed.

(** A token, and the bytes that it takes unless the stream is at its end. *)
Definition scanned (s : scanner) (t : token) (s' : scanner) : Prop :=
  tokened s t s' ∧ (tk_t t ≠ tkEOS → (rest s' < rest s)%nat).

Lemma scanned_later s s1 t s' : later s s1 → scanned s1 t s' → scanned s t s'.
Proof.
  intros H [[H1 H2] H3]. split; [split; [by eapply later_trans|done]|]. intros Ht. specialize (H3 Ht). destruct H. lia.
Qed.

Lemma one_or_two_runs c next two s : sc_ok s → current s ≠ -1 → sbuf s = [] → c < 290 → two < 290 →
  runs (one_or_two c next two) s (scanned s).
Proof.
  intros Hs Hc Hb Hlt Hlt2. unfold one_or_two. eapply runs_bind; [by apply advance_runs|]. intros _ s1 [[H1 Hr] Hb1]. specialize (Hr Hc). step.
  case_match.
  - eapply runs_bind; [apply advance_runs, H1|]. intros _ s2 [[K2 _] Hb2]. apply runs_ret.
    split; [split; [by eapply later_trans|split; [congruence|done]]|]. intros _. destruct K2. lia.
  - apply runs_ret. split; [split; [done|split; [congruence|done]]|done].
Qed.

Lemma bracket_runs s : sc_ok s → current s ≠ -1 → sbuf s = [] →
  runs (sep ← skipSeparator;
        if 0 <=? sep then str ← readMultiLine false sep; mret (mkToken tkString fzero str)
        else _ ← reset_buffer; if sep =? -1 then mret (plain 91) else scanError "invalid long string delimiter" tkString) s (scanned s).
Proof.
  intros Hs Hc Hb. eapply runs_bind; [by apply skipSeparator_runs|]. intros k s1 ([H1 Hr] & _ & Hk). specialize (Hr Hc).
  destruct (Z.leb_spec 0 k).
  - eapply runs_bind; [apply readMultiLine_runs; [apply H1|done|specialize (Hk ltac:(done)); lia]|]. intros str s2 [H2 Hb2]. apply runs_ret.
    split; [split; [by eapply later_trans|by split]|]. intros _. destruct H2. lia.
  - eapply runs_bind; [apply reset_runs, H1|]. intros _ s2 (H2 & _ & _ & Hb2). case_match; [|by apply scanError_runs].
    apply runs_ret. split; [split; [by eapply later_trans|by split]|]. intros _. destruct H2. lia.
Qed.

Lemma dot_runs s : sc_ok s → current s ≠ -1 → sbuf s = [] →
  runs (_ ← saveAndAdvance;
        two ← checkNext [46];
        if (two : bool) then
          three ← checkNext [46];
          _ ← reset_buffer;
          mret (plain (if (three : bool) then tkDots else tkConcat))
        else
          d ← get_ current;
          if unicode_IsDigit d then readNumber else _ ← reset_buffer; mret (plain 46)) s (scanned s).
Proof.
  intros Hs Hc Hb. eapply runs_bind; [by apply saveAndAdvance_runs|]. intros _ s1 [[H1 Hr] _]. specialize (Hr Hc).
  eapply runs_bind; [apply checkNext_runs, H1|]. intros [] s2 [H2 _].
  - eapply runs_bind; [apply checkNext_runs, H2|]. intros b s3 [H3 _].
    eapply runs_bind; [apply reset_runs, H3|]. intros _ s4 (H4 & _ & _ & Hb4). apply runs_ret.
    split; [split; [|split; [done|by destruct b]]|].
    + eapply later_trans; [exact H1|]. eapply later_trans; [exact H2|]. by eapply later_trans.
    + intros _. destruct H2, H3, H4. lia.
  - step. case_match.
    + eapply runs_weaken; [apply readNumber_runs, H2|]. intros t s3 [K3 K3']. apply (scanned_later _ s2); [by eapply later_trans|by split].
    + eapply runs_bind; [apply reset_runs, H2|]. intros _ s3 (K3 & _ & _ & Hb3). apply runs_ret.
      split; [split; [|by split]|]. { eapply later_trans; [exact H1|]. by eapply later_trans. }
      intros _. destruct H2, K3. lia.
Qed.

Lemma name_token_runs s : sc_ok s → sbuf s = [] → is_name_char (current s) = true →
  runs (k ← get_ left; _ ← name_loop k; reservedOrName) s (scanned s).
Proof.
  intros Hs Hb Hn. step. eapply runs_bind; [apply name_loop_runs; [done|apply rest_left]|]. intros _ s1 [H1 Hr]. specialize (Hr Hn).
  eapply runs_weaken; [apply reservedOrName_runs, H1|]. intros t s2 (H2 & Hb2 & Ht). split; [split; [by eapply later_trans|done]|].
  intros _. destruct H2. lia.
Qed.

Lemma again_runs n (m : scanning unit) s :
  (∀ s, sc_ok s → sbuf s = [] → (rest s < n)%nat → runs (scan_loop n) s (scanned s)) →
  runs m s (λ _ s', later s s' ∧ (current s ≠ -1 → (rest s' < rest s)%nat) ∧ sbuf s' = []) →
  current s ≠ -1 → (rest s < S n)%nat → runs (_ ← m; scan_loop n) s (scanned s).
Proof.
  intros IH Hm Hc Hn. eapply runs_bind; [exact Hm|]. intros _ s1 (H1 & Hr & Hb1). specialize (Hr Hc).
  eapply runs_weaken; [apply IH; [apply H1|done|lia]|]. intros t s2 H2. by eapply scanned_later.
Qed.

(** White space, a line, or the byte 0. *)
Lemma advance_again s : sc_ok s → sbuf s = [] → runs lex_advance s (λ _ s', later s s' ∧ (current s ≠ -1 → (rest s' < rest s)%nat) ∧ sbuf s' = []).
Proof. intros Hs Hb. eapply runs_weaken; [by apply advance_runs|]. intros _ s1 [[H1 H2] H3]. split; [done|]. split; [done|congruence]. Qed.

Lemma dash_runs n s : (∀ s, sc_ok s → sbuf s = [] → (rest s < n)%nat → runs (scan_loop n) s (scanned s)) →
  sc_ok s → current s ≠ -1 → sbuf s = [] → (rest s < S n)%nat →
  runs (_ ← lex_advance; c' ← get_ current; if c' =? 45 then _ ← scan_comment; scan_loop n else mret (plain 45)) s (scanned s).
Proof.
  intros IH Hs Hc Hb Hn. eapply runs_bind; [by apply advance_again|]. intros _ s1 (H1 & Hr & Hb1). specialize (Hr Hc). step.
  case_match; [|apply runs_ret; by split].
  eapply runs_bind; [apply scan_comment_runs; [apply H1|done]|]. intros _ s2 [H2 Hb2].
  eapply runs_weaken; [apply IH; [apply H2|done|destruct H2; lia]|]. intros t s3 H3.
  eapply scanned_later; [|exact H3]. by eapply later_trans.
Qed.

Lemma number_runs s : sc_ok s → runs readNumber s (scanned s).
Proof. intros Hs. eapply runs_weaken; [by apply readNumber_runs|]. intros t s1 [H1 H2]. by split. Qed.

Lemma char_runs c s : sc_ok s → current s ≠ -1 → sbuf s = [] → c < 256 → runs (_ ← lex_advance; mret (plain c)) s (scanned s).
Proof.
  intros Hs Hc Hb Hlt. eapply runs_bind; [by apply advance_again|]. intros _ s1 (H1 & Hr & Hb1). apply runs_ret.
  split; [split; [done|split; [done|simpl; lia]]|]. intros _. by apply Hr.
Qed.

Lemma scan_loop_runs n s : sc_ok s → sbuf s = [] → (rest s < n)%nat → runs (scan_loop n) s (scanned s).
Proof.
  revert s. induction n as [|n IH]; intros s Hs Hb Hn; [lia|]. cbn [scan_loop]. step.
  assert (0 ≤ current s ∨ current s < 0) as Hsign by lia. unfold endOfStream.
  assert (current s ≠ -1 ∨ current s = -1) as [Hc|Hc] by lia.
  2: { rewrite Hc. cbn. apply runs_ret. split; [split; [by apply later_refl|by split]|done]. }
  destruct (isNewLine _).
  { apply again_runs; [done| |done|done]. eapply runs_weaken; [by apply incrementLineNumber_runs|].
    intros _ s1 [[H1 H2] H3]. split; [done|]. split; [done|congruence]. }
  destruct ((current s =? 32) || _ || _ || _); [apply again_runs; [done|by apply advance_again|done|done]|].
  destruct (current s =? 45); [by apply dash_runs|].
  destruct (current s =? 91); [by apply bracket_runs|].
  destruct (current s =? 61); [by apply one_or_two_runs|]. destruct (current s =? 60); [by apply one_or_two_runs|].
  destruct (current s =? 62); [by apply one_or_two_runs|]. destruct (current s =? 126); [by apply one_or_two_runs|].
  destruct (current s =? 58); [by apply one_or_two_runs|].
  destruct ((current s =? 34) || _).
  { eapply runs_weaken; [by apply readString_runs|]. intros t s1 [H1 H2]. by split. }
  destruct (Z.eqb_spec (current s) (-1)); [done|].
  destruct (current s =? 46); [by apply dot_runs|].
  destruct (current s =? 0); [apply again_runs; [done|by apply advance_again|done|done]|].
  destruct (unicode_IsDigit (current s)) eqn:Ed; [by apply number_runs|].
  destruct ((current s =? 95) || unicode_IsLetter (current s)) eqn:En; [apply name_token_runs; [done|done|]|].
  { unfold is_name_char. by rewrite En. }
  apply char_runs; [done|done|done|]. apply Hs.
Qed.

Lemma scan_runs s : sc_ok s → sbuf s = [] → runs scan s (scanned s).
Proof. intros Hs Hb. unfold scan. step. apply scan_loop_runs; [done|done|apply rest_left]. Qed.

Lemma scan_all_runs n s : sc_ok s → sbuf s = [] → (rest s < n)%nat →
  runs (scan_all n) s (λ l s', Forall (λ t, tk_t t < 290) l ∧ (length l ≤ rest s)%nat).
Proof.
  revert s. induction n as [|n IH]; intros s Hs Hb Hn; [lia|]. cbn [scan_all].
  eapply runs_bind; [by apply scan_runs|]. intros t s1 [(H1 & Hb1 & Ht) Hr].
  destruct (Z.eqb_spec (tk_t t) tkEOS) as [|Hne]; [apply runs_ret; split; [done|simpl; lia]|]. specialize (Hr Hne).
  eapply runs_bind; [apply IH; [apply H1|done|lia]|]. intros l s2 [H2 Hl]. apply runs_ret. split; [by constructor|simpl; lia].
Qed.

(** C33: the scanner ends on every text, with its tokens or with an error that names a
    position: it never runs on, and never cuts its buffer beyond its bounds.  A text has no
    more tokens than bytes, but one, and each has a kind that the tables of tokens name. *)
Theorem scanner_total name b :
  panics (tokenize name b) = false ∧
  (∀ l, tokenize name b = Ok l → (length l ≤ S (length b))%nat ∧ Forall (λ t, tk_t t < 290) l) ∧
  (∀ s, sc_ok s → sbuf s = [] →
    panics (scan s) = false ∧ ∀ t s', scan s = Ok (t, s') →
      sc_ok s' ∧ sbuf s' = [] ∧ (rest s' ≤ rest s)%nat ∧ (tk_t t ≠ tkEOS → (rest s' < rest s)%nat)).
Proof.
  assert (runs (scan_all (S (S (length b)))) (new_scanner name b) (λ l s', Forall (λ t, tk_t t < 290) l ∧ (length l ≤ S (length b))%nat)) as H.
  { apply scan_all_runs; [split; [done|by vm_compute|by vm_compute]|done|]. unfold rest. simpl. lia. }
  split; [|split; [|]].
  - unfold runs in H. unfold tokenize, mbind, outcome_bind. by destruct (scan_all _ _) as [[l s']|e|p].
  - unfold runs in H. unfold tokenize, mbind, outcome_bind. destruct (scan_all _ _) as [[l s']|e|p]; [|done|done].
    intros l' [= <-]. tauto.
  - intros s Hs Hb. pose proof (scan_runs s Hs Hb) as Hr. unfold runs in Hr. destruct (scan s) as [[t s1]|e1|p]; [|done|done].
    split; [done|]. intros t' s1' [= <- <-]. destruct Hr as [(H1 & H2 & _) H3]. destruct H1. auto.
Qed.

Lemma scanner_total_witness :
  let s := new_scanner "x" (to_bytes "x=[[") in
  sc_ok s ∧ sbuf s = [] ∧ panics (tokenize "x" (to_bytes "x=[[")) = false ∧ panics (scan s) = false.
Proof.
  intros s. assert (sc_ok s) as Hs by (split; [done|by vm_compute|by vm_compute]).
  destruct (scanner_total "x" (to_bytes "x=[[")) as (H1 & _ & H2). destruct (H2 s Hs eq_refl) as [H3 _]. by split_and!.
Defined.
