(* ===== verification/LuaTokens.v ===== *)
(** * What is written is scanned

    Lexemes and how they are written: names, words, characters and operators, strings with
    every byte that needs it escaped, and decimal numbers.  Scanning the text of a list of
    lexemes, each followed by a space, gives back their tokens. *)
From Stdlib Require Import ZArith Lia Ascii.
From stdpp Require Import base option list strings.
From S2P Require Import Prelude GoNum GoFmt Strconv LuaScan.
From Stdlib Require Import SpecFloat.

(** The scanner at a text, with [b] in the buffer. *)
Definition cur (t : bytes) : Z := match t with [] => -1 | c :: _ => byte_rune c end.
Definition at_text (t b : bytes) (s : scanner) : scanner :=
  mkScanner (tail t) (cur t) b (lineNumber s) (lastLine s) (source s) (lookAheadToken s) (curToken s).

Lemma bind_ok {A B} (m : scanning A) (f : A → scanning B) s a s' : m s = Ok (a, s') → (m ≫= f) s = f a s'.
Proof. intros H. unfold mbind, scanning_bind. by rewrite H. Qed.

Lemma bind_get {A B} (f : scanner → A) (g : A → scanning B) s : (get_ f ≫= g) s = g (f s) s.
Proof. done. Qed.

Lemma bind_assert {B} (g : unit → scanning B) s : (assert_ true ≫= g) s = g () s.
Proof. done. Qed.

Lemma advance_at c t b s : lex_advance (at_text (c :: t) b s) = Ok ((), at_text t b s).
Proof. by destruct t. Qed.

Lemma rune_byte_rune c : rune_byte (byte_rune c) = c.
Proof.
  unfold rune_byte, byte_rune. rewrite Z.mod_small by (pose proof (N_ascii_bounded c); lia).
  rewrite N2Z.id. apply ascii_N_embedding.
Qed.

Lemma saveAndAdvance_at c t b s : saveAndAdvance (at_text (c :: t) b s) = Ok ((), at_text t (b ++ [c]) s).
Proof.
  unfold saveAndAdvance. rewrite bind_get. erewrite bind_ok; [|done]. cbn [current at_text cur].
  rewrite rune_byte_rune. by destruct t.
Qed.

Lemma reset_at t b s : reset_buffer (at_text t b s) = Ok ((), at_text t [] s).
Proof. done. Qed.

Lemma left_at t b s : (length t < left (at_text t b s))%nat.
Proof. unfold left. simpl. destruct t; simpl; lia. Qed.

(** ** The loops on a text *)

Lemma digits_at ds t b s n : forallb (λ c, isDecimal (byte_rune c)) ds = true → isDecimal (cur t) = false → (length ds < n)%nat →
  digits_loop n (at_text (ds ++ t) b s) = Ok (cur t, at_text t (b ++ ds) s).
Proof.
  revert b n. induction ds as [|c ds IH]; intros b n Hd Ht Hn; (destruct n as [|n]; [simpl in Hn; lia|]); cbn [digits_loop]; rewrite bind_get.
  - cbn [app]. change (current (at_text t b s)) with (cur t). rewrite Ht, app_nil_r. done.
  - simpl in Hd. apply andb_prop in Hd as [Hc Hd]. change (current (at_text ((c :: ds) ++ t) b s)) with (byte_rune c). rewrite Hc.
    erewrite bind_ok; [|apply saveAndAdvance_at]. rewrite IH by (try done; simpl in Hn; lia). by rewrite <- app_assoc.
Qed.

Lemma readDigits_at ds t b s : forallb (λ c, isDecimal (byte_rune c)) ds = true → isDecimal (cur t) = false →
  readDigits (at_text (ds ++ t) b s) = Ok (cur t, at_text t (b ++ ds) s).
Proof. intros. unfold readDigits. rewrite bind_get. apply digits_at; [done|done|]. pose proof (left_at (ds ++ t) b s) as H1. rewrite length_app in H1. lia. Qed.

Lemma name_at w t b s n : forallb (λ c, is_name_char (byte_rune c)) w = true → is_name_char (cur t) = false → (length w < n)%nat →
  name_loop n (at_text (w ++ t) b s) = Ok ((), at_text t (b ++ w) s).
Proof.
  revert b n. induction w as [|c w IH]; intros b n Hd Ht Hn; (destruct n as [|n]; [simpl in Hn; lia|]); cbn [name_loop]; rewrite bind_get.
  - cbn [app]. change (current (at_text t b s)) with (cur t). rewrite Ht, app_nil_r. done.
  - simpl in Hd. apply andb_prop in Hd as [Hc Hd]. change (current (at_text ((c :: w) ++ t) b s)) with (byte_rune c). rewrite Hc.
    erewrite bind_ok; [|apply saveAndAdvance_at]. rewrite IH by (try done; simpl in Hn; lia). by rewrite <- app_assoc.
Qed.

(** ** Strings *)

(** A byte that stands for itself between double quotes. *)
Definition plain_byte (c : ascii) : bool :=
  let n := byte_rune c in (32 <=? n) && (n <=? 126) && negb (n =? 34) && negb (n =? 92).
Definition quote_byte (c : ascii) : bytes :=
  let n := byte_rune c in
  if plain_byte c then [c] else rune_byte 92 :: map rune_byte [48 + n / 100; 48 + n / 10 mod 10; 48 + n mod 10].
Definition quote (b : bytes) : bytes := rune_byte 34 :: flat_map quote_byte b ++ [rune_byte 34].

Lemma byte_rune_byte z : 0 ≤ z < 256 → byte_rune (rune_byte z) = z.
Proof. intros Hz. unfold byte_rune, rune_byte. rewrite Z.mod_small by lia. rewrite N_ascii_embedding; lia. Qed.

Lemma decimal_step n seen r z t b s : 0 ≤ z < 10 →
  decimal_digits (S n) seen r (at_text (rune_byte (48 + z) :: t) b s) = decimal_digits n (seen ++ [48 + z]) (10 * r + z) (at_text t b s).
Proof.
  intros Hz. cbn [decimal_digits]. rewrite bind_get. change (current (at_text (rune_byte (48 + z) :: t) b s)) with (byte_rune (rune_byte (48 + z))).
  rewrite byte_rune_byte by lia. assert (isDecimal (48 + z) = true) as -> by (unfold isDecimal; lia).
  erewrite bind_ok; [|apply advance_at]. f_equal. lia.
Qed.

Lemma byte_range c : 0 ≤ byte_rune c < 256.
Proof. unfold byte_rune. pose proof (N_ascii_bounded c). lia. Qed.

Lemma escape_at c t b s : read_escape (at_text (rune_byte 92 :: map rune_byte [48 + byte_rune c / 100; 48 + byte_rune c / 10 mod 10; 48 + byte_rune c mod 10] ++ t) b s) =
  Ok ((), at_text t (b ++ [c]) s).
Proof.
  pose proof (byte_range c) as Hr. unfold read_escape. erewrite bind_ok; [|apply advance_at]. rewrite bind_get. cbn [map app].
  set (n := byte_rune c) in *. assert (0 ≤ n / 100 < 10 ∧ 0 ≤ n / 10 mod 10 < 10 ∧ 0 ≤ n mod 10 < 10) as (H1 & H2 & H3) by div_lia.
  change (current (at_text (rune_byte (48 + n / 100) :: ?x) b s)) with (byte_rune (rune_byte (48 + n / 100))).
  rewrite byte_rune_byte by lia. assert (escapes (48 + n / 100) = None) as ->.
  { unfold escapes. repeat (case_match; [lia|]). done. }
  assert (isNewLine (48 + n / 100) = false) as -> by (unfold isNewLine; lia). unfold endOfStream.
  assert ((48 + n / 100 =? -1) = false) as -> by lia. assert ((48 + n / 100 =? 120) = false) as -> by lia.
  assert ((48 + n / 100 =? 122) = false) as -> by lia. assert (isDecimal (48 + n / 100) = true) as -> by (unfold isDecimal; lia).
  cbn [negb]. assert (readDecimalEscape (at_text (rune_byte (48 + n / 100) :: rune_byte (48 + n / 10 mod 10) :: rune_byte (48 + n mod 10) :: t) b s) = Ok (n, at_text t b s)) as Hd.
  { unfold readDecimalEscape. erewrite bind_ok; [|rewrite !decimal_step by lia; reflexivity].
    cbn [snd]. replace (10 * (10 * (10 * 0 + n / 100) + n / 10 mod 10) + n mod 10) with n by div_lia.
    assert ((255 <? n) = false) as -> by lia. done. }
  erewrite bind_ok; [|exact Hd]. unfold save, modify. by rewrite <- (rune_byte_rune c).
Qed.

Lemma string_at w t b s n : (length w < n)%nat →
  string_loop n 34 (at_text (flat_map quote_byte w ++ rune_byte 34 :: t) b s) = Ok ((), at_text (rune_byte 34 :: t) (b ++ w) s).
Proof.
  revert b n. induction w as [|c w IH]; intros b n Hn; (destruct n as [|n]; [simpl in Hn; lia|]); cbn [string_loop flat_map app]; rewrite bind_get.
  - change (current (at_text (rune_byte 34 :: t) b s)) with 34. rewrite app_nil_r. done.
  - rewrite <- app_assoc. destruct (plain_byte c) eqn:E.
    + assert (quote_byte c = [c]) as -> by (unfold quote_byte; by rewrite E). cbn [app]. change (current (at_text (c :: ?x) b s)) with (byte_rune c). unfold plain_byte in E. unfold isNewLine, endOfStream.
      assert ((byte_rune c =? 34) = false) as -> by lia. assert ((byte_rune c =? -1) = false) as -> by lia.
      assert ((byte_rune c =? 10) || (byte_rune c =? 13) = false) as -> by lia. assert ((byte_rune c =? 92) = false) as -> by lia.
      erewrite bind_ok; [|apply saveAndAdvance_at]. rewrite IH by (simpl in Hn; lia). by rewrite <- app_assoc.
    + assert (quote_byte c = rune_byte 92 :: map rune_byte [48 + byte_rune c / 100; 48 + byte_rune c / 10 mod 10; 48 + byte_rune c mod 10]) as -> by (unfold quote_byte; by rewrite E).
      rewrite <- app_comm_cons. change (current (at_text (rune_byte 92 :: ?x) b s)) with 92. cbn -[read_escape quote_byte map string_loop].
      erewrite bind_ok; [|apply escape_at]. rewrite IH by (simpl in Hn; lia). by rewrite <- app_assoc.
Qed.

Lemma inner_slice x w y s :
  lift (slice_of (([x] ++ w) ++ [y]) 1 (Z.of_nat (length (([x] ++ w) ++ [y])) - 1)) s = Ok (w, s).
Proof.
  assert (Z.of_nat (length (([x] ++ w) ++ [y])) = Z.of_nat (length w) + 2) as -> by (rewrite !length_app; simpl; lia).
  unfold lift, slice_of. rewrite !length_app. cbn [length].
  match goal with |- context [if ?c then _ else _] => assert (c = true) as -> by (rewrite !andb_true_iff, !Z.leb_le, !Nat2Z.inj_add; lia) end.
  cbn [mbind outcome_bind]. do 2 f_equal. rewrite <- app_assoc. simpl drop. replace (Z.to_nat _) with (length w) by lia. apply take_app_length.
Qed.

Lemma readString_at w t s : readQuoted (at_text (quote w ++ t) [] s) = Ok (mkToken tkString fzero w, at_text t [] s).
Proof.
  unfold readQuoted, quote. rewrite bind_get. cbn [app]. change (current (at_text (rune_byte 34 :: ?x) [] s)) with 34.
  erewrite bind_ok; [|apply saveAndAdvance_at]. rewrite bind_get, <- app_assoc. cbn [app].
  erewrite bind_ok.
  2: { apply string_at. match goal with |- (_ < left (at_text ?x _ _))%nat => pose proof (left_at x [rune_byte 34] s) as H1 end.
       rewrite length_app in H1. assert (length w ≤ length (flat_map quote_byte w))%nat; [|simpl in *; lia].
       clear. induction w as [|c w IH]; [done|]. cbn [flat_map length]. rewrite length_app. unfold quote_byte at 1. destruct (plain_byte c); simpl; lia. }
  erewrite bind_ok; [|apply saveAndAdvance_at]. rewrite bind_get. erewrite bind_ok; [|apply reset_at].
  cbn [sbuf at_text]. erewrite bind_ok; [|apply inner_slice]. done.
Qed.

(** ** Lexemes *)

Inductive lexeme :=
  | LName (w : bytes)
  | LWord (w : string)                   (** a reserved word *)
  | LChar (c : ascii)
  | LOp (t : Z)                          (** an operator of several characters *)
  | LStr (b : bytes)
  | LNum (ip : bytes) (fp : option bytes) (f : float64).

Definition digits (b : bytes) : bool := forallb (λ c, isDecimal (byte_rune c)) b.

Definition numeral (ip : bytes) (fp : option bytes) : bytes :=
  ip ++ match fp with Some d => rune_byte 46 :: d | None => [] end.

Definition op_text (t : Z) : bytes := match tokens !! Z.to_nat (t - firstReserved) with Some w => to_bytes w | None => [] end.

Definition write_lexeme (l : lexeme) : bytes :=
  match l with
  | LName w => w
  | LWord w => to_bytes w
  | LChar c => [c]
  | LOp t => op_text t
  | LStr b => quote b
  | LNum ip fp _ => numeral ip fp
  end.

Definition token_of (l : lexeme) : token :=
  match l with
  | LName w => mkToken tkName fzero w
  | LWord w => match reserved_index (to_bytes w) 0 reserved_words with
               | Some (i, r) => mkToken (i + firstReserved) fzero (to_bytes r)
               | None => plain 0
               end
  | LChar c => plain (byte_rune c)
  | LOp t => plain t
  | LStr b => mkToken tkString fzero b
  | LNum _ _ f => mkToken tkNumber f []
  end.

(** A character that is a token of its own before a space. *)
Definition lone (c : ascii) : bool :=
  let n := byte_rune c in
  negb (isNewLine n) && negb ((n =? 32) || (n =? 12) || (n =? 9) || (n =? 11)) && negb (n =? 34) && negb (n =? 39) &&
  negb (n =? 0) && negb (is_name_char n).

Definition name_like (w : bytes) : Prop :=
  match w with c :: _ => is_name_char (byte_rune c) && negb (isDecimal (byte_rune c)) = true | [] => False end ∧
  forallb (λ c, is_name_char (byte_rune c)) w = true.

Definition lexeme_ok (l : lexeme) : Prop :=
  match l with
  | LName w => name_like w ∧ isReserved (to_string w) = false
  | LWord w => w ∈ reserved_words
  | LChar c => lone c = true
  | LOp t => tkConcat ≤ t ≤ tkDoubleColon
  | LStr _ => True
  | LNum ip fp f => ip ≠ [] ∧ digits ip = true ∧ match fp with Some d => digits d = true | None => True end ∧
      ParseFloat (decimal_text (numeral ip fp)) = Ok f
  end.

(** Text after a lexeme: the space, and what follows. *)
Abbreviation spaced t := (rune_byte 32 :: t).

Lemma cur_spaced t : cur (spaced t) = 32.
Proof. done. Qed.

Lemma reserved_none w i l : Forall (λ r, w ≠ to_bytes r) l → reserved_index w i l = None.
Proof. intros H. revert i. induction H as [|r l Hr _ IH]; intros i; [done|]. cbn [reserved_index]. by rewrite bool_decide_eq_false_2. Qed.

Lemma name_scanned w t s n : name_like w → (n ≠ 0)%nat →
  scan_loop n (at_text (w ++ spaced t) [] s) =
  Ok (match reserved_index w 0 reserved_words with Some (i, r) => mkToken (i + firstReserved) fzero (to_bytes r) | None => mkToken tkName fzero w end,
      at_text (spaced t) [] s).
Proof.
  intros [Hh Hw] Hn. destruct w as [|c w]; [done|]. destruct n as [|n]; [done|]. apply andb_prop in Hh as [Hc Hd]. cbn [scan_loop]. rewrite bind_get.
  change (current (at_text ((c :: w) ++ spaced t) [] s)) with (byte_rune c). pose proof (byte_range c) as Hr.
  set (z := byte_rune c) in *. assert (unicode_IsDigit z = false) as Hz by (unfold unicode_IsDigit; by apply negb_true_iff).
  assert ((z =? 95) || unicode_IsLetter z = true) as Hl by (unfold is_name_char in Hc; rewrite Hz, orb_false_r in Hc; done).
  unfold unicode_IsLetter in Hl. unfold isNewLine, endOfStream.
  do 13 (match goal with |- context [if ?b then _ else _] => lazymatch b with unicode_IsDigit _ => fail | _ => assert (b = false) as -> by lia end end).
  rewrite Hz. fold (unicode_IsLetter z) in Hl. change ((z =? 95) || unicode_IsLetter z = true) in Hl. rewrite Hl. rewrite bind_get.
  erewrite bind_ok.
  2: { apply name_at; [done|done|]. pose proof (left_at ((c :: w) ++ spaced t) [] s) as H1. rewrite length_app in H1. lia. }
  cbn [app]. unfold reservedOrName. rewrite bind_get. erewrite bind_ok; [|apply reset_at]. done.
Qed.

Lemma number_scanned ip fp f t s : lexeme_ok (LNum ip fp f) → readNumber (at_text (numeral ip fp ++ spaced t) [] s) =
  Ok (mkToken tkNumber f [], at_text (spaced t) [] s).
Proof.
  intros (Hne & Hip & Hfp & Hf). destruct ip as [|c ip]; [done|]. simpl in Hip. apply andb_prop in Hip as [Hc Hip].
  unfold numeral in *. rewrite <- app_assoc. set (u := match fp with Some d => _ | None => [] end) in *.
  unfold readNumber. rewrite bind_get. cbn [app]. change (current (at_text (c :: ?x) [] s)) with (byte_rune c). rewrite Hc, bind_assert.
  erewrite bind_ok; [|apply saveAndAdvance_at]. cbn [app].
  assert (isDecimal (cur (u ++ spaced t)) = false ∧ cur (ip ++ u ++ spaced t) ≠ 88 ∧ cur (ip ++ u ++ spaced t) ≠ 120) as (Hu & Hx1 & Hx2).
  { split; [by unfold u; destruct fp|]. destruct ip as [|c' ip]; [unfold u; destruct fp; by vm_compute|].
    simpl in Hip. apply andb_prop in Hip as [Hc' _]. cbn [app cur]. unfold isDecimal in Hc'. lia. }
  erewrite (bind_ok _ _ _ false).
  2: { destruct (byte_rune c =? 48); [|reflexivity]. unfold checkNext. rewrite bind_get. change (current (at_text ?x [c] s)) with (cur x).
       rewrite bool_decide_eq_false_2; [by rewrite orb_true_r|]. rewrite !elem_of_cons. intros [?|[?|[]%elem_of_nil]]; done. }
  unfold decimal_number. erewrite bind_ok; [|by apply readDigits_at].
  erewrite (bind_ok _ _ _ 32 (at_text (spaced t) ((c :: ip) ++ u) s)).
  2: { unfold u in *. destruct fp as [d|].
       - cbn [app]. change (cur (rune_byte 46 :: ?x)) with 46. cbn [Z.eqb Pos.eqb]. erewrite bind_ok; [|apply saveAndAdvance_at].
         rewrite readDigits_at by done. do 2 f_equal. f_equal. by rewrite <- app_assoc.
       - rewrite app_nil_r. done. }
  cbn [Z.eqb Pos.eqb orb]. erewrite (bind_ok _ _ _ ()); [|done]. rewrite bind_get. cbn [sbuf at_text].
  change ((c :: ip) ++ u) with (c :: ip ++ u). cbn [app] in Hf. rewrite Hf. erewrite bind_ok; [|apply reset_at]. done.
Qed.

Lemma name_like_word w : w ∈ reserved_words → name_like (to_bytes w).
Proof.
  intros H. unfold name_like. revert w H. apply Forall_forall.
  change reserved_words with ["and"; "break"; "do"; "else"; "elseif"; "end"; "false"; "for"; "function"; "goto"; "if";
    "in"; "local"; "nil"; "not"; "or"; "repeat"; "return"; "then"; "true"; "until"; "while"]%string.
  repeat constructor; by vm_compute.
Qed.

Lemma word_indexed w : w ∈ reserved_words → is_Some (reserved_index (to_bytes w) 0 reserved_words).
Proof.
  revert w. apply Forall_forall.
  change (Forall (λ w, is_Some (reserved_index (to_bytes w) 0 reserved_words)) ["and"; "break"; "do"; "else"; "elseif"; "end"; "false"; "for"; "function"; "goto"; "if";
    "in"; "local"; "nil"; "not"; "or"; "repeat"; "return"; "then"; "true"; "until"; "while"]%string).
  repeat (apply Forall_cons_2; [eexists; by vm_compute|]). apply Forall_nil_2.
Qed.

Lemma not_reserved w : isReserved (to_string w) = false → reserved_index w 0 reserved_words = None.
Proof.
  unfold isReserved. rewrite bool_decide_eq_false. intros H. apply reserved_none, Forall_forall. intros r Hr ->.
  apply H. by rewrite to_string_to_bytes.
Qed.

Lemma separator_at t s : skipSeparator (at_text (rune_byte 91 :: spaced t) [] s) = Ok (-1, at_text (spaced t) [rune_byte 91] s).
Proof.
  unfold skipSeparator. rewrite bind_get. change (current (at_text (rune_byte 91 :: ?x) [] s)) with 91. rewrite bind_assert.
  erewrite bind_ok; [|apply saveAndAdvance_at]. rewrite bind_get. cbn [app].
  assert (∃ k, left (at_text (spaced t) [rune_byte 91] s) = S k) as [k ->] by (pose proof (left_at (spaced t) [rune_byte 91] s); exists (pred (left (at_text (spaced t) [rune_byte 91] s))); lia).
  done.
Qed.

Lemma bracket_scanned t s : (skipSeparator ≫= λ sep : Z,
    if 0 <=? sep then str ← readMultiLine false sep; mret (mkToken tkString fzero str)
    else _ ← reset_buffer; if sep =? -1 then mret (plain 91) else scanError "invalid long string delimiter" tkString)
  (at_text (rune_byte 91 :: spaced t) [] s) = Ok (plain 91, at_text (spaced t) [] s).
Proof. erewrite bind_ok; [|apply separator_at]. done. Qed.

Lemma char_scanned c t s n : lone c = true → (n ≠ 0)%nat →
  scan_loop n (at_text (c :: spaced t) [] s) = Ok (plain (byte_rune c), at_text (spaced t) [] s).
Proof.
  intros Hl Hn. destruct n as [|n]; [done|]. cbn [scan_loop]. rewrite bind_get. change (current (at_text (c :: spaced t) [] s)) with (byte_rune c).
  pose proof (byte_range c) as Hr. unfold lone, is_name_char, isNewLine in *. apply andb_prop in Hl as [Hl Hnm]. apply negb_true_iff, orb_false_elim in Hnm as [Hnm Hd].
  assert ((byte_rune c =? 10) || (byte_rune c =? 13) = false) as -> by lia.
  assert ((byte_rune c =? 32) || (byte_rune c =? 12) || (byte_rune c =? 9) || (byte_rune c =? 11) = false) as -> by lia.
  assert (∀ z, byte_rune c = z → c = rune_byte z) as Hc by (intros z <-; by rewrite rune_byte_rune).
  destruct (Z.eqb_spec (byte_rune c) 45) as [E|_]; [by rewrite (Hc _ E)|].
  destruct (Z.eqb_spec (byte_rune c) 91) as [E|_]; [rewrite (Hc _ E); by apply bracket_scanned|].
  destruct (Z.eqb_spec (byte_rune c) 61) as [E|_]; [by rewrite (Hc _ E)|].
  destruct (Z.eqb_spec (byte_rune c) 60) as [E|_]; [by rewrite (Hc _ E)|].
  destruct (Z.eqb_spec (byte_rune c) 62) as [E|_]; [by rewrite (Hc _ E)|].
  destruct (Z.eqb_spec (byte_rune c) 126) as [E|_]; [by rewrite (Hc _ E)|].
  destruct (Z.eqb_spec (byte_rune c) 58) as [E|_]; [by rewrite (Hc _ E)|].
  assert ((byte_rune c =? 34) || (byte_rune c =? 39) = false) as -> by lia.
  unfold endOfStream. assert ((byte_rune c =? -1) = false) as -> by lia.
  destruct (Z.eqb_spec (byte_rune c) 46) as [E|_]; [by rewrite (Hc _ E)|].
  assert ((byte_rune c =? 0) = false) as -> by lia. rewrite Hd, Hnm.
  erewrite bind_ok; [|apply advance_at]. done.
Qed.

Lemma op_scanned o t s n : tkConcat ≤ o ≤ tkDoubleColon → (n ≠ 0)%nat →
  scan_loop n (at_text (op_text o ++ spaced t) [] s) = Ok (plain o, at_text (spaced t) [] s).
Proof.
  unfold tkConcat, tkDoubleColon. intros Ho Hn. destruct n as [|n]; [done|].
  assert (o ∈ [279; 280; 281; 282; 283; 284; 285]) as Hin by (rewrite !elem_of_cons; lia). clear Ho. revert o Hin. apply Forall_forall.
  repeat constructor; by destruct t.
Qed.

Lemma quote_scanned b t s n : (n ≠ 0)%nat → scan_loop n (at_text (quote b ++ spaced t) [] s) = Ok (mkToken tkString fzero b, at_text (spaced t) [] s).
Proof. intros Hn. destruct n as [|n]; [done|]. rewrite <- readString_at. done. Qed.

Lemma numeral_scanned ip fp f t s n : lexeme_ok (LNum ip fp f) → (n ≠ 0)%nat →
  scan_loop n (at_text (numeral ip fp ++ spaced t) [] s) = Ok (mkToken tkNumber f [], at_text (spaced t) [] s).
Proof.
  intros H Hn. rewrite <- (number_scanned ip fp f t s H). destruct H as (Hne & Hip & _). destruct n as [|n]; [done|].
  cbn [scan_loop]. rewrite bind_get. destruct ip as [|c ip]; [done|]. simpl in Hip. apply andb_prop in Hip as [Hc _].
  change (current (at_text (numeral (c :: ip) fp ++ spaced t) [] s)) with (byte_rune c). unfold isNewLine, endOfStream, unicode_IsDigit.
  unfold isDecimal in *.
  do 13 (match goal with |- context [if ?b then _ else _] => lazymatch b with (48 <=? _) && _ => fail | _ => assert (b = false) as -> by lia end end).
  by rewrite Hc.
Qed.

Lemma lexeme_scanned l t s n : lexeme_ok l → (n ≠ 0)%nat →
  scan_loop n (at_text (write_lexeme l ++ spaced t) [] s) = Ok (token_of l, at_text (spaced t) [] s).
Proof.
  intros Hl Hn. destruct l as [w|w|c|o|b|ip fp f]; cbn [write_lexeme token_of lexeme_ok] in *.
  - destruct Hl as [Hw Hr]. rewrite name_scanned by done. by rewrite not_reserved.
  - rewrite name_scanned by (first [by apply name_like_word|done]). do 2 f_equal.
    pose proof (word_indexed w Hl) as Hi. destruct (reserved_index (to_bytes w) 0 reserved_words) as [[i r]|]; [done|by destruct Hi].
  - by apply char_scanned.
  - by apply op_scanned.
  - by apply quote_scanned.
  - by apply numeral_scanned.
Qed.

(** The text of a list of lexemes. *)
Definition text_of (ls : list lexeme) : bytes := flat_map (λ l, write_lexeme l ++ [rune_byte 32]) ls.

(** The scanner is before the text [t], up to a byte that it skips. *)
Definition before (s : scanner) (t : bytes) (s0 : scanner) : Prop :=
  ∃ n, scan s = scan_loop n (at_text t [] s0) ∧ (n ≠ 0)%nat.

Lemma before_spaced t s : before (at_text (spaced t) [] s) t s.
Proof.
  pose proof (left_at (spaced t) [] s) as H. exists (pred (left (at_text (spaced t) [] s))).
  split; [|simpl in H; unfold left in *; simpl in *; lia]. unfold scan. rewrite bind_get. destruct (left (at_text (spaced t) [] s)); [lia|].
  cbn [Nat.pred]. cbn [scan_loop]. rewrite bind_get. change (current (at_text (spaced t) [] s)) with 32.
  change (isNewLine 32) with false. cbn [Z.eqb Pos.eqb orb]. erewrite bind_ok; [done|apply advance_at].
Qed.

Lemma before_start name b : before (new_scanner name b) b (new_scanner name b).
Proof.
  exists (S (length b)). split; [|done]. unfold scan. rewrite bind_get. unfold left. replace (length (input (new_scanner name b)) + 2)%nat with (S (S (length b))) by (simpl; lia).
  cbn [scan_loop]. rewrite bind_get. change (current (new_scanner name b)) with 0. change (isNewLine 0) with false. unfold endOfStream.
  cbn [Z.eqb Pos.eqb orb]. erewrite bind_ok; [done|]. by destruct b.
Qed.

Lemma token_not_end l : lexeme_ok l → tk_t (token_of l) ≠ tkEOS.
Proof.
  destruct l as [w|w|c|o|b|ip fp f]; cbn [token_of lexeme_ok tk_t plain]; try (intros _; by vm_compute).
  - revert w. apply Forall_forall. change reserved_words with ["and"; "break"; "do"; "else"; "elseif"; "end"; "false"; "for"; "function"; "goto"; "if";
      "in"; "local"; "nil"; "not"; "or"; "repeat"; "return"; "then"; "true"; "until"; "while"]%string.
    repeat constructor; by vm_compute.
  - intros _. pose proof (byte_range c). unfold tkEOS. lia.
  - unfold tkDoubleColon, tkEOS. lia.
Qed.

Lemma scan_all_written ls s s0 n : Forall lexeme_ok ls → (length ls < n)%nat → before s (text_of ls) s0 →
  ∃ s', scan_all n s = Ok (map token_of ls, s').
Proof.
  revert n s. induction ls as [|l ls IH]; intros n s Hls Hn (k & Hk & Hk'); (destruct n as [|n]; [lia|]); cbn [scan_all].
  - destruct k as [|k]; [done|]. eexists. erewrite bind_ok; [|rewrite Hk; done]. done.
  - inversion Hls as [|? ? Hl Hls']; subst. destruct (IH n _ Hls' ltac:(simpl in Hn; lia) (before_spaced (text_of ls) s0)) as [s' Hs'].
    exists s'. erewrite bind_ok.
    2: { rewrite Hk. unfold text_of. cbn [flat_map]. rewrite <- app_assoc. by apply lexeme_scanned. }
    assert ((tk_t (token_of l) =? tkEOS) = false) as -> by by apply Z.eqb_neq, token_not_end.
    erewrite bind_ok; [|exact Hs']. done.
Qed.

Lemma text_of_length ls : (length ls ≤ length (text_of ls))%nat.
Proof. induction ls as [|l ls IH]; [done|]. unfold text_of in *. cbn [flat_map length]. rewrite !length_app. simpl. lia. Qed.

(** Scanning what was written: the text of names, reserved words, characters, operators,
    strings of any bytes and decimal numbers gives back the tokens of the list, each once
    and in order, with the bytes of the strings and the value that [ParseFloat] gives to the
    digits. *)
Theorem tokens_roundtrip name ls : Forall lexeme_ok ls → tokenize name (text_of ls) = Ok (map token_of ls).
Proof.
  intros Hls. unfold tokenize. destruct (scan_all_written ls (new_scanner name (text_of ls)) (new_scanner name (text_of ls)) (S (S (length (text_of ls)))) Hls) as [s' ->].
  - pose proof (text_of_length ls). lia.
  - apply before_start.
  - done.
Qed.

Lemma tokens_roundtrip_witness :
  let ls := [LWord "local"; LName (to_bytes "x"); LChar "="%char; LNum (to_bytes "0") (Some (to_bytes "5")) (float_lit 1 2);
             LOp tkConcat; LStr [rune_byte 34; rune_byte 10; rune_byte 200]; LChar "["%char] in
  Forall lexeme_ok ls ∧ tokenize "x" (text_of ls) = Ok (map token_of ls).
Proof.
  intros ls. assert (Forall lexeme_ok ls) as H.
  { repeat constructor; by vm_compute. }
  split; [done|]. exact (tokens_roundtrip "x" ls H).
Defined.
