(* ===== verification/LuaProto.v ===== *)
(** * What the Lua compiler builds, and its state

    Function prototypes and values that need no heap (types.go), the descriptions of
    expressions, blocks, labels and functions under construction (code.go), and the state of
    the parser (parser.go).  A compiling action reads and changes this state, or fails. *)
From Stdlib Require Import ZArith Lia Ascii.
From stdpp Require Import base option list gmap strings.
From S2P Require Import Prelude GoNum GoFmt Strconv LuaInstr LuaTable LuaScan.
From Stdlib Require Import SpecFloat.

(** ** Arithmetic *)

(** [math.Pow] and [math.Pow10]. *)
Class GoMath := { math_Pow : float64 → float64 → float64; math_Pow10 : Z → float64 }.

Definition math_Floor (f : float64) : float64 := SFopp (fceil (SFopp f)).

(** [arith(op, v1, v2)], for an instruction's operator. *)
Definition arith `{GoMath} (op : opCode) (v1 v2 : float64) : outcome float64 :=
  match op with
  | opAdd => Ok (fadd v1 v2)
  | opSub => Ok (fsub v1 v2)
  | opMul => Ok (fmul v1 v2)
  | opDiv => Ok (fdiv v1 v2)
  | opMod => Ok (fsub v1 (fmul (math_Floor (fdiv v1 v2)) v2))
  | opPow =>
      if feq v1 (float_of_int 10) && feq (float_of_int (int_of_float v2)) v2 then Ok (math_Pow10 (int_of_float v2))
      else Ok (math_Pow v1 v2)
  | opUnaryMinus => Ok (SFopp v1)
  | _ => Panic "not an arithmetic op code"
  end.

(** [a == b] of two interface values. *)
Definition go_eq (v w : value) : bool :=
  match v, w with VNumber x, VNumber y => feq x y | _, _ => bool_decide (v = w) end.

(** ** Prototypes *)

Record localVariable := mkLocal { lv_name : string; startPC : Z; endPC : Z }.
Record upValueDesc := mkUpValueDesc { uv_name : string; isLocal : bool; uv_index : Z }.

Inductive prototype := mkProto {
  p_constants : list value;
  p_code : list Z;
  p_prototypes : list prototype;
  p_lineInfo : list Z;
  p_localVariables : list localVariable;
  p_upValues : list upValueDesc;
  p_source : string;
  p_lineDefined : Z;
  p_lastLineDefined : Z;
  p_parameterCount : Z;
  p_maxStackSize : Z;
  p_isVarArg : bool
}.

Definition new_prototype (src : string) (line : Z) (vararg : bool) : prototype :=
  mkProto [] [] [] [] [] [] src line 0 0 2 vararg.

(** ** Expressions under construction *)

Inductive expr_kind :=
  | kindVoid | kindNil | kindTrue | kindFalse | kindConstant | kindNumber | kindNonRelocatable | kindLocal
  | kindUpValue | kindIndexed | kindJump | kindRelocatable | kindCall | kindVarArg.
#[export] Instance expr_kind_eq_dec : EqDecision expr_kind.
Proof. solve_decision. Defined.

Record exprDesc := mkExpr {
  e_kind : expr_kind;
  e_index : Z;
  e_table : Z;
  e_tableType : expr_kind;
  e_info : Z;
  e_t : Z;
  e_f : Z;
  e_value : float64
}.

Definition noJump : Z := -1.
Definition noRegister : Z := maxArgA.
Definition maxLocalVariables : Z := 200.
Definition maxStack : Z := 1000000.
Definition maxCallCount : Z := 200.
Definition maxUpValue : Z := 255.
Definition MultipleReturns : Z := -1.

(** [exprDesc{}]. *)
Definition zero_expr : exprDesc := mkExpr kindVoid 0 0 kindVoid 0 0 0 fzero.
Definition makeExpression (k : expr_kind) (info : Z) : exprDesc := mkExpr k 0 0 kindVoid info noJump noJump fzero.
Definition e_set (k : expr_kind) (info : Z) (e : exprDesc) : exprDesc :=
  mkExpr k (e_index e) (e_table e) (e_tableType e) info (e_t e) (e_f e) (e_value e).
Definition e_jumps (t f : Z) (e : exprDesc) : exprDesc :=
  mkExpr (e_kind e) (e_index e) (e_table e) (e_tableType e) (e_info e) t f (e_value e).
Definition e_number (v : float64) (e : exprDesc) : exprDesc :=
  mkExpr (e_kind e) (e_index e) (e_table e) (e_tableType e) (e_info e) (e_t e) (e_f e) v.
Definition e_indexed (tab idx : Z) (tt : expr_kind) (e : exprDesc) : exprDesc :=
  mkExpr (e_kind e) idx tab tt (e_info e) (e_t e) (e_f e) (e_value e).

Definition is_kind (k : expr_kind) (e : exprDesc) : bool := bool_decide (e_kind e = k).
Definition hasJumps (e : exprDesc) : bool := negb (e_t e =? e_f e).
Definition isNumeral (e : exprDesc) : bool := is_kind kindNumber e && (e_t e =? noJump) && (e_f e =? noJump).
Definition isVariable (e : exprDesc) : bool :=
  match e_kind e with kindLocal | kindUpValue | kindIndexed => true | _ => false end.
Definition hasMultipleReturns (e : exprDesc) : bool := is_kind kindCall e || is_kind kindVarArg e.

(** ** Functions under construction *)

Record goto_label := mkLabel { l_name : string; l_pc : Z; l_line : Z; l_active : Z }.
Record block := mkBlock { firstLabel : Z; firstGoto : Z; b_active : Z; hasUpValue : bool; isLoop : bool }.

(** Keys of [constantLookup]: a value, the bits of a float, or the function itself, which
    stands for nil. *)
Inductive const_key := KValue (v : value) | KBits (f : float64) | KNil.
#[export] Instance const_key_eq_dec : EqDecision const_key.
Proof. solve_decision. Defined.
#[export] Instance const_key_countable : Countable const_key.
Proof.
  refine (inj_countable' (λ k, match k with KValue v => inl (inl v) | KBits f => inl (inr f) | KNil => inr () end)
    (λ c, match c with inl (inl v) => KValue v | inl (inr f) => KBits f | inr _ => KNil end) _).
  by intros [].
Defined.

Record function := mkFunction {
  proto : prototype;             (** [*f.f] *)
  constantLookup : gmap const_key Z;
  blocks : list block;           (** [f.block] and the blocks around it *)
  jumpPC : Z;
  lastTarget : Z;
  freeRegisterCount : Z;
  activeVariableCount : Z;
  firstLocal : Z
}.

Definition new_function (p : prototype) (first : Z) : function := mkFunction p ∅ [] noJump 0 0 0 first.

Definition f_code (f : function) : list Z := p_code (proto f).
Definition code_len (f : function) : Z := Z.of_nat (length (f_code f)).

Definition set_proto (p : prototype) (f : function) : function :=
  mkFunction p (constantLookup f) (blocks f) (jumpPC f) (lastTarget f) (freeRegisterCount f) (activeVariableCount f) (firstLocal f).
Definition set_code (c l : list Z) (f : function) : function :=
  let p := proto f in
  set_proto (mkProto (p_constants p) c (p_prototypes p) l (p_localVariables p) (p_upValues p) (p_source p)
    (p_lineDefined p) (p_lastLineDefined p) (p_parameterCount p) (p_maxStackSize p) (p_isVarArg p)) f.
Definition set_constants (c : list value) (k : gmap const_key Z) (f : function) : function :=
  let p := proto f in
  mkFunction (mkProto c (p_code p) (p_prototypes p) (p_lineInfo p) (p_localVariables p) (p_upValues p) (p_source p)
    (p_lineDefined p) (p_lastLineDefined p) (p_parameterCount p) (p_maxStackSize p) (p_isVarArg p))
    k (blocks f) (jumpPC f) (lastTarget f) (freeRegisterCount f) (activeVariableCount f) (firstLocal f).
Definition set_prototypes (c : list prototype) (f : function) : function :=
  let p := proto f in
  set_proto (mkProto (p_constants p) (p_code p) c (p_lineInfo p) (p_localVariables p) (p_upValues p) (p_source p)
    (p_lineDefined p) (p_lastLineDefined p) (p_parameterCount p) (p_maxStackSize p) (p_isVarArg p)) f.
Definition set_localVariables (l : list localVariable) (f : function) : function :=
  let p := proto f in
  set_proto (mkProto (p_constants p) (p_code p) (p_prototypes p) (p_lineInfo p) l (p_upValues p) (p_source p)
    (p_lineDefined p) (p_lastLineDefined p) (p_parameterCount p) (p_maxStackSize p) (p_isVarArg p)) f.
Definition set_upValues (u : list upValueDesc) (f : function) : function :=
  let p := proto f in
  set_proto (mkProto (p_constants p) (p_code p) (p_prototypes p) (p_lineInfo p) (p_localVariables p) u (p_source p)
    (p_lineDefined p) (p_lastLineDefined p) (p_parameterCount p) (p_maxStackSize p) (p_isVarArg p)) f.
Definition set_maxStackSize (n : Z) (f : function) : function :=
  let p := proto f in
  set_proto (mkProto (p_constants p) (p_code p) (p_prototypes p) (p_lineInfo p) (p_localVariables p) (p_upValues p) (p_source p)
    (p_lineDefined p) (p_lastLineDefined p) (p_parameterCount p) n (p_isVarArg p)) f.
Definition set_signature (params last : Z) (vararg : bool) (f : function) : function :=
  let p := proto f in
  set_proto (mkProto (p_constants p) (p_code p) (p_prototypes p) (p_lineInfo p) (p_localVariables p) (p_upValues p) (p_source p)
    (p_lineDefined p) last params (p_maxStackSize p) vararg) f.
Definition set_blocks (b : list block) (f : function) : function :=
  mkFunction (proto f) (constantLookup f) b (jumpPC f) (lastTarget f) (freeRegisterCount f) (activeVariableCount f) (firstLocal f).
Definition set_jumpPC (n : Z) (f : function) : function :=
  mkFunction (proto f) (constantLookup f) (blocks f) n (lastTarget f) (freeRegisterCount f) (activeVariableCount f) (firstLocal f).
Definition set_lastTarget (n : Z) (f : function) : function :=
  mkFunction (proto f) (constantLookup f) (blocks f) (jumpPC f) n (freeRegisterCount f) (activeVariableCount f) (firstLocal f).
Definition set_free (n : Z) (f : function) : function :=
  mkFunction (proto f) (constantLookup f) (blocks f) (jumpPC f) (lastTarget f) n (activeVariableCount f) (firstLocal f).
Definition set_active (n : Z) (f : function) : function :=
  mkFunction (proto f) (constantLookup f) (blocks f) (jumpPC f) (lastTarget f) (freeRegisterCount f) n (firstLocal f).

(** ** The parser *)

Record parser := mkParser {
  scn : scanner;
  fn : function;                 (** [p.function] *)
  outer : list function;         (** the functions around it *)
  activeVariables : list Z;
  pendingGotos : list goto_label;
  activeLabels : list goto_label;
  nestedGoCallCount : Z          (** of the state [l] *)
}.

Definition set_scn (s : scanner) (p : parser) : parser :=
  mkParser s (fn p) (outer p) (activeVariables p) (pendingGotos p) (activeLabels p) (nestedGoCallCount p).
Definition set_fn (f : function) (p : parser) : parser :=
  mkParser (scn p) f (outer p) (activeVariables p) (pendingGotos p) (activeLabels p) (nestedGoCallCount p).
Definition set_fns (f : function) (o : list function) (p : parser) : parser :=
  mkParser (scn p) f o (activeVariables p) (pendingGotos p) (activeLabels p) (nestedGoCallCount p).
Definition set_activeVariables (l : list Z) (p : parser) : parser :=
  mkParser (scn p) (fn p) (outer p) l (pendingGotos p) (activeLabels p) (nestedGoCallCount p).
Definition set_pendingGotos (l : list goto_label) (p : parser) : parser :=
  mkParser (scn p) (fn p) (outer p) (activeVariables p) l (activeLabels p) (nestedGoCallCount p).
Definition set_activeLabels (l : list goto_label) (p : parser) : parser :=
  mkParser (scn p) (fn p) (outer p) (activeVariables p) (pendingGotos p) l (nestedGoCallCount p).
Definition set_nested (n : Z) (p : parser) : parser :=
  mkParser (scn p) (fn p) (outer p) (activeVariables p) (pendingGotos p) (activeLabels p) n.

Definition parsing (A : Type) : Type := parser → outcome (A * parser).
#[export] Instance parsing_ret : MRet parsing := λ A a p, Ok (a, p).
#[export] Instance parsing_bind : MBind parsing := λ A B k m p, '(a, p) ← m p; k a p.

Definition getp {A} (g : parser → A) : parsing A := λ p, Ok (g p, p).
Definition getf {A} (g : function → A) : parsing A := λ p, Ok (g (fn p), p).
Definition modifyp (g : parser → parser) : parsing unit := λ p, Ok ((), g p).
Definition modifyf (g : function → function) : parsing unit := λ p, Ok ((), set_fn (g (fn p)) p).
Definition run_outcome {A} (o : outcome A) : parsing A := λ p, a ← o; Ok (a, p).
(** An action of the embedded scanner. *)
Definition scanning_ {A} (m : scanning A) : parsing A := λ p, '(a, s) ← m (scn p); Ok (a, set_scn s p).
Definition assertp (c : bool) : parsing unit := scanning_ (assert_ c).
Definition fails {A} (message : string) : parsing A := scanning_ (syntaxError message).
Definition parse_panic {A} (message : string) : parsing A := λ _, Panic message.
Definition parse_no_fuel {A} : parsing A := parse_panic "out of fuel".

(** [p.t], [p.s], [p.n] of the embedded token. *)
Definition tok (p : parser) : Z := tk_t (curToken (scn p)).
Definition tok_s (p : parser) : string := to_string (tk_s (curToken (scn p))).
Definition tok_n (p : parser) : float64 := tk_n (curToken (scn p)).
Definition line (p : parser) : Z := lineNumber (scn p).

Definition checkLimit (val limit : Z) (what : string) : parsing unit := λ p,
  if limit <? val then
    let l := p_lineDefined (proto (fn p)) in
    let where_ := if l =? 0 then "main function" else "function at line " +:+ fmt_d l in
    fails ("too many " +:+ what +:+ " (limit is " +:+ fmt_d limit +:+ ") in " +:+ where_) p
  else Ok ((), p).
Definition checkCondition (c : bool) (message : string) : parsing unit := if c then mret () else fails message.
Definition nextp : parsing unit := scanning_ next_token.
Definition testNextp (t : Z) : parsing bool := scanning_ (testNext t).
Definition checkNextp (t : Z) : parsing unit := _ ← scanning_ (check t); nextp.
Definition checkName : parsing string := _ ← scanning_ (check tkName); s ← getp tok_s; _ ← nextp; mret s.
Definition leaveLevel : parsing unit := modifyp (λ p, set_nested (nestedGoCallCount p - 1) p).
Definition enterLevel : parsing unit :=
  _ ← modifyp (λ p, set_nested (nestedGoCallCount p + 1) p);
  n ← getp nestedGoCallCount;
  checkLimit n maxCallCount "Go levels".
