(* ===== verification/LuaCode.v ===== *)
(** * The code generator of Lua (Shopify/go-lua/code.go)

    Every method of [function] as a compiling action.  Lists of pending jumps are threaded
    through the offsets of the jump instructions; a walk along one has fuel for the length
    of the code and one more, since a list without a cycle meets no instruction twice.
    [f.block] and [f.previous] are the heads of lists; where Go would follow a nil pointer
    the action panics. *)
From Stdlib Require Import ZArith Lia Ascii.
From stdpp Require Import base option list gmap strings.
From S2P Require Import Prelude GoNum GoFmt Strconv LuaInstr LuaTable LuaScan LuaProto.
From Stdlib Require Import SpecFloat.

(** ** Instructions in place *)

Definition code_at (pc : Z) : parsing Z := c ← getf f_code; run_outcome (slice_at c pc).
Definition put_code (c : list Z) : parsing unit := modifyf (λ f, set_code c (p_lineInfo (proto f)) f).
Definition change_at (pc : Z) (g : Z → Z) : parsing unit :=
  c ← getf f_code;
  i ← run_outcome (slice_at c pc);
  c' ← run_outcome (slice_put c pc (g i));
  put_code c'.
Definition is_op (o : opCode) (i : Z) : bool := opField i =? op_num o.
Definition is_test (i : Z) : outcome bool :=
  match op_of (opField i) with Some o => Ok (testTMode o) | None => Panic index_panic end.
Definition clen : parsing Z := getf code_len.

(** [f.Instruction(e)]. *)
Definition Instruction (e : exprDesc) : parsing Z := code_at (e_info e).

(** ** Lists of jumps *)

(** [isJumpListWalkable]. *)
Fixpoint walkable (fuel : nat) (c : list Z) (list : Z) : outcome bool :=
  match fuel with
  | O => Panic "stack overflow"
  | S n =>
      if list =? noJump then Ok true
      else if (list <? 0) || (Z.of_nat (length c) <=? list) then Ok false
      else i ← slice_at c list; let offset := getSBx i in
           if offset =? noJump then Ok true else walkable n c (list + 1 + offset)
  end.
Definition walk_fuel : parsing nat := c ← getf f_code; mret (S (length c)).
Definition isJumpListWalkable (list : Z) : parsing bool := n ← walk_fuel; c ← getf f_code; run_outcome (walkable n c list).
Definition assert_walkable (list : Z) : parsing unit := b ← isJumpListWalkable list; assertp b.

(** [f.jump(pc)]: the next element. *)
Definition jump (pc : Z) : parsing Z :=
  _ ← assert_walkable pc;
  i ← code_at pc;
  let offset := getSBx i in
  mret (if negb (offset =? noJump) then pc + 1 + offset else noJump).

(** [f.jumpControl(pc)]: where the instruction is that decides about a jump. *)
Definition jumpControl (pc : Z) : parsing Z :=
  if 1 <=? pc then
    i ← code_at (pc - 1);
    t ← run_outcome (is_test i);
    if (t : bool) then mret (pc - 1) else _ ← code_at pc; mret pc
  else _ ← code_at pc; mret pc.

Fixpoint need_value (fuel : nat) (list : Z) : parsing bool :=
  match fuel with
  | O => parse_no_fuel
  | S n =>
      if list =? noJump then mret false
      else
        c ← jumpControl list;
        i ← code_at c;
        if negb (is_op opTestSet i) then mret true
        else next ← jump list; need_value n next
  end.
Definition needValue (list : Z) : parsing bool := _ ← assert_walkable list; n ← walk_fuel; need_value n list.

Definition patchTestRegister (node register : Z) : parsing bool :=
  c ← jumpControl node;
  i ← code_at c;
  if negb (is_op opTestSet i) then mret false
  else if negb (register =? noRegister) && negb (register =? getB i) then _ ← change_at c (λ i, setA i register); mret true
  else _ ← change_at c (λ i, createABC opTest (getB i) 0 (getC i)); mret true.

Fixpoint remove_values (fuel : nat) (list : Z) : parsing unit :=
  match fuel with
  | O => parse_no_fuel
  | S n =>
      if list =? noJump then mret ()
      else _ ← patchTestRegister list noRegister; next ← jump list; remove_values n next
  end.
Definition removeValues (list : Z) : parsing unit := _ ← assert_walkable list; n ← walk_fuel; remove_values n list.

Definition fixJump (pc dest : Z) : parsing unit :=
  _ ← assert_walkable pc;
  _ ← assertp (negb (dest =? noJump));
  let offset := dest - (pc + 1) in
  _ ← (if maxArgSBx <? Z.abs offset then fails "control structure too long" else mret ());
  change_at pc (λ i, setSBx i offset).

Fixpoint patch_list (fuel : nat) (list target register defaultTarget : Z) : parsing unit :=
  match fuel with
  | O => parse_no_fuel
  | S n =>
      if list =? noJump then mret ()
      else
        next ← jump list;
        v ← patchTestRegister list register;
        _ ← (if (v : bool) then fixJump list target else fixJump list defaultTarget);
        patch_list n next target register defaultTarget
  end.
Definition patchListHelper (list target register defaultTarget : Z) : parsing unit :=
  _ ← assert_walkable list;
  n ← walk_fuel;
  patch_list n list target register defaultTarget.

Definition dischargeJumpPC : parsing unit :=
  j ← getf jumpPC;
  _ ← assert_walkable j;
  n ← clen;
  _ ← patchListHelper j n noRegister n;
  modifyf (set_jumpPC noJump).

Fixpoint concatenate_loop (fuel : nat) (list next l2 : Z) : parsing unit :=
  match fuel with
  | O => parse_no_fuel
  | S n => if negb (next =? noJump) then next' ← jump next; concatenate_loop n next next' l2 else fixJump list l2
  end.
Definition Concatenate (l1 l2 : Z) : parsing Z :=
  _ ← assert_walkable l1;
  if l2 =? noJump then mret l1
  else if l1 =? noJump then mret l2
  else next ← jump l1; n ← walk_fuel; _ ← concatenate_loop n l1 next l2; mret l1.

Definition Label : parsing Z := n ← clen; _ ← modifyf (set_lastTarget n); mret n.

Definition PatchToHere (list : Z) : parsing unit :=
  _ ← assert_walkable list;
  j ← getf jumpPC;
  _ ← assert_walkable j;
  _ ← Label;
  j' ← Concatenate j list;
  _ ← modifyf (set_jumpPC j');
  assert_walkable j'.

Definition PatchList (list target : Z) : parsing unit :=
  n ← clen;
  if target =? n then PatchToHere list
  else _ ← assertp (target <? n); patchListHelper list target noRegister target.

Fixpoint patch_close (fuel : nat) (list level : Z) : parsing unit :=
  match fuel with
  | O => parse_no_fuel
  | S n =>
      if list =? noJump then mret ()
      else
        next ← jump list;
        i ← code_at list;
        _ ← assertp (is_op opJump i && (getA i =? 0) || (level <=? getA i));
        _ ← change_at list (λ i, setA i level);
        patch_close n next level
  end.
Definition PatchClose (list level : Z) : parsing unit :=
  _ ← assert_walkable list;
  n ← walk_fuel;
  patch_close n list (level + 1).

(** ** Emitting instructions *)

Definition encode_instr (i : Z) : parsing Z :=
  p ← getf proto;
  _ ← assertp (length (p_code p) =? length (p_lineInfo p))%nat;
  _ ← dischargeJumpPC;
  l ← getp (λ p, lastLine (scn p));
  _ ← modifyf (λ f, set_code (f_code f ++ [i]) (p_lineInfo (proto f) ++ [int32_of l]) f);
  n ← clen;
  mret (n - 1).

Definition dropLastInstruction : parsing unit :=
  p ← getf proto;
  _ ← assertp (length (p_code p) =? length (p_lineInfo p))%nat;
  modifyf (λ f, set_code (removelast (f_code f)) (removelast (p_lineInfo (proto f))) f).

Definition EncodeABC (op : opCode) (a b c : Z) : parsing Z :=
  _ ← assertp (opMode op =? mode_num iABC);
  _ ← assertp (negb (bMode op =? arg_num opArgN) || (b =? 0));
  _ ← assertp (negb (cMode op =? arg_num opArgN) || (c =? 0));
  _ ← assertp ((a <=? maxArgA) && (b <=? maxArgB) && (c <=? maxArgC));
  encode_instr (createABC op a b c).

Definition encodeABx (op : opCode) (a bx : Z) : parsing Z :=
  _ ← assertp ((opMode op =? mode_num iABx) || (opMode op =? mode_num iAsBx));
  _ ← assertp (cMode op =? arg_num opArgN);
  _ ← assertp ((a <=? maxArgA) && (bx <=? maxArgBx));
  encode_instr (createABx op a bx).

Definition encodeAsBx (op : opCode) (a sbx : Z) : parsing Z := encodeABx op a (sbx + maxArgSBx).
Definition encodeExtraArg (a : Z) : parsing Z := _ ← assertp (a <=? maxArgAx); encode_instr (createAx opExtraArg a).

Definition EncodeConstant (r constant : Z) : parsing Z :=
  if constant <=? maxArgBx then encodeABx opLoadConstant r constant
  else pc ← encodeABx opLoadConstant r 0; _ ← encodeExtraArg constant; mret pc.

Definition loadNil (from n : Z) : parsing unit :=
  c ← getf f_code;
  t ← getf lastTarget;
  let emit := _ ← EncodeABC opLoadNil from (n - 1) 0; mret () in
  if t <? Z.of_nat (length c) then
    previous ← code_at (Z.of_nat (length c) - 1);
    let pf := getA previous in
    let pl := getA previous + getB previous in
    let l := from + n - 1 in
    if is_op opLoadNil previous && ((pf <=? from) && (from <=? pl + 1) || (from <=? pf) && (pf <=? l + 1)) then
      let from' := Z.min from pf in
      let l' := Z.max l pl in
      change_at (Z.of_nat (length c) - 1) (λ i, setB (setA i from') (l' - from'))
    else emit
  else emit.

Definition Jump : parsing Z :=
  j ← getf jumpPC;
  _ ← assert_walkable j;
  _ ← modifyf (set_jumpPC noJump);
  i ← encodeAsBx opJump 0 noJump;
  Concatenate i j.
Definition JumpTo (target : Z) : parsing unit := j ← Jump; PatchList j target.
Definition ReturnNone : parsing unit := _ ← EncodeABC opReturn 0 1 0; mret ().
Definition conditionalJump (op : opCode) (a b c : Z) : parsing Z := _ ← EncodeABC op a b c; Jump.

Definition FixLine (ln : Z) : parsing unit :=
  p ← getf proto;
  l ← run_outcome (slice_put (p_lineInfo p) (Z.of_nat (length (p_code p)) - 1) (int32_of ln));
  modifyf (set_code (p_code p) l).

(** ** Constants *)

Definition addConstant (k : const_key) (v : value) : parsing Z :=
  f ← getf id;
  let cs := p_constants (proto f) in
  let add := let index := Z.of_nat (length cs) in
             _ ← modifyf (set_constants (cs ++ [v]) (<[k := index]> (constantLookup f))); mret index in
  match constantLookup f !! k with
  | Some index => w ← run_outcome (slice_at cs index); if go_eq w v then mret index else add
  | None => add
  end.

Definition NumberConstant (n : float64) : parsing Z :=
  if feq n fzero || is_nan64 n then addConstant (KBits n) (VNumber n) else addConstant (KValue (VNumber n)) (VNumber n).
Definition stringConstant (s : string) : parsing Z := addConstant (KValue (VString s)) (VString s).
Definition booleanConstant (b : bool) : parsing Z := addConstant (KValue (VBool b)) (VBool b).
Definition nilConstant : parsing Z := addConstant KNil VNil.
Definition EncodeString (s : string) : parsing exprDesc := i ← stringConstant s; mret (makeExpression kindConstant i).

(** ** Registers *)

Definition CheckStack (n : Z) : parsing unit :=
  r ← getf freeRegisterCount;
  let n := n + r in
  if maxStack <=? n then fails "function or expression too complex"
  else modifyf (λ f, if p_maxStackSize (proto f) <? n then set_maxStackSize n f else f).
Definition ReserveRegisters (n : Z) : parsing unit :=
  _ ← CheckStack n; modifyf (λ f, set_free (freeRegisterCount f + n) f).

Definition freeRegister (r : Z) : parsing unit :=
  a ← getf activeVariableCount;
  if negb (isConstant r) && (a <=? r) then
    _ ← modifyf (λ f, set_free (freeRegisterCount f - 1) f);
    n ← getf freeRegisterCount;
    if r =? n then mret () else parse_panic (fmt_d r +:+ " != " +:+ fmt_d n)
  else mret ().
Definition freeExpression (e : exprDesc) : parsing unit :=
  if is_kind kindNonRelocatable e then freeRegister (e_info e) else mret ().

(** ** Expressions *)

Definition setReturns (e : exprDesc) (resultCount : Z) : parsing unit :=
  match e_kind e with
  | kindCall => change_at (e_info e) (λ i, setC i (resultCount + 1))
  | kindVarArg =>
      _ ← change_at (e_info e) (λ i, setB i (resultCount + 1));
      r ← getf freeRegisterCount;
      _ ← change_at (e_info e) (λ i, setA i r);
      ReserveRegisters 1
  | _ => mret ()
  end.
Definition SetMultipleReturns (e : exprDesc) : parsing unit := setReturns e MultipleReturns.

Definition SetReturn (e : exprDesc) : parsing exprDesc :=
  match e_kind e with
  | kindCall => i ← Instruction e; mret (e_set kindNonRelocatable (getA i) e)
  | kindVarArg => _ ← change_at (e_info e) (λ i, setB i 2); mret (e_set kindRelocatable (e_info e) e)
  | _ => mret e
  end.

Definition DischargeVariables (e : exprDesc) : parsing exprDesc :=
  match e_kind e with
  | kindLocal => mret (e_set kindNonRelocatable (e_info e) e)
  | kindUpValue => pc ← EncodeABC opGetUpValue 0 (e_info e) 0; mret (e_set kindRelocatable pc e)
  | kindIndexed =>
      _ ← freeRegister (e_index e);
      if bool_decide (e_tableType e = kindLocal) then
        _ ← freeRegister (e_table e);
        pc ← EncodeABC opGetTable 0 (e_table e) (e_index e);
        mret (e_set kindRelocatable pc e)
      else
        pc ← EncodeABC opGetTableUp 0 (e_table e) (e_index e);
        mret (e_set kindRelocatable pc e)
  | kindVarArg | kindCall => SetReturn e
  | _ => mret e
  end.

Definition dischargeToRegister (e : exprDesc) (r : Z) : parsing exprDesc :=
  e ← DischargeVariables e;
  let done := mret (e_set kindNonRelocatable r e) in
  match e_kind e with
  | kindNil => _ ← loadNil r 1; done
  | kindFalse => _ ← EncodeABC opLoadBool r 0 0; done
  | kindTrue => _ ← EncodeABC opLoadBool r 1 0; done
  | kindConstant => _ ← EncodeConstant r (e_info e); done
  | kindNumber => k ← NumberConstant (e_value e); _ ← EncodeConstant r k; done
  | kindRelocatable => _ ← change_at (e_info e) (λ i, setA i r); done
  | kindNonRelocatable => _ ← (if negb (r =? e_info e) then _ ← EncodeABC opMove r (e_info e) 0; mret () else mret ()); done
  | k => _ ← assertp (bool_decide (k = kindVoid) || bool_decide (k = kindJump)); mret e
  end.

Definition dischargeToAnyRegister (e : exprDesc) : parsing exprDesc :=
  if negb (is_kind kindNonRelocatable e) then
    _ ← ReserveRegisters 1;
    r ← getf freeRegisterCount;
    dischargeToRegister e (r - 1)
  else mret e.

Definition encodeLabel (a b jump : Z) : parsing Z := _ ← Label; EncodeABC opLoadBool a b jump.

Definition expressionToRegister (e : exprDesc) (r : Z) : parsing exprDesc :=
  e ← dischargeToRegister e r;
  e ← (if is_kind kindJump e then t ← Concatenate (e_t e) (e_info e); mret (e_jumps t (e_f e) e) else mret e);
  _ ← (if hasJumps e then
         v ← (vt ← needValue (e_t e); if (vt : bool) then mret true else needValue (e_f e));
         '(loadFalse, loadTrue) ← (if (v : bool) then
             j ← (if negb (is_kind kindJump e) then Jump else mret noJump);
             lf ← encodeLabel r 0 1;
             lt ← encodeLabel r 1 0;
             _ ← PatchToHere j;
             mret (lf, lt)
           else mret (noJump, noJump));
         end_ ← Label;
         _ ← patchListHelper (e_f e) end_ r loadFalse;
         patchListHelper (e_t e) end_ r loadTrue
       else mret ());
  mret (e_set kindNonRelocatable r (e_jumps noJump noJump e)).

Definition ExpressionToNextRegister (e : exprDesc) : parsing exprDesc :=
  e ← DischargeVariables e;
  _ ← freeExpression e;
  _ ← ReserveRegisters 1;
  r ← getf freeRegisterCount;
  expressionToRegister e (r - 1).

Definition ExpressionToAnyRegister (e : exprDesc) : parsing exprDesc :=
  e ← DischargeVariables e;
  if is_kind kindNonRelocatable e then
    if negb (hasJumps e) then mret e
    else
      a ← getf activeVariableCount;
      if a <=? e_info e then expressionToRegister e (e_info e) else ExpressionToNextRegister e
  else ExpressionToNextRegister e.

Definition ExpressionToAnyRegisterOrUpValue (e : exprDesc) : parsing exprDesc :=
  if negb (is_kind kindUpValue e) || hasJumps e then ExpressionToAnyRegister e else mret e.

Definition ExpressionToValue (e : exprDesc) : parsing exprDesc :=
  if hasJumps e then ExpressionToAnyRegister e else DischargeVariables e.

Definition expressionToRegisterOrConstant (e : exprDesc) : parsing (exprDesc * Z) :=
  e ← ExpressionToValue e;
  n ← getf (λ f, Z.of_nat (length (p_constants (proto f))));
  let other e := e ← ExpressionToAnyRegister e; mret (e, e_info e) in
  let constant e := if e_info e <=? maxIndexRK then mret (e, asConstant (e_info e)) else other e in
  match e_kind e with
  | kindTrue | kindFalse =>
      if n <=? maxIndexRK then
        i ← booleanConstant (is_kind kindTrue e);
        mret (e_set kindConstant i e, asConstant i)
      else other e
  | kindNil =>
      if n <=? maxIndexRK then i ← nilConstant; mret (e_set kindConstant i e, asConstant i) else other e
  | kindNumber => i ← NumberConstant (e_value e); constant (e_set kindConstant i e)
  | kindConstant => constant e
  | _ => other e
  end.

Definition StoreVariable (v e : exprDesc) : parsing unit :=
  match e_kind v with
  | kindLocal => _ ← freeExpression e; _ ← expressionToRegister e (e_info v); mret ()
  | kindUpValue =>
      e ← ExpressionToAnyRegister e;
      _ ← EncodeABC opSetUpValue (e_info e) (e_info v) 0;
      freeExpression e
  | kindIndexed =>
      '(e, r) ← expressionToRegisterOrConstant e;
      _ ← EncodeABC (if bool_decide (e_tableType v = kindLocal) then opSetTable else opSetTableUp) (e_table v) (e_index v) r;
      freeExpression e
  | _ => _ ← assertp false; freeExpression e
  end.

Definition Self (e key : exprDesc) : parsing exprDesc :=
  e ← ExpressionToAnyRegister e;
  let r := e_info e in
  _ ← freeExpression e;
  base ← getf freeRegisterCount;
  _ ← ReserveRegisters 2;
  '(key, k) ← expressionToRegisterOrConstant key;
  _ ← EncodeABC opSelf base r k;
  _ ← freeExpression key;
  mret (mkExpr kindNonRelocatable 0 0 kindVoid base 0 0 fzero).

(** ** Conditions *)

Definition not_ (b : Z) : Z := if b =? 0 then 1 else 0.

Definition invertJump (pc : Z) : parsing unit :=
  c ← jumpControl pc;
  i ← code_at c;
  t ← run_outcome (is_test i);
  _ ← assertp (t && negb (is_op opTestSet i) && negb (is_op opTest i));
  change_at c (λ i, setA i (not_ (getA i))).

Definition jumpOnCondition (e : exprDesc) (cond : Z) : parsing Z :=
  let test e :=
    e ← dischargeToAnyRegister e;
    _ ← freeExpression e;
    conditionalJump opTestSet noRegister (e_info e) cond in
  if is_kind kindRelocatable e then
    i ← Instruction e;
    if is_op opNot i then _ ← dropLastInstruction; conditionalJump opTest (getB i) 0 (not_ cond) else test e
  else test e.

Definition GoIfTrue (e : exprDesc) : parsing exprDesc :=
  e ← DischargeVariables e;
  pc ← match e_kind e with
       | kindJump => _ ← invertJump (e_info e); mret (e_info e)
       | kindConstant | kindNumber | kindTrue => mret noJump
       | _ => jumpOnCondition e 0
       end;
  f ← Concatenate (e_f e) pc;
  _ ← PatchToHere (e_t e);
  mret (e_jumps noJump f e).

Definition GoIfFalse (e : exprDesc) : parsing exprDesc :=
  e ← DischargeVariables e;
  pc ← match e_kind e with
       | kindJump => mret (e_info e)
       | kindNil | kindFalse => mret noJump
       | _ => jumpOnCondition e 1
       end;
  t ← Concatenate (e_t e) pc;
  _ ← PatchToHere (e_f e);
  mret (e_jumps t noJump e).

Definition encodeNot (e : exprDesc) : parsing exprDesc :=
  e ← DischargeVariables e;
  e ← match e_kind e with
      | kindNil | kindFalse => mret (e_set kindTrue (e_info e) e)
      | kindConstant | kindNumber | kindTrue => mret (e_set kindFalse (e_info e) e)
      | kindJump => _ ← invertJump (e_info e); mret e
      | kindRelocatable | kindNonRelocatable =>
          e ← dischargeToAnyRegister e;
          _ ← freeExpression e;
          pc ← EncodeABC opNot 0 (e_info e) 0;
          mret (e_set kindRelocatable pc e)
      | _ => _ ← assertp false; mret e
      end;
  let e := e_jumps (e_f e) (e_t e) e in
  _ ← removeValues (e_f e);
  _ ← removeValues (e_t e);
  mret e.

(** ** Operators *)

Inductive unary := oprMinus | oprNot | oprLength.
Inductive binary :=
  | oprAdd | oprSub | oprMul | oprDiv | oprMod | oprPow | oprConcat | oprEq | oprLT | oprLE | oprNE | oprGT | oprGE
  | oprAnd | oprOr.
#[export] Instance binary_eq_dec : EqDecision binary.
Proof. solve_decision. Defined.

Definition Indexed (t k : exprDesc) : parsing exprDesc :=
  _ ← assertp (negb (hasJumps t));
  '(k, idx) ← expressionToRegisterOrConstant k;
  tt ← (if is_kind kindUpValue t then mret kindUpValue
        else _ ← assertp (is_kind kindNonRelocatable t || is_kind kindLocal t); mret kindLocal);
  mret (e_indexed (e_info t) idx tt (makeExpression kindIndexed 0)).

Section operators.
Context `{GoMath}.

Definition foldConstants (op : opCode) (e1 e2 : exprDesc) : outcome (exprDesc * bool) :=
  if negb (isNumeral e1) || negb (isNumeral e2) then Ok (e1, false)
  else if (bool_decide (op = opDiv) || bool_decide (op = opMod)) && feq (e_value e2) fzero then Ok (e1, false)
  else v ← arith op (e_value e1) (e_value e2); Ok (e_number v e1, true).

Definition encodeArithmetic (op : opCode) (e1 e2 : exprDesc) (ln : Z) : parsing exprDesc :=
  '(e, folded) ← run_outcome (foldConstants op e1 e2);
  if (folded : bool) then mret e
  else
    '(e2, o2) ← (if negb (bool_decide (op = opUnaryMinus)) && negb (bool_decide (op = opLength))
                 then expressionToRegisterOrConstant e2 else mret (e2, 0));
    '(e1, o1) ← expressionToRegisterOrConstant e1;
    _ ← (if o2 <? o1 then _ ← freeExpression e1; freeExpression e2 else _ ← freeExpression e2; freeExpression e1);
    pc ← EncodeABC op 0 o1 o2;
    _ ← FixLine ln;
    mret (e_set kindRelocatable pc e1).

Definition Prefix (op : unary) (e : exprDesc) (ln : Z) : parsing exprDesc :=
  match op with
  | oprMinus =>
      if isNumeral e then mret (e_number (SFopp (e_value e)) e)
      else e ← ExpressionToAnyRegister e; encodeArithmetic opUnaryMinus e (makeExpression kindNumber 0) ln
  | oprNot => encodeNot e
  | oprLength => e ← ExpressionToAnyRegister e; encodeArithmetic opLength e (makeExpression kindNumber 0) ln
  end.

Definition Infix (op : binary) (e : exprDesc) : parsing exprDesc :=
  match op with
  | oprAnd => GoIfTrue e
  | oprOr => GoIfFalse e
  | oprConcat => ExpressionToNextRegister e
  | oprAdd | oprSub | oprMul | oprDiv | oprMod | oprPow =>
      if negb (isNumeral e) then '(e, _) ← expressionToRegisterOrConstant e; mret e else mret e
  | _ => '(e, _) ← expressionToRegisterOrConstant e; mret e
  end.

Definition encodeComparison (op : opCode) (cond : Z) (e1 e2 : exprDesc) : parsing exprDesc :=
  '(e1, o1) ← expressionToRegisterOrConstant e1;
  '(e2, o2) ← expressionToRegisterOrConstant e2;
  _ ← freeExpression e2;
  _ ← freeExpression e1;
  j ← (if (cond =? 0) && negb (bool_decide (op = opEqual)) then conditionalJump op 1 o2 o1 else conditionalJump op cond o1 o2);
  mret (makeExpression kindJump j).

(** [opCode(op-oprAdd) + opAdd], [opCode(op-oprEq) + opEqual], [opCode(op-oprNE) + opEqual]. *)
Definition op_for (op : binary) : opCode :=
  match op with
  | oprAdd => opAdd | oprSub => opSub | oprMul => opMul | oprDiv => opDiv | oprMod => opMod | oprPow => opPow
  | oprConcat => opConcat
  | oprEq | oprNE => opEqual | oprLT | oprGT => opLessThan | oprLE | oprGE => opLessOrEqual
  | oprAnd | oprOr => opTest
  end.

Definition Postfix (op : binary) (e1 e2 : exprDesc) (ln : Z) : parsing exprDesc :=
  match op with
  | oprAnd =>
      _ ← assertp (e_t e1 =? noJump);
      e2 ← DischargeVariables e2;
      f ← Concatenate (e_f e2) (e_f e1);
      mret (e_jumps (e_t e2) f e2)
  | oprOr =>
      _ ← assertp (e_f e1 =? noJump);
      e2 ← DischargeVariables e2;
      t ← Concatenate (e_t e2) (e_t e1);
      mret (e_jumps t (e_f e2) e2)
  | oprConcat =>
      e2 ← ExpressionToValue e2;
      let plain_concat := e2' ← ExpressionToNextRegister e2; encodeArithmetic opConcat e1 e2' ln in
      if is_kind kindRelocatable e2 then
        i ← Instruction e2;
        if is_op opConcat i then
          _ ← assertp (e_info e1 =? getB i - 1);
          _ ← freeExpression e1;
          _ ← change_at (e_info e2) (λ i, setB i (e_info e1));
          mret (makeExpression kindRelocatable (e_info e2))
        else plain_concat
      else plain_concat
  | oprAdd | oprSub | oprMul | oprDiv | oprMod | oprPow => encodeArithmetic (op_for op) e1 e2 ln
  | oprEq | oprLT | oprLE => encodeComparison (op_for op) 1 e1 e2
  | oprNE | oprGT | oprGE => encodeComparison (op_for op) 0 e1 e2
  end.
End operators.

(** ** Returns, constructors, assignments *)

Definition Return (e : exprDesc) (resultCount : Z) : parsing unit :=
  a ← getf activeVariableCount;
  if hasMultipleReturns e then
    _ ← SetMultipleReturns e;
    _ ← (if is_kind kindCall e && (resultCount =? 1) then
           _ ← change_at (e_info e) (λ i, setOpCode i opTailCall);
           i ← Instruction e;
           assertp (getA i =? a)
         else mret ());
    _ ← EncodeABC opReturn a (MultipleReturns + 1) 0;
    mret ()
  else if resultCount =? 1 then
    e ← ExpressionToAnyRegister e;
    _ ← EncodeABC opReturn (e_info e) (1 + 1) 0;
    mret ()
  else
    _ ← ExpressionToNextRegister e;
    r ← getf freeRegisterCount;
    _ ← assertp (resultCount =? r - a);
    _ ← EncodeABC opReturn a (resultCount + 1) 0;
    mret ().

Definition setList (base elementCount storeCount : Z) : parsing unit :=
  _ ← assertp (negb (storeCount =? 0));
  let storeCount := if storeCount =? MultipleReturns then 0 else storeCount in
  let c := Z.quot (elementCount - 1) listItemsPerFlush + 1 in
  _ ← (if c <=? maxArgC then EncodeABC opSetList base storeCount c
       else if c <=? maxArgAx then _ ← EncodeABC opSetList base storeCount 0; encodeExtraArg c
       else fails "constructor too long");
  modifyf (set_free (base + 1)).

(** One target of an assignment: its description, changed where it conflicts. *)
Definition conflict_target (e : exprDesc) (extra : Z) (t : exprDesc) : exprDesc * bool :=
  if is_kind kindIndexed t then
    let c1 := bool_decide (e_tableType t = e_kind e) && (e_table t =? e_info e) in
    let t1 := if c1 then e_indexed extra (e_index t) kindLocal t else t in
    let c2 := is_kind kindLocal e && (e_index t1 =? e_info e) in
    let t2 := if c2 then e_indexed (e_table t1) extra (e_tableType t1) t1 else t1 in
    (t2, c1 || c2)
  else (t, false).
Definition CheckConflict (ts : list exprDesc) (e : exprDesc) : parsing (list exprDesc) :=
  extra ← getf freeRegisterCount;
  let r := map (conflict_target e extra) ts in
  _ ← (if existsb snd r then
         _ ← EncodeABC (if is_kind kindLocal e then opMove else opGetUpValue) extra (e_info e) 0;
         ReserveRegisters 1
       else mret ());
  mret (map fst r).

Definition AdjustAssignment (variableCount expressionCount : Z) (e : exprDesc) : parsing unit :=
  let extra := variableCount - expressionCount in
  if hasMultipleReturns e then
    let extra := Z.max (extra + 1) 0 in
    _ ← setReturns e extra;
    if 1 <? extra then ReserveRegisters (extra - 1) else mret ()
  else
    _ ← (if 0 <? expressionCount then _ ← ExpressionToNextRegister e; mret () else mret ());
    if 0 <? extra then
      r ← getf freeRegisterCount;
      _ ← ReserveRegisters extra;
      loadNil r extra
    else mret ().

Definition OpenConstructor : parsing (Z * exprDesc) :=
  pc ← EncodeABC opNewTable 0 0 0;
  t ← ExpressionToNextRegister (makeExpression kindRelocatable pc);
  mret (pc, t).
Definition FlushFieldToConstructor (tableRegister freeRegisters : Z) (k : exprDesc) (v : parsing exprDesc) : parsing unit :=
  '(_, rk) ← expressionToRegisterOrConstant k;
  e ← v;
  '(_, rv) ← expressionToRegisterOrConstant e;
  _ ← EncodeABC opSetTable tableRegister rk rv;
  modifyf (set_free freeRegisters).
Definition FlushToConstructor (tableRegister pending arrayCount : Z) (e : exprDesc) : parsing Z :=
  _ ← ExpressionToNextRegister e;
  if pending =? listItemsPerFlush then _ ← setList tableRegister arrayCount listItemsPerFlush; mret 0 else mret pending.
Definition CloseConstructor (pc tableRegister pending arrayCount hashCount : Z) (e : exprDesc) : parsing unit :=
  arrayCount ← (if negb (pending =? 0) then
      if hasMultipleReturns e then
        _ ← SetMultipleReturns e;
        _ ← setList tableRegister arrayCount MultipleReturns;
        mret (arrayCount - 1)
      else
        _ ← (if negb (is_kind kindVoid e) then _ ← ExpressionToNextRegister e; mret () else mret ());
        _ ← setList tableRegister arrayCount pending;
        mret arrayCount
    else mret arrayCount);
  _ ← change_at pc (λ i, setB i (float8FromInt arrayCount));
  change_at pc (λ i, setC i (float8FromInt hashCount)).

(** ** Local variables *)

(** [f.LocalVariable(i)]: where it is kept. *)
Definition slot_of (p : parser) (f : function) (i : Z) : outcome Z := slice_at (activeVariables p) (firstLocal f + i).
Definition LocalVariable (p : parser) (f : function) (i : Z) : outcome localVariable :=
  idx ← slot_of p f i; slice_at (p_localVariables (proto f)) idx.
Definition change_local (i : Z) (g : localVariable → localVariable) : parsing unit := λ p,
  idx ← slot_of p (fn p) i;
  v ← slice_at (p_localVariables (proto (fn p))) idx;
  l ← slice_put (p_localVariables (proto (fn p))) idx (g v);
  modifyf (set_localVariables l) p.
Definition set_start (pc : Z) (v : localVariable) : localVariable := mkLocal (lv_name v) pc (endPC v).
Definition set_end (pc : Z) (v : localVariable) : localVariable := mkLocal (lv_name v) (startPC v) pc.

(** A loop over the [n] variables from [i] on. *)
Fixpoint each_local (n : nat) (i : Z) (g : localVariable → localVariable) : parsing unit :=
  match n with O => mret () | S n => _ ← change_local i g; each_local n (i + 1) g end.

Definition AdjustLocalVariables (n : Z) : parsing unit :=
  a ← getf activeVariableCount;
  _ ← modifyf (set_active (a + n));
  pc ← clen;
  each_local (Z.to_nat n) a (set_start pc).

Definition removeLocalVariables (level : Z) : parsing unit :=
  a ← getf activeVariableCount;
  pc ← clen;
  _ ← each_local (Z.to_nat (a - level)) level (set_end pc);
  l ← getp activeVariables;
  let keep := Z.of_nat (length l) - (a - level) in
  _ ← (if (0 <=? keep) && (keep <=? Z.of_nat (length l)) then mret () else parse_panic "runtime error: slice bounds out of range");
  _ ← modifyp (set_activeVariables (take (Z.to_nat keep) l));
  modifyf (set_active level).

Definition MakeLocalVariable (name : string) : parsing unit :=
  r ← getf (λ f, Z.of_nat (length (p_localVariables (proto f))));
  _ ← modifyf (λ f, set_localVariables (p_localVariables (proto f) ++ [mkLocal name 0 0]) f);
  l ← getp activeVariables;
  first ← getf firstLocal;
  _ ← checkLimit (Z.of_nat (length l) + 1 - first) maxLocalVariables "local variables";
  modifyp (set_activeVariables (l ++ [r])).

(** ** Labels, gotos and blocks *)

Definition semanticError {A} (message : string) : parsing A :=
  _ ← scanning_ (modify (λ s, set_tokens (lookAheadToken s) (mkToken 0 (tk_n (curToken s)) (tk_s (curToken s))) s));
  fails message.

Definition undefinedGotoError {A} (g : goto_label) : parsing A :=
  if isReserved (l_name g) then semanticError ("<" +:+ l_name g +:+ "> at line " +:+ fmt_d (l_line g) +:+ " not inside a loop")
  else semanticError ("no visible label '" +:+ l_name g +:+ "' for <goto> at line " +:+ fmt_d (l_line g)).

Definition MakeLabel (name : string) (ln : Z) : parsing Z :=
  pc ← clen;
  a ← getf activeVariableCount;
  _ ← modifyp (λ p, set_activeLabels (activeLabels p ++ [mkLabel name pc ln a]) p);
  n ← getp (λ p, Z.of_nat (length (activeLabels p)));
  mret (n - 1).

Definition closeGoto (i : Z) (l : goto_label) : parsing unit :=
  gs ← getp pendingGotos;
  g ← run_outcome (slice_at gs i);
  _ ← assertp (bool_decide (l_name g = l_name l));
  _ ← (if l_active g <? l_active l then
         v ← (λ p, v ← LocalVariable p (fn p) (l_active g); Ok (v, p));
         semanticError ("<goto " +:+ l_name g +:+ "> at line " +:+ fmt_d (l_line g) +:+ " jumps into the scope of local '" +:+ lv_name v +:+ "'")
       else mret ());
  _ ← PatchList (l_pc g) (l_pc l);
  modifyp (λ p, set_pendingGotos (delete (Z.to_nat i) (pendingGotos p)) p).

(** The current block; [f.block] may be nil. *)
Definition this_block : parsing block :=
  bs ← getf blocks;
  match bs with b :: _ => mret b | [] => parse_panic "runtime error: invalid memory address or nil pointer dereference" end.

(** [l[n:]]. *)
Definition slice_from {A} (l : list A) (n : Z) : outcome (list A) :=
  if (0 <=? n) && (n <=? Z.of_nat (length l)) then Ok (drop (Z.to_nat n) l) else Panic "runtime error: slice bounds out of range".

(** 0 if the goto was closed and removed, else 1. *)
Definition findLabel (i : Z) : parsing Z :=
  gs ← getp pendingGotos;
  g ← run_outcome (slice_at gs i);
  b ← this_block;
  all ← getp activeLabels;
  ls ← run_outcome (slice_from all (firstLabel b));
  match List.find (λ l, bool_decide (l_name l = l_name g)) ls with
  | Some l =>
      _ ← (if (l_active l <? l_active g) && (hasUpValue b || (firstLabel b <? Z.of_nat (length all)))
           then PatchClose (l_pc g) (l_active l) else mret ());
      _ ← closeGoto i l;
      mret 0
  | None => mret 1
  end.

Definition MakeGoto (name : string) (ln pc : Z) : parsing unit :=
  a ← getf activeVariableCount;
  _ ← modifyp (λ p, set_pendingGotos (pendingGotos p ++ [mkLabel name pc ln a]) p);
  n ← getp (λ p, Z.of_nat (length (pendingGotos p)));
  _ ← findLabel (n - 1);
  mret ().

Definition CheckRepeatedLabel (name : string) : parsing unit :=
  b ← this_block;
  all ← getp activeLabels;
  ls ← run_outcome (slice_from all (firstLabel b));
  match List.find (λ l, bool_decide (l_name l = name)) ls with
  | Some l => semanticError ("label '" +:+ name +:+ "' already defined on line " +:+ fmt_d (l_line l))
  | None => mret ()
  end.

Fixpoint find_gotos (fuel : nat) (i : Z) (l : goto_label) : parsing unit :=
  match fuel with
  | O => parse_no_fuel
  | S n =>
      gs ← getp pendingGotos;
      if i <? Z.of_nat (length gs) then
        g ← run_outcome (slice_at gs i);
        if bool_decide (l_name g = l_name l) then _ ← closeGoto i l; find_gotos n i l else find_gotos n (i + 1) l
      else mret ()
  end.
Definition FindGotos (lab : Z) : parsing unit :=
  b ← this_block;
  all ← getp activeLabels;
  l ← run_outcome (slice_at all lab);
  n ← getp (λ p, length (pendingGotos p));
  find_gotos (S n) (firstGoto b) l.

(** One goto leaves the block [b]. *)
Definition leave_goto (b : block) (i : Z) : parsing unit :=
  gs ← getp pendingGotos;
  g ← run_outcome (slice_at gs i);
  if b_active b <? l_active g then
    _ ← (if hasUpValue b then PatchClose (l_pc g) (b_active b) else mret ());
    gs ← run_outcome (slice_put gs i (mkLabel (l_name g) (l_pc g) (l_line g) (b_active b)));
    modifyp (set_pendingGotos gs)
  else mret ().
Fixpoint move_gotos (fuel : nat) (b : block) (i : Z) : parsing unit :=
  match fuel with
  | O => parse_no_fuel
  | S n =>
      gs ← getp pendingGotos;
      if i <? Z.of_nat (length gs) then
        _ ← leave_goto b i;
        k ← findLabel i;
        move_gotos n b (i + k)
      else mret ()
  end.
Definition moveGotosOut (b : block) : parsing unit := n ← getp (λ p, length (pendingGotos p)); move_gotos (S n) b (firstGoto b).

Definition EnterBlock (loop : bool) : parsing unit :=
  labels ← getp (λ p, Z.of_nat (length (activeLabels p)));
  gotos ← getp (λ p, Z.of_nat (length (pendingGotos p)));
  a ← getf activeVariableCount;
  _ ← modifyf (λ f, set_blocks (mkBlock labels gotos a false loop :: blocks f) f);
  r ← getf freeRegisterCount;
  assertp (r =? a).

Definition breakLabel : parsing unit := l ← MakeLabel "break" 0; FindGotos l.

Definition LeaveBlock : parsing unit :=
  b ← this_block;
  bs ← getf (λ f, tail (blocks f));
  let inner := match bs with [] => false | _ => true end in
  _ ← (if inner && hasUpValue b then j ← Jump; _ ← PatchClose j (b_active b); PatchToHere j else mret ());
  _ ← (if isLoop b then breakLabel else mret ());
  _ ← modifyf (set_blocks bs);
  _ ← removeLocalVariables (b_active b);
  a ← getf activeVariableCount;
  _ ← assertp (b_active b =? a);
  _ ← modifyf (set_free a);
  all ← getp activeLabels;
  _ ← (if firstLabel b <=? Z.of_nat (length all) then mret () else parse_panic "runtime error: slice bounds out of range");
  _ ← modifyp (set_activeLabels (take (Z.to_nat (firstLabel b)) all));
  gs ← getp pendingGotos;
  if inner then moveGotosOut b
  else if firstGoto b <? Z.of_nat (length gs) then g ← run_outcome (slice_at gs (firstGoto b)); undefinedGotoError g
  else mret ().

(** ** Functions *)

Definition OpenFunction (ln : Z) : parsing unit :=
  src ← getp (λ p, source (scn p));
  _ ← modifyf (λ f, set_prototypes (p_prototypes (proto f) ++ [new_prototype src ln false]) f);
  first ← getp (λ p, Z.of_nat (length (activeVariables p)));
  _ ← modifyp (λ p, set_fns (new_function (new_prototype src ln false) first) (fn p :: outer p) p);
  EnterBlock false.

(** An action of the function around the current one. *)
Definition in_previous {A} (m : parsing A) : parsing A := λ p,
  match outer p with
  | [] => Panic "runtime error: invalid memory address or nil pointer dereference"
  | f :: o => '(a, q) ← m (set_fns f o p); Ok (a, set_fns (fn p) (fn q :: outer q) q)
  end.

(** The prototype under construction is the last one of the function around it, which is
    current again. *)
Definition finish_function : parsing unit := λ p,
  match outer p with
  | [] => Panic "runtime error: invalid memory address or nil pointer dereference"
  | f :: o => Ok ((), set_fns (set_prototypes (removelast (p_prototypes (proto f)) ++ [proto (fn p)]) f) o p)
  end.
Definition assert_no_block : parsing unit := bs ← getf blocks; assertp (match bs with [] => true | _ => false end).
Definition CloseFunction : parsing exprDesc :=
  e ← in_previous (n ← getf (λ f, Z.of_nat (length (p_prototypes (proto f))));
                   pc ← encodeABx opClosure 0 (n - 1);
                   ExpressionToNextRegister (makeExpression kindRelocatable pc));
  _ ← ReturnNone;
  _ ← LeaveBlock;
  _ ← assert_no_block;
  _ ← finish_function;
  mret e.

(** ** Variables *)

Definition makeUpValue (p : parser) (name : string) (e : exprDesc) (f : function) : outcome (Z * function) :=
  let us := p_upValues (proto f) in
  _ ← checkLimit (Z.of_nat (length us) + 1) maxUpValue "upvalues" p;
  Ok (Z.of_nat (length us), set_upValues (us ++ [mkUpValueDesc name (is_kind kindLocal e) (e_info e)]) f).

(** [find]: the innermost active variable of the name, among the first [n]. *)
Fixpoint find_local (n : nat) (p : parser) (f : function) (name : string) : outcome (option Z) :=
  match n with
  | O => Ok None
  | S n =>
      v ← LocalVariable p f (Z.of_nat n);
      if bool_decide (name = lv_name v) then Ok (Some (Z.of_nat n)) else find_local n p f name
  end.

Fixpoint find_upvalue (i : Z) (us : list upValueDesc) (name : string) : option Z :=
  match us with
  | [] => None
  | u :: us => if bool_decide (uv_name u = name) then Some i else find_upvalue (i + 1) us name
  end.

(** [owningBlock(f.block, level).hasUpValue = true]. *)
Fixpoint mark_block (level : Z) (bs : list block) : outcome (list block) :=
  match bs with
  | [] => Panic "runtime error: invalid memory address or nil pointer dereference"
  | b :: bs =>
      if level <? b_active b then bs' ← mark_block level bs; Ok (b :: bs')
      else Ok (mkBlock (firstLabel b) (firstGoto b) (b_active b) true (isLoop b) :: bs)
  end.

(** The functions from the current one outwards; they may gain an upvalue. *)
Fixpoint singleVariableHelper (p : parser) (fs : list function) (name : string) (base : bool) : outcome (exprDesc * bool * list function) :=
  match fs with
  | [] => Ok (zero_expr, false, [])
  | f :: fs =>
      v ← find_local (Z.to_nat (activeVariableCount f)) p f name;
      match v with
      | Some v =>
          f ← (if base then Ok f else bs ← mark_block v (blocks f); Ok (set_blocks bs f));
          Ok (makeExpression kindLocal v, true, f :: fs)
      | None =>
          match find_upvalue 0 (p_upValues (proto f)) name with
          | Some v => Ok (makeExpression kindUpValue v, true, f :: fs)
          | None =>
              '(e, found, fs) ← singleVariableHelper p fs name false;
              if (found : bool) then '(u, f) ← makeUpValue p name e f; Ok (makeExpression kindUpValue u, true, f :: fs)
              else Ok (e, false, f :: fs)
          end
      end
  end.
Definition single_variable (name : string) : parsing (exprDesc * bool) := λ p,
  '(e, found, fs) ← singleVariableHelper p (fn p :: outer p) name true;
  match fs with f :: o => Ok (e, found, set_fns f o p) | [] => Panic "unreachable" end.

Definition SingleVariable (name : string) : parsing exprDesc :=
  '(e, found) ← single_variable name;
  if (found : bool) then mret e
  else
    '(e, found) ← single_variable "_ENV";
    _ ← assertp (found && (is_kind kindLocal e || is_kind kindUpValue e));
    k ← EncodeString name;
    Indexed e k.

(** ** Loops and the main function *)

Definition OpenForBody (base n : Z) (isNumeric : bool) : parsing Z :=
  prep ← (if isNumeric then encodeAsBx opForPrep base noJump else Jump);
  _ ← EnterBlock false;
  _ ← AdjustLocalVariables n;
  _ ← ReserveRegisters n;
  mret prep.
Definition CloseForBody (prep base ln n : Z) (isNumeric : bool) : parsing unit :=
  _ ← LeaveBlock;
  _ ← PatchToHere prep;
  end_ ← (if isNumeric then encodeAsBx opForLoop base noJump
          else _ ← EncodeABC opTForCall base 0 n; _ ← FixLine ln; encodeAsBx opTForLoop (base + 2) noJump);
  _ ← PatchList end_ (prep + 1);
  FixLine ln.

Definition add_env : parsing unit := λ p,
  '(_, f) ← makeUpValue p "_ENV" (makeExpression kindLocal 0) (fn p); Ok ((), set_fn f p).
Definition OpenMainFunction : parsing unit := _ ← EnterBlock false; add_env.
Definition CloseMainFunction : parsing unit :=
  _ ← ReturnNone;
  _ ← LeaveBlock;
  assert_no_block.
