(* ===== verification/LuaParser.v ===== *)
(** * The parser of Lua (Shopify/go-lua/parser.go)

    Recursive descent over the tokens of the scanner; every construct calls the code
    generator as it is read, so that a text becomes a prototype in one pass.  The mutually
    recursive methods are one function of fuel per nonterminal: a level of fuel is a level
    of calls.  [p.l.nestedGoCallCount] bounds the nesting as in the code. *)
From Stdlib Require Import ZArith Lia Ascii.
From stdpp Require Import base option list gmap strings.
From S2P Require Import Prelude GoNum GoFmt Strconv LuaInstr LuaTable LuaScan LuaProto LuaCode.
From Stdlib Require Import SpecFloat.

(** ** Tokens and operators *)

Definition tk_char (c : ascii) : Z := byte_rune c.

Definition unaryOp (t : Z) : option unary :=
  if t =? tkNot then Some oprNot
  else if t =? tk_char "-" then Some oprMinus
  else if t =? tk_char "#" then Some oprLength
  else None.

Definition binaryOp (t : Z) : option binary :=
  if t =? tk_char "+" then Some oprAdd
  else if t =? tk_char "-" then Some oprSub
  else if t =? tk_char "*" then Some oprMul
  else if t =? tk_char "/" then Some oprDiv
  else if t =? tk_char "%" then Some oprMod
  else if t =? tk_char "^" then Some oprPow
  else if t =? tkConcat then Some oprConcat
  else if t =? tkNE then Some oprNE
  else if t =? tkEq then Some oprEq
  else if t =? tk_char "<" then Some oprLT
  else if t =? tkLE then Some oprLE
  else if t =? tk_char ">" then Some oprGT
  else if t =? tkGE then Some oprGE
  else if t =? tkAnd then Some oprAnd
  else if t =? tkOr then Some oprOr
  else None.

(** [priority]: left and right. *)
Definition priority (op : binary) : Z * Z :=
  match op with
  | oprAdd | oprSub => (6, 6)
  | oprMul | oprDiv | oprMod => (7, 7)
  | oprPow => (10, 9)
  | oprConcat => (5, 4)
  | oprEq | oprLT | oprLE | oprNE | oprGT | oprGE => (3, 3)
  | oprAnd => (2, 2)
  | oprOr => (1, 1)
  end.
Definition unaryPriority : Z := 8.

Definition blockFollow (withUntil : bool) : parsing bool :=
  t ← getp tok;
  mret (if bool_decide (t ∈ [tkElse; tkElseif; tkEnd; tkEOS]) then true else if t =? tkUntil then withUntil else false).

Definition checkMatchp (what who where_ : Z) : parsing unit := scanning_ (checkMatch what who where_).
Definition checkNameAsExpression : parsing exprDesc := s ← checkName; EncodeString s.
Definition singleVariable : parsing exprDesc := s ← checkName; SingleVariable s.

Definition fieldSelector (e : exprDesc) : parsing exprDesc :=
  e ← ExpressionToAnyRegisterOrUpValue e;
  _ ← nextp;
  k ← checkNameAsExpression;
  Indexed e k.

(** Fuel for a loop that takes a token in every round: the bytes left, the current token and
    the one looked ahead. *)
Definition tokens_left : parsing nat := getp (λ p, (left (scn p) + 2)%nat).

(** ** Expressions *)

Section grammar.
Context `{GoMath}.

(** What the expressions need of each other, one level of fuel down: an expression, and the
    body of a function. *)
Section expressions.
Context (expression : parsing exprDesc) (subExpression : Z → parsing (exprDesc * option binary))
        (body : bool → Z → parsing exprDesc).

Fixpoint expression_list (fuel : nat) (n : Z) (e : exprDesc) : parsing (exprDesc * Z) :=
  match fuel with
  | O => parse_no_fuel
  | S k =>
      more ← testNextp (tk_char ",");
      if (more : bool) then _ ← ExpressionToNextRegister e; e' ← expression; expression_list k (n + 1) e'
      else mret (e, n)
  end.
Definition expressionList : parsing (exprDesc * Z) := e ← expression; k ← tokens_left; expression_list k 1 e.

Definition index : parsing exprDesc :=
  _ ← nextp;
  e ← expression;
  e ← ExpressionToValue e;
  _ ← checkNextp (tk_char "]");
  mret e.

(** The state of [constructor]: items in the array, in the map, pending, and the last one. *)
Record fields := mkFields { c_a : Z; c_h : Z; c_pending : Z; c_e : exprDesc }.

Definition hash_field (tableRegister free : Z) (c : fields) (k : exprDesc) : parsing fields :=
  _ ← checkNextp (tk_char "=");
  _ ← FlushFieldToConstructor tableRegister free k expression;
  mret (mkFields (c_a c) (c_h c + 1) (c_pending c) (c_e c)).
Definition constructor_field (tableRegister : Z) (c : fields) : parsing fields :=
  free ← getf freeRegisterCount;
  t ← getp tok;
  named ← (if t =? tkName then la ← scanning_ lookAhead; mret (la =? tk_char "=") else mret false);
  if (named : bool) then
    _ ← checkLimit (c_h c) maxInt "items in a constructor";
    k ← checkNameAsExpression;
    hash_field tableRegister free c k
  else if t =? tk_char "[" then k ← index; hash_field tableRegister free c k
  else
    e ← expression;
    _ ← checkLimit (c_a c) maxInt "items in a constructor";
    mret (mkFields (c_a c + 1) (c_h c) (c_pending c + 1) e).

Definition void_e (e : exprDesc) : exprDesc := e_set kindVoid (e_info e) e.
Fixpoint constructor_loop (fuel : nat) (tableRegister : Z) (c : fields) : parsing fields :=
  match fuel with
  | O => parse_no_fuel
  | S k =>
      comma ← testNextp (tk_char ",");
      more ← (if (comma : bool) then mret true else testNextp (tk_char ";"));
      t ← getp tok;
      if more && negb (t =? tk_char "}") then
        c ← (if negb (is_kind kindVoid (c_e c)) then
               pending ← FlushToConstructor tableRegister (c_pending c) (c_a c) (c_e c);
               mret (mkFields (c_a c) (c_h c) pending (void_e (c_e c)))
             else mret c);
        c ← constructor_field tableRegister c;
        constructor_loop k tableRegister c
      else mret c
  end.
Definition constructor_ : parsing exprDesc :=
  '(pc, t) ← OpenConstructor;
  ln ← getp line;
  _ ← checkNextp (tk_char "{");
  tk ← getp tok;
  c ← (if negb (tk =? tk_char "}") then
         c ← constructor_field (e_info t) (mkFields 0 0 0 zero_expr);
         k ← tokens_left;
         constructor_loop k (e_info t) c
       else mret (mkFields 0 0 0 zero_expr));
  _ ← checkMatchp (tk_char "}") (tk_char "{") ln;
  _ ← CloseConstructor pc (e_info t) (c_pending c) (c_a c) (c_h c) (c_e c);
  mret t.

Definition call_arguments (ln : Z) : parsing exprDesc :=
  t ← getp tok;
  if t =? tk_char "(" then
    _ ← nextp;
    t ← getp tok;
    args ← (if t =? tk_char ")" then mret zero_expr
            else '(args, _) ← expressionList; _ ← SetMultipleReturns args; mret args);
    _ ← checkMatchp (tk_char ")") (tk_char "(") ln;
    mret args
  else if t =? tk_char "{" then constructor_
  else if t =? tkString then s ← getp tok_s; args ← EncodeString s; _ ← nextp; mret args
  else fails "function arguments expected".
Definition functionArguments (f : exprDesc) (ln : Z) : parsing exprDesc :=
  args ← call_arguments ln;
  let base := e_info f in
  parameterCount ← (if negb (hasMultipleReturns args) then
      _ ← (if negb (is_kind kindVoid args) then _ ← ExpressionToNextRegister args; mret () else mret ());
      r ← getf freeRegisterCount;
      mret (r - (base + 1))
    else mret MultipleReturns);
  pc ← EncodeABC opCall base (parameterCount + 1) 2;
  _ ← FixLine ln;
  _ ← modifyf (set_free (base + 1));
  mret (makeExpression kindCall pc).

Definition primaryExpression : parsing exprDesc :=
  t ← getp tok;
  if t =? tk_char "(" then
    ln ← getp line;
    _ ← nextp;
    e ← expression;
    _ ← checkMatchp (tk_char ")") (tk_char "(") ln;
    DischargeVariables e
  else if t =? tkName then singleVariable
  else fails "unexpected symbol".

Fixpoint suffixes (fuel : nat) (ln : Z) (e : exprDesc) : parsing exprDesc :=
  match fuel with
  | O => parse_no_fuel
  | S k =>
      t ← getp tok;
      if t =? tk_char "." then e ← fieldSelector e; suffixes k ln e
      else if t =? tk_char "[" then
        e ← ExpressionToAnyRegisterOrUpValue e;
        i ← index;
        e ← Indexed e i;
        suffixes k ln e
      else if t =? tk_char ":" then
        _ ← nextp;
        key ← checkNameAsExpression;
        f ← Self e key;
        e ← functionArguments f ln;
        suffixes k ln e
      else if (t =? tk_char "(") || (t =? tkString) || (t =? tk_char "{") then
        f ← ExpressionToNextRegister e;
        e ← functionArguments f ln;
        suffixes k ln e
      else mret e
  end.
Definition suffixedExpression : parsing exprDesc :=
  ln ← getp line;
  e ← primaryExpression;
  k ← tokens_left;
  suffixes k ln e.

Definition simpleExpression : parsing exprDesc :=
  t ← getp tok;
  let and_next (m : parsing exprDesc) := e ← m; _ ← nextp; mret e in
  if t =? tkNumber then and_next (n ← getp tok_n; mret (e_number n (makeExpression kindNumber 0)))
  else if t =? tkString then and_next (s ← getp tok_s; EncodeString s)
  else if t =? tkNil then and_next (mret (makeExpression kindNil 0))
  else if t =? tkTrue then and_next (mret (makeExpression kindTrue 0))
  else if t =? tkFalse then and_next (mret (makeExpression kindFalse 0))
  else if t =? tkDots then
    and_next (v ← getf (λ f, p_isVarArg (proto f));
              _ ← checkCondition v "cannot use '...' outside a vararg function";
              pc ← EncodeABC opVarArg 0 1 0;
              mret (makeExpression kindVarArg pc))
  else if t =? tk_char "{" then constructor_
  else if t =? tkFunction then _ ← nextp; ln ← getp line; body false ln
  else suffixedExpression.

(** The loop of [subExpression] over binary operators of a priority above [limit]. *)
Fixpoint operators_loop (fuel : nat) (limit : Z) (e : exprDesc) (op : option binary) : parsing (exprDesc * option binary) :=
  match fuel with
  | O => parse_no_fuel
  | S k =>
      match op with
      | Some o =>
          if limit <? (priority o).1 then
            ln ← getp line;
            _ ← nextp;
            e ← Infix o e;
            '(e2, next) ← subExpression (priority o).2;
            e ← Postfix o e e2 ln;
            operators_loop k limit e next
          else mret (e, op)
      | None => mret (e, op)
      end
  end.
Definition sub_expression (limit : Z) : parsing (exprDesc * option binary) :=
  _ ← enterLevel;
  t ← getp tok;
  e ← match unaryOp t with
      | Some u =>
          ln ← getp line;
          _ ← nextp;
          '(e, _) ← subExpression unaryPriority;
          Prefix u e ln
      | None => simpleExpression
      end;
  t ← getp tok;
  k ← tokens_left;
  r ← operators_loop k limit e (binaryOp t);
  _ ← leaveLevel;
  mret r.
End expressions.

(** What statements need of each other, one level of fuel down. *)
Section statements.
Context (expression : parsing exprDesc) (subExpression : Z → parsing (exprDesc * option binary))
        (body : bool → Z → parsing exprDesc) (statement : parsing unit).

Fixpoint statement_list (fuel : nat) : parsing unit :=
  match fuel with
  | O => parse_no_fuel
  | S k =>
      stop ← blockFollow true;
      if (stop : bool) then mret ()
      else
        t ← getp tok;
        if t =? tkReturn then statement else _ ← statement; statement_list k
  end.
Definition statementList : parsing unit := k ← tokens_left; statement_list k.

Definition parse_block : parsing unit := _ ← EnterBlock false; _ ← statementList; LeaveBlock.

(** [assignment(t, n)]: [ts] holds [t] and the targets before it; they come back as
    conflicts have changed them. *)
Fixpoint assignment (fuel : nat) (t : exprDesc) (ts : list exprDesc) (variableCount : Z) : parsing (list exprDesc) :=
  match fuel with
  | O => parse_no_fuel
  | S k =>
      _ ← checkCondition (isVariable t) "syntax error";
      comma ← testNextp (tk_char ",");
      let store ts :=
        match ts with
        | t :: ts => r ← getf freeRegisterCount; _ ← StoreVariable t (makeExpression kindNonRelocatable (r - 1)); mret ts
        | [] => parse_panic "unreachable"
        end in
      if (comma : bool) then
        e ← suffixedExpression expression;
        ts' ← (if negb (is_kind kindIndexed e) then CheckConflict (t :: ts) e else mret (t :: ts));
        n ← getp nestedGoCallCount;
        _ ← checkLimit (variableCount + n) maxCallCount "Go levels";
        ts'' ← assignment k e ts' (variableCount + 1);
        store ts''
      else
        _ ← checkNextp (tk_char "=");
        '(e, n) ← expressionList expression;
        if negb (n =? variableCount) then
          _ ← AdjustAssignment variableCount n e;
          _ ← (if variableCount <? n then modifyf (λ f, set_free (freeRegisterCount f - (n - variableCount)) f) else mret ());
          store (t :: ts)
        else
          e ← SetReturn e;
          _ ← StoreVariable t e;
          mret ts
  end.

Definition forBody (base ln n : Z) (isNumeric : bool) : parsing unit :=
  _ ← AdjustLocalVariables 3;
  _ ← checkNextp tkDo;
  prep ← OpenForBody base n isNumeric;
  _ ← parse_block;
  CloseForBody prep base ln n isNumeric.

Definition for_expr : parsing unit :=
  e ← expression; e ← ExpressionToNextRegister e; assertp (is_kind kindNonRelocatable e).
Definition forNumeric (name : string) (ln : Z) : parsing unit :=
  base ← getf freeRegisterCount;
  _ ← MakeLocalVariable "(for index)";
  _ ← MakeLocalVariable "(for limit)";
  _ ← MakeLocalVariable "(for step)";
  _ ← MakeLocalVariable name;
  _ ← checkNextp (tk_char "=");
  _ ← for_expr;
  _ ← checkNextp (tk_char ",");
  _ ← for_expr;
  step ← testNextp (tk_char ",");
  _ ← (if (step : bool) then for_expr
       else r ← getf freeRegisterCount; k ← NumberConstant (float_of_int 1); _ ← EncodeConstant r k; ReserveRegisters 1);
  forBody base ln 1 true.

Fixpoint for_names (fuel : nat) (n : Z) : parsing Z :=
  match fuel with
  | O => parse_no_fuel
  | S k =>
      comma ← testNextp (tk_char ",");
      if (comma : bool) then name ← checkName; _ ← MakeLocalVariable name; for_names k (n + 1) else mret n
  end.
Definition forList (name : string) : parsing unit :=
  base ← getf freeRegisterCount;
  _ ← MakeLocalVariable "(for generator)";
  _ ← MakeLocalVariable "(for state)";
  _ ← MakeLocalVariable "(for control)";
  _ ← MakeLocalVariable name;
  k ← tokens_left;
  n ← for_names k 4;
  _ ← checkNextp tkIn;
  ln ← getp line;
  '(e, c) ← expressionList expression;
  _ ← AdjustAssignment 3 c e;
  _ ← CheckStack 3;
  forBody base ln (n - 3) false.

Definition forStatement (ln : Z) : parsing unit :=
  _ ← EnterBlock true;
  _ ← nextp;
  name ← checkName;
  t ← getp tok;
  _ ← (if t =? tk_char "=" then forNumeric name ln
       else if (t =? tk_char ",") || (t =? tkIn) then forList name
       else fails "'=' or 'in' expected");
  _ ← checkMatchp tkEnd tkFor ln;
  LeaveBlock.

Definition gotoStatement (pc : Z) : parsing unit :=
  ln ← getp line;
  g ← testNextp tkGoto;
  if (g : bool) then name ← checkName; MakeGoto name ln pc
  else _ ← nextp; MakeGoto "break" ln pc.

Fixpoint skip_empty (fuel : nat) : parsing unit :=
  match fuel with
  | O => parse_no_fuel
  | S k =>
      t ← getp tok;
      if (t =? tk_char ";") || (t =? tkDoubleColon) then _ ← statement; skip_empty k else mret ()
  end.
Definition skipEmptyStatements : parsing unit := k ← tokens_left; skip_empty k.

(** After the condition of an [if]: [None] when its block was only a jump out. *)
Definition then_jump (e : exprDesc) : parsing (option Z) :=
  t ← getp tok;
  if (t =? tkGoto) || (t =? tkBreak) then
    e ← GoIfFalse e;
    _ ← EnterBlock false;
    _ ← gotoStatement (e_t e);
    _ ← skipEmptyStatements;
    stop ← blockFollow false;
    if (stop : bool) then _ ← LeaveBlock; mret None
    else j ← Jump; mret (Some j)
  else
    e ← GoIfTrue e;
    _ ← EnterBlock false;
    mret (Some (e_f e)).
Definition testThenBlock (escapes : Z) : parsing Z :=
  _ ← nextp;
  e ← expression;
  _ ← checkNextp tkThen;
  r ← then_jump e;
  match r with
  | None => mret escapes
  | Some jumpFalse =>
      _ ← statementList;
      _ ← LeaveBlock;
      t ← getp tok;
      escapes ← (if (t =? tkElse) || (t =? tkElseif) then j ← Jump; Concatenate escapes j else mret escapes);
      _ ← PatchToHere jumpFalse;
      mret escapes
  end.
Fixpoint elseif_loop (fuel : nat) (escapes : Z) : parsing Z :=
  match fuel with
  | O => parse_no_fuel
  | S k =>
      t ← getp tok;
      if t =? tkElseif then escapes ← testThenBlock escapes; elseif_loop k escapes else mret escapes
  end.
Definition ifStatement (ln : Z) : parsing unit :=
  escapes ← testThenBlock noJump;
  k ← tokens_left;
  escapes ← elseif_loop k escapes;
  els ← testNextp tkElse;
  _ ← (if (els : bool) then parse_block else mret ());
  _ ← checkMatchp tkEnd tkIf ln;
  PatchToHere escapes.

Definition condition : parsing Z :=
  e ← expression;
  e ← GoIfTrue (if is_kind kindNil e then e_set kindFalse (e_info e) e else e);
  mret (e_f e).
Definition whileStatement (ln : Z) : parsing unit :=
  _ ← nextp;
  top ← Label;
  conditionExit ← condition;
  _ ← EnterBlock true;
  _ ← checkNextp tkDo;
  _ ← parse_block;
  _ ← JumpTo top;
  _ ← checkMatchp tkEnd tkWhile ln;
  _ ← LeaveBlock;
  PatchToHere conditionExit.
Definition repeatStatement (ln : Z) : parsing unit :=
  top ← Label;
  _ ← EnterBlock true;
  _ ← EnterBlock false;
  _ ← nextp;
  _ ← statementList;
  _ ← checkMatchp tkUntil tkRepeat ln;
  conditionExit ← condition;
  b ← this_block;
  _ ← (if hasUpValue b then PatchClose conditionExit (b_active b) else mret ());
  _ ← LeaveBlock;
  _ ← PatchList conditionExit top;
  LeaveBlock.

Definition set_label_active (lab a : Z) : parsing unit := λ p,
  l ← slice_at (activeLabels p) lab;
  ls ← slice_put (activeLabels p) lab (mkLabel (l_name l) (l_pc l) (l_line l) a);
  Ok ((), set_activeLabels ls p).
Definition labelStatement (lab : string) (ln : Z) : parsing unit :=
  _ ← CheckRepeatedLabel lab;
  _ ← checkNextp tkDoubleColon;
  l ← MakeLabel lab ln;
  _ ← skipEmptyStatements;
  stop ← blockFollow false;
  _ ← (if (stop : bool) then b ← this_block; set_label_active l (b_active b) else mret ());
  FindGotos l.

Fixpoint parameters (fuel : nat) (n : Z) : parsing (Z * bool) :=
  match fuel with
  | O => parse_no_fuel
  | S k =>
      t ← getp tok;
      if t =? tkName then
        name ← checkName;
        _ ← MakeLocalVariable name;
        comma ← testNextp (tk_char ",");
        if (comma : bool) then parameters k (n + 1) else mret (n + 1, false)
      else if t =? tkDots then _ ← nextp; mret (n, true)
      else fails "<name> or '...' expected"
  end.
Definition parameterList : parsing unit :=
  t ← getp tok;
  k ← tokens_left;
  '(n, isVarArg) ← (if negb (t =? tk_char ")") then parameters k 0 else mret (0, false));
  _ ← modifyf (λ f, set_signature (p_parameterCount (proto f)) (p_lastLineDefined (proto f)) isVarArg f);
  _ ← AdjustLocalVariables n;
  a ← getf activeVariableCount;
  _ ← modifyf (λ f, set_signature a (p_lastLineDefined (proto f)) (p_isVarArg (proto f)) f);
  ReserveRegisters a.
Definition function_body (isMethod : bool) (ln : Z) : parsing exprDesc :=
  _ ← OpenFunction ln;
  _ ← checkNextp (tk_char "(");
  _ ← (if isMethod then _ ← MakeLocalVariable "self"; AdjustLocalVariables 1 else mret ());
  _ ← parameterList;
  _ ← checkNextp (tk_char ")");
  _ ← statementList;
  last ← getp line;
  _ ← modifyf (λ f, set_signature (p_parameterCount (proto f)) last (p_isVarArg (proto f)) f);
  _ ← checkMatchp tkEnd tkFunction ln;
  CloseFunction.

Fixpoint name_selectors (fuel : nat) (e : exprDesc) : parsing exprDesc :=
  match fuel with
  | O => parse_no_fuel
  | S k => t ← getp tok; if t =? tk_char "." then e ← fieldSelector e; name_selectors k e else mret e
  end.
Definition functionName : parsing (exprDesc * bool) :=
  e ← singleVariable;
  k ← tokens_left;
  e ← name_selectors k e;
  t ← getp tok;
  if t =? tk_char ":" then e ← fieldSelector e; mret (e, true) else mret (e, false).
Definition functionStatement (ln : Z) : parsing unit :=
  _ ← nextp;
  '(v, m) ← functionName;
  e ← body m ln;
  _ ← StoreVariable v e;
  FixLine ln.
Definition localFunction : parsing unit :=
  name ← checkName;
  _ ← MakeLocalVariable name;
  _ ← AdjustLocalVariables 1;
  ln ← getp line;
  e ← body false ln;
  pc ← clen;
  change_local (e_info e) (set_start pc).

Fixpoint local_names (fuel : nat) (v : Z) : parsing Z :=
  match fuel with
  | O => parse_no_fuel
  | S k =>
      name ← checkName;
      _ ← MakeLocalVariable name;
      comma ← testNextp (tk_char ",");
      if (comma : bool) then local_names k (v + 1) else mret (v + 1)
  end.
Definition localStatement : parsing unit :=
  k ← tokens_left;
  v ← local_names k 0;
  init ← testNextp (tk_char "=");
  _ ← (if (init : bool) then '(e, n) ← expressionList expression; AdjustAssignment v n e
       else AdjustAssignment v 0 zero_expr);
  AdjustLocalVariables v.

Definition expressionStatement : parsing unit :=
  e ← suffixedExpression expression;
  t ← getp tok;
  if (t =? tk_char "=") || (t =? tk_char ",") then k ← tokens_left; _ ← assignment k e [] 1; mret ()
  else
    _ ← checkCondition (is_kind kindCall e) "syntax error";
    change_at (e_info e) (λ i, setC i 1).

Definition returnStatement : parsing unit :=
  stop ← blockFollow true;
  t ← getp tok;
  _ ← (if stop || (t =? tk_char ";") then ReturnNone else '(e, n) ← expressionList expression; Return e n);
  _ ← testNextp (tk_char ";");
  mret ().

Definition statement_kind (t ln : Z) : parsing unit :=
  if t =? tk_char ";" then nextp
  else if t =? tkIf then ifStatement ln
  else if t =? tkWhile then whileStatement ln
  else if t =? tkDo then _ ← nextp; _ ← parse_block; checkMatchp tkEnd tkDo ln
  else if t =? tkFor then forStatement ln
  else if t =? tkRepeat then repeatStatement ln
  else if t =? tkFunction then functionStatement ln
  else if t =? tkLocal then
    _ ← nextp;
    f ← testNextp tkFunction;
    if (f : bool) then localFunction else localStatement
  else if t =? tkDoubleColon then _ ← nextp; name ← checkName; labelStatement name ln
  else if t =? tkReturn then _ ← nextp; returnStatement
  else if (t =? tkBreak) || (t =? tkGoto) then pc ← Jump; gotoStatement pc
  else expressionStatement.
Definition one_statement : parsing unit :=
  ln ← getp line;
  _ ← enterLevel;
  t ← getp tok;
  _ ← statement_kind t ln;
  f ← getf id;
  _ ← assertp ((freeRegisterCount f <=? p_maxStackSize (proto f)) && (activeVariableCount f <=? freeRegisterCount f));
  _ ← modifyf (λ f, set_free (activeVariableCount f) f);
  leaveLevel.
End statements.

(** ** The grammar *)

Record nonterminals := mkNonterminals {
  n_subExpression : Z → parsing (exprDesc * option binary);
  n_body : bool → Z → parsing exprDesc;
  n_statement : parsing unit
}.
Definition n_expression (g : nonterminals) : parsing exprDesc := '(e, _) ← n_subExpression g 0; mret e.
Definition step_grammar (g : nonterminals) : nonterminals :=
  mkNonterminals (sub_expression (n_expression g) (n_subExpression g) (n_body g))
                 (function_body (n_statement g))
                 (one_statement (n_expression g) (n_body g) (n_statement g)).
Definition no_grammar : nonterminals := mkNonterminals (λ _, parse_no_fuel) (λ _ _, parse_no_fuel) parse_no_fuel.
Fixpoint grammar (n : nat) : nonterminals := match n with O => no_grammar | S n => step_grammar (grammar n) end.

(** Every second level of calls enters a level of [nestedGoCallCount], which is limited. *)
Definition mainFunction (n : nat) : parsing unit :=
  _ ← OpenMainFunction;
  _ ← nextp;
  _ ← statementList (n_statement (grammar n));
  _ ← scanning_ (check tkEOS);
  CloseMainFunction.

Definition new_parser (name : string) (b : bytes) (nested : Z) : parser :=
  mkParser (new_scanner name b) (new_function (new_prototype name 0 true) 0) [] [] [] [] nested.
(** [parse]: the prototype of the main function of a text. *)
Definition parse (name : string) (b : bytes) (nested : Z) : outcome prototype :=
  '(_, p) ← mainFunction (2 * Z.to_nat (maxCallCount - nested) + 4) (new_parser name b nested); Ok (proto (fn p)).
End grammar.
