(* ===== verification/LuaState.v ===== *)
(** * The state of the Lua machine (Shopify/go-lua: lua.go, stack.go, debug.go, types.go)

    One thread: the value stack, the calls in progress, the heap of tables, closures,
    upvalues and prototypes, and the metatables.  A [lua] action changes the state and ends
    with a value, with a Go panic that [protect] recovers (an error of Lua or of the Go
    runtime), with one that it does not recover, or without fuel.

    Calls: [callInfos] has the current call first; Go keeps the records of finished calls
    for reuse, which is not visible.  The frame of a Lua call is the slice of the stack from
    its base to its top.  No hook is ever set in this program, so hooks are left out.  The
    variables of the functions of Go that the machine calls are its [World]. *)
From Stdlib Require Import ZArith Lia Ascii.
From stdpp Require Import base option list gmap strings.
From S2P Require Import Prelude GoNum GoFmt Strconv LuaInstr LuaTable LuaScan LuaProto.
From Stdlib Require Import SpecFloat.

(** ** The heap *)

(** A prototype in memory: its prototypes are pointers, and it caches its last closure. *)
Record proto_node := mkNode { n_proto : prototype; n_children : list nat; n_cache : option nat }.

Inductive upValue := UOpen (index : Z) | UClosed (v : value).
Record luaClosure := mkClosure { c_proto : nat; c_upValues : list nat }.
Record goClosure := mkGoClosure { g_function : nat; g_upValues : list value }.

Record callInfo := mkCall {
  ci_function : Z;
  ci_base : Z;                   (** the first slot of [frame] *)
  ci_top : Z;
  resultCount : Z;
  ci_lua : bool;
  savedPC : Z;
  ci_code : list Z;              (** [code], which [step] reads *)
  reentry : bool;                (** [callStatusReentry] *)
  tail_called : bool             (** [callStatusTail] *)
}.

(** What [recover] finds: an error of Lua, or one of the Go runtime. *)
Inductive exn := SyntaxError | RuntimeError (m : string) | MemoryError | ErrorError | GoError (m : string).

(** The variables of Go functions that a script can call lie outside the machine. *)
Class World := world_state : Type.

Section world.
Context {Wd : World}.

Record lstate := mkState {
  stack : list value;
  top : Z;
  stackLast : Z;
  callInfos : list callInfo;
  tables : gmap nat table;
  closures : gmap nat luaClosure;
  goClosures : gmap nat goClosure;        (** closures and functions of Go *)
  userDatas : gmap nat (option nat);      (** the metatable of a userdata *)
  protos : gmap nat proto_node;
  upCells : gmap nat upValue;
  openUpValues : list nat;                (** [l.upValues], the newest first *)
  metaTables : gmap Z nat;                (** of the basic types *)
  fresh : nat;
  nestedCalls : Z;                        (** [nestedGoCallCount] *)
  nonYieldable : Z;
  errorFunction : Z;
  registry : nat;                         (** the table of [RegistryIndex] *)
  world : world_state                     (** what Go functions outside the machine keep *)
}.

Inductive result (A : Type) :=
  | Done (a : A) (s : lstate)
  | Throw (x : exn) (s : lstate)
  | Crash (m : string)
  | Diverge.

Definition lua (A : Type) : Type := lstate → result A.
End world.
Arguments Done {_ A} _ _.
Arguments Throw {_ A} _ _.
Arguments Crash {_ A} _.
Arguments Diverge {_ A}.

#[export] Instance lua_ret `{World} : MRet lua := λ A a s, Done a s.
#[export] Instance lua_bind `{World} : MBind lua := λ A B f m s,
  match m s with Done a s => f a s | Throw x s => Throw x s | Crash m => Crash m | Diverge => Diverge end.

Section machine.
Context {Wd : World}.

Definition gets {A} (g : lstate → A) : lua A := λ s, Done (g s) s.
Definition puts (g : lstate → lstate) : lua unit := λ s, Done () (g s).
Definition throw_ {A} (x : exn) : lua A := λ s, Throw x s.
Definition crash {A} (m : string) : lua A := λ _, Crash m.
Definition diverge {A} : lua A := λ _, Diverge.
(** A Go runtime error. *)
Definition go_error {A} (m : string) : lua A := throw_ (GoError m).
Definition of_outcome {A} (o : outcome A) : lua A :=
  match o with Ok a => mret a | Err e => throw_ (RuntimeError (Error e)) | Panic m => go_error m end.
Definition nil_pointer {A} : lua A := go_error "runtime error: invalid memory address or nil pointer dereference".
Definition bad_assertion {A} : lua A := go_error "interface conversion".
Definition of_option {A} (o : option A) : lua A := match o with Some a => mret a | None => nil_pointer end.

(** ** Fields *)

Definition set_stack (l : list value) (s : lstate) : lstate :=
  mkState l (top s) (stackLast s) (callInfos s) (tables s) (closures s) (goClosures s) (userDatas s) (protos s) (upCells s)
    (openUpValues s) (metaTables s) (fresh s) (nestedCalls s) (nonYieldable s) (errorFunction s) (registry s) (world s).
Definition set_top (t : Z) (s : lstate) : lstate :=
  mkState (stack s) t (stackLast s) (callInfos s) (tables s) (closures s) (goClosures s) (userDatas s) (protos s) (upCells s)
    (openUpValues s) (metaTables s) (fresh s) (nestedCalls s) (nonYieldable s) (errorFunction s) (registry s) (world s).
Definition set_stackLast (n : Z) (s : lstate) : lstate :=
  mkState (stack s) (top s) n (callInfos s) (tables s) (closures s) (goClosures s) (userDatas s) (protos s) (upCells s)
    (openUpValues s) (metaTables s) (fresh s) (nestedCalls s) (nonYieldable s) (errorFunction s) (registry s) (world s).
Definition set_calls (c : list callInfo) (s : lstate) : lstate :=
  mkState (stack s) (top s) (stackLast s) c (tables s) (closures s) (goClosures s) (userDatas s) (protos s) (upCells s)
    (openUpValues s) (metaTables s) (fresh s) (nestedCalls s) (nonYieldable s) (errorFunction s) (registry s) (world s).
Definition set_tables (t : gmap nat table) (s : lstate) : lstate :=
  mkState (stack s) (top s) (stackLast s) (callInfos s) t (closures s) (goClosures s) (userDatas s) (protos s) (upCells s)
    (openUpValues s) (metaTables s) (fresh s) (nestedCalls s) (nonYieldable s) (errorFunction s) (registry s) (world s).
Definition set_closures (c : gmap nat luaClosure) (s : lstate) : lstate :=
  mkState (stack s) (top s) (stackLast s) (callInfos s) (tables s) c (goClosures s) (userDatas s) (protos s) (upCells s)
    (openUpValues s) (metaTables s) (fresh s) (nestedCalls s) (nonYieldable s) (errorFunction s) (registry s) (world s).
Definition set_goClosures (c : gmap nat goClosure) (s : lstate) : lstate :=
  mkState (stack s) (top s) (stackLast s) (callInfos s) (tables s) (closures s) c (userDatas s) (protos s) (upCells s)
    (openUpValues s) (metaTables s) (fresh s) (nestedCalls s) (nonYieldable s) (errorFunction s) (registry s) (world s).
Definition set_protos (c : gmap nat proto_node) (s : lstate) : lstate :=
  mkState (stack s) (top s) (stackLast s) (callInfos s) (tables s) (closures s) (goClosures s) (userDatas s) c (upCells s)
    (openUpValues s) (metaTables s) (fresh s) (nestedCalls s) (nonYieldable s) (errorFunction s) (registry s) (world s).
Definition set_cells (c : gmap nat upValue) (s : lstate) : lstate :=
  mkState (stack s) (top s) (stackLast s) (callInfos s) (tables s) (closures s) (goClosures s) (userDatas s) (protos s) c
    (openUpValues s) (metaTables s) (fresh s) (nestedCalls s) (nonYieldable s) (errorFunction s) (registry s) (world s).
Definition set_open (l : list nat) (s : lstate) : lstate :=
  mkState (stack s) (top s) (stackLast s) (callInfos s) (tables s) (closures s) (goClosures s) (userDatas s) (protos s) (upCells s)
    l (metaTables s) (fresh s) (nestedCalls s) (nonYieldable s) (errorFunction s) (registry s) (world s).
Definition set_metaTables (m : gmap Z nat) (s : lstate) : lstate :=
  mkState (stack s) (top s) (stackLast s) (callInfos s) (tables s) (closures s) (goClosures s) (userDatas s) (protos s) (upCells s)
    (openUpValues s) m (fresh s) (nestedCalls s) (nonYieldable s) (errorFunction s) (registry s) (world s).
Definition set_fresh (n : nat) (s : lstate) : lstate :=
  mkState (stack s) (top s) (stackLast s) (callInfos s) (tables s) (closures s) (goClosures s) (userDatas s) (protos s) (upCells s)
    (openUpValues s) (metaTables s) n (nestedCalls s) (nonYieldable s) (errorFunction s) (registry s) (world s).
Definition set_counts (nested yields errf : Z) (s : lstate) : lstate :=
  mkState (stack s) (top s) (stackLast s) (callInfos s) (tables s) (closures s) (goClosures s) (userDatas s) (protos s) (upCells s)
    (openUpValues s) (metaTables s) (fresh s) nested yields errf (registry s) (world s).

Definition set_registry (r : nat) (s : lstate) : lstate :=
  mkState (stack s) (top s) (stackLast s) (callInfos s) (tables s) (closures s) (goClosures s) (userDatas s) (protos s) (upCells s)
    (openUpValues s) (metaTables s) (fresh s) (nestedCalls s) (nonYieldable s) (errorFunction s) r (world s).
Definition set_world (w : world_state) (s : lstate) : lstate :=
  mkState (stack s) (top s) (stackLast s) (callInfos s) (tables s) (closures s) (goClosures s) (userDatas s) (protos s) (upCells s)
    (openUpValues s) (metaTables s) (fresh s) (nestedCalls s) (nonYieldable s) (errorFunction s) (registry s) w.

Definition allocate : lua nat := λ s, Done (fresh s) (set_fresh (S (fresh s)) s).

(** ** Constants of config.go *)

Definition MinStack : Z := 20.
Definition errorStackSize : Z := maxStack + 200.
Definition extraStack : Z := 5.
Definition basicStackSize : Z := 2 * MinStack.
Definition maxTagLoop : nat := 100.
Definition idSize : Z := 60.

(** ** The value stack *)

Definition stack_at (i : Z) : lua value := l ← gets stack; of_outcome (slice_at l i).
Definition stack_put (i : Z) (v : value) : lua unit := l ← gets stack; l' ← of_outcome (slice_put l i v); puts (set_stack l').
Definition push (v : value) : lua unit := t ← gets top; _ ← stack_put t v; puts (set_top (t + 1)).
Definition pop : lua value := t ← gets top; _ ← puts (set_top (t - 1)); stack_at (t - 1).

(** ** The current call *)

Definition this_call : lua callInfo := l ← gets callInfos; of_option (head l).
Definition change_call (g : callInfo → callInfo) : lua unit :=
  l ← gets callInfos; match l with ci :: l => puts (set_calls (g ci :: l)) | [] => nil_pointer end.
Definition set_pc (pc : Z) (ci : callInfo) : callInfo :=
  mkCall (ci_function ci) (ci_base ci) (ci_top ci) (resultCount ci) (ci_lua ci) pc (ci_code ci) (reentry ci) (tail_called ci).
Definition setTop (t : Z) (ci : callInfo) : callInfo :=
  mkCall (ci_function ci) (ci_base ci) t (resultCount ci) (ci_lua ci) (savedPC ci) (ci_code ci) (reentry ci) (tail_called ci).
Definition set_reentry (ci : callInfo) : callInfo :=
  mkCall (ci_function ci) (ci_base ci) (ci_top ci) (resultCount ci) (ci_lua ci) (savedPC ci) (ci_code ci) true (tail_called ci).

Definition stackIndex (slot : Z) : lua Z := ci ← this_call; mret (ci_base ci + slot).
Definition skip_instr : lua unit := change_call (λ ci, set_pc (savedPC ci + 1) ci).
Definition jump_by (offset : Z) : lua unit := change_call (λ ci, set_pc (savedPC ci + offset) ci).

(** [frame[i]]. *)
Definition frame_slot (i : Z) : lua Z :=
  ci ← this_call;
  if (0 <=? i) && (i <? ci_top ci - ci_base ci) then mret (ci_base ci + i) else go_error index_panic.
Definition frame_at (i : Z) : lua value := j ← frame_slot i; stack_at j.
Definition frame_put (i : Z) (v : value) : lua unit := j ← frame_slot i; stack_put j v.

(** [clear_frame(frame[i:j])], and to the end of the frame. *)
Definition fill_nil (i n : nat) (l : list value) : list value :=
  take i l ++ replicate (length (take n (drop i l))) VNil ++ drop (i + n) l.
Definition clear_frame (i j : Z) : lua unit :=
  ci ← this_call;
  l ← gets stack;
  if (0 <=? i) && (i <=? j) && (ci_base ci + j <=? Z.of_nat (length l)) then
    puts (set_stack (fill_nil (Z.to_nat (ci_base ci + i)) (Z.to_nat (j - i)) l))
  else go_error "runtime error: slice bounds out of range".
Definition clear_from (i : Z) : lua unit := ci ← this_call; clear_frame i (ci_top ci - ci_base ci).

(** The closure that runs, and its prototype. *)
Definition closure_at (i : Z) : lua luaClosure :=
  v ← stack_at i;
  match v with VLua id => c ← gets closures; of_option (c !! id) | _ => bad_assertion end.
Definition this_closure : lua luaClosure := ci ← this_call; closure_at (ci_function ci).
Definition node_of (c : luaClosure) : lua proto_node := m ← gets protos; of_option (m !! c_proto c).
Definition prototype_of (ci : callInfo) : lua prototype := c ← closure_at (ci_function ci); n ← node_of c; mret (n_proto n).
Definition this_prototype : lua prototype := ci ← this_call; prototype_of ci.

(** [ci.step()]. *)
Definition step : lua Z :=
  ci ← this_call;
  i ← of_outcome (slice_at (ci_code ci) (savedPC ci));
  _ ← skip_instr;
  mret i.

(** ** Upvalues *)

Definition cell (u : nat) : lua upValue := m ← gets upCells; of_option (m !! u).
Definition set_cell (u : nat) (x : upValue) : lua unit := puts (λ s, set_cells (<[u := x]> (upCells s)) s).

Definition uv_value (u : nat) : lua value :=
  x ← cell u; match x with UOpen i => stack_at i | UClosed v => mret v end.
Definition upValue_at (c : luaClosure) (i : Z) : lua value := u ← of_outcome (slice_at (c_upValues c) i); uv_value u.
Definition setUpValue (c : luaClosure) (i : Z) (v : value) : lua unit :=
  u ← of_outcome (slice_at (c_upValues c) i);
  x ← cell u;
  match x with UOpen j => stack_put j v | UClosed _ => set_cell u (UClosed v) end.

Definition isInStackAt (level : Z) (x : upValue) : bool := match x with UOpen i => i =? level | UClosed _ => false end.
Definition isInStackAbove (level : Z) (x : upValue) : bool := match x with UOpen i => level <=? i | UClosed _ => false end.

Definition newUpValueAt (level : Z) : lua nat :=
  u ← allocate;
  _ ← set_cell u (UOpen level);
  _ ← puts (λ s, set_open (u :: openUpValues s) s);
  mret u.

Fixpoint find_open (us : list nat) (level : Z) : lua (option nat) :=
  match us with
  | [] => mret None
  | u :: us => x ← cell u; if isInStackAt level x then mret (Some u) else find_open us level
  end.
Definition findUpValue (level : Z) : lua nat :=
  us ← gets openUpValues;
  r ← find_open us level;
  match r with Some u => mret u | None => newUpValueAt level end.

(** [uv.close()]. *)
Definition close_cell (u : nat) : lua unit :=
  x ← cell u;
  match x with UOpen i => v ← stack_at i; set_cell u (UClosed v) | UClosed _ => crash "attempt to close already-closed up value" end.

(** [l.close(level)]: elements are unlinked from the list of open upvalues while it is
    walked.  [p] is the element before the current one: when that has just been unlinked
    ([gone]), the current one is unlinked from it only, and stays in the list. *)
Fixpoint close_loop (us : list nat) (level : Z) (gone : bool) : lua (list nat) :=
  match us with
  | [] => mret []
  | u :: us =>
      x ← cell u;
      if isInStackAbove level x then
        _ ← close_cell u;
        rest ← close_loop us level (negb gone);
        mret (if gone then u :: rest else rest)
      else rest ← close_loop us level false; mret (u :: rest)
  end.
Definition close_ (level : Z) : lua unit :=
  us ← gets openUpValues;
  us' ← close_loop us level false;
  puts (set_open us').

(** ** Types and metatables *)

Definition TypeNone : Z := -1.
Definition TypeNil : Z := 0.
Definition TypeBoolean : Z := 1.
Definition TypeNumber : Z := 3.
Definition TypeString : Z := 4.
Definition TypeTable : Z := 5.
Definition TypeFunction : Z := 6.
Definition TypeUserData : Z := 7.
Definition TypeThread : Z := 8.
Definition valueToType (v : value) : Z :=
  match v with
  | VNil => TypeNil | VBool _ => TypeBoolean | VNumber _ => TypeNumber | VString _ => TypeString | VTable _ => TypeTable
  | VUserData _ => TypeUserData | VLua _ | VGoClosure _ | VGoFunction _ => TypeFunction | VThread => TypeThread | VLight _ => TypeNone
  end.
Definition typeNames : list string :=
  ["no value"; "nil"; "boolean"; "userdata"; "number"; "string"; "table"; "function"; "userdata"; "thread"; "proto"; "upval"]%string.
Definition type_name (v : value) : string := default ""%string (typeNames !! Z.to_nat (valueToType v + 1)).

Inductive tm :=
  | tmIndex | tmNewIndex | tmGC | tmMode | tmLen | tmEq | tmAdd | tmSub | tmMul | tmDiv | tmMod | tmPow | tmUnaryMinus
  | tmLT | tmLE | tmConcat | tmCall.
Definition event_of (e : tm) : Z * string :=
  match e with
  | tmIndex => (0, "__index") | tmNewIndex => (1, "__newindex") | tmGC => (2, "__gc") | tmMode => (3, "__mode")
  | tmLen => (4, "__len") | tmEq => (5, "__eq") | tmAdd => (6, "__add") | tmSub => (7, "__sub") | tmMul => (8, "__mul")
  | tmDiv => (9, "__div") | tmMod => (10, "__mod") | tmPow => (11, "__pow") | tmUnaryMinus => (12, "__unm")
  | tmLT => (13, "__lt") | tmLE => (14, "__le") | tmConcat => (15, "__concat") | tmCall => (16, "__call")
  end%string.

Definition table_of (id : nat) : lua table := m ← gets tables; of_option (m !! id).
Definition set_table (id : nat) (t : table) : lua unit := puts (λ s, set_tables (<[id := t]> (tables s)) s).
Definition set_flags (n : Z) (t : table) : table := mkTable (array t) (hash t) (metaTable t) n (iterationKeys t).

(** A byte, [1 << event]. *)
Definition flag_bit (e : tm) : Z := Z.shiftl 1 (event_of e).1 mod 256.

(** [events.tagMethod(event, name)]. *)
Definition tagMethod (mt : nat) (event : tm) : lua value :=
  t ← table_of mt;
  let v := atString (event_of event).2 t in
  _ ← (if is_nil v then set_table mt (set_flags (Z.lor (flags t) (flag_bit event)) t) else mret ());
  mret v.

(** [l.fastTagMethod(table, event)].  The test is [table.flags&1<<event != 0], which Go
    reads as [((table.flags & 1) << event) != 0]. *)
Definition fastTagMethod (mt : option nat) (event : tm) : lua value :=
  match mt with
  | None => mret VNil
  | Some mt =>
      t ← table_of mt;
      if negb (Z.shiftl (Z.land (flags t) 1) (event_of event).1 mod 256 =? 0) then mret VNil else tagMethod mt event
  end.

Definition object_metatable (o : value) : lua (option nat) :=
  match o with
  | VTable id => t ← table_of id; mret (metaTable t)
  | VUserData id => m ← gets userDatas; of_option (m !! id)
  | _ => m ← gets metaTables; mret (m !! valueToType o)
  end.
Definition tagMethodByObject (o : value) (event : tm) : lua value :=
  mt ← object_metatable o;
  match mt with None => mret VNil | Some mt => t ← table_of mt; mret (atString (event_of event).2 t) end.

Definition is_function (v : value) : bool := match v with VLua _ | VGoClosure _ | VGoFunction _ => true | _ => false end.

(** ** Names of variables for messages (types.go) *)

Definition upValueName (p : prototype) (i : Z) : outcome string :=
  u ← slice_at (p_upValues p) i; Ok (if bool_decide (uv_name u = ""%string) then "?"%string else uv_name u).

(** [p.localName(index, pc)]. *)
Fixpoint local_name (vs : list localVariable) (index pc : Z) : option string :=
  match vs with
  | [] => None
  | v :: vs =>
      if startPC v <=? pc then
        if pc <? endPC v then if index - 1 =? 0 then Some (lv_name v) else local_name vs (index - 1) pc
        else local_name vs index pc
      else None
  end.

(** [p.lastLoad(reg, lastPC)]: the loop from [ip], with what it has found and the farthest
    target of a jump. *)
Definition may_load (i reg : Z) : outcome bool :=
  match op_of (opField i) with
  | None => Panic index_panic
  | Some o => Ok match o with
              | opLoadNil => (getA i <=? reg) && (reg <=? getA i + getB i)
              | opTForCall => getA i + 2 <=? reg
              | opCall | opTailCall => getA i <=? reg
              | opJump => false
              | opTest => reg =? getA i
              | o => testAMode o && (reg =? getA i)
              end
  end.
Definition jump_dest (i ip lastPC target : Z) : Z :=
  let dest := ip + 1 + getSBx i in
  if (opField i =? op_num opJump) && (ip <? dest) && (dest <=? lastPC) && (target <? dest) then dest else target.
Fixpoint last_load (n : nat) (code : list Z) (reg ip lastPC target : Z) (found : option Z) : outcome (option Z) :=
  match n with
  | O => Ok found
  | S n =>
      i ← slice_at code ip;
      maybe ← may_load i reg;
      let target := jump_dest i ip lastPC target in
      let found := if (maybe : bool) then if ip <? target then None else Some ip else found in
      last_load n code reg (ip + 1) lastPC target found
  end.
Definition lastLoad (p : prototype) (reg lastPC : Z) : outcome (option Z) := last_load (Z.to_nat lastPC) (p_code p) reg 0 lastPC 0 None.

Definition constant_string (p : prototype) (k : Z) : outcome (option string) :=
  v ← slice_at (p_constants p) k; Ok match v with VString s => Some s | _ => None end.

(** [p.objectName(reg, lastPC)]: a name and its kind, both empty if there is none.  The
    last load lies before [lastPC], which is the fuel. *)
Fixpoint object_name (n : nat) (p : prototype) (reg lastPC : Z) : outcome (string * string) :=
  match n with
  | O => Ok (""%string, ""%string)
  | S n =>
      match local_name (p_localVariables p) (reg + 1) lastPC with
      | Some name => Ok (name, "local"%string)
      | None =>
          let constantName k pc :=
            if isConstant k then s ← constant_string p (constantIndex k); Ok (default "?"%string s)
            else '(name, kind) ← object_name n p k pc; Ok (if bool_decide (kind = "c"%string) then name else "?"%string) in
          l ← lastLoad p reg lastPC;
          match l with
          | None => Ok (""%string, ""%string)
          | Some pc =>
              i ← slice_at (p_code p) pc;
              match op_of (opField i) with
              | Some opMove => if getB i <? getA i then object_name n p (getB i) pc else Ok (""%string, ""%string)
              | Some opGetTableUp =>
                  name ← constantName (getC i) pc;
                  u ← upValueName p (getB i);
                  Ok (name, if bool_decide (u = "_ENV"%string) then "global"%string else "local"%string)
              | Some opGetTable =>
                  name ← constantName (getC i) pc;
                  Ok (name, if bool_decide (local_name (p_localVariables p) (getB i + 1) pc = Some "_ENV"%string)
                            then "global"%string else "local"%string)
              | Some opGetUpValue => u ← upValueName p (getB i); Ok (u, "upvalue"%string)
              | Some opLoadConstant =>
                  s ← constant_string p (getBx i);
                  Ok match s with Some s => (s, "constant"%string) | None => (""%string, ""%string) end
              | Some opLoadConstantEx =>
                  j ← slice_at (p_code p) (pc + 1);
                  s ← constant_string p (getAx j);
                  Ok match s with Some s => (s, "constant"%string) | None => (""%string, ""%string) end
              | Some opSelf => name ← constantName (getC i) pc; Ok (name, "method"%string)
              | _ => Ok (""%string, ""%string)
              end
          end
      end
  end.
Definition objectName (p : prototype) (reg lastPC : Z) : outcome (string * string) :=
  object_name (S (Z.to_nat lastPC)) p reg lastPC.
End machine.
