(* ===== verification/LuaCall.v ===== *)
(** * Errors, conversions and calls of the Lua machine

    Numbers as text and back (types.go), the stack and calls (stack.go), error messages
    (debug.go), protected calls (lua.go).  What may call a Lua or Go function takes [call]
    as an argument, and with it the depth of calls that is left: the knot is tied in
    LuaVM. *)
From Stdlib Require Import ZArith Lia Ascii.
From stdpp Require Import base option list gmap strings.
From S2P Require Import Prelude GoNum GoFmt Strconv LuaInstr LuaTable LuaScan LuaProto LuaState.
From Stdlib Require Import SpecFloat.

Section world.
Context {Wd : World}.

(** ** Numbers and strings *)

Fixpoint drop_zeros (b : bytes) : bytes :=
  match b with c :: b' => if bool_decide (c = "0"%char) then drop_zeros b' else b | [] => [] end.
(** [%.14g]: fourteen digits, the zeros at their end dropped. *)
Definition fmt_g14 (f : float64) : string :=
  match f with
  | S754_nan => "NaN"
  | S754_infinity s => if s then "-Inf" else "+Inf"
  | S754_zero s => if s then "-0" else "0"
  | S754_finite s m e =>
      let '(n, d) := frac m e in
      let dp := find_dp 4 n d ((Z.log2 (Z.pos m) + e) * 30103 / 100000 - 1) in
      let '(n', d') := scale10 n d (14 - dp) in
      let D := round_even n' d' in
      let '(D, dp) := if (D =? 10 ^ 14)%Z then (10 ^ 13, dp + 1) else (D, dp) in
      let ds := to_string (rev (drop_zeros (rev (to_bytes (fmt_d D))))) in
      let nd := Z.of_nat (String.length ds) in
      let exp := dp - 1 in
      let body :=
        if (exp <? -4) || (14 <=? exp) then
          (String.substring 0 1 ds +:+
           (if (nd =? 1)%Z then "" else "." +:+ String.substring 1 (Z.to_nat (nd - 1)%Z) ds) +:+ fmt_exp exp)%string
        else if 0 <? dp then
          (String.substring 0 (Z.to_nat dp) ds +:+ zeros (dp - nd)%Z +:+
           (if (dp <? nd)%Z then "." +:+ String.substring (Z.to_nat dp) (Z.to_nat (nd - dp)%Z) ds else ""))%string
        else ("0." +:+ zeros (- dp)%Z +:+ ds)%string
      in ((if s then "-" else "") +:+ body)%string
  end.
Definition numberToString (f : float64) : string := fmt_g14 f.

(** [toString(r)]. *)
Definition toString (r : value) : option string :=
  match r with VString s => Some s | VNumber f => Some (numberToString f) | _ => None end.
(** [l.toString(index)]: the slot becomes the text. *)
Definition toString_at (index : Z) : lua (option string) :=
  v ← stack_at index;
  match toString v with Some s => _ ← stack_put index (VString s); mret (Some s) | None => mret None end.

(** [strings.TrimSpace] and [len(strings.Fields(s))] on bytes below 128; a space of Unicode
    beyond is kept. *)
Definition is_space (c : ascii) : bool := bool_decide (c ∈ map ascii_of_N [9; 10; 11; 12; 13; 32]%N).
Fixpoint trim_left (b : bytes) : bytes := match b with c :: b' => if is_space c then trim_left b' else b | [] => [] end.
Definition TrimSpace (b : bytes) : bytes := rev (trim_left (rev (trim_left b))).
Fixpoint count_fields (inside : bool) (b : bytes) : Z :=
  match b with
  | [] => 0
  | c :: b => if is_space c then count_fields false b else (if inside then 0 else 1) + count_fields true b
  end.
Definition is_infinite (f : float64) : bool := match f with S754_infinity _ => true | _ => false end.

(** [l.parseNumber_lua(s)] by a scanner of its own; an error is one of the scanner. *)
Definition parseNumber_lua (b : bytes) : outcome (option float64) :=
  if negb (count_fields false b =? 1) || bool_decide (zero ∈ b) then Ok None
  else
    '(t, s) ← scan (mkScanner b 0 [] 0 0 ""%string (plain 0) (plain 0));
    '(v, s) ← (if tk_t t =? 45 then '(t, s) ← scan s; Ok (if tk_t t =? tkNumber then Some (SFopp (tk_n t)) else None, s)
               else if tk_t t =? tkNumber then Ok (Some (tk_n t), s)
               else if tk_t t =? 43 then '(t, s) ← scan s; Ok (if tk_t t =? tkNumber then Some (tk_n t) else None, s)
               else Ok (None, s));
    match v with
    | None => Ok None
    | Some f =>
        '(t, _) ← scan s;
        Ok (if negb (tk_t t =? tkEOS) || is_infinite f || is_nan64 f then None else Some f)
    end.

(** [l.toNumber(r)]: an error of the scanner is caught, its message pushed and popped. *)
Definition toNumber (r : value) : lua (option float64) :=
  match r with
  | VNumber f => mret (Some f)
  | VString s =>
      match parseNumber_lua (TrimSpace (to_bytes s)) with
      | Ok v => mret v
      | Err e => _ ← push (VString (Error e)); _ ← pop; mret None
      | Panic m => crash m
      end
  | _ => mret None
  end.

(** ** The size of the stack *)

Fixpoint until_newline (b : bytes) : bytes :=
  match b with c :: b => if bool_decide (c = ascii_of_N 10) then [] else c :: until_newline b | [] => [] end.
(** [chunkID(source)] of a source that is not empty. *)
Definition chunkID (src : string) : string :=
  let n := Z.of_nat (String.length src) in
  match src with
  | String "=" _ => String.substring 1 (Z.to_nat (if n <=? idSize then n - 1 else idSize - 1)) src
  | String "@" _ =>
      if n <=? idSize then String.substring 1 (Z.to_nat (n - 1)) src
      else ("..." +:+ String.substring 1 (Z.to_nat (idSize - 4)%Z) src)%string
  | _ =>
      let first := to_string (until_newline (to_bytes src)) in
      let close := String dquote "]" in
      if idSize - 14 <? Z.of_nat (String.length first) then ("[string " +:+ String dquote first +:+ "..." +:+ close)%string
      else ("[string " +:+ String dquote first +:+ close)%string
  end.

Section calls.
Context (call : Z → Z → bool → lua unit).

(** The message on the stack becomes an error, through the error handler if there is one. *)
Definition errorMessage {A} : lua A :=
  ef ← gets errorFunction;
  _ ← (if negb (ef =? 0) then
         f ← stack_at ef;
         if is_function f then
           t ← gets top;
           v ← stack_at (t - 1);
           _ ← stack_put t v;
           _ ← stack_put (t - 1) f;
           _ ← puts (set_top (t + 1));
           call (t - 1) 1 false
         else throw_ ErrorError
       else mret ());
  t ← gets top;
  v ← stack_at (t - 1);
  match toString v with
  | Some s => _ ← stack_put (t - 1) (VString s); throw_ (RuntimeError s)
  | None => throw_ (RuntimeError "string expected")
  end.

(** [currentLine]: the line of the instruction at [savedPC], which is the next one. *)
Definition currentLine (ci : callInfo) : lua Z := p ← prototype_of ci; of_outcome (slice_at (p_lineInfo p) (savedPC ci)).

Definition runtimeError {A} (message : string) : lua A :=
  _ ← push (VString message);
  ci ← this_call;
  _ ← (if ci_lua ci then
         ln ← currentLine ci;
         p ← prototype_of ci;
         let src := if bool_decide (p_source p = ""%string) then "?"%string else chunkID (p_source p) in
         push (VString (src +:+ ":" +:+ fmt_d ln +:+ ": " +:+ message))
       else mret ());
  errorMessage.

Definition assert_l (c : bool) : lua unit := if c then mret () else runtimeError "assertion failure".

(** The variable that a type error speaks of: an upvalue or a register with the same value. *)
Fixpoint find_upvalue_of (us : list nat) (i : Z) (v : value) : lua (option Z) :=
  match us with
  | [] => mret None
  | u :: us => w ← uv_value u; if go_eq w v then mret (Some i) else find_upvalue_of us (i + 1) v
  end.
Fixpoint find_register (n : nat) (i : Z) (v : value) : lua (option Z) :=
  match n with
  | O => mret None
  | S n => w ← frame_at i; if go_eq w v then mret (Some i) else find_register n (i + 1) v
  end.
Definition variable_of (v : value) : lua (string * string) :=
  ci ← this_call;
  if ci_lua ci then
    c ← this_closure;
    p ← this_prototype;
    u ← find_upvalue_of (c_upValues c) 0 v;
    match u with
    | Some i => name ← of_outcome (upValueName p i); mret (name, "upvalue"%string)
    | None =>
        r ← find_register (Z.to_nat (ci_top ci - ci_base ci)) 0 v;
        match r with
        | Some i => of_outcome (objectName p i (savedPC ci))
        | None => mret (""%string, ""%string)
        end
    end
  else mret (""%string, ""%string).
Definition typeError {A} (v : value) (operation : string) : lua A :=
  '(name, kind) ← variable_of v;
  if bool_decide (kind = ""%string) then runtimeError ("attempt to " +:+ operation +:+ " a " +:+ type_name v +:+ " value")
  else runtimeError ("attempt to " +:+ operation +:+ " " +:+ kind +:+ " '" +:+ name +:+ "' (a " +:+ type_name v +:+ " value)").

Definition orderError {A} (left right : value) : lua A :=
  if bool_decide (type_name left = type_name right) then runtimeError ("attempt to compare two '" +:+ type_name left +:+ "' values")
  else runtimeError ("attempt to compare '" +:+ type_name left +:+ "' with '" +:+ type_name right +:+ "'").
Definition arithError {A} (v1 v2 : value) : lua A :=
  n ← toNumber v1;
  typeError (match n with None => v1 | Some _ => v2 end) "perform arithmetic on".
Definition concatError {A} (v1 v2 : value) : lua A :=
  let text v := match v with VString _ | VNumber _ => true | _ => false end in
  let v := if text v1 then v2 else v1 in
  _ ← assert_l (negb (text v));
  typeError v "concatenate".

(** ** The stack grows *)

Definition reallocStack (newSize : Z) : lua unit :=
  l ← gets stack;
  last ← gets stackLast;
  _ ← assert_l ((newSize <=? maxStack) || (newSize =? errorStackSize));
  _ ← assert_l (last =? Z.of_nat (length l) - extraStack);
  let l' := l ++ replicate (Z.to_nat newSize - length l) VNil in
  _ ← puts (set_stack l');
  puts (set_stackLast (Z.of_nat (length l') - extraStack)).
Definition growStack (n : Z) : lua unit :=
  l ← gets stack;
  t ← gets top;
  let size := Z.of_nat (length l) in
  if maxStack <? size then throw_ ErrorError
  else
    let newSize := Z.max (Z.min (2 * size) maxStack) (t + n + extraStack) in
    if maxStack <? newSize then _ ← reallocStack errorStackSize; runtimeError "stack overflow"
    else reallocStack newSize.
Definition checkStack (n : Z) : lua unit :=
  t ← gets top;
  last ← gets stackLast;
  if last - t <=? n then growStack n else mret ().

(** ** Frames *)

Definition pushLuaFrame (f base wanted : Z) (p : prototype) : lua unit :=
  let t := base + p_maxStackSize p in
  _ ← puts (λ s, set_calls (mkCall f base t wanted true 0 (p_code p) false false :: callInfos s) s);
  puts (set_top t).
Definition pushGoFrame (f wanted : Z) : lua unit :=
  t ← gets top;
  puts (λ s, set_calls (mkCall f (t + MinStack) (t + MinStack) wanted false 0 [] false false :: callInfos s) s).

(** The results from [first] on move to [result] on; [n] are there, [i] are wanted, all of
    them if [i] is negative. *)
Fixpoint move_results (n : nat) (i result first : Z) : lua (Z * Z) :=
  match n with
  | O => mret (i, result)
  | S n =>
      if i =? 0 then mret (i, result)
      else v ← stack_at first; _ ← stack_put result v; move_results n (i - 1) (result + 1) (first + 1)
  end.
Fixpoint fill_results (n : nat) (result : Z) : lua Z :=
  match n with O => mret result | S n => _ ← stack_put result VNil; fill_results n (result + 1) end.
(** [l.postCall(firstResult)]. *)
Definition postCall (firstResult : Z) : lua bool :=
  ci ← this_call;
  t ← gets top;
  _ ← puts (λ s, set_calls (tail (callInfos s)) s);
  '(i, result) ← move_results (Z.to_nat (t - firstResult)) (resultCount ci) (ci_function ci) firstResult;
  result ← fill_results (Z.to_nat i) result;
  _ ← puts (set_top result);
  mret (negb (resultCount ci =? MultipleReturns)).

(** [copy(stack[to:to+n], stack[from:from+n])], and nil left behind. *)
Fixpoint move_args (n : nat) (from to : Z) : lua unit :=
  match n with
  | O => mret ()
  | S n => v ← stack_at from; _ ← stack_put to v; _ ← stack_put from VNil; move_args n (from + 1) (to + 1)
  end.
(** [l.adjustVarArgs(p, argCount)]. *)
Definition adjustVarArgs (p : prototype) (argCount : Z) : lua Z :=
  _ ← assert_l (p_parameterCount p <=? argCount);
  t ← gets top;
  _ ← move_args (Z.to_nat (p_parameterCount p)) (t - argCount) t;
  mret t.

Fixpoint slide_up (n : nat) (p : Z) : lua unit :=
  match n with O => mret () | S n => v ← stack_at (p - 1); _ ← stack_put p v; slide_up n (p - 1) end.

(** Go functions: [host call f us] runs the function [f] with the upvalues [us], and says
    how many results it has pushed. *)
Context (host : (Z → Z → bool → lua unit) → nat → list value → lua Z).

Definition callGo (f : nat) (us : list value) (function resultCount : Z) : lua unit :=
  _ ← checkStack MinStack;
  _ ← pushGoFrame function resultCount;
  n ← host call f us;
  t ← gets top;
  ci ← this_call;
  _ ← assert_l (n <? t - ci_function ci);
  _ ← postCall (t - n);
  mret ().

(** Arguments that are missing are nil. *)
Definition preCall_lua (c : luaClosure) (function resultCount : Z) : lua unit :=
  n ← node_of c;
  let p := n_proto n in
  _ ← checkStack (p_maxStackSize p);
  t ← gets top;
  let argCount := t - function - 1 in
  let extra := p_parameterCount p - argCount in
  argCount ← (if 0 <? extra then
      _ ← fill_results (Z.to_nat extra) t;
      _ ← puts (set_top (t + extra));
      mret (argCount + extra)
    else mret argCount);
  base ← (if p_isVarArg p then adjustVarArgs p argCount else mret (function + 1));
  pushLuaFrame function base resultCount p.

(** [l.preCall(function, resultCount)]: whether it was a Go function.  The second round is
    that of a metamethod. *)
Fixpoint preCall (fuel : nat) (function resultCount : Z) : lua bool :=
  match fuel with
  | O => diverge
  | S k =>
      f ← stack_at function;
      match f with
      | VGoClosure id =>
          m ← gets goClosures;
          g ← of_option (m !! id);
          _ ← callGo (g_function g) (g_upValues g) function resultCount;
          mret true
      | VGoFunction id =>
          m ← gets goClosures;
          g ← of_option (m !! id);
          _ ← callGo (g_function g) [] function resultCount;
          mret true
      | VLua id =>
          m ← gets closures;
          c ← of_option (m !! id);
          _ ← preCall_lua c function resultCount;
          mret false
      | _ =>
          method ← tagMethodByObject f tmCall;
          if is_function method then
            t ← gets top;
            _ ← slide_up (Z.to_nat (t - function)) t;
            _ ← puts (set_top (t + 1));
            _ ← checkStack 0;
            _ ← stack_put function method;
            preCall k function resultCount
          else typeError f "call"
      end
  end.

(** ** Protected calls *)

Definition setErrorObject (x : exn) (oldTop : Z) : lua unit :=
  _ ← match x with
      | MemoryError => stack_put oldTop (VString "not enough memory")
      | ErrorError => stack_put oldTop (VString "error in error handling")
      | _ => t ← gets top; v ← stack_at (t - 1); stack_put oldTop v
      end;
  puts (set_top (oldTop + 1)).
(** [l.protect(f)]: what a panic leaves, but for the counter of nested calls. *)
Definition protect (f : lua unit) : lua (option exn) := λ s,
  match f s with
  | Done _ s' => Done None (set_counts (nestedCalls s) (nonYieldable s') (errorFunction s') s')
  | Throw x s' => Done (Some x) (set_counts (nestedCalls s) (nonYieldable s') (errorFunction s') s')
  | Crash m => Crash m
  | Diverge => Diverge
  end.
Definition protectedCall (f : lua unit) (oldTop errorFunc : Z) : lua (option exn) :=
  s0 ← gets id;
  _ ← puts (λ s, set_counts (nestedCalls s) (nonYieldable s) errorFunc s);
  err ← protect f;
  _ ← match err with
      | None => mret ()
      | Some x =>
          _ ← close_ oldTop;
          _ ← setErrorObject x oldTop;
          _ ← puts (set_calls (callInfos s0));
          puts (λ s, set_counts (nestedCalls s) (nonYieldable s0) (errorFunction s) s)
      end;
  _ ← puts (λ s, set_counts (nestedCalls s) (nonYieldable s) (errorFunction s0) s);
  mret err.
End calls.
End world.
