(* ===== verification/LuaVM.v ===== *)
(** * The Lua machine (Shopify/go-lua/vm.go)

    Operations on values with their metamethods, one action per instruction, and
    [execute], which runs the current Lua call until it returns to Go.  Instructions that
    call a function of Lua go on with its frame; what calls Lua from Go (metamethods, the
    iterator of a [for], Go functions) goes through [call], with one level of fuel less.
    [execute] spends one unit of fuel on every instruction. *)
From Stdlib Require Import ZArith Lia Ascii.
From stdpp Require Import base option list gmap strings.
From S2P Require Import Prelude GoNum GoFmt Strconv LuaInstr LuaTable LuaScan LuaProto LuaState LuaCall.
From Stdlib Require Import SpecFloat.

Section world.
Context {Wd : World}.

(** ** Numbers *)

(** [math.Mod(x, y)]: exact, with the sign of [x]. *)
Definition math_Mod (x y : float64) : float64 :=
  match x, y with
  | S754_nan, _ | _, S754_nan | S754_infinity _, _ | _, S754_zero _ => S754_nan
  | S754_zero s, _ => S754_zero s
  | _, S754_infinity _ => x
  | S754_finite s m e, S754_finite _ m' e' =>
      let k := Z.min e e' in
      let r := Z.shiftl (Z.pos m) (e - k) mod Z.shiftl (Z.pos m') (e' - k) in
      binary_normalize prec64 emax64 (if s then - r else r) k s
  end.

(** [ls < rs] on strings: the order of their bytes. *)
Fixpoint bytes_lt (a b : bytes) : bool :=
  match a, b with
  | _, [] => false
  | [], _ => true
  | x :: a, y :: b => if byte_rune x <? byte_rune y then true else if byte_rune y <? byte_rune x then false else bytes_lt a b
  end.

Section machine.
Context `{GoMath}.
Context (host : (Z → Z → bool → lua unit) → nat → list value → lua Z).

Section operations.
Context (call : Z → Z → bool → lua unit).

Definition callTagMethod (f p1 p2 : value) : lua value :=
  _ ← push f; _ ← push p1; _ ← push p2;
  t ← gets top;
  ci ← this_call;
  _ ← call (t - 3) 1 (ci_lua ci);
  pop.
Definition callTagMethodV (f p1 p2 p3 : value) : lua unit :=
  _ ← push f; _ ← push p1; _ ← push p2; _ ← push p3;
  t ← gets top;
  ci ← this_call;
  call (t - 4) 0 (ci_lua ci).

(** The first metamethod of the two operands. *)
Definition callBinaryTagMethod (p1 p2 : value) (event : tm) : lua (option value) :=
  m1 ← tagMethodByObject p1 event;
  m ← (if is_nil m1 then tagMethodByObject p2 event else mret m1);
  if is_nil m then mret None else r ← callTagMethod m p1 p2; mret (Some r).
Definition callOrderTagMethod (left right : value) (event : tm) : lua (option bool) :=
  r ← callBinaryTagMethod left right event; mret (option_map (λ v, negb (isFalse v)) r).

Definition op_of_event (e : tm) : opCode :=
  match e with
  | tmSub => opSub | tmMul => opMul | tmDiv => opDiv | tmMod => opMod | tmPow => opPow | tmUnaryMinus => opUnaryMinus
  | _ => opAdd
  end.
(** [l.arith(rb, rc, op)]. *)
Definition arith_values (rb rc : value) (event : tm) : lua value :=
  b ← toNumber rb;
  c ← match b with Some _ => toNumber rc | None => mret None end;
  match b, c with
  | Some b, Some c => f ← of_outcome (arith (op_of_event event) b c); mret (VNumber f)
  | _, _ =>
      r ← callBinaryTagMethod rb rc event;
      match r with Some v => mret v | None => arithError call rb rc end
  end.

Fixpoint table_at (fuel : nat) (t key : value) : lua value :=
  match fuel with
  | O => runtimeError call "loop in table"
  | S n =>
      '(v, m) ← match t with
                | VTable id =>
                    tab ← table_of id;
                    v ← of_outcome (at_ key tab);
                    if negb (is_nil v) then mret (v, VNil)
                    else m ← fastTagMethod (metaTable tab) tmIndex; mret (VNil, m)
                | _ =>
                    m ← tagMethodByObject t tmIndex;
                    if is_nil m then typeError call t "index" else mret (VNil, m)
                end;
      if is_nil m then mret v
      else if is_function m then callTagMethod m t key
      else table_at n m key
  end.
Definition tableAt (t key : value) : lua value := table_at maxTagLoop t key.

Definition put_checked (id : nat) (key val : value) : lua unit :=
  tab ← table_of id;
  match put_ key val tab with
  | Ok tab' => set_table id (invalidateTagMethodCache tab')
  | Err e => runtimeError call (Error e)
  | Panic m => go_error m
  end.
Fixpoint set_table_at (fuel : nat) (t key val : value) : lua unit :=
  match fuel with
  | O => runtimeError call "loop in setTable"
  | S n =>
      m ← match t with
          | VTable id =>
              tab ← table_of id;
              r ← of_outcome (tryPut key val tab);
              match r with
              | Some tab' => _ ← set_table id (invalidateTagMethodCache tab'); mret None
              | None =>
                  m ← fastTagMethod (metaTable tab) tmNewIndex;
                  if is_nil m then _ ← put_checked id key val; mret None else mret (Some m)
              end
          | _ =>
              m ← tagMethodByObject t tmNewIndex;
              if is_nil m then typeError call t "index" else mret (Some m)
          end;
      match m with
      | None => mret ()
      | Some m => if is_function m then callTagMethodV m t key val else set_table_at n m key val
      end
  end.
Definition setTableAt (t key val : value) : lua unit := set_table_at maxTagLoop t key val.

Definition objectLength (v : value) : lua value :=
  match v with
  | VTable id =>
      t ← table_of id;
      m ← fastTagMethod (metaTable t) tmLen;
      if is_nil m then n ← of_outcome (length_ t); mret (VNumber (float_of_int n)) else callTagMethod m v v
  | VString s => mret (VNumber (float_of_int (Z.of_nat (String.length s))))
  | _ =>
      m ← tagMethodByObject v tmLen;
      if is_nil m then typeError call v "get length of" else callTagMethod m v v
  end.

Definition equalTagMethod (mt1 mt2 : option nat) (event : tm) : lua value :=
  m1 ← fastTagMethod mt1 event;
  if is_nil m1 then mret VNil
  else if bool_decide (mt1 = mt2) then mret m1
  else
    m2 ← fastTagMethod mt2 event;
    if is_nil m2 then mret VNil else if go_eq m1 m2 then mret m1 else mret VNil.
(** A table or userdata compared with a value of another type fails an assertion of type. *)
Definition equalObjects (t1 t2 : value) : lua bool :=
  let by_method (m : value) := if is_nil m then mret false else r ← callTagMethod m t1 t2; mret (negb (isFalse r)) in
  match t1 with
  | VUserData _ | VTable _ =>
      if bool_decide (t1 = t2) then mret true
      else
        mt1 ← object_metatable t1;
        mt2 ← match t1, t2 with
              | VUserData _, VUserData _ | VTable _, VTable _ => object_metatable t2
              | _, _ => bad_assertion
              end;
        m ← equalTagMethod mt1 mt2 tmEq;
        by_method m
  | _ => mret (go_eq t1 t2)
  end.

Definition lessThan (left right : value) : lua bool :=
  let other :=
    r ← callOrderTagMethod left right tmLT;
    match r with Some b => mret b | None => orderError call left right end in
  match left, right with
  | VNumber a, VNumber b => mret (flt a b)
  | VString a, VString b => mret (bytes_lt (to_bytes a) (to_bytes b))
  | _, _ => other
  end.
Definition lessOrEqual (left right : value) : lua bool :=
  let other :=
    r ← callOrderTagMethod left right tmLE;
    match r with
    | Some b => mret b
    | None =>
        r ← callOrderTagMethod right left tmLT;
        match r with Some b => mret (negb b) | None => orderError call left right end
    end in
  match left, right with
  | VNumber a, VNumber b => mret (fle a b)
  | VString a, VString b => mret (negb (bytes_lt (to_bytes b) (to_bytes a)))
  | _, _ => other
  end.

(** *** Concatenation *)

Definition from_top (i : Z) : lua value := t ← gets top; stack_at (t - i).
Definition put_top (i : Z) (v : value) : lua unit := t ← gets top; stack_put (t - i) v.
Definition text_or_number (v : value) : bool := match v with VString _ | VNumber _ => true | _ => false end.
Definition concatTagMethod : lua unit :=
  a ← from_top 2;
  b ← from_top 1;
  r ← callBinaryTagMethod a b tmConcat;
  match r with Some v => put_top 2 v | None => concatError call a b end.

(** The texts from the second on, as many as there are, the deepest first. *)
Fixpoint collect_texts (k : nat) (n : Z) (acc : list string) : lua (list string) :=
  match k with
  | O => mret acc
  | S k =>
      t ← gets top;
      s ← toString_at (t - n);
      match s with Some s => collect_texts k (n + 1) (s :: acc) | None => mret acc end
  end.
(** One pass over the operands: how many it handled. *)
Definition concat_round (total : Z) : lua Z :=
  b ← from_top 2;
  if negb (text_or_number b) then _ ← concatTagMethod; mret 2
  else
    t ← gets top;
    s1 ← toString_at (t - 1);
    match s1 with
    | None => _ ← concatTagMethod; mret 2
    | Some s1 =>
        if bool_decide (s1 = ""%string) then
          v ← toString_at (t - 2);
          _ ← put_top 2 (VString (default ""%string v));
          mret 2
        else if bool_decide (b = VString ""%string) then a ← from_top 1; _ ← put_top 2 a; mret 2
        else
          ss ← collect_texts (Z.to_nat (total - 1)) 2 [s1];
          _ ← put_top (Z.of_nat (length ss)) (VString (String.concat ""%string ss));
          mret (Z.of_nat (length ss))
    end.
Fixpoint concat_loop (fuel : nat) (total : Z) : lua unit :=
  match fuel with
  | O => mret ()
  | S k =>
      if 1 <? total then
        n ← concat_round total;
        _ ← puts (λ s, set_top (top s - (n - 1)) s);
        concat_loop k (total - (n - 1))
      else mret ()
  end.
Definition concat (total : Z) : lua unit := _ ← assert_l call (2 <=? total); concat_loop (Z.to_nat total) total.

(** ** Instructions *)

(** [e.k(field)]: a constant or a register. *)
Definition rk (field : Z) : lua value :=
  if isConstant field then p ← this_prototype; of_outcome (slice_at (p_constants p) (constantIndex field))
  else frame_at field.
Definition expectNext (expected : opCode) : lua Z :=
  i ← step; if opField i =? op_num expected then mret i else crash "expected opcode".

Definition exec_Move (i : Z) : lua unit := v ← frame_at (getB i); frame_put (getA i) v.
Definition load_constant (r k : Z) : lua unit :=
  p ← this_prototype; v ← of_outcome (slice_at (p_constants p) k); frame_put r v.
Definition exec_LoadConstant (i : Z) : lua unit := load_constant (getA i) (getBx i).
Definition exec_LoadConstantEx (i : Z) : lua unit := j ← expectNext opExtraArg; load_constant (getA i) (getAx j).
Definition exec_LoadBool (i : Z) : lua unit :=
  _ ← frame_put (getA i) (VBool (negb (getB i =? 0)));
  if negb (getC i =? 0) then skip_instr else mret ().
Definition exec_LoadNil (i : Z) : lua unit := clear_frame (getA i) (getA i + getB i + 1).

Definition exec_GetUpValue (i : Z) : lua unit := c ← this_closure; v ← upValue_at c (getB i); frame_put (getA i) v.
Definition exec_GetTableUp (i : Z) : lua unit :=
  c ← this_closure;
  t ← upValue_at c (getB i);
  k ← rk (getC i);
  v ← tableAt t k;
  frame_put (getA i) v.
Definition exec_GetTable (i : Z) : lua unit :=
  t ← frame_at (getB i);
  k ← rk (getC i);
  v ← tableAt t k;
  frame_put (getA i) v.
Definition exec_SetTableUp (i : Z) : lua unit :=
  c ← this_closure;
  t ← upValue_at c (getA i);
  k ← rk (getB i);
  v ← rk (getC i);
  setTableAt t k v.
Definition exec_SetUpValue (i : Z) : lua unit := c ← this_closure; v ← frame_at (getA i); setUpValue c (getB i) v.
Definition exec_SetTable (i : Z) : lua unit :=
  t ← frame_at (getA i);
  k ← rk (getB i);
  v ← rk (getC i);
  setTableAt t k v.
Definition exec_NewTable (i : Z) : lua unit :=
  id ← allocate;
  _ ← set_table id (if negb (getB i =? 0) || negb (getC i =? 0)
                    then newTableWithSize (intFromFloat8 (getB i)) (intFromFloat8 (getC i)) else newTable);
  _ ← frame_put (getA i) (VTable id);
  clear_from (getA i + 1).
Definition exec_Self (i : Z) : lua unit :=
  t ← frame_at (getB i);
  k ← rk (getC i);
  v ← tableAt t k;
  _ ← frame_put (getA i + 1) t;
  frame_put (getA i) v.

(** Arithmetic: numbers at once, other values by [arith]. *)
Definition exec_arith (f : float64 → float64 → float64) (event : tm) (i : Z) : lua unit :=
  b ← rk (getB i);
  c ← rk (getC i);
  v ← match b, c with VNumber x, VNumber y => mret (VNumber (f x y)) | _, _ => arith_values b c event end;
  frame_put (getA i) v.
Definition exec_Add : Z → lua unit := exec_arith fadd tmAdd.
Definition exec_Sub : Z → lua unit := exec_arith fsub tmSub.
Definition exec_Mul : Z → lua unit := exec_arith fmul tmMul.
Definition exec_Div : Z → lua unit := exec_arith fdiv tmDiv.
Definition exec_Mod : Z → lua unit := exec_arith math_Mod tmMod.
Definition exec_Pow : Z → lua unit := exec_arith math_Pow tmPow.
Definition exec_UnaryMinus (i : Z) : lua unit :=
  b ← frame_at (getB i);
  v ← match b with VNumber x => mret (VNumber (SFopp x)) | _ => arith_values b b tmUnaryMinus end;
  frame_put (getA i) v.
Definition exec_Not (i : Z) : lua unit := b ← frame_at (getB i); frame_put (getA i) (VBool (isFalse b)).
Definition exec_Length (i : Z) : lua unit := b ← frame_at (getB i); v ← objectLength b; frame_put (getA i) v.
Definition exec_Concat (i : Z) : lua unit :=
  let a := getA i in
  let b := getB i in
  let c := getC i in
  t ← stackIndex (c + 1);
  _ ← puts (set_top t);
  _ ← concat (c - b + 1);
  v ← frame_at b;
  _ ← frame_put a v;
  if b <=? a then clear_from (a + 1) else clear_from b.

(** A jump, which may close upvalues. *)
Definition do_jump (i : Z) : lua unit :=
  _ ← (if 0 <? getA i then l ← stackIndex (getA i - 1); close_ l else mret ());
  jump_by (getSBx i).
Definition exec_Jump (i : Z) : lua unit := do_jump i.
(** The jump that follows a test is taken, or skipped. *)
Definition branch (taken : bool) : lua unit := if taken then i ← step; do_jump i else skip_instr.
Definition exec_compare (test : value → value → lua bool) (i : Z) : lua unit :=
  b ← rk (getB i);
  c ← rk (getC i);
  r ← test b c;
  branch (Bool.eqb r (negb (getA i =? 0))).
Definition exec_Equal : Z → lua unit := exec_compare equalObjects.
Definition exec_LessThan : Z → lua unit := exec_compare lessThan.
Definition exec_LessOrEqual : Z → lua unit := exec_compare lessOrEqual.
Definition exec_Test (i : Z) : lua unit := v ← frame_at (getA i); branch (Bool.eqb (isFalse v) (getC i =? 0)).
Definition exec_TestSet (i : Z) : lua unit :=
  b ← frame_at (getB i);
  if Bool.eqb (isFalse b) (getC i =? 0) then _ ← frame_put (getA i) b; branch true else skip_instr.

(** *** Calls *)

Definition exec_Call (i : Z) : lua unit :=
  let a := getA i in
  let b := getB i in
  let c := getC i in
  _ ← (if negb (b =? 0) then t ← stackIndex (a + b); puts (set_top t) else mret ());
  f ← stackIndex a;
  go ← preCall call host 2 f (c - 1);
  if (go : bool) then
    if 0 <=? c - 1 then ci ← this_call; puts (set_top (ci_top ci)) else mret ()
  else change_call set_reentry.

(** The frame of the called function [nci] takes the place of that of the caller [oci],
    which keeps its [code]. *)
Definition replace_frame (oci nci : callInfo) (t : Z) : callInfo :=
  let shift := ci_function oci - ci_function nci in
  mkCall (ci_function oci) (ci_base nci + shift) (t + shift) (resultCount oci) (ci_lua oci) (savedPC nci) (ci_code oci)
    (reentry oci) true.
Fixpoint copy_down (n : nat) (from to : Z) : lua unit :=
  match n with O => mret () | S n => v ← stack_at from; _ ← stack_put to v; copy_down n (from + 1) (to + 1) end.
Definition has_prototypes (c : luaClosure) : lua bool :=
  n ← node_of c; mret (match n_children n with [] => false | _ => true end).
Definition exec_TailCall (i : Z) : lua unit :=
  let a := getA i in
  let b := getB i in
  _ ← (if negb (b =? 0) then t ← stackIndex (a + b); puts (set_top t) else mret ());
  c ← this_closure;
  f ← stackIndex a;
  go ← preCall call host 2 f MultipleReturns;
  if (go : bool) then mret ()
  else
    cs ← gets callInfos;
    match cs with
    | nci :: oci :: cs =>
        callee ← closure_at (ci_function nci);
        n ← node_of callee;
        let lim := ci_base nci + p_parameterCount (n_proto n) in
        inner ← has_prototypes c;
        _ ← (if (inner : bool) then close_ (ci_base oci) else mret ());
        _ ← copy_down (Z.to_nat (lim - ci_function nci)) (ci_function nci) (ci_function oci);
        t ← gets top;
        let oci' := replace_frame oci nci t in
        _ ← puts (set_top (ci_top oci'));
        puts (set_calls (oci' :: cs))
    | _ => nil_pointer
    end.

(** Whether [execute] goes on with a caller of the function. *)
Definition exec_Return (i : Z) : lua bool :=
  let a := getA i in
  let b := getB i in
  _ ← (if negb (b =? 0) then t ← stackIndex (a + b - 1); puts (set_top t) else mret ());
  c ← this_closure;
  inner ← has_prototypes c;
  ci ← this_call;
  _ ← (if (inner : bool) then close_ (ci_base ci) else mret ());
  first ← stackIndex a;
  n ← postCall first;
  if negb (reentry ci) then mret false
  else
    _ ← (if (n : bool) then ci ← this_call; puts (set_top (ci_top ci)) else mret ());
    mret true.

(** *** Loops *)

Definition number_of (v : value) : lua float64 := match v with VNumber f => mret f | _ => bad_assertion end.
Definition exec_ForLoop (i : Z) : lua unit :=
  let a := getA i in
  v0 ← frame_at a; index ← number_of v0;
  v1 ← frame_at (a + 1); limit ← number_of v1;
  v2 ← frame_at (a + 2); step ← number_of v2;
  let index := fadd index step in
  if (flt fzero step && fle index limit) || (fle step fzero && fle limit index) then
    _ ← jump_by (getSBx i);
    _ ← frame_put a (VNumber index);
    frame_put (a + 3) (VNumber index)
  else mret ().
Definition exec_ForPrep (i : Z) : lua unit :=
  let a := getA i in
  v0 ← frame_at a; init ← toNumber v0;
  match init with
  | None => runtimeError call "'for' initial value must be a number"
  | Some init =>
      v1 ← frame_at (a + 1); limit ← toNumber v1;
      match limit with
      | None => runtimeError call "'for' limit must be a number"
      | Some limit =>
          v2 ← frame_at (a + 2); step ← toNumber v2;
          match step with
          | None => runtimeError call "'for' step must be a number"
          | Some step =>
              _ ← frame_put a (VNumber (fsub init step));
              _ ← frame_put (a + 1) (VNumber limit);
              _ ← frame_put (a + 2) (VNumber step);
              jump_by (getSBx i)
          end
      end
  end.
Definition exec_TForLoop (i : Z) : lua unit :=
  let a := getA i in
  v ← frame_at (a + 1);
  if negb (is_nil v) then _ ← frame_put a v; jump_by (getSBx i) else mret ().
Definition exec_TForCall (i : Z) : lua unit :=
  let a := getA i in
  ci ← this_call;
  _ ← copy_down 3 (ci_base ci + a) (ci_base ci + a + 3);
  let callBase := ci_base ci + a + 3 in
  _ ← puts (set_top (callBase + 3));
  _ ← call callBase (getC i) true;
  ci ← this_call;
  _ ← puts (set_top (ci_top ci));
  j ← expectNext opTForLoop;
  exec_TForLoop j.

(** *** Tables, closures and variable arguments *)

Fixpoint copy_list (k : nat) (a : list value) (from to : Z) : lua (list value) :=
  match k with
  | O => mret a
  | S k => v ← stack_at from; a ← of_outcome (slice_put a to v); copy_list k a (from + 1) (to + 1)
  end.
Definition exec_SetList (i : Z) : lua unit :=
  let a := getA i in
  base ← stackIndex a;
  t ← gets top;
  let n := if getB i =? 0 then t - base - 1 else getB i in
  c ← (if getC i =? 0 then j ← expectNext opExtraArg; mret (getAx j) else mret (getC i));
  v ← frame_at a;
  match v with
  | VTable id =>
      h ← table_of id;
      let start := (c - 1) * listItemsPerFlush in
      let last := start + n in
      h ← (if Z.of_nat (length (array h)) <? last then of_outcome (extendArray last h) else mret h);
      arr ← copy_list (Z.to_nat n) (array h) (base + 1) start;
      _ ← set_table id (set_array arr h);
      ci ← this_call;
      puts (set_top (ci_top ci))
  | _ => bad_assertion
  end.

Fixpoint capture (us : list upValueDesc) (encl : list nat) (base : Z) : lua (list nat) :=
  match us with
  | [] => mret []
  | u :: us =>
      x ← (if isLocal u then findUpValue (base + uv_index u) else of_outcome (slice_at encl (uv_index u)));
      xs ← capture us encl base;
      mret (x :: xs)
  end.
Definition set_cache (p : nat) (c : nat) : lua unit :=
  m ← gets protos;
  n ← of_option (m !! p);
  puts (set_protos (<[p := mkNode (n_proto n) (n_children n) (Some c)]> m)).
Definition newClosure (p : nat) (encl : list nat) (base : Z) : lua nat :=
  m ← gets protos;
  n ← of_option (m !! p);
  id ← allocate;
  _ ← set_cache p id;
  us ← capture (p_upValues (n_proto n)) encl base;
  _ ← puts (λ s, set_closures (<[id := mkClosure p us]> (closures s)) s);
  mret id.
(** [c.upValues[i].home != upValues[j].home]: places on the stack, or values. *)
Definition same_home (x y : upValue) : bool :=
  match x, y with UOpen i, UOpen j => i =? j | UClosed v, UClosed w => go_eq v w | _, _ => false end.
Fixpoint cache_fits (us : list upValueDesc) (cs encl : list nat) (i base : Z) : lua bool :=
  match us with
  | [] => mret true
  | u :: us =>
      c ← of_outcome (slice_at cs i);
      x ← cell c;
      ok ← (if isLocal u then mret (isInStackAt (base + uv_index u) x)
            else e ← of_outcome (slice_at encl (uv_index u)); y ← cell e; mret (same_home x y));
      if (ok : bool) then cache_fits us cs encl (i + 1) base else mret false
  end.
Definition cached (p : nat) (encl : list nat) (base : Z) : lua (option nat) :=
  m ← gets protos;
  n ← of_option (m !! p);
  match n_cache n with
  | None => mret None
  | Some id =>
      cs ← gets closures;
      c ← of_option (cs !! id);
      ok ← cache_fits (p_upValues (n_proto n)) (c_upValues c) encl 0 base;
      mret (if (ok : bool) then Some id else None)
  end.
Definition exec_Closure (i : Z) : lua unit :=
  c ← this_closure;
  n ← node_of c;
  p ← of_outcome (slice_at (n_children n) (getBx i));
  ci ← this_call;
  old ← cached p (c_upValues c) (ci_base ci);
  id ← match old with Some id => mret id | None => newClosure p (c_upValues c) (ci_base ci) end;
  _ ← frame_put (getA i) (VLua id);
  clear_from (getA i + 1).

Fixpoint copy_varargs (k : nat) (j n from a : Z) : lua unit :=
  match k with
  | O => mret ()
  | S k =>
      v ← (if j <? n then stack_at (from + j) else mret VNil);
      _ ← frame_put (a + j) v;
      copy_varargs k (j + 1) n from a
  end.
Definition exec_VarArg (i : Z) : lua unit :=
  ci ← this_call;
  p ← this_prototype;
  let a := getA i in
  let b := getB i - 1 in
  let n := ci_base ci - ci_function ci - p_parameterCount p - 1 in
  b ← (if b <? 0 then
         _ ← checkStack call n;
         let t := ci_base ci + a + n in
         _ ← puts (set_top t);
         _ ← (if ci_top ci <? t then change_call (setTop t) else mret ());
         mret n
       else mret b);
  copy_varargs (Z.to_nat b) 0 n (ci_base ci - n) a.

(** [jumpTable]: whether [execute] goes on. *)
Definition exec_instruction (i : Z) : lua bool :=
  let on (m : lua unit) : lua bool := _ ← m; mret true in
  match op_of (opField i) with
  | None => go_error index_panic
  | Some o =>
      match o with
      | opMove => on (exec_Move i)
      | opLoadConstant => on (exec_LoadConstant i)
      | opLoadConstantEx => on (exec_LoadConstantEx i)
      | opLoadBool => on (exec_LoadBool i)
      | opLoadNil => on (exec_LoadNil i)
      | opGetUpValue => on (exec_GetUpValue i)
      | opGetTableUp => on (exec_GetTableUp i)
      | opGetTable => on (exec_GetTable i)
      | opSetTableUp => on (exec_SetTableUp i)
      | opSetUpValue => on (exec_SetUpValue i)
      | opSetTable => on (exec_SetTable i)
      | opNewTable => on (exec_NewTable i)
      | opSelf => on (exec_Self i)
      | opAdd => on (exec_Add i)
      | opSub => on (exec_Sub i)
      | opMul => on (exec_Mul i)
      | opDiv => on (exec_Div i)
      | opMod => on (exec_Mod i)
      | opPow => on (exec_Pow i)
      | opUnaryMinus => on (exec_UnaryMinus i)
      | opNot => on (exec_Not i)
      | opLength => on (exec_Length i)
      | opConcat => on (exec_Concat i)
      | opJump => on (exec_Jump i)
      | opEqual => on (exec_Equal i)
      | opLessThan => on (exec_LessThan i)
      | opLessOrEqual => on (exec_LessOrEqual i)
      | opTest => on (exec_Test i)
      | opTestSet => on (exec_TestSet i)
      | opCall => on (exec_Call i)
      | opTailCall => on (exec_TailCall i)
      | opReturn => exec_Return i
      | opForLoop => on (exec_ForLoop i)
      | opForPrep => on (exec_ForPrep i)
      | opTForCall => on (exec_TForCall i)
      | opTForLoop => on (exec_TForLoop i)
      | opSetList => on (exec_SetList i)
      | opClosure => on (exec_Closure i)
      | opVarArg => on (exec_VarArg i)
      | opExtraArg => crash "unexpected opExtraArg instruction"
      end
  end.
End operations.

(** ** Execution *)

(** [l.execute()] with the calls of one level down. *)
Fixpoint execute_with (fuel : nat) (call : Z → Z → bool → lua unit) : lua unit :=
  match fuel with
  | O => diverge
  | S n =>
      i ← step;
      on ← exec_instruction call i;
      if (on : bool) then execute_with n call else mret ()
  end.

(** [l.call(function, resultCount, allowYield)]: [n] bounds the instructions of every
    [execute] and, level by level, the depth of calls from Go. *)
Fixpoint call_ (n : nat) (function resultCount : Z) (allowYield : bool) : lua unit :=
  match n with
  | O => diverge
  | S k =>
      let bump d := puts (λ s, set_counts (nestedCalls s + d) (nonYieldable s) (errorFunction s) s) in
      let yields d := if allowYield then mret () else puts (λ s, set_counts (nestedCalls s) (nonYieldable s + d) (errorFunction s) s) in
      _ ← bump 1;
      depth ← gets nestedCalls;
      _ ← (if depth =? maxCallCount then runtimeError (call_ k) "Go stack overflow"
           else if maxCallCount + Z.shiftr maxCallCount 3 <=? depth then throw_ ErrorError
           else mret ());
      _ ← yields 1;
      go ← preCall (call_ k) host 2 function resultCount;
      _ ← (if (go : bool) then mret () else execute_with k (call_ k));
      _ ← yields (-1);
      bump (-1)
  end.
End machine.
End world.
