(* ===== verification/LuaLoad.v ===== *)
(** * A thread is made, a chunk loaded and called (Shopify/go-lua/lua.go, parser.go)

    [NewState], [Load] of a text, and the calls of the API that the engine needs to run it.
    Precompiled chunks are not modelled. *)
From Stdlib Require Import ZArith Lia Ascii.
From stdpp Require Import base option list gmap strings.
From S2P Require Import Prelude GoNum GoFmt Strconv LuaInstr LuaTable LuaScan LuaProto LuaCode LuaParser LuaState LuaCall LuaVM.
From Stdlib Require Import SpecFloat.

(** The globals are table 0, the registry table 1. *)
Definition globals : nat := 0.
Definition RegistryIndexMainThread : Z := 1.
Definition RegistryIndexGlobals : Z := 2.
Definition new_registry : table :=
  match (t ← putAtInt RegistryIndexMainThread VThread newTable; putAtInt RegistryIndexGlobals (VTable globals) t) with
  | Ok t => t
  | _ => newTable
  end.

Section load.
Context {Wd : World}.

(** [NewState()] with [initializeStack]: the base call has a frame, as one of Lua. *)
Definition NewState (w : world_state) : lstate :=
  mkState (replicate (Z.to_nat basicStackSize) VNil) 1 (basicStackSize - extraStack)
    [mkCall 0 0 (1 + MinStack) 0 true 0 [] false false]
    {[globals := newTable; 1%nat := new_registry]} ∅ ∅ ∅ ∅ ∅ [] ∅ 2 0 1 0 1 w.

(** A prototype and those inside it get places in memory. *)
Fixpoint load_proto (p : prototype) : lua nat :=
  let fix load_all (l : list prototype) : lua (list nat) :=
    match l with
    | [] => mret []
    | q :: l => x ← load_proto q; xs ← load_all l; mret (x :: xs)
    end in
  xs ← load_all (p_prototypes p);
  id ← allocate;
  _ ← puts (λ s, set_protos (<[id := mkNode p xs None]> (protos s)) s);
  mret id.

Fixpoint new_cells (n : nat) : lua (list nat) :=
  match n with
  | O => mret []
  | S n => u ← allocate; _ ← set_cell u (UClosed VNil); us ← new_cells n; mret (u :: us)
  end.

Context `{GoMath}.
Context (host : (Z → Z → bool → lua unit) → nat → list value → lua Z).

(** [protectedParser] of a text: the closure is pushed, or the message of the error. *)
Definition protectedParser (name : string) (text : bytes) : lua (option exn) :=
  n ← gets nestedCalls;
  match parse name text n with
  | Ok p =>
      id ← load_proto p;
      us ← new_cells (length (p_upValues p));
      c ← allocate;
      _ ← puts (λ s, set_closures (<[c := mkClosure id us]> (closures s)) s);
      _ ← push (VLua c);
      mret None
  | Err e => _ ← push (VString (Error e)); mret (Some SyntaxError)
  | Panic m =>
      if String.prefix "runtime error" m then
        t ← gets top; v ← stack_at (t - 1); _ ← push v; mret (Some (GoError m))
      else crash m
  end.

(** [l.global.registry.atInt(RegistryIndexGlobals)]. *)
Definition global_table : lua value := r ← gets registry; t ← table_of r; of_outcome (atInt RegistryIndexGlobals t).
(** [l.Load(r, chunkName, mode)]: the first upvalue of a chunk is the table of globals. *)
Definition Load (chunkName : string) (text : bytes) : lua (option exn) :=
  let name := if bool_decide (chunkName = ""%string) then "?"%string else chunkName in
  err ← protectedParser name text;
  match err with
  | Some x => mret (Some x)
  | None =>
      t ← gets top;
      c ← closure_at (t - 1);
      _ ← (if Z.of_nat (length (c_upValues c)) =? 1 then g ← global_table; setUpValue c 0 g else mret ());
      mret None
  end.

(** [l.ProtectedCall(argCount, resultCount, 0)] from Go. *)
Definition adjustResults (wanted : Z) : lua unit :=
  ci ← this_call;
  t ← gets top;
  if (wanted =? MultipleReturns) && (ci_top ci <? t) then change_call (setTop t) else mret ().
Definition ProtectedCall (n : nat) (argCount wanted : Z) : lua (option exn) :=
  t ← gets top;
  let f := t - (argCount + 1) in
  err ← protectedCall (call_ host n f wanted false) f 0;
  _ ← adjustResults wanted;
  mret err.

(** The values that a text returns, or its error with the message. *)
Definition results_from (base : Z) : lua (list value) :=
  t ← gets top; l ← gets stack; mret (take (Z.to_nat (t - base)) (drop (Z.to_nat base) l)).
Definition DoString (n : nat) (text : bytes) : lua (option exn * list value) :=
  base ← gets top;
  err ← Load "" text;
  err ← match err with Some x => mret (Some x) | None => ProtectedCall n 0 MultipleReturns end;
  vs ← results_from base;
  mret (err, vs).
End load.

(** Programs without Go functions. *)
#[export] Instance no_world : World := unit.
Definition nothing : world_state := tt.
Definition no_host (call : Z → Z → bool → lua unit) (f : nat) (us : list value) : lua Z := mret 0.
(** What a text returns on a new thread. *)
Definition run_text `{GoMath} (n : nat) (text : string) : option (option exn * list value) :=
  match DoString no_host n (to_bytes text) (NewState nothing) with Done r _ => Some r | _ => None end.
