(* ===== verification/LuaVMFacts.v ===== *)
(** * Running actions of the Lua machine

    How binds compute, the stack as a list, upvalues and how they are closed. *)
From Stdlib Require Import ZArith Lia Ascii.
From stdpp Require Import base option list gmap strings.
From S2P Require Import Prelude GoNum GoFmt Strconv LuaInstr LuaTable LuaTableProps LuaScan LuaProto LuaState LuaCall LuaVM LuaLoad.
From Stdlib Require Import SpecFloat.

Section world.
Context {Wd : World}.

Lemma bind_done {A B} (m : lua A) (f : A → lua B) s a s' : m s = Done a s' → (m ≫= f) s = f a s'.
Proof. intros H. unfold mbind, lua_bind. by rewrite H. Qed.

Lemma bind_done_inv {A B} (m : lua A) (f : A → lua B) s b s' : (m ≫= f) s = Done b s' → ∃ a s1, m s = Done a s1 ∧ f a s1 = Done b s'.
Proof. unfold mbind, lua_bind. destruct (m s) as [a s1| | |]; intros H; try done. eauto. Qed.

Lemma gets_done {A B} (g : lstate → A) (f : A → lua B) s : (gets g ≫= f) s = f (g s) s.
Proof. done. Qed.
Lemma puts_done {B} (g : lstate → lstate) (f : unit → lua B) s : (puts g ≫= f) s = f () (g s).
Proof. done. Qed.
Lemma ret_done {A B} (a : A) (f : A → lua B) s : (mret a ≫= f) s = f a s.
Proof. done. Qed.

(** ** The stack *)

Lemma slice_at_ok {A} (l : list A) i x : 0 ≤ i → l !! Z.to_nat i = Some x → slice_at l i = Ok x.
Proof. intros Hi Hx. unfold slice_at. assert ((i <? 0) = false) as -> by lia. by rewrite Hx. Qed.

Lemma slice_at_inv {A} (l : list A) i x : slice_at l i = Ok x → 0 ≤ i ∧ l !! Z.to_nat i = Some x.
Proof. unfold slice_at. destruct (Z.ltb_spec i 0); [done|]. destruct (l !! _); [|done]. by intros [= ->]. Qed.

Lemma slice_put_ok {A} (l : list A) i x : 0 ≤ i < Z.of_nat (length l) → slice_put l i x = Ok (<[Z.to_nat i := x]> l).
Proof. intros Hi. unfold slice_put. by assert ((i <? 0) || (Z.of_nat (length l) <=? i) = false) as -> by lia. Qed.

Lemma stack_at_done {B} i v (f : value → lua B) s : 0 ≤ i → stack s !! Z.to_nat i = Some v → (stack_at i ≫= f) s = f v s.
Proof. intros Hi Hv. apply bind_done. unfold stack_at. rewrite gets_done, (slice_at_ok _ _ v) by done. done. Qed.

Lemma stack_put_done {B} i v (f : unit → lua B) s : 0 ≤ i < Z.of_nat (length (stack s)) →
  (stack_put i v ≫= f) s = f () (set_stack (<[Z.to_nat i := v]> (stack s)) s).
Proof. intros Hi. apply bind_done. unfold stack_put. rewrite gets_done, slice_put_ok by done. done. Qed.

(** ** Upvalues *)

Definition value_of (s : lstate) (u : nat) : option value :=
  match upCells s !! u with
  | Some (UOpen i) => stack s !! Z.to_nat i
  | Some (UClosed v) => Some v
  | None => None
  end.

(** An upvalue that is open is in the list and points into the stack; no two point to the
    same slot. *)
Record cells_ok (s : lstate) : Prop := {
  ck_open : ∀ u i, upCells s !! u = Some (UOpen i) → u ∈ openUpValues s ∧ 0 ≤ i < Z.of_nat (length (stack s));
  ck_cells : ∀ u, u ∈ openUpValues s → is_Some (upCells s !! u);
  ck_nodup : NoDup (openUpValues s);
  ck_fresh : ∀ u, is_Some (upCells s !! u) → (u < fresh s)%nat;
  ck_shared : ∀ u u' i, upCells s !! u = Some (UOpen i) → upCells s !! u' = Some (UOpen i) → u = u'
}.

Definition above (level : Z) (x : option upValue) : bool := match x with Some x => isInStackAbove level x | None => false end.

Lemma cell_done {B} u x (f : upValue → lua B) s : upCells s !! u = Some x → (cell u ≫= f) s = f x s.
Proof. intros Hx. apply bind_done. unfold cell. rewrite gets_done. by rewrite Hx. Qed.

Lemma close_cell_done {B} u i v (f : unit → lua B) s : upCells s !! u = Some (UOpen i) → 0 ≤ i → stack s !! Z.to_nat i = Some v →
  (close_cell u ≫= f) s = f () (set_cells (<[u := UClosed v]> (upCells s)) s).
Proof.
  intros Hu Hi Hv. apply bind_done. unfold close_cell. erewrite cell_done by done. cbn beta iota.
  erewrite stack_at_done by done. done.
Qed.

(** The loop of [close_] over a part of the list. *)
Lemma close_loop_done us level gone s :
  NoDup us → (∀ u, u ∈ us → is_Some (upCells s !! u)) →
  (∀ u i, upCells s !! u = Some (UOpen i) → 0 ≤ i < Z.of_nat (length (stack s))) →
  ∃ us' m, close_loop us level gone s = Done us' (set_cells m s) ∧ sublist us' us ∧
    (∀ u, u ∈ us → above level (upCells s !! u) = false → u ∈ us') ∧
    (∀ u, if bool_decide (u ∈ us) && above level (upCells s !! u) then ∃ v, m !! u = Some (UClosed v) ∧ value_of s u = Some v
          else m !! u = upCells s !! u).
Proof.
  revert gone s. induction us as [|u us IH]; intros gone s Hnd Hdom Hopen.
  { exists [], (upCells s). split_and!; [by destruct s|constructor|by intros u ?%elem_of_nil|done]. }
  apply NoDup_cons in Hnd as [Hu Hnd]. destruct (Hdom u ltac:(by left)) as [x Hx]. cbn [close_loop].
  erewrite cell_done by done. destruct (isInStackAbove level x) eqn:Ha.
  - destruct x as [i|]; [|done]. destruct (Hopen _ _ Hx) as [Hi Hl].
    destruct (lookup_lt_is_Some_2 (stack s) (Z.to_nat i) ltac:(lia)) as [v Hv].
    erewrite close_cell_done by done. set (s1 := set_cells _ s).
    destruct (IH (negb gone) s1 Hnd) as (us' & m & Hm & Hsub & Hkeep & Hcells).
    { intros u' Hu'. simpl. destruct (decide (u' = u)) as [->|]; [by rewrite lookup_insert_eq|].
      rewrite lookup_insert_ne by done. apply Hdom. by right. }
    { intros u' j. simpl. destruct (decide (u' = u)) as [->|]; [by rewrite lookup_insert_eq|]. rewrite lookup_insert_ne by done. apply Hopen. }
    exists (if gone then u :: us' else us'), m. split_and!.
    + erewrite bind_done by done. by destruct gone.
    + destruct gone; by constructor.
    + intros u' Hu' Ha'. assert (u' ≠ u) as Hne by (intros ->; rewrite Hx in Ha'; simpl in *; congruence).
      assert (u' ∈ us') as H by (apply Hkeep; [set_solver|simpl; by rewrite lookup_insert_ne]).
      destruct gone; set_solver.
    + intros u'. specialize (Hcells u'). simpl in Hcells. destruct (decide (u' = u)) as [->|Hne].
      * rewrite bool_decide_eq_false_2 in Hcells by done. rewrite lookup_insert_eq in Hcells.
        rewrite bool_decide_eq_true_2 by set_solver. rewrite Hx. simpl in *. rewrite Ha. exists v. split; [done|].
        unfold value_of. by rewrite Hx.
      * rewrite lookup_insert_ne in Hcells by done.
        replace (bool_decide (u' ∈ u :: us)) with (bool_decide (u' ∈ us)) by (apply bool_decide_ext; set_solver).
        destruct (_ && _); [|done]. destruct Hcells as (w & Hw & Hval). exists w. split; [done|].
        unfold value_of in *. simpl in Hval. by rewrite lookup_insert_ne in Hval.
  - destruct (IH false s Hnd) as (us' & m & Hm & Hsub & Hkeep & Hcells); [intros; apply Hdom; by right|done|].
    exists (u :: us'), m. split_and!.
    + erewrite bind_done by done. done.
    + by constructor.
    + intros u' Hu' Ha'. set_solver.
    + intros u'. specialize (Hcells u'). destruct (decide (u' = u)) as [->|Hne].
      * rewrite bool_decide_eq_false_2 in Hcells by done. rewrite Hx in *. simpl in *. rewrite Ha, andb_false_r. done.
      * by replace (bool_decide (u' ∈ u :: us)) with (bool_decide (u' ∈ us)) by (apply bool_decide_ext; set_solver).
Qed.

(** * What the Lua machine keeps and what it loses

    Captured variables keep their values when their scope ends, and functions that capture
    the same variable share it.  Metamethods of assignment are lost after a failed read,
    and a tail call goes on with the code of the caller. *)

(** ** Captured variables *)

Lemma find_open_done us level s : (∀ u, u ∈ us → is_Some (upCells s !! u)) →
  ∃ r, find_open us level s = Done r s ∧
    match r with
    | Some u => u ∈ us ∧ upCells s !! u = Some (UOpen level)
    | None => ∀ u, u ∈ us → upCells s !! u ≠ Some (UOpen level)
    end.
Proof.
  induction us as [|u us IH]; intros Hdom; cbn [find_open].
  { exists None. split; [done|]. by intros u ?%elem_of_nil. }
  destruct (Hdom u ltac:(by left)) as [x Hx]. erewrite cell_done by done.
  destruct (isInStackAt level x) eqn:E.
  - exists (Some u). split; [done|]. split; [by left|]. destruct x as [i|]; [|done]. apply Z.eqb_eq in E as ->. done.
  - destruct IH as (r & -> & Hr); [intros; apply Hdom; by right|]. exists r. split; [done|]. destruct r as [u'|].
    + destruct Hr. split; [by right|done].
    + intros u' [->|Hu']%elem_of_cons; [|by apply Hr]. rewrite Hx. intros [= ->]. simpl in E. lia.
Qed.

Lemma findUpValue_done level s : cells_ok s → 0 ≤ level < Z.of_nat (length (stack s)) →
  ∃ u s', findUpValue level s = Done u s' ∧ cells_ok s' ∧ upCells s' !! u = Some (UOpen level) ∧ stack s' = stack s ∧
    (∀ u', is_Some (upCells s !! u') → upCells s' !! u' = upCells s !! u').
Proof.
  intros Hok Hl. unfold findUpValue. rewrite gets_done.
  destruct (find_open_done (openUpValues s) level s (ck_cells s Hok)) as (r & Hr & Hspec). erewrite bind_done by exact Hr.
  destruct r as [u|].
  - exists u, s. destruct Hspec. done.
  - pose proof (ck_fresh s Hok) as Hf. assert (upCells s !! fresh s = None) as Hn.
    { destruct (upCells s !! fresh s) eqn:E; [|done]. specialize (Hf (fresh s) ltac:(by eexists)). lia. }
    eexists (fresh s), _. split; [done|]. simpl.
    assert (∀ u', is_Some (upCells s !! u') → <[fresh s:=UOpen level]> (upCells s) !! u' = upCells s !! u') as Hkeep.
    { intros u' [x Hx]. rewrite lookup_insert_ne; [done|]. intros <-. congruence. }
    split_and!; [|by rewrite lookup_insert_eq|done|done]. destruct Hok as [H1 H2 H3 H4 H5]. split; simpl.
    + intros u i. destruct (decide (u = fresh s)) as [->|].
      * rewrite lookup_insert_eq. intros [= <-]. split; [by left|done].
      * rewrite lookup_insert_ne by done. intros H. destruct (H1 u i H). split; [by right|done].
    + intros u [->|Hu]%elem_of_cons; [by rewrite lookup_insert_eq|]. rewrite Hkeep by by apply H2. by apply H2.
    + constructor; [|done]. intros Hin. destruct (H2 _ Hin). congruence.
    + intros u. destruct (decide (u = fresh s)) as [->|]; [lia|]. rewrite lookup_insert_ne by done. intros H. specialize (H4 u H). lia.
    + intros u u' i. destruct (decide (u = fresh s)) as [->|], (decide (u' = fresh s)) as [->|];
        rewrite ?lookup_insert_eq, ?lookup_insert_ne by done; [done| | |by apply H5].
      * intros [= <-] H. destruct (H1 _ _ H) as [Hin _]. by specialize (Hspec _ Hin).
      * intros H [= <-]. destruct (H1 _ _ H) as [Hin _]. by specialize (Hspec _ Hin).
Qed.


End world.

(** A witness: a variable of the base call, captured twice and closed. *)
Definition one_cell : lstate := set_cells {[0%nat := UOpen 3]} (set_open [0%nat] (NewState nothing)).
Lemma one_cell_ok : cells_ok one_cell.
Proof.
  split; simpl.
  - intros u i Hu. apply lookup_singleton_Some in Hu as [<- [= <-]]. split; [by left|by vm_compute].
  - intros u ->%list_elem_of_singleton. by eexists.
  - apply NoDup_singleton.
  - intros u [x [<- _]%lookup_singleton_Some]. lia.
  - intros u u' i [<- _]%lookup_singleton_Some [<- _]%lookup_singleton_Some. done.
Qed.

(** ** Metamethods that are lost *)

Section world.
Context {Wd : World}.


Lemma table_of_done {B} id t (f : table → lua B) s : tables s !! id = Some t → (table_of id ≫= f) s = f t s.
Proof. intros Ht. apply bind_done. unfold table_of. rewrite gets_done. by rewrite Ht. Qed.

Lemma ok_done {A B} (o : outcome A) a (f : A → lua B) s : o = Ok a → (of_outcome o ≫= f) s = f a s.
Proof. by intros ->. Qed.

(** The state after a search for [__index] that found none. *)
Definition mark_index (mt : nat) (m : table) (s : lstate) : lstate :=
  set_tables (<[mt := set_flags (Z.lor (flags m) 1) m]> (tables s)) s.

Section lost.
Context (call : Z → Z → bool → lua unit).
Context (id mt : nat) (tab m : table) (handler : value) (s : lstate).
Hypothesis Htab : tables s !! id = Some tab.
Hypothesis Hok : table_ok tab.
Hypothesis Hmt : metaTable tab = Some mt.
Hypothesis Hm : tables s !! mt = Some m.
Hypothesis Hne : id ≠ mt.
Hypothesis Hfresh : Z.land (flags m) 1 = 0.
Hypothesis Hindex : atString "__index" m = VNil.
Hypothesis Hnew : atString "__newindex" m = handler.
Hypothesis Hfun : is_function handler = true.

Lemma read_missing key : look key tab = VNil → tableAt call (VTable id) key s = Done VNil (mark_index mt m s).
Proof.
  intros Hk. unfold tableAt. change maxTagLoop with (S 99). generalize 99%nat. intros n. cbn [table_at].
  erewrite (bind_done _ _ _ (VNil, VNil) (mark_index mt m s)); [done|].
  erewrite table_of_done by done. erewrite ok_done by (by apply at_look). rewrite Hk. cbn [is_nil negb].
  erewrite (bind_done _ _ _ VNil (mark_index mt m s)); [done|]. unfold fastTagMethod. rewrite Hmt. erewrite table_of_done by done. rewrite Hfresh.
  change (negb (Z.shiftl 0 (event_of tmIndex).1 mod 256 =? 0)) with false. cbn [event_of].
  unfold tagMethod. erewrite table_of_done by done. cbn [event_of fst snd]. rewrite Hindex. cbn [is_nil]. done.
Qed.

Lemma missing_refused key val : look key tab = VNil → tryPut key val tab = Ok None.
Proof.
  intros Hk. destruct (tryPut_updated key val tab Hok) as (r & -> & Hspec). f_equal. destruct r; [by destruct Hspec|done].
Qed.

Lemma assign_handled key val : tryPut key val tab = Ok None → setTableAt call (VTable id) key val s = callTagMethodV call handler (VTable id) key val s.
Proof.
  intros Hr. unfold setTableAt. change maxTagLoop with (S 99). generalize 99%nat. intros n. cbn [set_table_at].
  erewrite (bind_done _ _ _ (Some handler) s).
  2: { erewrite table_of_done by done. erewrite ok_done by done. cbn beta iota. erewrite (bind_done _ _ _ handler s).
       2: { unfold fastTagMethod. rewrite Hmt. erewrite table_of_done by done. rewrite Hfresh.
            change (negb (Z.shiftl 0 (event_of tmNewIndex).1 mod 256 =? 0)) with false. cbn [event_of].
            unfold tagMethod. erewrite table_of_done by done. cbn [event_of fst snd]. rewrite Hnew.
            destruct handler; try done; reflexivity. }
       destruct handler; try done; reflexivity. }
  by rewrite Hfun.
Qed.

Lemma assign_unhandled key val : look key tab = VNil → is_Some (hkey key) → key ≠ VNil →
  ∃ tab', setTableAt call (VTable id) key val (mark_index mt m s) =
      Done () (set_tables (<[id := invalidateTagMethodCache tab']> (tables (mark_index mt m s))) (mark_index mt m s)) ∧
    updated key val tab tab'.
Proof.
  intros Hk Hkey Hnil. unfold setTableAt. change maxTagLoop with (S 99). generalize 99%nat. intros n. cbn [set_table_at].
  assert (tables (mark_index mt m s) !! id = Some tab) as Htab' by (simpl; by rewrite lookup_insert_ne).
  pose proof (missing_refused key val Hk) as Hr.
  destruct (put_updated key val tab Hok Hkey Hnil) as (tab' & Hput & Hupd). exists tab'. split; [|done].
  erewrite (bind_done _ _ _ None _); [reflexivity|].
  erewrite table_of_done by done. erewrite ok_done by done. cbn beta iota. erewrite (bind_done _ _ _ VNil _).
  2: { unfold fastTagMethod. rewrite Hmt. erewrite table_of_done by (simpl; by rewrite lookup_insert_eq). cbn [flags set_flags].
       rewrite Z.land_lor_distr_l, Hfresh. reflexivity. }
  cbn [is_nil]. erewrite (bind_done _ _ _ () _); [reflexivity|]. unfold put_checked. erewrite table_of_done by done. rewrite Hput. reflexivity.
Qed.

(** C31: a table whose metatable has [__newindex] and no [__index] loses it.  Until a missing
    key of the table is read, an assignment to a missing key calls the handler; the read finds
    nothing and leaves a mark on the metatable; from then on the assignment goes straight to
    the table and the handler is not called. *)
Theorem newindex_lost (key key' val : value) :
  look key tab = VNil → look key' tab = VNil → is_Some (hkey key') → key' ≠ VNil →
  setTableAt call (VTable id) key' val s = callTagMethodV call handler (VTable id) key' val s ∧
  tableAt call (VTable id) key s = Done VNil (mark_index mt m s) ∧
  ∃ tab' s', setTableAt call (VTable id) key' val (mark_index mt m s) = Done () s' ∧
    tables s' !! id = Some tab' ∧ look key' tab' = val ∧ callInfos s' = callInfos s ∧ stack s' = stack s.
Proof.
  intros H1 H2 H3 H4. split; [by apply assign_handled, missing_refused|]. split; [by apply read_missing|].
  destruct (assign_unhandled key' val H2 H3 H4) as (tab' & H & Hok' & Hl & _). eexists _, _. split; [exact H|].
  split; [simpl; by rewrite lookup_insert_eq|]. split_and!; [|done..].
  change (look key' (invalidateTagMethodCache tab')) with (look key' tab'). rewrite Hl. by rewrite decide_True.
Qed.
End lost.
End world.

(** Powers, for the witnesses: those of programs that use none. *)
#[export] Instance no_powers : GoMath := {| math_Pow _ _ := S754_nan; math_Pow10 _ := S754_nan |}.

Definition step_meta : table := set_hash (hset ∅ (VString "__newindex") (VGoFunction 0)) newTable.
Definition step_like : table := mkTable [] ∅ (Some 2%nat) 0 None.
Definition two_tables : lstate := set_tables {[0%nat := newTable; 1%nat := step_like; 2%nat := step_meta]} (NewState nothing).
Lemma step_like_ok : table_ok step_like.
Proof. intros k v H. change (hash step_like) with (∅ : gmap value value) in H. by apply lookup_empty_Some in H. Qed.
Lemma newindex_lost_witness :
  ∃ tab' s', setTableAt (call_ no_host 0) (VTable 1) (VString "a") (VBool true) (mark_index 2 step_meta two_tables) = Done () s' ∧
    tables s' !! 1%nat = Some tab' ∧ look (VString "a") tab' = VBool true ∧ callInfos s' = callInfos two_tables ∧ stack s' = stack two_tables.
Proof.
  refine (proj2 (proj2 (newindex_lost (call_ no_host 0) 1 2 step_like step_meta (VGoFunction 0) two_tables
    _ step_like_ok _ _ _ _ _ _ _ (VString "b") (VString "a") (VBool true) _ _ _ _)));
    first [reflexivity|discriminate|by eexists].
Defined.
