(* ===== verification/LuaRun.v ===== *)
(** * What instructions of the Lua machine compute

    Concatenation joins the texts of all its operands; results and arguments of calls are
    cut or filled with nil to what is wanted; what is beyond the parameters of a function
    comes back from [...]. *)
From Stdlib Require Import ZArith Lia Ascii.
From stdpp Require Import base option list gmap strings.
From S2P Require Import Prelude GoNum GoFmt Strconv LuaInstr LuaTable LuaTableProps LuaScan LuaProto LuaState LuaCall LuaVM LuaLoad LuaVMFacts.
From Stdlib Require Import SpecFloat.

Section world.
Context {Wd : World}.

(** ** The stack as a list *)

Lemma set_stack_same s : set_stack (stack s) s = s.
Proof. by destruct s. Qed.
Lemma set_top_same s : set_top (top s) s = s.
Proof. by destruct s. Qed.

(** An index of the stack and the position in its list. *)
Lemma stack_at_mid {B} lo v hi i (f : value → lua B) s : stack s = lo ++ v :: hi → i = Z.of_nat (length lo) → (stack_at i ≫= f) s = f v s.
Proof.
  intros Hs ->. apply stack_at_done; [lia|]. rewrite Hs, Nat2Z.id, lookup_app_r by lia. by rewrite Nat.sub_diag.
Qed.
Lemma stack_put_mid {B} lo v w hi i (f : unit → lua B) s : stack s = lo ++ v :: hi → i = Z.of_nat (length lo) →
  (stack_put i w ≫= f) s = f () (set_stack (lo ++ w :: hi) s).
Proof.
  intros Hs ->. rewrite stack_put_done by (rewrite Hs, length_app; simpl; lia). rewrite Hs, Nat2Z.id.
  rewrite insert_app_r_alt by lia. by rewrite Nat.sub_diag.
Qed.

(** ** Concatenation *)

Definition text (v : value) : string := default ""%string (toString v).
Definition is_text (v : value) : Prop := text_or_number v = true.
Lemma toString_text v : is_text v → toString v = Some (text v).
Proof. by destruct v. Qed.
Definition texts (vs : list value) : list string := map text vs.
Definition joined (vs : list value) : string := String.concat "" (texts vs).

Lemma toString_at_mid {B} lo v hi i (f : option string → lua B) s : is_text v → stack s = lo ++ v :: hi → i = Z.of_nat (length lo) →
  (toString_at i ≫= f) s = f (Some (text v)) (set_stack (lo ++ VString (text v) :: hi) s).
Proof.
  intros Hv Hs Hi. apply bind_done. unfold toString_at. erewrite stack_at_mid by done. rewrite toString_text by done.
  erewrite stack_put_mid by done. done.
Qed.

Lemma str_nil_r (x : string) : (x +:+ "")%string = x.
Proof. induction x as [|c x IH]; [done|]. exact (f_equal (String c) IH). Qed.
Lemma str_assoc (x y z : string) : ((x +:+ y) +:+ z)%string = (x +:+ (y +:+ z))%string.
Proof. induction x as [|c x IH]; [done|]. exact (f_equal (String c) IH). Qed.

Lemma concat_cons x xs : String.concat "" (x :: xs) = (x +:+ String.concat "" xs)%string.
Proof. destruct xs; simpl; [symmetry; apply str_nil_r|done]. Qed.
Lemma joined_app us vs : joined (us ++ vs) = (joined us +:+ joined vs)%string.
Proof.
  unfold joined, texts. rewrite map_app. induction us as [|u us IH]; [done|]. cbn [map app]. by rewrite !concat_cons, IH, str_assoc.
Qed.
Lemma joined_one v : joined [v] = text v.
Proof. done. Qed.
Lemma texts_strings vs : texts (map VString (texts vs)) = texts vs.
Proof. unfold texts. rewrite !map_map. apply map_ext. done. Qed.

(** The operands from the one before last down become texts. *)
Lemma collect_done us lo rest n acc s : Forall is_text us → stack s = lo ++ us ++ rest → top s - n = Z.of_nat (length lo + length us) - 1 →
  collect_texts (length us) n acc s = Done (texts us ++ acc) (set_stack (lo ++ map VString (texts us) ++ rest) s).
Proof.
  revert rest n acc s. induction us as [|u us IH] using rev_ind; intros rest n acc s Hus Hs Hn.
  { simpl. unfold texts. simpl in Hs. rewrite <- Hs, set_stack_same. done. }
  apply Forall_app in Hus as [Hus [Hu _]%Forall_cons]. rewrite length_app in *. simpl in Hn. rewrite Nat.add_1_r.
  cbn [collect_texts]. rewrite gets_done. erewrite (toString_at_mid (lo ++ us)); [|exact Hu|by rewrite Hs, <- !app_assoc|rewrite length_app; lia].
  cbn beta iota. rewrite (IH (VString (text u) :: rest)); [|done|simpl; by rewrite <- app_assoc|simpl; lia].
  unfold texts. rewrite !map_app, <- !app_assoc. done.
Qed.

Lemma from_top_mid {B} lo v hi i (f : value → lua B) s : stack s = lo ++ v :: hi → top s - i = Z.of_nat (length lo) →
  (from_top i ≫= f) s = f v s.
Proof. intros Hs Hi. apply bind_done. unfold from_top. rewrite gets_done, Hi. unfold stack_at. rewrite gets_done, Hs. erewrite slice_at_ok; [done|lia|]. by rewrite Nat2Z.id, list_lookup_middle. Qed.
Lemma put_top_mid {B} lo v w hi i (f : unit → lua B) s : stack s = lo ++ v :: hi → top s - i = Z.of_nat (length lo) →
  (put_top i w ≫= f) s = f () (set_stack (lo ++ w :: hi) s).
Proof.
  intros Hs Hi. apply bind_done. unfold put_top. rewrite gets_done, Hi. unfold stack_put. rewrite gets_done, Hs.
  rewrite slice_put_ok by (rewrite length_app; simpl; lia). rewrite Nat2Z.id, insert_app_r_alt, Nat.sub_diag by lia. done.
Qed.

(** Other slots, another top. *)
Definition with_stack (l : list value) (t : Z) (s : lstate) : lstate := set_top t (set_stack l s).

Section concat.
Context (call : Z → Z → bool → lua unit).

(** A pass over operands that are texts leaves fewer of them, which join to the same. *)
Lemma concat_round_done vs a b lo hi s : Forall is_text (vs ++ [b; a]) → stack s = lo ++ vs ++ b :: a :: hi →
  top s = Z.of_nat (length lo + length vs + 2) →
  ∃ n us v hi', concat_round call (Z.of_nat (length vs + 2)) s = Done (Z.of_nat n) (set_stack (lo ++ us ++ VString v :: hi') s) ∧
    (2 ≤ n)%nat ∧ (length us + n = length vs + 2)%nat ∧ Forall is_text us ∧ joined (us ++ [VString v]) = joined (vs ++ [b; a]) ∧
    length (lo ++ us ++ VString v :: hi') = length (stack s).
Proof.
  intros [Hvs [Hb [Ha _]%Forall_cons]%Forall_cons]%Forall_app Hs Ht. unfold concat_round.
  erewrite (from_top_mid (lo ++ vs) b); [|by rewrite Hs, <- app_assoc|rewrite length_app; lia]. rewrite Hb. cbn [negb].
  rewrite gets_done. erewrite (toString_at_mid (lo ++ vs ++ [b]) a); [|done|by rewrite Hs, <- !app_assoc|rewrite !length_app; simpl; lia].
  cbn beta iota. case_bool_decide as Hea.
  { erewrite (toString_at_mid (lo ++ vs) b); [|done|by rewrite <- !app_assoc|rewrite length_app; lia]. cbn [default].
    erewrite (put_top_mid (lo ++ vs) (VString (text b))); [|simpl; by rewrite <- !app_assoc|rewrite length_app; simpl; lia].
    exists 2%nat, vs, (text b), (VString (text a) :: hi). rewrite <- !app_assoc. split_and!; try done.
    - rewrite !joined_app. unfold joined at 4. cbn [texts map]. rewrite concat_cons. cbn. by rewrite Hea, str_nil_r.
    - rewrite Hs, !length_app. done. }
  case_bool_decide as Heb.
  { erewrite (from_top_mid (lo ++ vs ++ [b]) (VString (text a))); [|simpl; by rewrite <- !app_assoc|rewrite !length_app; simpl; lia].
    erewrite (put_top_mid (lo ++ vs) b); [|simpl; by rewrite <- !app_assoc|rewrite length_app; simpl; lia].
    exists 2%nat, vs, (text a), (VString (text a) :: hi). rewrite <- !app_assoc. split_and!; try done.
    - rewrite !joined_app. unfold joined at 4. cbn [texts map]. rewrite concat_cons, Heb. done.
    - rewrite Hs, !length_app. done. }
  erewrite bind_done.
  2: { replace (Z.to_nat (Z.of_nat (length vs + 2) - 1)) with (length (vs ++ [b])) by (rewrite length_app; simpl; lia).
       apply (collect_done (vs ++ [b]) lo (VString (text a) :: hi)); [apply Forall_app; by repeat constructor|simpl; by rewrite <- !app_assoc|].
       rewrite length_app. simpl. lia. }
  set (ss := texts (vs ++ [b]) ++ [text a]).
  assert (length ss = (length vs + 2)%nat) as Hss by (unfold ss, texts; rewrite length_app, length_map, length_app; simpl; lia).
  destruct (map VString (texts (vs ++ [b]))) as [|w ws] eqn:Ew.
  { apply (f_equal length) in Ew. unfold texts in Ew. rewrite !length_map, length_app in Ew. simpl in Ew. lia. }
  erewrite (put_top_mid lo w); [|reflexivity|simpl; rewrite Hss; lia].
  exists (length ss), [], (joined (vs ++ [b; a])), (ws ++ VString (text a) :: hi). simpl.
  apply (f_equal length) in Ew. unfold texts in Ew. rewrite !length_map, length_app in Ew. simpl in Ew.
  split_and!; [|lia|lia|done|done|rewrite Hs, !length_app; simpl; rewrite !length_app; simpl; lia].
  unfold mret, lua_ret. f_equal. unfold set_stack. simpl. do 5 f_equal. unfold ss, joined, texts. rewrite !map_app. by rewrite <- app_assoc.
Qed.

Lemma concat_loop_done k vs v lo hi s : (length vs ≤ k)%nat → Forall is_text (vs ++ [v]) → stack s = lo ++ vs ++ v :: hi →
  top s = Z.of_nat (length lo + length vs + 1) →
  ∃ w hi', concat_loop call k (Z.of_nat (length vs + 1)) s = Done () (with_stack (lo ++ w :: hi') (Z.of_nat (length lo + 1)) s) ∧
    text w = joined (vs ++ [v]) ∧ ((vs = [] ∧ w = v) ∨ w = VString (text w)) ∧ length (lo ++ w :: hi') = length (stack s).
Proof.
  revert vs v hi s. induction k as [|k IH]; intros vs v hi s Hk Hvs Hs Ht.
  { destruct vs; [|simpl in Hk; lia]. exists v, hi. simpl in *. split_and!; [|done|by left|by rewrite Hs]; unfold with_stack.
    rewrite <- Hs, set_stack_same. replace (Z.of_nat (length lo + 1)) with (top s) by (rewrite Ht; lia). by rewrite set_top_same. }
  cbn [concat_loop]. destruct vs as [|b us _] using rev_ind.
  { simpl. exists v, hi. simpl in *. split_and!; [|done|by left|by rewrite Hs]; unfold with_stack.
    rewrite <- Hs, set_stack_same. replace (Z.of_nat (length lo + 1)) with (top s) by (rewrite Ht; lia). by rewrite set_top_same. }
  rewrite length_app in *. simpl in *. rewrite <- !app_assoc in *. simpl in *.
  assert ((1 <? Z.of_nat (length us + 1 + 1)) = true) as -> by (apply Z.ltb_lt; lia).
  destruct (concat_round_done us v b lo hi s) as (n & us' & x & hi' & Hr & Hn & Hlen & Hall & Hj & Hl); [done|done|lia|].
  replace (Z.of_nat (length us + 1 + 1)) with (Z.of_nat (length us + 2)) by lia.
  erewrite bind_done by exact Hr. rewrite puts_done.
  destruct (IH us' (VString x) hi' (set_top (top s - (Z.of_nat n - 1)) (set_stack (lo ++ us' ++ VString x :: hi') s)))
    as (w & hi2 & Hrun & Hw & Hstr & Hl2); [lia|by apply Forall_app; repeat constructor|done|simpl; lia|].
  exists w, hi2. replace (Z.of_nat (length us' + 1)) with (Z.of_nat (length us + 2) - (Z.of_nat n - 1)) in Hrun by lia.
  split_and!; [exact Hrun|by rewrite Hw|right|rewrite Hl2; exact Hl].
  by destruct Hstr as [[_ ->]|Hstr].
Qed.

(** The operands of [..], texts and numbers, are joined to one text, in their order, however
    many there are and wherever empty ones stand: it takes the place of the first, the top of
    the stack comes down to it, and what lies below is as it was. *)
Theorem concat_joins (vs : list value) (lo hi : list value) (s : lstate) :
  (2 ≤ length vs)%nat → Forall is_text vs → stack s = lo ++ vs ++ hi → top s = Z.of_nat (length lo + length vs) →
  ∃ hi', concat call (Z.of_nat (length vs)) s =
    Done () (with_stack (lo ++ VString (joined vs) :: hi') (Z.of_nat (length lo + 1)) s).
Proof.
  intros Hlen Hvs Hs Ht. destruct vs as [|v vs _] using rev_ind; [simpl in Hlen; lia|]. rewrite length_app in *. simpl in *.
  rewrite <- app_assoc in Hs. unfold concat. erewrite (bind_done _ _ _ () s).
  2: { unfold assert_l. by assert ((2 <=? Z.of_nat (length vs + 1)) = true) as -> by (apply Z.leb_le; lia). }
  rewrite Nat2Z.id. destruct (concat_loop_done (length vs + 1) vs v lo hi s) as (w & hi' & Hrun & Hw & Hstr & _); [lia|done|done|lia|].
  exists hi'. rewrite Hrun, <- Hw. destruct Hstr as [[-> _]|<-]; [simpl in Hlen; lia|done].
Qed.
End concat.

End world.

Lemma concat_joins_witness :
  ∃ hi', concat (call_ no_host 0) 3 (with_stack [VNil; VString "a"; VNumber (float_of_int 2); VString "b"] 4 (NewState nothing)) =
    Done () (with_stack ([VNil] ++ VString "a2b" :: hi') 2 (with_stack [VNil; VString "a"; VNumber (float_of_int 2); VString "b"] 4 (NewState nothing))).
Proof.
  destruct (concat_joins (call_ no_host 0) [VString "a"; VNumber (float_of_int 2); VString "b"] [VNil] []
    (with_stack [VNil; VString "a"; VNumber (float_of_int 2); VString "b"] 4 (NewState nothing))) as (hi' & H);
    [simpl; lia|by repeat constructor|done|done|]. exists hi'.
  assert (joined [VString "a"; VNumber (float_of_int 2); VString "b"] = "a2b"%string) as E by (by vm_compute).
  rewrite E in H. exact H.
Defined.

(** ** Calls *)

Section world.
Context {Wd : World}.


Lemma move_results_done rs i lo mid hi s : mid ≠ [] → stack s = lo ++ mid ++ rs ++ hi →
  let k := if i <? 0 then length rs else Nat.min (Z.to_nat i) (length rs) in
  ∃ mid', move_results (length rs) i (Z.of_nat (length lo)) (Z.of_nat (length lo + length mid)) s =
      Done (i - Z.of_nat k, Z.of_nat (length lo + k)) (set_stack (lo ++ take k rs ++ mid' ++ hi) s) ∧
    (length mid' + k = length mid + length rs)%nat.
Proof.
  revert i lo mid s. induction rs as [|r rs IH]; intros i lo mid s Hmid Hs k.
  { exists mid. assert (k = 0%nat) as -> by (unfold k; destruct (i <? 0); simpl; lia). simpl in *. rewrite <- Hs, set_stack_same.
    split; [|lia]. rewrite Nat.add_0_r, Z.sub_0_r. done. }
  cbn [length move_results]. destruct (Z.eqb_spec i 0) as [->|Hi].
  { exists (mid ++ r :: rs). assert (k = 0%nat) as -> by done. rewrite length_app. simpl in Hs. split; [|simpl; lia].
    rewrite <- app_assoc. simpl. by rewrite <- Hs, set_stack_same, Nat.add_0_r. }
  destruct mid as [|x mid]; [done|]. simpl in Hs.
  erewrite (stack_at_mid (lo ++ x :: mid)); [|by rewrite Hs, <- app_assoc|rewrite length_app; done].
  erewrite (stack_put_mid lo x); [|done|done].
  destruct (IH (i - 1) (lo ++ [r]) (mid ++ [r]) (set_stack (lo ++ r :: mid ++ r :: rs ++ hi) s)) as (mid' & Hrun & Hlen).
  { by destruct mid. } { simpl. by rewrite <- !app_assoc. }
  exists mid'. rewrite !length_app in *. simpl in *.
  replace (Z.of_nat (length lo) + 1) with (Z.of_nat (length lo + 1)) by lia.
  replace (Z.of_nat (length lo + S (length mid)) + 1) with (Z.of_nat (length lo + 1 + (length mid + 1))) by lia. rewrite Hrun.
  set (k' := if i - 1 <? 0 then _ else _) in *. assert (k = S k') as ->.
  { unfold k, k'. simpl. destruct (Z.ltb_spec i 0), (Z.ltb_spec (i - 1) 0); lia. }
  split; [|lia]. simpl. rewrite <- !app_assoc. simpl. f_equal; f_equal; lia.
Qed.

Lemma fill_results_done n lo hi s : stack s = lo ++ hi → (n ≤ length hi)%nat →
  fill_results n (Z.of_nat (length lo)) s = Done (Z.of_nat (length lo + n)) (set_stack (lo ++ replicate n VNil ++ drop n hi) s).
Proof.
  revert lo hi s. induction n as [|n IH]; intros lo hi s Hs Hn.
  { simpl. rewrite drop_0, <- Hs, set_stack_same, Nat.add_0_r. done. }
  destruct hi as [|x hi]; [simpl in Hn; lia|]. cbn [fill_results]. erewrite (stack_put_mid lo x); [|done|done].
  replace (Z.of_nat (length lo) + 1) with (Z.of_nat (length (lo ++ [VNil]))) by (rewrite length_app; simpl; lia).
  rewrite (IH (lo ++ [VNil]) hi); [|simpl; by rewrite <- app_assoc|simpl in Hn; lia].
  rewrite length_app. simpl. rewrite <- app_assoc. simpl. do 2 f_equal. lia.
Qed.

(** What a function returns reaches its caller.  The results, which lie at the top of the
    stack, take the place of the function and its arguments: all of them if the caller wants
    all, and otherwise as many as it wants, cut or filled up with nil; the top of the stack is
    set after the last, and the caller is the current call again. *)
Theorem results_returned (s : lstate) (ci : callInfo) (cs : list callInfo) (lo mid rs hi : list value) :
  callInfos s = ci :: cs → stack s = lo ++ mid ++ rs ++ hi → mid ≠ [] → ci_function ci = Z.of_nat (length lo) →
  top s = Z.of_nat (length lo + length mid + length rs) → -1 ≤ resultCount ci →
  (length lo + Z.to_nat (resultCount ci) ≤ length (stack s))%nat →
  let out := if resultCount ci =? MultipleReturns then rs else resize (Z.to_nat (resultCount ci)) VNil rs in
  ∃ hi', postCall (Z.of_nat (length lo + length mid)) s =
    Done (negb (resultCount ci =? MultipleReturns))
      (set_calls cs (with_stack (lo ++ out ++ hi') (Z.of_nat (length lo + length out)) s)).
Proof.
  intros Hc Hs Hmid Hf Ht Hw Hroom out. unfold postCall.
  erewrite (bind_done _ _ _ ci s) by (unfold this_call; rewrite gets_done, Hc; done).
  rewrite gets_done, puts_done, Hc, Hf. cbn [tail].
  replace (Z.to_nat (top s - Z.of_nat (length lo + length mid))) with (length rs) by lia.
  destruct (move_results_done rs (resultCount ci) lo mid hi (set_calls cs s) Hmid Hs) as (mid' & Hrun & Hlen).
  erewrite bind_done by exact Hrun. cbn beta iota. set (k := if resultCount ci <? 0 then _ else _) in *.
  set (n := Z.to_nat (resultCount ci - Z.of_nat k)). rewrite Hs, !length_app in Hroom.
  assert (length (take k rs) = k) as Hk by (rewrite length_take; unfold k; destruct (resultCount ci <? 0); lia).
  assert (n ≤ length (mid' ++ hi))%nat as Hn by (rewrite length_app; unfold n; lia).
  erewrite bind_done.
  2: { replace (length lo + k)%nat with (length (lo ++ take k rs)) by (rewrite length_app; lia).
       apply (fill_results_done n _ (mid' ++ hi)); [simpl; by rewrite <- !app_assoc|done]. }
  rewrite puts_done. exists (drop n (mid' ++ hi)).
  assert (out = take k rs ++ replicate n VNil) as ->.
  { unfold out, n, k, MultipleReturns. destruct (Z.eqb_spec (resultCount ci) (-1)) as [E|E].
    - rewrite E. change (-1 <? 0) with true. cbn iota.
      replace (Z.to_nat (-1 - Z.of_nat (length rs))) with 0%nat by lia. cbn [replicate]. by rewrite firstn_all, app_nil_r.
    - assert ((resultCount ci <? 0) = false) as -> by lia. rewrite resize_spec. destruct (decide (Z.to_nat (resultCount ci) ≤ length rs)%nat).
      + rewrite Nat.min_l by done. f_equal. f_equal. lia.
      + rewrite Nat.min_r, firstn_all, take_ge by lia. f_equal. f_equal. lia. }
  rewrite !length_app, length_replicate, Hk. unfold mret, lua_ret, with_stack. simpl. rewrite <- !app_assoc.
  replace (length lo + (k + n))%nat with (length lo + k + n)%nat by lia. done.
Qed.

(** ** The size of the stack *)

(** Room for [n] values above the top. *)
Definition stack_room (n : Z) (s : lstate) : Prop :=
  0 ≤ n ∧ 0 ≤ top s ∧ top s + n + extraStack ≤ maxStack ∧ Z.of_nat (length (stack s)) ≤ maxStack.

Lemma checkStack_done call n s : stack_room n s → stackLast s = Z.of_nat (length (stack s)) - extraStack →
  ∃ m, checkStack call n s =
    Done () (set_stackLast (Z.of_nat (length (stack s) + m) - extraStack) (set_stack (stack s ++ replicate m VNil) s)) ∧
    top s + n ≤ Z.of_nat (length (stack s) + m) - extraStack ∧ Z.of_nat (length (stack s) + m) ≤ maxStack.
Proof.
  intros (Hn & Ht & Hr & Hl) Hlast. unfold checkStack. rewrite !gets_done. destruct (Z.leb_spec (stackLast s - top s) n) as [Hle|Hgt].
  - unfold growStack. rewrite !gets_done, (proj2 (Z.ltb_ge _ _)) by done. cbv zeta.
    set (new := Z.max (Z.min (2 * Z.of_nat (length (stack s))) maxStack) (top s + n + extraStack)).
    assert (new ≤ maxStack ∧ top s + n + extraStack ≤ new ∧ Z.of_nat (length (stack s)) ≤ new) as (H1 & H2 & H3) by (unfold new; lia).
    rewrite (proj2 (Z.ltb_ge _ _)) by lia. unfold reallocStack. rewrite !gets_done, (proj2 (Z.leb_le _ _)) by done.
    rewrite Hlast, Z.eqb_refl. cbn [orb assert_l]. rewrite !ret_done.
    exists (Z.to_nat new - length (stack s))%nat. split; [|lia]. rewrite puts_done. unfold puts. rewrite length_app, length_replicate. done.
  - exists 0%nat. split; [|lia]. rewrite app_nil_r, Nat.add_0_r, <- Hlast. unfold mret, lua_ret. f_equal. by destruct s.
Qed.
End world.

(** A call of two results from a function that returns one, and one from a function of three. *)
Definition returning (wanted : Z) (rs : list value) : lstate :=
  set_calls [mkCall 0 1 3 wanted true 0 [] true false] (with_stack ([VGoFunction 0; VNil] ++ rs) (2 + Z.of_nat (length rs)) (NewState nothing)).
Lemma results_returned_witness :
  (∃ hi', postCall 2 (returning 2 [VBool true]) =
     Done true (set_calls [] (with_stack ([VBool true; VNil] ++ hi') 2 (returning 2 [VBool true])))) ∧
  (∃ hi', postCall 2 (returning MultipleReturns [VBool true; VNil; VBool false]) =
     Done false (set_calls [] (with_stack ([VBool true; VNil; VBool false] ++ hi') 3 (returning MultipleReturns [VBool true; VNil; VBool false])))).
Proof.
  split.
  - apply (results_returned (returning 2 [VBool true]) (mkCall 0 1 3 2 true 0 [] true false) [] [] [VGoFunction 0; VNil] [VBool true] []);
      [done|done|done|done|done|done|vm_compute; lia].
  - apply (results_returned (returning MultipleReturns [VBool true; VNil; VBool false]) (mkCall 0 1 3 MultipleReturns true 0 [] true false) [] []
      [VGoFunction 0; VNil] [VBool true; VNil; VBool false] []); [done|done|done|done|done|done|vm_compute; lia].
Defined.
