(* ===== verification/LuaExamples.v ===== *)
(** * Programs of Lua, from their text to their results

    Whole runs, computed: the scanner, the compiler and the machine together.  The last ones
    show where they differ from Lua. *)
From Stdlib Require Import ZArith Lia Ascii.
From stdpp Require Import base option list gmap strings.
From S2P Require Import Prelude GoNum GoFmt Strconv LuaInstr LuaTable LuaTableProps LuaScan LuaProto LuaCode LuaParser LuaState LuaCall LuaVM LuaLoad LuaVMFacts.
From Stdlib Require Import SpecFloat.

Definition num (z : Z) : value := VNumber (float_of_int z).
(** What a text returns, its error, or nothing when it does not end well in [n] steps. *)
Definition returns (n : nat) (text : string) (vs : list value) : Prop := run_text n text = Some (None, vs).
Definition fails_with (n : nat) (text message : string) : Prop :=
  run_text n text = Some (Some (RuntimeError message), [VString message]).

Example precedence : returns 100 "return 1+2*3, 2-3-4, -2*3 == -6, not nil == true, 'a'..1 ..2"
  [num 7; num (-5); VBool true; VBool true; VString "a12"].
Proof. by vm_compute. Qed.

Example logic : returns 200 "local a, b = 1; return a and b, a or b, b or false, (a and b) == nil, not (a and 2 < 3)"
  [VNil; num 1; VBool false; VBool true; VBool false].
Proof. by vm_compute. Qed.

Example recursion :
  returns 5000 "local function fib(n) if n < 2 then return n end local a, b = fib(n-1), fib(n-2) return a + b end local r = fib(8) return r"
    [num 21].
Proof. by vm_compute. Qed.

Example loops :
  returns 1000 "local t, s = {10, 20, 30, x = 5}, 0 for i = 1, #t do s = s + t[i] end while s < 70 do s = s + t.x end repeat s = s * 2 until s > 200 return s"
    [num 280].
Proof. by vm_compute. Qed.

Example shared_variables :
  returns 1000 "local function f() local n = 0 return function() n = n + 1 return n end, function() return n end end local up, at = f() up() up() local x = at() return x"
    [num 2].
Proof. by vm_compute. Qed.

Example variable_arguments :
  returns 500 "local function f(...) local a, b, c = ... return a, c, ... end local x, y, z, w = f(1, 2) return x, y, z, w"
    [num 1; VNil; num 1; num 2].
Proof. by vm_compute. Qed.

Example message : fails_with 100 "local x = nil
return x + 1" ("[string " +:+ String dquote "?" +:+ String dquote "]:2: attempt to perform arithmetic on local 'x' (a nil value)").
Proof. by vm_compute. Qed.

Example syntax_message : run_text 100 "local = 2" = Some (Some SyntaxError, [VString "?:1:  expected near ="]).
Proof. by vm_compute. Qed.

(** ** Where the machine is not Lua *)

(** Two functions made from one prototype are the same when the variables that they capture
    have ended with equal values: the second counter is the first one. *)
Example counters_confused :
  returns 1000 "local function mk() local n = 0 return function() return function() n = n + 1 return n end end end local a, b = mk(), mk() local fa, fb = a(), b() local x = fa() local y = fb() return x, y, fa == fb"
    [num 1; num 2; VBool true].
Proof. by vm_compute. Qed.

(** A tail call of a function of Lua goes on with the code of the caller. *)
Example tail_call_lost :
  run_text 1000 "local function f() local r = 1 return r end local function g() return f() end local x = g() return x" =
    Some (Some (GoError "runtime error: index out of range"), [VNil]).
Proof. by vm_compute. Qed.

(** A table is not compared with a value of another type. *)
Example table_equals_nil : run_text 1000 "local t = {} return t == nil" = Some (Some (GoError "interface conversion"), [VNil]).
Proof. by vm_compute. Qed.

(** The remainder has the sign of the divisor in the compiler, and of the dividend in the
    machine. *)
Example two_remainders : returns 1000 "local x = -7 return x % 3, -7 % 3" [num (-1); num 2].
Proof. by vm_compute. Qed.

(** The compiler does not stop at the registers that an instruction can name: the 256th value
    of a list is loaded into register 0, over the table that the others are read from. *)
Example registers_wrap :
  fails_with 2000 ("local t = {a = 7} return " +:+ String.concat "," (replicate 260 "t.a"%string))
    ("[string " +:+ String dquote "?" +:+ String dquote "]:1: attempt to index local 't' (a number value)").
Proof. by vm_compute. Qed.
