(* ===== verification/LuaArith.v ===== *)
(** * Straight-line programs

    Arithmetic over numerals and local variables, and programs that bind locals one after
    the other and return a value: how they are written as lexemes, what they mean, and the
    part of the machine that runs them, a list of instructions over the registers of one
    frame. *)
From Stdlib Require Import ZArith Lia Ascii.
From stdpp Require Import base option list gmap strings.
From S2P Require Import Prelude GoNum GoFmt Strconv LuaInstr LuaTable LuaScan LuaTokens LuaProto LuaCode LuaParser LuaVM.
From Stdlib Require Import SpecFloat.

(** ** Expressions *)

Inductive arith_op := AAdd | ASub | AMul | ADiv | AMod | APow.
Definition binary_of (o : arith_op) : binary :=
  match o with AAdd => oprAdd | ASub => oprSub | AMul => oprMul | ADiv => oprDiv | AMod => oprMod | APow => oprPow end.
Definition op_char (o : arith_op) : ascii :=
  match o with AAdd => "+" | ASub => "-" | AMul => "*" | ADiv => "/" | AMod => "%" | APow => "^" end%char.

(** A numeral carries its digits and the number that they are read as. *)
Inductive aexpr :=
  | ANum (ip : bytes) (fp : option bytes) (f : float64)
  | AVar (x : bytes)
  | ANeg (e : aexpr)
  | ABin (o : arith_op) (a b : aexpr).

Section values.
Context `{GoMath}.

(** What the machine computes, and what the compiler computes from constants. *)
Definition machine_op (o : arith_op) : float64 → float64 → float64 :=
  match o with AAdd => fadd | ASub => fsub | AMul => fmul | ADiv => fdiv | AMod => math_Mod | APow => math_Pow end.
Definition folded_op (o : arith_op) (x y : float64) : float64 :=
  match arith (op_for (binary_of o)) x y with Ok v => v | _ => S754_nan end.
Definition refuses_zero (o : arith_op) : bool := match o with ADiv | AMod => true | _ => false end.

(** The value of a constant expression, but for a division by zero. *)
Fixpoint constant (e : aexpr) : option float64 :=
  match e with
  | ANum _ _ f => Some f
  | AVar _ => None
  | ANeg a => SFopp <$> constant a
  | ABin o a b =>
      match constant a, constant b with
      | Some x, Some y => if refuses_zero o && feq y fzero then None else Some (folded_op o x y)
      | _, _ => None
      end
  end.

(** The innermost variable of a name, among the first [n]. *)
Fixpoint last_index (n : nat) (names : list bytes) (x : bytes) : option nat :=
  match n with
  | O => None
  | S n => if decide (names !! n = Some x) then Some n else last_index n names x
  end.

Fixpoint aeval (names : list bytes) (vals : list float64) (e : aexpr) : option float64 :=
  match constant e with
  | Some f => Some f
  | None =>
      match e with
      | ANum _ _ f => Some f
      | AVar x => i ← last_index (length names) names x; vals !! i
      | ANeg a => SFopp <$> aeval names vals a
      | ABin o a b => x ← aeval names vals a; y ← aeval names vals b; Some (machine_op o x y)
      end
  end.

(** A program: variables with their values, and a result. *)
Record program := mkProgramText { lets : list (bytes * aexpr); answer : aexpr }.
Fixpoint eval_lets (names : list bytes) (vals : list float64) (ls : list (bytes * aexpr)) : option (list bytes * list float64) :=
  match ls with
  | [] => Some (names, vals)
  | (x, e) :: ls => v ← aeval names vals e; eval_lets (names ++ [x]) (vals ++ [v]) ls
  end.
Definition meaning (p : program) : option float64 :=
  '(names, vals) ← eval_lets [] [] (lets p); aeval names vals (answer p).

(** ** How they are written *)

(** [l]: the limit of the loop over operators that reads the expression; [r]: the priority
    to the left of the operator that follows it. *)
Definition left_priority (o : arith_op) : Z := (priority (binary_of o)).1.
Definition right_priority (o : arith_op) : Z := (priority (binary_of o)).2.
Fixpoint write_expr (l r : Z) (e : aexpr) : list lexeme :=
  match e with
  | ANum ip fp f => [LNum ip fp f]
  | AVar x => [LName x]
  | ANeg a => if r <=? unaryPriority then LChar "-" :: write_expr unaryPriority r a
              else LChar "(" :: (LChar "-" :: write_expr unaryPriority 0 a) ++ [LChar ")"]
  | ABin o a b =>
      if (l <? left_priority o) && (r <=? right_priority o) then
        write_expr l (left_priority o) a ++ LChar (op_char o) :: write_expr (right_priority o) r b
      else LChar "(" :: (write_expr 0 (left_priority o) a ++ LChar (op_char o) :: write_expr (right_priority o) 0 b) ++ [LChar ")"]
  end.

(** What reading it takes: constants, registers beyond those of the variables, and levels of
    [subExpression] below the first. *)
Fixpoint numerals (e : aexpr) : nat :=
  match e with ANum _ _ _ => 1 | AVar _ => 0 | ANeg a => numerals a | ABin _ a b => numerals a + numerals b end.
Fixpoint temporaries (e : aexpr) : Z :=
  match e with ANum _ _ _ | AVar _ => 1 | ANeg a => temporaries a | ABin _ a b => Z.max (temporaries a) (1 + temporaries b) end.
Fixpoint nesting (l r : Z) (e : aexpr) : Z :=
  match e with
  | ANum _ _ _ | AVar _ => 0
  | ANeg a => if r <=? unaryPriority then 1 + nesting unaryPriority r a else 2 + nesting unaryPriority 0 a
  | ABin o a b =>
      if (l <? left_priority o) && (r <=? right_priority o) then
        Z.max (nesting l (left_priority o) a) (1 + nesting (right_priority o) r b)
      else 1 + Z.max (nesting 0 (left_priority o) a) (1 + nesting (right_priority o) 0 b)
  end.

Definition write_lets (ls : list (bytes * aexpr)) : list lexeme :=
  flat_map (λ xe, LWord "local" :: LName xe.1 :: LChar "=" :: write_expr 0 0 xe.2) ls.
Definition write_program (p : program) : list lexeme := write_lets (lets p) ++ LWord "return" :: write_expr 0 0 (answer p).
End values.

(** ** Instructions over one frame *)

Section frames.
Context `{GoMath}.

(** What [e.k(field)] is, with the constants [K] and the registers [R]. *)
Definition rk_value (K R : list value) (o : Z) : option value :=
  if isConstant o then K !! Z.to_nat (constantIndex o) else R !! Z.to_nat o.
Definition put_reg (a : Z) (v : value) (R : list value) : option (list value) :=
  if a <? Z.of_nat (length R) then Some (<[Z.to_nat a := v]> R) else None.
Definition arith_of (o : opCode) : option (float64 → float64 → float64) :=
  match o with
  | opAdd => Some fadd | opSub => Some fsub | opMul => Some fmul | opDiv => Some fdiv | opMod => Some math_Mod
  | opPow => Some math_Pow | _ => None
  end.

(** The instructions of straight-line code on numbers; none of the others has a step. *)
Definition frame_step (K : list value) (i : Z) (R : list value) : option (list value) :=
  match op_of (opField i) with
  | Some opMove => v ← R !! Z.to_nat (getB i); put_reg (getA i) v R
  | Some opLoadConstant => v ← K !! Z.to_nat (getBx i); put_reg (getA i) v R
  | Some opUnaryMinus =>
      match R !! Z.to_nat (getB i) with Some (VNumber x) => put_reg (getA i) (VNumber (SFopp x)) R | _ => None end
  | Some o =>
      match arith_of o, rk_value K R (getB i), rk_value K R (getC i) with
      | Some f, Some (VNumber x), Some (VNumber y) => put_reg (getA i) (VNumber (f x y)) R
      | _, _, _ => None
      end
  | None => None
  end.
Fixpoint frame_run (K : list value) (ca : list Z) (R : list value) : option (list value) :=
  match ca with [] => Some R | i :: ca => frame_step K i R ≫= frame_run K ca end.

Lemma frame_run_app K ca cb R : frame_run K (ca ++ cb) R = frame_run K ca R ≫= frame_run K cb.
Proof. revert R. induction ca as [|i ca IH]; intros R; [done|]. simpl. destruct (frame_step K i R); [apply IH|done]. Qed.

Lemma rk_value_more K K' R o v : K `prefix_of` K' → rk_value K R o = Some v → rk_value K' R o = Some v.
Proof. intros HK. unfold rk_value. destruct (isConstant o); [|done]. intros Hv. by eapply prefix_lookup_Some. Qed.

Lemma frame_step_more K K' i R R' : K `prefix_of` K' → frame_step K i R = Some R' → frame_step K' i R = Some R'.
Proof.
  intros HK. unfold frame_step. destruct (op_of _) as [o|]; [|done].
  destruct o; try done; try (intros (v & Hv & Hp)%bind_Some; by rewrite (prefix_lookup_Some _ _ _ _ Hv HK)).
  all: cbn [arith_of]; destruct (rk_value K R (getB i)) as [b|] eqn:Eb; [|done]; rewrite (rk_value_more _ _ _ _ _ HK Eb);
    destruct b; try done; destruct (rk_value K R (getC i)) as [c|] eqn:Ec; [|done]; by rewrite (rk_value_more _ _ _ _ _ HK Ec).
Qed.
Lemma frame_run_more K K' ca R R' : K `prefix_of` K' → frame_run K ca R = Some R' → frame_run K' ca R = Some R'.
Proof.
  intros HK. revert R. induction ca as [|i ca IH]; intros R; [done|]. simpl. intros (R1 & H1 & H2)%bind_Some.
  rewrite (frame_step_more _ _ _ _ _ HK H1). by apply IH.
Qed.

(** ** Code that computes with the locals *)

Section runs.
Context (vals : list float64).

Definition env_ok (R : list value) : Prop := ∀ j f, vals !! j = Some f → R !! j = Some (VNumber f).

(** From any frame of [m] registers that holds the locals, the code runs to its end, keeps
    the registers below [k], and makes [Q] true. *)
Definition runs (K : list value) (m k : Z) (D : list Z) (Q : list value → Prop) : Prop :=
  ∀ R, env_ok R → m ≤ Z.of_nat (length R) →
    ∃ R', frame_run K D R = Some R' ∧ length R' = length R ∧ (∀ j, Z.of_nat j < k → R' !! j = R !! j) ∧ Q R'.

Lemma env_ok_kept k R R' : Z.of_nat (length vals) ≤ k → env_ok R → (∀ j, Z.of_nat j < k → R' !! j = R !! j) → env_ok R'.
Proof. intros Hk HR Hj j f Hf. rewrite Hj; [by apply HR|]. apply lookup_lt_Some in Hf. lia. Qed.

Lemma runs_nil K m k Q : (∀ R, env_ok R → m ≤ Z.of_nat (length R) → Q R) → runs K m k [] Q.
Proof. intros HQ R HR Hm. exists R. by split_and!; [| | |apply HQ]. Qed.

Lemma runs_more K K' m m' k k' D (Q Q' : list value → Prop) : K `prefix_of` K' → m ≤ m' → k' ≤ k → (∀ R, Q R → Q' R) →
  runs K m k D Q → runs K' m' k' D Q'.
Proof.
  intros HK Hm Hk HQ HD R HR HmR. destruct (HD R HR ltac:(lia)) as (R' & H1 & H2 & H3 & H4). exists R'.
  split_and!; [by eapply frame_run_more|done|intros j Hj; apply H3; lia|by apply HQ].
Qed.

(** One code after the other; the second keeps the registers that the first needs. *)
Lemma runs_app K m k k' D D' (Q Q' : list value → Prop) : Z.of_nat (length vals) ≤ k → k ≤ k' → runs K m k D Q → runs K m k' D' Q' →
  runs K m k (D ++ D') (λ R, Q' R ∧ ∃ R1, Q R1 ∧ ∀ j, Z.of_nat j < k' → R !! j = R1 !! j).
Proof.
  intros Hk Hk' HD HD' R HR Hm. destruct (HD R HR Hm) as (R1 & H1 & H2 & H3 & H4).
  destruct (HD' R1) as (R2 & J1 & J2 & J3 & J4); [by eapply env_ok_kept|lia|]. exists R2.
  rewrite frame_run_app, H1. split_and!; [done|lia|intros j Hj; rewrite J3 by lia; by apply H3|done|by exists R1].
Qed.

(** An instruction at the end. *)
Lemma runs_snoc K m k D i (Q Q' : list value → Prop) : runs K m k D Q →
  (∀ R, Q R → m ≤ Z.of_nat (length R) → env_ok R →
    ∃ R', frame_step K i R = Some R' ∧ length R' = length R ∧ (∀ j, Z.of_nat j < k → R' !! j = R !! j) ∧ Q' R') →
  Z.of_nat (length vals) ≤ k → runs K m k (D ++ [i]) Q'.
Proof.
  intros HD Hi Hk R HR Hm. destruct (HD R HR Hm) as (R1 & H1 & H2 & H3 & H4).
  destruct (Hi R1 H4 ltac:(lia)) as (R2 & J1 & J2 & J3 & J4); [by eapply env_ok_kept|]. exists R2.
  rewrite frame_run_app, H1. simpl. rewrite J1. split_and!; [done|lia|intros j Hj; rewrite J3 by lia; by apply H3|done].
Qed.
End runs.
End frames.
