(* ===== verification/LuaGen.v ===== *)
(** * The code of arithmetic

    What the methods of a function do to code without jumps, and that the code of an
    arithmetic expression computes its value over the registers of its frame. *)
From Stdlib Require Import ZArith Lia Ascii.
From stdpp Require Import base option list gmap strings.
From S2P Require Import Prelude GoNum GoFmt Strconv LuaInstr LuaTable LuaScan LuaTokens LuaProto LuaCode LuaParser LuaVM LuaArith.
From Stdlib Require Import SpecFloat.

(** ** Running compiling actions *)

Lemma pbind {A B} (m : parsing A) (f : A → parsing B) p a p' : m p = Ok (a, p') → (m ≫= f) p = f a p'.
Proof. intros H. unfold mbind, parsing_bind. by rewrite H. Qed.
Lemma pbind_getp {A B} (g : parser → A) (f : A → parsing B) p : (getp g ≫= f) p = f (g p) p.
Proof. done. Qed.
Lemma pbind_getf {A B} (g : function → A) (f : A → parsing B) p : (getf g ≫= f) p = f (g (fn p)) p.
Proof. done. Qed.
Lemma pbind_modifyf {B} g (f : unit → parsing B) p : (modifyf g ≫= f) p = f () (set_fn (g (fn p)) p).
Proof. done. Qed.
Lemma pbind_ret {A B} (a : A) (f : A → parsing B) p : (mret a ≫= f) p = f a p.
Proof. done. Qed.
Lemma pbind_outcome {A B} (o : outcome A) a (f : A → parsing B) p : o = Ok a → (run_outcome o ≫= f) p = f a p.
Proof. by intros ->. Qed.

Lemma set_scn_same p : set_scn (scn p) p = p.
Proof. by destruct p. Qed.
Lemma set_fn_same p : set_fn (fn p) p = p.
Proof. by destruct p. Qed.
Lemma set_free_same f : set_free (freeRegisterCount f) f = f.
Proof. by destruct f. Qed.

Lemma assertp_ok c p : c = true → assertp c p = Ok ((), p).
Proof. intros ->. change (Ok ((), set_scn (scn p) p) = Ok ((), p)). by rewrite set_scn_same. Qed.
Lemma pbind_assertp {B} c (f : unit → parsing B) p : c = true → (assertp c ≫= f) p = f () p.
Proof. intros Hc. apply pbind. by apply assertp_ok. Qed.

(** ** Functions without pending jumps *)

Definition constants (f : function) : list value := p_constants (proto f).
Definition max_stack (f : function) : Z := p_maxStackSize (proto f).
Definition key_value (k : const_key) : value := match k with KValue v => v | KBits f => VNumber f | KNil => VNil end.

Record fn_ok (f : function) : Prop := {
  ok_lines : length (f_code f) = length (p_lineInfo (proto f));
  ok_jump : jumpPC f = noJump;
  ok_consts : ∀ k i, constantLookup f !! k = Some i → 0 ≤ i ∧ constants f !! Z.to_nat i = Some (key_value k);
  ok_regs : 0 ≤ activeVariableCount f ∧ activeVariableCount f ≤ freeRegisterCount f ∧ freeRegisterCount f ≤ max_stack f;
  ok_max : max_stack f ≤ 256
}.

(** What compiling an expression leaves alone. *)
Definition others (f : function) :=
  (blocks f, jumpPC f, activeVariableCount f, firstLocal f, p_prototypes (proto f), p_localVariables (proto f), p_upValues (proto f),
   p_parameterCount (proto f), p_isVarArg (proto f)).

(** [f'] is [f] with the code [C], [n] registers in use and at most [c] more constants. *)
Record becomes (f f' : function) (C : list Z) (n : Z) (c : nat) : Prop := {
  bc_ok : fn_ok f';
  bc_code : f_code f' = C;
  bc_free : freeRegisterCount f' = n;
  bc_consts : constants f `prefix_of` constants f';
  bc_count : (length (constants f') ≤ length (constants f) + c)%nat;
  bc_max : max_stack f ≤ max_stack f';
  bc_others : others f' = others f
}.

Lemma becomes_refl f : fn_ok f → becomes f f (f_code f) (freeRegisterCount f) 0.
Proof. intros Hf. by split; try done; lia. Qed.
Lemma becomes_trans f f' f'' C C' n n' c c' : becomes f f' C n c → becomes f' f'' C' n' c' → becomes f f'' C' n' (c + c').
Proof.
  intros [A1 A2 A3 A4 A5 A6 A7] [B1 B2 B3 B4 B5 B6 B7]. split; try done; [by etrans|lia|lia|congruence].
Qed.
Lemma becomes_le f f' C n c c' : becomes f f' C n c → (c ≤ c')%nat → becomes f f' C n c'.
Proof. intros [A1 A2 A3 A4 A5 A6 A7] H. split; try done; lia. Qed.
Lemma becomes_same f f' C n : fn_ok f' → f_code f' = C → freeRegisterCount f' = n → constants f' = constants f → max_stack f' = max_stack f →
  others f' = others f → becomes f f' C n 0.
Proof. intros H1 H2 H3 H4 H5 H6. split; try done; [by rewrite H4|rewrite H4; lia|lia]. Qed.
Lemma becomes_active f f' C n c : becomes f f' C n c → activeVariableCount f' = activeVariableCount f.
Proof. intros H. pose proof (bc_others _ _ _ _ _ H) as E. unfold others in E. congruence. Qed.

Lemma walk_none p : assert_walkable noJump p = Ok ((), p).
Proof. unfold assert_walkable, isJumpListWalkable, walk_fuel. cbn. by apply assertp_ok. Qed.

Lemma patch_none n d t r p : patch_list (S n) noJump d t r p = Ok ((), p).
Proof. done. Qed.
Lemma discharge_none p : fn_ok (fn p) → dischargeJumpPC p = Ok ((), p).
Proof.
  intros Hf. unfold dischargeJumpPC. rewrite pbind_getf, (ok_jump _ Hf). erewrite pbind by apply walk_none.
  unfold clen. rewrite pbind_getf. unfold patchListHelper. erewrite pbind.
  2: { erewrite pbind by apply walk_none. unfold walk_fuel. erewrite pbind; [|done]. apply patch_none. }
  pose proof (ok_jump _ Hf) as Hj. unfold modifyf. do 2 f_equal. destruct p as [s f o a g l n]. simpl in *.
  unfold set_fn. simpl. f_equal. destruct f. simpl in *. by subst.
Qed.

Lemma encode_ok i p : fn_ok (fn p) →
  ∃ f', encode_instr i p = Ok (code_len (fn p), set_fn f' p) ∧
    becomes (fn p) f' (f_code (fn p) ++ [i]) (freeRegisterCount (fn p)) 0.
Proof.
  intros Hf. unfold encode_instr. rewrite pbind_getf. rewrite pbind_assertp by (apply Nat.eqb_eq, (ok_lines _ Hf)).
  erewrite pbind by by apply discharge_none. rewrite pbind_getp, pbind_modifyf. unfold clen. rewrite pbind_getf.
  eexists. split.
  { unfold mret, parsing_ret. f_equal. f_equal. unfold code_len. cbn [fn set_fn]. unfold set_code, set_proto, f_code. simpl.
    rewrite length_app. simpl. lia. }
  destruct Hf as [H1 H2 H3 H4 H5]. apply becomes_same; try done.
  split; try done. unfold f_code in *. simpl. rewrite !length_app, H1. done.
Qed.

Lemma fits_leb n x : fits n x → (0 <=? x) && (x <=? 2 ^ n - 1) = true.
Proof. unfold fits. intros H. apply andb_true_intro. split; apply Z.leb_le; lia. Qed.

Lemma encodeABC_ok o a b c p : fn_ok (fn p) → opMode o = mode_num iABC → (bMode o ≠ arg_num opArgN ∨ b = 0) → (cMode o ≠ arg_num opArgN ∨ c = 0) →
  fits sizeA a → fits sizeB b → fits sizeC c →
  ∃ f', EncodeABC o a b c p = Ok (code_len (fn p), set_fn f' p) ∧
    becomes (fn p) f' (f_code (fn p) ++ [createABC o a b c]) (freeRegisterCount (fn p)) 0.
Proof.
  intros Hf Hm Hb Hc Ha Hb' Hc'. unfold EncodeABC. rewrite pbind_assertp by by apply Z.eqb_eq.
  rewrite pbind_assertp by (destruct (Z.eqb_spec (bMode o) (arg_num opArgN)), (Z.eqb_spec b 0); simpl; intuition).
  rewrite pbind_assertp by (destruct (Z.eqb_spec (cMode o) (arg_num opArgN)), (Z.eqb_spec c 0); simpl; intuition).
  rewrite pbind_assertp; [by apply encode_ok|]. apply fits_leb in Ha, Hb', Hc'.
  apply andb_prop in Ha as [_ Ha], Hb' as [_ Hb'], Hc' as [_ Hc']. rewrite !andb_true_iff. done.
Qed.

Lemma encodeConstant_ok r k p : fn_ok (fn p) → fits sizeA r → fits sizeBx k →
  ∃ f', EncodeConstant r k p = Ok (code_len (fn p), set_fn f' p) ∧
    becomes (fn p) f' (f_code (fn p) ++ [createABx opLoadConstant r k]) (freeRegisterCount (fn p)) 0.
Proof.
  intros Hf Hr Hk. apply fits_leb in Hr, Hk. apply andb_prop in Hr as [_ Hr], Hk as [_ Hk].
  unfold EncodeConstant. assert (k <=? maxArgBx = true) as -> by exact Hk. unfold encodeABx.
  rewrite pbind_assertp by done. rewrite pbind_assertp by done. rewrite pbind_assertp; [by apply encode_ok|].
  rewrite !andb_true_iff. done.
Qed.

Lemma change_last_ok g p C i pc : fn_ok (fn p) → f_code (fn p) = C ++ [i] → pc = Z.of_nat (length C) →
  ∃ f', change_at pc g p = Ok ((), set_fn f' p) ∧ becomes (fn p) f' (C ++ [g i]) (freeRegisterCount (fn p)) 0.
Proof.
  intros Hf Hc ->. unfold change_at. rewrite pbind_getf, Hc.
  erewrite pbind_outcome by (unfold slice_at; assert ((Z.of_nat (length C) <? 0) = false) as -> by (apply Z.ltb_ge; lia);
    rewrite Nat2Z.id, lookup_app_r, Nat.sub_diag by lia; reflexivity).
  erewrite pbind_outcome by (unfold slice_put; assert ((Z.of_nat (length C) <? 0) || (Z.of_nat (length (C ++ [i])) <=? Z.of_nat (length C)) = false) as -> by
    (rewrite length_app; apply orb_false_intro; [apply Z.ltb_ge|apply Z.leb_gt]; simpl; lia); rewrite Nat2Z.id, insert_app_r_alt, Nat.sub_diag by lia; reflexivity).
  eexists. split; [reflexivity|]. destruct Hf as [H1 H2 H3 H4 H5]. apply becomes_same; try done. split; try done.
  unfold f_code in *. simpl. by rewrite <- H1, Hc, !length_app.
Qed.

(** ** Constants and registers *)

Lemma addConstant_ok k v p : fn_ok (fn p) → key_value k = v → (k = KNil → False) →
  ∃ i f', addConstant k v p = Ok (i, set_fn f' p) ∧ becomes (fn p) f' (f_code (fn p)) (freeRegisterCount (fn p)) 1 ∧
    0 ≤ i < Z.of_nat (length (constants f')) ∧ constants f' !! Z.to_nat i = Some v.
Proof.
  intros Hf Hk _. unfold addConstant. rewrite pbind_getf. cbn [id].
  assert (∀ cs, cs = constants (fn p) → let index := Z.of_nat (length cs) in
    let f' := set_constants (cs ++ [v]) (<[k := index]> (constantLookup (fn p))) (fn p) in
    becomes (fn p) f' (f_code (fn p)) (freeRegisterCount (fn p)) 1 ∧ 0 ≤ index < Z.of_nat (length (constants f')) ∧
    constants f' !! Z.to_nat index = Some v) as Hadd.
  { intros cs Hcs index f'. assert (constants f' = constants (fn p) ++ [v]) as E by (by rewrite <- Hcs).
    rewrite E. split_and!; [|unfold index; lia|rewrite length_app; simpl; unfold index; subst cs; lia|].
    2: { unfold index. rewrite Nat2Z.id, Hcs, lookup_app_r, Nat.sub_diag by lia. done. }
    destruct Hf as [H1 H2 H3 H4 H5]. split; try done; [|by rewrite E; apply prefix_app_r|rewrite E, length_app; simpl; lia].
    split; try done. intros k' i. rewrite E. unfold f'. simpl. destruct (decide (k' = k)) as [->|Hne].
    - rewrite lookup_insert_eq. intros [= <-]. split; [lia|]. unfold index. rewrite Nat2Z.id, Hcs, lookup_app_r, Nat.sub_diag by lia.
      simpl. by rewrite Hk.
    - rewrite lookup_insert_ne by done. intros Hi. destruct (H3 k' i Hi) as [? Hl]. split; [done|]. by apply lookup_app_l_Some. }
  destruct (constantLookup (fn p) !! k) as [i|] eqn:Ei.
  - destruct (ok_consts _ Hf _ _ Ei) as [Hi Hl]. rewrite Hk in Hl. cbv zeta.
    erewrite pbind by (unfold run_outcome, slice_at; assert ((i <? 0) = false) as -> by lia; fold (constants (fn p)); by rewrite Hl).
    destruct (go_eq v v).
    + exists i, (fn p). split_and!; [by rewrite set_fn_same|eapply becomes_le; [by apply becomes_refl|lia]|done|apply lookup_lt_Some in Hl; lia|done].
    + destruct (Hadd _ eq_refl) as (Hb & Hr & Hv). eexists _, _. split; [reflexivity|]. done.
  - destruct (Hadd _ eq_refl) as (Hb & Hr & Hv). eexists _, _. split; [reflexivity|]. done.
Qed.

Lemma numberConstant_ok x p : fn_ok (fn p) →
  ∃ i f', NumberConstant x p = Ok (i, set_fn f' p) ∧ becomes (fn p) f' (f_code (fn p)) (freeRegisterCount (fn p)) 1 ∧
    0 ≤ i < Z.of_nat (length (constants f')) ∧ constants f' !! Z.to_nat i = Some (VNumber x).
Proof. intros Hf. unfold NumberConstant. destruct (_ || _); by apply addConstant_ok. Qed.

Lemma reserve_ok n p : fn_ok (fn p) → 0 ≤ n → freeRegisterCount (fn p) + n ≤ 256 →
  ∃ f', ReserveRegisters n p = Ok ((), set_fn f' p) ∧ becomes (fn p) f' (f_code (fn p)) (freeRegisterCount (fn p) + n) 0.
Proof.
  intros Hf Hn Hmax. unfold ReserveRegisters, CheckStack. erewrite pbind.
  2: { rewrite pbind_getf. assert ((maxStack <=? n + freeRegisterCount (fn p)) = false) as -> by (apply Z.leb_gt; unfold maxStack; lia).
       reflexivity. }
  eexists. split; [reflexivity|]. cbn [fn set_fn]. destruct Hf as [H1 H2 H3 H4 H5]. unfold max_stack in *.
  destruct (Z.ltb_spec (p_maxStackSize (proto (fn p))) (n + freeRegisterCount (fn p))).
  - split; try done; [|unfold constants; simpl; lia|unfold max_stack; simpl; lia]. split; try done; unfold max_stack; simpl; lia.
  - apply becomes_same; try done. split; try done; unfold max_stack; simpl; lia.
Qed.

Lemma freeRegister_kept r p : isConstant r = true ∨ r < activeVariableCount (fn p) → freeRegister r p = Ok ((), p).
Proof.
  intros H. unfold freeRegister. rewrite pbind_getf. destruct H as [->|H]; [done|].
  assert ((activeVariableCount (fn p) <=? r) = false) as -> by lia. by rewrite andb_false_r.
Qed.

Lemma freeRegister_ok r p : fn_ok (fn p) → isConstant r = false → activeVariableCount (fn p) ≤ r → r + 1 = freeRegisterCount (fn p) →
  ∃ f', freeRegister r p = Ok ((), set_fn f' p) ∧ becomes (fn p) f' (f_code (fn p)) r 0.
Proof.
  intros Hf Hc Ha Hr. unfold freeRegister. rewrite pbind_getf, Hc. assert ((activeVariableCount (fn p) <=? r) = true) as -> by lia.
  cbn [negb andb]. rewrite pbind_modifyf, pbind_getf. cbn [fn set_fn freeRegisterCount set_free].
  assert ((r =? freeRegisterCount (fn p) - 1) = true) as -> by lia. eexists. split; [reflexivity|].
  destruct Hf as [H1 H2 H3 H4 H5]. apply becomes_same; try done; [|simpl; lia]. split; try done. simpl. unfold max_stack in *. simpl. lia.
Qed.

Lemma fixLine_ok ln p : fn_ok (fn p) → f_code (fn p) ≠ [] →
  ∃ f', FixLine ln p = Ok ((), set_fn f' p) ∧ becomes (fn p) f' (f_code (fn p)) (freeRegisterCount (fn p)) 0.
Proof.
  intros Hf Hc. unfold FixLine. rewrite pbind_getf. pose proof (ok_lines _ Hf) as Hl. unfold f_code in *.
  assert (0 < length (p_code (proto (fn p))))%nat by (destruct (p_code _); [done|simpl; lia]).
  erewrite pbind_outcome by (unfold slice_put; assert ((_ <? 0) || (_ <=? _) = false) as -> by (apply orb_false_intro; [apply Z.ltb_ge|apply Z.leb_gt]; lia); reflexivity).
  eexists. split; [reflexivity|]. destruct Hf as [H1 H2 H3 H4 H5]. apply becomes_same; try done.
  split; try done. simpl. unfold f_code. simpl. by rewrite length_insert.
Qed.

Lemma constant_above x : fits 8 x → 256 ≤ asConstant x.
Proof.
  intros Hx. destruct (constant_index _ Hx) as (H1 & _ & _ & Hc). destruct (Z.lt_ge_cases (asConstant x) 256) as [Hlt|]; [|done].
  destruct (constant_index (asConstant x)) as (_ & _ & H2 & _); [unfold fits in *; lia|congruence].
Qed.
Ltac fit := unfold fits, sizeBx, sizeA, sizeB, sizeC in *; lia.

(** ** What the description of an expression stands for *)

Definition nojumps (e : exprDesc) : Prop := e_t e = noJump ∧ e_f e = noJump.

Lemma nojumps_has e : nojumps e → hasJumps e = false.
Proof. intros [H1 H2]. unfold hasJumps. by rewrite H1, H2, Z.eqb_refl. Qed.

(** A numeral is not a constant yet; it takes one when it becomes an operand. *)
Definition is_number (e : exprDesc) : bool := is_kind kindNumber e.
Definition cost (e : exprDesc) : nat := if is_number e then 1 else 0.
Lemma cost_number e : e_kind e = kindNumber → cost e = 1%nat.
Proof. intros Hk. unfold cost, is_number, is_kind. by rewrite bool_decide_eq_true_2. Qed.
Lemma cost_other e : e_kind e ≠ kindNumber → cost e = 0%nat.
Proof. intros Hk. unfold cost, is_number, is_kind. by rewrite bool_decide_eq_false_2. Qed.

Section expressions.
Context `{GoMath} (vals : list float64).
Notation na := (Z.of_nat (length vals)).

Definition holds (k : Z) (x : float64) (R : list value) : Prop := R !! Z.to_nat k = Some (VNumber x).

(** The operand [o] of an instruction, after the code [D], which began when [k] registers
    were in use and leaves [n]. *)
Inductive operand (K : list value) (m k : Z) (x : float64) : exprDesc → Z → Z → list Z → Prop :=
  | opd_const e : e_kind e = kindConstant → nojumps e → fits 8 (e_info e) → K !! Z.to_nat (e_info e) = Some (VNumber x) →
      operand K m k x e (asConstant (e_info e)) k []
  | opd_local e : e_kind e = kindNonRelocatable → nojumps e → 0 ≤ e_info e → vals !! Z.to_nat (e_info e) = Some x →
      operand K m k x e (e_info e) k []
  | opd_temp e D : e_kind e = kindNonRelocatable → nojumps e → e_info e = k → k < m → runs vals K m k D (holds k x) →
      operand K m k x e k (k + 1) D.

(** The code begins after [C]. *)
Inductive denotes (C : list Z) (K : list value) (m k : Z) (x : float64) : exprDesc → Z → list Z → Prop :=
  | den_number e : e_kind e = kindNumber → nojumps e → e_value e = x → denotes C K m k x e k []
  | den_operand e o n D : operand K m k x e o n D → denotes C K m k x e n D
  | den_local e : e_kind e = kindLocal → nojumps e → 0 ≤ e_info e → vals !! Z.to_nat (e_info e) = Some x → denotes C K m k x e k []
  | den_reloc e D i : e_kind e = kindRelocatable → nojumps e → e_info e = Z.of_nat (length (C ++ D)) → fits 32 i →
      (∀ m', m ≤ m' → k < m' → runs vals K m' k (D ++ [setA i k]) (holds k x)) → denotes C K m k x e k (D ++ [i]).

Lemma operand_more K K' m m' k x e o n D : K `prefix_of` K' → m ≤ m' → operand K m k x e o n D → operand K' m' k x e o n D.
Proof.
  intros HK Hm []; constructor; try done; [by eapply prefix_lookup_Some|lia|]. eapply runs_more; [..|done]; by try done.
Qed.
Lemma denotes_more C K K' m m' k x e n D : K `prefix_of` K' → m ≤ m' → denotes C K m k x e n D → denotes C K' m' k x e n D.
Proof.
  intros HK Hm [].
  - by apply den_number.
  - eapply den_operand. by eapply operand_more.
  - by apply den_local.
  - apply den_reloc; try done. intros m2 Hm2 Hk. eapply (runs_more _ K K' m2); try done. auto with lia.
Qed.

Lemma operand_kind K m k x e o n D : operand K m k x e o n D → (e_kind e = kindConstant ∨ e_kind e = kindNonRelocatable) ∧ nojumps e.
Proof. intros []; auto. Qed.
Lemma operand_free K m k x e o n D : operand K m k x e o n D → n = k ∨ n = k + 1 ∧ o = k.
Proof. intros []; auto. Qed.
Lemma denotes_nojumps C K m k x e n D : denotes C K m k x e n D → nojumps e.
Proof. intros [|? ? ? ? Ho| |]; try done. by apply operand_kind in Ho as [_ ?]. Qed.

(** The code leaves the operand to be read, as long as the registers in use are kept. *)
Lemma operand_runs K m k x e o n D : na ≤ k → k < 255 → operand K m k x e o n D →
  runs vals K m k D (λ R, ∀ R', (∀ j, Z.of_nat j < n → R' !! j = R !! j) → rk_value K R' o = Some (VNumber x)).
Proof.
  intros Hk Hk' [e' Hkind Hj Hi HK|e' Hkind Hj Hi Hv|e' D' Hkind Hj Hi Hm HD].
  - apply runs_nil. intros R HR _ R' _. destruct (constant_index _ Hi) as (H1 & H2 & _). unfold rk_value. by rewrite H1, H2.
  - apply runs_nil. intros R HR _ R' HR'. pose proof (lookup_lt_Some _ _ _ Hv). unfold rk_value.
    destruct (constant_index (e_info e')) as (_ & _ & -> & _); [fit|]. rewrite HR' by lia. by apply HR.
  - eapply runs_more; [done|done|done| |done]. intros R HR R' HR'. unfold rk_value.
    destruct (constant_index k) as (_ & _ & -> & _); [fit|]. rewrite HR' by lia. done.
Qed.

(** ** Expressions into registers *)

Record at_code (f : function) (C : list Z) (n : Z) : Prop := {
  ac_ok : fn_ok f;
  ac_code : f_code f = C;
  ac_free : freeRegisterCount f = n;
  ac_active : activeVariableCount f = na
}.

Lemma at_becomes f f' C C' n n' c : at_code f C n → becomes f f' C' n' c → at_code f' C' n'.
Proof. intros [H1 H2 H3 H4] Hb. pose proof (becomes_active _ _ _ _ _ Hb). destruct Hb. split; try done. congruence. Qed.

Lemma discharge_variables C K m k x e n D p : denotes C K m k x e n D →
  ∃ e', DischargeVariables e p = Ok (e', p) ∧ denotes C K m k x e' n D ∧ e_kind e' ≠ kindLocal ∧ is_number e' = is_number e ∧ (e_kind e ≠ kindLocal → e' = e).
Proof.
  intros Hd. destruct (decide (e_kind e = kindLocal)) as [Hl|Hl].
  - exists (e_set kindNonRelocatable (e_info e) e). unfold DischargeVariables. rewrite Hl. split_and!; [done| |done|unfold is_number, is_kind; by rewrite Hl|done].
    destruct Hd as [e Hk|e o n D Ho|e Hk Hj Hi Hv|e D i Hk]; try congruence.
    + apply operand_kind in Ho as [[?|?] _]; congruence.
    + eapply den_operand. by apply (opd_local K m k x (e_set kindNonRelocatable (e_info e) e)).
  - exists e. split_and!; try done. unfold DischargeVariables.
    destruct Hd as [e Hk|e o n D Ho|e Hk Hj Hi Hv|e D i Hk]; try by rewrite Hk.
    apply operand_kind in Ho as [[->| ->] _]; done.
Qed.

Lemma load_runs K m k i x : na ≤ k → k < 255 → k < m → fits sizeBx i → K !! Z.to_nat i = Some (VNumber x) →
  runs vals K m k [createABx opLoadConstant k i] (holds k x).
Proof.
  intros Hk Hk' Hm Hi HK. apply (runs_snoc vals K m k [] _ (λ _, True)); [by apply runs_nil| |done].
  intros R _ HR _. destruct (createABx_fields opLoadConstant k i) as (E1 & E2 & E3); [fit|done|].
  exists (<[Z.to_nat k := VNumber x]> R). unfold frame_step. rewrite E1, E2, E3, HK. cbn [mbind option_bind]. unfold put_reg.
  assert ((k <? Z.of_nat (length R)) = true) as -> by (apply Z.ltb_lt; lia). split_and!; [done|by rewrite length_insert| |].
  - intros j Hj. rewrite list_lookup_insert_ne by lia. done.
  - unfold holds. apply list_lookup_insert_eq. lia.
Qed.
Lemma move_runs K m k r x : na ≤ k → k < 255 → k < m → 0 ≤ r → vals !! Z.to_nat r = Some x →
  runs vals K m k [createABC opMove k r 0] (holds k x).
Proof.
  intros Hk Hk' Hm Hr Hv. pose proof (lookup_lt_Some _ _ _ Hv).
  apply (runs_snoc vals K m k [] _ (λ _, True)); [by apply runs_nil| |done].
  intros R _ HR HE. destruct (createABC_fields opMove k r 0) as (E1 & E2 & E3 & _); [fit..|].
  exists (<[Z.to_nat k := VNumber x]> R). unfold frame_step. rewrite E1, E2, E3, (HE _ _ Hv). cbn [mbind option_bind]. unfold put_reg.
  assert ((k <? Z.of_nat (length R)) = true) as -> by (apply Z.ltb_lt; lia). split_and!; [done|by rewrite length_insert| |].
  - intros j Hj. rewrite list_lookup_insert_ne by lia. done.
  - unfold holds. apply list_lookup_insert_eq. lia.
Qed.

(** [dischargeToRegister] into the last register in use. *)
Lemma discharge_ok C k x e n D p : denotes C (constants (fn p)) (max_stack (fn p)) k x e n D → e_kind e ≠ kindLocal →
  at_code (fn p) (C ++ D) (k + 1) → na ≤ k → k < 255 → (length (constants (fn p)) + cost e ≤ 256)%nat →
  ∃ f' D', dischargeToRegister e k p = Ok (e_set kindNonRelocatable k e, set_fn f' p) ∧
    becomes (fn p) f' (C ++ D') (k + 1) (cost e) ∧ runs vals (constants f') (max_stack f') k D' (holds k x).
Proof.
  intros Hd Hl Hat Hk Hk' Hn. destruct (discharge_variables _ _ _ _ _ _ _ _ p Hd) as (e0 & He & _ & _ & _ & Heq).
  rewrite Heq in He by done. unfold dischargeToRegister. erewrite pbind by exact He. cbv zeta. clear He Heq e0.
  pose proof (ok_regs _ (ac_ok _ _ _ Hat)) as (_ & _ & Hm). rewrite (ac_free _ _ _ Hat) in Hm.
  destruct Hd as [e Hkind Hj Hv|e o n D Ho|e Hkind Hj Hi Hv|e D i Hkind Hj Hi Hfit HD].
  - rewrite cost_number in * by done. rewrite Hkind.
    destruct (numberConstant_ok (e_value e) p (ac_ok _ _ _ Hat)) as (i & f1 & E1 & B1 & Hi & HK).
    erewrite pbind by exact E1. pose proof (bc_count _ _ _ _ _ B1) as Hc.
    destruct (encodeConstant_ok k i (set_fn f1 p) (bc_ok _ _ _ _ _ B1)) as (f2 & E2 & B2); [fit|fit|].
    erewrite pbind by exact E2. exists f2, [createABx opLoadConstant k i]. split; [done|]. split.
    + eapply becomes_le; [|reflexivity]. pose proof (becomes_trans _ _ _ _ _ _ _ _ _ B1 B2) as B.
      cbn [fn set_fn] in B. rewrite (bc_code _ _ _ _ _ B1), (bc_free _ _ _ _ _ B1), (ac_code _ _ _ Hat), (ac_free _ _ _ Hat), app_nil_r in B. done.
    + pose proof (bc_max _ _ _ _ _ B1). pose proof (bc_max _ _ _ _ _ B2). cbn [fn set_fn] in *.
      apply load_runs; [done|done|lia|fit|]. rewrite <- Hv. eapply prefix_lookup_Some; [exact HK|exact (bc_consts _ _ _ _ _ B2)].
  - destruct Ho as [e Hkind Hj Hfit HK|e Hkind Hj Hi Hv|e D Hkind Hj Hi Hkm HD]; rewrite Hkind.
    + destruct (encodeConstant_ok k (e_info e) p (ac_ok _ _ _ Hat)) as (f2 & E2 & B2); [fit|fit|].
      erewrite pbind by exact E2. rewrite (ac_code _ _ _ Hat), (ac_free _ _ _ Hat), app_nil_r in B2.
      exists f2, [createABx opLoadConstant k (e_info e)]. split; [done|]. split; [eapply becomes_le; [done|apply Nat.le_0_l]|].
      pose proof (bc_max _ _ _ _ _ B2). apply load_runs; [done|done|lia|fit|].
      eapply prefix_lookup_Some; [exact HK|exact (bc_consts _ _ _ _ _ B2)].
    + pose proof (lookup_lt_Some _ _ _ Hv). assert ((k =? e_info e) = false) as -> by lia. cbn [negb].
      destruct (encodeABC_ok opMove k (e_info e) 0 p (ac_ok _ _ _ Hat)) as (f2 & E2 & B2); [done|by left|by right|fit..|].
      erewrite pbind by (erewrite pbind by exact E2; reflexivity). rewrite (ac_code _ _ _ Hat), (ac_free _ _ _ Hat), app_nil_r in B2.
      exists f2, [createABC opMove k (e_info e) 0]. split; [done|]. split; [eapply becomes_le; [done|apply Nat.le_0_l]|].
      pose proof (bc_max _ _ _ _ _ B2). apply move_runs; [done|done|lia|done|done].
    + rewrite Hi, Z.eqb_refl. exists (fn p), D. rewrite set_fn_same. split; [done|]. split; [|done].
      eapply becomes_le; [|by apply Nat.le_0_l]. rewrite <- (ac_code _ _ _ Hat), <- (ac_free _ _ _ Hat). apply becomes_refl, Hat.
  - done.
  - rewrite Hkind. destruct (change_last_ok (λ i, setA i k) p (C ++ D) i (e_info e) (ac_ok _ _ _ Hat)) as (f' & E & B);
      [by rewrite (ac_code _ _ _ Hat), app_assoc|done|]. rewrite (ac_free _ _ _ Hat), <- app_assoc in B.
    erewrite pbind by exact E. exists f', (D ++ [setA i k]). split; [done|]. split; [eapply becomes_le; [done|apply Nat.le_0_l]|].
    pose proof (bc_max _ _ _ _ _ B). eapply runs_more; [exact (bc_consts _ _ _ _ _ B)|reflexivity|reflexivity|done|]. apply HD; lia.
Qed.

Lemma to_register C k x e n D p : denotes C (constants (fn p)) (max_stack (fn p)) k x e n D → e_kind e ≠ kindLocal →
  at_code (fn p) (C ++ D) (k + 1) → na ≤ k → k < 255 → (length (constants (fn p)) + cost e ≤ 256)%nat →
  ∃ f' e' D', expressionToRegister e k p = Ok (e', set_fn f' p) ∧ becomes (fn p) f' (C ++ D') (k + 1) (cost e) ∧
    operand (constants f') (max_stack f') k x e' k (k + 1) D'.
Proof.
  intros Hd Hl Hat Hk Hk' Hn. destruct (discharge_ok _ _ _ _ _ _ _ Hd Hl Hat Hk Hk' Hn) as (f' & D' & E & B & HD).
  exists f'. eexists. exists D'. split_and!; [|done|].
  - unfold expressionToRegister. erewrite pbind by exact E. change (is_kind kindJump (e_set kindNonRelocatable k e)) with false. cbn iota. rewrite pbind_ret.
    assert (hasJumps (e_set kindNonRelocatable k e) = false) as ->.
    { by apply nojumps_has, (denotes_nojumps _ _ _ _ _ _ _ _ Hd). }
    rewrite pbind_ret. reflexivity.
  - pose proof (ok_regs _ (bc_ok _ _ _ _ _ B)) as (_ & _ & Hm). rewrite (bc_free _ _ _ _ _ B) in Hm.
    apply opd_temp; [done|done|done|lia|done].
Qed.

(** A register in use is given up. *)
Lemma free_operand Ca k x e o n D p : at_code (fn p) Ca n → na ≤ k → k < 255 → operand (constants (fn p)) (max_stack (fn p)) k x e o n D →
  ∃ f', freeExpression e p = Ok ((), set_fn f' p) ∧ becomes (fn p) f' Ca k 0.
Proof.
  intros Hat Hk Hk' Ho. pose proof (becomes_refl _ (ac_ok _ _ _ Hat)) as Hb.
  rewrite (ac_code _ _ _ Hat), (ac_free _ _ _ Hat) in Hb. unfold freeExpression.
  destruct Ho as [e Hkind|e Hkind Hj Hi Hv|e D Hkind Hj Hi]; unfold is_kind; rewrite Hkind; cbn [bool_decide decide_rel].
  - exists (fn p). by rewrite set_fn_same.
  - exists (fn p). rewrite bool_decide_eq_true_2 by done. rewrite freeRegister_kept, set_fn_same; [done|]. right.
    rewrite (ac_active _ _ _ Hat). apply lookup_lt_Some in Hv. lia.
  - rewrite bool_decide_eq_true_2, Hi by done. destruct (constant_index k) as (_ & _ & Hc & _); [fit|].
    destruct (freeRegister_ok k p (ac_ok _ _ _ Hat) Hc) as (f' & E & B); [rewrite (ac_active _ _ _ Hat); lia|by rewrite (ac_free _ _ _ Hat)|].
    exists f'. by rewrite (ac_code _ _ _ Hat) in B.
Qed.
Lemma free_expression Ca C k x e n D p : at_code (fn p) Ca n → na ≤ k → k < 255 → denotes C (constants (fn p)) (max_stack (fn p)) k x e n D →
  e_kind e ≠ kindLocal → ∃ f', freeExpression e p = Ok ((), set_fn f' p) ∧ becomes (fn p) f' Ca k 0.
Proof.
  intros Hat Hk Hk' Hd Hl. pose proof (becomes_refl _ (ac_ok _ _ _ Hat)) as Hb.
  rewrite (ac_code _ _ _ Hat), (ac_free _ _ _ Hat) in Hb.
  destruct Hd as [e Hkind|e o n D Ho|e Hkind|e D i Hkind]; [|by eapply free_operand|done|];
    unfold freeExpression, is_kind; rewrite Hkind; exists (fn p); by rewrite set_fn_same.
Qed.

Lemma next_register C k x e n D p : denotes C (constants (fn p)) (max_stack (fn p)) k x e n D →
  at_code (fn p) (C ++ D) n → na ≤ k → k < 255 → (length (constants (fn p)) + cost e ≤ 256)%nat →
  ∃ f' e' D', ExpressionToNextRegister e p = Ok (e', set_fn f' p) ∧ becomes (fn p) f' (C ++ D') (k + 1) (cost e) ∧
    operand (constants f') (max_stack f') k x e' k (k + 1) D'.
Proof.
  intros Hd Hat Hk Hk' Hn. unfold ExpressionToNextRegister.
  destruct (discharge_variables _ _ _ _ _ _ _ _ p Hd) as (e1 & E1 & Hd1 & Hl1 & Hc1 & _). erewrite pbind by exact E1.
  assert (cost e = cost e1) as -> by (unfold cost; by rewrite Hc1).
  destruct (free_expression _ _ _ _ _ _ _ _ Hat Hk Hk' Hd1 Hl1) as (f1 & E2 & B2). erewrite pbind by exact E2.
  pose proof (at_becomes _ _ _ _ _ _ _ Hat B2) as Hat2.
  destruct (reserve_ok 1 (set_fn f1 p)) as (f2 & E3 & B3); [apply Hat2|done|simpl; rewrite (ac_free _ _ _ Hat2); lia|].
  erewrite pbind by exact E3. rewrite pbind_getf. cbn [fn set_fn] in *.
  rewrite (ac_code _ _ _ Hat2), (ac_free _ _ _ Hat2) in B3. rewrite (bc_free _ _ _ _ _ B3). replace (k + 1 - 1) with k by lia.
  pose proof (becomes_trans _ _ _ _ _ _ _ _ _ B2 B3) as B.
  destruct (to_register C k x e1 n D (set_fn f2 (set_fn f1 p))) as (f' & e' & D' & E & B' & Ho); cbn [fn set_fn];
    [|done|by eapply at_becomes|done|done|..].
  - eapply denotes_more; [exact (bc_consts _ _ _ _ _ B)|exact (bc_max _ _ _ _ _ B)|done].
  - pose proof (bc_count _ _ _ _ _ B). cbn [fn set_fn] in *. assert (cost e = cost e1) by (unfold cost; by rewrite Hc1). lia.
  - exists f', e', D'. split_and!; [exact E| |done]. cbn [fn set_fn] in B'. by pose proof (becomes_trans _ _ _ _ _ _ _ _ _ B B').
Qed.

(** An operand that is one already stays as it is. *)
Lemma any_register_same K m k x e o n D p : operand K m k x e o n D → e_kind e = kindNonRelocatable → ExpressionToAnyRegister e p = Ok (e, p).
Proof.
  intros Ho Hk. apply operand_kind in Ho as [_ Hj]. unfold ExpressionToAnyRegister, DischargeVariables. rewrite Hk, pbind_ret.
  unfold is_kind. rewrite bool_decide_eq_true_2, nojumps_has by done. done.
Qed.
Lemma operand_again K m k x e o n D p : operand K m k x e o n D → expressionToRegisterOrConstant e p = Ok ((e, o), p).
Proof.
  intros Ho. unfold expressionToRegisterOrConstant, ExpressionToValue, DischargeVariables.
  destruct (operand_kind _ _ _ _ _ _ _ _ Ho) as [Hk Hj]. rewrite nojumps_has by done.
  destruct Hk as [Hk|Hk]; rewrite Hk, pbind_ret, pbind_getf, Hk; cbv zeta.
  - destruct Ho as [e _ _ Hfit|e Hk'|e D Hk']; try congruence. assert ((e_info e <=? maxIndexRK) = true) as -> by
      (apply Z.leb_le; change maxIndexRK with 255; fit). done.
  - erewrite pbind by by eapply any_register_same. destruct Ho as [e Hk'| |e D ? ? <-]; [congruence|done|done].
Qed.

Lemma any_register C k x e n D p : denotes C (constants (fn p)) (max_stack (fn p)) k x e n D →
  at_code (fn p) (C ++ D) n → na ≤ k → k < 255 → (length (constants (fn p)) + cost e ≤ 256)%nat →
  ∃ f' e' n' D', ExpressionToAnyRegister e p = Ok (e', set_fn f' p) ∧ becomes (fn p) f' (C ++ D') n' (cost e) ∧
    operand (constants f') (max_stack f') k x e' (e_info e') n' D' ∧ e_kind e' = kindNonRelocatable.
Proof.
  intros Hd Hat Hk Hk' Hn. destruct (discharge_variables _ _ _ _ _ _ _ _ p Hd) as (e1 & E1 & Hd1 & Hl1 & Hc1 & _).
  assert (cost e = cost e1) as Hc by (unfold cost; by rewrite Hc1). rewrite Hc in *.
  destruct (decide (e_kind e1 = kindNonRelocatable)) as [Hr|Hr].
  - exists (fn p), e1, n, D. unfold ExpressionToAnyRegister. erewrite pbind by exact E1. unfold is_kind.
    rewrite bool_decide_eq_true_2 by done. pose proof (denotes_nojumps _ _ _ _ _ _ _ _ Hd1) as Hj. rewrite (nojumps_has _ Hj), set_fn_same.
    split_and!; [done| | |done].
    + eapply becomes_le; [|by apply Nat.le_0_l]. rewrite <- (ac_code _ _ _ Hat), <- (ac_free _ _ _ Hat). apply becomes_refl, Hat.
    + destruct Hd1 as [?|e1 o n D Ho|?|?]; try congruence. destruct Ho as [e2 He| |e2 D2 ? ? He]; [congruence|by apply opd_local|].
      rewrite He. by apply opd_temp.
  - destruct (next_register C k x e1 n D p Hd1 Hat Hk Hk' Hn) as (f' & e' & D' & E & B & Ho). exists f', e', (k + 1), D'.
    unfold ExpressionToAnyRegister. erewrite pbind by exact E1. unfold is_kind. rewrite bool_decide_eq_false_2 by done.
    split_and!; [done|done| |].
    + inversion Ho; subst; try lia; congruence.
    + inversion Ho; subst; try lia; congruence.
Qed.

(** A numeral becomes a constant, whatever registers are in use. *)
Lemma number_operand k e p : fn_ok (fn p) → e_kind e = kindNumber → nojumps e → (length (constants (fn p)) + 1 ≤ 256)%nat →
  ∃ f' e' o, expressionToRegisterOrConstant e p = Ok ((e', o), set_fn f' p) ∧
    becomes (fn p) f' (f_code (fn p)) (freeRegisterCount (fn p)) 1 ∧ operand (constants f') (max_stack f') k (e_value e) e' o k [].
Proof.
  intros Hf Hkind Hj Hn. unfold expressionToRegisterOrConstant, ExpressionToValue, DischargeVariables.
  rewrite nojumps_has, Hkind by done. rewrite pbind_ret, pbind_getf, Hkind. cbv zeta.
  destruct (numberConstant_ok (e_value e) p Hf) as (i & f1 & E2 & B2 & Hi & HK).
  erewrite pbind by exact E2. pose proof (bc_count _ _ _ _ _ B2). cbn [e_info e_set].
  assert ((i <=? maxIndexRK) = true) as -> by (apply Z.leb_le; change maxIndexRK with 255; lia).
  eexists f1, _, _. split; [reflexivity|]. split; [done|].
  apply (opd_const _ _ _ _ (e_set kindConstant i e)); [done|done|unfold fits; cbn [e_info e_set]; lia|done].
Qed.
Lemma to_operand C k x e n D p : denotes C (constants (fn p)) (max_stack (fn p)) k x e n D →
  at_code (fn p) (C ++ D) n → na ≤ k → k < 255 → (length (constants (fn p)) + cost e ≤ 256)%nat →
  ∃ f' e' o n' D', expressionToRegisterOrConstant e p = Ok ((e', o), set_fn f' p) ∧ becomes (fn p) f' (C ++ D') n' (cost e) ∧
    operand (constants f') (max_stack f') k x e' o n' D'.
Proof.
  intros Hd Hat Hk Hk' Hn. pose proof (denotes_nojumps _ _ _ _ _ _ _ _ Hd) as Hj.
  destruct (discharge_variables _ _ _ _ _ _ _ _ p Hd) as (e1 & E1 & Hd1 & Hl1 & Hc1 & Heq).
  assert (cost e = cost e1) as Hc by (unfold cost; by rewrite Hc1).
  pose proof (becomes_refl _ (ac_ok _ _ _ Hat)) as Hb. rewrite (ac_code _ _ _ Hat), (ac_free _ _ _ Hat) in Hb.
  destruct (any_register C k x e1 n D p Hd1 Hat Hk Hk') as (f' & e' & n' & D' & E & B & Ho & _); [by rewrite <- Hc|].
  destruct (decide (e_kind e = kindNumber)) as [Hnum|Hnum].
  { rewrite cost_number in * by done. destruct Hd as [e _ _ Hv|? ? ? ? Ho1|? Hx|? ? ? Hx]; [|apply operand_kind in Ho1 as [[?|?] _]; congruence|congruence..].
    destruct (number_operand k e p (ac_ok _ _ _ Hat) Hnum Hj Hn) as (f2 & e2 & o & E2 & B2 & Ho2).
    rewrite (ac_code _ _ _ Hat), (ac_free _ _ _ Hat) in B2. subst x. by exists f2, e2, o, k, []. }
  unfold expressionToRegisterOrConstant, ExpressionToValue. rewrite nojumps_has by done. erewrite pbind by exact E1. rewrite pbind_getf.
  cbv zeta.
  destruct Hd1 as [e1 Hkind Hj1 Hv|e1 o n D Ho1|e1 Hkind|e1 D i Hkind].
  - destruct (decide (e_kind e = kindLocal)) as [Hloc|Hloc]; [|rewrite <- Heq in Hnum by done; done].
    unfold DischargeVariables in E1. rewrite Hloc in E1. injection E1 as <-. done.
  - pose proof (operand_again _ _ _ _ _ _ _ _ p Ho1) as E2.
    unfold expressionToRegisterOrConstant, ExpressionToValue, DischargeVariables in E2.
    destruct (operand_kind _ _ _ _ _ _ _ _ Ho1) as [Hk1 Hj1]. rewrite (nojumps_has _ Hj1) in E2.
    exists (fn p), e1, o, n, D. rewrite set_fn_same. split_and!; [|eapply becomes_le; [done|apply Nat.le_0_l]|done].
    destruct Hk1 as [Hk1|Hk1]; rewrite Hk1, pbind_ret, pbind_getf, Hk1 in E2; cbv zeta in E2; by rewrite Hk1.
  - done.
  - rewrite Hkind. erewrite pbind by exact E. rewrite Hc. exists f', e', (e_info e'), n', D'. done.
Qed.

(** ** Arithmetic *)

Lemma free_then_free Ca k x e o n D e1 p f1 : na ≤ k → k < 254 → operand (constants (fn p)) (max_stack (fn p)) k x e o n D →
  freeExpression e1 p = Ok ((), set_fn f1 p) → at_code f1 Ca n → becomes (fn p) f1 Ca n 0 →
  ∃ f', (_ ← freeExpression e1; freeExpression e) p = Ok ((), set_fn f' p) ∧ becomes (fn p) f' Ca k 0.
Proof.
  intros Hk Hk' Ho E1 Hat B1. erewrite pbind by exact E1.
  destruct (free_operand Ca k x e o n D (set_fn f1 p)) as (f2 & E2 & B2); [done|done|lia| |].
  { eapply operand_more; [exact (bc_consts _ _ _ _ _ B1)|exact (bc_max _ _ _ _ _ B1)|done]. }
  exists f2. split; [exact E2|]. exact (becomes_trans _ _ _ _ _ _ _ _ _ B1 B2).
Qed.

(** Both operands are given up, the later register first. *)
Lemma free_both Ca k x y e1 e2 o1 o2 n1 n2 D1 D2 p : at_code (fn p) Ca n2 → na ≤ k → k < 254 →
  operand (constants (fn p)) (max_stack (fn p)) k x e1 o1 n1 D1 → operand (constants (fn p)) (max_stack (fn p)) n1 y e2 o2 n2 D2 →
  ∃ f', (if o2 <? o1 then _ ← freeExpression e1; freeExpression e2 else _ ← freeExpression e2; freeExpression e1) p =
      Ok ((), set_fn f' p) ∧ becomes (fn p) f' Ca k 0.
Proof.
  intros Hat Hk Hk' Ho1 Ho2. assert (k ≤ n1 ≤ k + 1) as Hn1 by (apply operand_free in Ho1 as [?|[? _]]; lia).
  assert (n1 ≤ n2 ≤ n1 + 1) as Hn2 by (apply operand_free in Ho2 as [?|[? _]]; lia).
  destruct (Z.ltb_spec o2 o1) as [Hlt|Hge].
  - destruct Ho1 as [e1 Hkind Hj Hi HK|e1 Hkind Hj Hi Hv|e1 D1 Hkind Hj Hi Hm HD].
    + destruct (free_operand Ca n2 x e1 (asConstant (e_info e1)) n2 [] p Hat) as (f1 & E1 & B1); [lia|lia|by constructor|].
      apply (free_then_free Ca k y e2 o2 n2 D2 e1 p f1); try done. by eapply at_becomes.
    + destruct (free_operand Ca n2 x e1 (e_info e1) n2 [] p Hat) as (f1 & E1 & B1); [lia|lia|by constructor|].
      apply (free_then_free Ca k y e2 o2 n2 D2 e1 p f1); try done. by eapply at_becomes.
    + assert (n2 = k + 1 ∧ e_kind e2 = kindNonRelocatable ∧ nojumps e2 ∧ 0 ≤ e_info e2 ∧ vals !! Z.to_nat (e_info e2) = Some y) as (-> & K1 & K2 & K3 & K4).
      { destruct Ho2 as [e2 ? ? Hi2|e2|e2 D2]; [|done|lia]. pose proof (constant_above _ Hi2). lia. }
      destruct (free_operand Ca k x e1 k (k + 1) D1 p Hat) as (f1 & E1 & B1); [lia|lia|by constructor|].
      apply (free_then_free Ca k y e2 (e_info e2) k [] e1 p f1); try done; [by constructor|by eapply at_becomes].
  - destruct (free_operand Ca n1 y e2 o2 n2 D2 p Hat ltac:(lia) ltac:(lia) Ho2) as (f1 & E1 & B1).
    apply (free_then_free Ca k x e1 o1 n1 D1 e2 p f1); try done. by eapply at_becomes.
Qed.

Lemma operand_fits K m k x e o n D : na ≤ k → k < 255 → operand K m k x e o n D → fits sizeB o.
Proof.
  intros Hk Hk' [e' ? ? Hi|e' ? ? ? Hv|e' D']; [by apply constant_index| |fit].
  apply lookup_lt_Some in Hv. fit.
Qed.

Lemma lor_range n x y : 0 ≤ n → 0 ≤ x < 2 ^ n → 0 ≤ y < 2 ^ n → 0 ≤ Z.lor x y < 2 ^ n.
Proof.
  intros Hn Hx Hy. assert (0 ≤ Z.lor x y) by (apply Z.lor_nonneg; lia). split; [done|]. apply bits_small; [done|done|].
  intros j Hj. by rewrite Z.lor_spec, (small_bits n x), (small_bits n y).
Qed.
Lemma word_created o a b c : fits 32 (createABC o a b c).
Proof. unfold fits, createABC, shl. repeat apply lor_range; try done; apply instr_range. Qed.

Lemma set_target o b c k : fits sizeB b → fits sizeC c → fits sizeA k →
  let i := setA (createABC o 0 b c) k in op_of (opField i) = Some o ∧ getA i = k ∧ getB i = b ∧ getC i = c.
Proof.
  intros Hb Hc Hk. cbv zeta. destruct (createABC_fields o 0 b c) as (E1 & E2 & E3 & E4); [fit|done|done|].
  destruct (set_fields (createABC o 0 b c) k) as (_ & H1 & _); [apply word_created|]. specialize (H1 Hk). unfold fields_of in H1.
  injection H1 as -> -> -> ->. done.
Qed.

Lemma put_runs K m k D i z (Q : list value → Prop) : na ≤ k → k < m → runs vals K m k D Q →
  (∀ R, Q R → frame_step K i R = put_reg k (VNumber z) R) → runs vals K m k (D ++ [i]) (holds k z).
Proof.
  intros Hk Hm HD Hi. eapply runs_snoc; [exact HD| |done]. intros R HR HmR HE.
  exists (<[Z.to_nat k := VNumber z]> R). rewrite Hi by done. unfold put_reg.
  assert ((k <? Z.of_nat (length R)) = true) as -> by (apply Z.ltb_lt; lia). split_and!; [done|by rewrite length_insert| |].
  - intros j Hj. rewrite list_lookup_insert_ne by lia. done.
  - unfold holds. apply list_lookup_insert_eq. lia.
Qed.

Lemma arith_runs K m k op f x y e1 o1 n1 D1 e2 o2 n2 D2 : arith_of op = Some f → na ≤ k → k < 254 → k < m →
  operand K m k x e1 o1 n1 D1 → operand K m n1 y e2 o2 n2 D2 →
  runs vals K m k ((D1 ++ D2) ++ [setA (createABC op 0 o1 o2) k]) (holds k (f x y)).
Proof.
  intros Hop Hk Hk' Hm Ho1 Ho2. assert (k ≤ n1 ≤ k + 1) as Hn1 by (apply operand_free in Ho1 as [?|[? _]]; lia).
  pose proof (operand_runs _ _ _ _ _ _ _ _ Hk ltac:(lia) Ho1) as R1.
  assert (na ≤ n1) as Hn by lia. pose proof (operand_runs _ _ _ _ _ _ _ _ Hn ltac:(lia) Ho2) as R2.
  pose proof (operand_fits _ _ _ _ _ _ _ _ Hk ltac:(lia) Ho1) as F1. pose proof (operand_fits _ _ _ _ _ _ _ _ Hn ltac:(lia) Ho2) as F2.
  eapply put_runs; [done|done|apply (runs_app vals K m k n1 _ _ _ _ Hk ltac:(lia) R1 R2)|]. intros R (HQ2 & R0 & HQ1 & Hagree).
  destruct (set_target op o1 o2 k F1 F2) as (E1 & E2 & E3 & E4); [fit|]. unfold frame_step. rewrite E1, E2, E3, E4.
  rewrite (HQ1 R Hagree), (HQ2 R) by done. destruct op; first [discriminate Hop|injection Hop as <-; reflexivity].
Qed.

Lemma minus_runs K m k x e n D : na ≤ k → k < 254 → k < m → operand K m k x e (e_info e) n D → e_kind e = kindNonRelocatable →
  runs vals K m k (D ++ [setA (createABC opUnaryMinus 0 (e_info e) 0) k]) (holds k (SFopp x)).
Proof.
  intros Hk Hk' Hm Ho Hkind. pose proof (operand_runs _ _ _ _ _ _ _ _ Hk ltac:(lia) Ho) as R1.
  pose proof (operand_fits _ _ _ _ _ _ _ _ Hk ltac:(lia) Ho) as F1. eapply put_runs; [done|done|exact R1|]. intros R HR.
  destruct (set_target opUnaryMinus (e_info e) 0 k F1) as (E1 & E2 & E3 & E4); [fit|fit|]. unfold frame_step. rewrite E1, E2, E3.
  specialize (HR R ltac:(done)). unfold rk_value in HR. assert (isConstant (e_info e) = false) as Hc.
  { apply constant_index. inversion Ho; subst; [congruence| |unfold fits; lia].
    match goal with Hv : vals !! _ = _ |- _ => apply lookup_lt_Some in Hv end. unfold fits. lia. }
  rewrite Hc in HR. by rewrite HR.
Qed.

(** The description of a left operand, once the operator has been seen. *)
Definition left_operand (K : list value) (m k : Z) (x : float64) (e : exprDesc) (n : Z) (D : list Z) : Prop :=
  (e_kind e = kindNumber ∧ nojumps e ∧ e_value e = x ∧ n = k ∧ D = []) ∨ ∃ o, operand K m k x e o n D.

Lemma left_to_operand k x e n D C n2 p : left_operand (constants (fn p)) (max_stack (fn p)) k x e n D → at_code (fn p) C n2 →
  (length (constants (fn p)) + cost e ≤ 256)%nat →
  ∃ f' e' o, expressionToRegisterOrConstant e p = Ok ((e', o), set_fn f' p) ∧ becomes (fn p) f' C n2 (cost e) ∧
    operand (constants f') (max_stack f') k x e' o n D.
Proof.
  intros [(Hkind & Hj & Hv & -> & ->)|[o Ho]] Hat Hn.
  - rewrite cost_number in * by done. destruct (number_operand k e p (ac_ok _ _ _ Hat) Hkind Hj Hn) as (f' & e' & o & E & B & Ho). subst x.
    rewrite (ac_code _ _ _ Hat), (ac_free _ _ _ Hat) in B. by exists f', e', o.
  - exists (fn p), e, o. rewrite set_fn_same. split_and!; [by eapply operand_again| |done].
    eapply becomes_le; [|by apply Nat.le_0_l]. rewrite <- (ac_code _ _ _ Hat), <- (ac_free _ _ _ Hat). apply becomes_refl, Hat.
Qed.

(** The instruction of an operator, after its operands have been given up. *)
Lemma emit_ok Ca k e1 o1 o2 op ln p (free : parsing unit) : opMode op = mode_num iABC → bMode op ≠ arg_num opArgN →
  (cMode op ≠ arg_num opArgN ∨ o2 = 0) → fits sizeB o1 → fits sizeC o2 → nojumps e1 →
  (∃ f1, free p = Ok ((), set_fn f1 p) ∧ becomes (fn p) f1 Ca k 0) →
  ∃ f' e', (_ ← free; pc ← EncodeABC op 0 o1 o2; _ ← FixLine ln; mret (e_set kindRelocatable pc e1)) p = Ok (e', set_fn f' p) ∧
    becomes (fn p) f' (Ca ++ [createABC op 0 o1 o2]) k 0 ∧
    e_kind e' = kindRelocatable ∧ nojumps e' ∧ e_info e' = Z.of_nat (length Ca).
Proof.
  intros M1 M2 M3 F1 F2 Hj (f1 & E1 & B1). erewrite pbind by exact E1.
  destruct (encodeABC_ok op 0 o1 o2 (set_fn f1 p)) as (f2 & E2 & B2); [apply B1|done|by left|done|fit|done|done|].
  erewrite pbind by exact E2. cbn [fn set_fn] in B2. destruct (fixLine_ok ln (set_fn f2 (set_fn f1 p))) as (f3 & E3 & B3).
  { apply B2. } { cbn [fn set_fn]. rewrite (bc_code _ _ _ _ _ B2). by destruct (f_code f1). }
  erewrite pbind by exact E3. cbn [fn set_fn] in *. rewrite (bc_code _ _ _ _ _ B2), (bc_free _ _ _ _ _ B2) in B3.
  rewrite (bc_code _ _ _ _ _ B1), (bc_free _ _ _ _ _ B1) in B2, B3.
  eexists f3, _. split; [reflexivity|]. split_and!.
  - exact (becomes_trans _ _ _ _ _ _ _ _ _ B1 (becomes_trans _ _ _ _ _ _ _ _ _ B2 B3)).
  - done.
  - done.
  - simpl. unfold code_len. by rewrite (bc_code _ _ _ _ _ B1).
Qed.

Lemma binary_modes o : opMode (op_for (binary_of o)) = mode_num iABC ∧ bMode (op_for (binary_of o)) ≠ arg_num opArgN ∧
  cMode (op_for (binary_of o)) ≠ arg_num opArgN ∧ arith_of (op_for (binary_of o)) = Some (machine_op o) ∧
  bool_decide (op_for (binary_of o) = opUnaryMinus) = false ∧ bool_decide (op_for (binary_of o) = opLength) = false.
Proof. by destruct o. Qed.

Lemma fold_numbers o e1 e2 : e_kind e1 = kindNumber → nojumps e1 → e_kind e2 = kindNumber → nojumps e2 →
  foldConstants (op_for (binary_of o)) e1 e2 =
    Ok (if refuses_zero o && feq (e_value e2) fzero then (e1, false) else (e_number (folded_op o (e_value e1) (e_value e2)) e1, true)).
Proof.
  intros K1 [J1 J1'] K2 [J2 J2']. unfold foldConstants, isNumeral, is_kind. rewrite J1, J1', J2, J2', !bool_decide_eq_true_2 by done.
  cbn [negb orb andb]. rewrite Z.eqb_refl. cbn [negb orb andb].
  assert (bool_decide (op_for (binary_of o) = opDiv) || bool_decide (op_for (binary_of o) = opMod) = refuses_zero o) as -> by by destruct o.
  destruct (refuses_zero o && feq (e_value e2) fzero); [done|]. unfold folded_op.
  destruct o; cbn [op_for binary_of arith]; try done. by destruct (feq _ _ && feq _ _).
Qed.
Lemma fold_other o e1 e2 : e_kind e1 ≠ kindNumber ∨ e_kind e2 ≠ kindNumber → foldConstants o e1 e2 = Ok (e1, false).
Proof.
  intros Hk. unfold foldConstants, isNumeral, is_kind. destruct Hk; [rewrite (bool_decide_eq_false_2 (e_kind e1 = _)) by done|
    rewrite (bool_decide_eq_false_2 (e_kind e2 = _)) by done; rewrite orb_true_r]; done.
Qed.

(** An arithmetic operator that is not folded. *)
Lemma encode_binary C k n1 n2 D1 D2 x y e1 e2 o ln p : foldConstants (op_for (binary_of o)) e1 e2 = Ok (e1, false) →
  na ≤ k → k < 253 → at_code (fn p) (C ++ D1 ++ D2) n2 → (length (constants (fn p)) + (cost e1 + cost e2) ≤ 256)%nat →
  left_operand (constants (fn p)) (max_stack (fn p)) k x e1 n1 D1 →
  denotes (C ++ D1) (constants (fn p)) (max_stack (fn p)) n1 y e2 n2 D2 →
  ∃ f' e' D', encodeArithmetic (op_for (binary_of o)) e1 e2 ln p = Ok (e', set_fn f' p) ∧ becomes (fn p) f' (C ++ D') k (cost e1 + cost e2) ∧
    denotes C (constants f') (max_stack f') k (machine_op o x y) e' k D' ∧ e_kind e' ≠ kindNumber.
Proof.
  intros Hfold Hk Hk' Hat Hn Hd1 Hd2. destruct (binary_modes o) as (M1 & M2 & M3 & M4 & M5 & M6). unfold encodeArithmetic.
  erewrite pbind_outcome by exact Hfold. rewrite M5, M6. cbn [negb andb].
  assert (k ≤ n1 ≤ k + 1) as Hn1 by (destruct Hd1 as [(_ & _ & _ & -> & _)|[o1 Ho1]]; [lia|apply operand_free in Ho1 as [?|[? _]]; lia]).
  destruct (to_operand (C ++ D1) n1 y e2 n2 D2 p Hd2) as (f2 & e2' & o2 & n2' & D2' & E2 & B2 & Ho2); [by rewrite <- app_assoc|lia|lia|lia|].
  erewrite pbind by exact E2. cbv beta iota. pose proof (at_becomes _ _ _ _ _ _ _ Hat B2) as Hat2.
  pose proof (bc_count _ _ _ _ _ B2) as Hc2.
  destruct (left_to_operand k x e1 n1 D1 ((C ++ D1) ++ D2') n2' (set_fn f2 p)) as (f1 & e1' & o1 & E1 & B1 & Ho1).
  { destruct Hd1 as [?|[o1 Ho1]]; [by left|right]. exists o1. eapply operand_more; [exact (bc_consts _ _ _ _ _ B2)|exact (bc_max _ _ _ _ _ B2)|done]. }
  { done. } { cbn [fn set_fn]. lia. }
  erewrite pbind by exact E1. cbv beta iota. cbn [fn set_fn] in B1.
  assert (operand (constants f1) (max_stack f1) n1 y e2' o2 n2' D2') as Ho2'.
  { eapply operand_more; [exact (bc_consts _ _ _ _ _ B1)|exact (bc_max _ _ _ _ _ B1)|done]. }
  pose proof (at_becomes _ _ _ _ _ _ _ Hat2 B1) as Hat1.
  destruct (emit_ok ((C ++ D1) ++ D2') k e1' o1 o2 (op_for (binary_of o)) ln (set_fn f1 (set_fn f2 p))
    (if o2 <? o1 then _ ← freeExpression e1'; freeExpression e2' else _ ← freeExpression e2'; freeExpression e1')) as (f' & e' & E & B & K1 & K2 & K3);
    try done; [by left|apply (operand_fits _ _ k x _ _ _ _ Hk ltac:(lia) Ho1)|by apply (operand_fits _ _ n1 y _ _ _ _ ltac:(lia) ltac:(lia) Ho2)
      |by apply operand_kind in Ho1 as [_ ?]|by apply (free_both ((C ++ D1) ++ D2') k x y e1' e2' o1 o2 n1 n2' D1 D2' (set_fn f1 (set_fn f2 p)) Hat1 Hk ltac:(lia) Ho1 Ho2')|].
  rewrite E. exists f', e', ((D1 ++ D2') ++ [createABC (op_for (binary_of o)) 0 o1 o2]). cbn [fn set_fn] in B.
  split_and!; [done| |eapply den_reloc; try done|by rewrite K1].
  - rewrite !app_assoc in *. eapply becomes_le; [exact (becomes_trans _ _ _ _ _ _ _ _ _ B2 (becomes_trans _ _ _ _ _ _ _ _ _ B1 B))|lia].
  - by rewrite app_assoc.
  - apply word_created.
  - intros m' Hm Hkm. assert (max_stack f1 ≤ m') by (pose proof (bc_max _ _ _ _ _ B); lia).
    eapply (arith_runs _ _ _ _ _ x y e1' o1 n1 D1 e2' o2 n2' D2'); try done; [lia| |];
      (eapply operand_more; [exact (bc_consts _ _ _ _ _ B)|done|done]).
Qed.

Lemma isNumeral_number e : nojumps e → isNumeral e = is_number e.
Proof. intros [J1 J2]. unfold isNumeral, is_number. by rewrite J1, J2, Z.eqb_refl, !andb_true_r. Qed.

Lemma number_inv C K m k x e n D : denotes C K m k x e n D → is_number e = true → e_kind e = kindNumber ∧ e_value e = x ∧ n = k ∧ D = [].
Proof.
  unfold is_number, is_kind. intros Hd Hk%bool_decide_eq_true_1. destruct Hd as [?|e o n D Ho|? Hk2|? ? ? Hk2]; [done| |congruence..].
  apply operand_kind in Ho as [[?|?] _]; congruence.
Qed.

Lemma same_code f C n c : at_code f C n → becomes f f C n c.
Proof.
  intros Hat. eapply becomes_le; [|by apply Nat.le_0_l]. rewrite <- (ac_code _ _ _ Hat), <- (ac_free _ _ _ Hat). apply becomes_refl, Hat.
Qed.

Lemma infix_ok C k x e n D o p : denotes C (constants (fn p)) (max_stack (fn p)) k x e n D →
  at_code (fn p) (C ++ D) n → na ≤ k → k < 255 → (length (constants (fn p)) + cost e ≤ 256)%nat →
  ∃ f' e' n' D', Infix (binary_of o) e p = Ok (e', set_fn f' p) ∧ becomes (fn p) f' (C ++ D') n' 0 ∧
    left_operand (constants f') (max_stack f') k x e' n' D' ∧ is_number e' = is_number e ∧ k ≤ n' ≤ k + 1.
Proof.
  intros Hd Hat Hk Hk' Hn. pose proof (denotes_nojumps _ _ _ _ _ _ _ _ Hd) as Hj.
  assert (Infix (binary_of o) e = if negb (isNumeral e) then '(e, _) ← expressionToRegisterOrConstant e; mret e else mret e) as -> by by destruct o.
  rewrite isNumeral_number by done. destruct (is_number e) eqn:En; cbn [negb].
  - destruct (number_inv _ _ _ _ _ _ _ _ Hd En) as (H1 & H2 & -> & ->). exists (fn p), e, k, []. rewrite set_fn_same.
    split_and!; try done; [by apply same_code|by left|lia..].
  - destruct (to_operand _ _ _ _ _ _ _ Hd Hat Hk Hk' Hn) as (f' & e' & o' & n' & D' & E & B & Ho). erewrite pbind by exact E.
    assert (cost e = 0%nat) as Hc by (unfold cost; by rewrite En). rewrite Hc in B.
    exists f', e', n', D'. split_and!; [done|done|right; eauto| | |].
    + unfold is_number, is_kind. apply bool_decide_eq_false_2. by apply operand_kind in Ho as [[-> | ->] _].
    + apply operand_free in Ho as [?|[? _]]; lia.
    + apply operand_free in Ho as [?|[? _]]; lia.
Qed.

(** What an operator makes of its operands, and whether the compiler computes it. *)
Definition folds (o : arith_op) (e1 e2 : exprDesc) (y : float64) : bool :=
  is_number e1 && is_number e2 && negb (refuses_zero o && feq y fzero).
Definition operator_value (o : arith_op) (folded : bool) (x y : float64) : float64 := if folded then folded_op o x y else machine_op o x y.

Lemma postfix_ok C k n1 n2 D1 D2 x y e1 e2 o ln p : na ≤ k → k < 253 → at_code (fn p) (C ++ D1 ++ D2) n2 →
  (length (constants (fn p)) + (cost e1 + cost e2) ≤ 256)%nat → left_operand (constants (fn p)) (max_stack (fn p)) k x e1 n1 D1 →
  denotes (C ++ D1) (constants (fn p)) (max_stack (fn p)) n1 y e2 n2 D2 →
  ∃ f' e' D' c, Postfix (binary_of o) e1 e2 ln p = Ok (e', set_fn f' p) ∧ becomes (fn p) f' (C ++ D') k c ∧ (c + cost e' ≤ cost e1 + cost e2)%nat ∧
    denotes C (constants f') (max_stack f') k (operator_value o (folds o e1 e2 y) x y) e' k D' ∧ is_number e' = folds o e1 e2 y.
Proof.
  intros Hk Hk' Hat Hn Hd1 Hd2. pose proof (denotes_nojumps _ _ _ _ _ _ _ _ Hd2) as Hj2.
  assert (nojumps e1) as Hj1 by (destruct Hd1 as [(_ & ? & _)|[? [_ ?]%operand_kind]]; done).
  assert (Postfix (binary_of o) e1 e2 ln = encodeArithmetic (op_for (binary_of o)) e1 e2 ln) as -> by by destruct o.
  destruct (is_number e1 && is_number e2) eqn:En.
  - apply andb_prop in En as [N1 N2]. destruct (number_inv _ _ _ _ _ _ _ _ Hd2 N2) as (K2 & V2 & -> & ->).
    assert (e_kind e1 = kindNumber) as K1 by by apply bool_decide_eq_true_1 in N1.
    assert (e_value e1 = x ∧ n1 = k ∧ D1 = []) as (V1 & -> & ->).
    { destruct Hd1 as [(_ & _ & ? & ? & ?)|[? [[?|?] _]%operand_kind]]; [done|congruence..]. }
    pose proof (fold_numbers o e1 e2 K1 Hj1 K2 Hj2) as Hfold. rewrite V2, V1 in Hfold.
    unfold folds. rewrite N1, N2. cbn [andb]. destruct (refuses_zero o && feq y fzero); cbn [negb operator_value].
    + destruct (encode_binary C k k k [] [] x y e1 e2 o ln p Hfold) as (f' & e' & D' & E & B & Hd & Hne); try done.
      exists f', e', D', (cost e1 + cost e2)%nat. rewrite (cost_other _ Hne).
      split_and!; [done|done|lia|done|by apply bool_decide_eq_false_2].
    + exists (fn p), (e_number (folded_op o x y) e1), [], 0%nat. rewrite set_fn_same. unfold encodeArithmetic.
      erewrite pbind_outcome by exact Hfold. rewrite !cost_number by done.
      split_and!; [done|by apply same_code|lia|by apply den_number|done].
  - assert (foldConstants (op_for (binary_of o)) e1 e2 = Ok (e1, false)) as Hfold.
    { apply fold_other. apply andb_false_iff in En as [N|N]; [left|right]; by apply bool_decide_eq_false_1 in N. }
    assert (folds o e1 e2 y = false) as -> by (unfold folds; by rewrite En).
    destruct (encode_binary C k n1 n2 D1 D2 x y e1 e2 o ln p Hfold) as (f' & e' & D' & E & B & Hd & Hne); try done.
    exists f', e', D', (cost e1 + cost e2)%nat. rewrite (cost_other _ Hne).
      split_and!; [done|done|lia|done|by apply bool_decide_eq_false_2].
Qed.

Lemma prefix_ok C k x e n D ln p : denotes C (constants (fn p)) (max_stack (fn p)) k x e n D →
  at_code (fn p) (C ++ D) n → na ≤ k → k < 253 → (length (constants (fn p)) + cost e ≤ 256)%nat →
  ∃ f' e' n' D', Prefix oprMinus e ln p = Ok (e', set_fn f' p) ∧ becomes (fn p) f' (C ++ D') n' 0 ∧
    denotes C (constants f') (max_stack f') k (SFopp x) e' n' D' ∧ is_number e' = is_number e.
Proof.
  intros Hd Hat Hk Hk' Hn. pose proof (denotes_nojumps _ _ _ _ _ _ _ _ Hd) as Hj. unfold Prefix. rewrite isNumeral_number by done.
  destruct (is_number e) eqn:En.
  - destruct (number_inv _ _ _ _ _ _ _ _ Hd En) as (H1 & H2 & -> & ->). exists (fn p), (e_number (SFopp (e_value e)) e), k, [].
    rewrite set_fn_same. split_and!; [done|by apply same_code| |done]. apply den_number; [done|done|]. by rewrite <- H2.
  - destruct (any_register _ _ _ _ _ _ _ Hd Hat Hk ltac:(lia) Hn) as (f1 & e1 & n1 & D1 & E1 & B1 & Ho & K1). erewrite pbind by exact E1.
    assert (cost e = 0%nat) as Hc by (unfold cost; by rewrite En). rewrite Hc in B1.
    pose proof (at_becomes _ _ _ _ _ _ _ Hat B1) as Hat1. unfold encodeArithmetic.
    erewrite pbind_outcome by (apply fold_other; left; by rewrite K1). cbn [bool_decide decide_rel negb andb].
    rewrite (bool_decide_eq_true_2 (opUnaryMinus = opUnaryMinus)) by done. cbn [negb andb]. rewrite pbind_ret.
    erewrite pbind by exact (operand_again _ _ _ _ _ _ _ _ (set_fn f1 p) Ho). cbv beta iota.
    destruct (emit_ok (C ++ D1) k e1 (e_info e1) 0 opUnaryMinus ln (set_fn f1 p)
      (if 0 <? e_info e1 then _ ← freeExpression e1; freeExpression (makeExpression kindNumber 0)
       else _ ← freeExpression (makeExpression kindNumber 0); freeExpression e1)) as (f' & e' & E & B & M1 & M2 & M3); try done;
      [by right|by apply (operand_fits _ _ k x _ _ _ _ Hk ltac:(lia) Ho)|by apply operand_kind in Ho as [_ ?]| |].
    { destruct (free_operand (C ++ D1) k x e1 (e_info e1) n1 D1 (set_fn f1 p) Hat1 Hk ltac:(lia) Ho) as (f2 & E2 & B2).
      exists f2. split; [|done]. destruct (0 <? e_info e1); [|done]. by erewrite pbind by exact E2. }
    exists f', e', k, (D1 ++ [createABC opUnaryMinus 0 (e_info e1) 0]). rewrite E. cbn [fn set_fn] in B. rewrite <- app_assoc in B.
    split_and!; [done|eapply becomes_le; [exact (becomes_trans _ _ _ _ _ _ _ _ _ B1 B)|lia]| |].
    + apply den_reloc; try done; [apply word_created|]. intros m' Hm Hkm. pose proof (bc_max _ _ _ _ _ B).
      apply (minus_runs _ _ _ x e1 n1); [done|lia|done| |done].
      eapply operand_more; [exact (bc_consts _ _ _ _ _ B)| |done]. cbn [fn set_fn] in *. lia.
    + unfold is_number, is_kind. rewrite M1. done.
Qed.
End expressions.
