(* ===== verification/LuaReads.v ===== *)
(** * Reading arithmetic

    The parser over the text of lexemes: each token in turn, and the descent through an
    expression that has been written with the parentheses that it needs. *)
From Stdlib Require Import ZArith Lia Ascii.
From stdpp Require Import base option list gmap strings.
From S2P Require Import Prelude GoNum GoFmt Strconv LuaInstr LuaTable LuaScan LuaTokens LuaProto LuaCode LuaParser LuaVM LuaArith LuaGen.
From Stdlib Require Import SpecFloat.

(** ** Tokens *)

Definition head_tok (ls : list lexeme) : Z := match ls with [] => tkEOS | l :: _ => tk_t (token_of l) end.

(** The scanner has read the first lexeme, and has the text of the others before it. *)
Record reads (s : scanner) (ls : list lexeme) : Prop := {
  rd_look : tk_t (lookAheadToken s) = tkEOS;
  rd_tok : match ls with [] => tk_t (curToken s) = tkEOS | l :: _ => curToken s = token_of l end;
  rd_text : match ls with [] => True | _ :: ls => current s = 32 ∧ input s = text_of ls ∧ sbuf s = [] end;
  rd_ok : Forall lexeme_ok ls
}.

Lemma reads_head s ls : reads s ls → tk_t (curToken s) = head_tok ls.
Proof. intros [_ Ht _ _]. destruct ls; [done|]. by rewrite Ht. Qed.

Lemma scan_reads s s0 ls : before s (text_of ls) s0 → tk_t (lookAheadToken s0) = tkEOS → Forall lexeme_ok ls →
  ∃ t s', scan s = Ok (t, s') ∧ reads (set_tokens (lookAheadToken s') t s') ls.
Proof.
  intros (n & Hn & Hn0) Hl Hok. destruct ls as [|l ls].
  - destruct n as [|n]; [done|]. eexists _, _. split; [by rewrite Hn|]. by split.
  - apply Forall_cons in Hok as [H1 H2]. eexists _, _. split.
    { rewrite Hn. unfold text_of. cbn [flat_map]. rewrite <- app_assoc. by apply lexeme_scanned. }
    split; [done|done|done|by constructor].
Qed.

Lemma next_reads s l ls : reads s (l :: ls) → ∃ s', next_token s = Ok ((), s') ∧ reads s' ls.
Proof.
  intros [Hl Ht (Hc & Hi & Hb) Hok]. apply Forall_cons in Hok as [_ Hok]. unfold next_token.
  erewrite bind_ok; [|done]. rewrite bind_get. cbn [lookAheadToken set_lines]. rewrite Hl, Z.eqb_refl. cbn [negb].
  set (s1 := set_lines _ _ s).
  assert (s1 = at_text (spaced (text_of ls)) [] s1) as Es by (unfold s1, at_text; destruct s; simpl in *; subst; done).
  destruct (scan_reads s1 s1 ls) as (t & s' & E & Hr); [rewrite Es at 1; apply before_spaced|done|done|].
  erewrite bind_ok by exact E. eexists. split; [reflexivity|done].
Qed.

(** A parser with another scanner, function and depth. *)
Definition pst (p : parser) (s : scanner) (f : function) (d : Z) : parser :=
  mkParser s f (outer p) (activeVariables p) (pendingGotos p) (activeLabels p) d.

Lemma next_ok p s f d l ls : reads s (l :: ls) → ∃ s', nextp (pst p s f d) = Ok ((), pst p s' f d) ∧ reads s' ls.
Proof.
  intros Hr. destruct (next_reads _ _ _ Hr) as (s' & E & Hr'). exists s'. split; [|done].
  unfold nextp, scanning_. cbn [scn pst]. by rewrite E.
Qed.
Lemma pbind_tok {B} p s f d ls (g : Z → parsing B) : reads s ls → (getp tok ≫= g) (pst p s f d) = g (head_tok ls) (pst p s f d).
Proof. intros Hr. rewrite pbind_getp. unfold tok. cbn [scn pst]. by rewrite (reads_head _ _ Hr). Qed.

Lemma test_reads s l ls : reads s (l :: ls) → ∃ s', testNext (tk_t (token_of l)) s = Ok (true, s') ∧ reads s' ls.
Proof.
  intros Hr. destruct (next_reads _ _ _ Hr) as (s' & E & Hr'). exists s'. split; [|done].
  unfold testNext. rewrite bind_get, (rd_tok _ _ Hr), Z.eqb_refl. by erewrite bind_ok by exact E.
Qed.
Lemma testNext_yes p s f d l ls : reads s (l :: ls) →
  ∃ s', testNextp (tk_t (token_of l)) (pst p s f d) = Ok (true, pst p s' f d) ∧ reads s' ls.
Proof.
  intros Hr. destruct (test_reads _ _ _ Hr) as (s' & E & Hr'). exists s'. split; [|done].
  unfold testNextp, scanning_. cbn [scn pst]. by rewrite E.
Qed.
Lemma testNext_no p s f d ls t : reads s ls → head_tok ls ≠ t → testNextp t (pst p s f d) = Ok (false, pst p s f d).
Proof.
  intros Hr Ht. unfold testNextp, scanning_. cbn [scn pst]. unfold testNext. rewrite bind_get, (reads_head _ _ Hr).
  by assert ((head_tok ls =? t) = false) as -> by by apply Z.eqb_neq.
Qed.
Lemma checkMatch_ok p s f d l ls who where_ : reads s (l :: ls) →
  ∃ s', checkMatchp (tk_t (token_of l)) who where_ (pst p s f d) = Ok ((), pst p s' f d) ∧ reads s' ls.
Proof.
  intros Hr. destruct (test_reads _ _ _ Hr) as (s' & E & Hr'). exists s'. split; [|done].
  unfold checkMatchp, scanning_. cbn [scn pst]. unfold checkMatch. by erewrite bind_ok by exact E.
Qed.
Lemma checkName_ok p s f d x ls : reads s (LName x :: ls) →
  ∃ s', checkName (pst p s f d) = Ok (to_string x, pst p s' f d) ∧ reads s' ls.
Proof.
  intros Hr. destruct (next_ok p s f d _ _ Hr) as (s' & E & Hr'). exists s'. split; [|done].
  unfold checkName. erewrite (pbind _ _ _ ()).
  2: { unfold scanning_. cbn [scn pst]. unfold check. rewrite bind_get, (rd_tok _ _ Hr). reflexivity. }
  rewrite pbind_getp. unfold tok_s. cbn [scn pst set_scn]. rewrite (rd_tok _ _ Hr). erewrite pbind by exact E. done.
Qed.

Lemma tokens_left_ok {B} p s f d ls (g : nat → parsing B) : reads s ls → ∃ k, (tokens_left ≫= g) (pst p s f d) = g k (pst p s f d) ∧ (length ls < k)%nat.
Proof.
  intros Hr. eexists. split; [reflexivity|]. cbn [scn pst]. destruct ls as [|l ls]; [simpl; lia|].
  destruct (rd_text _ _ Hr) as (_ & Hi & _). unfold left. rewrite Hi. pose proof (text_of_length ls). simpl. lia.
Qed.

(** ** Variables in scope *)

(** The local variables of the function are these names, in this order. *)
Definition names_ok (p : parser) (f : function) (names : list bytes) : Prop :=
  activeVariableCount f = Z.of_nat (length names) ∧
  ∀ i x, names !! i = Some x → ∃ v, LocalVariable p f (Z.of_nat i) = Ok v ∧ lv_name v = to_string x.

Lemma to_string_inj x y : to_string x = to_string y → x = y.
Proof. intros H. by rewrite <- (to_bytes_to_string x), H, to_bytes_to_string. Qed.

Lemma names_becomes p f f' names C n c : names_ok p f names → becomes f f' C n c → names_ok p f' names.
Proof.
  intros [Hn Hv] Hb. pose proof (bc_others _ _ _ _ _ Hb) as E. unfold others in E. injection E as E1 E2 E3 E4 E5 E6 E7 E8 E9.
  split; [congruence|]. intros i x Hx. destruct (Hv i x Hx) as (v & Hl & Hname). exists v. split; [|done].
  unfold LocalVariable, slot_of in *. by rewrite E4, E6.
Qed.

Lemma find_local_ok p f names x i n : names_ok p f names → (n ≤ length names)%nat → last_index n names x = Some i →
  find_local n p f (to_string x) = Ok (Some (Z.of_nat i)).
Proof.
  intros Hok. induction n as [|n IH]; intros Hn Hi; [done|]. cbn [find_local last_index] in *.
  destruct (lookup_lt_is_Some_2 names n ltac:(lia)) as [y Hy]. destruct (proj2 Hok n y Hy) as (v & Hl & Hname). rewrite Hl. cbn [mbind outcome_bind].
  rewrite Hname. destruct (decide (names !! n = Some x)) as [Hx|Hx].
  - injection Hi as <-. rewrite bool_decide_eq_true_2; [done|]. congruence.
  - rewrite bool_decide_eq_false_2; [by apply IH; [lia|]|]. intros E%to_string_inj. congruence.
Qed.

Lemma singleVariable_ok p s f d names x i ls : reads s (LName x :: ls) → names_ok p f names → last_index (length names) names x = Some i →
  ∃ s', singleVariable (pst p s f d) = Ok (makeExpression kindLocal (Z.of_nat i), pst p s' f d) ∧ reads s' ls.
Proof.
  intros Hr Hok Hi. destruct (checkName_ok p s f d x ls Hr) as (s' & E & Hr'). exists s'. split; [|done].
  unfold singleVariable. erewrite pbind by exact E. unfold SingleVariable. erewrite (pbind _ _ _ (makeExpression kindLocal (Z.of_nat i), true)); [reflexivity|].
  unfold single_variable. cbn [fn pst singleVariableHelper].
  replace (Z.to_nat (activeVariableCount f)) with (length names) by (destruct Hok as [-> _]; lia).
  rewrite (find_local_ok (pst p s' f d) f names x i); [|exact Hok|lia|done]. reflexivity.
Qed.

(** ** Expressions *)

Definition suffix_tok (t : Z) : bool :=
  (t =? tk_char ".") || (t =? tk_char "[") || (t =? tk_char ":") || (t =? tk_char "(") || (t =? tkString) || (t =? tk_char "{").
(** What may follow an expression that an operator of the left priority [r] may follow. *)
Record ends (r : Z) (rest : list lexeme) : Prop := {
  en_op : ∀ o, binaryOp (head_tok rest) = Some o → (priority o).1 ≤ r;
  en_suffix : suffix_tok (head_tok rest) = false
}.

Section expressions.
Context `{GoMath} (expression : parsing exprDesc) (subExpression : Z → parsing (exprDesc * option binary)) (body : bool → Z → parsing exprDesc).

Lemma suffixes_none p s f d ls ln e k : reads s ls → suffix_tok (head_tok ls) = false → (0 < k)%nat →
  suffixes expression k ln e (pst p s f d) = Ok (e, pst p s f d).
Proof.
  intros Hr Hs Hk. destruct k as [|k]; [lia|]. cbn [suffixes]. rewrite (pbind_tok _ _ _ _ _ _ Hr). unfold suffix_tok in Hs.
  repeat (apply orb_false_elim in Hs as [Hs ?]). by repeat match goal with E : (head_tok ls =? _) = false |- _ => rewrite E; clear E end.
Qed.

Lemma simple_number p s f d ip fp x ls : reads s (LNum ip fp x :: ls) →
  ∃ s', simpleExpression expression body (pst p s f d) = Ok (e_number x (makeExpression kindNumber 0), pst p s' f d) ∧ reads s' ls.
Proof.
  intros Hr. destruct (next_ok p s f d _ _ Hr) as (s' & E & Hr'). exists s'. split; [|done]. unfold simpleExpression.
  rewrite (pbind_tok _ _ _ _ _ _ Hr). cbv zeta. change (head_tok (LNum ip fp x :: ls)) with tkNumber. rewrite Z.eqb_refl.
  erewrite pbind; [erewrite pbind by exact E; reflexivity|]. rewrite pbind_getp. unfold tok_n. cbn [scn pst]. by rewrite (rd_tok _ _ Hr).
Qed.

Lemma simple_name p s f d names x i ls : reads s (LName x :: ls) → names_ok p f names → last_index (length names) names x = Some i →
  suffix_tok (head_tok ls) = false →
  ∃ s', simpleExpression expression body (pst p s f d) = Ok (makeExpression kindLocal (Z.of_nat i), pst p s' f d) ∧ reads s' ls.
Proof.
  intros Hr Hok Hi Hs. destruct (singleVariable_ok p s f d names x i ls Hr Hok Hi) as (s' & E & Hr'). exists s'. split; [|done].
  unfold simpleExpression. rewrite (pbind_tok _ _ _ _ _ _ Hr). change (head_tok (LName x :: ls)) with tkName.
  change (suffixedExpression expression (pst p s f d) = Ok (makeExpression kindLocal (Z.of_nat i), pst p s' f d)). unfold suffixedExpression. rewrite pbind_getp.
  erewrite pbind.
  2: { unfold primaryExpression. rewrite (pbind_tok _ _ _ _ _ _ Hr). change (head_tok (LName x :: ls)) with tkName.
       etransitivity; [|exact E]. reflexivity. }
  destruct (tokens_left_ok p s' f d ls (λ k, suffixes expression k (line (pst p s f d)) (makeExpression kindLocal (Z.of_nat i))) Hr') as (k & -> & Hk).
  apply (suffixes_none _ _ _ _ ls); [done|done|lia].
Qed.

Lemma simple_parens p s f d ls : reads s (LChar "(" :: ls) →
  ∃ s1, reads s1 ls ∧ ∀ e e' s2 f2 rest, expression (pst p s1 f d) = Ok (e, pst p s2 f2 d) → reads s2 (LChar ")" :: rest) →
    (∀ q, DischargeVariables e q = Ok (e', q)) → suffix_tok (head_tok rest) = false →
    ∃ s', simpleExpression expression body (pst p s f d) = Ok (e', pst p s' f2 d) ∧ reads s' rest.
Proof.
  intros Hr. destruct (next_ok p s f d _ _ Hr) as (s1 & E1 & Hr1). exists s1. split; [done|]. intros e e' s2 f2 rest E2 Hr2 E3 Hs.
  destruct (checkMatch_ok p s2 f2 d _ _ (tk_char "(") (line (pst p s f d)) Hr2) as (s' & E4 & Hr'). exists s'. split; [|done].
  unfold simpleExpression. rewrite (pbind_tok _ _ _ _ _ _ Hr). change (head_tok (LChar "(" :: ls)) with (tk_char "(").
  change (suffixedExpression expression (pst p s f d) = Ok (e', pst p s' f2 d)). unfold suffixedExpression. rewrite pbind_getp.
  erewrite pbind.
  2: { unfold primaryExpression. rewrite (pbind_tok _ _ _ _ _ _ Hr). change (head_tok (LChar "(" :: ls)) with (tk_char "(").
       rewrite Z.eqb_refl, pbind_getp. erewrite pbind by exact E1. erewrite pbind by exact E2.
       change (tk_char ")") with (tk_t (token_of (LChar ")"))). erewrite pbind by exact E4. apply E3. }
  destruct (tokens_left_ok p s' f2 d rest (λ k, suffixes expression k (line (pst p s f d)) e') Hr') as (k & -> & Hk).
  apply (suffixes_none _ _ _ _ rest); [done|done|lia].
Qed.
End expressions.

(** ** Operators *)

Section operators.
Context `{GoMath} (expression : parsing exprDesc) (subExpression : Z → parsing (exprDesc * option binary)) (body : bool → Z → parsing exprDesc).

(** The rest of [subExpression], once [e] has been read. *)
Definition operators (k : nat) (l : Z) (e : exprDesc) (rest : list lexeme) : parsing (exprDesc * option binary) :=
  r ← operators_loop subExpression k l e (binaryOp (head_tok rest)); _ ← leaveLevel; mret r.

Lemma enter_ok {B} p s f d (g : unit → parsing B) : d + 1 ≤ maxCallCount → (enterLevel ≫= g) (pst p s f d) = g () (pst p s f (d + 1)).
Proof.
  intros Hd. apply pbind. unfold enterLevel. unfold modifyp. erewrite (pbind _ _ _ () (pst p s f (d + 1))) by done.
  rewrite pbind_getp. cbn [nestedGoCallCount pst]. unfold checkLimit. by assert ((maxCallCount <? d + 1) = false) as -> by (apply Z.ltb_ge; lia).
Qed.

Lemma pbind_eq {A B} (m m' : parsing A) (g : A → parsing B) p p' : m p = m' p' → (m ≫= g) p = (m' ≫= g) p'.
Proof. intros E. unfold mbind, parsing_bind. by rewrite E. Qed.

Lemma operators_ok p s f d ls l e : reads s ls →
  ∃ kf, (t ← getp tok; n ← tokens_left; r ← operators_loop subExpression n l e (binaryOp t); _ ← leaveLevel; mret r) (pst p s f d) =
    operators kf l e ls (pst p s f d) ∧ (length ls < kf)%nat.
Proof.
  intros Hr. rewrite (pbind_tok _ _ _ _ _ _ Hr).
  destruct (tokens_left_ok p s f d ls (λ n, r ← operators_loop subExpression n l e (binaryOp (head_tok ls)); _ ← leaveLevel; mret r) Hr) as (kf & E & Hk).
  by exists kf.
Qed.

(** What is read begins with an operand, or with a sign. *)
Lemma sub_simple p s f d ls l e s' f' rest : d + 1 ≤ maxCallCount → reads s ls → unaryOp (head_tok ls) = None →
  simpleExpression expression body (pst p s f (d + 1)) = Ok (e, pst p s' f' (d + 1)) → reads s' rest →
  ∃ kf, sub_expression expression subExpression body l (pst p s f d) = operators kf l e rest (pst p s' f' (d + 1)) ∧ (length rest < kf)%nat.
Proof.
  intros Hd Hr Hu E Hr'. unfold sub_expression. rewrite enter_ok by done. rewrite (pbind_tok _ _ _ _ _ _ Hr), Hu. erewrite pbind by exact E.
  destruct (operators_ok p s' f' (d + 1) rest l e Hr') as (kf & E' & Hk). by exists kf.
Qed.
Lemma sub_minus p s f d ls l : d + 1 ≤ maxCallCount → reads s (LChar "-" :: ls) →
  ∃ s1 ln, reads s1 ls ∧ ∀ e op s2 f2 e' f' rest,
    subExpression unaryPriority (pst p s1 f (d + 1)) = Ok (e, op, pst p s2 f2 (d + 1)) →
    Prefix oprMinus e ln (pst p s2 f2 (d + 1)) = Ok (e', pst p s2 f' (d + 1)) → reads s2 rest →
    ∃ kf, sub_expression expression subExpression body l (pst p s f d) = operators kf l e' rest (pst p s2 f' (d + 1)) ∧ (length rest < kf)%nat.
Proof.
  intros Hd Hr. destruct (next_ok p s f (d + 1) _ _ Hr) as (s1 & E1 & Hr1). exists s1, (line (pst p s f (d + 1))). split; [done|].
  intros e op s2 f2 e' f' rest E2 E3 Hr2. unfold sub_expression. rewrite enter_ok by done. rewrite (pbind_tok _ _ _ _ _ _ Hr).
  change (unaryOp (head_tok (LChar "-" :: ls))) with (Some oprMinus). cbn iota.
  erewrite pbind. 2: { rewrite pbind_getp. erewrite pbind by exact E1. erewrite pbind by exact E2. exact E3. }
  destruct (operators_ok p s2 f' (d + 1) rest l e' Hr2) as (kf & E' & Hk). by exists kf.
Qed.

(** The loop: an operator above the limit, and the end. *)
Lemma binaryOp_char o ls : binaryOp (head_tok (LChar (op_char o) :: ls)) = Some (binary_of o).
Proof. by destruct o. Qed.
Lemma operators_more p s f d o ls k l e : reads s (LChar (op_char o) :: ls) → l < left_priority o →
  ∃ s1 ln, reads s1 ls ∧ ∀ e1 f1 e2 f2 s2 e' f' rest,
    Infix (binary_of o) e (pst p s1 f d) = Ok (e1, pst p s1 f1 d) →
    subExpression (right_priority o) (pst p s1 f1 d) = Ok (e2, binaryOp (head_tok rest), pst p s2 f2 d) →
    Postfix (binary_of o) e1 e2 ln (pst p s2 f2 d) = Ok (e', pst p s2 f' d) →
    operators (S k) l e (LChar (op_char o) :: ls) (pst p s f d) = operators k l e' rest (pst p s2 f' d).
Proof.
  intros Hr Hl. destruct (next_ok p s f d _ _ Hr) as (s1 & E1 & Hr1). exists s1, (line (pst p s f d)). split; [done|].
  intros e1 f1 e2 f2 s2 e' f' rest E2 E3 E4. unfold operators. rewrite binaryOp_char. cbn [operators_loop].
  unfold left_priority in Hl. assert ((l <? (priority (binary_of o)).1) = true) as -> by (by apply Z.ltb_lt).
  apply pbind_eq. rewrite pbind_getp. erewrite pbind by exact E1. erewrite pbind by exact E2. erewrite pbind by exact E3. cbv beta iota. by erewrite pbind by exact E4.
Qed.
Lemma operators_end p s f d k l e rest : (0 < k)%nat → (∀ o, binaryOp (head_tok rest) = Some o → (priority o).1 ≤ l) →
  operators k l e rest (pst p s f d) = Ok (e, binaryOp (head_tok rest), pst p s f (d - 1)).
Proof.
  intros Hk Hl. destruct k as [|k]; [lia|]. unfold operators. erewrite (pbind _ _ _ (e, binaryOp (head_tok rest)) (pst p s f d)); [reflexivity|].
  cbn [operators_loop]. destruct (binaryOp (head_tok rest)) as [o|]; [|done].
  assert ((l <? (priority o).1) = false) as -> by (apply Z.ltb_ge; by apply Hl). done.
Qed.
End operators.

(** ** The descent *)

Section descent.
Context `{GoMath} (names : list bytes) (vals : list float64).
Notation na := (Z.of_nat (length vals)).

Definition is_constant (e : aexpr) : bool := match constant e with Some _ => true | None => false end.

Lemma aeval_constant e x : constant e = Some x → aeval names vals e = Some x.
Proof. intros Hc. by destruct e; cbn [aeval]; rewrite Hc. Qed.

Lemma aeval_neg a x : aeval names vals (ANeg a) = Some x → ∃ y, aeval names vals a = Some y ∧ x = SFopp y ∧ is_constant (ANeg a) = is_constant a.
Proof.
  unfold is_constant. simpl. destruct (constant a) as [y|] eqn:Ea; simpl.
  - intros [= <-]. exists y. by rewrite (aeval_constant _ _ Ea).
  - intros (y & Hy & ->)%fmap_Some. by exists y.
Qed.

Lemma aeval_bin o a b x : aeval names vals (ABin o a b) = Some x →
  ∃ y z, aeval names vals a = Some y ∧ aeval names vals b = Some z ∧
    is_constant (ABin o a b) = is_constant a && is_constant b && negb (refuses_zero o && feq z fzero) ∧
    x = operator_value o (is_constant (ABin o a b)) y z.
Proof.
  unfold is_constant. simpl. destruct (constant a) as [y|] eqn:Ea; [destruct (constant b) as [z|] eqn:Eb|].
  - rewrite (aeval_constant _ _ Ea), (aeval_constant _ _ Eb). simpl. intros Hx. exists y, z. split_and!; try done.
    + by destruct (_ && _).
    + destruct (_ && _); simpl in *; congruence.
  - rewrite (aeval_constant _ _ Ea). simpl. intros (z & Hz & [= <-])%bind_Some. by exists y, z.
  - intros (y & Hy & (z & Hz & [= <-])%bind_Some)%bind_Some. by exists y, z.
Qed.

(** What reading the expression leaves: code after [C] that computes it. *)
Definition compiled_to (f : function) (C : list Z) (k : Z) (e : aexpr) (x : float64) (f' : function) (e' : exprDesc) (n : Z) (D : list Z) : Prop :=
  ∃ c, becomes f f' (C ++ D) n c ∧ (c + cost e' ≤ numerals e)%nat ∧
    denotes vals C (constants f') (max_stack f') k x e' n D ∧ is_number e' = is_constant e.

Record ready (p : parser) (s : scanner) (f : function) (d N : Z) (e : aexpr) (l r k : Z) (C : list Z) (ls : list lexeme) : Prop := {
  rdy_reads : reads s ls;
  rdy_names : names_ok p f names;
  rdy_code : at_code vals f C k;
  rdy_locals : na ≤ k;
  rdy_registers : k + temporaries e ≤ 253;
  rdy_constants : (length (constants f) + numerals e ≤ 256)%nat;
  rdy_depth : d + 1 + nesting l r e ≤ maxCallCount;
  rdy_fuel : nesting l r e ≤ N
}.

Definition sub (N : nat) (body : bool → Z → parsing exprDesc) (l : Z) : parsing (exprDesc * option binary) :=
  sub_expression (n_expression (grammar N)) (n_subExpression (grammar N)) body l.

(** Reading [write_expr l r e] comes to the loop over the operators after it. *)
Definition reads_as (e : aexpr) (l r : Z) : Prop := ∀ p s f d N body rest C k x,
  ready p s f d (Z.of_nat N) e l r k C (write_expr l r e ++ rest) → ends r rest → aeval names vals e = Some x →
  ∃ kf s' f' e' n D, sub N body l (pst p s f d) = operators (n_subExpression (grammar N)) kf l e' rest (pst p s' f' (d + 1)) ∧
    (length rest < kf)%nat ∧ reads s' rest ∧ compiled_to f C k e x f' e' n D.

(** The whole, when the operator after it is not above the limit. *)
Lemma reads_whole e l r p s f d N rest C k x : reads_as e l r → (∀ o, binaryOp (head_tok rest) = Some o → (priority o).1 ≤ l) →
  ready p s f d (Z.of_nat N) e l r k C (write_expr l r e ++ rest) → ends r rest → aeval names vals e = Some x →
  ∃ s' f' e' n D, n_subExpression (grammar (S N)) l (pst p s f d) = Ok (e', binaryOp (head_tok rest), pst p s' f' d) ∧
    reads s' rest ∧ compiled_to f C k e x f' e' n D.
Proof.
  intros He Hl Hr Hends Hx. destruct (He p s f d N (n_body (grammar N)) rest C k x Hr Hends Hx) as (kf & s' & f' & e' & n & D & E & Hkf & Hr' & Hc).
  exists s', f', e', n, D. split; [|done]. change (n_subExpression (grammar (S N)) l) with (sub N (n_body (grammar N)) l).
  rewrite E, operators_end by (first [done|lia]). by replace (d + 1 - 1) with d by lia.
Qed.

Lemma temporaries_pos e : 1 ≤ temporaries e.
Proof. induction e; simpl; lia. Qed.
Lemma nesting_pos l r e : 0 ≤ nesting l r e.
Proof. revert l r. induction e as [| |a IH|o a IHa b IHb]; intros l r; simpl; try done; [pose proof (IH unaryPriority r); pose proof (IH unaryPriority 0)|pose proof (IHa l (left_priority o)); pose proof (IHb (right_priority o) r); pose proof (IHa 0 (left_priority o)); pose proof (IHb (right_priority o) 0)]; case_match; lia. Qed.

Lemma number_reads ip fp y l r : reads_as (ANum ip fp y) l r.
Proof.
  intros p s f d N body rest C k x [Hr Hn Hat Hk Ht Hc Hd HN] Hends [= <-].
  destruct (simple_number (n_expression (grammar N)) body p s f (d + 1) ip fp y rest Hr) as (s' & E & Hr'). simpl in *.
  destruct (sub_simple (n_expression (grammar N)) (n_subExpression (grammar N)) body p s f d _ l _ s' f rest ltac:(lia) Hr ltac:(done) E Hr') as (kf & E' & Hkf).
  exists kf, s', f, (e_number y (makeExpression kindNumber 0)), k, []. split_and!; [done|done|done|]. exists 0%nat.
  rewrite app_nil_r. split_and!; [by apply same_code with vals|by rewrite cost_number|by apply den_number|done].
Qed.
Lemma name_reads y l r : reads_as (AVar y) l r.
Proof.
  intros p s f d N body rest C k x [Hr Hn Hat Hk Ht Hc Hd HN] Hends Hx. simpl in Hx. apply bind_Some in Hx as (i & Hi & Hx).
  destruct (simple_name (n_expression (grammar N)) body p s f (d + 1) names y i rest Hr Hn Hi) as (s' & E & Hr'); [by destruct Hends|]. simpl in *.
  destruct (sub_simple (n_expression (grammar N)) (n_subExpression (grammar N)) body p s f d _ l _ s' f rest ltac:(lia) Hr ltac:(done) E Hr') as (kf & E' & Hkf).
  exists kf, s', f, (makeExpression kindLocal (Z.of_nat i)), k, []. split_and!; [done|done|done|]. exists 0%nat.
  rewrite app_nil_r. split_and!; [by apply same_code with vals|done|apply den_local; [done|done|simpl; lia|simpl; by rewrite Nat2Z.id]|done].
Qed.

(** A sign, followed by what binds tighter. *)
Lemma sign_reads a l r : r ≤ unaryPriority → reads_as a unaryPriority r → reads_as (ANeg a) l r.
Proof.
  intros Hr8 Ha p s f d N body rest C k x [Hr Hn Hat Hk Ht Hc Hd HN] Hends Hx.
  destruct (aeval_neg _ _ Hx) as (y & Hy & -> & Hconst). simpl in *. assert ((r <=? unaryPriority) = true) as E8 by by apply Z.leb_le.
  rewrite E8 in *. pose proof (nesting_pos unaryPriority r a). destruct N as [|N]; [lia|].
  destruct (sub_minus (n_expression (grammar (S N))) (n_subExpression (grammar (S N))) body p s f d _ l ltac:(lia) Hr) as (s1 & ln & Hr1 & Hgo).
  destruct (reads_whole a unaryPriority r p s1 f (d + 1) N rest C k y Ha) as (s2 & f2 & e2 & n2 & D2 & E2 & Hr2 & c & B2 & Hc2 & Hd2 & Hnum); [..|done|].
  { intros o Ho. pose proof (en_op _ _ Hends o Ho). lia. }
  { split; try done; lia. } { done. }
  pose proof (at_becomes _ _ _ _ _ _ _ _ Hat B2) as Hat2. pose proof (bc_count _ _ _ _ _ B2).
  destruct (prefix_ok vals C k y e2 n2 D2 ln (pst p s2 f2 (d + 1)) Hd2 Hat2 Hk) as (f' & e' & n' & D' & E3 & B3 & Hd3 & Hnum3);
    [pose proof (temporaries_pos a); lia|cbn [fn pst]; lia|].
  destruct (Hgo e2 _ s2 f2 e' f' rest E2 E3 Hr2) as (kf & E & Hkf).
  exists kf, s2, f', e', n', D'. split_and!; [done|done|done|]. exists (c + 0)%nat. cbn [fn pst] in *.
  split_and!; [exact (becomes_trans _ _ _ _ _ _ _ _ _ B2 B3)| |done|congruence]. unfold cost in *. cbn [numerals]. rewrite Hnum3. lia.
Qed.

(** Two operands; the first is read by the loop that goes on with the operator. *)
Lemma binary_reads o a b l r : l < left_priority o → r ≤ right_priority o → reads_as a l (left_priority o) → reads_as b (right_priority o) r →
  reads_as (ABin o a b) l r.
Proof.
  intros Hl Hr9 Ha Hb p s f d N body rest C k x [Hr Hn Hat Hk Ht Hc Hd HN] Hends Hx.
  destruct (aeval_bin _ _ _ _ Hx) as (y & z & Hy & Hz & Hconst & ->). cbn [write_expr nesting temporaries numerals] in *.
  assert ((l <? left_priority o) && (r <=? right_priority o) = true) as Ew by (apply andb_true_intro; split; [by apply Z.ltb_lt|by apply Z.leb_le]).
  rewrite Ew in *. rewrite <- app_assoc in Hr. pose proof (nesting_pos (right_priority o) r b). destruct N as [|N]; [lia|].
  pose proof (temporaries_pos a). pose proof (temporaries_pos b).
  destruct (Ha p s f d (S N) body (LChar (op_char o) :: write_expr (right_priority o) r b ++ rest) C k y)
    as (kf & s1 & f1 & e1 & n1 & D1 & E1 & Hkf & Hr1 & c1 & B1 & Hc1 & Hd1 & Hnum1); [by split; try done; lia| |done|].
  { split; [|by destruct o]. intros o' Ho'. rewrite binaryOp_char in Ho'. by injection Ho' as <-. }
  destruct kf as [|kf]; [lia|]. pose proof (at_becomes _ _ _ _ _ _ _ _ Hat B1) as Hat1. pose proof (bc_count _ _ _ _ _ B1).
  destruct (operators_more (n_subExpression (grammar (S N))) p s1 f1 (d + 1) o _ kf l e1 Hr1 Hl) as (s2 & ln & Hr2 & Hgo).
  destruct (infix_ok vals C k y e1 n1 D1 o (pst p s2 f1 (d + 1)) Hd1 Hat1 Hk) as (f2 & e2 & n2 & D2 & E2 & B2 & Hl2 & Hnum2 & Hn2);
    [lia|cbn [fn pst]; lia|]. cbn [fn pst] in *. pose proof (at_becomes _ _ _ _ _ _ _ _ Hat1 B2) as Hat2. pose proof (bc_count _ _ _ _ _ B2).
  destruct (reads_whole b (right_priority o) r p s2 f2 (d + 1) N rest (C ++ D2) n2 z Hb) as (s3 & f3 & e3 & n3 & D3 & E3 & Hr3 & c3 & B3 & Hc3 & Hd3 & Hnum3).
  { intros o' Ho'. pose proof (en_op _ _ Hends o' Ho'). lia. }
  { split; try done; [|lia..]. eapply names_becomes; [by eapply names_becomes|done]. } { done. } { done. }
  pose proof (at_becomes _ _ _ _ _ _ _ _ Hat2 B3) as Hat3. rewrite <- app_assoc in Hat3. pose proof (bc_count _ _ _ _ _ B3).
  assert (cost e2 = cost e1) as Hcost by (unfold cost; by rewrite Hnum2).
  destruct (postfix_ok vals C k n2 n3 D2 D3 y z e2 e3 o ln (pst p s3 f3 (d + 1)) Hk) as (f' & e' & D' & c' & E4 & B4 & Hc4 & Hd4 & Hnum4);
    [lia|done|cbn [fn pst]; lia| |done|].
  { destruct Hl2 as [?|[oo Ho]]; [by left|right]. exists oo. eapply operand_more; [exact (bc_consts _ _ _ _ _ B3)|exact (bc_max _ _ _ _ _ B3)|done]. }
  exists kf, s3, f', e', k, D'. assert (folds o e2 e3 z = is_constant (ABin o a b)) as Efold by (unfold folds; congruence).
  split_and!; [|rewrite length_cons, length_app in Hkf; lia|done|].
  - rewrite E1. by apply (Hgo e2 f2 e3 f3 s3 e' f' rest).
  - exists (c1 + (0 + (c3 + c')))%nat. cbn [fn pst] in *. split_and!; [|cbn [numerals]; lia|by rewrite Efold in Hd4|congruence].
    rewrite <- app_assoc in B3. exact (becomes_trans _ _ _ _ _ _ _ _ _ B1 (becomes_trans _ _ _ _ _ _ _ _ _ B2 (becomes_trans _ _ _ _ _ _ _ _ _ B3 B4))).
Qed.

Lemma discharge_always C K m k x e n D (p : parser) : denotes vals C K m k x e n D →
  ∃ e', (∀ q, DischargeVariables e q = Ok (e', q)) ∧ denotes vals C K m k x e' n D ∧ is_number e' = is_number e.
Proof.
  intros Hd. destruct (discharge_variables vals _ _ _ _ _ _ _ _ p Hd) as (e' & E & Hd' & _ & Hnum & Heq). exists e'. split_and!; [|done|done].
  intros q. destruct (decide (e_kind e = kindLocal)) as [Hl|Hl].
  - unfold DischargeVariables in *. rewrite Hl in *. injection E as <-. done.
  - destruct (discharge_variables vals _ _ _ _ _ _ _ _ q Hd) as (e2 & E2 & _ & _ & _ & Heq2). by rewrite E2, Heq2, Heq.
Qed.

(** In parentheses. *)
Lemma parens_read e l r : write_expr l r e = LChar "(" :: write_expr 0 0 e ++ [LChar ")"] → nesting l r e = 1 + nesting 0 0 e → reads_as e 0 0 → reads_as e l r.
Proof.
  intros Hw Hnest He p s f d N body rest C k x [Hr Hn Hat Hk Ht Hc Hd HN] Hends Hx. rewrite Hw, Hnest in *.
  pose proof (nesting_pos 0 0 e). destruct N as [|N]; [lia|]. cbn [app] in Hr. rewrite <- app_assoc in Hr.
  destruct (simple_parens (n_expression (grammar (S N))) body p s f (d + 1) _ Hr) as (s1 & Hr1 & Hgo).
  destruct (reads_whole e 0 0 p s1 f (d + 1) N (LChar ")" :: rest) C k x He) as (s2 & f2 & e2 & n2 & D2 & E2 & Hr2 & c & B2 & Hc2 & Hd2 & Hnum2);
    [done|by split; try done; lia|done|done|].
  destruct (discharge_always _ _ _ _ _ _ _ _ p Hd2) as (e3 & E3 & Hd3 & Hnum3).
  destruct (Hgo e2 e3 s2 f2 rest) as (s' & E & Hr'); [|done|done|by destruct Hends|].
  { unfold n_expression. by erewrite pbind by exact E2. }
  destruct (sub_simple (n_expression (grammar (S N))) (n_subExpression (grammar (S N))) body p s f d _ l _ s' f2 rest ltac:(lia) Hr ltac:(done) E Hr') as (kf & E' & Hkf).
  exists kf, s', f2, e3, n2, D2. split_and!; [done|done|done|]. exists c. split_and!; [done| |done|congruence].
  unfold cost in *. by rewrite Hnum3.
Qed.

Lemma expression_reads e l r : reads_as e l r.
Proof.
  revert l r. induction e as [ip fp y|y|a IH|o a IHa b IHb]; intros l r; [apply number_reads|apply name_reads| |].
  - destruct (Z.le_gt_cases r unaryPriority) as [Hr|Hr]; [by apply sign_reads|].
    assert ((r <=? unaryPriority) = false) as E by by apply Z.leb_gt.
    apply parens_read; [cbn [write_expr]; by rewrite E|cbn [nesting]; rewrite E; change (0 <=? unaryPriority) with true; cbn iota; lia|]. by apply sign_reads.
  - destruct ((l <? left_priority o) && (r <=? right_priority o)) eqn:E.
    + apply andb_prop in E as [E1%Z.ltb_lt E2%Z.leb_le]. by apply binary_reads.
    + apply parens_read; [cbn [write_expr]; rewrite E; by destruct o|cbn [nesting]; rewrite E; by destruct o|].
      apply binary_reads; try done; by destruct o.
Qed.
End descent.
