(* ===== verification/LuaStraight.v ===== *)
(** * Reading straight-line programs

    Statements that bind a local variable, and the one that returns: the prototype of a
    whole text. *)
From Stdlib Require Import ZArith Lia Ascii.
From stdpp Require Import base option list gmap strings.
From S2P Require Import Prelude GoNum GoFmt Strconv LuaInstr LuaTable LuaScan LuaTokens LuaProto LuaCode LuaParser LuaVM LuaVMFacts LuaArith LuaGen LuaReads.
From Stdlib Require Import SpecFloat.

(** ** The scope of a main function *)

(** Its variables are the names, in their order; [later] have been made, but are not yet
    in scope. *)
Record scope (p : parser) (f : function) (names later : list bytes) : Prop := {
  sc_count : activeVariableCount f = Z.of_nat (length names);
  sc_first : firstLocal f = 0;
  sc_indices : activeVariables p = map Z.of_nat (seq 0 (length (names ++ later)));
  sc_names : map lv_name (p_localVariables (proto f)) = map to_string (names ++ later)
}.

Lemma scope_local p f names later i x : scope p f names later → (names ++ later) !! i = Some x →
  ∃ v, LocalVariable p f (Z.of_nat i) = Ok v ∧ lv_name v = to_string x ∧ p_localVariables (proto f) !! i = Some v ∧ slot_of p f (Z.of_nat i) = Ok (Z.of_nat i).
Proof.
  intros [H1 H2 H3 H4] Hx. pose proof (lookup_lt_Some _ _ _ Hx).
  assert (map lv_name (p_localVariables (proto f)) !! i = Some (to_string x)) as Hn by (rewrite H4, list_lookup_fmap, Hx; done).
  rewrite list_lookup_fmap in Hn. apply fmap_Some in Hn as (v & Hv & Hn).
  assert (slot_of p f (Z.of_nat i) = Ok (Z.of_nat i)) as Hs.
  { unfold slot_of. rewrite H2, H3. apply slice_at_ok; [lia|]. rewrite Z.add_0_l, Nat2Z.id, list_lookup_fmap, lookup_seq_lt by lia. done. }
  exists v. split_and!; [|done|done|done]. unfold LocalVariable. rewrite Hs. cbn [mbind outcome_bind]. apply slice_at_ok; [lia|]. by rewrite Nat2Z.id.
Qed.
Lemma scope_names p f names later : scope p f names later → names_ok p f names.
Proof.
  intros Hs. split; [apply Hs|]. intros i x Hx. destruct (scope_local p f names later i x Hs) as (v & H1 & H2 & _); [|by exists v].
  by apply lookup_app_l_Some.
Qed.
Lemma scope_becomes p f f' names later C n c : scope p f names later → becomes f f' C n c → scope p f' names later.
Proof.
  intros [H1 H2 H3 H4] Hb. pose proof (bc_others _ _ _ _ _ Hb) as E. unfold others in E. injection E as E1 E2 E3 E4 E5 E6 E7 E8 E9.
  split; congruence.
Qed.

(** [f'] is [f] but for its variables. *)
Definition same_but_locals (f f' : function) : Prop :=
  f_code f' = f_code f ∧ p_lineInfo (proto f') = p_lineInfo (proto f) ∧ constants f' = constants f ∧ constantLookup f' = constantLookup f ∧
  max_stack f' = max_stack f ∧ freeRegisterCount f' = freeRegisterCount f ∧ jumpPC f' = jumpPC f ∧ blocks f' = blocks f ∧
  p_upValues (proto f') = p_upValues (proto f) ∧ p_prototypes (proto f') = p_prototypes (proto f) ∧
  p_parameterCount (proto f') = p_parameterCount (proto f) ∧ p_isVarArg (proto f') = p_isVarArg (proto f).

Lemma make_local_ok p s f d names x : scope p f names [] → (length names < 200)%nat →
  ∃ p' f', MakeLocalVariable (to_string x) (pst p s f d) = Ok ((), pst p' s f' d) ∧ scope p' f' names [x] ∧
    same_but_locals f f' ∧ activeVariableCount f' = activeVariableCount f ∧ pendingGotos p' = pendingGotos p ∧ activeLabels p' = activeLabels p.
Proof.
  intros [H1 H2 H3 H4] Hn. rewrite app_nil_r in *.
  assert (length (p_localVariables (proto f)) = length names) as Hl by (apply (f_equal length) in H4; by rewrite !length_map in H4).
  unfold MakeLocalVariable. rewrite pbind_getf, pbind_modifyf, pbind_getp, pbind_getf. cbn [fn set_fn pst].
  erewrite (pbind _ _ _ ()).
  2: { unfold checkLimit. cbn [firstLocal set_localVariables set_proto activeVariables pst set_fn]. rewrite H2, H3, length_map, length_seq.
       assert ((maxLocalVariables <? Z.of_nat (length names) + 1 - 0) = false) as -> by (apply Z.ltb_ge; unfold maxLocalVariables; lia). reflexivity. }
  eexists (set_activeVariables (activeVariables p ++ [Z.of_nat (length (p_localVariables (proto f)))]) p), _.
  split; [reflexivity|]. split; [|done]. split; [done|done| |].
  - cbn [activeVariables set_activeVariables]. rewrite H3, Hl, length_app. cbn [length]. rewrite Nat.add_1_r, seq_S, map_app. done.
  - simpl. rewrite !map_app. by rewrite H4.
Qed.

Lemma change_local_ok p s f d names later i x g : scope p f names later → (names ++ later) !! i = Some x → (∀ v, lv_name (g v) = lv_name v) →
  ∃ f', change_local (Z.of_nat i) g (pst p s f d) = Ok ((), pst p s f' d) ∧ scope p f' names later ∧
    same_but_locals f f' ∧ activeVariableCount f' = activeVariableCount f.
Proof.
  intros Hs Hx Hg. destruct (scope_local p f names later i x Hs Hx) as (v & E1 & E2 & E3 & E4). unfold change_local.
  change (slot_of (pst p s f d) (fn (pst p s f d)) (Z.of_nat i)) with (slot_of p f (Z.of_nat i)). rewrite E4. cbn [mbind outcome_bind fn pst].
  pose proof (lookup_lt_Some _ _ _ E3).
  rewrite (slice_at_ok _ _ v) by (first [lia|by rewrite Nat2Z.id]). cbn [mbind outcome_bind]. rewrite slice_put_ok by lia. cbn [mbind outcome_bind].
  eexists. split; [reflexivity|]. split; [|done]. destruct Hs as [H1 H2 H3 H4]. split; [done|done|done|].
  simpl. rewrite Nat2Z.id, <- H4. apply list_eq. intros j. rewrite !list_lookup_fmap. destruct (decide (i = j)) as [<-|Hne].
  - rewrite list_lookup_insert_eq by done. rewrite E3. simpl. by rewrite Hg.
  - by rewrite list_lookup_insert_ne.
Qed.

Lemma same_but_refl f : same_but_locals f f.
Proof. done. Qed.
Lemma same_but_trans f g h : same_but_locals f g → same_but_locals g h → same_but_locals f h.
Proof. unfold same_but_locals. intros H1 H2. destruct_and!. split_and!; congruence. Qed.
Lemma same_but_ok f f' : same_but_locals f f' → fn_ok f → 0 ≤ activeVariableCount f' ≤ freeRegisterCount f → fn_ok f'.
Proof.
  intros Hs [O1 O2 O3 O4 O5] Ha. unfold same_but_locals, f_code, constants, max_stack in *. destruct_and!. split; unfold f_code, constants, max_stack in *; [congruence|congruence| | |congruence].
  - intros k i. repeat match goal with E : _ = _ |- _ => rewrite E end. apply O3.
  - repeat match goal with E : _ f' = _ |- _ => rewrite E end. repeat match goal with E : _ (proto f') = _ |- _ => rewrite E end. lia.
Qed.

Lemma each_local_ok p s d names later n i f g : scope p f names later → (i + n ≤ length (names ++ later))%nat → (∀ v, lv_name (g v) = lv_name v) →
  ∃ f', each_local n (Z.of_nat i) g (pst p s f d) = Ok ((), pst p s f' d) ∧ scope p f' names later ∧
    same_but_locals f f' ∧ activeVariableCount f' = activeVariableCount f.
Proof.
  intros Hs Hn Hg. revert i f Hs Hn. induction n as [|n IH]; intros i f Hs Hn; [by exists f|].
  destruct (lookup_lt_is_Some_2 (names ++ later) i ltac:(lia)) as [x Hx].
  destruct (change_local_ok p s f d names later i x g Hs Hx Hg) as (f1 & E1 & S1 & B1 & A1). cbn [each_local]. erewrite pbind by exact E1.
  replace (Z.of_nat i + 1) with (Z.of_nat (S i)) by lia.
  destruct (IH (S i) f1 S1 ltac:(lia)) as (f2 & E2 & S2 & B2 & A2). exists f2.
  split_and!; [done|done|by eapply same_but_trans|congruence].
Qed.

(** The variable that has been made comes into scope. *)
Lemma adjust_ok p s f d names x : scope p f names [x] →
  ∃ f', AdjustLocalVariables 1 (pst p s f d) = Ok ((), pst p s f' d) ∧ scope p f' (names ++ [x]) [] ∧ same_but_locals f f'.
Proof.
  intros Hs. unfold AdjustLocalVariables. rewrite pbind_getf, pbind_modifyf. unfold clen. rewrite pbind_getf. cbn [fn pst set_fn].
  set (f1 := set_active (activeVariableCount f + 1) f).
  assert (scope p f1 (names ++ [x]) []) as Hs1.
  { destruct Hs as [H1 H2 H3 H4]. rewrite <- (app_nil_r (names ++ [x])) in H3, H4. split; [|done|done|done].
    simpl. rewrite H1, length_app. simpl. lia. }
  change (Z.to_nat 1) with 1%nat. rewrite (sc_count _ _ _ _ Hs).
  destruct (each_local_ok p s d (names ++ [x]) [] 1 (length names) f1 (set_start (code_len f1)) Hs1) as (f2 & E & S2 & B2 & _);
    [rewrite !length_app; simpl; lia|done|]. by exists f2.
Qed.

(** ** A variable is bound *)

(** What code between statements does not change. *)
Definition kept (f f' : function) : Prop :=
  blocks f' = blocks f ∧ p_upValues (proto f') = p_upValues (proto f) ∧ p_prototypes (proto f') = p_prototypes (proto f) ∧
  p_parameterCount (proto f') = p_parameterCount (proto f) ∧ p_isVarArg (proto f') = p_isVarArg (proto f).
Lemma kept_trans f g h : kept f g → kept g h → kept f h.
Proof. unfold kept. intros H1 H2. destruct_and!. split_and!; congruence. Qed.
Lemma same_kept f f' : same_but_locals f f' → kept f f'.
Proof. unfold same_but_locals, kept. intros H. destruct_and!. done. Qed.
Lemma becomes_kept f f' C n c : becomes f f' C n c → kept f f'.
Proof. intros Hb. pose proof (bc_others _ _ _ _ _ Hb) as E. unfold others in E. injection E as E1 E2 E3 E4 E5 E6 E7 E8 E9. done. Qed.

Lemma same_at (vals vals' : list float64) f f' C n : same_but_locals f f' → at_code vals f C n → activeVariableCount f' = Z.of_nat (length vals') →
  Z.of_nat (length vals') ≤ n → at_code vals' f' C n.
Proof.
  intros Hs [A1 A2 A3 A4] Ha Hn. pose proof Hs as Hs'. unfold same_but_locals in Hs'. destruct_and!.
  split; [|congruence|congruence|done]. eapply same_but_ok; [done|done|]. rewrite Ha. lia.
Qed.

Lemma pbind_assoc {A B D} (m : parsing A) (g : A → parsing B) (h : B → parsing D) p : (a ← m; b ← g a; h b) p = (b ← (a ← m; g a); h b) p.
Proof. unfold mbind, parsing_bind. by destruct (m p) as [[a q]| |]. Qed.

Section statements.
Context `{GoMath}.
Notation na vals := (Z.of_nat (length vals)).

(** What may begin a statement after an expression. *)
Definition next_statement (rest : list lexeme) : Prop := ends 0 rest ∧ head_tok rest ≠ tk_char "," ∧ head_tok rest ≠ tk_char ";".

(** An expression, and no other after it. *)
Lemma expressionList_ok names vals e p s f d N rest C k x :
  ready names vals p s f d (Z.of_nat N) e 0 0 k C (write_expr 0 0 e ++ rest) → next_statement rest → aeval names vals e = Some x →
  ∃ s' f' e' n D, expressionList (n_expression (grammar (S N))) (pst p s f d) = Ok (e', 1, pst p s' f' d) ∧ reads s' rest ∧
    compiled_to vals f C k e x f' e' n D.
Proof.
  intros Hr (Hends & Hcomma & _) Hx.
  destruct (reads_whole names vals e 0 0 p s f d N rest C k x (expression_reads _ _ _ _ _) (en_op _ _ Hends) Hr Hends Hx) as (s' & f' & e' & n & D & E & Hr' & Hc).
  exists s', f', e', n, D. split; [|done]. unfold expressionList. erewrite pbind; [|unfold n_expression; by erewrite pbind by exact E].
  destruct (tokens_left_ok p s' f' d rest (λ k, expression_list (n_expression (grammar (S N))) k 1 e') Hr') as (kf & -> & Hk).
  destruct kf as [|kf]; [lia|]. cbn [expression_list]. by erewrite pbind by by apply (testNext_no _ _ _ _ rest).
Qed.

Lemma single_value vals C K m k x e n D : denotes vals C K m k x e n D → hasMultipleReturns e = false.
Proof.
  intros Hd. unfold hasMultipleReturns, is_kind. destruct Hd as [e Hk|e o n D Ho|e Hk|e D i Hk]; try by rewrite Hk.
  apply operand_kind in Ho as [[Hk|Hk] _]; by rewrite Hk.
Qed.

(** Between two statements: the variables are in the first registers, and no other is in use. *)
Record between (p : parser) (s : scanner) (f : function) (names : list bytes) (vals : list float64) (C : list Z) (ls : list lexeme) : Prop := {
  bt_reads : reads s ls;
  bt_scope : scope p f names [];
  bt_code : at_code vals f C (na vals);
  bt_length : length names = length vals
}.

(** What an expression needs of the machine when [vals] is in registers. *)
Definition room (d : Z) (N : nat) (k : Z) (c : nat) (e : aexpr) : Prop :=
  k + temporaries e ≤ 253 ∧ (c + numerals e ≤ 256)%nat ∧ d + 1 + nesting 0 0 e ≤ maxCallCount ∧ nesting 0 0 e ≤ Z.of_nat N.

Lemma assignment_ok vals p s f d C k x e n D : denotes vals C (constants f) (max_stack f) k x e n D →
  at_code vals f (C ++ D) n → na vals ≤ k → k < 253 → (length (constants f) + cost e ≤ 256)%nat →
  ∃ f' D', AdjustAssignment 1 1 e (pst p s f d) = Ok ((), pst p s f' d) ∧ becomes f f' (C ++ D') (k + 1) (cost e) ∧
    runs vals (constants f') (max_stack f') k D' (holds k x).
Proof.
  intros Hd Hat Hk Hk' Hc. unfold AdjustAssignment. rewrite (single_value _ _ _ _ _ _ _ _ _ Hd). change (0 <? 1) with true. cbn iota.
  destruct (next_register vals C k x e n D (pst p s f d) Hd Hat Hk ltac:(lia) Hc) as (f' & e' & D' & E & B & Ho).
  erewrite pbind by (erewrite pbind by exact E; reflexivity). change (0 <? 1 - 1) with false. cbn iota. exists f', D'. split_and!; [done|done|].
  inversion Ho; subst; try lia. done.
Qed.

Lemma local_names_ok p s f d names x ls : reads s (LName x :: ls) → head_tok ls ≠ tk_char "," → scope p f names [] → (length names < 200)%nat →
  ∃ p' s' f' k, (k ← tokens_left; local_names k 0) (pst p s f d) = Ok (1, pst p' s' f' d) ∧ reads s' ls ∧ scope p' f' names [x] ∧
    same_but_locals f f' ∧ activeVariableCount f' = activeVariableCount f ∧ pendingGotos p' = pendingGotos p ∧ activeLabels p' = activeLabels p ∧ (0 < k)%nat.
Proof.
  intros Hr Hcomma Hs Hn. destruct (checkName_ok p s f d x ls Hr) as (s' & E1 & Hr').
  destruct (make_local_ok p s' f d names x Hs Hn) as (p' & f' & E2 & S2 & B2 & A2 & G2 & L2).
  destruct (tokens_left_ok p s f d _ (λ k, local_names k 0) Hr) as (k & Ek & Hk). exists p', s', f', k. destruct k as [|k]; [lia|].
  split_and!; try done; [|lia]. rewrite Ek. cbn [local_names]. erewrite pbind by exact E1. erewrite pbind by exact E2.
  by erewrite pbind by by apply (testNext_no _ _ _ _ ls).
Qed.

(** Code after [C] that computes [x] into register [k], and what it takes. *)
Record computes (vals : list float64) (f f' : function) (C : list Z) (k : Z) (e : aexpr) (x : float64) (D : list Z) : Prop := {
  cp_kept : kept f f';
  cp_consts : constants f `prefix_of` constants f';
  cp_count : (length (constants f') ≤ length (constants f) + numerals e)%nat;
  cp_max : max_stack f ≤ max_stack f';
  cp_runs : runs vals (constants f') (max_stack f') k D (holds k x)
}.

Lemma local_binds p s f d N names vals C x e v rest :
  between p s f names vals C (LName x :: LChar "=" :: write_expr 0 0 e ++ rest) → (length names < 200)%nat →
  next_statement rest → room d N (na vals) (length (constants f)) e → aeval names vals e = Some v →
  ∃ p' s' f' D, localStatement (n_expression (grammar (S N))) (pst p s f d) = Ok ((), pst p' s' f' d) ∧
    reads s' rest ∧ scope p' f' (names ++ [x]) [] ∧ at_code (vals ++ [v]) f' (C ++ D) (na vals + 1) ∧ computes vals f f' C (na vals) e v D ∧
    pendingGotos p' = pendingGotos p ∧ activeLabels p' = activeLabels p.
Proof.
  intros [Hr Hs Hat Hlen] H200 Hnext (R1 & R2 & R3 & R4) Hv. pose proof (temporaries_pos e).
  destruct (local_names_ok p s f d names x _ Hr) as (p2 & s2 & f2 & kk & E2 & Hr2 & S2 & B2 & A2 & G2 & L2 & _); [done|done|done|].
  destruct (testNext_yes p2 s2 f2 d _ _ Hr2) as (s3 & E3 & Hr3).
  assert (at_code vals f2 C (na vals)) as Hat2 by (eapply same_at; [done|done| |done]; by rewrite A2, (ac_active _ _ _ _ Hat)).
  assert (constants f2 = constants f ∧ max_stack f2 = max_stack f) as [Ec Em] by (unfold same_but_locals in B2; tauto).
  destruct (expressionList_ok names vals e p2 s3 f2 d N rest C (na vals) v) as (s4 & f4 & e4 & n4 & D4 & E4 & Hr4 & c4 & B4 & Hc4 & Hd4 & _); [|done|done|].
  { split; try done; [by eapply scope_names|by rewrite Ec]. }
  pose proof (at_becomes _ _ _ _ _ _ _ _ Hat2 B4) as Hat4. pose proof (bc_count _ _ _ _ _ B4) as Hcount. rewrite Ec in Hcount.
  destruct (assignment_ok vals p2 s4 f4 d C (na vals) v e4 n4 D4 Hd4 Hat4) as (f5 & D5 & E5 & B5 & R5); [lia|lia|lia|].
  pose proof (at_becomes _ _ _ _ _ _ _ _ Hat4 B5) as Hat5. pose proof (becomes_trans _ _ _ _ _ _ _ _ _ B4 B5) as B45.
  destruct (adjust_ok p2 s4 f5 d names x) as (f6 & E6 & S6 & B6); [by eapply scope_becomes|].
  assert (constants f6 = constants f5 ∧ max_stack f6 = max_stack f5) as [Ec6 Em6] by (unfold same_but_locals in B6; tauto).
  exists p2, s4, f6, D5. split_and!; try done.
  - unfold localStatement. rewrite pbind_assoc. erewrite pbind by exact E2.
    erewrite pbind by exact E3. erewrite pbind by (erewrite pbind by exact E4; exact E5). exact E6.
  - eapply same_at; [done|done| |]; [rewrite (sc_count _ _ _ _ S6)|]; rewrite !length_app; simpl; lia.
  - pose proof (bc_count _ _ _ _ _ B45) as Hn. pose proof (bc_consts _ _ _ _ _ B45) as Hp. pose proof (bc_max _ _ _ _ _ B45) as Hm.
    rewrite Ec in Hn, Hp. split; rewrite ?Ec6, ?Em6; [|done|lia|lia|done].
    eapply kept_trans; [by apply same_kept|]. eapply kept_trans; [by eapply becomes_kept|by apply same_kept].
Qed.

(** ** Statements *)

Section one.
Context (expression : parsing exprDesc) (body : bool → Z → parsing exprDesc) (stmt : parsing unit).

Lemma statement_done p s f d ls p' s' f' : reads s ls → d + 1 ≤ maxCallCount → fn_ok f' →
  (∀ ln, statement_kind expression body stmt (head_tok ls) ln (pst p s f (d + 1)) = Ok ((), pst p' s' f' (d + 1))) →
  one_statement expression body stmt (pst p s f d) = Ok ((), pst p' s' (set_free (activeVariableCount f') f') d).
Proof.
  intros Hr Hd Hf E. unfold one_statement. rewrite pbind_getp, enter_ok by done. rewrite (pbind_tok _ _ _ _ _ _ Hr).
  erewrite pbind by exact (E _). rewrite pbind_getf. cbn [fn pst id]. rewrite pbind_assertp.
  - rewrite pbind_modifyf. unfold leaveLevel, modifyp. cbn. by replace (d + 1 - 1) with d by lia.
  - destruct (ok_regs _ Hf) as (_ & H1 & H2). unfold max_stack in *. apply andb_true_intro. split; by apply Z.leb_le.
Qed.
End one.

(** [local x = e], as a statement. *)
Lemma local_statement p s f d N body stmt names vals C x e v rest :
  between p s f names vals C (LWord "local" :: LName x :: LChar "=" :: write_expr 0 0 e ++ rest) → (length names < 200)%nat →
  next_statement rest → room (d + 1) N (na vals) (length (constants f)) e → aeval names vals e = Some v →
  ∃ p' s' f' D, one_statement (n_expression (grammar (S N))) body stmt (pst p s f d) = Ok ((), pst p' s' f' d) ∧
    between p' s' f' (names ++ [x]) (vals ++ [v]) (C ++ D) rest ∧ computes vals f f' C (na vals) e v D ∧
    pendingGotos p' = pendingGotos p ∧ activeLabels p' = activeLabels p.
Proof.
  intros Hb H200 Hnext Hroom Hv. destruct Hb as [Hr Hs Hat Hlen]. pose proof (nesting_pos 0 0 e). destruct Hroom as (R1 & R2 & R3 & R4).
  destruct (next_ok p s f (d + 1) _ _ Hr) as (s1 & E1 & Hr1).
  destruct (local_binds p s1 f (d + 1) N names vals C x e v rest) as (p' & s' & f' & D & E & Hr' & Hs' & Hat' & Hc & Hg & Hl); [by split|done|done|done|done|].
  exists p', s', f', D. split_and!; try done.
  - pose proof (statement_done (n_expression (grammar (S N))) body stmt p s f d _ p' s' f' Hr ltac:(lia) (ac_ok _ _ _ _ Hat')) as Hst.
    rewrite Hst; [|intros ln].
    + rewrite (ac_active _ _ _ _ Hat'). replace (na (vals ++ [v])) with (freeRegisterCount f'); [by rewrite set_free_same|].
      rewrite (ac_free _ _ _ _ Hat'), length_app. simpl. lia.
    + change (head_tok (LWord "local" :: ?x)) with tkLocal. transitivity ((_ ← nextp; g ← testNextp tkFunction;
        if (g : bool) then localFunction body else localStatement (n_expression (grammar (S N)))) (pst p s f (d + 1))); [done|].
      erewrite pbind by exact E1. by erewrite pbind by by apply (testNext_no _ _ _ _ _ _ Hr1).
  - split; [done|done| |rewrite !length_app; simpl; lia]. rewrite length_app. simpl. by replace (Z.of_nat (length vals + 1)) with (na vals + 1) by lia.
Qed.

(** [return e]: the value is in a register, which the instruction names. *)
Lemma return_ok vals p s f d C k x e n D : denotes vals C (constants f) (max_stack f) k x e n D →
  at_code vals f (C ++ D) n → na vals ≤ k → k < 253 → (length (constants f) + cost e ≤ 256)%nat →
  ∃ f' r n' D', Return e 1 (pst p s f d) = Ok ((), pst p s f' d) ∧ becomes f f' (C ++ D' ++ [createABC opReturn r 2 0]) n' (cost e) ∧
    0 ≤ r < 255 ∧ r < max_stack f' ∧ runs vals (constants f') (max_stack f') k D' (holds r x).
Proof.
  intros Hd Hat Hk Hk' Hc. unfold Return. rewrite pbind_getf, (single_value _ _ _ _ _ _ _ _ _ Hd), Z.eqb_refl.
  destruct (any_register vals C k x e n D (pst p s f d) Hd Hat Hk ltac:(lia) Hc) as (f1 & e1 & n1 & D1 & E1 & B1 & Ho & Hkind).
  cbn [fn pst] in *. pose proof (at_becomes _ _ _ _ _ _ _ _ Hat B1) as Hat1. pose proof (ok_regs _ (ac_ok _ _ _ _ Hat1)) as Hregs.
  rewrite (ac_free _ _ _ _ Hat1), (ac_active _ _ _ _ Hat1) in Hregs.
  assert (0 ≤ e_info e1 < 255 ∧ e_info e1 < max_stack f1 ∧ runs vals (constants f1) (max_stack f1) k D1 (holds (e_info e1) x)) as (Hr & Hm & HD).
  { inversion Ho as [? Hk2| ? ? ? ? Hv|? ? ? ? Hi]; subst; [congruence| |by split_and!; try lia].
    pose proof (lookup_lt_Some _ _ _ Hv). split_and!; [lia..|]. apply runs_nil. intros R HR _. by apply HR. }
  destruct (encodeABC_ok opReturn (e_info e1) 2 0 (pst p s f1 d)) as (f2 & E2 & B2); [apply Hat1|done|by left|by right|fit|fit|fit|].
  cbn [fn pst] in *. rewrite (ac_code _ _ _ _ Hat1), (ac_free _ _ _ _ Hat1), <- app_assoc in B2.
  exists f2, (e_info e1), n1, D1. split_and!; try lia.
  - erewrite pbind by exact E1. by erewrite pbind by exact E2.
  - eapply becomes_le; [exact (becomes_trans _ _ _ _ _ _ _ _ _ B1 B2)|lia].
  - pose proof (bc_max _ _ _ _ _ B2). lia.
  - eapply runs_more; [exact (bc_consts _ _ _ _ _ B2)|exact (bc_max _ _ _ _ _ B2)|reflexivity|done|done].
Qed.

(** An expression begins with none of the tokens that end a block. *)
Lemma write_head e l r rest : head_tok (write_expr l r e ++ rest) ∈ [tkNumber; tkName; tk_char "-"; tk_char "("].
Proof.
  revert l r rest. induction e as [ip fp y|y|a IH|o a IHa b IHb]; intros l r rest; cbn [write_expr].
  - apply elem_of_cons. by left.
  - apply elem_of_cons. right. apply elem_of_cons. by left.
  - case_match; cbn [app]; rewrite !elem_of_cons; [right; right; by left|right; right; right; by left].
  - case_match; [rewrite <- app_assoc; apply IHa|]. cbn [app]. rewrite !elem_of_cons. right; right; right; by left.
Qed.

Lemma return_statement p s f d N body stmt names vals C e v :
  between p s f names vals C (LWord "return" :: write_expr 0 0 e) → room (d + 1) N (na vals) (length (constants f)) e → aeval names vals e = Some v →
  ∃ s' f' r D, one_statement (n_expression (grammar (S N))) body stmt (pst p s f d) = Ok ((), pst p s' f' d) ∧
    reads s' [] ∧ scope p f' names [] ∧ at_code vals f' (C ++ D ++ [createABC opReturn r 2 0]) (na vals) ∧
    0 ≤ r < 255 ∧ r < max_stack f' ∧ kept f f' ∧ constants f `prefix_of` constants f' ∧ max_stack f ≤ max_stack f' ∧
    runs vals (constants f') (max_stack f') (na vals) D (holds r v).
Proof.
  intros [Hr Hs Hat Hlen] (R1 & R2 & R3 & R4) Hv. pose proof (temporaries_pos e). pose proof (nesting_pos 0 0 e).
  destruct (next_ok p s f (d + 1) _ _ Hr) as (s1 & E1 & Hr1).
  destruct (expressionList_ok names vals e p s1 f (d + 1) N [] C (na vals) v) as (s4 & f4 & e4 & n4 & D4 & E4 & Hr4 & c4 & B4 & Hc4 & Hd4 & _); [|done|done|].
  { rewrite app_nil_r. split; try done. by eapply scope_names. }
  pose proof (at_becomes _ _ _ _ _ _ _ _ Hat B4) as Hat4. pose proof (bc_count _ _ _ _ _ B4).
  destruct (return_ok vals p s4 f4 (d + 1) C (na vals) v e4 n4 D4 Hd4 Hat4) as (f5 & r & n5 & D5 & E5 & B5 & Hrr & Hm & R5); [lia|lia|lia|].
  pose proof (becomes_trans _ _ _ _ _ _ _ _ _ B4 B5) as B. pose proof (at_becomes _ _ _ _ _ _ _ _ Hat B) as Hat5.
  pose proof (ok_regs _ (ac_ok _ _ _ _ Hat5)) as Hregs. rewrite (ac_free _ _ _ _ Hat5), (ac_active _ _ _ _ Hat5) in Hregs.
  pose proof (statement_done (n_expression (grammar (S N))) body stmt p s f d _ p s4 f5 Hr ltac:(lia) (ac_ok _ _ _ _ Hat5)) as Hst.
  rewrite (ac_active _ _ _ _ Hat5) in Hst. exists s4, (set_free (na vals) f5), r, D5.
  pose proof (scope_becomes _ _ _ _ _ _ _ _ Hs B) as Hs5. split_and!; try done; try lia.
  - apply Hst. intros ln. change (head_tok (LWord "return" :: ?x)) with tkReturn.
    transitivity ((_ ← nextp; returnStatement (n_expression (grammar (S N)))) (pst p s f (d + 1))); [done|]. erewrite pbind by exact E1.
    unfold returnStatement. pose proof (write_head e 0 0 []) as Hh. rewrite app_nil_r in Hh.
    assert (bool_decide (head_tok (write_expr 0 0 e) ∈ [tkElse; tkElseif; tkEnd; tkEOS]) = false ∧ (head_tok (write_expr 0 0 e) =? tkUntil) = false ∧
      (head_tok (write_expr 0 0 e) =? tk_char ";") = false) as (B1 & B2 & B3).
    { revert Hh. generalize (head_tok (write_expr 0 0 e)). intros t Ht. revert t Ht. apply Forall_forall. repeat constructor. }
    erewrite (pbind _ _ _ false) by (unfold blockFollow; rewrite (pbind_tok _ _ _ _ _ _ Hr1), B1, B2; reflexivity).
    rewrite (pbind_tok _ _ _ _ _ _ Hr1), B3. cbn [orb]. erewrite pbind by (erewrite pbind by exact E4; exact E5).
    by erewrite pbind by by apply (testNext_no _ _ _ _ []).
  - destruct Hs5 as [S1 S2 S3 S4]. by split.
  - destruct Hat5 as [[O1 O2 O3 O4 O5] A2 A3 A4]. split; try done. split; try done. unfold max_stack in *. simpl in *. lia.
  - by pose proof (becomes_kept _ _ _ _ _ B).
  - exact (bc_consts _ _ _ _ _ B).
  - exact (bc_max _ _ _ _ _ B).
Qed.

(** ** All statements *)

Lemma leads_bind K m vals v C D : runs [] K m 0 C (env_ok vals) → runs vals K m (na vals) D (holds (na vals) v) →
  runs [] K m 0 (C ++ D) (env_ok (vals ++ [v])).
Proof.
  intros HC HD R HR Hm. destruct (HC R HR Hm) as (R1 & H1 & H2 & _ & H4).
  destruct (HD R1 H4 ltac:(lia)) as (R2 & J1 & J2 & J3 & J4). exists R2. rewrite frame_run_app, H1.
  split_and!; [done|lia|intros j; lia|]. intros j x Hx. apply lookup_app_Some in Hx as [Hx|[Hj Hx]].
  - rewrite J3; [by apply H4|]. apply lookup_lt_Some in Hx. lia.
  - assert (j = length vals) as -> by (apply lookup_lt_Some in Hx; simpl in Hx; lia). rewrite Nat.sub_diag in Hx. injection Hx as <-.
    unfold holds in J4. by rewrite Nat2Z.id in J4.
Qed.
Lemma runs_last K m vals r v C D : runs [] K m 0 C (env_ok vals) → runs vals K m (na vals) D (holds r v) → runs [] K m 0 (C ++ D) (holds r v).
Proof.
  intros HC HD R HR Hm. destruct (HC R HR Hm) as (R1 & H1 & H2 & _ & H4).
  destruct (HD R1 H4 ltac:(lia)) as (R2 & J1 & J2 & J3 & J4). exists R2. rewrite frame_run_app, H1.
  split_and!; [done|lia|intros j; lia|done].
Qed.

(** The bounds of the machine, for [n] variables in all. *)
Definition small (d : Z) (N : nat) (n : nat) (e : aexpr) : Prop :=
  Z.of_nat n + temporaries e ≤ 253 ∧ d + 2 + nesting 0 0 e ≤ maxCallCount ∧ nesting 0 0 e ≤ Z.of_nat N.
Definition all_numerals (es : list aexpr) : nat := sum_list_with numerals es.

Lemma statement_next ls e : next_statement (write_lets ls ++ LWord "return" :: write_expr 0 0 e).
Proof. by destruct ls as [|[x e'] ls]. Qed.

Lemma block_continues p s f d ls : reads s ls → head_tok ls ∈ [tkLocal; tkReturn] → blockFollow true (pst p s f d) = Ok (false, pst p s f d).
Proof.
  intros Hr Hh. unfold blockFollow. rewrite (pbind_tok _ _ _ _ _ _ Hr). revert Hh. generalize (head_tok ls). intros t Ht. revert t Ht. apply Forall_forall.
  repeat constructor.
Qed.

Lemma statements_read ls p s f d N fuel names vals names' vals' C e v :
  between p s f names vals C (write_lets ls ++ LWord "return" :: write_expr 0 0 e) → (length ls < fuel)%nat → (length names + length ls ≤ 200)%nat →
  Forall (small d N (length names + length ls)) (map snd ls ++ [e]) → (length (constants f) + all_numerals (map snd ls ++ [e]) ≤ 256)%nat →
  runs [] (constants f) (max_stack f) 0 C (env_ok vals) → eval_lets names vals ls = Some (names', vals') → aeval names' vals' e = Some v →
  ∃ p' s' f' r C', statement_list (n_statement (grammar (S (S N)))) fuel (pst p s f d) = Ok ((), pst p' s' f' d) ∧
    reads s' [] ∧ scope p' f' names' [] ∧ at_code vals' f' (C' ++ [createABC opReturn r 2 0]) (na vals') ∧
    0 ≤ r < 255 ∧ r < max_stack f' ∧ kept f f' ∧ runs [] (constants f') (max_stack f') 0 C' (holds r v) ∧
    pendingGotos p' = pendingGotos p ∧ activeLabels p' = activeLabels p.
Proof.
  revert p s f fuel names vals C. induction ls as [|[x e1] ls IH]; intros p s f fuel names vals C Hb Hfuel H200 Hsmall Hnum Hruns Hls Hv;
    (destruct fuel as [|fuel]; [simpl in Hfuel; lia|]); cbn [statement_list].
  - injection Hls as <- <-. simpl in Hsmall, Hnum, Hb. apply Forall_cons in Hsmall as [(S1 & S2 & S3) _].
    destruct (return_statement p s f d N (n_body (grammar (S N))) (n_statement (grammar (S N))) names vals C e v Hb)
      as (s' & f' & r & D & E & Hr' & Hs' & Hat' & Hr & Hm & Hk & Hp & Hmx & HD); [|done|].
    { pose proof (bt_length _ _ _ _ _ _ _ Hb). split_and!; lia. }
    exists p, s', f', r, (C ++ D). split_and!; try done; try lia; [|by rewrite <- app_assoc|].
    + erewrite pbind by (eapply block_continues; [apply Hb|by right; left]). cbv beta iota. rewrite (pbind_tok _ _ _ _ _ _ (bt_reads _ _ _ _ _ _ _ Hb)). exact E.
    + eapply runs_last; [|exact HD]. eapply runs_more; [exact Hp|done|done|done|done].
  - cbn [write_lets flat_map app map snd fst] in *. rewrite <- app_assoc in Hb. cbn [eval_lets] in Hls. apply bind_Some in Hls as (v1 & Hv1 & Hls).
    apply Forall_cons in Hsmall as [(S1 & S2 & S3) Hsmall]. unfold all_numerals in Hnum. cbn [sum_list_with] in Hnum. cbn [length] in *.
    destruct (local_statement p s f d N (n_body (grammar (S N))) (n_statement (grammar (S N))) names vals C x e1 v1
      (write_lets ls ++ LWord "return" :: write_expr 0 0 e) Hb) as (p1 & s1 & f1 & D1 & E1 & Hb1 & Hc1 & G1 & L1); [lia|apply statement_next| |done|].
    { pose proof (bt_length _ _ _ _ _ _ _ Hb). split_and!; lia. }
    destruct Hc1 as [C1 C2 C3 C4 C5].
    destruct (IH p1 s1 f1 fuel (names ++ [x]) (vals ++ [v1]) (C ++ D1) Hb1) as (p' & s' & f' & r & C' & E & Hr' & Hs' & Hat' & Hr & Hm & Hk & HD & G2 & L2); [lia| | | | |done|done|].
    + rewrite length_app. simpl. lia.
    + replace (length (names ++ [x]) + length ls)%nat with (length names + S (length ls))%nat by (rewrite length_app; simpl; lia). done.
    + unfold all_numerals. lia.
    + apply leads_bind; [|done]. by eapply runs_more; [exact C2|done|done|done|].
    + exists p', s', f', r, C'. split_and!; try done; try lia; [|by eapply kept_trans|congruence|congruence].
      erewrite pbind by (eapply block_continues; [apply Hb|by left]). cbv beta iota. rewrite (pbind_tok _ _ _ _ _ _ (bt_reads _ _ _ _ _ _ _ Hb)).
      change (head_tok (LWord "local" :: ?x)) with tkLocal. change (tkLocal =? tkReturn) with false. cbn iota. by erewrite pbind by exact E1.
Qed.

(** ** The main function *)

Lemma first_token name ls : Forall lexeme_ok ls → ∃ s', next_token (new_scanner name (text_of ls)) = Ok ((), s') ∧ reads s' ls.
Proof.
  intros Hls. unfold next_token. erewrite bind_ok; [|done]. rewrite bind_get.
  change (set_lines _ _ (new_scanner name (text_of ls))) with (new_scanner name (text_of ls)).
  change (tk_t (lookAheadToken (new_scanner name (text_of ls)))) with tkEOS. rewrite Z.eqb_refl. cbn [negb].
  destruct (scan_reads (new_scanner name (text_of ls)) (new_scanner name (text_of ls)) ls) as (t & s' & E & Hr); [apply before_start|done|done|].
  erewrite bind_ok by exact E. eexists. split; [reflexivity|done].
Qed.

Definition main_block : block := mkBlock 0 0 0 false false.

Lemma leave_main p s f d names : scope p f names [] → blocks f = [main_block] → pendingGotos p = [] → activeLabels p = [] →
  ∃ p' f', LeaveBlock (pst p s f d) = Ok ((), pst p' s f' d) ∧ blocks f' = [] ∧ p_code (proto f') = p_code (proto f) ∧
    p_constants (proto f') = p_constants (proto f) ∧ p_maxStackSize (proto f') = p_maxStackSize (proto f) ∧
    p_upValues (proto f') = p_upValues (proto f) ∧ p_prototypes (proto f') = p_prototypes (proto f) ∧
    p_parameterCount (proto f') = p_parameterCount (proto f) ∧ p_isVarArg (proto f') = p_isVarArg (proto f).
Proof.
  intros Hs Hb Hg Hl. unfold LeaveBlock, this_block. erewrite (pbind _ _ _ main_block) by (rewrite pbind_getf; cbn [fn pst]; by rewrite Hb).
  rewrite pbind_getf. cbn [fn pst]. rewrite Hb. cbn [tail main_block hasUpValue isLoop b_active firstLabel firstGoto andb]. rewrite !pbind_ret, pbind_modifyf.
  cbn [fn pst set_fn]. change (set_fn (set_blocks [] f) (pst p s f d)) with (pst p s (set_blocks [] f) d).
  assert (scope p (set_blocks [] f) names []) as Hs1 by (destruct Hs as [H1 H2 H3 H4]; by split).
  destruct (each_local_ok p s d names [] (length names) 0 (set_blocks [] f) (set_end (code_len (set_blocks [] f))) Hs1) as (f2 & E2 & S2 & B2 & A2);
    [rewrite length_app; simpl; lia|done|].
  erewrite (pbind (removeLocalVariables 0)).
  2: { unfold removeLocalVariables. rewrite pbind_getf. unfold clen. rewrite pbind_getf. cbn [fn pst]. rewrite (sc_count _ _ _ _ Hs1), Z.sub_0_r, Nat2Z.id.
       change 0 with (Z.of_nat 0) at 1. erewrite pbind by exact E2. rewrite pbind_getp. cbn [activeVariables pst].
       assert (length (activeVariables p) = length names) as -> by (rewrite (sc_indices _ _ _ _ Hs), length_map, length_seq, length_app; simpl; lia).
       rewrite Z.sub_diag. erewrite (pbind _ _ _ ()). 2: { assert ((0 <=? 0) && (0 <=? Z.of_nat (length names)) = true) as -> by (apply andb_true_intro; split; apply Z.leb_le; lia). done. }
       reflexivity. }
  rewrite pbind_getf, pbind_assertp by done. rewrite pbind_modifyf, pbind_getp.
  set (q := set_fn _ _). change (activeLabels q) with (activeLabels p). rewrite Hl. change (0 <=? Z.of_nat (length [])) with true. cbn iota. rewrite pbind_ret.
  cbn [Z.to_nat take]. unfold modifyp. erewrite (pbind _ _ _ () _) by done. rewrite pbind_getp. change (pendingGotos (set_activeLabels _ q)) with (pendingGotos p). rewrite Hg.
  unfold same_but_locals, f_code, constants, max_stack in B2. destruct_and!.
  exists (set_activeLabels [] (set_activeVariables [] p)), (set_free 0 (set_active 0 f2)). split_and!; try done.
Qed.

(** A text that runs: its prototype has code without jumps that leaves [v] in the register
    that is returned. *)
Record straight (q : prototype) (v : float64) (r : Z) (C : list Z) : Prop := {
  st_code : p_code q = (C ++ [createABC opReturn r 2 0]) ++ [createABC opReturn 0 1 0];
  st_runs : runs [] (p_constants q) (p_maxStackSize q) 0 C (holds r v);
  st_register : 0 ≤ r < 255 ∧ r < p_maxStackSize q;
  st_stack : p_maxStackSize q ≤ 256;
  st_upvalues : length (p_upValues q) = 1%nat;
  st_children : p_prototypes q = [];
  st_parameters : p_parameterCount q = 0;
  st_vararg : p_isVarArg q = true
}.

Definition program_small (nested : Z) (pr : program) : Prop :=
  (length (lets pr) ≤ 200)%nat ∧ (all_numerals (map snd (lets pr) ++ [answer pr]) ≤ 256)%nat ∧
  Forall (λ e, Z.of_nat (length (lets pr)) + temporaries e ≤ 253 ∧ nested + 2 + nesting 0 0 e ≤ maxCallCount) (map snd (lets pr) ++ [answer pr]).

Lemma open_main p s f d : f = new_function (new_prototype (source s) 0 true) 0 → activeVariables p = [] → activeLabels p = [] → pendingGotos p = [] →
  ∃ f', OpenMainFunction (pst p s f d) = Ok ((), pst p s f' d) ∧ scope p f' [] [] ∧ at_code [] f' [] 0 ∧ blocks f' = [main_block] ∧
    constants f' = [] ∧ max_stack f' = 2 ∧ length (p_upValues (proto f')) = 1%nat ∧ p_prototypes (proto f') = [] ∧ p_parameterCount (proto f') = 0 ∧
    p_isVarArg (proto f') = true.
Proof.
  intros -> Ha Hl Hg. set (f := new_function _ 0). eexists. split.
  { unfold OpenMainFunction, EnterBlock. erewrite (pbind _ _ _ () (pst p s (set_blocks [main_block] f) d)); [reflexivity|]. rewrite !pbind_getp, pbind_getf, pbind_modifyf, pbind_getf.
    cbn [pst activeLabels pendingGotos fn]. rewrite Hl, Hg. by apply assertp_ok. }
  split_and!; try done.
Qed.

Lemma main_reads name nested pr v : Forall lexeme_ok (write_program pr) → 0 ≤ nested → program_small nested pr → meaning pr = Some v →
  ∃ q r C, parse name (text_of (write_program pr)) nested = Ok q ∧ straight q v r C.
Proof.
  intros Hok Hnest (H200 & H256 & Hsmall) Hv. unfold meaning in Hv. apply bind_Some in Hv as ([names' vals'] & Hls & Hv).
  set (b := text_of (write_program pr)). set (p0 := new_parser name b nested). set (f0 := new_function (new_prototype name 0 true) 0).
  destruct (open_main p0 (new_scanner name b) f0 nested) as (f1 & E1 & S1 & A1 & K1 & K2 & K3 & K4 & K5 & K6 & K7); [done..|].
  destruct (first_token name (write_program pr) Hok) as (s2 & E2 & Hr2). fold b in E2. set (N := (2 * Z.to_nat (maxCallCount - nested) + 2)%nat).
  assert (Forall (small nested N (0 + length (lets pr))) (map snd (lets pr) ++ [answer pr])) as Hsm.
  { eapply Forall_impl; [exact Hsmall|]. intros e [B1 B2]. split_and!; [done|done|]. unfold N. pose proof (nesting_pos 0 0 e). lia. }
  destruct (tokens_left_ok p0 s2 f1 nested (write_program pr) (λ k, statement_list (n_statement (grammar (S (S N)))) k) Hr2) as (k & E3 & Hk).
  destruct (statements_read (lets pr) p0 s2 f1 nested N k [] [] names' vals' [] (answer pr) v) as (p4 & s4 & f4 & r & C & E4 & Hr4 & S4 & A4 & Rr & Rm & Rk & RC & G4 & L4);
    [by split| |simpl; lia|done|by rewrite K2| |done|done|].
  { unfold write_program, write_lets in Hk. rewrite length_app in Hk. simpl in Hk.
    assert (∀ l : list (bytes * aexpr), (length l ≤ length (flat_map (λ xe, LWord "local" :: LName xe.1 :: LChar "=" :: write_expr 0 0 xe.2) l))%nat); [|specialize (H0 (lets pr)); lia].
    clear. induction l as [|y l IH]; [done|]. cbn [flat_map length]. rewrite length_app. simpl. lia. }
  { apply runs_nil. by intros R HR _. }
  destruct (encodeABC_ok opReturn 0 1 0 (pst p4 s4 f4 nested)) as (f5 & E5 & B5); [apply A4|done|by left|by right|fit|fit|fit|].
  cbn [fn pst] in B5. rewrite (ac_code _ _ _ _ A4), (ac_free _ _ _ _ A4) in B5.
  pose proof (scope_becomes _ _ _ _ _ _ _ _ S4 B5) as S5. pose proof (becomes_kept _ _ _ _ _ B5) as Kb. pose proof (kept_trans _ _ _ Rk Kb) as Kk.
  destruct (leave_main p4 s4 f5 nested names' S5) as (p6 & f6 & E6 & M1 & M2 & M3 & M4 & M5 & M6 & M7 & M8); [unfold kept in Kk; destruct Kk; congruence|by rewrite G4|by rewrite L4|].
  exists (proto f6), r, C. split.
  - unfold parse. replace (2 * Z.to_nat (maxCallCount - nested) + 4)%nat with (S (S N)) by (unfold N; lia).
    assert (mainFunction (S (S N)) (new_parser name b nested) = Ok ((), pst p6 s4 f6 nested)) as ->; [|done].
    unfold mainFunction. erewrite pbind by exact E1. erewrite (pbind nextp _ _ () (pst p0 s2 f1 nested)).
    2: { unfold nextp, scanning_. cbn [scn pst]. by rewrite E2. }
    erewrite (pbind (statementList _)). 2: { unfold statementList. rewrite E3. exact E4. }
    erewrite (pbind (scanning_ (check tkEOS)) _ _ () (pst p4 s4 f4 nested)).
    2: { unfold scanning_. cbn [scn pst]. unfold check. rewrite bind_get, (reads_head _ _ Hr4). done. }
    unfold CloseMainFunction, ReturnNone. erewrite (pbind _ _ _ ()) by (erewrite pbind by exact E5; reflexivity).
    erewrite pbind by exact E6. unfold assert_no_block. rewrite pbind_getf. cbn [fn pst]. rewrite M1. by apply assertp_ok.
  - unfold kept in Kk. destruct Kk as (_ & U2 & U3 & U4 & U5). pose proof (bc_max _ _ _ _ _ B5) as Hmx. pose proof (ok_max _ (bc_ok _ _ _ _ _ B5)) as H2.
    split; rewrite ?M2, ?M3, ?M4, ?M5, ?M6, ?M7, ?M8; try congruence.
    + exact (bc_code _ _ _ _ _ B5).
    + eapply runs_more; [exact (bc_consts _ _ _ _ _ B5)|exact Hmx|reflexivity|done|exact RC].
    + fold (max_stack f5). lia.
    + exact H2.
Qed.
End statements.
