(* ===== verification/LuaWhole.v ===== *)
(** * From the text to the value

    The machine on straight-line code: its frame is a part of the stack, every instruction
    does what it does to the registers, and the value comes back to the caller.  With the
    compiler, a text gives what it means. *)
From Stdlib Require Import ZArith Lia Ascii.
From stdpp Require Import base option list gmap strings.
From S2P Require Import Prelude GoNum GoFmt Strconv LuaInstr LuaTable LuaScan LuaTokens LuaProto LuaCode LuaParser LuaState LuaCall LuaVM LuaLoad LuaVMFacts LuaRun LuaArith LuaGen LuaReads LuaStraight.
From Stdlib Require Import SpecFloat.

(** ** A frame *)

Section frame.
Context {Wd : World} `{GoMath} (host : (Z → Z → bool → lua unit) → nat → list value → lua Z).
(** The call of the function in slot [fi], whose closure is [cid], over the prototype [q]. *)
Context (s0 : lstate) (lo hi : list value) (cs : list callInfo) (fi wanted : Z) (cid pid : nat) (us : list nat) (node : proto_node).
Hypothesis Hfi : 0 ≤ fi.
Hypothesis Hclosure : lo !! Z.to_nat fi = Some (VLua cid).
Hypothesis Hcid : closures s0 !! cid = Some (mkClosure pid us).
Hypothesis Hpid : protos s0 !! pid = Some node.
Notation K := (p_constants (n_proto node)).
Notation code := (p_code (n_proto node)).
Notation base := (Z.of_nat (length lo)).

Definition frame_call (pc : Z) (n : nat) : callInfo := mkCall fi base (base + Z.of_nat n) wanted true pc code false false.
Definition in_frame (pc : Z) (R : list value) : lstate := set_calls (frame_call pc (length R) :: cs) (set_stack (lo ++ R ++ hi) s0).

Lemma this_call_in {B} pc R (g : callInfo → lua B) : (this_call ≫= g) (in_frame pc R) = g (frame_call pc (length R)) (in_frame pc R).
Proof. done. Qed.

Lemma closure_in {B} pc R (g : luaClosure → lua B) : (this_closure ≫= g) (in_frame pc R) = g (mkClosure pid us) (in_frame pc R).
Proof.
  apply bind_done. unfold this_closure. rewrite this_call_in. unfold closure_at. erewrite (stack_at_done _ (VLua cid)).
  - rewrite gets_done. cbn [closures in_frame set_calls set_stack]. by rewrite Hcid.
  - done.
  - simpl. by apply lookup_app_l_Some.
Qed.
Lemma prototype_in {B} pc R (g : prototype → lua B) : (this_prototype ≫= g) (in_frame pc R) = g (n_proto node) (in_frame pc R).
Proof.
  apply bind_done. unfold this_prototype, prototype_of. rewrite this_call_in.
  transitivity ((c ← this_closure; n ← node_of c; mret (n_proto n)) (in_frame pc R)); [done|].
  rewrite closure_in. unfold node_of. cbn [c_proto]. unfold mbind, lua_bind, gets. cbn [protos in_frame set_calls set_stack]. by rewrite Hpid.
Qed.

Lemma reg_in {B} pc R i v (g : value → lua B) : 0 ≤ i → R !! Z.to_nat i = Some v → (frame_at i ≫= g) (in_frame pc R) = g v (in_frame pc R).
Proof.
  intros Hi Hv. pose proof (lookup_lt_Some _ _ _ Hv). apply bind_done. unfold frame_at. erewrite (bind_done _ _ _ (base + i)).
  2: { unfold frame_slot. rewrite this_call_in. cbn [ci_top ci_base frame_call].
       assert ((0 <=? i) && (i <? base + Z.of_nat (length R) - base) = true) as -> by (apply andb_true_intro; split; [by apply Z.leb_le|apply Z.ltb_lt; lia]). done. }
  unfold stack_at. rewrite gets_done. cbn [stack in_frame set_calls set_stack].
  erewrite slice_at_ok; [done|lia|]. rewrite lookup_app_r by lia. apply lookup_app_l_Some. rewrite <- Hv. f_equal. lia.
Qed.
Lemma put_in pc R i v R' : 0 ≤ i → put_reg i v R = Some R' → frame_put i v (in_frame pc R) = Done () (in_frame pc R').
Proof.
  intros Hi HR. unfold put_reg in HR. destruct (Z.ltb_spec i (Z.of_nat (length R))); [|done]. injection HR as <-.
  unfold frame_put. erewrite (bind_done _ _ _ (base + i)).
  2: { unfold frame_slot. rewrite this_call_in. cbn [ci_top ci_base frame_call].
       assert ((0 <=? i) && (i <? base + Z.of_nat (length R) - base) = true) as -> by (apply andb_true_intro; split; [by apply Z.leb_le|apply Z.ltb_lt; lia]). done. }
  unfold stack_put. rewrite gets_done. cbn [stack in_frame set_calls set_stack].
  rewrite slice_put_ok by (rewrite !length_app; lia). cbn [of_outcome]. unfold in_frame. rewrite length_insert.
  unfold mbind, lua_bind, mret, lua_ret, puts. f_equal. unfold set_stack, set_calls. cbn. f_equal.
  rewrite insert_app_r_alt by lia. f_equal. replace (Z.to_nat (base + i) - length lo)%nat with (Z.to_nat i) by lia. by rewrite insert_app_l by lia.
Qed.

Lemma rk_in {B} pc R o v (g : value → lua B) : 0 ≤ o → rk_value K R o = Some v → (rk o ≫= g) (in_frame pc R) = g v (in_frame pc R).
Proof.
  intros Ho Hv. unfold rk_value in Hv. unfold rk. destruct (isConstant o) eqn:Ec; [|by apply reg_in].
  apply bind_done. rewrite prototype_in. erewrite slice_at_ok; [done| |done]. unfold constantIndex. apply Z.ldiff_nonneg. by left.
Qed.

Lemma fields_nonneg i : 0 ≤ getA i ∧ 0 ≤ getB i ∧ 0 ≤ getC i ∧ 0 ≤ getBx i.
Proof. split_and!; apply Z.land_nonneg; right; done. Qed.

(** An instruction does to the stack what it does to the registers. *)
Lemma instruction_in call pc R i R' : frame_step K i R = Some R' →
  exec_instruction host call i (in_frame pc R) = Done true (in_frame pc R').
Proof.
  intros Hst. destruct (fields_nonneg i) as (HA & HB & HC & HBx). unfold frame_step in Hst. unfold exec_instruction.
  assert (∀ f ev, (match rk_value K R (getB i), rk_value K R (getC i) with
      | Some (VNumber x), Some (VNumber y) => put_reg (getA i) (VNumber (f x y)) R | _, _ => None end) = Some R' →
    (_ ← exec_arith call f ev i; mret true) (in_frame pc R) = Done true (in_frame pc R')) as Harith.
  { intros f ev Hf. destruct (rk_value K R (getB i)) as [b|] eqn:Eb; [|done]. destruct b as [| |x| | | | | | | |]; try done.
    destruct (rk_value K R (getC i)) as [c|] eqn:Ec; [|done]. destruct c as [| |y| | | | | | | |]; try done.
    erewrite (bind_done _ _ _ () (in_frame pc R')); [done|]. unfold exec_arith. rewrite (rk_in _ _ _ _ _ HB Eb), (rk_in _ _ _ _ _ HC Ec), ret_done. by apply put_in. }
  destruct (op_of (opField i)) as [o|] eqn:Eo; [|done].
  destruct o; try discriminate Hst; cbn [arith_of] in Hst; try (by apply Harith); cbv zeta; erewrite (bind_done _ _ _ () (in_frame pc R')); try done.
  - apply bind_Some in Hst as (v & Hv & Hp). unfold exec_Move. rewrite (reg_in _ _ _ _ _ HB Hv). by apply put_in.
  - apply bind_Some in Hst as (v & Hv & Hp). unfold exec_LoadConstant, load_constant. rewrite prototype_in.
    erewrite (bind_done _ _ _ v) by (by rewrite (slice_at_ok _ _ v)). by apply put_in.
  - destruct (R !! Z.to_nat (getB i)) as [b|] eqn:Eb; [|done]. destruct b as [| |x| | | | | | | |]; try done.
    unfold exec_UnaryMinus. rewrite (reg_in _ _ _ _ _ HB Eb), ret_done. by apply put_in.
Qed.

(** A step reads the instruction that is next. *)
Lemma step_in {B} pc R i (g : Z → lua B) : 0 ≤ pc → code !! Z.to_nat pc = Some i → (step ≫= g) (in_frame pc R) = g i (in_frame (pc + 1) R).
Proof.
  intros Hpc Hi. apply bind_done. unfold step. rewrite this_call_in. cbn [ci_code savedPC frame_call].
  erewrite (bind_done _ _ _ i) by (by rewrite (slice_at_ok _ _ i)). done.
Qed.

Lemma code_in call pre D post R R' m : code = pre ++ D ++ post → frame_run K D R = Some R' →
  execute_with host (length D + m) call (in_frame (Z.of_nat (length pre)) R) =
  execute_with host m call (in_frame (Z.of_nat (length pre + length D)) R').
Proof.
  revert pre R. induction D as [|i D IH]; intros pre R Hc Hrun.
  - injection Hrun as <-. by rewrite Nat.add_0_r.
  - cbn [frame_run] in Hrun. apply bind_Some in Hrun as (R1 & Hi & Hrun). cbn [length Nat.add execute_with].
    rewrite (step_in _ _ i); [|lia|rewrite Hc, Nat2Z.id, lookup_app_r, Nat.sub_diag by lia; done].
    erewrite bind_done by by apply instruction_in. cbn iota.
    replace (Z.of_nat (length pre) + 1) with (Z.of_nat (length (pre ++ [i]))) by (rewrite length_app; simpl; lia).
    rewrite (IH (pre ++ [i])); [|by rewrite <- app_assoc|done]. rewrite length_app. simpl.
    by replace (length pre + 1 + length D)%nat with (length pre + S (length D))%nat by lia.
Qed.

(** The value in a register is returned to a caller that takes all results. *)
Lemma return_in call pc R r v m : 0 ≤ pc → code !! Z.to_nat pc = Some (createABC opReturn r 2 0) → 0 ≤ r < 255 → holds r v R →
  n_children node = [] → wanted = MultipleReturns →
  ∃ l, execute_with host (S m) call (in_frame pc R) = Done () (with_stack l (fi + 1) (set_calls cs s0)) ∧ l !! Z.to_nat fi = Some (VNumber v).
Proof.
  intros Hpc Hi Hr Hv Hch Hw. pose proof (lookup_lt_Some _ _ _ Hv) as HR. pose proof (lookup_lt_Some _ _ _ Hclosure) as Hlo.
  exists (<[Z.to_nat fi := VNumber v]> (lo ++ R ++ hi)). split; [|apply list_lookup_insert_eq; rewrite length_app; lia].
  cbn [execute_with]. rewrite (step_in _ _ _ _ Hpc Hi). destruct (createABC_fields opReturn r 2 0) as (E1 & E2 & E3 & _); [fit|fit|fit|].
  erewrite (bind_done _ _ _ false); [done|]. unfold exec_instruction. rewrite E1. unfold exec_Return. rewrite E2, E3. change (negb (2 =? 0)) with true. cbv zeta iota.
  set (st := in_frame (pc + 1) R). set (st2 := set_top (base + (r + 2 - 1)) st).
  erewrite (bind_done _ _ st () st2) by done.
  assert (∀ B (g : luaClosure → lua B), (this_closure ≫= g) st2 = g (mkClosure pid us) st2) as Hcl.
  { intros B g. apply bind_done. change (this_closure st2) with (closure_at fi st2). unfold closure_at.
    erewrite (stack_at_done _ (VLua cid)); [|done|simpl; by apply lookup_app_l_Some]. rewrite gets_done. cbn [closures st2 set_top st in_frame set_calls set_stack]. by rewrite Hcid. }
  rewrite Hcl. erewrite (bind_done _ _ _ false).
  2: { unfold has_prototypes, node_of. cbn [c_proto]. unfold mbind, lua_bind, gets. cbn [protos st2 st set_top in_frame set_calls set_stack]. rewrite Hpid. simpl. by rewrite Hch. }
  erewrite (bind_done this_call _ _ (frame_call (pc + 1) (length R))) by done. rewrite ret_done.
  erewrite (bind_done (stackIndex r) _ _ (base + r)) by done.
  erewrite (bind_done (postCall _) _ _ false); [done|]. unfold postCall.
  erewrite (bind_done this_call _ _ (frame_call (pc + 1) (length R))) by done. rewrite gets_done, puts_done.
  cbn [resultCount frame_call ci_function top st2 set_top]. replace (Z.to_nat (base + (r + 2 - 1) - (base + r))) with 1%nat by lia. rewrite Hw.
  change (tail (callInfos st2)) with cs. erewrite (bind_done (move_results _ _ _ _) _ _ (-2, fi + 1)).
  2: { cbn [move_results]. change (MultipleReturns =? 0) with false. cbn iota. erewrite stack_at_done; [|lia|].
       2: { cbn. rewrite lookup_app_r by lia. replace (Z.to_nat (base + r) - length lo)%nat with (Z.to_nat r) by lia. apply lookup_app_l_Some. exact Hv. }
       erewrite stack_put_done; [reflexivity|]. simpl. rewrite length_app. lia. }
  cbv beta iota. change (Z.to_nat (-2)) with 0%nat. cbn [fill_results]. rewrite ret_done. done.
Qed.
End frame.

(** ** A call *)

Section call.
Context {Wd : World} `{GoMath} (host : (Z → Z → bool → lua unit) → nat → list value → lua Z).

(** The state before the call of a text: its closure is on the stack of a thread of the first size. *)
Record loaded (s : lstate) (cid pid : nat) (us : list nat) (node : proto_node) : Prop := {
  ld_top : top s = 2;
  ld_last : stackLast s = 35;
  ld_size : length (stack s) = 40%nat;
  ld_function : stack s !! 1%nat = Some (VLua cid);
  ld_closure : closures s !! cid = Some (mkClosure pid us);
  ld_node : protos s !! pid = Some node;
  ld_children : n_children node = []
}.

Lemma preCall_straight call s cid pid us node v r C : loaded s cid pid us node → straight (n_proto node) v r C →
  ∃ s2 lo R hi, preCall call host 2 1 MultipleReturns s =
      Done false (in_frame s2 lo hi (callInfos s) 1 MultipleReturns node 0 R) ∧
    lo !! 1%nat = Some (VLua cid) ∧ closures s2 = closures s ∧ protos s2 = protos s ∧ Z.of_nat (length R) = p_maxStackSize (n_proto node) ∧
    nestedCalls s2 = nestedCalls s ∧ errorFunction s2 = errorFunction s ∧ length lo = 2%nat.
Proof.
  intros [L1 L2 L3 L4 L5 L6 L7] [Q1 Q2 Q3 Q4 Q5 Q6 Q7 Q8]. cbn [preCall]. erewrite (stack_at_done 1 (VLua cid)) by done. cbv beta iota.
  rewrite gets_done. erewrite (bind_done _ _ _ (mkClosure pid us) s) by (by rewrite L5).
  destruct (checkStack_done call (p_maxStackSize (n_proto node)) s) as (m & E & Hroom); [unfold stack_room, extraStack, maxStack; lia|rewrite L2, L3; done|].
  destruct Hroom as [Hroom _]. rewrite L3 in E. rewrite L1, L3 in Hroom. unfold extraStack in Hroom. set (l := stack s ++ replicate m VNil) in *. set (k := Z.to_nat (p_maxStackSize (n_proto node))).
  assert (length l = 40 + m)%nat as Hl by (unfold l; rewrite length_app, length_replicate; lia).
  exists (set_top (2 + p_maxStackSize (n_proto node)) (set_stackLast (Z.of_nat (40 + m) - extraStack) s)), (take 2 l), (take k (drop 2 l)), (drop k (drop 2 l)).
  assert (length (take k (drop 2 l)) = k) as Hk by (rewrite length_take, length_drop; unfold k; lia).
  split_and!; try done.
  - erewrite (bind_done (preCall_lua _ _ _ _)); [done|]. unfold preCall_lua. erewrite (bind_done (node_of _) _ _ node s).
    2: { unfold node_of. rewrite gets_done. cbn [c_proto]. by rewrite L6. }
    cbv zeta. erewrite bind_done by exact E. rewrite gets_done. cbn [top set_stackLast set_stack]. rewrite L1, Q7, Q8. change (0 <? 0 - (2 - 1 - 1)) with false. cbn iota.
    rewrite ret_done. erewrite (bind_done (adjustVarArgs _ _ _) _ _ 2).
    2: { unfold adjustVarArgs. rewrite Q7. unfold assert_l. change (0 <=? 2 - 1 - 1) with true. cbn iota. rewrite ret_done, gets_done. change (Z.to_nat 0) with 0%nat. cbn [top set_stackLast set_stack move_args]. rewrite L1, ret_done. reflexivity. }
    unfold pushLuaFrame. rewrite puts_done. unfold in_frame, frame_call. rewrite Hk. unfold k. rewrite Z2Nat.id by lia.
    rewrite length_take. replace (Nat.min 2 (length l)) with 2%nat by lia. rewrite !take_drop. reflexivity.
  - unfold l. rewrite lookup_take_lt by lia. by apply lookup_app_l_Some.
  - rewrite Hk. unfold k. lia.
  - rewrite length_take. lia.
Qed.

Lemma call_straight n s cid pid us node v r C : loaded s cid pid us node → straight (n_proto node) v r C → nestedCalls s = 0 → (length C + 2 ≤ n)%nat →
  ∃ s', call_ host n 1 MultipleReturns false s = Done () s' ∧ top s' = 2 ∧ stack s' !! 1%nat = Some (VNumber v) ∧ callInfos s' = callInfos s.
Proof.
  intros Hld Hst Hnest Hn. destruct n as [|n]; [lia|]. cbn [call_]. rewrite puts_done, gets_done. cbn [nestedCalls set_counts]. rewrite Hnest.
  change (0 + 1 =? maxCallCount) with false. change (maxCallCount + Z.shiftr maxCallCount 3 <=? 0 + 1) with false. cbn iota. rewrite ret_done, puts_done.
  set (s1 := set_counts _ _ _ (set_counts _ _ _ s)).
  assert (loaded s1 cid pid us node) as Hld1 by by destruct Hld.
  destruct (preCall_straight (call_ host n) s1 cid pid us node v r C Hld1 Hst) as (s2 & lo & R & hi & E & F1 & F2 & F3 & F4 & F5 & F6 & F7).
  erewrite bind_done by exact E. cbn iota. destruct Hst as [Q1 Q2 Q3 Q4 Q5 Q6 Q7 Q8]. destruct Hld1 as [L1 L2 L3 L4 L5 L6 L7].
  destruct (Q2 R) as (R' & Hrun & HR' & _ & Hv); [by intros ? ? ?|lia|].
  assert (closures s2 !! cid = Some (mkClosure pid us)) as Hc by (by rewrite F2). assert (protos s2 !! pid = Some node) as Hp by (by rewrite F3).
  destruct (Nat.le_exists_sub (length C + 1) n ltac:(lia)) as (m & -> & _). replace (m + (length C + 1))%nat with (length C + S m)%nat by lia.
  pose proof (code_in host s2 lo hi (callInfos s1) 1 MultipleReturns cid pid us node ltac:(lia) F1 Hc Hp (call_ host (length C + S m)) [] C
    ([createABC opReturn r 2 0] ++ [createABC opReturn 0 1 0]) R R' (S m)) as Hcode.
  cbn [length app] in Hcode. rewrite <- app_assoc in Q1. specialize (Hcode Q1 Hrun). change (Z.of_nat 0) with 0 in Hcode.
  destruct (return_in host s2 lo hi (callInfos s1) 1 MultipleReturns cid pid us node ltac:(lia) F1 Hc Hp (call_ host (length C + S m)) (Z.of_nat (length C)) R' r v m) as (l & Hret & Hl);
    [lia|rewrite Q1, Nat2Z.id, lookup_app_r, Nat.sub_diag by lia; done|lia|done|done|done|].
  erewrite bind_done. 2: { rewrite Hcode. exact Hret. }
  rewrite puts_done. eexists. split; [reflexivity|]. split_and!; [done|exact Hl|done].
Qed.
End call.

(** ** Texts *)

Section texts.
Context `{GoMath}.

Lemma load_text text q : parse "?" text 0 = Ok q → p_prototypes q = [] → length (p_upValues q) = 1%nat →
  ∃ s cid pid us node, Load "" text (NewState nothing) = Done None s ∧ loaded s cid pid us node ∧ n_proto node = q ∧ nestedCalls s = 0 ∧
    callInfos s = callInfos (NewState nothing).
Proof.
  intros Hq Hch Hup. destruct q as [ks c ps li lv uv src ld lld pc ms va]. cbn [p_prototypes p_upValues] in *. subst ps.
  destruct uv as [|u [|]]; [done| |done]. set (q := mkProto ks c [] li lv [u] src ld lld pc ms va) in *.
  set (s1 := set_protos (<[2%nat := mkNode q [] None]> (protos (NewState nothing))) (set_fresh 3 (NewState nothing))).
  set (s2 := set_cells (<[3%nat := UClosed VNil]> (upCells (NewState nothing))) (set_fresh 4 s1)).
  set (s3 := set_closures (<[4%nat := mkClosure 2 [3%nat]]> (closures (NewState nothing))) (set_fresh 5 s2)).
  set (s4 := set_top 2 (set_stack (<[1%nat := VLua 4]> (stack (NewState nothing))) s3)).
  set (s5 := set_cells (<[3%nat := UClosed (VTable globals)]> (upCells s4)) s4).
  assert (protectedParser "?" text (NewState nothing) = Done None s4) as E.
  { unfold protectedParser. rewrite gets_done. change (nestedCalls (NewState nothing)) with 0. rewrite Hq.
    erewrite (bind_done (load_proto q) _ _ 2%nat s1) by done. cbn [p_upValues q length].
    erewrite (bind_done (new_cells 1) _ _ [3%nat] s2) by done. erewrite (bind_done allocate _ _ 4%nat) by done. rewrite puts_done.
    erewrite (bind_done (push _) _ _ () s4); [done|]. unfold push. rewrite gets_done. erewrite stack_put_done; [done|]. simpl. lia. }
  assert (closures s4 !! 4%nat = Some (mkClosure 2 [3%nat])) as Hc by apply lookup_insert_eq.
  assert (stack s4 !! 1%nat = Some (VLua 4)) as Hs by done.
  exists s5, 4%nat, 2%nat, [3%nat], (mkNode q [] None). split_and!; [|split; try done; apply lookup_insert_eq|done..].
  unfold Load. rewrite bool_decide_eq_true_2 by done. erewrite bind_done by exact E. cbv beta iota. rewrite gets_done.
  erewrite (bind_done (closure_at _) _ _ (mkClosure 2 [3%nat])).
  2: { unfold closure_at. erewrite stack_at_done; [|done|exact Hs]. cbv beta iota. rewrite gets_done. by rewrite Hc. }
  cbn [c_upValues length]. change (Z.of_nat 1 =? 1) with true. cbn iota.
  erewrite (bind_done (_ ≫= _) _ _ () s5); [done|]. erewrite (bind_done global_table _ _ (VTable globals) s4) by (by vm_compute).
  unfold setUpValue. erewrite (bind_done _ _ _ 3%nat) by done.
  erewrite cell_done; [|apply lookup_insert_eq]. done.
Qed.

(** C27: a text of local variables bound to arithmetic one after the other, and of a value returned,
    gives what it means: with enough steps the scanner, the compiler and the machine together
    return the one number that the expressions denote over the variables before them, with
    numerals folded as the compiler computes and the rest computed as the machine does.  The
    text has the parentheses that the priorities of the operators require and no others; it
    may have 200 variables, 256 numerals, 253 registers and 198 levels of nesting. *)
Theorem straight_line_programs pr v : Forall lexeme_ok (write_program pr) → program_small 0 pr → meaning pr = Some v →
  ∃ n0, ∀ n, (n0 ≤ n)%nat → run_text n (to_string (text_of (write_program pr))) = Some (None, [VNumber v]).
Proof.
  intros Hok Hsmall Hv. destruct (main_reads "?" 0 pr v Hok ltac:(lia) Hsmall Hv) as (q & r & C & Hq & Hst).
  destruct (load_text _ q Hq (st_children _ _ _ _ Hst) (st_upvalues _ _ _ _ Hst)) as (s & cid & pid & us & node & E & Hld & Hnode & Hn & Hci).
  exists (length C + 2)%nat. intros n Hle. unfold run_text. rewrite to_bytes_to_string. unfold DoString.
  destruct (call_straight no_host n (set_counts 0 (nonYieldable s) 0 s) cid pid us node v r C) as (s' & E' & T1 & T2 & T3); [by destruct Hld|by rewrite Hnode|done|done|].
  rewrite gets_done. erewrite bind_done by exact E. cbv iota. destruct Hld as [L1 L2 L3 L4 L5 L6 L7].
  set (s2 := set_counts 0 (nonYieldable s') (errorFunction s) s').
  assert (protectedCall (call_ no_host n 1 MultipleReturns false) 1 0 s = Done None s2) as Ep.
  { unfold protectedCall. rewrite gets_done, puts_done. erewrite (bind_done (protect _)).
    2: { unfold protect. rewrite Hn, E'. reflexivity. }
    cbv iota. by rewrite ret_done, puts_done. }
  erewrite (bind_done (ProtectedCall _ _ _ _) _ _ None s2).
  2: { unfold ProtectedCall. rewrite gets_done, L1. change (2 - (0 + 1)) with 1. erewrite bind_done by exact Ep.
       erewrite (bind_done (adjustResults _)); [done|]. unfold adjustResults, this_call.
       erewrite (bind_done _ _ _ (mkCall 0 0 (1 + MinStack) 0 true 0 [] false false) s2); [|rewrite gets_done; cbn [callInfos s2 set_counts]; rewrite T3; cbn [callInfos set_counts]; by rewrite Hci].
       rewrite gets_done. cbn [top s2 set_counts]. rewrite T1. done. }
  erewrite (bind_done (results_from _) _ _ [VNumber v] s2); [done|]. unfold results_from. rewrite !gets_done.
  cbn [top stack s2 set_counts]. rewrite T1. change (Z.to_nat (top (NewState nothing))) with 1%nat. change (Z.to_nat (2 - top (NewState nothing))) with 1%nat.
  unfold mret, lua_ret. f_equal. erewrite drop_S by exact T2. done.
Qed.
End texts.

(** [local x = 7 local y = - ( x - 2 ) * 3 return y - x * 2]. *)
Definition seven : program :=
  let n z := ANum (to_bytes (fmt_d z)) None (float_of_int z) in
  let x := to_bytes "x" in
  let y := to_bytes "y" in
  mkProgramText [(x, n 7); (y, ABin AMul (ANeg (ABin ASub (AVar x) (n 2))) (n 3))] (ABin ASub (AVar y) (ABin AMul (AVar x) (n 2))).
Lemma straight_line_programs_witness :
  to_string (text_of (write_program seven)) = "local x = 7 local y = - ( x - 2 ) * 3 return y - x * 2 "%string ∧
  ∃ n0, ∀ n, (n0 ≤ n)%nat → run_text n (to_string (text_of (write_program seven))) = Some (None, [VNumber (float_of_int (-29))]).
Proof.
  split; [by vm_compute|]. apply straight_line_programs.
  - let l := eval vm_compute in (write_program seven) in change (Forall lexeme_ok l).
    repeat constructor; by vm_compute.
  - split; [vm_compute; lia|]. split; [vm_compute; lia|]. repeat (apply Forall_cons_2; [by vm_compute|]). apply Forall_nil_2.
  - by vm_compute.
Defined.
