(* ===== verification/LuaApi.v ===== *)
(** * The API of the Lua machine (Shopify/go-lua/lua.go, tables.go)

    What Go functions do to the machine: they read and write the stack by indices relative
    to the frame of their call, from below if positive and from the top if negative; below
    all of these lie the registry and the upvalues of the function.  Every operation is an
    action over the stack, with the panics of slices and assertions where the Go code has
    them.  The checks under [apiCheck] are off (config.go).  [call] is the machine's call.

    [order] is the order in which Go walks a map; it may depend on the map only. *)
From Stdlib Require Import ZArith Lia Ascii.
From stdpp Require Import base option list gmap strings.
From S2P Require Import Prelude GoNum GoFmt Strconv LuaInstr LuaTable LuaScan LuaProto LuaState LuaCall LuaVM LuaLoad.
From Stdlib Require Import SpecFloat.

Definition firstPseudoIndex : Z := - maxStack - 1000.
Definition RegistryIndex : Z := firstPseudoIndex.
Definition isPseudoIndex (i : Z) : bool := i <=? RegistryIndex.
Definition UpValueIndex (i : Z) : Z := RegistryIndex - i.

(** What [indexToValue] returns for an index beyond the top. *)
Definition none : value := VLight 0.

(** [l[lo:hi]], and [copy(l[lo:hi], src)] of a slice. *)
Definition slice_panic : string := "runtime error: slice bounds out of range".
Definition stack_slice {A} (l : list A) (lo hi : Z) : outcome (list A) :=
  if (0 <=? lo) && (lo <=? hi) && (hi <=? Z.of_nat (length l)) then Ok (take (Z.to_nat (hi - lo)) (drop (Z.to_nat lo) l))
  else Panic slice_panic.
Definition stack_copy {A} (l : list A) (lo hi : Z) (src : list A) : outcome (list A) :=
  d ← stack_slice l lo hi;
  let n := Nat.min (length d) (length src) in
  Ok (take (Z.to_nat lo) l ++ take n src ++ drop (Z.to_nat lo + n) l).

Section api.
Context {Wd : World} `{GoMath}.
Context (call : Z → Z → bool → lua unit).
Context (order : gmap value value → list value).

Definition function_slot : lua Z := ci ← this_call; mret (ci_function ci).

(** ** Indices *)

(** The upvalues of the Go closure that runs. *)
Definition this_goClosure : lua (nat * goClosure) :=
  f ← function_slot;
  v ← stack_at f;
  match v with
  | VGoClosure id => m ← gets goClosures; g ← of_option (m !! id); mret (id, g)
  | _ => bad_assertion
  end.

Definition indexToValue (index : Z) : lua value :=
  if 0 <? index then
    f ← function_slot;
    t ← gets top;
    if t <=? f + index then mret none else stack_at (f + index)
  else if RegistryIndex <? index then t ← gets top; stack_at (t + index)
  else if index =? RegistryIndex then r ← gets registry; mret (VTable r)
  else '(_, g) ← this_goClosure; of_outcome (slice_at (g_upValues g) (RegistryIndex - index - 1)).

Definition setIndexToValue (index : Z) (v : value) : lua unit :=
  if 0 <? index then
    f ← function_slot;
    t ← gets top;
    if t <=? f + index then go_error index_panic else stack_put (f + index) v
  else if RegistryIndex <? index then t ← gets top; stack_put (t + index) v
  else if index =? RegistryIndex then
    match v with VTable r => puts (set_registry r) | _ => bad_assertion end
  else
    '(id, g) ← this_goClosure;
    us ← of_outcome (slice_put (g_upValues g) (RegistryIndex - index - 1) v);
    puts (λ s, set_goClosures (<[id := mkGoClosure (g_function g) us]> (goClosures s)) s).

Definition AbsIndex (index : Z) : lua Z :=
  if (0 <? index) || isPseudoIndex index then mret index
  else t ← gets top; f ← function_slot; mret (t - f + index).

Definition Top : lua Z := t ← gets top; f ← function_slot; mret (t - (f + 1)).

(** ** The stack *)

Definition SetTop (index : Z) : lua unit :=
  f ← function_slot;
  t ← gets top;
  if 0 <=? index then
    _ ← puts (set_top (f + 1 + index));
    _ ← fill_results (Z.to_nat (f + 1 + index - t)) t;
    mret ()
  else puts (set_top (t + (index + 1))).
Definition Pop (n : Z) : lua unit := SetTop (- n - 1).

Definition Remove (index : Z) : lua unit :=
  _ ← indexToValue index;
  f ← function_slot;
  a ← AbsIndex index;
  t ← gets top;
  l ← gets stack;
  src ← of_outcome (stack_slice l (f + a + 1) t);
  l' ← of_outcome (stack_copy l (f + a) (t - 1) src);
  _ ← puts (set_stack l');
  puts (set_top (t - 1)).

Definition Insert (index : Z) : lua unit :=
  _ ← indexToValue index;
  f ← function_slot;
  a ← AbsIndex index;
  t ← gets top;
  l ← gets stack;
  src ← of_outcome (stack_slice l (f + a) t);
  l' ← of_outcome (stack_copy l (f + a + 1) (t + 1) src);
  _ ← puts (set_stack l');
  v ← stack_at t;
  stack_put (f + a) v.

Definition Replace (index : Z) : lua unit :=
  t ← gets top;
  v ← stack_at (t - 1);
  _ ← setIndexToValue index v;
  puts (set_top (t - 1)).
Definition Copy_ (from to : Z) : lua unit := v ← indexToValue from; setIndexToValue to v.
Definition PushValue (index : Z) : lua unit := v ← indexToValue index; push v.

Definition CheckStack_ (size : Z) : lua bool :=
  last ← gets stackLast;
  t ← gets top;
  ok ← (if size <? last - t then mret true
        else if t + extraStack <=? maxStack - size then
          err ← protect (growStack call size);
          mret match err with None => true | Some _ => false end
        else mret false);
  ci ← this_call;
  _ ← (if (ok : bool) && (ci_top ci <? t + size) then change_call (setTop (t + size)) else mret ());
  mret ok.

(** ** Types and conversions *)

Definition TypeOf (index : Z) : lua Z := v ← indexToValue index; mret (valueToType v).
Definition is_type (t : Z) (index : Z) : lua bool := t' ← TypeOf index; mret (t' =? t).
Definition IsFunction : Z → lua bool := is_type TypeFunction.
Definition IsTable : Z → lua bool := is_type TypeTable.
Definition IsNil : Z → lua bool := is_type TypeNil.
Definition IsNone : Z → lua bool := is_type TypeNone.
Definition IsNoneOrNil (index : Z) : lua bool := t ← TypeOf index; mret (t <=? TypeNil).
Definition IsString (index : Z) : lua bool := v ← indexToValue index; mret (text_or_number v).
Definition IsNumber (index : Z) : lua bool :=
  v ← indexToValue index; n ← toNumber v; mret match n with Some _ => true | None => false end.
Definition IsGoFunction (index : Z) : lua bool :=
  v ← indexToValue index; mret match v with VGoFunction _ | VGoClosure _ => true | _ => false end.

Definition ToNumber (index : Z) : lua (option float64) := v ← indexToValue index; toNumber v.
Definition ToInteger (index : Z) : lua (option Z) := n ← ToNumber index; mret (option_map int_of_float n).
Definition ToBoolean (index : Z) : lua bool := v ← indexToValue index; mret (negb (isFalse v)).
Definition ToString_ (index : Z) : lua (option string) :=
  v ← indexToValue index;
  match toString v with Some s => _ ← setIndexToValue index (VString s); mret (Some s) | None => mret None end.
(** [ToValue]: what is no value of Lua is nil. *)
Definition ToValue_ (index : Z) : lua value :=
  v ← indexToValue index; mret match v with VLight _ => VNil | v => v end.
Definition RawLength (index : Z) : lua Z :=
  v ← indexToValue index;
  match v with
  | VString s => mret (Z.of_nat (String.length s))
  | VTable id => t ← table_of id; of_outcome (length_ t)
  | _ => mret 0
  end.

(** Comparisons: an operand that is nil makes them false. *)
Definition RawEqual (index1 index2 : Z) : lua bool :=
  o1 ← indexToValue index1;
  o2 ← indexToValue index2;
  mret (negb (is_nil o1) && negb (is_nil o2) && go_eq o1 o2).
Inductive ComparisonOperator := OpEq | OpLT | OpLE.
Definition Compare (index1 index2 : Z) (op : ComparisonOperator) : lua bool :=
  o1 ← indexToValue index1;
  o2 ← indexToValue index2;
  if negb (is_nil o1) && negb (is_nil o2) then
    match op with OpEq => equalObjects call o1 o2 | OpLT => lessThan call o1 o2 | OpLE => lessOrEqual call o1 o2 end
  else mret false.
(** [op] by the event of its metamethod. *)
Definition Arith (op : tm) : lua unit :=
  _ ← (match op with tmUnaryMinus => v ← from_top 1; push v | _ => mret () end);
  o1 ← from_top 2;
  o2 ← from_top 1;
  v ← match o1, o2 with
      | VNumber x, VNumber y => r ← of_outcome (arith (op_of_event op) x y); mret (VNumber r)
      | _, _ => arith_values call o1 o2 op
      end;
  _ ← put_top 2 v;
  puts (λ s, set_top (top s - 1) s).
Definition Length (index : Z) : lua unit := v ← indexToValue index; n ← objectLength call v; push n.
Definition Concat (n : Z) : lua unit :=
  if 2 <=? n then concat call n else if n =? 0 then push (VString "") else mret ().

(** ** Pushing *)

Definition PushString (s : string) : lua unit := push (VString s).
Definition PushNil : lua unit := push VNil.
Definition PushNumber (f : float64) : lua unit := push (VNumber f).
Definition PushInteger (n : Z) : lua unit := push (VNumber (float_of_int n)).
Definition PushBoolean (b : bool) : lua unit := push (VBool b).

(** A function of Go is a new object each time; [f] is its code. *)
Definition PushGoClosure (f : nat) (upValueCount : Z) : lua unit :=
  id ← allocate;
  if upValueCount =? 0 then
    _ ← puts (λ s, set_goClosures (<[id := mkGoClosure f []]> (goClosures s)) s);
    push (VGoFunction id)
  else
    t ← gets top;
    _ ← puts (set_top (t - upValueCount));
    l ← gets stack;
    us ← of_outcome (stack_slice l (t - upValueCount) t);
    _ ← puts (λ s, set_goClosures (<[id := mkGoClosure f us]> (goClosures s)) s);
    push (VGoClosure id).
Definition PushGoFunction (f : nat) : lua unit := PushGoClosure f 0.
Definition PushThread : lua bool := _ ← push VThread; mret true.

(** Arguments of a format; [APointer] is an object with the text of its address. *)
Inductive format_arg := AString (s : string) | ANull | AInt (n : Z) | AFloat (f : float64) | ARune (r : Z) | APointer (address : string).
(** [string(r)] of any rune, in UTF-8. *)
Definition utf8 (r : Z) : bytes :=
  if (0 <=? r) && (r <? 2048) then rune_string r
  else
    let r := if (r <? 0) || (1114111 <? r) || ((55296 <=? r) && (r <=? 57343)) then 65533 else r in
    if r <? 65536 then [rune_byte (224 + r / 4096); rune_byte (128 + r / 64 mod 64); rune_byte (128 + r mod 64)]
    else [rune_byte (240 + r / 262144); rune_byte (128 + r / 4096 mod 64); rune_byte (128 + r / 64 mod 64); rune_byte (128 + r mod 64)].
(** [fmt.Sprintf] of a [%p], which is a complaint for what has no address. *)
Definition pointer_text (a : format_arg) : string :=
  match a with
  | APointer address => address
  | ANull => "%!p(<nil>)"
  | AString s => "%!p(string=" +:+ s +:+ ")"
  | AInt n => "%!p(int=" +:+ fmt_d n +:+ ")"
  | AFloat f => "%!p(float64=" +:+ fmt_v_float f +:+ ")"
  | ARune r => "%!p(int32=" +:+ fmt_d r +:+ ")"
  end.
Definition next_arg (args : list format_arg) : lua (format_arg * list format_arg) :=
  match args with a :: args => mret (a, args) | [] => go_error index_panic end.
(** One directive, the byte after [%], and the arguments for the next one: [%p] takes none away. *)
Definition format_directive (c : ascii) (args : list format_arg) : lua (list format_arg) :=
  if bool_decide (c = "s"%char) then
    '(a, args) ← next_arg args;
    match a with
    | AString s => _ ← push (VString s); mret args
    | ANull => _ ← push (VString "(null)"); mret args
    | _ => bad_assertion
    end
  else if bool_decide (c = "c"%char) then
    '(a, args) ← next_arg args;
    match a with ARune r => _ ← push (VString (to_string (utf8 r))); mret args | _ => bad_assertion end
  else if bool_decide (c = "d"%char) then
    '(a, args) ← next_arg args;
    match a with AInt n => _ ← push (VNumber (float_of_int n)); mret args | _ => bad_assertion end
  else if bool_decide (c = "f"%char) then
    '(a, args) ← next_arg args;
    match a with AFloat f => _ ← push (VNumber f); mret args | _ => bad_assertion end
  else if bool_decide (c = "p"%char) then '(a, _) ← next_arg args; _ ← push (VString (pointer_text a)); mret args
  else if bool_decide (c = "%"%char) then _ ← push (VString "%"); mret args
  else runtimeError call ("invalid option %" +:+ String c " to 'lua_pushfstring'").
(** The text before the first [%], and what follows it. *)
Fixpoint split_percent (b : bytes) : bytes * option bytes :=
  match b with
  | [] => ([], None)
  | c :: b => if bool_decide (c = "%"%char) then ([], Some b) else let '(x, r) := split_percent b in (c :: x, r)
  end.
Fixpoint format_loop (fuel : nat) (n : Z) (format : bytes) (args : list format_arg) : lua unit :=
  match fuel with
  | O => diverge
  | S k =>
      match split_percent format with
      | (_, None) =>
          _ ← checkStack call 1;
          _ ← push (VString (to_string format));
          if 0 <? n then concat call (n + 1) else mret ()
      | (before, Some rest) =>
          _ ← checkStack call 2;
          _ ← push (VString (to_string before));
          match rest with
          | [] => go_error index_panic
          | c :: rest => args ← format_directive c args; format_loop k (n + 2) rest args
          end
      end
  end.
Definition PushFString (format : string) (args : list format_arg) : lua string :=
  _ ← format_loop (S (String.length format)) 0 (to_bytes format) args;
  v ← from_top 1;
  match v with VString s => mret s | _ => bad_assertion end.

(** ** Tables *)

Definition to_table (v : value) : lua nat := match v with VTable id => mret id | _ => bad_assertion end.
Definition table_index (index : Z) : lua nat := v ← indexToValue index; to_table v.
Definition drop_top (n : Z) : lua unit := puts (λ s, set_top (top s - n) s).

Definition CreateTable (arrayCount recordCount : Z) : lua unit :=
  id ← allocate;
  _ ← set_table id (newTableWithSize arrayCount recordCount);
  push (VTable id).
Definition NewTable : lua unit := CreateTable 0 0.

(** The value under the key at the top takes its place. *)
Definition get_at_top (t : value) : lua unit :=
  k ← from_top 1;
  v ← tableAt call t k;
  put_top 1 v.
Definition Global (name : string) : lua unit := g ← global_table; _ ← push (VString name); get_at_top g.
Definition Field (index : Z) (name : string) : lua unit := t ← indexToValue index; _ ← push (VString name); get_at_top t.
Definition Table (index : Z) : lua unit := t ← indexToValue index; get_at_top t.
Definition RawGet (index : Z) : lua unit :=
  id ← table_index index;
  t ← table_of id;
  k ← from_top 1;
  v ← of_outcome (at_ k t);
  put_top 1 v.
Definition RawGetInt (index key : Z) : lua unit :=
  id ← table_index index;
  t ← table_of id;
  v ← of_outcome (atInt key t);
  push v.

Definition SetGlobal_ (name : string) : lua unit :=
  g ← global_table;
  _ ← push (VString name);
  k ← from_top 1;
  v ← from_top 2;
  _ ← setTableAt call g k v;
  drop_top 2.
Definition SetTable (index : Z) : lua unit :=
  t ← indexToValue index;
  k ← from_top 2;
  v ← from_top 1;
  _ ← setTableAt call t k v;
  drop_top 2.
Definition SetField (index : Z) (key : string) : lua unit :=
  t ← indexToValue index;
  _ ← push (VString key);
  v ← from_top 2;
  _ ← setTableAt call t (VString key) v;
  drop_top 2.
Definition RawSet (index : Z) : lua unit :=
  id ← table_index index;
  k ← from_top 2;
  v ← from_top 1;
  _ ← put_checked call id k v;
  drop_top 2.
Definition RawSetInt (index key : Z) : lua unit :=
  id ← table_index index;
  v ← from_top 1;
  t ← table_of id;
  t ← of_outcome (putAtInt key v t);
  _ ← set_table id t;
  drop_top 1.

Definition MetaTable (index : Z) : lua bool :=
  v ← indexToValue index;
  mt ← object_metatable v;
  match mt with None => mret false | Some mt => _ ← push (VTable mt); mret true end.
Definition set_metaTable (mt : option nat) (t : table) : table := mkTable (array t) (hash t) mt (flags t) (iterationKeys t).
(** A value at the top that is no table is none. *)
Definition SetMetaTable (index : Z) : lua unit :=
  m ← from_top 1;
  let mt := match m with VTable id => Some id | _ => None end in
  v ← indexToValue index;
  _ ← match v with
      | VTable id => t ← table_of id; set_table id (set_metaTable mt t)
      | VUserData id => puts (λ s, mkState (stack s) (top s) (stackLast s) (callInfos s) (tables s) (closures s) (goClosures s)
          (<[id := mt]> (userDatas s)) (protos s) (upCells s) (openUpValues s) (metaTables s) (fresh s) (nestedCalls s)
          (nonYieldable s) (errorFunction s) (registry s) (world s))
      | _ =>
          let ty := valueToType v in
          if ty <? 0 then go_error index_panic
          else puts (λ s, set_metaTables (partial_alter (λ _, mt) ty (metaTables s)) s)
      end;
  drop_top 1.

(** *** Traversal *)

(** The loop over the keys of the map. *)
Fixpoint find_next (k : value) (found : bool) (keys : list value) : lua (option value) :=
  match keys with
  | [] => mret None
  | hk :: keys => if found then mret (Some hk) else b ← equalObjects call hk k; find_next k b keys
  end.
(** [l.next(t, key)]: the slot [key] and the one above get the next key and its value. *)
Definition next_at (id : nat) (key : Z) : lua bool :=
  k ← stack_at key;
  t ← table_of id;
  start ← match next_start k t with
          | Ok i => mret i
          | Err e => runtimeError call (Error e)
          | Panic m => go_error m
          end;
  _ ← (if is_nil k then set_table id (set_keys None t) else mret ());
  match first_slot start (drop (Z.to_nat start) (array t)) with
  | Some (i, v) =>
      _ ← stack_put key (VNumber (float_of_int (i + 1)));
      _ ← stack_put (key + 1) v;
      mret true
  | None =>
      t ← table_of id;
      let keys := match iterationKeys t with Some l => l | None => order (hash t) end in
      _ ← set_table id (set_keys (Some keys) t);
      r ← find_next k (is_nil k) keys;
      t ← table_of id;
      match r with
      | Some hk =>
          _ ← stack_put key hk;
          _ ← stack_put (key + 1) (hget (hash t) hk);
          mret true
      | None => _ ← set_table id (set_keys None t); mret false
      end
  end.
Definition Next (index : Z) : lua bool :=
  id ← table_index index;
  t ← gets top;
  more ← next_at id (t - 1);
  if (more : bool) then _ ← puts (set_top (t + 1)); mret true else _ ← puts (set_top (t - 1)); mret false.

(** ** Calls and errors *)

(** [Call]: no continuation. *)
Definition Call (argCount wanted : Z) : lua unit :=
  t ← gets top;
  _ ← call (t - (argCount + 1)) wanted false;
  adjustResults wanted.
(** [ProtectedCall] from a Go function. *)
Definition ProtectedCall_ (argCount wanted errorFunc : Z) : lua (option exn) :=
  ef ← (if errorFunc =? 0 then mret 0 else _ ← indexToValue errorFunc; AbsIndex errorFunc);
  t ← gets top;
  let f := t - (argCount + 1) in
  err ← protectedCall (call f wanted false) f ef;
  _ ← adjustResults wanted;
  mret err.
Definition Error_ {A} : lua A := errorMessage call.
Definition Register (name : string) (f : nat) : lua unit := _ ← PushGoFunction f; SetGlobal_ name.
End api.
