(* ===== verification/LuaAux.v ===== *)
(** * The auxiliary library and what errors say (Shopify/go-lua: auxiliary.go, debug.go)

    Checks of the arguments of Go functions with their messages, fields of metatables,
    tables of the registry, and libraries.  [Stack] and [Info] look at the calls in
    progress: a frame is its place in [callInfos], the last of which is the base call.
    [pointer] is the text that [%p] makes of an object. *)
From Stdlib Require Import ZArith Lia Ascii.
From stdpp Require Import base option list gmap strings.
From S2P Require Import Prelude GoNum GoFmt Strconv LuaInstr LuaTable LuaScan LuaProto LuaState LuaCall LuaVM LuaLoad LuaApi.
From Stdlib Require Import SpecFloat.

(** A [Debug], as far as messages need it. *)
Record Debug := mkDebug {
  d_Name : string; d_NameKind : string; d_What : string; d_Source : string; d_ShortSource : string;
  d_CurrentLine : Z; d_LineDefined : Z; d_IsTailCall : bool
}.
Definition no_debug : Debug := mkDebug "" "" "" "" "" 0 0 false.

Section auxiliary.
Context {Wd : World} `{GoMath}.
Context (call : Z → Z → bool → lua unit).
Context (order : gmap value value → list value).
Context (pointer : value → string).

(** ** Frames *)

(** [Stack(l, level)]: the calls from the frame on. *)
Definition Stack (level : Z) : lua (option (list callInfo)) :=
  cs ← gets callInfos;
  mret (if (0 <=? level) && (level <? Z.of_nat (length cs) - 1) then Some (drop (Z.to_nat level) cs) else None).
Definition frame_call (fr : list callInfo) : lua callInfo := of_option (head fr).

(** The name that the instruction at [savedPC], the next one, has for what it calls. *)
Definition event_name (e : tm) : string * string := ((event_of e).2, "metamethod"%string).
Definition functionName_ (ci : callInfo) : lua (string * string) :=
  p ← prototype_of ci;
  i ← of_outcome (slice_at (p_code p) (savedPC ci));
  match op_of (opField i) with
  | Some opCall | Some opTailCall => of_outcome (objectName p (getA i) (savedPC ci))
  | Some opTForCall => mret ("for iterator", "for iterator")%string
  | Some opSelf | Some opGetTableUp | Some opGetTable => mret (event_name tmIndex)
  | Some opSetTableUp | Some opSetTable => mret (event_name tmNewIndex)
  | Some opEqual => mret (event_name tmEq)
  | Some opAdd => mret (event_name tmAdd)
  | Some opSub => mret (event_name tmSub)
  | Some opMul => mret (event_name tmMul)
  | Some opDiv => mret (event_name tmDiv)
  | Some opMod => mret (event_name tmMod)
  | Some opPow => mret (event_name tmPow)
  | Some opUnaryMinus => mret (event_name tmUnaryMinus)
  | Some opLength => mret (event_name tmLen)
  | Some opLessThan => mret (event_name tmLT)
  | Some opLessOrEqual => mret (event_name tmLE)
  | Some opConcat => mret (event_name tmConcat)
  | _ => mret (""%string, ""%string)
  end.

(** [functionInfo]: source and kind of the function [f]; [None] is a function of Go. *)
Definition functionInfo (p : option prototype) (d : Debug) : Debug :=
  let make what source line := mkDebug (d_Name d) (d_NameKind d) what source (chunkID source) (d_CurrentLine d) line (d_IsTailCall d) in
  match p with
  | None => make "Go"%string "=[Go]"%string (-1)
  | Some p =>
      make (if p_lineDefined p =? 0 then "main"%string else "Lua"%string)
        (if bool_decide (p_source p = ""%string) then "=?"%string else p_source p) (p_lineDefined p)
  end.

(** The options of [Info]. *)
Definition frame_prototype (ci : callInfo) : lua (option prototype) :=
  v ← stack_at (ci_function ci);
  match v with
  | VLua _ => p ← prototype_of ci; mret (Some p)
  | VGoClosure _ | VGoFunction _ => mret None
  | _ => _ ← assert_l call false; mret None
  end.
Definition info_S (ci : callInfo) (d : Debug) : lua Debug := p ← frame_prototype ci; mret (functionInfo p d).
Definition info_l (ci : callInfo) (d : Debug) : lua Debug :=
  ln ← (if ci_lua ci then currentLine ci else mret (-1));
  mret (mkDebug (d_Name d) (d_NameKind d) (d_What d) (d_Source d) (d_ShortSource d) ln (d_LineDefined d) (d_IsTailCall d)).
Definition info_t (ci : callInfo) (d : Debug) : lua Debug :=
  mret (mkDebug (d_Name d) (d_NameKind d) (d_What d) (d_Source d) (d_ShortSource d) (d_CurrentLine d) (d_LineDefined d) (tail_called ci)).
Definition info_n (fr : list callInfo) (d : Debug) : lua Debug :=
  ci ← frame_call fr;
  previous ← frame_call (tail fr);
  '(name, kind) ← (if negb (tail_called ci) && ci_lua previous then functionName_ previous else mret (d_Name d, ""%string));
  mret (mkDebug (if bool_decide (kind = ""%string) then ""%string else name) kind (d_What d) (d_Source d) (d_ShortSource d)
          (d_CurrentLine d) (d_LineDefined d) (d_IsTailCall d)).
(** [Info(l, "f", ..)] pushes the closure; for a function of Go, which is none, nil. *)
Definition info_f (ci : callInfo) : lua unit :=
  v ← stack_at (ci_function ci);
  match v with
  | VLua _ | VGoClosure _ => push v
  | VGoFunction _ => push VNil
  | _ => assert_l call false
  end.

(** [Where(l, level)]. *)
Definition Where (level : Z) : lua unit :=
  fr ← Stack level;
  match fr with
  | None => PushString ""
  | Some fr =>
      ci ← frame_call fr;
      d ← info_S ci no_debug;
      d ← info_l ci d;
      if 0 <? d_CurrentLine d then PushString (d_ShortSource d +:+ ":" +:+ fmt_d (d_CurrentLine d) +:+ ": ") else PushString ""
  end.

Definition Errorf_ {A} (format : string) (args : list format_arg) : lua A :=
  _ ← Where 1;
  _ ← PushFString call format args;
  _ ← Concat call 2;
  Error_ call.

(** ** Names of functions *)

(** The loop of [findField] over a table below the top; [inside] is the search one level
    down.  The name is left on the stack. *)
Fixpoint field_loop (fuel : nat) (inside : lua bool) (objectIndex : Z) : lua bool :=
  match fuel with
  | O => diverge
  | S k =>
      more ← Next call order (-2);
      if negb more then mret false
      else
        str ← IsString (-2);
        found ← (if (str : bool) then
                   same ← RawEqual objectIndex (-1);
                   if (same : bool) then _ ← Pop 1; mret true
                   else
                     deep ← inside;
                     if (deep : bool) then
                       _ ← Remove (-2);
                       _ ← PushString ".";
                       _ ← Insert (-2);
                       _ ← Concat call 3;
                       mret true
                     else mret false
                 else mret false);
        if (found : bool) then mret true else _ ← Pop 1; field_loop k inside objectIndex
  end.
(** A table is walked for at most its entries. *)
Fixpoint findField (level : nat) (objectIndex : Z) : lua bool :=
  match level with
  | O => mret false
  | S level =>
      t ← IsTable (-1);
      if (t : bool) then
        id ← table_index (-1);
        tab ← table_of id;
        _ ← PushNil;
        field_loop (S (entries tab)) (findField level objectIndex) objectIndex
      else mret false
  end.
Definition pushGlobalFunctionName (fr : list callInfo) : lua bool :=
  t ← Top;
  ci ← frame_call fr;
  _ ← info_f ci;
  _ ← RawGetInt RegistryIndex RegistryIndexGlobals;
  found ← findField 2 (t + 1);
  if (found : bool) then _ ← Copy_ (-1) (t + 1); _ ← Pop 2; mret true
  else _ ← SetTop t; mret false.

(** ** Errors of arguments *)

Definition ArgumentError {A} (argCount : Z) (extraMessage : string) : lua A :=
  fr ← Stack 0;
  match fr with
  | None => Errorf_ "bad argument #%d (%s)" [AInt argCount; AString extraMessage]
  | Some fr =>
      d ← info_n fr no_debug;
      let method := bool_decide (d_NameKind d = "method"%string) in
      let argCount := if method then argCount - 1 else argCount in
      if method && (argCount =? 0) then Errorf_ "calling '%s' on bad self (%s)" [AString (d_Name d); AString extraMessage]
      else
        name ← (if bool_decide (d_Name d = ""%string) then
                  found ← pushGlobalFunctionName fr;
                  if (found : bool) then s ← ToString_ (-1); mret (default ""%string s) else mret "?"%string
                else mret (d_Name d));
        Errorf_ "bad argument #%d to '%s' (%s)" [AInt argCount; AString name; AString extraMessage]
  end.

(** [t.String()] panics for a type that has no name. *)
Definition type_string (t : Z) : lua string := of_outcome (slice_at typeNames (t + 1)).
Definition TypeNameOf (index : Z) : lua string := t ← TypeOf index; type_string t.
Definition argTypeError {A} (argCount : Z) (typeName : string) : lua A :=
  got ← TypeNameOf argCount;
  let message := (typeName +:+ " expected, got " +:+ got)%string in
  _ ← PushString message;
  ArgumentError argCount message.
Definition tagError {A} (argCount : Z) (tag : Z) : lua A := name ← type_string tag; argTypeError argCount name.

Definition CheckType (index t : Z) : lua unit := t' ← TypeOf index; if t' =? t then mret () else tagError index t.
Definition CheckAny (index : Z) : lua unit := t ← TypeOf index; if t =? TypeNone then ArgumentError index "value expected" else mret ().
Definition ArgumentCheck (cond : bool) (index : Z) (extraMessage : string) : lua unit :=
  if cond then mret () else ArgumentError index extraMessage.
Definition CheckString_ (index : Z) : lua string :=
  s ← ToString_ index; match s with Some s => mret s | None => tagError index TypeString end.
Definition CheckNumber (index : Z) : lua float64 :=
  n ← ToNumber index; match n with Some n => mret n | None => tagError index TypeNumber end.
Definition CheckInteger (index : Z) : lua Z :=
  n ← ToInteger index; match n with Some n => mret n | None => tagError index TypeNumber end.
Definition optional {A} (index : Z) (def : A) (check : Z → lua A) : lua A :=
  b ← IsNoneOrNil index; if (b : bool) then mret def else check index.
Definition OptString (index : Z) (def : string) : lua string := optional index def CheckString_.
Definition OptNumber (index : Z) (def : float64) : lua float64 := optional index def CheckNumber.
Definition OptInteger (index def : Z) : lua Z := optional index def CheckInteger.

(** [LengthEx]: the length, with its metamethod, as an integer. *)
Definition LengthEx (index : Z) : lua Z :=
  _ ← Length call index;
  n ← ToInteger (-1);
  match n with Some n => _ ← Pop 1; mret n | None => Errorf_ "object length is not a number" [] end.

(** ** Metatables *)

Definition MetaField (index : Z) (event : string) : lua bool :=
  m ← MetaTable index;
  if negb m then mret false
  else
    _ ← PushString event;
    _ ← RawGet (-2);
    n ← IsNil (-1);
    if (n : bool) then _ ← Pop 2; mret false else _ ← Remove (-2); mret true.
Definition CallMeta (index : Z) (event : string) : lua bool :=
  index ← AbsIndex index;
  f ← MetaField index event;
  if negb f then mret false else _ ← PushValue index; _ ← Call call 1 1; mret true.
Definition ToStringMeta (index : Z) : lua (option string) :=
  m ← CallMeta index "__tostring";
  _ ← (if (m : bool) then mret ()
       else
         v ← indexToValue index;
         match v with
         | VNumber _ | VString _ => PushValue index
         | VBool b => PushString (if b then "true" else "false")
         | VNil => PushString "nil"
         | _ =>
             name ← TypeNameOf index;
             v ← ToValue_ index;
             _ ← PushFString call "%s: %p" [AString name; match v with VNil => ANull | _ => APointer (pointer v) end];
             mret ()
         end);
  ToString_ (-1).

Definition MetaTableNamed (name : string) : lua unit := Field call RegistryIndex name.
Definition NewMetaTable (name : string) : lua bool :=
  _ ← MetaTableNamed name;
  n ← IsNil (-1);
  if negb n then mret false
  else
    _ ← Pop 1;
    _ ← NewTable;
    _ ← PushValue (-1);
    _ ← SetField call RegistryIndex name;
    mret true.
Definition SetMetaTableNamed (name : string) : lua unit := _ ← MetaTableNamed name; SetMetaTable (-2).

(** ** Libraries *)

Definition CheckStackWithMessage (space : Z) (message : string) : lua unit :=
  ok ← CheckStack_ call (space + MinStack);
  if (ok : bool) then mret ()
  else if bool_decide (message = ""%string) then Errorf_ "stack overflow" []
  else Errorf_ "stack overflow (%s)" [AString message].

Fixpoint repeat_push (n : nat) (index : Z) : lua unit :=
  match n with O => mret () | S n => _ ← PushValue index; repeat_push n index end.
Fixpoint set_functions (l : list (string * nat)) (uvCount : Z) : lua unit :=
  match l with
  | [] => mret ()
  | (name, f) :: l =>
      _ ← repeat_push (Z.to_nat uvCount) (- uvCount);
      _ ← PushGoClosure f uvCount;
      _ ← SetField call (- (uvCount + 2)) name;
      set_functions l uvCount
  end.
Definition SetFunctions (functions : list (string * nat)) (upValueCount : Z) : lua unit :=
  _ ← CheckStackWithMessage upValueCount "too many upvalues";
  _ ← set_functions functions upValueCount;
  Pop upValueCount.

Definition SubTable (index : Z) (name : string) : lua bool :=
  _ ← Field call index name;
  t ← IsTable (-1);
  if (t : bool) then mret true
  else
    _ ← Pop 1;
    index ← AbsIndex index;
    _ ← NewTable;
    _ ← PushValue (-1);
    _ ← SetField call index name;
    mret false.
Definition Require_ (name : string) (f : nat) (global : bool) : lua unit :=
  _ ← PushGoFunction f;
  _ ← PushString name;
  _ ← Call call 1 1;
  _ ← SubTable RegistryIndex "_LOADED";
  _ ← PushValue (-2);
  _ ← SetField call (-2) name;
  _ ← Pop 1;
  if global then _ ← PushValue (-1); SetGlobal_ call name else mret ().
Definition NewLibraryTable (functions : list (string * nat)) : lua unit := CreateTable 0 (Z.of_nat (length functions)).
Definition NewLibrary (functions : list (string * nat)) : lua unit :=
  _ ← NewLibraryTable functions; SetFunctions functions 0.
End auxiliary.
