(* ===== verification/LuaApiProps.v ===== *)
(** * The stack of a Go function is a list

    What the operations of the API on indices do to the part of the stack that belongs to
    the running Go function, and the facts on which the proofs about the engine rest. *)
From Stdlib Require Import ZArith Lia Ascii.
From stdpp Require Import base option list gmap strings.
From S2P Require Import Prelude GoNum GoFmt Strconv LuaInstr LuaTable LuaTableProps LuaScan LuaProto LuaState LuaCall LuaVM LuaLoad LuaVMFacts LuaRun LuaApi LuaAux.
From Stdlib Require Import SpecFloat.

(** The position in a list of [n] elements that an index means. *)
Definition place (n : nat) (index : Z) : Z := if 0 <? index then index - 1 else Z.of_nat n + index.
Definition index_of (n : nat) (index : Z) (k : nat) : Prop :=
  index ≠ 0 ∧ place n index = Z.of_nat k ∧ (k < n)%nat ∧ Z.of_nat n ≤ maxStack.

Lemma index_of_negative n index k : index_of n index k → index < 0 → RegistryIndex < index ∧ Z.of_nat n + index = Z.of_nat k.
Proof.
  intros (H0 & Hp & Hk & Hn) Hi. unfold place, RegistryIndex, firstPseudoIndex in *. rewrite (proj2 (Z.ltb_ge 0 index)) in Hp by lia. lia.
Qed.
Lemma index_of_positive n index k : index_of n index k → 0 < index → index = Z.of_nat k + 1.
Proof. intros (H0 & Hp & Hk & Hn) Hi. unfold place in *. rewrite (proj2 (Z.ltb_lt 0 index)) in Hp by lia. lia. Qed.

Lemma stack_at_is {Wd : World} i k v s : i = Z.of_nat k → stack s !! k = Some v → stack_at i s = Done v s.
Proof. intros -> Hv. unfold stack_at. rewrite gets_done, (slice_at_ok _ _ v); [done|lia|by rewrite Nat2Z.id]. Qed.
Lemma stack_put_is {Wd : World} i k v s : i = Z.of_nat k → (k < length (stack s))%nat → stack_put i v s = Done () (set_stack (<[k := v]> (stack s)) s).
Proof. intros -> Hk. unfold stack_put. rewrite gets_done, slice_put_ok, Nat2Z.id by lia. done. Qed.

(** The first action of a sequence, by the equation of its run. *)
Ltac act H := rewrite (bind_done _ _ _ _ _ H).

Section frame.
Context {Wd : World}.
Context (s0 : lstate) (lo : list value) (ci : callInfo) (cs : list callInfo).
Hypothesis Hcalls : callInfos s0 = ci :: cs.
Hypothesis Hfunction : ci_function ci + 1 = Z.of_nat (length lo).

(** The function's values are [args]; [hi] lies above the top. *)
Definition frame (args hi : list value) : lstate := with_stack (lo ++ args ++ hi) (Z.of_nat (length lo + length args)) s0.

Lemma function_slot_done args hi : function_slot (frame args hi) = Done (Z.of_nat (length lo) - 1) (frame args hi).
Proof.
  unfold function_slot. erewrite (bind_done this_call _ _ ci).
  2: { unfold this_call. rewrite gets_done. change (callInfos (frame args hi)) with (callInfos s0). by rewrite Hcalls. }
  replace (ci_function ci) with (Z.of_nat (length lo) - 1) by lia. done.
Qed.
Lemma frame_top args hi : top (frame args hi) = Z.of_nat (length lo + length args).
Proof. done. Qed.
Lemma frame_stack args hi : stack (frame args hi) = lo ++ args ++ hi.
Proof. done. Qed.
Lemma frame_lookup args hi k v : args !! k = Some v → (lo ++ args ++ hi) !! (length lo + k)%nat = Some v.
Proof. intros Hv. rewrite lookup_app_r by lia. replace (length lo + k - length lo)%nat with k by lia. by apply lookup_app_l_Some. Qed.
Lemma frame_insert args hi k v : (k < length args)%nat → <[(length lo + k)%nat := v]> (lo ++ args ++ hi) = lo ++ <[k := v]> args ++ hi.
Proof. intros Hk. rewrite insert_app_r. f_equal. by rewrite insert_app_l. Qed.

(** States that differ from a frame in the stack and the top are frames. *)
Lemma frame_eq l t args hi args' hi' : l = lo ++ args' ++ hi' → t = Z.of_nat (length lo + length args') →
  set_top t (set_stack l (frame args hi)) = frame args' hi'.
Proof. by intros -> ->. Qed.
Lemma frame_stack_eq l args hi args' hi' : l = lo ++ args' ++ hi' → length args' = length args → set_stack l (frame args hi) = frame args' hi'.
Proof. intros -> H. unfold frame. by rewrite H. Qed.
Lemma frame_top_eq t args hi args' hi' : args ++ hi = args' ++ hi' → t = Z.of_nat (length lo + length args') →
  set_top t (frame args hi) = frame args' hi'.
Proof. intros H ->. unfold frame. by rewrite <- H. Qed.

(** ** Indices *)

Lemma indexToValue_done index k v args hi : index_of (length args) index k → args !! k = Some v →
  indexToValue index (frame args hi) = Done v (frame args hi).
Proof.
  intros Hi Hv. unfold indexToValue. destruct (Z.ltb_spec 0 index) as [Hp|Hp].
  - act (function_slot_done args hi). rewrite gets_done, frame_top. pose proof (index_of_positive _ _ _ Hi Hp) as ->. destruct Hi as (_ & _ & Hk & _).
    rewrite (proj2 (Z.leb_gt _ _)) by lia. apply (stack_at_is _ (length lo + k)); [lia|]. rewrite frame_stack. by apply frame_lookup.
  - destruct (index_of_negative _ _ _ Hi) as [Hr Hk]; [destruct Hi as (? & _); lia|]. rewrite (proj2 (Z.ltb_lt _ _) Hr), gets_done, frame_top.
    apply (stack_at_is _ (length lo + k)); [lia|]. rewrite frame_stack. by apply frame_lookup.
Qed.
(** Beyond the top lies no value. *)
Lemma indexToValue_none index args hi : Z.of_nat (length args) < index →
  indexToValue index (frame args hi) = Done none (frame args hi).
Proof.
  intros Hi. unfold indexToValue. rewrite (proj2 (Z.ltb_lt 0 index)) by lia. act (function_slot_done args hi). rewrite gets_done, frame_top.
  by rewrite (proj2 (Z.leb_le _ _)) by lia.
Qed.
Lemma setIndexToValue_done index k v args hi : index_of (length args) index k →
  setIndexToValue index v (frame args hi) = Done () (frame (<[k := v]> args) hi).
Proof.
  intros Hi. pose proof Hi as (_ & _ & Hk & _).
  assert (∀ j, j = Z.of_nat (length lo + k) → stack_put j v (frame args hi) = Done () (frame (<[k := v]> args) hi)) as Hput.
  { intros j Hj. rewrite (stack_put_is _ (length lo + k)) by (done || rewrite frame_stack, !length_app; lia).
    rewrite frame_stack, frame_insert by done. f_equal. apply frame_stack_eq; [done|]. by rewrite length_insert. }
  unfold setIndexToValue. destruct (Z.ltb_spec 0 index) as [Hp|Hp].
  - act (function_slot_done args hi). rewrite gets_done, frame_top. pose proof (index_of_positive _ _ _ Hi Hp) as ->.
    rewrite (proj2 (Z.leb_gt _ _)) by lia. apply Hput. lia.
  - destruct (index_of_negative _ _ _ Hi) as [Hr Hk']; [destruct Hi as (? & _); lia|]. rewrite (proj2 (Z.ltb_lt _ _) Hr), gets_done, frame_top.
    apply Hput. lia.
Qed.
Lemma AbsIndex_done index k args hi : index_of (length args) index k →
  AbsIndex index (frame args hi) = Done (Z.of_nat k + 1) (frame args hi).
Proof.
  intros Hi. unfold AbsIndex. destruct (Z.ltb_spec 0 index) as [Hp|Hp].
  - pose proof (index_of_positive _ _ _ Hi Hp) as ->. done.
  - destruct (index_of_negative _ _ _ Hi) as [Hr Hk]; [destruct Hi as (? & _); lia|]. unfold isPseudoIndex.
    rewrite (proj2 (Z.leb_gt _ _) Hr). cbn [orb]. rewrite gets_done. act (function_slot_done args hi). rewrite frame_top. unfold mret, lua_ret. f_equal. lia.
Qed.

(** ** The top *)

Lemma push_done v x args hi : push v (frame args (x :: hi)) = Done () (frame (args ++ [v]) hi).
Proof.
  unfold push. rewrite gets_done, frame_top. erewrite (stack_put_mid (lo ++ args)); [|by rewrite frame_stack, <- app_assoc|by rewrite length_app].
  unfold puts. f_equal. apply frame_eq; [by rewrite <- !app_assoc|rewrite length_app; simpl; lia].
Qed.
Lemma from_top_last v args hi : from_top 1 (frame (args ++ [v]) hi) = Done v (frame (args ++ [v]) hi).
Proof.
  unfold from_top. rewrite gets_done, frame_top. apply (stack_at_is _ (length lo + length args)); [rewrite length_app; simpl; lia|].
  rewrite frame_stack. apply frame_lookup. by rewrite lookup_app_r, Nat.sub_diag by lia.
Qed.
Lemma last_at v args hi : stack_at (top (frame (args ++ [v]) hi) - 1) (frame (args ++ [v]) hi) = Done v (frame (args ++ [v]) hi).
Proof. exact (from_top_last v args hi). Qed.
Lemma drop_last n l args hi : length l = Z.to_nat n → 0 ≤ n →
  drop_top n (frame (args ++ l) hi) = Done () (frame args (l ++ hi)).
Proof.
  intros Hl Hn. unfold drop_top, puts. f_equal. apply frame_top_eq; [by rewrite <- app_assoc|].
  rewrite ?frame_top, ?length_app. lia.
Qed.

(** ** Operations *)

Lemma slice_of_ok {A} (l : list A) lo' hi' : 0 ≤ lo' ≤ hi' → hi' ≤ Z.of_nat (length l) →
  stack_slice l lo' hi' = Ok (take (Z.to_nat (hi' - lo')) (drop (Z.to_nat lo') l)).
Proof. intros H1 H2. unfold stack_slice. rewrite !(proj2 (Z.leb_le _ _)) by lia. done. Qed.

(** The part from the [k]-th argument to the [j]-th. *)
Lemma frame_slice args hi k j : (k ≤ j ≤ length args)%nat →
  stack_slice (lo ++ args ++ hi) (Z.of_nat (length lo + k)) (Z.of_nat (length lo + j)) = Ok (take (j - k) (drop k args)).
Proof.
  intros Hk. rewrite slice_of_ok by (rewrite ?length_app; lia). f_equal. rewrite Nat2Z.id.
  replace (Z.to_nat _) with (j - k)%nat by lia. rewrite drop_app_ge by lia. replace (length lo + k - length lo)%nat with k by lia.
  rewrite drop_app_le by lia. rewrite take_app_le by (rewrite length_drop; lia). done.
Qed.
(** A copy over a part as long as what is copied. *)
Lemma copy_frame p d src l a b : length src = length d → a = Z.of_nat (length lo + length p) → b = a + Z.of_nat (length d) →
  stack_copy (lo ++ p ++ d ++ l) a b src = Ok (lo ++ p ++ src ++ l).
Proof.
  intros Hsrc -> ->. unfold stack_copy. rewrite slice_of_ok by (rewrite ?length_app; lia). cbn [mbind outcome_bind].
  rewrite length_take, length_drop, !length_app, Nat2Z.id. replace (Nat.min _ (length src)) with (length src) by lia.
  rewrite firstn_all. f_equal. replace (lo ++ p ++ d ++ l) with ((lo ++ p) ++ d ++ l) by by rewrite <- app_assoc.
  rewrite take_app_length' by by rewrite length_app. rewrite <- app_assoc. do 3 f_equal.
  rewrite drop_app_ge by (rewrite length_app; lia). apply drop_app_length'. rewrite length_app. lia.
Qed.

Lemma Top_done args hi : Top (frame args hi) = Done (Z.of_nat (length args)) (frame args hi).
Proof. unfold Top. rewrite gets_done. act (function_slot_done args hi). rewrite frame_top. unfold mret, lua_ret. f_equal. lia. Qed.

Lemma PushValue_done index k v x args hi : index_of (length args) index k → args !! k = Some v →
  PushValue index (frame args (x :: hi)) = Done () (frame (args ++ [v]) hi).
Proof. intros Hi Hv. unfold PushValue. act (indexToValue_done _ _ _ _ (x :: hi) Hi Hv). apply push_done. Qed.

Lemma Copy_done from to i j v args hi : index_of (length args) from i → index_of (length args) to j → args !! i = Some v →
  Copy_ from to (frame args hi) = Done () (frame (<[j := v]> args) hi).
Proof. intros Hi Hj Hv. unfold Copy_. act (indexToValue_done _ _ _ _ hi Hi Hv). by apply setIndexToValue_done. Qed.

Lemma Replace_done index k v args hi : index_of (length (args ++ [v])) index k →
  Replace index (frame (args ++ [v]) hi) = Done () (frame (<[k := v]> args) (v :: hi)).
Proof.
  intros Hi. pose proof Hi as (_ & _ & Hk & _). rewrite length_app in Hk. simpl in Hk. unfold Replace. rewrite gets_done.
  act (last_at v args hi). act (setIndexToValue_done index k v _ hi Hi). unfold puts. f_equal. apply frame_top_eq.
  - destruct (decide (k = length args)) as [->|].
    + rewrite (list_insert_ge args) by lia. rewrite insert_app_r_alt, Nat.sub_diag by lia. by rewrite <- app_assoc.
    + rewrite insert_app_l by lia. by rewrite <- app_assoc.
  - rewrite frame_top, length_insert, length_app. simpl. lia.
Qed.

Lemma Remove_done index k v args hi : index_of (length args) index k → args !! k = Some v →
  ∃ w, Remove index (frame args hi) = Done () (frame (delete k args) (w :: hi)).
Proof.
  intros Hi Hv. pose proof Hi as (_ & _ & Hk & _). unfold Remove. act (indexToValue_done _ _ _ _ hi Hi Hv).
  act (function_slot_done args hi). act (AbsIndex_done index k args hi Hi). rewrite !gets_done, frame_stack, frame_top.
  set (w := default VNil (last args)). exists w. pose proof (drop_S args v k Hv) as HS.
  assert (∃ m, drop k args = m ++ [w] ∧ length m = (length args - S k)%nat) as (m & Hm & Hlm).
  { destruct (drop k args) as [|y m _] eqn:E using rev_ind; [done|]. exists m. assert (w = y) as ->.
    - unfold w. rewrite <- (take_drop k args), E, app_assoc, last_snoc. done.
    - split; [done|]. pose proof (f_equal length E) as Hl. rewrite length_drop, length_app in Hl. simpl in Hl. lia. }
  rewrite (bind_done _ _ _ (drop (S k) args) (frame args hi)).
  2: { replace (Z.of_nat (length lo) - 1 + (Z.of_nat k + 1) + 1) with (Z.of_nat (length lo + S k)) by lia.
       rewrite frame_slice by lia. unfold of_outcome. rewrite take_ge by (rewrite length_drop; lia). done. }
  rewrite (bind_done _ _ _ (lo ++ take k args ++ drop (S k) args ++ w :: hi) (frame args hi)).
  2: { rewrite <- (take_drop k args) at 1. rewrite Hm, <- !app_assoc.
       rewrite (copy_frame (take k args) m (drop (S k) args)); [done|rewrite length_drop; lia|rewrite length_take; lia|lia]. }
  rewrite puts_done. unfold puts. f_equal. apply frame_eq; [by rewrite delete_take_drop, <- app_assoc|].
  rewrite length_delete by by eexists. lia.
Qed.

Lemma Insert_done index k v x args hi : index_of (length (args ++ [v])) index k →
  Insert index (frame (args ++ [v]) (x :: hi)) = Done () (frame (take k args ++ v :: drop k args) (v :: hi)).
Proof.
  intros Hi. pose proof Hi as (_ & _ & Hk & _). rewrite length_app in Hk. simpl in Hk. unfold Insert.
  destruct (lookup_lt_is_Some_2 (args ++ [v]) k) as [y Hy]; [rewrite length_app; simpl; lia|].
  act (indexToValue_done _ _ _ _ (x :: hi) Hi Hy). act (function_slot_done (args ++ [v]) (x :: hi)).
  act (AbsIndex_done index k _ (x :: hi) Hi). rewrite !gets_done, frame_stack, frame_top.
  replace (Z.of_nat (length lo) - 1 + (Z.of_nat k + 1)) with (Z.of_nat (length lo + k)) by lia.
  rewrite (bind_done _ _ _ (drop k args ++ [v]) (frame (args ++ [v]) (x :: hi))).
  2: { rewrite frame_slice by (rewrite length_app; simpl; lia). unfold of_outcome. rewrite take_ge by (rewrite length_drop; lia).
       by rewrite drop_app_le by lia. }
  set (s1 := set_stack (lo ++ take k args ++ y :: drop k args ++ v :: hi) (frame (args ++ [v]) (x :: hi))).
  rewrite (bind_done _ _ _ (stack s1) (frame (args ++ [v]) (x :: hi))).
  2: { replace ((args ++ [v]) ++ x :: hi) with (take (S k) (args ++ [v]) ++ (drop (S k) (args ++ [v]) ++ [x]) ++ hi) by (by rewrite <- app_assoc, app_assoc, take_drop).
       rewrite (copy_frame _ _ (drop k args ++ [v])).
       - unfold s1. cbn. rewrite (take_S_r _ _ y Hy), take_app_le, <- !app_assoc by lia. done.
       - rewrite !length_app, !length_drop, length_app. cbn [length]. lia.
       - rewrite length_take, length_app. cbn [length]. lia.
       - rewrite !length_app, length_drop, length_app. cbn [length]. lia. }
  rewrite puts_done. change (set_stack (stack s1) _) with s1.
  assert (stack s1 = (lo ++ take k args ++ y :: drop k args) ++ v :: hi) as Hs1 by (unfold s1; cbn; by rewrite <- !app_assoc).
  erewrite stack_at_mid; [|exact Hs1|rewrite !length_app; simpl; rewrite length_take, length_drop; simpl; lia].
  rewrite (stack_put_is _ (length lo + k)); [|done|rewrite Hs1, !length_app; simpl; rewrite length_take; lia].
  f_equal. transitivity (set_stack (<[(length lo + k)%nat := v]> (stack s1)) (frame (args ++ [v]) (x :: hi))); [done|].
  apply frame_stack_eq; [|rewrite !length_app; cbn; rewrite length_take, length_drop; lia].
  unfold s1. cbn [stack set_stack]. rewrite insert_app_r, (insert_app_r_alt (take k args)) by (rewrite length_take; lia).
  rewrite length_take. replace (k - Nat.min k (length args))%nat with 0%nat by lia. cbn. by rewrite <- !app_assoc.
Qed.

Lemma SetTop_done n args hi : (n ≤ length args + length hi)%nat →
  ∃ hi', SetTop (Z.of_nat n) (frame args hi) = Done () (frame (resize n VNil args) hi').
Proof.
  intros Hn. unfold SetTop. act (function_slot_done args hi). rewrite gets_done, frame_top, (proj2 (Z.leb_le 0 _)) by lia. rewrite puts_done.
  replace (Z.of_nat (length lo) - 1 + 1 + Z.of_nat n) with (Z.of_nat (length lo + n)) by lia.
  destruct (Nat.le_gt_cases n (length args)) as [Hle|Hgt].
  - exists (drop n args ++ hi). replace (Z.to_nat _) with 0%nat by lia. cbn [fill_results]. rewrite ret_done. unfold mret, lua_ret. f_equal.
    rewrite resize_le by done. apply frame_top_eq; [by rewrite app_assoc, take_drop|rewrite length_take; lia].
  - exists (drop (n - length args) hi). replace (Z.to_nat _) with (n - length args)%nat by lia. rewrite <- (length_app lo args).
    erewrite bind_done by (apply (fill_results_done _ (lo ++ args) hi); [cbn; by rewrite <- app_assoc|lia]).
    unfold mret, lua_ret. f_equal. rewrite resize_ge by lia.
    transitivity (set_top (Z.of_nat (length lo + n)) (set_stack ((lo ++ args) ++ replicate (n - length args) VNil ++ drop (n - length args) hi) (frame args hi))); [done|].
    apply frame_eq; [by rewrite <- !app_assoc|]. rewrite length_app, length_replicate. lia.
Qed.
Lemma Pop_done n args l hi : length l = n → Pop (Z.of_nat n) (frame (args ++ l) hi) = Done () (frame args (l ++ hi)).
Proof.
  intros Hl. unfold Pop, SetTop. act (function_slot_done (args ++ l) hi). rewrite gets_done, frame_top, (proj2 (Z.leb_gt 0 _)) by lia.
  unfold puts. f_equal. apply frame_top_eq; [by rewrite <- app_assoc|]. rewrite length_app. lia.
Qed.

(** C29: for a Go function its part of the stack is a list.  Index [i] from below or [-i] from
    the top is the same element; beyond the top there is none.  [Insert] moves the last
    element to its place and shifts the others up, [Remove] takes an element out, [Replace]
    puts the last element in the place of another, [Copy_] keeps it as well, [PushValue] adds a
    copy of an element at the end, [SetTop] cuts the list or fills it up with nil, and [Pop]
    drops its end.  What lies below the function's part, and the rest of the state, is as
    before; what is above the top may change. *)
Theorem stack_operations (args : list value) (v x : value) (hi : list value) (index : Z) (k : nat) :
  (index_of (length args) index k → ∃ w, args !! k = Some w ∧
    indexToValue index (frame args hi) = Done w (frame args hi) ∧
    AbsIndex index (frame args hi) = Done (Z.of_nat k + 1) (frame args hi) ∧
    PushValue index (frame args (x :: hi)) = Done () (frame (args ++ [w]) hi) ∧
    (∃ y, Remove index (frame args hi) = Done () (frame (delete k args) (y :: hi))) ∧
    ∀ j to, index_of (length args) to j → Copy_ index to (frame args hi) = Done () (frame (<[j := w]> args) hi)) ∧
  (index_of (length (args ++ [v])) index k →
    Insert index (frame (args ++ [v]) (x :: hi)) = Done () (frame (take k args ++ v :: drop k args) (v :: hi)) ∧
    Replace index (frame (args ++ [v]) hi) = Done () (frame (<[k := v]> args) (v :: hi))) ∧
  (Z.of_nat (length args) < index → indexToValue index (frame args hi) = Done none (frame args hi)) ∧
  Top (frame args hi) = Done (Z.of_nat (length args)) (frame args hi) ∧
  (∀ n, (n ≤ length args + length hi)%nat → ∃ hi', SetTop (Z.of_nat n) (frame args hi) = Done () (frame (resize n VNil args) hi')) ∧
  (∀ l, Pop (Z.of_nat (length l)) (frame (args ++ l) hi) = Done () (frame args (l ++ hi))).
Proof.
  split_and!.
  - intros Hi. destruct (lookup_lt_is_Some_2 args k) as [w Hw]; [by destruct Hi as (_ & _ & ? & _)|]. exists w.
    split_and!; [done|by eapply indexToValue_done|by apply AbsIndex_done|by eapply PushValue_done|by eapply Remove_done|].
    intros j to Hj. by eapply Copy_done.
  - intros Hi. split; [by apply Insert_done|by apply Replace_done].
  - apply indexToValue_none.
  - apply Top_done.
  - intros n. apply SetTop_done.
  - intros l. by apply Pop_done.
Qed.
End frame.

Lemma stack_operations_witness :
  let a := VBool true in let b := VString "b" in let c := VNumber (float_of_int 3) in
  Insert (-3) (frame (NewState nothing) [VNil] [a; b; c] [VNil]) = Done () (frame (NewState nothing) [VNil] [c; a; b] [c]) ∧
  Replace 1 (frame (NewState nothing) [VNil] [a; b; c] []) = Done () (frame (NewState nothing) [VNil] [c; b] [c]).
Proof.
  intros a b c. assert (index_of 3 (-3) 0 ∧ index_of 3 1 0) as [H1 H2].
  { unfold index_of, maxStack. cbn. lia. }
  pose proof (stack_operations (NewState nothing) [VNil] (mkCall 0 0 (1 + MinStack) 0 true 0 [] false false) [] eq_refl eq_refl [a; b] c VNil) as Hops.
  destruct (Hops [] (-3) 0%nat) as (_ & H3 & _). destruct (Hops [] 1 0%nat) as (_ & H4 & _).
  split; [exact (proj1 (H3 H1))|exact (proj2 (H4 H2))].
Defined.

(** ** Calls of Go functions *)

Lemma lua_bind_assoc {Wd : World} {A B C} (m : lua A) (f : A → lua B) (g : B → lua C) s : ((m ≫= f) ≫= g) s = (m ≫= λ x, f x ≫= g) s.
Proof. unfold mbind, lua_bind. by destruct (m s). Qed.
Lemma lua_bind_ext {Wd : World} {A B} (m m' : lua A) (f : A → lua B) s s' : m s = m' s' → (m ≫= f) s = (m' ≫= f) s'.
Proof. unfold mbind, lua_bind. by intros ->. Qed.

(** What a call leaves as it was: everything but the tables, the world and the stack above
    the top, which may have grown. *)
Record same_below {Wd : World} (s s' : lstate) : Prop := {
  sb_top : top s' = top s;
  sb_calls : callInfos s' = callInfos s;
  sb_stack : take (Z.to_nat (top s)) (stack s') = take (Z.to_nat (top s)) (stack s);
  sb_length : (length (stack s) ≤ length (stack s'))%nat;
  sb_heap : closures s' = closures s ∧ goClosures s' = goClosures s ∧ protos s' = protos s ∧ upCells s' = upCells s ∧
            openUpValues s' = openUpValues s ∧ registry s' = registry s;
  sb_counts : nestedCalls s' = nestedCalls s ∧ nonYieldable s' = nonYieldable s ∧ errorFunction s' = errorFunction s
}.

(** The stack has its extra slots, and calls may nest. *)
Record in_bounds {Wd : World} (s : lstate) : Prop := {
  ib_room : stack_room (4 * MinStack) s;
  ib_last : stackLast s = Z.of_nat (length (stack s)) - extraStack;
  ib_top : top s ≤ stackLast s;
  ib_nested : 0 ≤ nestedCalls s < 190
}.

(** A push onto the stack of any call. *)
Lemma push_top {Wd : World} lo x hi v s : stack s = lo ++ x :: hi → top s = Z.of_nat (length lo) →
  push v s = Done () (with_stack (lo ++ [v] ++ hi) (Z.of_nat (length (lo ++ [v]))) s).
Proof.
  intros Hs Ht. unfold push. rewrite gets_done. erewrite stack_put_mid; [|done|done]. unfold puts, with_stack. rewrite Ht, length_app.
  cbn [length]. f_equal. replace (Z.of_nat (length lo + 1)) with (Z.of_nat (length lo) + 1) by lia. done.
Qed.

Section go_call.
Context {Wd : World} `{GoMath}.
Context (host : (Z → Z → bool → lua unit) → nat → list value → lua Z).
Context (s : lstate) (lo args hi : list value) (gid f : nat).
Hypothesis Hstack : stack s = lo ++ VGoFunction gid :: args ++ hi.
Hypothesis Htop : top s = Z.of_nat (length lo + 1 + length args).
Hypothesis Hgid : goClosures s !! gid = Some (mkGoClosure f []).
Hypothesis Hroom : stack_room MinStack s.
Hypothesis Hlast : stackLast s = Z.of_nat (length (stack s)) - extraStack.
Hypothesis Hnested : 0 ≤ nestedCalls s < 199.

Definition go_frame (wanted : Z) : callInfo := mkCall (Z.of_nat (length lo)) (top s + MinStack) (top s + MinStack) wanted false 0 [] false false.
(** The state around the function's part of the stack. *)
Definition go_base (wanted : Z) (allow : bool) (m : nat) : lstate :=
  set_calls (go_frame wanted :: callInfos s)
    (set_stackLast (Z.of_nat (length (stack s) + m) - extraStack)
      (set_counts (nestedCalls s + 1) (if allow then nonYieldable s else nonYieldable s + 1) (errorFunction s) s)).
(** What follows the function. *)
Definition after_go (n : nat) (allow : bool) (k : Z) : lua unit :=
  t ← gets top;
  ci ← this_call;
  _ ← assert_l (call_ host n) (k <? t - ci_function ci);
  _ ← postCall (t - k);
  _ ← (if allow then mret () else puts (λ s, set_counts (nestedCalls s) (nonYieldable s + -1) (errorFunction s) s));
  puts (λ s, set_counts (nestedCalls s + -1) (nonYieldable s) (errorFunction s) s).

Lemma call_go n wanted allow : ∃ m,
  call_ host (S n) (Z.of_nat (length lo)) wanted allow s =
    (host (call_ host n) f [] ≫= after_go n allow)
      (frame (go_base wanted allow m) (lo ++ [VGoFunction gid]) args (hi ++ replicate m VNil)) ∧
  top s + MinStack ≤ Z.of_nat (length (stack s) + m) - extraStack ∧ Z.of_nat (length (stack s) + m) ≤ maxStack.
Proof.
  set (s1 := set_counts (nestedCalls s + 1) (if allow then nonYieldable s else nonYieldable s + 1) (errorFunction s) s).
  destruct (checkStack_done (call_ host n) MinStack s1) as (m & Hcheck & Hm1 & Hm2); [done|done|].
  exists m. split; [|done]. cbn [call_]. rewrite puts_done, gets_done. cbn [nestedCalls set_counts].
  rewrite (proj2 (Z.eqb_neq _ _)) by (unfold maxCallCount; lia).
  rewrite (proj2 (Z.leb_gt _ _)) by (change (maxCallCount + Z.shiftr maxCallCount 3) with 225; lia).
  rewrite ret_done. rewrite (bind_done _ _ _ () s1) by (by destruct allow).
  rewrite (lua_bind_ext _ (_ ← callGo (call_ host n) host f [] (Z.of_nat (length lo)) wanted; mret true) _ s1 s1).
  2: { cbn [preCall]. erewrite stack_at_mid; [|exact Hstack|done]. cbv beta iota. rewrite gets_done. change (goClosures s1) with (goClosures s). by rewrite Hgid. }
  rewrite lua_bind_assoc. unfold callGo. rewrite lua_bind_assoc, (bind_done _ _ _ _ _ Hcheck), lua_bind_assoc.
  set (s2 := set_stackLast _ _). rewrite (bind_done _ _ _ () (set_calls (go_frame wanted :: callInfos s) s2)).
  2: { unfold pushGoFrame. rewrite gets_done. reflexivity. }
  assert (set_calls (go_frame wanted :: callInfos s) s2 = frame (go_base wanted allow m) (lo ++ [VGoFunction gid]) args (hi ++ replicate m VNil)) as ->.
  { unfold frame. assert (Z.of_nat (length (lo ++ [VGoFunction gid]) + length args) = top s) as -> by (rewrite length_app; simpl; lia).
    replace ((lo ++ [VGoFunction gid]) ++ args ++ hi ++ replicate m VNil) with (stack s1 ++ replicate m VNil); [reflexivity|].
    cbn [stack s1 set_counts]. rewrite Hstack, <- !app_assoc. simpl. by rewrite <- !app_assoc. }
  rewrite lua_bind_assoc. set (s3 := frame _ _ _ _). unfold after_go, mbind, lua_bind.
  destruct (host (call_ host n) f [] s3) as [k s4| | |]; try done. unfold gets. destruct (this_call s4) as [ci' s5| | |]; try done.
  destruct (assert_l (call_ host n) (k <? top s4 - ci_function ci') s5) as [u s6| | |]; try done.
  destruct (postCall (top s4 - k) s6) as [b s7| | |]; try done.
Qed.

(** A function without results, of which none are wanted. *)
Lemma after_go_done n allow base args' hi' :
  callInfos base = go_frame 0 :: callInfos s →
  after_go n allow 0 (frame base (lo ++ [VGoFunction gid]) args' hi') =
    Done () (set_counts (nestedCalls base + -1) (if allow then nonYieldable base else nonYieldable base + -1) (errorFunction base)
      (set_calls (callInfos s) (with_stack (lo ++ VGoFunction gid :: args' ++ hi') (Z.of_nat (length lo)) base))).
Proof.
  intros Hc. unfold after_go. rewrite gets_done. erewrite (bind_done this_call _ _ (go_frame 0)).
  2: { unfold this_call. rewrite gets_done. change (callInfos (frame _ _ _ _)) with (callInfos base). by rewrite Hc. }
  cbn [ci_function go_frame top frame with_stack set_top]. rewrite length_app. cbn [length].
  rewrite (bind_done _ _ _ () (frame base (lo ++ [VGoFunction gid]) args' hi')).
  2: { unfold assert_l. by rewrite (proj2 (Z.ltb_lt _ _)) by lia. }
  rewrite (bind_done (postCall _) _ _ true (set_calls (callInfos s) (with_stack (lo ++ VGoFunction gid :: args' ++ hi') (Z.of_nat (length lo)) base))).
  2: { unfold postCall. erewrite (bind_done this_call _ _ (go_frame 0)).
       2: { unfold this_call. rewrite gets_done. change (callInfos (frame _ _ _ _)) with (callInfos base). by rewrite Hc. }
       rewrite gets_done, puts_done. cbn [top frame with_stack set_top resultCount go_frame ci_function].
       rewrite length_app. cbn [length]. replace (Z.to_nat _) with 0%nat by lia. cbn [move_results]. rewrite ret_done. cbv beta iota.
       change (Z.to_nat 0) with 0%nat. cbn [fill_results]. rewrite ret_done, puts_done. unfold mret, lua_ret.
       change (callInfos (frame _ _ _ _)) with (callInfos base). rewrite Hc. cbn [tail]. f_equal. unfold frame, with_stack.
       by rewrite <- app_assoc. }
  by destruct allow.
Qed.
End go_call.

(** ** Errors raised by Go functions *)

(** The call of a function of Lua that is at line [ln] of [p]. *)
Record lua_call {Wd : World} (s : lstate) (ci : callInfo) (p : prototype) (ln : Z) : Prop := {
  lc_lua : ci_lua ci = true;
  lc_closure : ∃ cid c node k, ci_function ci = Z.of_nat k ∧ stack s !! k = Some (VLua cid) ∧ closures s !! cid = Some c ∧
    protos s !! c_proto c = Some node ∧ n_proto node = p;
  lc_line : ∃ k, savedPC ci = Z.of_nat k ∧ p_lineInfo p !! k = Some ln
}.
Definition position_text (p : prototype) (ln : Z) : string :=
  if 0 <? ln then
    (chunkID (if bool_decide (p_source p = "") then "=?" else p_source p) +:+ ":" +:+ fmt_d ln +:+ ": ")%string
  else ""%string.

Section errors.
Context {Wd : World} `{GoMath}.
Context (call : Z → Z → bool → lua unit).

Lemma prototype_of_done s ci p ln : lua_call s ci p ln → prototype_of ci s = Done p s.
Proof.
  intros [_ (cid & c & node & k & Hf & Hs & Hc & Hn & <-) _]. unfold prototype_of.
  rewrite (bind_done _ _ _ c s).
  2: { unfold closure_at. act (stack_at_is _ k _ s Hf Hs). cbv beta iota. rewrite gets_done. by rewrite Hc. }
  rewrite (bind_done _ _ _ node s); [done|]. unfold node_of. rewrite gets_done. by rewrite Hn.
Qed.

Section where_.
Context (s0 : lstate) (lo : list value) (g ci c0 : callInfo) (cs : list callInfo) (p : prototype) (ln : Z).
Hypothesis Hcalls : callInfos s0 = g :: ci :: c0 :: cs.
Hypothesis Hg : ci_function g + 1 = Z.of_nat (length lo).
Hypothesis Hbelow : ∀ args hi, lua_call (frame s0 lo args hi) ci p ln.

Lemma Where_done args x hi : Where call 1 (frame s0 lo args (x :: hi)) = Done () (frame s0 lo (args ++ [VString (position_text p ln)]) hi).
Proof.
  pose proof (Hbelow args (x :: hi)) as Hci. set (s := frame s0 lo args (x :: hi)) in *. unfold Where.
  rewrite (bind_done (Stack 1) _ _ (Some (ci :: c0 :: cs)) s).
  2: { unfold Stack. rewrite gets_done. change (callInfos s) with (callInfos s0). rewrite Hcalls. cbn [length].
       rewrite (proj2 (Z.ltb_lt _ _)) by lia. done. }
  cbv beta iota. rewrite (bind_done (frame_call _) _ _ ci s) by done.
  rewrite (bind_done (info_S _ _ _) _ _ (functionInfo (Some p) no_debug) s).
  2: { unfold info_S. rewrite (bind_done _ _ _ (Some p) s); [done|]. unfold frame_prototype.
       destruct (lc_closure _ _ _ _ Hci) as (cid & c & node & k & Hf & Hs & _). act (stack_at_is _ k _ s Hf Hs). cbv beta iota.
       act (prototype_of_done _ _ _ _ Hci). done. }
  rewrite (bind_done (info_l _ _) _ _ (mkDebug "" "" (d_What (functionInfo (Some p) no_debug)) (d_Source (functionInfo (Some p) no_debug))
    (d_ShortSource (functionInfo (Some p) no_debug)) ln (p_lineDefined p) false) s).
  2: { unfold info_l. rewrite (lc_lua _ _ _ _ Hci). rewrite (bind_done (currentLine ci) _ _ ln s); [done|].
       unfold currentLine. act (prototype_of_done _ _ _ _ Hci). destruct (lc_line _ _ _ _ Hci) as (k & -> & Hl).
       unfold of_outcome. rewrite (slice_at_ok _ _ ln); [done|lia|by rewrite Nat2Z.id]. }
  cbn [d_CurrentLine d_ShortSource functionInfo]. unfold position_text.
  destruct (0 <? ln); apply push_done.
Qed.
End where_.

(** A format without directives. *)
Lemma split_plain b : "%"%char ∉ b → split_percent b = (b, None).
Proof.
  induction b as [|c b IH]; intros Hb; [done|]. cbn [split_percent]. rewrite bool_decide_eq_false_2 by set_solver. rewrite IH by set_solver. done.
Qed.

(** [Errorf] of a message without directives, in a Go function called from Lua: the error has
    the line of the caller, and nothing else happens. *)
Lemma Errorf_plain A s0 lo g ci c0 cs p ln args x hi format :
  callInfos s0 = g :: ci :: c0 :: cs → ci_function g + 1 = Z.of_nat (length lo) → (∀ args hi, lua_call (frame s0 lo args hi) ci p ln) →
  errorFunction s0 = 0 → stackLast s0 = Z.of_nat (length (lo ++ args ++ x :: hi)) - extraStack →
  Z.of_nat (length (lo ++ args ++ x :: hi)) ≤ maxStack → Z.of_nat (length lo + length args + 10) ≤ maxStack →
  "%"%char ∉ to_bytes format →
  ∃ s', Errorf_ (A := A) call format [] (frame s0 lo args (x :: hi)) = Throw (RuntimeError (position_text p ln +:+ format)) s' ∧
    tables s' = tables s0 ∧ world s' = world s0 ∧ goClosures s' = goClosures s0.
Proof.
  intros Hc Hg Hci Hef Hlast Hl1 Hl2 Hfmt. unfold Errorf_.
  act (Where_done s0 lo g ci c0 cs p ln Hc Hci args x hi). set (pos := position_text p ln).
  set (s1 := frame s0 lo (args ++ [VString pos]) hi).
  destruct (checkStack_done call 1 s1) as (m & Hcheck & Hm1 & Hm2).
  { unfold stack_room, s1. cbn [top frame with_stack set_top stack set_stack]. rewrite !length_app in *. cbn [length] in *. unfold extraStack. lia. }
  { unfold s1. cbn. rewrite Hlast, !length_app. cbn [length]. f_equal. lia. }
  set (s2 := set_stackLast (Z.of_nat (length (stack s1) + m) - extraStack) s0).
  assert (∃ y hi2, set_stackLast (Z.of_nat (length (stack s1) + m) - extraStack) (set_stack (stack s1 ++ replicate m VNil) s1) =
    frame s2 lo (args ++ [VString pos]) (y :: hi2)) as (y & hi2 & E2).
  { destruct (hi ++ replicate m VNil) as [|y hi2] eqn:Ehi.
    - apply (f_equal length) in Ehi. rewrite length_app, length_replicate in Ehi. cbn in Ehi, Hm1. rewrite !length_app in Hm1. cbn [length] in Hm1. unfold extraStack in Hm1. lia.
    - exists y, hi2. assert (stack s1 ++ replicate m VNil = lo ++ (args ++ [VString pos]) ++ y :: hi2) as ->; [|done].
      unfold s1. cbn. by rewrite <- Ehi, <- !app_assoc. }
  rewrite E2 in Hcheck. set (s3 := frame s2 lo ((args ++ [VString pos]) ++ [VString format]) hi2).
  rewrite (bind_done (PushFString _ _ _) _ _ format s3).
  2: { unfold PushFString. rewrite (bind_done _ _ _ () s3).
       - rewrite (bind_done (from_top 1) _ _ (VString format) s3); [done|]. apply from_top_last.
       - cbn [format_loop]. rewrite split_plain by done. rewrite (bind_done _ _ _ _ _ Hcheck). rewrite to_string_to_bytes.
         rewrite (bind_done _ _ _ _ _ (push_done s2 lo (VString format) y (args ++ [VString pos]) hi2)). done. }
  destruct (concat_joins call [VString pos; VString format] (lo ++ args) hi2 s3) as (hi3 & Hj);
    [done|by repeat constructor|unfold s3; cbn; by rewrite <- !app_assoc|unfold s3; cbn; rewrite !length_app; cbn; lia|].
  unfold Concat. change (2 <=? 2) with true. cbv iota. change (Z.of_nat (length [VString pos; VString format])) with 2 in Hj.
  change (joined [VString pos; VString format]) with (pos +:+ format)%string in Hj.
  rewrite (bind_done _ _ _ _ _ Hj). unfold Error_, errorMessage. rewrite gets_done. change (errorFunction (with_stack _ _ s3)) with (errorFunction s0).
  rewrite Hef. change (negb (0 =? 0)) with false. cbv iota. rewrite ret_done, gets_done. cbn [top with_stack set_top].
  erewrite stack_at_mid; [|done|lia]. cbn [toString]. erewrite stack_put_mid; [|done|lia].
  eexists. split; [reflexivity|done].
Qed.
End errors.
