(* ===== verification/LuaEngine.v ===== *)
(** * The script engine on the Lua machine (executor/engine/: lua.go, http_binding.go)

    Engine.v describes the engine over a class that says what it needs of a VM.  Here its
    functions are written as the code has them, as calls of the API of the machine: the
    [__newindex] of the table [step], the functions that a script can call, [Lua], which
    compiles a source and runs it, and [runSteps] with its indices.  The variables of the
    program are the [world] of the machine.  The network, the clock and the metrics are the
    classes of Engine.v.

    [order] and [pointer] are as in LuaAux.v; [print_value] is what [%v] makes of an object. *)
From Stdlib Require Import ZArith Lia Ascii.
From stdpp Require Import base option list gmap strings.
From S2P Require Import Prelude GoNum GoFmt Strconv LineProtocol Metrics Engine LuaInstr LuaTable LuaScan LuaProto LuaState LuaCall LuaVM LuaLoad LuaApi LuaAux.
From Stdlib Require Import SpecFloat.

(** What [Lua] and [Execute] keep outside the machine. *)
Record prgm_state (N R : Type) := mkPrgm {
  m_configured : bool;
  m_steps : list string;
  m_metrics : R;
  m_net : N;
  m_closures : option string;     (** [currentStep] of the functions that [Execute] installs *)
  m_out : list (string * string * value);
  m_readings : nat
}.
Arguments mkPrgm {N R} _ _ _ _ _ _ _.
Arguments m_configured {N R} _.
Arguments m_steps {N R} _.
Arguments m_metrics {N R} _.
Arguments m_net {N R} _.
Arguments m_closures {N R} _.
Arguments m_out {N R} _.
Arguments m_readings {N R} _.

(** [err.Error()] of what [recover] finds. *)
Definition exn_text (x : exn) : string :=
  match x with
  | LuaState.SyntaxError => "syntax error"
  | LuaState.RuntimeError m => "runtime error: " +:+ m
  | LuaState.MemoryError => "memory error"
  | LuaState.ErrorError => "error within the error handler"
  | LuaState.GoError m => m
  end.

(** The codes of the engine's Go functions. *)
Definition fn_registerStep : nat := 0.
Definition fn_info : nat := 1.
Definition fn_fatal : nat := 2.
Definition fn_get : nat := 3.
Definition fn_post : nat := 4.

Section engine.
Context {N R : Type} {HT : HTTP N} {MR : MetricReporter R} {WL : Wall} `{GoMath}.
Context (order : gmap value value → list value) (pointer : value → string) (print_value : value → bytes).

#[local] Instance prgm_world : World := prgm_state N R.

Definition prgm_change (g : prgm_state N R → prgm_state N R) : lua unit := puts (λ s, set_world (g (world s)) s).
Definition prgm_get {A} (g : prgm_state N R → A) : lua A := gets (λ s, g (world s)).

Definition set_m_steps (l : list string) (p : prgm_state N R) : prgm_state N R :=
  mkPrgm (m_configured p) l (m_metrics p) (m_net p) (m_closures p) (m_out p) (m_readings p).
Definition set_m_configured (p : prgm_state N R) : prgm_state N R :=
  mkPrgm true (m_steps p) (m_metrics p) (m_net p) (m_closures p) (m_out p) (m_readings p).
Definition set_m_closures (c : option string) (p : prgm_state N R) : prgm_state N R :=
  mkPrgm (m_configured p) (m_steps p) (m_metrics p) (m_net p) c (m_out p) (m_readings p).
Definition set_m_net (n : N) (p : prgm_state N R) : prgm_state N R :=
  mkPrgm (m_configured p) (m_steps p) (m_metrics p) n (m_closures p) (m_out p) (m_readings p).
Definition add_m_log (x : string * string * value) (p : prgm_state N R) : prgm_state N R :=
  mkPrgm (m_configured p) (m_steps p) (m_metrics p) (m_net p) (m_closures p) (m_out p ++ [x]) (m_readings p).

Definition prgm_time : lua Z :=
  n ← prgm_get m_readings;
  _ ← prgm_change (λ p, mkPrgm (m_configured p) (m_steps p) (m_metrics p) (m_net p) (m_closures p) (m_out p) (S (m_readings p)));
  mret (wall n).
Definition prgm_incr (c : metric_call) : lua unit :=
  t ← prgm_time;
  prgm_change (λ p, mkPrgm (m_configured p) (m_steps p) (report t c (m_metrics p)) (m_net p) (m_closures p) (m_out p) (m_readings p)).

(** [defer d()] around the rest of a function. *)
Definition with_defer {A} (m : lua A) (d : lua unit) : lua A := λ s,
  match m s with
  | Done a s => (_ ← d; mret a) s
  | Throw x s => (_ ← d; throw_ x) s
  | LuaState.Crash m => LuaState.Crash m
  | Diverge => Diverge
  end.

(** A value as the metrics receive it. *)
Definition field_of_value (v : value) : field_value :=
  match v with
  | VNil => FNil
  | VBool b => FBool b
  | VNumber f => FFloat f
  | VString s => FString (to_bytes s)
  | v => FOther (print_value v)
  end.

(** ** Functions that scripts call *)

Section functions.
Context (call : Z → Z → bool → lua unit).

Definition host_registerStep : lua Z :=
  configured ← prgm_get m_configured;
  if (configured : bool) then Errorf_ call "step is immutable" []
  else
    stepName ← CheckString_ call order 2;
    _ ← RawSet call 1;
    _ ← prgm_change (λ p, set_m_steps (m_steps p ++ [stepName]) p);
    mret 0.

(** [info] and [fatal], with the functions that [Lua] or [Execute] has put behind them. *)
Definition host_log (lvl : string) (count : field_value → metric_call) : lua Z :=
  v ← ToValue_ 1;
  _ ← prgm_incr (count (field_of_value v));
  c ← prgm_get m_closures;
  match c with
  | None => throw_ (GoError ("'" +:+ lvl +:+ "' is not defined outside of steps"))
  | Some currentStep =>
      msg ← ToValue_ 1;
      _ ← prgm_change (add_m_log (lvl, currentStep, msg));
      mret 0
  end.

Definition set_string (key v : string) : lua unit := _ ← PushString v; SetField call (-2) key.
Definition set_float (key : string) (f : float64) : lua unit := _ ← PushNumber f; SetField call (-2) key.
Fixpoint set_header (l : list (string * string)) : lua unit :=
  match l with [] => mret () | (k, v) :: l => _ ← set_string k v; set_header l end.
Definition host_pushResponse (resp : response) : lua (option error) :=
  match Body resp with
  | Err e => mret (Some e)
  | Panic m => throw_ (GoError m)
  | Ok body =>
      _ ← NewTable;
      _ ← set_float "code" (float_of_int (StatusCode resp));
      _ ← set_string "status" (Status resp);
      _ ← set_string "body" body;
      _ ← set_float "content_length" (float_of_int (ContentLength resp));
      _ ← NewTable;
      _ ← set_header (map_to_list (Header resp));
      _ ← SetField call (-2) "header";
      mret None
  end.

(** What both functions do with the answer; [count] is reported when they are left. *)
Definition host_answer (verb u : string) (count : Z → Z → metric_call) (start : Z) (answer : outcome response) : lua Z :=
  match answer with
  | Err e =>
      _ ← prgm_incr (IncrHTTPError (to_bytes u));
      Errorf_ call ("lua-http: can't " +:+ verb +:+ ": %s") [AString (Error e)]
  | Panic m => throw_ (GoError m)
  | Ok resp =>
      with_defer
        (err ← host_pushResponse resp;
         match err with
         | Some e =>
             _ ← prgm_incr (IncrHTTPError (to_bytes u));
             Errorf_ call ("lua-http: can't read body from " +:+ verb +:+ ": %s") [AString (Error e)]
         | None => mret 1
         end)
        (t ← prgm_time; prgm_incr (count (StatusCode resp) (t - start)))
  end.
Definition host_get : lua Z :=
  u ← CheckString_ call order (-1);
  start ← prgm_time;
  n ← prgm_get m_net;
  let '(n, answer) := http_Get u n in
  _ ← prgm_change (set_m_net n);
  host_answer "GET" u (λ code d, IncrHTTPGet (to_bytes u) code d) start answer.
Definition host_post : lua Z :=
  u ← CheckString_ call order (-3);
  contentType ← CheckString_ call order (-2);
  body ← CheckString_ call order (-1);
  start ← prgm_time;
  n ← prgm_get m_net;
  let '(n, answer) := http_Post u contentType body n in
  _ ← prgm_change (set_m_net n);
  host_answer "POST" u (λ code d, IncrHTTPPost (to_bytes u) code d) start answer.
End functions.

Definition engine_host (call : Z → Z → bool → lua unit) (f : nat) (us : list value) : lua Z :=
  match f with
  | 0 => host_registerStep call
  | 1 => host_log "info" IncrLogInfo
  | 2 => host_log "fatal" IncrLogFatal
  | 3 => host_get call
  | 4 => host_post call
  | _ => mret (0%Z)
  end%nat.

(** ** The program *)

(** [n] bounds the instructions and the depth of calls. *)
Section program.
Context (n : nat).
Definition engine_call : Z → Z → bool → lua unit := call_ engine_host n.

Definition host_configureLua : lua unit :=
  _ ← NewMetaTable engine_call "stepMetaTable";
  _ ← SetFunctions engine_call [("__newindex"%string, fn_registerStep)] 0;
  _ ← NewTable;
  _ ← PushValue (-1);
  _ ← SetGlobal_ engine_call "step";
  _ ← SetMetaTableNamed engine_call "stepMetaTable";
  Pop 2.

(** [Lua(source, ...)] on a new thread. *)
Definition host_Lua (source : string) : lua (outcome unit) :=
  _ ← host_configureLua;
  _ ← Register engine_call "info" fn_info;
  _ ← Register engine_call "fatal" fn_fatal;
  _ ← Register engine_call "get" fn_get;
  _ ← Register engine_call "post" fn_post;
  err ← Load "" (to_bytes source);
  match err with
  | Some x => mret (Err (Errorf ("compiling program: " +:+ exn_text x)))
  | None =>
      err ← ProtectedCall_ engine_call 0 0 0;
      match err with
      | Some x => mret (Err (Errorf ("preparing program: " +:+ exn_text x)))
      | None => _ ← prgm_change set_m_configured; mret (Ok ())
      end
  end.

(** One turn of the loop of [runSteps], after the reporter. *)
Definition host_runStep (stepName : string) : lua (option error) :=
  i ← Top;
  _ ← Field engine_call (- i) stepName;
  _ ← PushValue (- i);
  _ ← Remove (- (i + 1));
  start ← prgm_time;
  err ← ProtectedCall_ engine_call 1 1 0;
  match err with
  | Some x => _ ← prgm_incr (IncrStepError stepName); mret (Some (StepError stepName (Errorf (exn_text x))))
  | None =>
      t ← Top;
      _ ← (if t =? 2 then mret () else Errorf_ engine_call "step %q needs to return exactly 1 argument" [AString stepName]);
      now ← prgm_time;
      _ ← prgm_incr (IncrStepExecution stepName (now - start));
      mret None
  end.
(** [cancelled i]: [ctx.Done()] is closed when the [i]-th step is reported. *)
Fixpoint host_runSteps_loop (cancelled : nat → bool) (i : nat) (names : list string) : lua (option error) :=
  match names with
  | [] => mret None
  | stepName :: names =>
      _ ← prgm_change (set_m_closures (Some stepName));
      if cancelled i then mret None
      else
        err ← host_runStep stepName;
        match err with Some e => mret (Some e) | None => host_runSteps_loop cancelled (S i) names end
  end.
Definition host_runSteps (cancelled : nat → bool) : lua (option error) :=
  _ ← Global engine_call "step";
  _ ← NewTable;
  with_defer
    (_ ← prgm_incr IncrScriptExecution;
     names ← prgm_get m_steps;
     host_runSteps_loop cancelled 0 names)
    (Pop 2).
Definition host_Execute (cancelled : nat → bool) : lua (option error) :=
  _ ← prgm_change (set_m_closures (Some "<not a step>"%string));
  host_runSteps cancelled.

(** [AddConfig]: the values become globals, as texts. *)
Fixpoint host_AddConfig (entries : list (string * config_value)) : lua (option error) :=
  match entries with
  | [] => mret None
  | (key, COther s) :: _ => mret (Some (invalid_type key (COther s)))
  | (key, CNil) :: entries => _ ← PushNil; _ ← SetGlobal_ engine_call key; host_AddConfig entries
  | (key, v) :: entries => _ ← PushString (config_text v); _ ← SetGlobal_ engine_call key; host_AddConfig entries
  end.
End program.
End engine.
