(* ===== verification/LuaEngineProps.v ===== *)
(** * The engine on the machine keeps the promises of Engine.v

    Engine.v says what assignments to the table [step] and readings of it do; here the
    machine is shown to do so, with [registerStep] as it is written.  The examples run whole
    scripts from their text. *)
From Stdlib Require Import ZArith Lia Ascii.
From stdpp Require Import base option list gmap strings.
From S2P Require Import Prelude GoNum GoFmt Strconv LineProtocol Metrics Engine EngineFacts LuaInstr LuaTable LuaTableProps LuaScan LuaProto LuaState LuaCall LuaVM LuaLoad LuaVMFacts LuaRun LuaApi LuaAux LuaApiProps LuaEngine.
From Stdlib Require Import SpecFloat.

Section engine.
Context {W N R : Type} {LV : LuaVM W} {HT : HTTP N} {MR : MetricReporter R} {WL : Wall} `{GoMath}.
Context (order : gmap value value → list value) (print_value : value → bytes).
#[local] Hint Extern 0 World => exact (@prgm_world N R) : typeclass_instances.
(** The variables of the program. *)
Definition prgm_of (s : lstate) : prgm_state N R := world s.
Notation host := (engine_host order print_value).

(** ** [registerStep] *)

Lemma CheckString_text base lo ci cs call k key args hi :
  callInfos base = ci :: cs → ci_function ci + 1 = Z.of_nat (length lo) → args !! k = Some (VString key) → Z.of_nat (length args) ≤ maxStack →
  CheckString_ call order (Z.of_nat k + 1) (frame base lo args hi) = Done key (frame base lo args hi).
Proof.
  intros Hc Hf Hk Hl. assert (index_of (length args) (Z.of_nat k + 1) k) as Hi.
  { apply lookup_lt_Some in Hk as ?. unfold index_of, place. rewrite (proj2 (Z.ltb_lt _ _)) by lia. lia. }
  unfold CheckString_. rewrite (bind_done _ _ _ (Some key) (frame base lo args hi)); [done|]. unfold ToString_.
  act (indexToValue_done base lo ci cs Hc Hf _ k _ _ hi Hi Hk). cbn [toString].
  act (setIndexToValue_done base lo ci cs Hc Hf _ k (VString key) _ hi Hi). by rewrite list_insert_id.
Qed.

Lemma register_done base lo ci cs call tid tab key val hi :
  callInfos base = ci :: cs → ci_function ci + 1 = Z.of_nat (length lo) → tables base !! tid = Some tab → m_configured (prgm_of base) = false →
  host_registerStep order call (frame base lo [VTable tid; VString key; val] hi) =
    Done 0 (frame (set_world (set_m_steps (m_steps (prgm_of base) ++ [key]) (prgm_of base))
      (set_tables (<[tid := invalidateTagMethodCache (hash_put (VString key) val tab)]> (tables base)) base)) lo [VTable tid] (VString key :: val :: hi)).
Proof.
  intros Hc Hf Htab Hconf. unfold host_registerStep. set (s1 := frame base lo [VTable tid; VString key; val] hi).
  rewrite (bind_done _ _ _ false s1) by (unfold prgm_get, gets; by rewrite <- Hconf). cbv iota.
  change 2 with (Z.of_nat 1 + 1). act (CheckString_text base lo ci cs call 1 key [VTable tid; VString key; val] hi Hc Hf eq_refl ltac:(unfold maxStack; cbn; lia)).
  set (s2 := set_tables (<[tid := invalidateTagMethodCache (hash_put (VString key) val tab)]> (tables base)) base).
  rewrite (bind_done (RawSet _ _) _ _ () (frame s2 lo [VTable tid] (VString key :: val :: hi))); [done|].
  unfold RawSet. rewrite (bind_done (table_index 1) _ _ tid s1).
  2: { unfold table_index. act (indexToValue_done base lo ci cs Hc Hf 1 0 (VTable tid) [VTable tid; VString key; val] hi ltac:(unfold index_of, maxStack; cbn; lia) eq_refl). done. }
  erewrite (from_top_mid (lo ++ [VTable tid]) (VString key) (val :: hi)); [|unfold s1; rewrite frame_stack; by rewrite <- app_assoc|unfold s1; cbn; rewrite length_app; cbn; lia].
  erewrite (from_top_mid (lo ++ [VTable tid; VString key]) val hi); [|unfold s1; rewrite frame_stack; by rewrite <- app_assoc|unfold s1; cbn; rewrite length_app; cbn; lia].
  rewrite (bind_done (put_checked _ _ _ _) _ _ () (frame s2 lo ([VTable tid] ++ [VString key; val]) hi)).
  2: { unfold put_checked. erewrite table_of_done by exact Htab. done. }
  apply (drop_last s2 lo 2 [VString key; val]); done.
Qed.

(** A step that is assigned after the preparation. *)
Lemma register_refused base lo g ci c0 cs call p ln args x hi :
  callInfos base = g :: ci :: c0 :: cs → ci_function g + 1 = Z.of_nat (length lo) → (∀ args hi, lua_call (frame base lo args hi) ci p ln) →
  errorFunction base = 0 → stackLast base = Z.of_nat (length (lo ++ args ++ x :: hi)) - extraStack →
  Z.of_nat (length (lo ++ args ++ x :: hi)) ≤ maxStack → Z.of_nat (length lo + length args + 10) ≤ maxStack →
  m_configured (prgm_of base) = true →
  ∃ s', host_registerStep order call (frame base lo args (x :: hi)) =
      Throw (LuaState.RuntimeError (position_text p ln +:+ "step is immutable")) s' ∧
    tables s' = tables base ∧ world s' = world base ∧ goClosures s' = goClosures base.
Proof.
  intros Hc Hg Hci Hef Hlast Hl1 Hl2 Hconf. unfold host_registerStep.
  rewrite (bind_done _ _ _ true (frame base lo args (x :: hi))) by (unfold prgm_get, gets; by rewrite <- Hconf). cbv iota.
  apply (Errorf_plain call Z base lo g ci c0 cs p ln args x hi "step is immutable"); try done.
  let b := eval vm_compute in (to_bytes "step is immutable") in change (to_bytes "step is immutable") with b. set_solver.
Qed.
(** ** The call of the handler *)

(** The five slots above the top of a state within bounds. *)
Lemma above_top s : in_bounds s → ∃ lo x1 x2 x3 x4 x5 hi, stack s = lo ++ x1 :: x2 :: x3 :: x4 :: x5 :: hi ∧ top s = Z.of_nat (length lo) ∧
  lo = take (Z.to_nat (top s)) (stack s).
Proof.
  intros [(Hn & Ht & Hr & Hl) Hlast Htop _]. set (k := Z.to_nat (top s)). pose proof (take_drop k (stack s)) as E.
  assert (5 ≤ length (drop k (stack s)))%nat as Hd by (rewrite length_drop; unfold k, extraStack in *; lia).
  destruct (drop k (stack s)) as [|x1 [|x2 [|x3 [|x4 [|x5 hi]]]]]; cbn [length] in Hd; try lia.
  exists (take k (stack s)), x1, x2, x3, x4, x5, hi. split_and!; [by rewrite E| |done]. rewrite length_take. unfold k, extraStack in *. lia.
Qed.

(** A metamethod that is a function of Go, called without results: the state in which the
    function runs, and what follows. *)
Lemma handler_call n gid f v1 v2 v3 s ci cs :
  in_bounds s → callInfos s = ci :: cs → goClosures s !! gid = Some (mkGoClosure f []) →
  ∃ lo x hi m, let s4 := with_stack (lo ++ VGoFunction gid :: [v1; v2; v3] ++ x :: hi) (top s + 4) s in
    callTagMethodV (call_ host (S n)) (VGoFunction gid) v1 v2 v3 s =
      (host (call_ host n) f [] ≫= after_go host n (ci_lua ci))
        (frame (go_base s4 lo 0 (ci_lua ci) m) (lo ++ [VGoFunction gid]) [v1; v2; v3] (x :: hi ++ replicate m VNil)) ∧
    top s = Z.of_nat (length lo) ∧ lo = take (Z.to_nat (top s)) (stack s) ∧ length (stack s) = (length lo + 5 + length hi)%nat ∧
    top s + 24 ≤ Z.of_nat (length (stack s) + m) - extraStack ∧ Z.of_nat (length (stack s) + m) ≤ maxStack.
Proof.
  intros Hb Hc Hgid. destruct (above_top s Hb) as (lo & x1 & x2 & x3 & x4 & x5 & hi & Hs & Ht & Hlo).
  set (s4 := with_stack (lo ++ VGoFunction gid :: [v1; v2; v3] ++ x5 :: hi) (top s + 4) s).
  assert (length (stack s4) = length (stack s)) as Hlen by (unfold s4; cbn; rewrite Hs, !length_app; done).
  destruct Hb as [(Hn & Ht0 & Hr & Hl) Hlast Htop Hnest].
  destruct (call_go host s4 lo [v1; v2; v3] (x5 :: hi) gid f) with (n := n) (wanted := 0) (allow := ci_lua ci) as (m & Hcall & Hm1 & Hm2); try done.
  { unfold s4. cbn. lia. }
  { split_and!; [done|unfold s4; cbn; lia| |by rewrite Hlen]. unfold s4, MinStack, extraStack in *. cbn. lia. }
  { rewrite Hlen. done. }
  { unfold s4. cbn. lia. }
  exists lo, x5, hi, m. cbv zeta. fold s4. split_and!; [|done|done|rewrite Hs, length_app; cbn; lia| |by rewrite <- Hlen].
  2: { rewrite <- Hlen. unfold s4 in Hm1 at 1. cbn [top with_stack set_top] in Hm1. unfold MinStack in Hm1. lia. }
  unfold callTagMethodV. rewrite (bind_done _ _ _ _ _ (push_top lo x1 _ _ s Hs Ht)).
  erewrite bind_done by (apply (push_top (lo ++ [VGoFunction gid]) x2); [cbn; by rewrite <- app_assoc|done]).
  erewrite bind_done by (apply (push_top ((lo ++ [VGoFunction gid]) ++ [v1]) x3); [cbn; by rewrite <- !app_assoc|done]).
  erewrite bind_done by (apply (push_top (((lo ++ [VGoFunction gid]) ++ [v1]) ++ [v2]) x4); [cbn; by rewrite <- !app_assoc|done]).
  set (s5 := with_stack _ _ _). assert (s5 = s4) as ->.
  { unfold s5, s4, with_stack. rewrite !length_app. cbn. rewrite <- !app_assoc. cbn.
    replace (Z.of_nat (length lo + 1 + 1 + 1 + 1)) with (top s + 4) by lia. done. }
  rewrite gets_done. rewrite (bind_done this_call _ _ ci s4) by (unfold this_call; rewrite gets_done; change (callInfos s4) with (callInfos s); by rewrite Hc).
  replace (top s4 - 4) with (Z.of_nat (length lo)) by (unfold s4; cbn; lia). exact Hcall.
Qed.

(** ** Assignments and readings *)

Lemma hash_put_spec k v t : table_ok t → let t' := invalidateTagMethodCache (hash_put (VString k) v t) in
  table_ok t' ∧ metaTable t' = metaTable t ∧ ∀ k', look (VString k') t' = if decide (k' = k) then v else look (VString k') t.
Proof.
  intros Ht. destruct (put_updated (VString k) v t Ht) as (t' & Hput & Hok & Hl & Hm); [by eexists|done|]. injection Hput as <-.
  split; [exact Hok|]. split; [by injection Hm|]. intros k'. etrans; [exact (Hl (VString k'))|]. apply decide_ext. cbn. naive_solver.
Qed.

Section agrees.
(** How values of the machine look to Engine.v; only nil matters. *)
Context (abs : value → lua_value) (Habs : ∀ v, is_LNil (abs v) = is_nil v).
(** The table [step], its metatable and the handler. *)
Context (tid mid gid : nat).

Definition missed_mark (m : table) : bool := negb (Z.land (flags m) 1 =? 0).
Definition shown (w : value) : option lua_value := if is_nil w then None else Some (abs w).
(** The machine's table [step] is that of the program. *)
Record table_agrees (s : lstate) (missed : bool) (t : gmap string lua_value) : Prop := {
  ta_tables : ∃ tab m, tables s !! tid = Some tab ∧ tables s !! mid = Some m ∧ table_ok tab ∧ metaTable tab = Some mid ∧
    atString "__index" m = VNil ∧ atString "__newindex" m = VGoFunction gid ∧ missed = missed_mark m ∧
    ∀ k, t !! k = shown (look (VString k) tab);
  ta_apart : tid ≠ mid;
  ta_handler : goClosures s !! gid = Some (mkGoClosure fn_registerStep [])
}.
Definition step_agrees (s : lstate) (p : LuaProgram W N R) : Prop :=
  table_agrees s (missed p) (step_table p) ∧ m_steps (prgm_of s) = steps p ∧ m_configured (prgm_of s) = configured p.

Lemma shown_put key v tab t : table_ok tab → (∀ k, t !! k = shown (look (VString k) tab)) →
  ∀ k, table_put key (abs v) t !! k = shown (look (VString k) (invalidateTagMethodCache (hash_put (VString key) v tab))).
Proof.
  intros Hok Ht k. destruct (hash_put_spec key v tab Hok) as (_ & _ & ->). unfold table_put, shown. rewrite Habs. case_decide as Hk.
  - subst k. destruct (is_nil v); [by rewrite lookup_delete_eq|by rewrite lookup_insert_eq].
  - destruct (is_nil v); [rewrite lookup_delete_ne by done|rewrite lookup_insert_ne by done]; apply Ht.
Qed.

Lemma land_one z : Z.land z 1 = 0 ∨ Z.land z 1 = 1.
Proof.
  pose proof (Z.land_ones z 1 ltac:(lia)) as Hl. change (Z.ones 1) with 1 in Hl. rewrite Hl.
  pose proof (Z.mod_pos_bound z (2 ^ 1) ltac:(lia)). lia.
Qed.

(** The entry of a key is replaced. *)
Definition put_step (key : string) (v : value) (s : lstate) : lstate :=
  match tables s !! tid with
  | Some tab => set_tables (<[tid := invalidateTagMethodCache (hash_put (VString key) v tab)]> (tables s)) s
  | None => s
  end.
Lemma put_step_agrees s s' b t key v : table_agrees s b t → tables s' = tables (put_step key v s) → goClosures s' = goClosures s →
  table_agrees s' b (table_put key (abs v) t).
Proof.
  intros [(tab & m & Htab & Hm & Hok & Hmt & Hi & Hn & Hb & Ht) Hne Hg] Hs Hgo. unfold put_step in Hs. rewrite Htab in Hs. cbn in Hs.
  destruct (hash_put_spec key v tab Hok) as (Hok' & Hmt' & _). split; [|done|by rewrite Hgo].
  eexists _, m. rewrite Hs, lookup_insert_eq, lookup_insert_ne by done. split_and!; try done; [by rewrite Hmt'|by apply shown_put].
Qed.
Lemma same_agrees s s' b t : table_agrees s b t → tables s' = tables s → goClosures s' = goClosures s → table_agrees s' b t.
Proof. intros [Htab Hne Hg] Hs Hgo. split; [by rewrite Hs|done|by rewrite Hgo]. Qed.

(** [setTableAt] on the table [step], past the metatable. *)
Lemma set_direct call s b t key v : table_agrees s b t →
  (bool_decide (is_Some (t !! key)) && negb (is_nil v) || b) = true →
  setTableAt call (VTable tid) (VString key) v s = Done () (put_step key v s).
Proof.
  intros [(tab & m & Htab & Hm & Hok & Hmt & Hi & Hn & -> & Ht) Hne Hg] Hdirect. unfold put_step. rewrite Htab.
  unfold setTableAt. change maxTagLoop with (S 99). generalize 99%nat. intros n. cbn [set_table_at].
  rewrite (bind_done _ _ _ None (set_tables (<[tid := invalidateTagMethodCache (hash_put (VString key) v tab)]> (tables s)) s)); [done|].
  erewrite table_of_done by done. cbn [tryPut]. rewrite Ht in Hdirect. unfold shown in Hdirect.
  change (look (VString key) tab) with (hget (hash tab) (VString key)) in Hdirect. unfold try_hash. erewrite ok_done by done.
  destruct (is_nil (hget (hash tab) (VString key))) eqn:E1, (is_nil v) eqn:E2; cbn [negb andb]; cbn beta iota.
  4: { assert (hash_put (VString key) v tab = set_hash (hset (hash tab) (VString key) v) tab) as -> by (unfold hash_put; by rewrite E2). done. }
  all: cbn in Hdirect; assert (missed_mark m = true) as Hmark by (by rewrite ?bool_decide_eq_false_2, ?andb_false_r in Hdirect by (intros []; congruence)).
  all: rewrite (bind_done (fastTagMethod _ _) _ _ VNil s).
  all: cbn [is_nil]; try (rewrite (bind_done (put_checked _ _ _ _) _ _ () (set_tables (<[tid := invalidateTagMethodCache (hash_put (VString key) v tab)]> (tables s)) s)); [done|];
    unfold put_checked; erewrite table_of_done by done; done).
  all: unfold fastTagMethod; rewrite Hmt; erewrite table_of_done by done; unfold missed_mark in Hmark.
  all: destruct (land_one (flags m)) as [E|E]; rewrite E in *; done.
Qed.

(** ... and through it. *)
Lemma set_through call s b t key v : table_agrees s b t →
  (bool_decide (is_Some (t !! key)) && negb (is_nil v) || b) = false →
  setTableAt call (VTable tid) (VString key) v s = callTagMethodV call (VGoFunction gid) (VTable tid) (VString key) v s.
Proof.
  intros [(tab & m & Htab & Hm & Hok & Hmt & Hi & Hn & -> & Ht) Hne Hg] Hdirect. apply orb_false_iff in Hdirect as [Hd Hmark].
  apply (assign_handled call tid mid tab m (VGoFunction gid) s Htab Hmt Hm); try done.
  - unfold missed_mark in Hmark. apply negb_false_iff, Z.eqb_eq in Hmark. done.
  - cbn [tryPut]. unfold try_hash. rewrite Ht in Hd. unfold shown in Hd.
    change (look (VString key) tab) with (hget (hash tab) (VString key)) in Hd.
    destruct (is_nil (hget (hash tab) (VString key))); [done|]. destruct (is_nil v); [done|]. by rewrite bool_decide_eq_true_2 in Hd by by eexists.
Qed.

Lemma same_below_tables t s : same_below s (set_tables t s) ∧ (in_bounds s → in_bounds (set_tables t s)).
Proof. split; [by split|]. by intros []. Qed.

(** A search for [__index] leaves its mark. *)
Lemma read_agrees call s b t key : table_agrees s b t → ∃ w ts,
  tableAt call (VTable tid) (VString key) s = Done w (set_tables ts s) ∧ t !! key = shown w ∧
  table_agrees (set_tables ts s) (match t !! key with Some _ => b | None => true end) t.
Proof.
  intros Hag. pose proof Hag as [(tab & m & Htab & Hm & Hok & Hmt & Hi & Hn & Hb & Ht) Hne Hg]. pose proof (Ht key) as Hkey. unfold shown in Hkey.
  assert (set_tables (tables s) s = s) as Hsame by by destruct s.
  destruct (is_nil (look (VString key) tab)) eqn:El.
  2: { exists (look (VString key) tab), (tables s). rewrite Hsame. split; [|rewrite Hkey; split; [by unfold shown; rewrite El|exact Hag]].
       unfold tableAt. change maxTagLoop with (S 99). generalize 99%nat. intros n. cbn [table_at].
       rewrite (bind_done _ _ _ (look (VString key) tab, VNil) s); [done|]. erewrite table_of_done by done.
       erewrite ok_done by (by apply at_look). by rewrite El. }
  assert (look (VString key) tab = VNil) as El' by (by destruct (look _ _)). clear El. rename El' into El.
  rewrite Hkey. destruct (missed_mark m) eqn:Hmark.
  - exists VNil, (tables s). rewrite Hsame. split; [|split; [done|by rewrite <- Hb]]. unfold tableAt. change maxTagLoop with (S 99). generalize 99%nat. intros n.
    cbn [table_at]. rewrite (bind_done _ _ _ (VNil, VNil) s); [done|]. erewrite table_of_done by done. erewrite ok_done by (by apply at_look).
    rewrite El. cbn [is_nil negb]. rewrite (bind_done (fastTagMethod _ _) _ _ VNil s); [done|].
    unfold fastTagMethod. rewrite Hmt. erewrite table_of_done by done. unfold missed_mark in Hmark. pose proof (land_one (flags m)) as [E|E]; rewrite E in *; done.
  - exists VNil, (<[mid := set_flags (Z.lor (flags m) 1) m]> (tables s)). unfold missed_mark in Hmark. apply negb_false_iff, Z.eqb_eq in Hmark. split; [|split; [done|]].
    + by apply (read_missing call tid mid tab m s Htab Hok Hmt Hm Hmark Hi).
    + split; [|done|done]. exists tab, (set_flags (Z.lor (flags m) 1) m). cbn [tables set_tables]. rewrite lookup_insert_ne, lookup_insert_eq by done.
      split_and!; try done. unfold missed_mark. cbn [flags set_flags]. by rewrite Z.land_lor_distr_l, Hmark.
Qed.

Lemma put_step_same s s' key v : tables s = tables s' → tables (put_step key v s) = tables (put_step key v s').
Proof. intros Hs. unfold put_step. rewrite Hs. by destruct (tables s' !! tid). Qed.
Lemma put_step_keeps s key v : same_below s (put_step key v s) ∧ (in_bounds s → in_bounds (put_step key v s)) ∧
  world (put_step key v s) = world s ∧ goClosures (put_step key v s) = goClosures s.
Proof. unfold put_step. destruct (tables s !! tid); [split_and!; try done; by apply same_below_tables|]. split_and!; done. Qed.

(** The handler registers a step. *)
Lemma handler_registers n s ci cs key v : (∃ tab, tables s !! tid = Some tab) → in_bounds s → callInfos s = ci :: cs →
  goClosures s !! gid = Some (mkGoClosure fn_registerStep []) → m_configured (prgm_of s) = false →
  ∃ s', callTagMethodV (call_ host (S n)) (VGoFunction gid) (VTable tid) (VString key) v s = Done () s' ∧
    tables s' = tables (put_step key v s) ∧ prgm_of s' = set_m_steps (m_steps (prgm_of s) ++ [key]) (prgm_of s) ∧
    same_below s s' ∧ in_bounds s'.
Proof.
  intros [tab Htab] Hb Hc Hgid Hconf.
  destruct (handler_call n gid fn_registerStep (VTable tid) (VString key) v s ci cs Hb Hc Hgid) as (lo & x & hi & m & Hrun & Ht & Hlo & Hlen & Hm1 & Hm2).
  set (s4 := with_stack _ _ s) in Hrun. set (base := go_base s4 lo 0 (ci_lua ci) m) in Hrun.
  assert (length (stack s4) = length (stack s)) as Hlen4 by (unfold s4; cbn; rewrite length_app, Hlen; cbn; lia).
  rewrite Hrun. rewrite (bind_done _ _ _ _ _ (register_done base (lo ++ [VGoFunction gid]) (go_frame s4 lo 0) (callInfos s4) (call_ host n) tid tab key v
    (x :: hi ++ replicate m VNil) eq_refl ltac:(rewrite length_app; cbn; lia) Htab Hconf)).
  set (base' := set_world _ _). rewrite (after_go_done host s4 lo [VTable tid; VString key; v] gid ltac:(unfold s4; cbn; lia) n (ci_lua ci) base' [VTable tid] _ eq_refl).
  eexists. split; [reflexivity|]. split; [cbn; unfold put_step; by rewrite Htab|]. split; [done|]. destruct Hb as [Hb1 Hb2 Hb3 Hb4].
  set (l := lo ++ VGoFunction gid :: [VTable tid] ++ VString key :: v :: x :: hi ++ replicate m VNil).
  assert (length l = length (stack s) + m)%nat as Hl by (unfold l; rewrite length_app, Hlen; cbn; rewrite length_app, length_replicate; lia).
  split.
  - split; cbn; try done.
    + rewrite <- Hlo, Ht, Nat2Z.id. apply take_app_length.
    + change (length (stack s) ≤ length l)%nat. lia.
    + split_and!; [lia| |done]. destruct (ci_lua ci); lia.
  - split; cbn.
    + destruct Hb1 as (? & ? & ? & ?). unfold stack_room. cbn. fold l. rewrite Hl. split_and!; try done; lia.
    + fold l. rewrite Hl. change (lo ++ VGoFunction gid :: VTable tid :: VString key :: v :: x :: hi) with (stack s4). by rewrite Hlen4.
    + change (lo ++ VGoFunction gid :: VTable tid :: VString key :: v :: x :: hi) with (stack s4). rewrite Hlen4. unfold extraStack in *. lia.
    + lia.
Qed.

(** ... or refuses to: the error has the line of the caller. *)
Lemma handler_refuses n s ci c0 cs key v p ln : in_bounds s → callInfos s = ci :: c0 :: cs →
  goClosures s !! gid = Some (mkGoClosure fn_registerStep []) → m_configured (prgm_of s) = true → errorFunction s = 0 →
  lua_call s ci p ln → ci_function ci < top s →
  ∃ s', callTagMethodV (call_ host (S n)) (VGoFunction gid) (VTable tid) (VString key) v s =
      Throw (LuaState.RuntimeError (position_text p ln +:+ "step is immutable")) s' ∧
    tables s' = tables s ∧ world s' = world s ∧ goClosures s' = goClosures s.
Proof.
  intros Hb Hc Hgid Hconf Hef Hlc Hbelow.
  destruct (handler_call n gid fn_registerStep (VTable tid) (VString key) v s ci (c0 :: cs) Hb Hc Hgid) as (lo & x & hi & m & Hrun & Ht & Hlo & Hlen & Hm1 & Hm2).
  set (s4 := with_stack _ _ s) in Hrun. set (base := go_base s4 lo 0 (ci_lua ci) m) in Hrun.
  assert (length (stack s4) = length (stack s)) as Hlen4 by (unfold s4; cbn; rewrite length_app, Hlen; cbn; lia).
  assert (∀ args hi, lua_call (frame base (lo ++ [VGoFunction gid]) args hi) ci p ln) as Hcaller.
  { intros args hi'. destruct Hlc as [L1 (cid & c & node & k & Hf & Hs & H1 & H2 & H3) L3]. split; [done| |done].
    exists cid, c, node, k. split_and!; try done. rewrite frame_stack, <- app_assoc. apply lookup_app_l_Some.
    rewrite Hlo, lookup_take_lt; [done|lia]. }
  assert (length ((lo ++ [VGoFunction gid]) ++ [VTable tid; VString key; v] ++ x :: hi ++ replicate m VNil) = length (stack s) + m)%nat as Hl
    by (rewrite !length_app, Hlen; cbn; rewrite length_app, length_replicate; lia).
  destruct (register_refused base (lo ++ [VGoFunction gid]) (go_frame s4 lo 0) ci c0 cs (call_ host n) p ln [VTable tid; VString key; v] x (hi ++ replicate m VNil))
    as (s' & Hr & Hs'); try done.
  - unfold base, go_base. cbn. by rewrite Hc.
  - rewrite length_app. cbn. lia.
  - rewrite Hl. change (stackLast base) with (Z.of_nat (length (stack s4) + m) - extraStack). by rewrite Hlen4.
  - rewrite Hl. lia.
  - rewrite length_app. cbn. destruct Hb as [(_ & _ & Hr & _) _ _ _]. unfold MinStack, extraStack in *. lia.
  - exists s'. split; [|exact Hs']. rewrite Hrun. unfold mbind, lua_bind.
    change (host (call_ host n) fn_registerStep []) with (host_registerStep order (call_ host n)). by rewrite Hr.
Qed.

(** C28: on the machine an assignment to the table [step] and a reading of it do what Engine.v says.
    From a state whose table, list of steps and flag are those of the program, [setTableAt],
    through the metatable and [registerStep] as it is written, registers a new step, changes
    the function of one that exists, registers one that is set to nil once more, goes past the
    handler after a key that is missing has been read, and fails with step is immutable, at
    the line of the caller, when the program is prepared; [tableAt] reads what was assigned.
    The state after it is again that of the program, nothing but the table and the list has
    changed below the top of the stack, and the stack keeps its bounds. *)
Theorem steps_on_machine (s : lstate) (p : LuaProgram W N R) (key : string) (v : value) (n : nat)
    (ci c0 : callInfo) (cs : list callInfo) (pr : prototype) (ln : Z) :
  step_agrees s p → in_bounds s → callInfos s = ci :: c0 :: cs → lua_call s ci pr ln → ci_function ci < top s →
  errorFunction s = 0 → vm_where (heap p) = position_text pr ln →
  let call := call_ host (S n) in
  match assign_step (LString key) (abs v) p with
  | (Ok _, p') => ∃ s', setTableAt call (VTable tid) (VString key) v s = Done () s' ∧ step_agrees s' p' ∧ same_below s s' ∧ in_bounds s'
  | (Err e, p') => ∃ x s', setTableAt call (VTable tid) (VString key) v s = Throw x s' ∧ e = Errorf (exn_text x) ∧ step_agrees s' p'
  | (Panic _, _) => False
  end ∧
  let '(r, p') := read_step (LString key) p in
  ∃ w s', tableAt call (VTable tid) (VString key) s = Done w s' ∧ r = default LNil (shown w) ∧ step_agrees s' p' ∧ same_below s s' ∧ in_bounds s'.
Proof.
  intros (Hag & Hsteps & Hconf) Hb Hc Hlc Hf Hef Hwhere call. unfold step_agrees. pose proof Hag as [(tab & m & Htab & _) _ Hgid]. split.
  - unfold assign_step. change (step_value (LString key) p) with (step_table p !! key). rewrite Habs.
    destruct (_ && _ || _) eqn:Hd.
    + exists (put_step key v s). cbn [raw_assign]. split; [by eapply set_direct|]. destruct (put_step_keeps s key v) as (K1 & K2 & K3 & K4).
      split_and!; [|by unfold prgm_of; rewrite K3|by unfold prgm_of; rewrite K3|done|auto]. by eapply put_step_agrees.
    + rewrite (set_through call s _ _ key v Hag Hd). unfold registerStep. destruct (configured p) eqn:Hcf.
      * destruct (handler_refuses n s ci c0 cs key v pr ln Hb Hc Hgid) as (s' & Hr & S1 & S2 & S3); [by rewrite Hconf|done..|].
        eexists _, s'. split; [exact Hr|]. split; [by rewrite Hwhere|]. split; [by eapply same_agrees|].
        unfold prgm_of in *. rewrite S2. by split; [|rewrite Hcf].
      * destruct (handler_registers n s ci (c0 :: cs) key v) as (s' & Hr & S1 & S2 & S3 & S4); [eauto|done|done|done|by rewrite Hconf|].
        cbn. exists s'. split_and!; try done.
        -- eapply put_step_agrees; [done|done|]. apply S3.
        -- rewrite S2. cbn. by rewrite Hsteps.
        -- rewrite S2. cbn. by rewrite Hconf.
  - destruct (read_agrees call s _ _ key Hag) as (w & ts & Hr & Hk & Hag'). unfold read_step.
    change (step_value (LString key) p) with (step_table p !! key). destruct (same_below_tables ts s) as [K1 K2].
    destruct (step_table p !! key) eqn:E; exists w, (set_tables ts s); (split_and!; [done|by rewrite <- Hk|exact Hag'|done|done|done|auto]).
Qed.
End agrees.
End engine.

(** ** Whole scripts *)

(** A server that answers with a body and a header, and keeps what is posted. *)
Definition hello_body : string := "{hello: world}".
Definition hello : response :=
  mkResponse 200 "200 OK" 14 {["Lol-Lol-Lol-Lol" := "lolololol"]} (Ok hello_body).
Definition accepted : response := mkResponse 200 "200 OK" 0 ∅ (Ok ""%string).
#[export] Instance posting : HTTP (list string) := {|
  http_Get _ n := (n, Ok hello); http_Post _ _ body n := (n ++ [body], Ok accepted) |}.

(** A walk over a map in the order of its keys; nothing is printed of objects. *)
Definition key_order (h : gmap value value) : list value := map fst (map_to_list h).
Definition no_print (v : value) : bytes := [].
Notation script_world := (@prgm_world (list string) (list metric_call)).
Definition script_start : prgm_state (list string) (list metric_call) := mkPrgm false [] [] [] None [] 0.

(** What [Lua] and [Execute] return for a source, and what is left outside of the machine. *)
Definition run_script (n : nat) (source : string) : option (outcome unit * option error * prgm_state (list string) (list metric_call)) :=
  let m : @LuaState.lua script_world _ := (
    r ← host_Lua key_order no_print n source;
    match r with
    | Ok _ => e ← host_Execute key_order no_print n (λ _, false); mret (r, e)
    | _ => mret (r, None)
    end) in
  match m (@NewState script_world script_start) with
  | Done (r, e) s => Some (r, e, @world script_world s)
  | _ => None
  end.
Definition logged (n : nat) (source : string) : option (outcome unit * option error * list (string * string * value)) :=
  '(r, e, w) ← run_script n source; Some (r, e, m_out w).

(** The scripts of lua_test.go. *)
Example engine_logs :
  logged 300 "step.first_step = function() info('hello world') end step.second_step = function() fatal('still there') end step.first_step = function() info('hello world') end" =
  Some (Ok (), None, [("info"%string, "first_step"%string, VString "hello world"); ("fatal"%string, "second_step"%string, VString "still there")]).
Proof. by vm_compute. Qed.
Example engine_http :
  option_map (λ x, (x.1, m_net x.2, map (λ l, l.2) (m_out x.2), m_metrics x.2))
    (run_script 300 "step.first_step = function() resp = get('http://srv/') info(resp.header['Lol-Lol-Lol-Lol']) post('http://srv/', 'application/json', resp.body) end") =
  Some ((Ok (), None), [hello_body], [VString "lolololol"],
    [IncrScriptExecution; IncrHTTPGet (to_bytes "http://srv/") 200 1; IncrLogInfo (FString (to_bytes "lolololol"));
     IncrHTTPPost (to_bytes "http://srv/") 200 1; IncrStepExecution "first_step" 8]).
Proof. by vm_compute. Qed.

(** Each step gets what the one before returned. *)
Example steps_in_line :
  logged 300 "step.a = function(r) return { n = 2 } end step.b = function(r) return r.n * 10 + 1 end step.c = function(r) info(r) end" =
  Some (Ok (), None, [("info"%string, "c"%string, VNumber (float_of_int 21))]).
Proof. by vm_compute. Qed.

(** Errors carry the place, as far as the machine knows it: the argument is counted from the
    top and the function has no name. *)
Example bad_argument :
  option_map (λ x, x.1.2) (run_script 300 "step.a = function() get(nil) end") =
  Some (Some (Errorf ("a:runtime error: [string " +:+ String dquote "?" +:+ String dquote "]:1: bad argument #-1 to '?' (string expected, got nil)"))).
Proof. by vm_compute. Qed.
Example immutable_step :
  option_map (λ x, x.1.2) (run_script 300 "step.a = function() step.b = info end") =
  Some (Some (Errorf ("a:runtime error: [string " +:+ String dquote "?" +:+ String dquote "]:1: step is immutable"))).
Proof. by vm_compute. Qed.
(** A step that is a Go function itself and gets a bad argument fails an assertion of type in
    the search for its name. *)
Example go_step :
  option_map (λ x, x.1.2) (run_script 300 "step.a = get") = Some (Some (Errorf "a:interface conversion")).
Proof. by vm_compute. Qed.
(** A step that is read before it is assigned is never run. *)
Example lost_step :
  option_map (λ x, (x.1, m_steps x.2)) (run_script 300 "if not step.a then step.a = function() info('a') end end") = Some (Ok (), None, []).
Proof. by vm_compute. Qed.
(** [info] outside of steps ends the preparation. *)
Example info_outside :
  option_map (λ x, x.1) (run_script 300 "info('a')") = Some (Err (Errorf "preparing program: 'info' is not defined outside of steps"), None).
Proof. by vm_compute. Qed.

(** *** A state for the witness: the table is set up, and a chunk is about to run. *)

Notation script_host := (engine_host (N := list string) (R := list metric_call) key_order no_print).
Definition start_chunk (source : string) : @LuaState.lua script_world unit :=
  _ ← host_configureLua key_order no_print 10;
  _ ← Load "" (to_bytes source);
  t ← gets top;
  _ ← preCall (call_ script_host 10) script_host 2 (t - 1) 0;
  mret ().
Definition chunk_state : @lstate script_world :=
  match start_chunk "step.a = 1" (@NewState script_world script_start) with Done _ s => s | _ => @NewState script_world script_start end.
Definition chunk_table (id : nat) : table := default newTable (tables chunk_state !! id).
Definition chunk_node : proto_node := default (mkNode (new_prototype "" 0 false) [] None) (snd <$> head (map_to_list (protos chunk_state))).
Definition seen (v : value) : lua_value :=
  match v with
  | VNil => LNil | VBool b => LBool b | VNumber f => LNumber f | VString x => LString x
  | VTable i | VUserData i => LTable i | VLua i | VGoClosure i | VGoFunction i | VLight i => LFunction i | VThread => LFunction 0
  end.
#[export] Instance chunk_vm : LuaVM unit := {|
  vm_load _ := Ok test_chunk; vm_call := test_fn; vm_field _ _ _ := LNil; vm_number := fmt_v_float; vm_print _ := [];
  vm_where _ := position_text (n_proto chunk_node) 1; vm_bad_argument _ := "bad argument"%string; vm_not_callable _ := "attempt to call"%string |}.
Definition chunk_program : LuaProgram unit (list string) (list metric_call) := mkProgram false [] ∅ [] false ∅ () [] [] None [] 0.

Lemma chunk_agrees : step_agrees seen 4 2 3 chunk_state chunk_program.
Proof.
  split; [|by vm_compute]. split; [|done|by vm_compute]. exists (chunk_table 4), (chunk_table 2).
  assert (hash (chunk_table 4) = ∅) as Hh by (by vm_compute).
  split; [by vm_compute|]. split; [by vm_compute|]. split.
  { intros k v Hk. rewrite Hh in Hk. exact (False_ind _ (lookup_empty_Some _ _ Hk)). }
  split; [by vm_compute|]. split; [by vm_compute|]. split; [by vm_compute|]. split; [by vm_compute|].
  intros k. unfold look. cbn [int_key]. rewrite Hh. unfold hget, hkey. rewrite lookup_empty. cbn [step_table chunk_program].
  rewrite lookup_empty. exact eq_refl.
Qed.
Lemma chunk_bounds : in_bounds chunk_state.
Proof. split; [split_and!; by vm_compute|by vm_compute|by vm_compute|by vm_compute]. Qed.

Lemma steps_on_machine_witness :
  (∃ s', setTableAt (call_ script_host 3) (VTable 4) (VString "a") (VBool true) chunk_state = Done () s' ∧
    step_agrees seen 4 2 3 s' (set_steps ["a"%string] {["a"%string := LBool true]} chunk_program)) ∧
  ∃ w s', tableAt (call_ script_host 3) (VTable 4) (VString "a") chunk_state = Done w s' ∧ step_agrees seen 4 2 3 s' (set_missed chunk_program).
Proof.
  destruct (steps_on_machine key_order no_print seen (λ v, ltac:(by destruct v)) 4 2 3 chunk_state chunk_program "a" (VBool true) 2
    (default (mkCall 0 0 0 0 false 0 [] false false) (head (callInfos chunk_state))) (mkCall 0 0 22 0 true 0 [] false false) [] (n_proto chunk_node) 1
    chunk_agrees chunk_bounds) as [(s1 & H1 & H2 & _) (w & s2 & H3 & _ & H4 & _)].
  - by vm_compute.
  - split; [by vm_compute| |].
    + eexists 7%nat, _, chunk_node, 1%nat. split; [by vm_compute|]. split; [by vm_compute|]. split; [vm_compute; reflexivity|]. split; by vm_compute.
    + exists 0%nat. split; by vm_compute.
  - by vm_compute.
  - by vm_compute.
  - done.
  - exact (conj (ex_intro _ s1 (conj H1 H2)) (ex_intro _ w (ex_intro _ s2 (conj H3 H4)))).
Defined.
